(* ===== verification/_CoqProject ===== *)
-Q . S2P
Prelude.v
Stateful.v
Console.v
Path.v
Policy.v
Validation.v
PolicyFormat.v
Topology.v
MountBackend.v
Snapshot.v
Binary.v
BinaryProofs.v
BinaryRoundTrip.v
ProcessPlan.v
ProcessPlanProofs.v
Bootstrap.v
Resolver.v
MountExecutor.v
Pin.v
Probe.v
MountTransaction.v
RuntimeStatus.v
ProcessIdentity.v
RuntimeTopology.v
Preflight.v
Source.v
Scanner.v
Desugar.v
Provider.v
ProviderRules.v
ProviderHook.v
ProviderInstall.v
MediaQueryHook.v
Module.v
Semantic.v
Compiler.v
Tools.v
Cli.v
Sha256.v
Control.v
Daemon.v
Protocol.v
ProtocolProofs.v
Companion.v
