(* ===== verification/Prelude.v ===== *)
(** * PathGuard Next: a verification development

    PathGuard Next hides and redirects storage paths of Android applications. A rules file
    is compiled to a binary policy; a zygote module reads the policy in every application
    process and asks a companion process to mount, in the namespace of the application, what
    the policy says; hooks of the media provider apply the same rules to provider calls.
    This development models the parts of the C++ sources that decide something (src/ below)
    and proves what they promise to each other. Definitions keep the names of the functions
    they translate; PROJECT.json maps each to its lines.

    ** Conventions

    Bytes are [Byte.byte] and texts are [list byte]; integers are [Z], with [u16], [u32],
    [u64] where the code converts or may wrap; offsets into a text that the code bounds are
    [nat] in the rules front end. A read through a pointer is a read at an offset that is
    [Oob] outside the buffer ([outcome], this file), so that memory safety is a theorem and
    not an assumption. An error of the code is [Err] or [None], with its message or code.
    Loops over a text are recursions on the text, or have fuel; whenever there is fuel a
    theorem says that the fuel given is enough ([scan_within_limits], [redirect_cycle_exact],
    and the lemmas of the lookups and decoders that their
    properties use). What the system calls, the clocks and the unordered containers of the
    standard library answer is an argument, and the theorems hold for every answer.

    ** Files and what they show

    - [Prelude]: bytes, integers, [outcome], [std::sort] by a key, checksums' arithmetic,
      [std::to_string], the tactics and hints the components share.
    - [Stateful]: computations that thread a state through calls that may leave their bounds, the
      judgement [ends] that one returns and what holds then, and open descriptors.
    - [Console]: the output streams of the programs, and the operations on file system paths.
    - [Path] (core/src/path.cpp, path.h): normalization, storage aliases, placeholders.
      [normalize_path_canonical], [expand_path_placeholders_template].
    - [Policy] (core/include/pathguard/policy.h): the schema-2 document.
    - [Validation] (core/src/validation.cpp): [ValidatePolicy] on every branch; what it
      accepts, and that what it returns is canonical ([validate_policy_canonical]), independent of
      the order of the rules.
    - [PolicyFormat] (policy_format.h, policy_index.h): the layout, FNV-1a and CRC-32, and
      the lookup of a package in the encoded file: in bounds on any file, and equal to a
      linear search on the files the decoder accepts.
    - [Topology] (core/src/topology.cpp): mountinfo to the storage of each user.
    - [MountBackend] (capabilities.h, mount_backend.h, mount_transaction.h,
      mutation_journal.h): backend selection and fallback, the states of a transaction, the
      journal, which refines a bounded stack.
    - [Snapshot] (native/mount_info_snapshot.cpp): parsing and lookup of mountinfo.
    - [Binary], [BinaryProofs], [BinaryRoundTrip] (core/src/binary.cpp): encoder and decoder;
      safety on arbitrary bytes, soundness, detection of corruption, the round trip of the documents
      whose lists are not empty and whose names have no comma ([encodable]; the encoder accepts
      others), bounds of the encoder and the generation of a document.
    - [ProcessPlan], [ProcessPlanProofs] (zygisk/src/module_entry.cpp, LoadProcessPlan and
      what it calls): the loader that runs in every process refines the decoder.
    - [Bootstrap] (module_entry.cpp, the request of the application to the companion):
      [request_roundtrip], and a request that the companion accepts carries the plan that the
      policy file gives the process ([accepted_request_is_policy]).
    - [Resolver] (native/directory_resolver.cpp): directories opened one component at a time,
      over a kernel whose tree may change between two calls.
    - [MountExecutor] (native/mount_executor.cpp): one mount, its verification and its
      removal over the system calls of a [Sys] record.
    - [Pin] (the same file): the directory a mount starts from is pinned
      ([pin_directory_sound]); a backend is used only after a mount was made with it, verified
      and removed ([probed_backend_works]).
    - [MountTransaction] (module_entry.cpp, ApplyProcessPlan): a transaction ends with every
      rule mounted (and, for the string backend, verified), with nothing mounted, or with a failed
      rollback; [report_failure] is what it publishes of a failure, the taint included
      ([transaction_atomic]).
    - [ProcessIdentity], [RuntimeTopology], [Preflight] (module_entry.cpp): what the companion
      reads about a process, the topology it captures and compares, and what it does before the
      first mount, with every descriptor it opens; [apply_process_plan_safe] is about the whole of
      [ApplyProcessPlan], and names the one descriptor that a failed [fdopendir] leaks.
    - [RuntimeStatus] (runtime_status.h, WriteRuntimeStatus): the record and its text.
    - [Source], [Scanner], [Desugar] (rules/src/source.cpp, diagnostic.cpp, format_probe.cpp,
      arrow_scanner.cpp, desugarer.cpp): positions and diagnostics, the scanner of the arrow
      shorthand, and the rewriting to TOML with its map of positions.
    - [Provider] (zygisk/src/provider_path_mapper.cpp, media_query_filter.cpp,
      provider_caller_uid.hpp, provider_redirect_lifecycle.hpp): the paths, the queries and
      the caller identity of the provider hooks.
    - [ProviderRules] (module_entry.cpp, LoadProviderRules): the rules of the provider hooks
      are the redirects of the policy file ([load_provider_rules_agrees]).
    - [ProviderHook], [ProviderInstall] (zygisk/src/provider_redirect_hook.cpp): the replacements
      of the file functions in the media provider, over originals that may do anything, and
      their installation in the images of the process. [hooked_call_exact] relates every call to
      the path mapper, [realpath_roundtrip] and [realpath_hides_backing] are about the way back,
      [fuse_request_acts_for_caller] about who is calling, [enabled_hooks_are_complete] about
      the moments at which the replacements act at all.
    - [MediaQueryHook] (zygisk/src/media_query_hook.cpp): the hook of the binder transactions of
      an application over a Java that may throw at every call. [media_query_constrained] says what
      is sent instead of a query, [filter_arguments_aligned] what the filter does to it, and
      [undisturbed_query_defined] when no call is undefined.
    - [Module] (module_entry.cpp, PathGuardModule): the callbacks that Zygisk runs in every process,
      composed of the loaders, the request and the hooks. [module_lifecycle] says what the module
      leaves open or mapped (the policy that the loaders map included) and that it asks to be
      unloaded exactly when nothing of the process points into it, [media_hook_after_commit] when and
      with which paths the hook of the media queries is installed.
    - [Semantic] (rules/src/semantic.cpp): limits, path normalization, conflicts, cycles, the
      canonical policy, its encoding and verification, admission. The conflict checks compare
      neighbours in sorted lists and stop reporting when the list of diagnostics is full;
      [compile_ok_enforces] says what they exclude, the examples what passes.
    - [Compiler] (rules/src/compiler.cpp): the decoding of a TOML tree to a rules document and
      the binding of the arrows, as a state monad over the diagnostics. [toml::parse] and the
      conversions of its values are arguments ([TomlValue]). [parsed_document_wellformed] relates a
      document to the tree field by field, [arrow_rules_all_decoded] its redirects to the operands
      of the arrows.
    - [Sha256], [Control] (daemon/src/rules_control.cpp): the digest, the stable reading of
      rules.toml, the publication of a policy with every state a crash may leave, the texts that
      are written and what of them reaches the disk, the status files, and the reconciler ([publish_crash_safe], [reconcile_tracks_deployment],
      [restart_recovers], [save_rules_guarded]).
    - [Tools] (rules/src/tools.cpp): what lint, plan and explain say about rules.
      [policy_plan_replays]: a plan is exactly the difference of the deny and redirect rules of two
      policies.
    - [Probe], [Daemon] (daemon/src/main.cpp): the probes, the options and the two loops around the
      reconciler. [rules_events_reconcile] is about the events that inotify delivers,
      [daemon_deploys_only_admitted] about any run from the start on.
    - [Cli] (cli/src/main.cpp): the commands of pathguardctl, with the exceptions that nobody
      catches and the output that is lost. [cli_writes_only_policies] says when a file is written
      and what is in it.
    - [Protocol], [ProtocolProofs] (module_entry.cpp): the state word that the application,
      the worker and the companion share, as a step relation over all interleavings. The steps of
      the application carry the time its clock shows (nanoseconds, too far from 2^64 to wrap);
      [application_stops_waiting] bounds the time it waits, with a delay [delta] of the scheduler.
    - [Companion] (module_entry.cpp, CompanionHandler): the handler as a sequence of accesses between
      which the others do what [Protocol] lets them do. [companion_refines_protocol] says that every
      run of it is one of the protocol and what it closes and writes, [companion_reports_honestly]
      what the enforcement and the outcome in the status file can be trusted for.

    ** How the parts fit

    [serve] waits for the rules to change and calls [Reconcile] ([rules_events_reconcile]), which
    reads them and calls [CompileRules]: the desugarer rewrites the arrows
    ([desugar_rules_exact]), the decoder binds each to its redirect
    ([arrow_rules_all_decoded], [parsed_document_wellformed]), and the semantic analysis ends in
    [EncodePolicy] and in [VerifyPolicyBlob], which runs [DecodePolicy].
    [compile_ok_enforces] relates the rules as written to the canonical policy, [decode_encode]
    the policy to the file, [publish_crash_safe] the file to what is on disk,
    [load_process_plan_agrees] the file to the plan of a process, [request_roundtrip] and
    [accepted_request_is_policy] the plan to what the companion works on, [pin_directory_sound],
    [apply_process_plan_safe] and [transaction_atomic] that to the mounts, and
    [abandoned_transaction_never_mounts] and [complete_is_committed] what the application may
    conclude from the shared state; [companion_refines_protocol] carries these to the code of the
    companion. [module_lifecycle] is about the callbacks that start all this in a process.
    [load_provider_rules_agrees] relates the same file to the
    rules of the provider hooks, [enabled_hooks_are_complete] those to the rules that are in
    force, and [hooked_call_exact] these to the calls that reach libc.

    ** Not modelled

    Of module_entry.cpp the logs, the timings and the sockets below a message or a stream are left
    out. The toml++ library is not part of the repository, and zygisk.hpp is the interface of
    Zygisk, of which nothing is decided here. provider_redirect_symbols.hpp is used by the tests
    only. Of the daemon the Android build is modelled; that the
    two output streams of a program interleave, and the running time of anything, is not
    represented. *)

From Stdlib Require Import String.
From Stdlib Require Export ZArith Lia Bool Strings.Byte Sorted Permutation.
From stdpp Require Export base list gmap.

Export Stdlib.Strings.String.StringSyntax.
#[global] Open Scope Z_scope.

(** ** Byte strings

    [std::string], [std::string_view] and [std::vector<uint8_t>] are all
    sequences of octets, modelled by lists of [Byte.byte]. *)

Abbreviation byte := Byte.byte.
Abbreviation bytes := (list Byte.byte).

(** A C++ string literal. *)
Definition lit (s : string) : bytes := list_byte_of_string s.
Arguments lit s%_string_scope.

(** The unsigned value of a byte, and the truncation [static_cast<uint8_t>]. *)
Definition byte_val (b : byte) : Z := Z.of_N (Byte.to_N b).

Definition byte_of (z : Z) : byte :=
  match Byte.of_N (Z.to_N (z mod 256)) with
  | Some b => b
  | None => x00
  end.

(** Machine integers are [Z] values with their wrap-around written out. *)
Definition u16 (z : Z) : Z := z mod 2 ^ 16.
Definition u32 (z : Z) : Z := z mod 2 ^ 32.
Definition u64 (z : Z) : Z := z mod 2 ^ 64.

(** [static_cast<int32_t>] of an unsigned value. *)
Definition int32 (z : Z) : Z := (z + 2 ^ 31) mod 2 ^ 32 - 2 ^ 31.

(** [size()] of a string or vector. *)
Definition size {A} (l : list A) : Z := Z.of_nat (length l).

#[export] Instance byte_eq_dec : EqDecision byte := Byte.byte_eq_dec.

#[export] Instance byte_countable : Countable byte.
Proof. exact (inj_countable Byte.to_N Byte.of_N Byte.of_to_N). Defined.

#[export] Instance byte_inhabited : Inhabited byte := populate x00.

(** Boolean equality of two values of a decidable type, as [==] in the code. *)
Declare Scope pg_scope.
Delimit Scope pg_scope with pg.
Notation "x == y" := (bool_decide (x = y)) (at level 70) : pg_scope.
Notation "x != y" := (negb (bool_decide (x = y))) (at level 70) : pg_scope.

(** ** Outcomes

    A fallible routine returns a value, reports an error, or performs an access
    outside the object it was given ([Oob]), which C++ leaves undefined. *)
Inductive outcome (E A : Type) : Type :=
  | Ok (a : A)
  | Err (e : E)
  | Oob.

Arguments Ok {E A} a.
Arguments Err {E A} e.
Arguments Oob {E A}.

#[export] Instance outcome_ret {E} : MRet (outcome E) := fun A a => Ok a.

#[export] Instance outcome_bind {E} : MBind (outcome E) :=
  fun A B f m => match m with Ok a => f a | Err e => Err e | Oob => Oob end.

(** Runs a fallible step over a list, left to right, threading a state. *)
Fixpoint fold_outcome {E S A} (f : S -> A -> outcome E S) (s : S) (l : list A)
    : outcome E S :=
  match l with
  | [] => Ok s
  | x :: l' => s' ← f s x; fold_outcome f s' l'
  end.

(** The computation stays in bounds, and its result, when there is one,
    satisfies [Q]. *)
Definition ensures {E A} (m : outcome E A) (Q : A -> Prop) : Prop :=
  match m with Ok a => Q a | Err _ => True | Oob => False end.

(** ** Searching and splitting strings *)

(** [value.find(c)] together with the two [substr] calls around it: the part
    before the first [c], and what follows it when there is one. *)
Fixpoint cut (c : byte) (s : bytes) : bytes * option bytes :=
  match s with
  | [] => ([], None)
  | x :: s' =>
      if bool_decide (x = c) then ([], Some s')
      else let '(part, rest) := cut c s' in (x :: part, rest)
  end.

(** The components a [find]/[substr] loop visits, in order. *)
Fixpoint split_on (c : byte) (s : bytes) : list bytes :=
  match s with
  | [] => [[]]
  | x :: s' =>
      if bool_decide (x = c) then [] :: split_on c s'
      else match split_on c s' with
           | [] => [[x]]
           | part :: rest => (x :: part) :: rest
           end
  end.

(** Joins components with a separator. *)
Fixpoint join_with (c : byte) (parts : list bytes) : bytes :=
  match parts with
  | [] => []
  | [p] => p
  | p :: rest => p ++ c :: join_with c rest
  end.

Definition contains (c : byte) (s : bytes) : bool :=
  existsb (fun x => bool_decide (x = c)) s.

(** [value.rfind(prefix, 0) == 0] and [starts_with]. *)
Fixpoint starts_with (prefix s : bytes) : bool :=
  match prefix, s with
  | [], _ => true
  | p :: prefix', x :: s' => bool_decide (p = x) && starts_with prefix' s'
  | _ :: _, [] => false
  end.

(** ** Decimal numbers *)

Definition is_digit (b : byte) : bool :=
  (48 <=? byte_val b) && (byte_val b <=? 57).

(** [std::from_chars] in base 10 on an unsigned type of [width] bits, required
    to consume the whole text: at least one digit, no sign, and no overflow. *)
Fixpoint digits_value (acc : Z) (s : bytes) : option Z :=
  match s with
  | [] => Some acc
  | b :: s' =>
      if is_digit b then digits_value (acc * 10 + (byte_val b - 48)) s' else None
  end.

Definition from_chars (width : Z) (s : bytes) : option Z :=
  match s with
  | [] => None
  | _ => match digits_value 0 s with
         | Some v => if v <? 2 ^ width then Some v else None
         | None => None
         end
  end.

(** [std::to_string] of an unsigned value. *)
Fixpoint decimal_digits (fuel : nat) (z : Z) (acc : bytes) : bytes :=
  match fuel with
  | O => acc
  | S fuel' =>
      let acc' := byte_of (48 + z mod 10) :: acc in
      if z <? 10 then acc' else decimal_digits fuel' (z / 10) acc'
  end.

Definition to_string (z : Z) : bytes :=
  decimal_digits (S (Z.to_nat (Z.log2 z))) z [].

(** ** Little-endian integers *)

(** [snprintf("%d", value)] *)
Definition print_int (value : Z) : bytes :=
  if value <? 0 then lit "-" ++ to_string (- value) else to_string value.

Fixpoint le_bytes (n : nat) (z : Z) : bytes :=
  match n with
  | O => []
  | S n' => byte_of z :: le_bytes n' (Z.shiftr z 8)
  end.

(** [value |= input[index] << (index * 8)], lowest index first. *)
Fixpoint le_value (l : bytes) : Z :=
  match l with
  | [] => 0
  | b :: l' => Z.lor (byte_val b) (Z.shiftl (le_value l') 8)
  end.

(** ** Ordered keys

    Every comparator the program sorts with compares a key of the elements:
    an integer, a string, or a tuple of them compared lexicographically. *)
Class Ordered (K : Type) := {
  cmp : K -> K -> comparison;
  cmp_eq : forall x y, cmp x y = Eq <-> x = y;
  cmp_opp : forall x y, cmp y x = CompOpp (cmp x y);
  cmp_lt_trans : forall x y z, cmp x y = Lt -> cmp y z = Lt -> cmp x z = Lt;
}.

Definition key_lt {K} `{Ordered K} (x y : K) : bool :=
  match cmp x y with Lt => true | _ => false end.

(** [std::string::operator<]: unsigned bytes, a proper prefix first. *)
Fixpoint bytes_compare (a b : bytes) : comparison :=
  match a, b with
  | [], [] => Eq
  | [], _ :: _ => Lt
  | _ :: _, [] => Gt
  | x :: a', y :: b' =>
      match byte_val x ?= byte_val y with
      | Eq => bytes_compare a' b'
      | c => c
      end
  end.

Definition pair_compare {K L} `{Ordered K} `{Ordered L} (x y : K * L) : comparison :=
  match cmp x.1 y.1 with
  | Eq => cmp x.2 y.2
  | c => c
  end.

(** [std::sort] by a key. Elements with equal keys keep their order, which is
    one of the results [std::sort] may give; [sort_by_unique] says it is the
    only one when the keys are distinct. *)
Section Sort.
Context {A K : Type} `{Ordered K} (key : A -> K).

Fixpoint sort_insert (x : A) (l : list A) : list A :=
  match l with
  | [] => [x]
  | y :: l' => if key_lt (key y) (key x) then y :: sort_insert x l' else x :: l
  end.

Definition sort_by (l : list A) : list A := foldr sort_insert [] l.

Definition sorted_by : list A -> Prop :=
  StronglySorted (fun x y => cmp (key x) (key y) <> Gt).

Definition strictly_sorted_by : list A -> Prop :=
  StronglySorted (fun x y => cmp (key x) (key y) = Lt).
End Sort.

(** ** Lemmas: bytes and machine integers *)

Lemma byte_val_range b : 0 <= byte_val b < 256.
Proof.
  unfold byte_val. pose proof (Byte.to_N_bounded b). lia.
Qed.

Lemma byte_val_inj a b : byte_val a = byte_val b -> a = b.
Proof.
  unfold byte_val. intros E. assert (E' : Byte.to_N a = Byte.to_N b) by lia.
  pose proof (Byte.of_to_N a) as Ha. rewrite E', Byte.of_to_N in Ha. by simplify_eq.
Qed.

Lemma byte_val_of z : byte_val (byte_of z) = z mod 256.
Proof.
  unfold byte_of, byte_val. pose proof (Z.mod_pos_bound z 256 ltac:(lia)).
  destruct (Byte.of_N (Z.to_N (z mod 256))) as [b|] eqn:E.
  - apply Byte.to_of_N in E. rewrite E. lia.
  - apply Byte.of_N_None_iff in E. lia.
Qed.

Lemma byte_of_val b : byte_of (byte_val b) = b.
Proof.
  apply byte_val_inj. rewrite byte_val_of. apply Z.mod_small, byte_val_range.
Qed.

Lemma u16_range z : 0 <= u16 z < 2 ^ 16.
Proof. apply Z.mod_pos_bound. lia. Qed.

Lemma u32_range z : 0 <= u32 z < 2 ^ 32.
Proof. apply Z.mod_pos_bound. lia. Qed.

Lemma u64_range z : 0 <= u64 z < 2 ^ 64.
Proof. apply Z.mod_pos_bound. lia. Qed.

Lemma u16_small z : 0 <= z < 2 ^ 16 -> u16 z = z.
Proof. apply Z.mod_small. Qed.

Lemma u32_small z : 0 <= z < 2 ^ 32 -> u32 z = z.
Proof. apply Z.mod_small. Qed.

Lemma u64_small z : 0 <= z < 2 ^ 64 -> u64 z = z.
Proof. apply Z.mod_small. Qed.

Lemma size_nonneg {A} (l : list A) : 0 <= size l.
Proof. unfold size. lia. Qed.

Lemma size_app {A} (l k : list A) : size (l ++ k) = size l + size k.
Proof. unfold size. rewrite length_app. lia. Qed.

Lemma size_cons {A} (x : A) l : size (x :: l) = 1 + size l.
Proof. unfold size. simpl. lia. Qed.

Lemma size_nil {A} : size (@nil A) = 0.
Proof. reflexivity. Qed.

#[global] Opaque byte_of.
Create Rewrite HintDb pg_size.
#[export] Hint Rewrite @size_app @size_cons @size_nil @length_app : pg_size.

(** ** Lemmas: little-endian integers *)

Lemma length_le_bytes n z : length (le_bytes n z) = n.
Proof. revert z. induction n as [|n IH]; intros z; simpl; [done|]. by rewrite IH. Qed.

Lemma lor_shiftl_add a b k : 0 <= k -> 0 <= a < 2 ^ k -> Z.lor a (Z.shiftl b k) = a + b * 2 ^ k.
Proof.
  intros Hk Ha. rewrite <- Z.shiftl_mul_pow2 by done.
  assert (Z.land a (Z.shiftl b k) = 0) as Hland.
  { apply Z.bits_inj'. intros n Hn. rewrite Z.land_spec, Z.bits_0.
    destruct (Z_lt_ge_dec n k) as [Hlt|Hge].
    - rewrite Z.shiftl_spec_low by done. apply andb_false_r.
    - destruct (Z.eq_dec a 0) as [->|Hnz]; [by rewrite Z.testbit_0_l|].
      rewrite (Z.bits_above_log2 a n); [done|lia|].
      apply Z.log2_lt_pow2; [lia|].
      eapply Z.lt_le_trans; [apply Ha|]. apply Z.pow_le_mono_r; lia. }
  pose proof (Z.add_lor_land a (Z.shiftl b k)) as Hadd. lia.
Qed.

Lemma le_value_cons b l : le_value (b :: l) = byte_val b + 256 * le_value l.
Proof.
  simpl. rewrite lor_shiftl_add; [lia|done|]. apply byte_val_range.
Qed.

Lemma le_value_range l : 0 <= le_value l < 2 ^ (8 * size l).
Proof.
  induction l as [|b l IH].
  - done.
  - rewrite le_value_cons, size_cons.
    replace (8 * (1 + size l)) with (8 + 8 * size l) by lia.
    rewrite Z.pow_add_r by (pose proof (size_nonneg l); lia).
    pose proof (byte_val_range b). change (2 ^ 8) with 256. nia.
Qed.

(** Reading back what was written, modulo the width. *)
Lemma le_value_bytes n z : le_value (le_bytes n z) = z mod 2 ^ (8 * Z.of_nat n).
Proof.
  revert z. induction n as [|n IH]; intros z.
  - simpl le_bytes. change (8 * Z.of_nat 0) with 0. by rewrite Z.mod_1_r.
  - cbn [le_bytes]. rewrite le_value_cons, IH, byte_val_of.
    rewrite Z.shiftr_div_pow2 by lia. change (2 ^ 8) with 256.
    replace (8 * Z.of_nat (S n)) with (8 + 8 * Z.of_nat n) by lia.
    rewrite Z.pow_add_r by lia. change (2 ^ 8) with 256.
    rewrite Z.rem_mul_r by (first [lia | apply Z.pow_pos_nonneg; lia]). lia.
Qed.

Lemma le_bytes_value l : le_bytes (length l) (le_value l) = l.
Proof.
  induction l as [|b l IH]; [done|].
  rewrite le_value_cons. cbn [length le_bytes]. f_equal.
  - apply byte_val_inj. rewrite byte_val_of.
    pose proof (byte_val_range b). rewrite (Z.mul_comm 256), Z.mod_add by lia.
    by apply Z.mod_small.
  - rewrite Z.shiftr_div_pow2 by lia. change (2 ^ 8) with 256.
    pose proof (byte_val_range b).
    rewrite (Z.mul_comm 256), Z.div_add, Z.div_small by lia. exact IH.
Qed.

(** ** Lemmas: ordered keys *)

Section OrderedFacts.
Context {K : Type} `{Ordered K}.

Lemma cmp_refl x : cmp x x = Eq.
Proof. by apply cmp_eq. Qed.

Lemma cmp_gt_lt x y : cmp x y = Gt <-> cmp y x = Lt.
Proof. rewrite (cmp_opp x y). by destruct (cmp x y). Qed.

Lemma cmp_not_gt x y : cmp x y <> Gt <-> cmp x y = Lt \/ x = y.
Proof. rewrite <- (cmp_eq x y). destruct (cmp x y); naive_solver. Qed.

Lemma cmp_le_trans x y z : cmp x y <> Gt -> cmp y z <> Gt -> cmp x z <> Gt.
Proof.
  rewrite !cmp_not_gt. intros [Hxy| ->] [Hyz| ->]; auto. left. by eapply cmp_lt_trans.
Qed.

Lemma key_lt_true x y : key_lt x y = true <-> cmp x y = Lt.
Proof. unfold key_lt. by destruct (cmp x y). Qed.

Lemma key_lt_false x y : key_lt x y = false <-> cmp y x <> Gt.
Proof. unfold key_lt. rewrite (cmp_opp x y). by destruct (cmp x y). Qed.
End OrderedFacts.

#[export] Program Instance Z_ordered : Ordered Z := {| cmp := Z.compare |}.
Next Obligation. intros x y. apply Z.compare_eq_iff. Qed.
Next Obligation. intros x y. apply Z.compare_antisym. Qed.
Next Obligation. intros x y z. rewrite !Z.compare_lt_iff. lia. Qed.

Lemma bytes_compare_eq a b : bytes_compare a b = Eq <-> a = b.
Proof.
  revert b. induction a as [|x a IH]; intros [|y b]; simpl; try done.
  destruct (byte_val x ?= byte_val y) eqn:E.
  - apply Z.compare_eq_iff, byte_val_inj in E as ->. rewrite IH. naive_solver.
  - split; [done|]. intros [= -> ->]. by rewrite Z.compare_refl in E.
  - split; [done|]. intros [= -> ->]. by rewrite Z.compare_refl in E.
Qed.

Lemma bytes_compare_opp a b : bytes_compare b a = CompOpp (bytes_compare a b).
Proof.
  revert b. induction a as [|x a IH]; intros [|y b]; simpl; try done.
  rewrite (Z.compare_antisym (byte_val x)).
  destruct (byte_val x ?= byte_val y); simpl; auto.
Qed.

Lemma bytes_compare_trans a b c :
  bytes_compare a b = Lt -> bytes_compare b c = Lt -> bytes_compare a c = Lt.
Proof.
  revert b c. induction a as [|x a IH]; intros [|y b] [|z c]; simpl; try done.
  destruct (Z.compare_spec (byte_val x) (byte_val y)) as [E|E|E];
    destruct (Z.compare_spec (byte_val y) (byte_val z)) as [E'|E'|E']; try done; intros.
  - rewrite (proj2 (Z.compare_eq_iff (byte_val x) (byte_val z))) by lia. eauto.
  - by rewrite (proj2 (Z.compare_lt_iff (byte_val x) (byte_val z))) by lia.
  - by rewrite (proj2 (Z.compare_lt_iff (byte_val x) (byte_val z))) by lia.
  - by rewrite (proj2 (Z.compare_lt_iff (byte_val x) (byte_val z))) by lia.
Qed.

#[export] Instance bytes_ordered : Ordered bytes := {|
  cmp := bytes_compare;
  cmp_eq := bytes_compare_eq;
  cmp_opp := bytes_compare_opp;
  cmp_lt_trans := bytes_compare_trans;
|}.

#[export] Program Instance pair_ordered {K L} `{Ordered K} `{Ordered L} :
  Ordered (K * L) := {| cmp := pair_compare |}.
Next Obligation.
  intros K L ?? [x1 x2] [y1 y2]. unfold pair_compare. simpl.
  destruct (cmp x1 y1) eqn:E.
  - apply cmp_eq in E as ->. rewrite cmp_eq. naive_solver.
  - split; [done|]. intros [= -> ->]. by rewrite cmp_refl in E.
  - split; [done|]. intros [= -> ->]. by rewrite cmp_refl in E.
Qed.
Next Obligation.
  intros K L ?? [x1 x2] [y1 y2]. unfold pair_compare. simpl.
  rewrite (cmp_opp x1 y1). destruct (cmp x1 y1); simpl; auto using cmp_opp.
Qed.
Next Obligation.
  intros K L ?? [x1 x2] [y1 y2] [z1 z2]. unfold pair_compare. simpl.
  destruct (cmp x1 y1) eqn:E; [apply cmp_eq in E as ->| |done].
  - destruct (cmp y1 z1); eauto using cmp_lt_trans.
  - destruct (cmp y1 z1) eqn:E'; [apply cmp_eq in E' as <-| |done]; intros.
    + by rewrite E.
    + by rewrite (cmp_lt_trans _ _ _ E E').
Qed.

(** ** Lemmas: sorting *)

Section SortFacts.
Context {A K : Type} `{Ordered K} (key : A -> K).

Lemma sort_insert_perm x l : sort_insert key x l ≡ₚ x :: l.
Proof.
  induction l as [|y l IH]; simpl; [done|].
  destruct (key_lt (key y) (key x)); [|done]. rewrite IH. constructor.
Qed.

Lemma sort_by_perm l : sort_by key l ≡ₚ l.
Proof.
  induction l as [|x l IH]; simpl; [done|]. by rewrite sort_insert_perm, IH.
Qed.

Lemma length_sort_by l : length (sort_by key l) = length l.
Proof. by rewrite sort_by_perm. Qed.

Lemma elem_of_sort_by x l : x ∈ sort_by key l <-> x ∈ l.
Proof. by rewrite sort_by_perm. Qed.

Lemma sort_insert_sorted x l : sorted_by key l -> sorted_by key (sort_insert key x l).
Proof.
  unfold sorted_by. induction 1 as [|y l Hl IH Hy]; simpl.
  - by repeat constructor.
  - destruct (key_lt (key y) (key x)) eqn:E.
    + constructor; [exact IH|]. rewrite Forall_forall. intros z.
      rewrite sort_insert_perm, elem_of_cons. intros [->|Hz].
      * apply key_lt_true in E. by rewrite E.
      * rewrite Forall_forall in Hy. by apply Hy.
    + apply key_lt_false in E. constructor; [by constructor|].
      constructor; [exact E|]. eapply Forall_impl; [exact Hy|].
      intros z Hz. by eapply cmp_le_trans.
Qed.

Lemma sort_by_sorted l : sorted_by key (sort_by key l).
Proof.
  induction l as [|x l IH]; simpl; [constructor|]. by apply sort_insert_sorted.
Qed.

Lemma sort_by_id l : sorted_by key l -> sort_by key l = l.
Proof.
  unfold sorted_by. induction 1 as [|x l Hl IH Hx]; [done|].
  simpl. rewrite IH. destruct l as [|y l]; [done|]. simpl.
  inversion_clear Hx as [|? ? Hxy _].
  by rewrite (proj2 (key_lt_false (key y) (key x)) Hxy).
Qed.

Lemma sort_by_idemp l : sort_by key (sort_by key l) = sort_by key l.
Proof. apply sort_by_id, sort_by_sorted. Qed.

Lemma strictly_sorted_unique l k :
  strictly_sorted_by key l -> strictly_sorted_by key k -> l ≡ₚ k -> l = k.
Proof.
  unfold strictly_sorted_by.
  intros Hl. revert k. induction Hl as [|x l Hl IH Hx]; intros k Hk Hp.
  { by apply Permutation_nil_l in Hp. }
  inversion Hk as [|y k' Hk' Hy]; subst.
  { by apply Permutation_nil_r in Hp. }
  assert (x = y) as ->.
  { rewrite Forall_forall in Hx, Hy.
    assert (x ∈ y :: k') as Hin by (rewrite <- Hp; left).
    assert (y ∈ x :: l) as Hin' by (rewrite Hp; left).
    apply elem_of_cons in Hin as [|Hin]; [done|].
    apply elem_of_cons in Hin' as [|Hin']; [done|].
    pose proof (Hy x Hin) as E. pose proof (Hx y Hin') as E'.
    apply cmp_gt_lt in E. congruence. }
  f_equal. apply IH; [done|]. by eapply Permutation_cons_inv.
Qed.

Lemma sorted_nodup_strict l :
  NoDup (key <$> l) -> sorted_by key l -> strictly_sorted_by key l.
Proof.
  unfold sorted_by, strictly_sorted_by.
  intros Hnd Hl. induction Hl as [|x l Hl IH Hx]; [constructor|].
  simpl in Hnd. apply NoDup_cons in Hnd as [Hnin Hnd].
  constructor; [by apply IH|].
  rewrite Forall_forall in Hx |- *. intros y Hy.
  destruct (proj1 (cmp_not_gt _ _) (Hx y Hy)) as [|E]; [done|].
  destruct Hnin. rewrite E. by apply list_elem_of_fmap_2.
Qed.

Lemma strict_sorted l : strictly_sorted_by key l -> sorted_by key l.
Proof.
  unfold sorted_by, strictly_sorted_by.
  induction 1 as [|x l Hl IH Hx]; constructor; [done|].
  eapply Forall_impl; [exact Hx|]. simpl. intros y ->. done.
Qed.

(** With distinct keys [sort_by] is the only sorted arrangement, so it is what
    [std::sort] returns whatever algorithm it uses. *)
Lemma sort_by_unique l k :
  NoDup (key <$> l) -> l ≡ₚ k -> sorted_by key k -> sort_by key l = k.
Proof.
  intros Hnd Hp Hk.
  assert (NoDup (key <$> k)) by (by rewrite <- Hp).
  apply strictly_sorted_unique.
  - apply sorted_nodup_strict; [|apply sort_by_sorted]. by rewrite sort_by_perm.
  - by apply sorted_nodup_strict.
  - by rewrite sort_by_perm.
Qed.

Lemma sort_by_perm_eq l k :
  NoDup (key <$> l) -> l ≡ₚ k -> sort_by key l = sort_by key k.
Proof.
  intros Hnd Hp. apply sort_by_unique; [done| |apply sort_by_sorted].
  by rewrite sort_by_perm.
Qed.
End SortFacts.

(** ** Lemmas: searching and splitting *)

Lemma contains_true c s : contains c s = true <-> c ∈ s.
Proof.
  unfold contains. rewrite existsb_exists. setoid_rewrite bool_decide_eq_true.
  setoid_rewrite <- list_elem_of_In. naive_solver.
Qed.

Lemma contains_false c s : contains c s = false <-> c ∉ s.
Proof. rewrite <- contains_true. by destruct (contains c s). Qed.

Lemma contains_app c s t : contains c (s ++ t) = contains c s || contains c t.
Proof. apply existsb_app. Qed.

Lemma starts_with_spec p s : starts_with p s = true <-> exists t, s = p ++ t.
Proof.
  revert s. induction p as [|x p IH]; intros [|y s]; simpl.
  - naive_solver.
  - naive_solver.
  - naive_solver.
  - rewrite andb_true_iff, bool_decide_eq_true, IH. naive_solver.
Qed.

Lemma starts_with_app p t : starts_with p (p ++ t) = true.
Proof. apply starts_with_spec. eauto. Qed.

Lemma split_on_cons c s : exists p ps, split_on c s = p :: ps.
Proof.
  induction s as [|x s (p & ps & IH)]; simpl; [eauto|].
  case_bool_decide; [eauto|]. rewrite IH. eauto.
Qed.

Lemma split_on_not_nil c s : split_on c s <> [].
Proof. by destruct (split_on_cons c s) as (p & ps & ->). Qed.

Lemma join_split c s : join_with c (split_on c s) = s.
Proof.
  induction s as [|x s IH]; [done|]. simpl. case_bool_decide as E; subst.
  - destruct (split_on_cons c s) as (p & ps & E). rewrite E in *. rewrite <- IH. by destruct ps.
  - destruct (split_on_cons c s) as (p & ps & E'). rewrite E' in *.
    rewrite <- IH. by destruct ps.
Qed.

Lemma split_on_nosep c s : Forall (fun p => c ∉ p) (split_on c s).
Proof.
  induction s as [|x s IH]; simpl; [by apply Forall_singleton, not_elem_of_nil|].
  case_bool_decide; subst.
  - constructor; [apply not_elem_of_nil|done].
  - destruct (split_on_cons c s) as (p & ps & E). rewrite E in *.
    inversion_clear IH. constructor; [|done]. rewrite not_elem_of_cons. naive_solver.
Qed.

Lemma split_on_single c p : c ∉ p -> split_on c p = [p].
Proof.
  induction p as [|x p IH]; [done|]. rewrite not_elem_of_cons. intros [Hx Hp].
  simpl. rewrite bool_decide_eq_false_2 by congruence. by rewrite IH.
Qed.

Lemma split_on_app c p s : c ∉ p -> split_on c (p ++ c :: s) = p :: split_on c s.
Proof.
  induction p as [|x p IH]; simpl.
  - by rewrite bool_decide_eq_true_2.
  - rewrite not_elem_of_cons. intros [Hx Hp].
    rewrite bool_decide_eq_false_2 by congruence. by rewrite IH.
Qed.

Lemma split_join c ps :
  ps <> [] -> Forall (fun p => c ∉ p) ps -> split_on c (join_with c ps) = ps.
Proof.
  intros Hne Hps. induction Hps as [|p ps Hp Hps IH]; [done|].
  destruct ps as [|q ps]; [by apply split_on_single|].
  change (join_with c (p :: q :: ps)) with (p ++ c :: join_with c (q :: ps)).
  rewrite split_on_app by done. by rewrite IH.
Qed.

Lemma cut_spec c s :
  match cut c s with
  | (p, Some r) => s = p ++ c :: r /\ c ∉ p
  | (p, None) => s = p /\ c ∉ p
  end.
Proof.
  induction s as [|x s IH]; simpl; [split; [done|apply not_elem_of_nil]|].
  case_bool_decide as E; subst; [split; [done|apply not_elem_of_nil]|].
  destruct (cut c s) as [p [r|]]; simpl; rewrite not_elem_of_cons; naive_solver.
Qed.

Lemma cut_app c p r : c ∉ p -> cut c (p ++ c :: r) = (p, Some r).
Proof.
  induction p as [|x p IH]; simpl; intros Hp.
  - by rewrite bool_decide_eq_true_2.
  - apply not_elem_of_cons in Hp as [Hx Hp].
    rewrite bool_decide_eq_false_2 by congruence. by rewrite IH.
Qed.

(** ** Lemmas: decimal numbers *)

Lemma is_digit_val b : is_digit b = true <-> 48 <= byte_val b <= 57.
Proof. unfold is_digit. lia. Qed.

Lemma digits_value_app acc s t :
  digits_value acc (s ++ t) = v ← digits_value acc s; digits_value v t.
Proof.
  revert acc. induction s as [|b s IH]; intros acc; simpl; [done|].
  destruct (is_digit b); [apply IH|done].
Qed.

Lemma digits_value_is_digit acc s v : digits_value acc s = Some v -> forallb is_digit s = true.
Proof.
  revert acc. induction s as [|b s IH]; intros acc; simpl; [done|].
  destruct (is_digit b); [|done]. simpl. apply IH.
Qed.

Lemma digits_value_total acc s :
  forallb is_digit s = true -> exists v, digits_value acc s = Some v.
Proof.
  revert acc. induction s as [|b s IH]; intros acc; simpl; [eauto|].
  rewrite andb_true_iff. intros [-> Hs]. by apply IH.
Qed.

Lemma decimal_digits_spec fuel z acc :
  0 <= z < 10 ^ Z.of_nat fuel -> (0 < fuel)%nat ->
  exists ds, decimal_digits fuel z acc = ds ++ acc /\ ds <> [] /\
    forall a, digits_value a ds = Some (a * 10 ^ size ds + z).
Proof.
  revert z acc. induction fuel as [|fuel IH]; intros z acc Hz Hf; [lia|].
  assert (is_digit (byte_of (48 + z mod 10)) = true /\
          byte_val (byte_of (48 + z mod 10)) - 48 = z mod 10) as [Hd Hv].
  { pose proof (Z.mod_pos_bound z 10 ltac:(lia)).
    rewrite is_digit_val, byte_val_of, Z.mod_small by lia. lia. }
  cbn [decimal_digits]. destruct (z <? 10) eqn:Hlt.
  - exists [byte_of (48 + z mod 10)]. repeat split; [done|]. intros a.
    simpl. rewrite Hd, Hv. rewrite Z.mod_small by lia.
    change (10 ^ size [byte_of (48 + z mod 10)]) with 10. f_equal; lia.
  - apply Z.ltb_ge in Hlt.
    assert (0 <= z / 10 < 10 ^ Z.of_nat fuel) as Hq.
    { rewrite Nat2Z.inj_succ, Z.pow_succ_r in Hz by lia.
      split; [apply Z.div_pos; lia|]. apply Z.div_lt_upper_bound; lia. }
    destruct fuel as [|fuel']; [simpl in Hz; lia|].
    destruct (IH (z / 10) (byte_of (48 + z mod 10) :: acc) Hq ltac:(lia))
      as (ds & E & Hne & Hds).
    exists (ds ++ [byte_of (48 + z mod 10)]). repeat split.
    + rewrite E. by rewrite <- app_assoc.
    + by destruct ds.
    + intros a. rewrite digits_value_app, Hds. simpl. rewrite Hd, Hv.
      rewrite size_app. change (size [byte_of (48 + z mod 10)]) with 1.
      rewrite Z.pow_add_r by (pose proof (size_nonneg ds); lia).
      pose proof (Z.div_mod z 10 ltac:(lia)). f_equal. lia.
Qed.

Lemma to_string_spec z :
  0 <= z -> to_string z <> [] /\ digits_value 0 (to_string z) = Some z.
Proof.
  intros Hz. unfold to_string.
  destruct (decimal_digits_spec (S (Z.to_nat (Z.log2 z))) z []) as (ds & -> & Hne & Hds).
  - split; [done|]. rewrite Nat2Z.inj_succ, Z2Nat.id by apply Z.log2_nonneg.
    destruct (Z.eq_dec z 0) as [->|Hnz]; [done|].
    pose proof (Z.log2_spec z ltac:(lia)) as [_ Hlog].
    eapply Z.lt_le_trans; [exact Hlog|]. apply Z.pow_le_mono_l. lia.
  - lia.
  - rewrite app_nil_r. split; [done|]. by rewrite Hds.
Qed.

(** What [std::to_string] prints, [std::from_chars] reads back. *)
Lemma from_chars_to_string w z : 0 <= z < 2 ^ w -> from_chars w (to_string z) = Some z.
Proof.
  intros Hz. destruct (to_string_spec z ltac:(lia)) as [Hne Hv].
  unfold from_chars. rewrite Hv. destruct (to_string z); [done|].
  by rewrite (proj2 (Z.ltb_lt z (2 ^ w))) by lia.
Qed.

Lemma digits_value_lower acc s v : 0 <= acc -> digits_value acc s = Some v -> 0 <= v.
Proof.
  revert acc. induction s as [|b s IH]; intros acc Ha; simpl; [naive_solver|].
  destruct (is_digit b) eqn:E; [|done]. apply is_digit_val in E. apply IH. lia.
Qed.

Lemma from_chars_range w s v : from_chars w s = Some v -> 0 <= v < 2 ^ w.
Proof.
  unfold from_chars. destruct s as [|b s]; [done|].
  destruct (digits_value 0 (b :: s)) as [v'|] eqn:E; [|done].
  destruct (v' <? 2 ^ w) eqn:Hlt; [|done]. intros [= ->].
  apply digits_value_lower in E; lia.
Qed.

Lemma to_string_inj x y : 0 <= x -> 0 <= y -> to_string x = to_string y -> x = y.
Proof.
  intros Hx Hy E. destruct (to_string_spec x Hx) as [_ Ex].
  destruct (to_string_spec y Hy) as [_ Ey]. congruence.
Qed.

(** ** Lemmas: outcomes *)

(** A decimal takes no more digits than it has. *)
Lemma decimal_digits_fuel n fuel z acc :
  0 <= z < 10 ^ Z.of_nat n -> (0 < n)%nat -> size (decimal_digits fuel z acc) <= Z.of_nat n + size acc.
Proof.
  revert n z acc. induction fuel as [|fuel IH]; intros n z acc Hz Hn; [cbn; lia|].
  cbn [decimal_digits]. destruct (Z.ltb_spec z 10) as [|Hge]; [rewrite size_cons; lia|].
  destruct n as [|n]; [lia|]. rewrite Nat2Z.inj_succ, Z.pow_succ_r in Hz by lia.
  destruct n as [|n]; [change (10 ^ Z.of_nat 0) with 1 in Hz; lia|].
  assert (0 <= z / 10 < 10 ^ Z.of_nat (S n)).
  { split; [apply Z.div_pos; lia|]. apply Z.div_lt_upper_bound; lia. }
  pose proof (IH (S n) (z / 10) (byte_of (48 + z mod 10) :: acc) H ltac:(lia)) as Hs.
  rewrite size_cons in Hs. lia.
Qed.

Lemma to_string_size n bound z :
  0 <= z < bound -> (bound <=? 10 ^ Z.of_nat n) && (0 <? n)%nat = true ->
  size (to_string z) <= Z.of_nat n.
Proof.
  intros Hz0 [Hb%Z.leb_le Hn%Nat.ltb_lt]%andb_true_iff.
  assert (0 <= z < 10 ^ Z.of_nat n) as Hz by lia. unfold to_string. pose proof (decimal_digits_fuel n (S (Z.to_nat (Z.log2 z))) z [] Hz Hn).
  rewrite size_nil in H. lia.
Qed.

Lemma bind_Ok {E A B} (m : outcome E A) (f : A -> outcome E B) b :
  (m ≫= f) = Ok b <-> exists a, m = Ok a /\ f a = Ok b.
Proof. destruct m; simpl; naive_solver. Qed.

Lemma bind_not_Oob {E A B} (m : outcome E A) (f : A -> outcome E B) :
  m <> Oob -> (forall a, m = Ok a -> f a <> Oob) -> (m ≫= f) <> Oob.
Proof. destruct m; simpl; naive_solver. Qed.

Lemma fold_not_Oob {E S A} (f : S -> A -> outcome E S) s l :
  (forall s x, f s x <> Oob) -> fold_outcome f s l <> Oob.
Proof.
  intros Hf. revert s. induction l as [|x l IH]; intros s; simpl; [done|].
  by apply bind_not_Oob.
Qed.

Lemma fold_outcome_app {E S A} (f : S -> A -> outcome E S) s l k :
  fold_outcome f s (l ++ k) = s' ← fold_outcome f s l; fold_outcome f s' k.
Proof.
  revert s. induction l as [|x l IH]; intros s; simpl; [done|].
  destruct (f s x); simpl; auto.
Qed.

Section Ensures.
Context {E A B : Type}.
Implicit Types (m : outcome E A) (f : A -> outcome E B).

Lemma ensures_Ok m Q a : ensures m Q -> m = Ok a -> Q a.
Proof. by intros H ->. Qed.

Lemma ensures_not_Oob m Q : ensures m Q -> m <> Oob.
Proof. by intros H ->. Qed.

Lemma ensures_intro m (Q : A -> Prop) : m <> Oob -> (forall a, m = Ok a -> Q a) -> ensures m Q.
Proof. destruct m; simpl; auto. Qed.

Lemma ensures_weaken m (P Q : A -> Prop) : ensures m P -> (forall a, P a -> Q a) -> ensures m Q.
Proof. destruct m; simpl; auto. Qed.

Lemma ensures_bind m f P Q :
  ensures m P -> (forall a, P a -> ensures (f a) Q) -> ensures (m ≫= f) Q.
Proof. destruct m; simpl; auto. Qed.
End Ensures.

(** An invariant of the loop, indexed by the elements already visited. *)
Lemma ensures_fold {E S A} (f : S -> A -> outcome E S) (I : list A -> S -> Prop) s l :
  I [] s ->
  (forall pre x post s, l = pre ++ x :: post -> I pre s -> ensures (f s x) (I (pre ++ [x]))) ->
  ensures (fold_outcome f s l) (I l).
Proof.
  intros H0 Hstep.
  assert (forall todo visited s, l = visited ++ todo -> I visited s ->
            ensures (fold_outcome f s todo) (I l)) as Hgen; [|by apply (Hgen l [])].
  clear s H0. induction todo as [|x todo IH]; intros visited s El Hs.
  { rewrite app_nil_r in El. by subst. }
  cbn [fold_outcome]. eapply ensures_bind; [by apply (Hstep visited x todo)|].
  intros s' Hs'. apply (IH (visited ++ [x])); [|done]. by rewrite <- app_assoc.
Qed.

Lemma not_in_insert {K} `{Countable K} (k k' : K) (X : gset K) :
  k ∉ {[k']} ∪ X <-> k <> k' /\ k ∉ X.
Proof. by rewrite not_elem_of_union, not_elem_of_singleton. Qed.

(** Filters that agree on the elements of a list agree on the list. *)
Lemma filter_ext_elem {A} (P Q : A -> Prop) `{forall x, Decision (P x)} `{forall x, Decision (Q x)}
    (l : list A) :
  (forall x, x ∈ l -> P x <-> Q x) -> filter P l = filter Q l.
Proof.
  induction l as [|x l IH]; intros Hl; [done|].
  assert (P x <-> Q x) as E by (apply Hl; left).
  rewrite !filter_cons. rewrite IH by (intros; apply Hl; by right).
  destruct (decide (P x)), (decide (Q x)); tauto.
Qed.

Create HintDb pathguard.
#[export] Hint Resolve split_on_not_nil split_on_nosep byte_val_range size_nonneg : pathguard.

(** Unpacks a conjunction of boolean tests into propositions. *)
Ltac split_tests :=
  repeat match goal with
  | H : _ && _ = true |- _ => apply andb_true_iff in H as [? ?]
  | H : _ || _ = false |- _ => apply orb_false_iff in H as [? ?]
  | H : negb _ = true |- _ => apply negb_true_iff in H
  | H : negb _ = false |- _ => apply negb_false_iff in H
  | H : bool_decide _ = true |- _ => apply bool_decide_eq_true in H
  | H : bool_decide _ = false |- _ => apply bool_decide_eq_false in H
  | H : (_ <? _) = true |- _ => apply Z.ltb_lt in H
  | H : (_ <? _) = false |- _ => apply Z.ltb_ge in H
  | H : (_ <=? _) = true |- _ => apply Z.leb_le in H
  | H : (_ <=? _) = false |- _ => apply Z.leb_gt in H
  | H : (_ =? _) = true |- _ => apply Z.eqb_eq in H
  | H : (_ =? _) = false |- _ => apply Z.eqb_neq in H
  end.

(** Unfolds one successful step of an outcome computation. *)
Ltac step_ok H :=
  match type of H with
  | (if ?b then _ else _) = Ok _ => destruct b eqn:?; [try discriminate H|try discriminate H]
  | (_ ≫= _) = Ok _ =>
      let a := fresh "r" in let E := fresh "E" in
      apply bind_Ok in H as (a & E & H)
  end.

(** ** Lemmas: lists *)

Lemma fmap_bind {A B C} (f : B -> C) (g : A -> list B) l : f <$> (l ≫= g) = l ≫= fun x => f <$> g x.
Proof. induction l as [|x l IH]; [done|]. cbn. rewrite fmap_app. by f_equal. Qed.
