(* ===== verification/Stateful.v ===== *)
(** * Stateful computations that may leave their bounds

    A computation that threads a state through fallible calls, with the judgement that it
    returns and what holds then; and the descriptors that a process has open, of which closing
    one that is not open is an error. [Module] and [Companion] are written with them. *)

From S2P Require Import Prelude.

Definition stateful (S E A : Type) : Type := S -> outcome E (A * S).

#[export] Instance stateful_ret {S E} : MRet (stateful S E) := fun A x s => Ok (x, s).

#[export] Instance stateful_bind {S E} : MBind (stateful S E) := fun A B f c s => '(x, s) ← c s; f x s.

Section Ends.
Context {S E : Type}.
Implicit Types s : S.

Definition gets {A} (f : S -> A) : stateful S E A := fun s => Ok (f s, s).

Definition modify (f : S -> S) : stateful S E unit := fun s => Ok (tt, f s).

Definition lift {A} (c : outcome E A) : stateful S E A := fun s => x ← c; Ok (x, s).

(** The computation returns, and [Q] holds of its result and of the state after it. *)
Definition ends {A} (c : stateful S E A) (s : S) (Q : A -> S -> Prop) : Prop :=
  exists x s', c s = Ok (x, s') /\ Q x s'.

Lemma ends_ret {A} (x : A) s (Q : A -> S -> Prop) : Q x s -> ends (mret x) s Q.
Proof. intros H. by exists x, s. Qed.

Lemma ends_bind {A B} (c : stateful S E A) (f : A -> stateful S E B) s Q :
  ends c s (fun x s' => ends (f x) s' Q) -> ends (c ≫= f) s Q.
Proof. intros (x & s' & Ec & H). unfold ends, mbind, stateful_bind. by rewrite Ec. Qed.

Lemma ends_lift {A} (c : outcome E A) s (Q : A -> S -> Prop) :
  (exists x, c = Ok x /\ Q x s) -> ends (lift c) s Q.
Proof. intros (x & -> & H). by exists x, s. Qed.

Lemma ends_gets {A} (f : S -> A) s (Q : A -> S -> Prop) : Q (f s) s -> ends (gets f) s Q.
Proof. intros H. by eexists _, _. Qed.

Lemma ends_modify f s (Q : unit -> S -> Prop) : Q tt (f s) -> ends (modify f) s Q.
Proof. intros H. by eexists _, _. Qed.

Lemma ends_mono {A} (c : stateful S E A) s (P Q : A -> S -> Prop) :
  ends c s P -> (forall x s', P x s' -> Q x s') -> ends c s Q.
Proof. intros (x & s' & Ec & H) HQ. exists x, s'. eauto. Qed.

(** For the operations that cannot fail. *)
Lemma ends_call {A} (c : stateful S E A) x s' s (Q : A -> S -> Prop) : c s = Ok (x, s') -> Q x s' -> ends c s Q.
Proof. intros Ec H. by exists x, s'. Qed.
End Ends.

(** A computation that stays in bounds and reports no error returns. *)
Definition errorless {E A} (c : outcome E A) : Prop := forall e, c <> Err e.

Lemma returns {E A} (c : outcome E A) : c <> Oob -> errorless c -> exists x, c = Ok x.
Proof. intros Ho He. destruct c as [x|e|]; [eauto|by destruct (He e)|done]. Qed.

Lemma errorless_Ok {E A} (x : A) : errorless (E:=E) (Ok x).
Proof. done. Qed.

Lemma errorless_bind {E A B} (c : outcome E A) (f : A -> outcome E B) :
  errorless c -> (forall x, errorless (f x)) -> errorless (c ≫= f).
Proof. intros Hc Hf e. destruct c as [x|e'|]; cbn; [apply Hf|by destruct (Hc e')|done]. Qed.

Create HintDb errorless.
#[export] Hint Resolve errorless_Ok : errorless.

(** Follows the structure of a computation down to the calls in the database. *)
Ltac errorless_step :=
  match goal with
  | |- errorless (_ ≫= _) => apply errorless_bind; [|intros]
  | |- errorless (if ?b then _ else _) => destruct b
  | |- errorless (match ?x with _ => _ end) => destruct x
  | |- errorless _ => solve [eauto with errorless]
  end.

Ltac errorless := repeat errorless_step.

(** ** Open descriptors *)

(** Closing [fd]: [None] when it is not open. *)
Fixpoint remove_fd (fd : Z) (fds : list Z) : option (list Z) :=
  match fds with
  | [] => None
  | x :: rest => if x =? fd then Some rest else rest ← remove_fd fd rest; Some (x :: rest)
  end.

Lemma remove_fd_head fd fds : remove_fd fd (fd :: fds) = Some fds.
Proof. cbn [remove_fd]. by rewrite Z.eqb_refl. Qed.

Lemma remove_fd_second x fd fds : remove_fd fd (x :: fd :: fds) = Some (x :: fds).
Proof. cbn [remove_fd]. destruct (Z.eqb_spec x fd) as [->|]; [done|]. by rewrite Z.eqb_refl. Qed.
