(* ===== verification/Console.v ===== *)
(** * What the programs share: two streams, and paths

    The texts that the daemon and the command line write to their two streams, of which it is not
    represented how they interleave, and the operations of [std::filesystem::path] that both use. *)

From S2P Require Import Prelude.

Local Open Scope pg_scope.

Record Console : Type := { cout : bytes; cerr : bytes }.

#[export] Instance Console_eq_dec : EqDecision Console.
Proof. solve_decision. Defined.

Definition silent : Console := {| cout := []; cerr := [] |}.

Definition prints (text : bytes) : Console := {| cout := text; cerr := [] |}.

Definition complains (text : bytes) : Console := {| cout := []; cerr := text |}.

(** One text after another, stream by stream. *)
Definition and_then (first second : Console) : Console :=
  {| cout := cout first ++ cout second; cerr := cerr first ++ cerr second |}.

Infix "⊕" := and_then (at level 50, left associativity) : pg_scope.

#[export] Instance and_then_assoc : Assoc (=) and_then.
Proof. intros a b c. unfold and_then. cbn. by rewrite !app_assoc. Qed.

#[export] Instance silent_left : LeftId (=) silent and_then.
Proof. by intros [? ?]. Qed.

#[export] Instance silent_right : RightId (=) silent and_then.
Proof. intros [out err]. unfold and_then. cbn. by rewrite !app_nil_r. Qed.

(** A line of text. *)
Definition line (text : bytes) : bytes := text ++ [x0a].

(** ** Paths *)

(** [base / name] of two paths in the generic format of POSIX. *)
Definition path_append (base name : bytes) : bytes :=
  if starts_with (lit "/") name then name
  else if (base == []) || (List.last base x00 == x2f) then base ++ name
  else base ++ x2f :: name.
