(* ===== verification/Path.v ===== *)
(** * Path normalization (core/src/path.cpp)

    Logical paths, storage aliases and the [{package}]/[{user}] placeholders.
    A [find('/')]/[substr] loop is modelled by a recursion over the components
    it visits; an [std::string*] output becomes the result of the function. *)

From Stdlib Require Import ZArith Lia.
From S2P Require Import Prelude.

Local Open Scope pg_scope.

Definition kMaxLogicalPathBytes : Z := 4095.
Definition kMaxPathComponentBytes : Z := 255.

(** The test on one component inside the loop of [SplitAndValidate]. *)
Definition bad_component (part : bytes) : bool :=
  (part == []) || (kMaxPathComponentBytes <? size part)
  || (part == lit ".") || (part == lit "..").

Fixpoint collect_parts (components : list bytes) : option (list bytes) :=
  match components with
  | [] => Some []
  | part :: rest =>
      if bad_component part then None
      else parts ← collect_parts rest; Some (part :: parts)
  end.

Definition SplitAndValidate (input : bytes) : option (list bytes) :=
  if (input == []) || (kMaxLogicalPathBytes <? size input) || contains x00 input
  then None
  else
    let rest := match input with
                | x2f :: rest => rest
                | _ => input
                end in
    parts ← collect_parts (split_on x2f rest);
    if parts == [] then None else Some parts.

(** [while (value.size() > 1 && value.back() == '/') value.pop_back();] on the
    reversed string. *)
Fixpoint pop_slashes (reversed : bytes) : bytes :=
  match reversed with
  | x2f :: (_ :: _) as rest => pop_slashes rest
  | _ => reversed
  end.

Definition strip_trailing_slashes (value : bytes) : bytes :=
  rev (pop_slashes (rev value)).

(** The [if]/[else if] chain that maps the storage aliases to
    [/storage/emulated/0]. *)
Definition expand_storage_alias (value : bytes) : bytes :=
  if starts_with (lit "/sdcard/") value
  then lit "/storage/emulated/0/" ++ drop 8 value
  else if value == lit "/sdcard" then lit "/storage/emulated/0"
  else if starts_with (lit "/storage/self/primary/") value
  then lit "/storage/emulated/0/" ++ drop 22 value
  else if value == lit "/storage/self/primary" then lit "/storage/emulated/0"
  else match value with
       | x2f :: _ => value
       | _ => lit "/storage/emulated/0/" ++ value
       end.

Definition NormalizePath (input : bytes) : option bytes :=
  if input == [] then None
  else
    let value := strip_trailing_slashes (expand_storage_alias input) in
    parts ← SplitAndValidate value;
    Some (flat_map (fun part => x2f :: part) parts).

Definition NormalizeLogicalPath (input : bytes) : option bytes :=
  match input with
  | [] | x2f :: _ => None
  | _ => parts ← SplitAndValidate input; Some (join_with x2f parts)
  end.

(** [package.empty() || package.find_first_of("/{} \t\r\n") != npos] *)
Definition bad_package (package : bytes) : bool :=
  (package == [])
  || existsb (fun c => bool_decide (c ∈ [x2f; x7b; x7d; x20; x09; x0d; x0a])) package.

(** The loop [find(pattern, offset)]/[replace]/[offset += replacement.size()]:
    the text before [offset] is final, so the state is the remaining text and
    the number of its bytes already consumed by the last match. *)
Fixpoint replace_all (pattern replacement s : bytes) (skip : nat) : bytes :=
  match s with
  | [] => []
  | c :: s' =>
      match skip with
      | S skip' => replace_all pattern replacement s' skip'
      | O =>
          if starts_with pattern s
          then replacement ++ replace_all pattern replacement s' (length pattern - 1)
          else c :: replace_all pattern replacement s' 0
      end
  end.

Definition ExpandPackagePlaceholder (input package : bytes) : option bytes :=
  if bad_package package then None
  else
    let output := replace_all (lit "{package}") package input 0 in
    if negb (contains x7b output) && negb (contains x7d output)
    then Some output else None.

(** The second loop of [ExpandPathPlaceholders]: a closing brace before the next
    opening one fails, and an opening brace must start [{user}]. *)
Fixpoint user_braces_only (s : bytes) (skip : nat) : bool :=
  match s with
  | [] => true
  | c :: s' =>
      match skip with
      | S skip' => user_braces_only s' skip'
      | O =>
          if c == x7d then false
          else if c == x7b
          then starts_with (lit "{user}") s && user_braces_only s' 5
          else user_braces_only s' 0
      end
  end.

Definition ExpandPathPlaceholders (input package : bytes) : option bytes :=
  if bad_package package then None
  else
    let output := replace_all (lit "{package}") package input 0 in
    if user_braces_only output 0 then Some output else None.

Definition IsPathOrDescendant (path directory : bytes) : bool :=
  (path == directory)
  || ((size directory <? size path) && starts_with (directory ++ [x2f]) path).

(** ** What a canonical logical path is *)

Definition valid_component (part : bytes) : Prop :=
  part <> [] /\ size part <= kMaxPathComponentBytes /\ part <> lit "." /\ part <> lit "..".

Record logical_path (p : bytes) : Prop := {
  logical_size : size p <= kMaxLogicalPathBytes;
  logical_no_nul : x00 ∉ p;
  logical_components : Forall valid_component (split_on x2f p);
}.

(** ** Lemmas *)

Lemma bad_component_false part : bad_component part = false <-> valid_component part.
Proof.
  unfold bad_component, valid_component.
  rewrite !orb_false_iff, !bool_decide_eq_false, Z.ltb_ge. tauto.
Qed.

Lemma collect_parts_spec components parts :
  collect_parts components = Some parts <->
  parts = components /\ Forall valid_component components.
Proof.
  revert parts. induction components as [|c rest IH]; intros parts; simpl.
  - split; [intros [= <-]|intros [-> _]]; auto.
  - destruct (bad_component c) eqn:E.
    + split; [done|]. intros [_ Hf]. inversion_clear Hf as [|? ? Hc _].
      apply bad_component_false in Hc. congruence.
    + apply bad_component_false in E. rewrite bind_Some, Forall_cons. split.
      * intros (ps & Er & [= <-]). apply IH in Er as [-> Hf]. auto.
      * intros (-> & _ & Hf). exists rest. split; [by apply IH|done].
Qed.

Lemma head_slash_split p :
  Forall valid_component (split_on x2f p) -> p <> [] /\ forall r, p <> x2f :: r.
Proof.
  intros Hf. split; [intros -> | intros r ->]; inversion_clear Hf as [|? ? Hc _];
    by destruct Hc.
Qed.

Lemma SplitAndValidate_relative p parts :
  (forall r, p <> x2f :: r) ->
  SplitAndValidate p = Some parts <-> logical_path p /\ parts = split_on x2f p.
Proof.
  intros Hs. unfold SplitAndValidate.
  assert (match p with x2f :: rest => rest | _ => p end = p) as ->.
  { destruct p as [|[] p]; try done. by destruct (Hs p). }
  destruct (_ || _ || _) eqn:E.
  - split; [done|]. intros [[Hsz Hn Hc] _]. exfalso.
    apply head_slash_split in Hc as [Hne _].
    rewrite !orb_true_iff, bool_decide_eq_true, Z.ltb_lt, contains_true in E.
    destruct E as [[E|E]|E]; [done|lia|done].
  - rewrite !orb_false_iff, bool_decide_eq_false, Z.ltb_ge, contains_false in E.
    destruct E as [[Hne Hsz] Hn].
    destruct (collect_parts (split_on x2f p)) as [ps|] eqn:Ec; simpl.
    + apply collect_parts_spec in Ec as [-> Hf].
      rewrite bool_decide_eq_false_2 by apply split_on_not_nil.
      split; [intros [= <-]; by repeat split|]. by intros [_ ->].
    + split; [done|]. intros [Hl _].
      assert (@None (list bytes) = Some (split_on x2f p)); [|done].
      rewrite <- Ec. apply collect_parts_spec. split; [done|apply Hl].
Qed.

Lemma logical_path_head p : logical_path p -> p <> [] /\ forall r, p <> x2f :: r.
Proof. intros [_ _ Hc]. by apply head_slash_split. Qed.

(** A normalized logical path is its own input: normalization only accepts or
    rejects. *)
Lemma NormalizeLogicalPath_spec p q :
  NormalizeLogicalPath p = Some q <-> logical_path p /\ q = p.
Proof.
  unfold NormalizeLogicalPath. split.
  - intros E. assert (exists parts, (forall r, p <> x2f :: r) /\
      SplitAndValidate p = Some parts /\ q = join_with x2f parts) as (ps & Hs & Ep & ->).
    { destruct p as [|[] p]; try done; apply bind_Some in E as (ps & E & [= <-]);
        exists ps; done. }
    apply SplitAndValidate_relative in Ep as [Hl ->]; [|done].
    by rewrite join_split.
  - intros [Hl ->]. destruct (logical_path_head p Hl) as [Hne Hs].
    assert (SplitAndValidate p = Some (split_on x2f p)) as E
      by (by apply SplitAndValidate_relative).
    rewrite E. simpl. rewrite join_split.
    destruct p as [|[] p]; try done. by destruct (Hs p).
Qed.

Lemma split_on_app_any c d r : split_on c (d ++ c :: r) = split_on c d ++ split_on c r.
Proof.
  induction d as [|x d IH]; simpl.
  - by rewrite bool_decide_eq_true_2.
  - case_bool_decide; [by rewrite IH|]. rewrite IH.
    by destruct (split_on_cons c d) as (p & ps & ->).
Qed.

Lemma join_with_app c ps qs :
  ps <> [] -> qs <> [] -> join_with c (ps ++ qs) = join_with c ps ++ c :: join_with c qs.
Proof.
  intros Hp Hq. induction ps as [|p ps IH]; [done|].
  destruct ps as [|p' ps].
  - simpl. by destruct qs.
  - change (join_with c ((p :: p' :: ps) ++ qs))
      with (p ++ c :: join_with c ((p' :: ps) ++ qs)).
    rewrite IH by done.
    change (join_with c (p :: p' :: ps)) with (p ++ c :: join_with c (p' :: ps)).
    by rewrite <- app_assoc.
Qed.

Lemma IsPathOrDescendant_true p d :
  IsPathOrDescendant p d = true <-> p = d \/ exists r, p = d ++ x2f :: r.
Proof.
  unfold IsPathOrDescendant.
  rewrite orb_true_iff, andb_true_iff, bool_decide_eq_true, Z.ltb_lt, starts_with_spec.
  split.
  - intros [->|[_ [t ->]]]; [by left|]. right. exists t. by rewrite <- app_assoc.
  - intros [->|[r ->]]; [by left|]. right. split.
    + rewrite size_app, size_cons. pose proof (size_nonneg r). lia.
    + exists r. by rewrite <- app_assoc.
Qed.

(** *** Storage aliases *)

Definition storage_alias (p : bytes) : bool :=
  starts_with (lit "/sdcard/") p || (p == lit "/sdcard")
  || starts_with (lit "/storage/self/primary/") p
  || (p == lit "/storage/self/primary").

Lemma match_slash (p base : bytes) :
  let r := match p with x2f :: _ => p | _ => base ++ p end in
  (exists t, r = base ++ t) \/ r = p /\ exists r, p = x2f :: r.
Proof. destruct p as [|b p]; [left; by exists []|]. destruct b; eauto. Qed.

Lemma expand_storage_alias_cases p :
  (exists t, expand_storage_alias p = lit "/storage/emulated/0" ++ t)
  \/ (expand_storage_alias p = p /\ storage_alias p = false /\ exists r, p = x2f :: r).
Proof.
  unfold expand_storage_alias, storage_alias.
  destruct (starts_with (lit "/sdcard/") p); [left; by eexists|].
  case_bool_decide; [left; by exists []|].
  destruct (starts_with (lit "/storage/self/primary/") p); [left; by eexists|].
  case_bool_decide; [left; by exists []|].
  destruct (match_slash p (lit "/storage/emulated/0/")) as [[t E]|[E Hr]].
  - left. exists (x2f :: t). exact E.
  - right. by split_and!.
Qed.

Lemma expand_storage_alias_id r :
  storage_alias (x2f :: r) = false -> expand_storage_alias (x2f :: r) = x2f :: r.
Proof.
  unfold expand_storage_alias, storage_alias. rewrite !orb_false_iff.
  intros [[[E1 E2] E3] E4]. by rewrite E1, E2, E3, E4.
Qed.

Lemma storage_alias_prefix p t :
  storage_alias (p ++ replicate t x2f) = false -> storage_alias p = false.
Proof.
  unfold storage_alias. rewrite !orb_false_iff.
  intros [[[E1 E2] E3] E4]. repeat split; apply not_true_iff_false; intros C.
  - apply starts_with_spec in C as [u ->]. rewrite <- app_assoc, starts_with_app in E1. done.
  - apply bool_decide_eq_true in C as ->. destruct t as [|t]; [done|].
    change (replicate (S t) x2f) with ([x2f] ++ replicate t x2f) in E1.
    rewrite app_assoc in E1. change (lit "/sdcard" ++ [x2f]) with (lit "/sdcard/") in E1.
    by rewrite starts_with_app in E1.
  - apply starts_with_spec in C as [u ->]. rewrite <- app_assoc, starts_with_app in E3. done.
  - apply bool_decide_eq_true in C as ->. destruct t as [|t]; [done|].
    change (replicate (S t) x2f) with ([x2f] ++ replicate t x2f) in E3.
    rewrite app_assoc in E3.
    change (lit "/storage/self/primary" ++ [x2f]) with (lit "/storage/self/primary/") in E3.
    by rewrite starts_with_app in E3.
Qed.

Lemma pop_slashes_spec r : exists n, r = replicate n x2f ++ pop_slashes r.
Proof.
  induction r as [|c r IH]; [by exists O|].
  destruct (decide (c = x2f /\ r <> [])) as [[-> Hr]|Hn].
  - destruct r as [|d r]; [done|]. destruct IH as [n IH]. exists (S n).
    change (pop_slashes (x2f :: d :: r)) with (pop_slashes (d :: r)).
    cbn [replicate app]. by f_equal.
  - exists O. destruct c; try done. destruct r; [done|]. naive_solver.
Qed.

Lemma pop_slashes_idemp r : pop_slashes (pop_slashes r) = pop_slashes r.
Proof.
  induction r as [|c r IH]; [done|].
  destruct (decide (c = x2f /\ r <> [])) as [[-> Hr]|Hn].
  - destruct r as [|d r]; [done|].
    by change (pop_slashes (x2f :: d :: r)) with (pop_slashes (d :: r)).
  - destruct c; try done. destruct r; [done|]. naive_solver.
Qed.

Lemma pop_slashes_nil r : pop_slashes r = [] -> r = [].
Proof.
  induction r as [|c r IH]; [done|].
  destruct (decide (c = x2f /\ r <> [])) as [[-> Hr]|Hn].
  - destruct r as [|d r]; [done|].
    change (pop_slashes (x2f :: d :: r)) with (pop_slashes (d :: r)). naive_solver.
  - destruct c; try done. destruct r; [done|]. naive_solver.
Qed.

Lemma strip_trailing_slashes_spec v :
  exists n, v = strip_trailing_slashes v ++ replicate n x2f.
Proof.
  destruct (pop_slashes_spec (rev v)) as [n E]. exists n.
  unfold strip_trailing_slashes.
  rewrite <- (rev_involutive v) at 1. rewrite E at 1. rewrite rev_app_distr.
  f_equal. clear E. induction n as [|n IH]; [done|].
  simpl. rewrite IH. clear IH. induction n as [|n IH]; [done|]. simpl. by rewrite IH.
Qed.

Lemma strip_trailing_slashes_idemp v :
  strip_trailing_slashes (strip_trailing_slashes v) = strip_trailing_slashes v.
Proof. unfold strip_trailing_slashes. by rewrite rev_involutive, pop_slashes_idemp. Qed.

Lemma strip_trailing_slashes_head v r : v = x2f :: r -> exists r', strip_trailing_slashes v = x2f :: r'.
Proof.
  intros Hv. destruct (strip_trailing_slashes_spec v) as [n E].
  destruct (strip_trailing_slashes v) as [|c s] eqn:Es.
  - exfalso. unfold strip_trailing_slashes in Es.
    apply (f_equal (@rev byte)) in Es. rewrite rev_involutive in Es. apply pop_slashes_nil in Es.
    apply (f_equal (@rev byte)) in Es. rewrite rev_involutive in Es. by rewrite Hv in Es.
  - rewrite Hv in E. injection E as <- _. eauto.
Qed.

(** An absolute path in normal form. *)
Definition absolute_path (q : bytes) : Prop :=
  exists r, q = x2f :: r /\ size q <= kMaxLogicalPathBytes /\ x00 ∉ q
    /\ Forall valid_component (split_on x2f r) /\ storage_alias q = false.

Lemma SplitAndValidate_absolute r parts :
  SplitAndValidate (x2f :: r) = Some parts <->
  size (x2f :: r) <= kMaxLogicalPathBytes /\ x00 ∉ (x2f :: r)
    /\ Forall valid_component (split_on x2f r) /\ parts = split_on x2f r.
Proof.
  unfold SplitAndValidate. rewrite bool_decide_eq_false_2 by done. rewrite orb_false_l.
  destruct (_ || _) eqn:E.
  - split; [done|]. intros (Hs & Hn & _). exfalso.
    rewrite orb_true_iff, Z.ltb_lt, contains_true in E. destruct E; [lia|done].
  - rewrite orb_false_iff, Z.ltb_ge, contains_false in E. destruct E as [Hsz Hn].
    rewrite bind_Some. split.
    + intros (ps & Ec & E). apply collect_parts_spec in Ec as [-> Hf].
      rewrite bool_decide_eq_false_2 in E by apply split_on_not_nil. naive_solver.
    + intros (_ & _ & Hf & ->). exists (split_on x2f r).
      rewrite bool_decide_eq_false_2 by apply split_on_not_nil.
      split; [by apply collect_parts_spec|done].
Qed.

Lemma flat_map_slash ps : ps <> [] -> flat_map (fun part => x2f :: part) ps = x2f :: join_with x2f ps.
Proof.
  intros Hne. induction ps as [|p ps IH]; [done|].
  destruct ps as [|q ps]; [simpl; by rewrite app_nil_r|].
  change (flat_map (fun part => x2f :: part) (p :: q :: ps))
    with ((x2f :: p) ++ flat_map (fun part => x2f :: part) (q :: ps)).
  by rewrite IH.
Qed.

Lemma expand_storage_alias_slash p : exists r, expand_storage_alias p = x2f :: r.
Proof.
  destruct (expand_storage_alias_cases p) as [[t ->]|(-> & _ & r & ->)]; eauto.
Qed.

Lemma NormalizePath_result p q :
  NormalizePath p = Some q ->
  q = strip_trailing_slashes (expand_storage_alias p) /\ absolute_path q.
Proof.
  unfold NormalizePath. case_bool_decide; [done|]. rewrite bind_Some.
  intros (ps & Es & [= <-]).
  destruct (expand_storage_alias_slash p) as [e He].
  destruct (strip_trailing_slashes_head _ _ He) as [r Hr].
  rewrite Hr in Es. apply SplitAndValidate_absolute in Es as (Hsz & Hn & Hf & ->).
  rewrite flat_map_slash, join_split, <- Hr by apply split_on_not_nil.
  split; [done|]. exists r. rewrite Hr. repeat split; try done. rewrite <- Hr.
  destruct (strip_trailing_slashes_spec (expand_storage_alias p)) as [n E].
  apply (storage_alias_prefix _ n). rewrite <- E.
  destruct (expand_storage_alias_cases p) as [[t ->]|(-> & Ha & _)]; done.
Qed.

Lemma absolute_path_normal q : absolute_path q -> strip_trailing_slashes q = q ->
  NormalizePath q = Some q.
Proof.
  intros (r & -> & Hsz & Hn & Hf & Ha) Hs. unfold NormalizePath.
  rewrite bool_decide_eq_false_2 by done.
  rewrite expand_storage_alias_id, Hs by done.
  rewrite (proj2 (SplitAndValidate_absolute r (split_on x2f r))) by done. simpl.
  by rewrite flat_map_slash, join_split by apply split_on_not_nil.
Qed.

(** *** Placeholders *)

Lemma replace_all_id s k :
  user_braces_only s k = true -> x7b ∉ take k s ->
  forall package, replace_all (lit "{package}") package s 0 = s.
Proof.
  revert k. induction s as [|c s IH]; intros k Hb Hk package; [done|].
  cbn [replace_all]. destruct k as [|k]; cbn [user_braces_only] in Hb.
  - case_bool_decide as Hc1; [done|]. case_bool_decide as Hc2; subst.
    + apply andb_true_iff in Hb as [Hu Hb].
      apply starts_with_spec in Hu as [t [= ->]]. 
      change (starts_with (lit "{package}") (x7b :: _)) with false. cbn iota.
      rewrite (IH 5%nat); [done|done|]. by apply contains_false.
    + change (starts_with (lit "{package}") (c :: s)) with
        (bool_decide (x7b = c) && starts_with (lit "package}") s).
      rewrite bool_decide_eq_false_2 by congruence. rewrite andb_false_l.
      rewrite (IH 0%nat); [done|done|]. apply not_elem_of_nil.
  - simpl in Hk. apply not_elem_of_cons in Hk as [Hc Hk].
    change (starts_with (lit "{package}") (c :: s)) with
      (bool_decide (x7b = c) && starts_with (lit "package}") s).
    rewrite bool_decide_eq_false_2 by done. rewrite andb_false_l.
    by rewrite (IH k).
Qed.

Lemma ExpandPathPlaceholders_Some input package out :
  ExpandPathPlaceholders input package = Some out <->
  bad_package package = false
  /\ out = replace_all (lit "{package}") package input 0
  /\ user_braces_only out 0 = true.
Proof.
  unfold ExpandPathPlaceholders. destruct (bad_package package).
  { split; [done|]. by intros [E _]. }
  cbv zeta. destruct (user_braces_only _ 0) eqn:E.
  - split; [by intros [= <-]|]. by intros (_ & -> & _).
  - split; [done|]. intros (_ & -> & E'). congruence.
Qed.

Lemma ExpandPathPlaceholders_idemp input package out :
  ExpandPathPlaceholders input package = Some out ->
  ExpandPathPlaceholders out package = Some out.
Proof.
  rewrite !ExpandPathPlaceholders_Some. intros (Hp & -> & Hb). split_and!; try done.
  symmetry. apply (replace_all_id _ 0); [done|]. apply not_elem_of_nil.
Qed.

(** A path template: literal text, [{package}] and [{user}]. *)
Inductive piece : Type :=
  | Text (t : bytes)
  | PackageHole
  | UserHole.

Definition plain_piece (p : piece) : Prop :=
  match p with Text t => x7b ∉ t /\ x7d ∉ t | _ => True end.

Definition render_piece (package : bytes) (p : piece) : bytes :=
  match p with
  | Text t => t
  | PackageHole => package
  | UserHole => lit "{user}"
  end.

Definition template (ps : list piece) : bytes := flat_map (render_piece (lit "{package}")) ps.
Definition instantiate (package : bytes) (ps : list piece) : bytes :=
  flat_map (render_piece package) ps.

Lemma replace_all_text t s package :
  x7b ∉ t ->
  replace_all (lit "{package}") package (t ++ s) 0 = t ++ replace_all (lit "{package}") package s 0.
Proof.
  induction t as [|c t IH]; intros Ht; [done|]. apply not_elem_of_cons in Ht as [Hc Ht].
  cbn [app replace_all].
  change (starts_with (lit "{package}") (c :: t ++ s)) with
    (bool_decide (x7b = c) && starts_with (lit "package}") (t ++ s)).
  rewrite bool_decide_eq_false_2 by done. rewrite andb_false_l. by rewrite IH.
Qed.

Lemma replace_all_template ps package :
  Forall plain_piece ps ->
  replace_all (lit "{package}") package (template ps) 0 = instantiate package ps.
Proof.
  induction 1 as [|p ps Hp _ IH]; [done|].
  unfold template, instantiate in *. cbn [flat_map].
  destruct p as [t| |]; cbn [render_piece].
  - destruct Hp as [Ho _]. by rewrite replace_all_text, IH.
  - change (lit "{package}" ++ flat_map (render_piece (lit "{package}")) ps) with
      (x7b :: lit "package}" ++ flat_map (render_piece (lit "{package}")) ps).
    cbn [replace_all]. rewrite <- IH. done.
  - rewrite <- IH. done.
Qed.

Lemma user_braces_text t s :
  x7b ∉ t -> x7d ∉ t -> user_braces_only (t ++ s) 0 = user_braces_only s 0.
Proof.
  induction t as [|c t IH]; intros Ho Hc; [done|].
  apply not_elem_of_cons in Ho as [Ho1 Ho], Hc as [Hc1 Hc].
  simpl. rewrite !bool_decide_eq_false_2 by congruence. by apply IH.
Qed.

Lemma bad_package_braces package : bad_package package = false -> x7b ∉ package /\ x7d ∉ package.
Proof.
  unfold bad_package. rewrite orb_false_iff. intros [_ Hf].
  split; intros Hin; apply not_true_iff_false in Hf; destruct Hf; apply existsb_exists;
    eexists; rewrite <- list_elem_of_In; (split; [exact Hin|]);
    by apply bool_decide_eq_true_2; set_solver.
Qed.

Lemma user_braces_instantiate ps package :
  bad_package package = false -> Forall plain_piece ps ->
  user_braces_only (instantiate package ps) 0 = true.
Proof.
  intros Hp. apply bad_package_braces in Hp as [Ho Hc].
  unfold instantiate. induction 1 as [|p ps Hpl _ IH]; [done|]. cbn [flat_map].
  destruct p as [t| |]; cbn [render_piece].
  - destruct Hpl. by rewrite user_braces_text.
  - by rewrite user_braces_text.
  - exact IH.
Qed.

(** ** Properties *)

(** [NormalizePath] returns canonical absolute paths and is idempotent: its
    result starts with a slash, has between one and any number of non-empty
    components of at most 255 bytes that are neither [.] nor [..], is at most
    4095 bytes long, is not one of the [/sdcard] and [/storage/self/primary]
    aliases, and normalizing it again changes nothing. *)
Theorem normalize_path_canonical p q :
  NormalizePath p = Some q -> absolute_path q /\ NormalizePath q = Some q.
Proof.
  intros E. apply NormalizePath_result in E as [-> Ha]. split; [done|].
  apply absolute_path_normal; [done|]. apply strip_trailing_slashes_idemp.
Qed.

Lemma normalize_path_canonical_witness :
  NormalizePath (lit "/sdcard/../data") = None
  /\ NormalizePath (lit "/sdcard/Download/") = Some (lit "/storage/emulated/0/Download")
  /\ absolute_path (lit "/storage/emulated/0/Download")
  /\ NormalizePath (lit "/storage/emulated/0/Download")
     = Some (lit "/storage/emulated/0/Download").
Proof.
  assert (NormalizePath (lit "/sdcard/Download/") = Some (lit "/storage/emulated/0/Download"))
    as E by reflexivity.
  split; [reflexivity|]. split; [exact E|]. exact (normalize_path_canonical _ _ E).
Defined.

(** [IsPathOrDescendant] is exactly the component-wise prefix relation: it
    never confuses [Download] with [Downloads], and it holds precisely when the
    components of the directory start those of the path. *)
Theorem is_path_or_descendant_prefix p d :
  IsPathOrDescendant p d = true <-> split_on x2f d `prefix_of` split_on x2f p.
Proof.
  rewrite IsPathOrDescendant_true. split.
  - intros [->|[r ->]]; [done|]. rewrite split_on_app_any. by apply prefix_app_r.
  - intros [k E]. rewrite <- (join_split x2f p), E.
    destruct (decide (k = [])) as [->|Hk].
    + left. by rewrite app_nil_r, join_split.
    + right. rewrite join_with_app, join_split by (done || apply split_on_not_nil). eauto.
Qed.

(** [ExpandPathPlaceholders] substitutes templates: on text made of
    brace-free literals, [{package}] and [{user}] it succeeds, replaces every
    [{package}] by the package and keeps every [{user}]; expanding the result
    again is the identity, so no [{package}] is left in it. *)
Theorem expand_path_placeholders_template ps package :
  bad_package package = false -> Forall plain_piece ps ->
  ExpandPathPlaceholders (template ps) package = Some (instantiate package ps)
  /\ ExpandPathPlaceholders (instantiate package ps) package = Some (instantiate package ps).
Proof.
  intros Hp Hps.
  assert (ExpandPathPlaceholders (template ps) package = Some (instantiate package ps)) as E.
  { apply ExpandPathPlaceholders_Some. rewrite replace_all_template by done.
    split_and!; [done|done|]. by apply user_braces_instantiate. }
  split; [exact E|]. by apply ExpandPathPlaceholders_idemp in E.
Qed.

Lemma expand_path_placeholders_template_witness :
  ExpandPathPlaceholders (lit "Android/data/{package}/u{user}") (lit "dev.app")
    = Some (lit "Android/data/dev.app/u{user}")
  /\ ExpandPathPlaceholders (lit "Android/data/dev.app/u{user}") (lit "dev.app")
    = Some (lit "Android/data/dev.app/u{user}").
Proof.
  apply (expand_path_placeholders_template
           [Text (lit "Android/data/"); PackageHole; Text (lit "/u"); UserHole] (lit "dev.app")).
  - reflexivity.
  - repeat (constructor; [first [exact I | split; apply contains_false; reflexivity]|]).
    constructor.
Defined.
