(* ===== verification/Policy.v ===== *)
(** * Policy data model (core/include/pathguard/policy.h)

    The schema-2 policy document that the compiler builds and the binary format
    stores. Enumerations keep their constructors and their underlying values. *)

From S2P Require Import Prelude.

Inductive FailureMode : Type := FailureMode_kOpen | FailureMode_kClosed.
Inductive MountAction : Type := kDeny | kRedirect | kRestore | kIsolateRoot.
Inductive EventAction : Type := kObserve | kExport.
Inductive MediaCompat : Type := MediaCompat_kOff | kHideDenied.
Inductive ProviderCompat : Type := ProviderCompat_kOff | kVirtualize.

#[export] Instance failure_mode_eq_dec : EqDecision FailureMode.
Proof. solve_decision. Defined.
#[export] Instance mount_action_eq_dec : EqDecision MountAction.
Proof. solve_decision. Defined.
#[export] Instance event_action_eq_dec : EqDecision EventAction.
Proof. solve_decision. Defined.
#[export] Instance media_compat_eq_dec : EqDecision MediaCompat.
Proof. solve_decision. Defined.
#[export] Instance provider_compat_eq_dec : EqDecision ProviderCompat.
Proof. solve_decision. Defined.

(** The [static_cast] of an enumeration to its underlying [uint8_t], and back. *)
Definition failure_mode_value (m : FailureMode) : Z :=
  match m with FailureMode_kOpen => 0 | FailureMode_kClosed => 1 end.
Definition mount_action_value (a : MountAction) : Z :=
  match a with kDeny => 0 | kRedirect => 1 | kRestore => 2 | kIsolateRoot => 3 end.
Definition event_action_value (a : EventAction) : Z :=
  match a with kObserve => 0 | kExport => 1 end.
Definition media_compat_value (m : MediaCompat) : Z :=
  match m with MediaCompat_kOff => 0 | kHideDenied => 1 end.
Definition provider_compat_value (m : ProviderCompat) : Z :=
  match m with ProviderCompat_kOff => 0 | kVirtualize => 1 end.

Definition failure_mode_of (v : Z) : FailureMode :=
  if v =? 0 then FailureMode_kOpen else FailureMode_kClosed.
Definition mount_action_of (v : Z) : MountAction :=
  if v =? 0 then kDeny else if v =? 1 then kRedirect
  else if v =? 2 then kRestore else kIsolateRoot.
Definition event_action_of (v : Z) : EventAction :=
  if v =? 0 then kObserve else kExport.
Definition media_compat_of (v : Z) : MediaCompat :=
  if v =? 0 then MediaCompat_kOff else kHideDenied.
Definition provider_compat_of (v : Z) : ProviderCompat :=
  if v =? 0 then ProviderCompat_kOff else kVirtualize.

Definition kEventModeTrash : Z := 2.
Definition kEventModeMask : Z := 3.
Definition kEventMediaScan : Z := Z.shiftl 1 2.

(** [depth] and [flags] are [uint16_t], [options] is [uint32_t]. *)
Record LogicalMountRule : Type := {
  m_action : MountAction;
  m_visible_path : bytes;
  m_backing_path : bytes;
  m_depth : Z;
  m_flags : Z;
  m_line : Z;
}.

Record EventRule : Type := {
  e_action : EventAction;
  e_source_path : bytes;
  e_target_path : bytes;
  e_options : Z;
  e_line : Z;
}.

Record AppPolicy : Type := {
  package : bytes;
  media_compat : MediaCompat;
  provider_compat : ProviderCompat;
  users : list bytes;
  processes : list bytes;
  mounts : list LogicalMountRule;
  events : list EventRule;
}.

Record PolicyDocument : Type := {
  schema : Z;
  failure_mode : FailureMode;
  allow_legacy_string_bind : bool;
  apps : list AppPolicy;
}.

Record ParseError : Type := {
  error_line : Z;
  error_message : bytes;
}.

(** A routine that takes a [ParseError*] fails with the error it stored there,
    or with [None] when it returned [false] without storing one. *)
Abbreviation checked := (outcome (option ParseError)).

Definition fail_at {A} (line : Z) (message : bytes) : checked A :=
  Err (Some {| error_line := line; error_message := message |}).

(** Values of the width the code gives them. *)
Definition mount_in_range (m : LogicalMountRule) : Prop :=
  0 <= m_depth m < 2 ^ 16 /\ 0 <= m_flags m < 2 ^ 16.
Definition event_in_range (e : EventRule) : Prop :=
  0 <= e_options e < 2 ^ 32.

Lemma mount_action_roundtrip a : mount_action_of (mount_action_value a) = a.
Proof. by destruct a. Qed.
Lemma event_action_roundtrip a : event_action_of (event_action_value a) = a.
Proof. by destruct a. Qed.
Lemma media_compat_roundtrip m : media_compat_of (media_compat_value m) = m.
Proof. by destruct m. Qed.
Lemma provider_compat_roundtrip m : provider_compat_of (provider_compat_value m) = m.
Proof. by destruct m. Qed.
Lemma failure_mode_roundtrip m : failure_mode_of (failure_mode_value m) = m.
Proof. by destruct m. Qed.
