(* ===== verification/Validation.v ===== *)
(** * Policy validation (core/src/validation.cpp)

    [ValidatePolicy] checks one application policy and rewrites it into its
    canonical form. The in-place update of the policy is the returned value;
    the loops over the mount and event vectors are recursions that thread the
    loop's local state ([isolate], [visible_sources], [event_keys]). *)

From S2P Require Import Prelude Path Policy.

Local Open Scope pg_scope.

Definition ContainsPlaceholder (path : bytes) : bool :=
  contains x7b path || contains x7d path.

Definition NormalizeBacking (input package : bytes) : option bytes :=
  expanded ← ExpandPathPlaceholders input package;
  NormalizeLogicalPath expanded.

Definition NormalizeVisible (input : bytes) : option bytes :=
  if ContainsPlaceholder input then None else NormalizeLogicalPath input.

(** The value [std::from_chars] stores in [unsigned value = 0]. *)
Definition user_value (user : bytes) : Z := default 0 (from_chars 32 user).

Definition NormalizeUsers (users : list bytes) : option (list bytes) :=
  if users == [lit "*"] then Some users
  else if forallb (fun user => negb (from_chars 32 user == None)) users
  then Some (sort_by user_value users)
  else None.

Definition MountStage (action : MountAction) : Z :=
  match action with
  | kIsolateRoot => 0
  | kRestore => 1
  | kRedirect => 2
  | kDeny => 3
  end.

(** [rule.depth = 1; for (value : path) if (value == '/') ++rule.depth;] on a
    [uint16_t]. *)
Definition path_depth (path : bytes) : Z :=
  fold_left (fun depth value => if value == x2f then u16 (depth + 1) else depth) path 1.

Definition set_mount (rule : LogicalMountRule) (visible backing : bytes) (depth : Z)
    : LogicalMountRule :=
  {| m_action := m_action rule; m_visible_path := visible; m_backing_path := backing;
     m_depth := depth; m_flags := m_flags rule; m_line := m_line rule |}.

(** The first loop over [policy->mounts]. The result holds the rewritten rules
    and the isolate rule, when there is one. *)
Fixpoint scan_mounts (package : bytes) (isolate : option LogicalMountRule)
    (visible_sources : gset bytes) (rules : list LogicalMountRule)
    : checked (list LogicalMountRule * option LogicalMountRule) :=
  match rules with
  | [] => Ok ([], isolate)
  | rule :: rest =>
      match m_action rule with
      | kIsolateRoot =>
          match isolate with
          | Some _ => fail_at (m_line rule) (lit "multiple isolate rules")
          | None =>
              match NormalizeBacking (m_backing_path rule) package with
              | None => fail_at (m_line rule) (lit "invalid isolate backing path")
              | Some backing =>
                  let rule' := set_mount rule [] backing 0 in
                  '(rest', isolate') ← scan_mounts package (Some rule') visible_sources rest;
                  Ok (rule' :: rest', isolate')
              end
          end
      | action =>
          match NormalizeVisible (m_visible_path rule) with
          | None => fail_at (m_line rule) (lit "invalid visible path")
          | Some visible =>
              let depth := path_depth visible in
              if bool_decide (visible ∈ visible_sources)
              then fail_at (m_line rule) (lit "conflicting synchronous action")
              else
                backing ← match action with
                          | kRedirect =>
                              match NormalizeBacking (m_backing_path rule) package with
                              | None => fail_at (m_line rule)
                                          (lit "invalid redirect backing path")
                              | Some backing => Ok backing
                              end
                          | kRestore => Ok visible
                          | _ => Ok []
                          end;
                let rule' := set_mount rule visible backing depth in
                '(rest', isolate') ←
                  scan_mounts package isolate ({[visible]} ∪ visible_sources) rest;
                Ok (rule' :: rest', isolate')
          end
      end
  end.

(** The second loop over [policy->mounts]. *)
Fixpoint check_isolate (isolate : option LogicalMountRule) (rules : list LogicalMountRule)
    : checked unit :=
  match rules with
  | [] => Ok ()
  | rule :: rest =>
      if (m_action rule == kRestore) && (isolate == None)
      then fail_at (m_line rule) (lit "allow requires isolate")
      else
        match isolate with
        | Some iso =>
            if (m_action rule != kIsolateRoot)
               && (IsPathOrDescendant (m_visible_path rule) (m_backing_path iso)
                   || IsPathOrDescendant (m_backing_path iso) (m_visible_path rule))
            then fail_at (m_line rule) (lit "visible path conflicts with isolate backing path")
            else check_isolate isolate rest
        | None => check_isolate isolate rest
        end
  end.

Definition check_provider (provider : ProviderCompat) (users : list bytes)
    (rules : list LogicalMountRule) : checked unit :=
  match provider with
  | kVirtualize =>
      if users == [lit "*"]
      then fail_at 0 (lit "provider virtualization requires explicit users")
      else if existsb (fun rule => m_action rule == kRedirect) rules
      then Ok ()
      else fail_at 0 (lit "provider virtualization requires redirect rules")
  | ProviderCompat_kOff => Ok ()
  end.

(** [(rule.options & kEventModeMask) > kEventModeTrash
     || (rule.options & ~(kEventModeMask | kEventMediaScan)) != 0] *)
Definition bad_export_options (options : Z) : bool :=
  (kEventModeTrash <? Z.land options kEventModeMask)
  || (Z.land options (u32 (Z.lnot (Z.lor kEventModeMask kEventMediaScan))) != 0).

(** The byte string [event_keys] stores. *)
Definition event_key_bytes (action : EventAction) (source target : bytes) (options : Z) : bytes :=
  byte_of (event_action_value action) :: source ++ x00 :: target ++ le_bytes 4 options.

(** The loop over [policy->events]. *)
Fixpoint scan_events (package : bytes) (event_keys : gset bytes) (rules : list EventRule)
    : checked (list EventRule) :=
  match rules with
  | [] => Ok []
  | rule :: rest =>
      match NormalizeVisible (e_source_path rule) with
      | None => fail_at (e_line rule) (lit "invalid event source path")
      | Some source =>
          '(target, options) ←
            match e_action rule with
            | kExport =>
                match NormalizeBacking (e_target_path rule) package with
                | None => fail_at (e_line rule) (lit "invalid export target path")
                | Some target =>
                    if IsPathOrDescendant target source
                    then fail_at (e_line rule) (lit "invalid export target path")
                    else if bad_export_options (e_options rule)
                    then fail_at (e_line rule) (lit "invalid export options")
                    else Ok (target, e_options rule)
                end
            | kObserve => Ok ([], 0)
            end;
          let key := event_key_bytes (e_action rule) source target options in
          if bool_decide (key ∈ event_keys)
          then fail_at (e_line rule) (lit "duplicate event rule")
          else
            rest' ← scan_events package ({[key]} ∪ event_keys) rest;
            Ok ({| e_action := e_action rule; e_source_path := source;
                   e_target_path := target; e_options := options;
                   e_line := e_line rule |} :: rest')
      end
  end.

(** The tuples the two final sorts compare. *)
Definition mount_key (rule : LogicalMountRule) : Z * Z * bytes * bytes * Z :=
  (MountStage (m_action rule), m_depth rule, m_visible_path rule, m_backing_path rule,
   m_flags rule).

Definition event_key (rule : EventRule) : Z * bytes * bytes * Z :=
  (event_action_value (e_action rule), e_source_path rule, e_target_path rule,
   e_options rule).

Definition ValidatePolicy (policy : AppPolicy) : checked AppPolicy :=
  if package policy == [] then Err None
  else
    match NormalizeUsers (users policy) with
    | None => fail_at 0 (lit "invalid Android user list")
    | Some users' =>
        let processes' := sort_by id (processes policy) in
        '(mounts', isolate) ← scan_mounts (package policy) None ∅ (mounts policy);
        _ ← check_isolate isolate mounts';
        _ ← check_provider (provider_compat policy) users' mounts';
        events' ← scan_events (package policy) ∅ (events policy);
        Ok {| package := package policy;
              media_compat := media_compat policy;
              provider_compat := provider_compat policy;
              users := users';
              processes := processes';
              mounts := sort_by mount_key mounts';
              events := sort_by event_key events' |}
    end.

(** ** What a canonical policy is *)

Definition backing_ok (package backing : bytes) : Prop :=
  bad_package package = false /\ user_braces_only backing 0 = true /\ logical_path backing.

Definition visible_ok (visible : bytes) : Prop :=
  x7b ∉ visible /\ x7d ∉ visible /\ logical_path visible.

Definition is_isolate (rule : LogicalMountRule) : Prop := m_action rule = kIsolateRoot.
#[export] Instance is_isolate_dec rule : Decision (is_isolate rule).
Proof. unfold is_isolate. apply _. Defined.

(** One rule in canonical form: what the first loop leaves behind. *)
Definition mount_canonical (package : bytes) (rule : LogicalMountRule) : Prop :=
  match m_action rule with
  | kIsolateRoot =>
      m_visible_path rule = [] /\ backing_ok package (m_backing_path rule) /\ m_depth rule = 0
  | action =>
      visible_ok (m_visible_path rule)
      /\ m_depth rule = size (split_on x2f (m_visible_path rule))
      /\ match action with
         | kRedirect => backing_ok package (m_backing_path rule)
         | kRestore => m_backing_path rule = m_visible_path rule
         | _ => m_backing_path rule = []
         end
  end.

Definition visible_of (rules : list LogicalMountRule) : list bytes :=
  m_visible_path <$> filter (fun rule => ~ is_isolate rule) rules.

Definition isolates (rules : list LogicalMountRule) : list LogicalMountRule :=
  filter is_isolate rules.

(** The isolate backing path and the visible path of every other rule are
    unrelated by the descendant order. *)
Definition isolate_disjoint (rules : list LogicalMountRule) : Prop :=
  forall iso rule, iso ∈ rules -> is_isolate iso -> rule ∈ rules -> ~ is_isolate rule ->
    IsPathOrDescendant (m_visible_path rule) (m_backing_path iso) = false
    /\ IsPathOrDescendant (m_backing_path iso) (m_visible_path rule) = false.

Record mounts_valid (package : bytes) (rules : list LogicalMountRule) : Prop := {
  mv_canonical : Forall (mount_canonical package) rules;
  mv_distinct : NoDup (visible_of rules);
  mv_isolates : (length (isolates rules) <= 1)%nat;
  mv_restore : forall rule, rule ∈ rules -> m_action rule = kRestore -> isolates rules <> [];
  mv_disjoint : isolate_disjoint rules;
}.

Definition event_canonical (package : bytes) (rule : EventRule) : Prop :=
  visible_ok (e_source_path rule)
  /\ match e_action rule with
     | kExport =>
         backing_ok package (e_target_path rule)
         /\ IsPathOrDescendant (e_target_path rule) (e_source_path rule) = false
         /\ bad_export_options (e_options rule) = false
     | kObserve => e_target_path rule = [] /\ e_options rule = 0
     end.

Record events_valid (package : bytes) (rules : list EventRule) : Prop := {
  ev_canonical : Forall (event_canonical package) rules;
  ev_distinct : NoDup ((fun e => event_key_bytes (e_action e) (e_source_path e)
                                   (e_target_path e) (e_options e)) <$> rules);
}.

Definition users_valid (users : list bytes) : Prop :=
  users = [lit "*"]
  \/ (Forall (fun user => is_Some (from_chars 32 user)) users /\ sorted_by user_value users).

Definition provider_valid (provider : ProviderCompat) (users : list bytes)
    (rules : list LogicalMountRule) : Prop :=
  provider = kVirtualize ->
  users <> [lit "*"] /\ exists rule, rule ∈ rules /\ m_action rule = kRedirect.

Record canonical_policy (p : AppPolicy) : Prop := {
  cp_package : package p <> [];
  cp_users : users_valid (users p);
  cp_processes : sorted_by id (processes p);
  cp_mounts : mounts_valid (package p) (mounts p);
  cp_mounts_sorted : strictly_sorted_by mount_key (mounts p);
  cp_provider : provider_valid (provider_compat p) (users p) (mounts p);
  cp_events : events_valid (package p) (events p);
  cp_events_sorted : strictly_sorted_by event_key (events p);
}.

(** ** Lemmas on single paths *)

Lemma contains_placeholder_false path :
  ContainsPlaceholder path = false <-> x7b ∉ path /\ x7d ∉ path.
Proof. unfold ContainsPlaceholder. by rewrite orb_false_iff, !contains_false. Qed.

Lemma NormalizeVisible_spec input out :
  NormalizeVisible input = Some out <-> visible_ok input /\ out = input.
Proof.
  unfold NormalizeVisible, visible_ok.
  destruct (ContainsPlaceholder input) eqn:E.
  - split; [done|]. intros [(Ho & Hc & _) _].
    assert (ContainsPlaceholder input = false) by (by apply contains_placeholder_false).
    congruence.
  - apply contains_placeholder_false in E as [Ho Hc].
    rewrite NormalizeLogicalPath_spec. naive_solver.
Qed.

Lemma NormalizeBacking_ok input package out :
  NormalizeBacking input package = Some out -> backing_ok package out.
Proof.
  unfold NormalizeBacking. rewrite bind_Some. intros (e & He & Hn).
  apply NormalizeLogicalPath_spec in Hn as [Hl ->].
  apply ExpandPathPlaceholders_Some in He as (Hp & -> & Hb). by repeat split; try apply Hl.
Qed.

Lemma NormalizeBacking_fixed package out :
  backing_ok package out -> NormalizeBacking out package = Some out.
Proof.
  intros (Hp & Hb & Hl). unfold NormalizeBacking.
  rewrite (proj2 (ExpandPathPlaceholders_Some out package out)).
  - simpl. by apply NormalizeLogicalPath_spec.
  - split_and!; [done| |done]. symmetry. apply (replace_all_id _ 0); [done|].
    apply not_elem_of_nil.
Qed.

Lemma length_split_on_le c s : (length (split_on c s) <= S (length s))%nat.
Proof.
  induction s as [|x s IH]; simpl; [done|].
  case_bool_decide; simpl; [lia|].
  destruct (split_on_cons c s) as (p & ps & E). rewrite E in *. simpl in *. lia.
Qed.

Lemma path_depth_fold path d :
  0 <= d -> d + size path < 2 ^ 16 ->
  fold_left (fun depth value => if value == x2f then u16 (depth + 1) else depth) path d
  = d + size (split_on x2f path) - 1.
Proof.
  revert d. induction path as [|c path IH]; intros d Hd Hs; [cbn; unfold size; simpl; lia|].
  rewrite size_cons in Hs. cbn [fold_left split_on]. pose proof (size_nonneg path).
  case_bool_decide.
  - rewrite u16_small by lia. rewrite IH by lia. rewrite size_cons. lia.
  - rewrite IH by lia. destruct (split_on_cons x2f path) as (p & ps & ->).
    by rewrite !size_cons.
Qed.

Lemma path_depth_components path :
  size path <= kMaxLogicalPathBytes -> path_depth path = size (split_on x2f path).
Proof.
  unfold kMaxLogicalPathBytes. intros Hs. unfold path_depth.
  rewrite path_depth_fold by lia. lia.
Qed.

(** ** The mount loop, rule by rule *)

(** What the loop does to one rule when it accepts it. *)
Definition normalize_mount (package : bytes) (rule : LogicalMountRule)
    : option LogicalMountRule :=
  match m_action rule with
  | kIsolateRoot =>
      backing ← NormalizeBacking (m_backing_path rule) package;
      Some (set_mount rule [] backing 0)
  | action =>
      visible ← NormalizeVisible (m_visible_path rule);
      backing ← match action with
                | kRedirect => NormalizeBacking (m_backing_path rule) package
                | kRestore => Some visible
                | _ => Some []
                end;
      Some (set_mount rule visible backing (path_depth visible))
  end.

Lemma normalize_mount_action package rule rule' :
  normalize_mount package rule = Some rule' ->
  m_action rule' = m_action rule /\ m_flags rule' = m_flags rule /\ m_line rule' = m_line rule.
Proof.
  unfold normalize_mount. destruct (m_action rule) eqn:E; rewrite !bind_Some;
    [intros (v & _ & Hv) .. | intros (b & _ & [= <-])];
    try (apply bind_Some in Hv as (b & _ & [= <-])); cbn; by rewrite E.
Qed.

Lemma normalize_mount_canonical package rule rule' :
  normalize_mount package rule = Some rule' -> mount_canonical package rule'.
Proof.
  unfold normalize_mount, mount_canonical. intros E.
  destruct (m_action rule) eqn:Ea;
    apply bind_Some in E as (v & Hv & E); try (apply bind_Some in E as (b & Hb & E));
    injection E as <-; cbn; rewrite Ea;
    try (apply NormalizeVisible_spec in Hv as [Hv ->];
         pose proof (path_depth_components _ (logical_size _ (proj2 (proj2 Hv)))) as Hd).
  - injection Hb as <-. done.
  - by apply NormalizeBacking_ok in Hb.
  - injection Hb as <-. done.
  - by apply NormalizeBacking_ok in Hv.
Qed.

Lemma set_mount_id rule :
  set_mount rule (m_visible_path rule) (m_backing_path rule) (m_depth rule) = rule.
Proof. by destruct rule. Qed.

Lemma normalize_mount_fixed package rule :
  mount_canonical package rule -> normalize_mount package rule = Some rule.
Proof.
  unfold normalize_mount, mount_canonical. intros Hc.
  transitivity (Some (set_mount rule (m_visible_path rule) (m_backing_path rule) (m_depth rule)));
    [|by rewrite set_mount_id].
  destruct (m_action rule) eqn:Ea; destruct Hc as (Hv & Hd & Hb);
    try (rewrite (proj2 (NormalizeVisible_spec _ (m_visible_path rule))) by done; cbn;
         rewrite path_depth_components by apply (logical_size _ (proj2 (proj2 Hv)));
         rewrite <- Hd).
  - by rewrite Hb.
  - by rewrite NormalizeBacking_fixed.
  - by rewrite Hb.
  - rewrite NormalizeBacking_fixed by done. cbn. by rewrite Hv, Hb.
Qed.

Lemma visible_of_cons rule rules :
  visible_of (rule :: rules)
  = if decide (is_isolate rule) then visible_of rules
    else m_visible_path rule :: visible_of rules.
Proof.
  unfold visible_of. rewrite filter_cons.
  destruct (decide (is_isolate rule)); destruct (decide (~ is_isolate rule)); done.
Qed.

Lemma isolates_cons rule rules :
  isolates (rule :: rules)
  = if decide (is_isolate rule) then rule :: isolates rules else isolates rules.
Proof. unfold isolates. rewrite filter_cons. by destruct (decide (is_isolate rule)). Qed.

(** One iteration of the loop. *)
Lemma scan_mounts_cons package isolate sources rule rest rules' isolate' :
  scan_mounts package isolate sources (rule :: rest) = Ok (rules', isolate') <->
  exists rule' rest', normalize_mount package rule = Some rule' /\ rules' = rule' :: rest' /\
    if decide (is_isolate rule)
    then isolate = None /\ scan_mounts package (Some rule') sources rest = Ok (rest', isolate')
    else m_visible_path rule' ∉ sources
         /\ scan_mounts package isolate ({[m_visible_path rule']} ∪ sources) rest
            = Ok (rest', isolate').
Proof.
  assert (forall (m : checked (list LogicalMountRule * option LogicalMountRule)) rule',
    ('(rest', iso) ← m; Ok (rule' :: rest', iso)) = Ok (rules', isolate') <->
    exists rest', rules' = rule' :: rest' /\ m = Ok (rest', isolate')) as Hbind.
  { intros m r. rewrite bind_Ok. split.
    - intros ([rest' iso] & -> & [= <- <-]). eauto.
    - intros (rest' & -> & ->). eexists (_, _). eauto. }
  destruct (decide (is_isolate rule)) as [Hi|Hi]; unfold is_isolate in Hi;
    cbn [scan_mounts]; unfold normalize_mount.
  - rewrite Hi. destruct isolate as [iso|].
    { split; [done|]. intros (? & ? & _ & _ & [? _]). done. }
    destruct (NormalizeBacking _ package) as [b|]; cbn; [|naive_solver].
    rewrite Hbind. naive_solver.
  - destruct (m_action rule) eqn:Ea; [ | | |done].
    all: destruct (NormalizeVisible (m_visible_path rule)) as [v|]; cbn; [|naive_solver].
    2: destruct (NormalizeBacking (m_backing_path rule) package) as [b|]; cbn;
         [|case_bool_decide; naive_solver].
    all: case_bool_decide as Hin;
           [split; [done|]; intros (? & ? & [= <-] & _ & ? & _); done|].
    all: rewrite Hbind; naive_solver.
Qed.

(** The whole loop: it succeeds exactly when every rule normalizes, the visible
    paths are new and distinct, and there is at most one isolate rule. *)
Lemma scan_mounts_spec package isolate sources rules rules' isolate' :
  scan_mounts package isolate sources rules = Ok (rules', isolate') <->
  Forall2 (fun r r' => normalize_mount package r = Some r') rules rules'
  /\ NoDup (visible_of rules') /\ (forall v, v ∈ visible_of rules' -> v ∉ sources)
  /\ (length (isolates rules') + length (option_list isolate) <= 1)%nat
  /\ isolate' = match isolate with Some i => Some i | None => head (isolates rules') end.
Proof.
  revert isolate sources rules' isolate'.
  induction rules as [|rule rest IH]; intros isolate sources rules' isolate'.
  { cbn [scan_mounts]. split.
    - intros [= <- <-]. split_and!; try by constructor.
      + by intros v ?%not_elem_of_nil.
      + by destruct isolate; simpl; lia.
      + by destruct isolate.
    - intros (Hf & _ & _ & _ & ->). inversion Hf; subst. by destruct isolate. }
  rewrite scan_mounts_cons. split.
  - intros (rule' & rest' & Hn & -> & Hrest).
    destruct (normalize_mount_action _ _ _ Hn) as [Ha _].
    assert (is_isolate rule <-> is_isolate rule') as Hiso by (unfold is_isolate; by rewrite Ha).
    rewrite visible_of_cons, isolates_cons. destruct (decide (is_isolate rule)) as [Hi|Hi].
    + rewrite !decide_True by tauto. destruct Hrest as [-> Hs].
      apply IH in Hs as (Hf & Hnd & Hnew & Hlen & ->). simpl in *.
      assert (isolates rest' = []) as Hnil by (apply length_zero_iff_nil; lia).
      rewrite Hnil. split_and!; auto.
    + rewrite !decide_False by tauto. destruct Hrest as [Hv Hs].
      apply IH in Hs as (Hf & Hnd & Hnew & Hlen & ->).
      split_and!; auto.
      * apply NoDup_cons. split; [|done]. intros Hin%Hnew%not_in_insert. naive_solver.
      * intros v. rewrite elem_of_cons.
        intros [->|Hin%Hnew%not_in_insert]; [done|naive_solver].
  - intros (Hf & Hnd & Hnew & Hlen & ->). inversion Hf as [|? rule' ? rest' Hn Hf']; subst.
    destruct (normalize_mount_action _ _ _ Hn) as [Ha _].
    assert (is_isolate rule <-> is_isolate rule') as Hiso by (unfold is_isolate; by rewrite Ha).
    exists rule', rest'. split_and!; [done|done|].
    rewrite visible_of_cons in Hnd, Hnew. rewrite isolates_cons in Hlen |- *.
    destruct (decide (is_isolate rule)) as [Hi|Hi];
      (destruct (decide (is_isolate rule')) as [Hi'|Hi']; [|try tauto]; try tauto).
    + simpl in *.
      destruct isolate as [i|]; simpl in *; [lia|]. split; [done|]. apply IH.
      split_and!; auto. simpl. lia.
    + apply NoDup_cons in Hnd as [Hnin Hnd]. split; [apply Hnew; left|]. apply IH.
      split_and!; auto. intros v Hv. apply not_in_insert. split.
      * intros ->. done.
      * apply Hnew. by right.
Qed.

Lemma check_isolate_spec isolate rules :
  check_isolate isolate rules = Ok () <->
  forall rule, rule ∈ rules ->
    (m_action rule = kRestore -> isolate <> None)
    /\ forall iso, isolate = Some iso -> ~ is_isolate rule ->
       IsPathOrDescendant (m_visible_path rule) (m_backing_path iso) = false
       /\ IsPathOrDescendant (m_backing_path iso) (m_visible_path rule) = false.
Proof.
  induction rules as [|rule rest IH]; cbn [check_isolate].
  { split; [|done]. by intros _ rule ?%not_elem_of_nil. }
  setoid_rewrite elem_of_cons. destruct isolate as [iso|].
  - rewrite andb_false_r.
    destruct (_ && _) eqn:E.
    + split; [done|]. intros Hall. exfalso.
      destruct (Hall rule (or_introl eq_refl)) as [_ H].
      apply andb_true_iff in E as [Hi E]. apply negb_true_iff, bool_decide_eq_false in Hi.
      destruct (H iso eq_refl Hi) as [E1 E2]. by rewrite E1, E2 in E.
    + rewrite IH. split; [|naive_solver]. intros Hall r [->|Hr]; [|by apply Hall].
      split; [done|]. intros i [= <-] Hi.
      rewrite (bool_decide_eq_false_2 _ Hi) in E. cbn in E. by apply orb_false_iff.
  - destruct (_ && _) eqn:E.
    + split; [done|]. intros Hall. apply andb_true_iff in E as [Ea%bool_decide_eq_true _].
      by destruct (proj1 (Hall rule (or_introl eq_refl)) Ea).
    + rewrite IH. split; [|naive_solver]. intros Hall r [->|Hr]; [|by apply Hall].
      split; [|done]. intros Ea. rewrite (bool_decide_eq_true_2 _ Ea) in E. done.
Qed.

(** ** The event loop, rule by rule *)

Definition normalize_event (package : bytes) (rule : EventRule) : option EventRule :=
  source ← NormalizeVisible (e_source_path rule);
  match e_action rule with
  | kExport =>
      target ← NormalizeBacking (e_target_path rule) package;
      if IsPathOrDescendant target source || bad_export_options (e_options rule) then None
      else Some {| e_action := kExport; e_source_path := source; e_target_path := target;
                   e_options := e_options rule; e_line := e_line rule |}
  | kObserve =>
      Some {| e_action := kObserve; e_source_path := source; e_target_path := [];
              e_options := 0; e_line := e_line rule |}
  end.

Definition key_of_event (rule : EventRule) : bytes :=
  event_key_bytes (e_action rule) (e_source_path rule) (e_target_path rule) (e_options rule).

Lemma normalize_event_canonical package rule rule' :
  normalize_event package rule = Some rule' -> event_canonical package rule'.
Proof.
  unfold normalize_event, event_canonical. rewrite bind_Some. intros (v & Hv & E).
  apply NormalizeVisible_spec in Hv as [Hv ->]. destruct (e_action rule).
  - by injection E as <-.
  - apply bind_Some in E as (b & Hb & E). destruct (_ || _) eqn:Eo; [done|].
    injection E as <-. cbn. apply orb_false_iff in Eo as [??].
    by apply NormalizeBacking_ok in Hb.
Qed.

Lemma normalize_event_fixed package rule :
  event_canonical package rule -> normalize_event package rule = Some rule.
Proof.
  unfold normalize_event, event_canonical. intros [Hv Hc].
  rewrite (proj2 (NormalizeVisible_spec _ (e_source_path rule))) by done. cbn.
  destruct rule as [[] source target options line]; cbn in *.
  - by destruct Hc as [-> ->].
  - destruct Hc as (Hb & E1 & E2). rewrite NormalizeBacking_fixed by done. cbn.
    by rewrite E1, E2.
Qed.

Lemma scan_events_cons package keys rule rest rules' :
  scan_events package keys (rule :: rest) = Ok rules' <->
  exists rule' rest', normalize_event package rule = Some rule' /\ rules' = rule' :: rest'
    /\ key_of_event rule' ∉ keys
    /\ scan_events package ({[key_of_event rule']} ∪ keys) rest = Ok rest'.
Proof.
  cbn [scan_events]. unfold normalize_event, key_of_event.
  destruct (NormalizeVisible (e_source_path rule)) as [source|]; cbn; [|naive_solver].
  destruct (e_action rule) eqn:Ea; cbn.
  - case_bool_decide as Hin.
    { split; [done|]. intros (? & ? & [= <-] & _ & Hk & _). cbn in Hk. done. }
    rewrite bind_Ok. split.
    + intros (rest' & Hs & [= <-]). eexists _, rest'. split_and!; done.
    + intros (? & rest' & [= <-] & -> & _ & Hs). exists rest'. done.
  - destruct (NormalizeBacking (e_target_path rule) package) as [target|]; cbn; [|naive_solver].
    destruct (IsPathOrDescendant target source); cbn; [naive_solver|].
    destruct (bad_export_options (e_options rule)); cbn; [naive_solver|].
    case_bool_decide as Hin.
    { split; [done|]. intros (? & ? & [= <-] & _ & Hk & _). cbn in Hk. done. }
    rewrite bind_Ok. split.
    + intros (rest' & Hs & [= <-]). eexists _, rest'. split_and!; done.
    + intros (? & rest' & [= <-] & -> & _ & Hs). exists rest'. done.
Qed.

Lemma scan_events_spec package keys rules rules' :
  scan_events package keys rules = Ok rules' <->
  Forall2 (fun r r' => normalize_event package r = Some r') rules rules'
  /\ NoDup (key_of_event <$> rules') /\ (forall k, k ∈ key_of_event <$> rules' -> k ∉ keys).
Proof.
  revert keys rules'. induction rules as [|rule rest IH]; intros keys rules'.
  { cbn [scan_events]. split.
    - intros [= <-]. split_and!; try by constructor. by intros v ?%not_elem_of_nil.
    - intros (Hf & _). by inversion Hf. }
  rewrite scan_events_cons. split.
  - intros (rule' & rest' & Hn & -> & Hk & Hs). apply IH in Hs as (Hf & Hnd & Hnew).
    rewrite fmap_cons. split_and!; auto.
    + apply NoDup_cons. split; [|done]. intros Hin%Hnew%not_in_insert. naive_solver.
    + intros k. rewrite elem_of_cons. intros [->|Hin%Hnew%not_in_insert]; [done|naive_solver].
  - intros (Hf & Hnd & Hnew). inversion Hf as [|? rule' ? rest' Hn Hf']; subst.
    rewrite fmap_cons in Hnd, Hnew. apply NoDup_cons in Hnd as [Hnin Hnd].
    exists rule', rest'. split_and!; [done|done|by apply Hnew; left|]. apply IH.
    split_and!; [done|done|]. intros k Hk. apply not_in_insert. split.
    + intros ->. done.
    + apply Hnew. by right.
Qed.

(** ** Users *)

Lemma NormalizeUsers_valid us us' : NormalizeUsers us = Some us' -> users_valid us'.
Proof.
  unfold NormalizeUsers, users_valid. case_bool_decide as E; [intros [= <-]; by left|].
  destruct (forallb _ us) eqn:Ef; [|done]. intros [= <-]. right. split.
  - apply Forall_forall. intros u Hu%elem_of_sort_by.
    rewrite forallb_forall in Ef. apply list_elem_of_In, Ef in Hu.
    apply negb_true_iff, bool_decide_eq_false in Hu. by apply not_eq_None_Some.
  - apply sort_by_sorted.
Qed.

Lemma NormalizeUsers_fixed us : users_valid us -> NormalizeUsers us = Some us.
Proof.
  unfold NormalizeUsers. intros [->|[Hf Hs]].
  - by rewrite bool_decide_eq_true_2.
  - case_bool_decide; [done|].
    assert (forallb (fun user => negb (bool_decide (from_chars 32 user = None))) us = true) as ->.
    { apply forallb_forall. intros u Hu%list_elem_of_In. rewrite Forall_forall in Hf.
      apply Hf in Hu. apply negb_true_iff, bool_decide_eq_false_2. by apply not_eq_None_Some. }
    by rewrite sort_by_id.
Qed.

Lemma check_provider_spec provider us rules :
  check_provider provider us rules = Ok () <-> provider_valid provider us rules.
Proof.
  unfold check_provider, provider_valid. destruct provider.
  { split; [intros _ [=]|done]. }
  assert (existsb (fun rule => bool_decide (m_action rule = kRedirect)) rules = true <->
          exists rule, rule ∈ rules /\ m_action rule = kRedirect) as Hex.
  { rewrite existsb_exists. setoid_rewrite bool_decide_eq_true.
    by setoid_rewrite <- list_elem_of_In. }
  case_bool_decide.
  { split; [done|]. intros Hp. by destruct (Hp eq_refl). }
  destruct (existsb _ rules).
  - split; [|done]. intros _ _. split; [done|]. by apply Hex.
  - split; [done|]. intros Hp. destruct (Hp eq_refl) as [_ Hr]. apply Hex in Hr. done.
Qed.

(** ** The whole validation *)

Lemma elem_of_isolates rule rules : rule ∈ isolates rules <-> is_isolate rule /\ rule ∈ rules.
Proof. apply list_elem_of_filter. Qed.

Lemma elem_of_visible v rules :
  v ∈ visible_of rules <-> exists rule, rule ∈ rules /\ ~ is_isolate rule /\ v = m_visible_path rule.
Proof.
  unfold visible_of. rewrite list_elem_of_fmap. setoid_rewrite list_elem_of_filter. naive_solver.
Qed.

Lemma isolate_head rules iso :
  (length (isolates rules) <= 1)%nat ->
  head (isolates rules) = Some iso <-> is_isolate iso /\ iso ∈ rules.
Proof.
  intros Hlen. rewrite <- elem_of_isolates.
  destruct (isolates rules) as [|i [|? ?]]; cbn in *; [|set_solver|lia].
  by split; [|intros ?%not_elem_of_nil].
Qed.

Lemma mounts_scan_valid package rules rules' isolate :
  (scan_mounts package None ∅ rules = Ok (rules', isolate)
   /\ check_isolate isolate rules' = Ok ()) <->
  Forall2 (fun r r' => normalize_mount package r = Some r') rules rules'
  /\ mounts_valid package rules' /\ isolate = head (isolates rules').
Proof.
  rewrite scan_mounts_spec, check_isolate_spec.
  change (length (option_list (@None LogicalMountRule))) with 0%nat. split.
  - intros [(Hf & Hnd & _ & Hlen & ->) Hchk].
    assert (length (isolates rules') <= 1)%nat as Hlen' by lia.
    split_and!; [done| |done]. split; [|done|done| |].
    + apply Forall_forall. intros r' Hr'.
      apply list_elem_of_lookup in Hr' as [i Hi].
      destruct (Forall2_lookup_r _ _ _ _ _ Hf Hi) as (r & _ & Hn).
      by eapply normalize_mount_canonical.
    + intros r Hr Ha. destruct (Hchk r Hr) as [Hres _]. specialize (Hres Ha).
      by destruct (isolates rules').
    + intros iso r Hin Hi Hr Hni. destruct (Hchk r Hr) as [_ Hd]. apply Hd; [|done].
      by apply isolate_head.
  - intros (Hf & [Hc Hnd Hlen Hres Hdis] & ->).
    split; [split_and!; [done|done|set_solver|lia|done]|].
    intros r Hr. split.
    + intros Ha. specialize (Hres r Hr Ha). by destruct (isolates rules').
    + intros iso Hh Hni. apply isolate_head in Hh as [Hi Hin]; [|done].
      by apply Hdis.
Qed.

Lemma mount_keys_distinct package rules :
  mounts_valid package rules -> NoDup (mount_key <$> rules).
Proof.
  intros [_ Hnd Hlen _ _]. revert Hnd Hlen.
  induction rules as [|r rules IH]; intros Hnd Hlen; [constructor|].
  rewrite visible_of_cons in Hnd. rewrite isolates_cons in Hlen.
  assert (forall r2, mount_key r = mount_key r2 -> is_isolate r <-> is_isolate r2) as Hst.
  { intros r2 [= Hs _ _ _ _]. unfold is_isolate.
    destruct (m_action r), (m_action r2); cbn in Hs; naive_solver. }
  rewrite fmap_cons. apply NoDup_cons.
  destruct (decide (is_isolate r)) as [Hi|Hi]; cbn in *.
  - split; [|apply IH; [done|lia]]. intros (r2 & E & Hr2)%list_elem_of_fmap.
    assert (r2 ∈ isolates rules) as Hin by (apply elem_of_isolates; by rewrite <- Hst).
    destruct (isolates rules); [by apply not_elem_of_nil in Hin|cbn in Hlen; lia].
  - apply NoDup_cons in Hnd as [Hnin Hnd]. split; [|by apply IH].
    intros (r2 & E & Hr2)%list_elem_of_fmap. apply Hnin, elem_of_visible.
    exists r2. rewrite <- Hst by done. split_and!; [done|done|]. by injection E.
Qed.

Lemma event_keys_distinct rules : NoDup (key_of_event <$> rules) -> NoDup (event_key <$> rules).
Proof.
  induction rules as [|r rules IH]; rewrite ?fmap_cons; [constructor|].
  rewrite !NoDup_cons. intros [Hnin Hnd]. split; [|by apply IH].
  intros (r2 & E & Hr2)%list_elem_of_fmap. apply Hnin, list_elem_of_fmap.
  exists r2. split; [|done]. injection E as E1 E2 E3 E4. unfold key_of_event.
  assert (e_action r = e_action r2) as ->
    by (destruct (e_action r), (e_action r2); cbn in E1; done).
  by rewrite E2, E3, E4.
Qed.

#[export] Instance visible_of_perm : Proper ((≡ₚ) ==> (≡ₚ)) visible_of.
Proof. intros l k Hp. unfold visible_of. by rewrite Hp. Qed.

#[export] Instance isolates_perm : Proper ((≡ₚ) ==> (≡ₚ)) isolates.
Proof. intros l k Hp. unfold isolates. by rewrite Hp. Qed.

#[export] Instance mounts_valid_perm package : Proper ((≡ₚ) ==> impl) (mounts_valid package).
Proof.
  intros l k Hp [Hc Hnd Hlen Hres Hdis]. split.
  - by rewrite <- Hp.
  - by rewrite <- Hp.
  - by rewrite <- Hp.
  - intros r Hr Ha E. rewrite <- Hp in Hr.
    apply (Hres r Hr Ha). apply Permutation_nil_r. by rewrite Hp, E.
  - intros iso r Hin Hi Hr Hn. rewrite <- Hp in Hin, Hr. by apply Hdis.
Qed.

#[export] Instance events_valid_perm package : Proper ((≡ₚ) ==> impl) (events_valid package).
Proof. intros l k Hp [Hc Hnd]. split; by rewrite <- Hp. Qed.

Lemma provider_valid_perm provider us l k :
  l ≡ₚ k -> provider_valid provider us l -> provider_valid provider us k.
Proof.
  intros Hp Hv Ev. destruct (Hv Ev) as (Hu & r & Hr & Ha). split; [done|].
  exists r. by rewrite <- Hp.
Qed.

(** Validation as a relation: it succeeds exactly when the normalized rules are
    valid, and then returns them sorted. *)
Lemma ValidatePolicy_spec p q :
  ValidatePolicy p = Ok q <->
  package p <> [] /\ exists us ms es,
    NormalizeUsers (users p) = Some us
    /\ Forall2 (fun r r' => normalize_mount (package p) r = Some r') (mounts p) ms
    /\ mounts_valid (package p) ms
    /\ provider_valid (provider_compat p) us ms
    /\ Forall2 (fun r r' => normalize_event (package p) r = Some r') (events p) es
    /\ events_valid (package p) es
    /\ q = {| package := package p; media_compat := media_compat p;
              provider_compat := provider_compat p; users := us;
              processes := sort_by id (processes p);
              mounts := sort_by mount_key ms; events := sort_by event_key es |}.
Proof.
  unfold ValidatePolicy. case_bool_decide as Hpk; [naive_solver|].
  destruct (NormalizeUsers (users p)) as [us|] eqn:Eu; [|naive_solver].
  rewrite bind_Ok. split.
  - intros ([ms iso] & Hs & H). apply bind_Ok in H as ([] & Hi & H).
    apply bind_Ok in H as ([] & Hpr & H). apply bind_Ok in H as (es & He & [= <-]).
    destruct (proj1 (mounts_scan_valid _ _ _ _) (conj Hs Hi)) as (Hf & Hv & _).
    apply check_provider_spec in Hpr. apply scan_events_spec in He as (Hfe & Hnd & _).
    split; [done|]. exists us, ms, es. split_and!; try done. split; [|done].
    apply Forall_forall. intros r' [i Hr]%list_elem_of_lookup.
    destruct (Forall2_lookup_r _ _ _ _ _ Hfe Hr) as (r & _ & Hn).
    by eapply normalize_event_canonical.
  - intros (_ & us' & ms & es & [= <-] & Hf & Hv & Hpr & Hfe & [Hc Hnd] & ->).
    destruct (proj2 (mounts_scan_valid (package p) (mounts p) ms (head (isolates ms))))
      as [Hs Hi]; [done|].
    exists (ms, head (isolates ms)). split; [done|]. rewrite Hi. cbn.
    rewrite (proj2 (check_provider_spec _ _ _) Hpr). cbn.
    rewrite (proj2 (scan_events_spec (package p) ∅ (events p) es)); [done|].
    split_and!; [done|done|set_solver].
Qed.

Lemma ValidatePolicy_canonical p q : ValidatePolicy p = Ok q -> canonical_policy q.
Proof.
  intros (Hpk & us & ms & es & Hu & _ & Hm & Hp & _ & He & ->)%ValidatePolicy_spec.
  pose proof (sort_by_perm mount_key ms) as Pm. pose proof (sort_by_perm event_key es) as Pe.
  split; cbn; auto.
  - by eapply NormalizeUsers_valid.
  - apply sort_by_sorted.
  - by rewrite Pm.
  - apply sorted_nodup_strict; [|apply sort_by_sorted]. rewrite Pm.
    by eapply mount_keys_distinct.
  - by apply (provider_valid_perm _ _ ms).
  - by rewrite Pe.
  - apply sorted_nodup_strict; [|apply sort_by_sorted]. rewrite Pe.
    apply event_keys_distinct, He.
Qed.

Lemma canonical_policy_fixed q : canonical_policy q -> ValidatePolicy q = Ok q.
Proof.
  intros [Hpk Hu Hp Hm Hms Hpr He Hes]. apply ValidatePolicy_spec. split; [done|].
  exists (users q), (mounts q), (events q). split_and!; try done.
  - by apply NormalizeUsers_fixed.
  - apply Forall_Forall2_diag. eapply Forall_impl; [apply Hm|].
    intros r. apply normalize_mount_fixed.
  - apply Forall_Forall2_diag. eapply Forall_impl; [apply He|].
    intros r. apply normalize_event_fixed.
  - rewrite !sort_by_id by (done || by apply strict_sorted). by destruct q.
Qed.

Lemma Forall2_perm {A B} (P : A -> B -> Prop) l l' k :
  l ≡ₚ l' -> Forall2 P l k -> exists k', k ≡ₚ k' /\ Forall2 P l' k'.
Proof.
  intros Hp Hf. destruct (Permutation_Forall2 Hp Hf) as (k' & Hk & Hf'). eauto.
Qed.

Lemma sort_by_id_perm (l k : list bytes) : l ≡ₚ k -> sort_by id l = sort_by id k.
Proof.
  intros Hp.
  assert (forall (l k : list bytes), sorted_by id l -> sorted_by id k -> l ≡ₚ k -> l = k) as Huniq.
  { clear. unfold sorted_by. intros l k Hl. revert k.
    induction Hl as [|x l Hl IH Hx]; intros k Hk Hp.
    { by apply Permutation_nil_l in Hp. }
    inversion Hk as [|y k' Hk' Hy]; subst; [by apply Permutation_nil_r in Hp|].
    assert (x = y) as ->.
    { rewrite Forall_forall in Hx, Hy.
      assert (x ∈ y :: k') as Hin by (rewrite <- Hp; left).
      assert (y ∈ x :: l) as Hin' by (rewrite Hp; left).
      apply elem_of_cons in Hin as [|Hin]; [done|].
      apply elem_of_cons in Hin' as [|Hin']; [done|].
      apply Hy, cmp_not_gt in Hin as [E|E]; [|done].
      apply Hx, cmp_not_gt in Hin' as [E'|E']; [|done].
      apply cmp_gt_lt in E. unfold id in *. congruence. }
    f_equal. apply IH; [done|]. by eapply Permutation_cons_inv. }
  apply Huniq; [apply sort_by_sorted..|]. by rewrite !sort_by_perm.
Qed.

(** ** Properties *)

(** The policy that validation makes of another one: every user, rule and event is normalized, what
    comes out of it is valid as a whole, and the lists are sorted. *)
Definition normal_form (p q : AppPolicy) : Prop :=
  package p <> [] /\ exists us ms es,
    NormalizeUsers (users p) = Some us
    /\ Forall2 (fun r r' => normalize_mount (package p) r = Some r') (mounts p) ms
    /\ mounts_valid (package p) ms
    /\ provider_valid (provider_compat p) us ms
    /\ Forall2 (fun r r' => normalize_event (package p) r = Some r') (events p) es
    /\ events_valid (package p) es
    /\ q = {| package := package p; media_compat := media_compat p;
              provider_compat := provider_compat p; users := us;
              processes := sort_by id (processes p);
              mounts := sort_by mount_key ms; events := sort_by event_key es |}.

(** C30. Validation accepts exactly the policies that have a normal form, and returns it: the package
    is not empty, the user list, every rule and every event can be normalized, and the normalized
    rules and events meet the conditions (visible paths distinct, at most one isolate rule, restore
    rules only next to it and nothing overlapping its backing path, a virtualizing provider only with
    a redirect and without the wildcard user, events distinct). What it returns is canonical (users all
    numeric and sorted or the single wildcard, processes sorted, every rule normalized with its depth
    equal to its number of components, rules and events strictly sorted by their tuples), and a policy
    is returned unchanged exactly when it is canonical. *)
Theorem validate_policy_canonical p :
  (forall q, ValidatePolicy p = Ok q <-> normal_form p q)
  /\ (forall q, normal_form p q -> canonical_policy q)
  /\ (ValidatePolicy p = Ok p <-> canonical_policy p).
Proof.
  split; [|split].
  - intros q. exact (ValidatePolicy_spec p q).
  - intros q H. apply (ValidatePolicy_canonical p), ValidatePolicy_spec, H.
  - split; [apply ValidatePolicy_canonical|apply canonical_policy_fixed].
Qed.

Lemma ValidatePolicy_perm p p' q :
  package p' = package p -> media_compat p' = media_compat p ->
  provider_compat p' = provider_compat p -> users p' = users p ->
  processes p ≡ₚ processes p' -> mounts p ≡ₚ mounts p' -> events p ≡ₚ events p' ->
  ValidatePolicy p = Ok q -> ValidatePolicy p' = Ok q.
Proof.
  intros Epk Em Epr Eu Hp Hm He E.
  apply ValidatePolicy_spec in E as (Hpk & us & ms & es & Hu & Hf & Hv & Hpv & Hfe & Hve & ->).
  destruct (Forall2_perm _ _ _ _ Hm Hf) as (ms' & Pm & Hf').
  destruct (Forall2_perm _ _ _ _ He Hfe) as (es' & Pe & Hfe').
  apply ValidatePolicy_spec. rewrite Epk, Em, Epr, Eu. split; [done|].
  exists us, ms', es'. split_and!; try done.
  - by rewrite <- Pm.
  - by apply (provider_valid_perm _ _ ms).
  - by rewrite <- Pe.
  - f_equal.
    + by apply sort_by_id_perm.
    + apply sort_by_perm_eq; [by eapply mount_keys_distinct|done].
    + apply sort_by_perm_eq; [by apply event_keys_distinct, Hve|done].
Qed.

(** Validation does not depend on the order of the rules: permuting the
    processes, the mount rules and the events of an accepted policy gives an
    accepted policy with the very same canonical form. *)
Theorem validate_policy_order_independent p p' q :
  package p' = package p -> media_compat p' = media_compat p ->
  provider_compat p' = provider_compat p -> users p' = users p ->
  processes p ≡ₚ processes p' -> mounts p ≡ₚ mounts p' -> events p ≡ₚ events p' ->
  ValidatePolicy p = Ok q -> ValidatePolicy p' = Ok q.
Proof. apply ValidatePolicy_perm. Qed.

(** ** Witnesses *)

Definition example_mount (action : MountAction) (visible backing : bytes) : LogicalMountRule :=
  {| m_action := action; m_visible_path := visible; m_backing_path := backing;
     m_depth := 0; m_flags := 0; m_line := 0 |}.

Definition example_app (rules : list LogicalMountRule) (evs : list EventRule) : AppPolicy :=
  {| package := lit "com.example.app"; media_compat := MediaCompat_kOff;
     provider_compat := kVirtualize; users := [lit "10"; lit "0"];
     processes := [lit "com.example.app:ui"; lit "com.example.app"];
     mounts := rules; events := evs |}.

Definition example_rules : list LogicalMountRule :=
  [example_mount kDeny (lit "Download/private") (lit "ignored");
   example_mount kRedirect (lit "DCIM") (lit "Android/data/{package}/DCIM");
   example_mount kRedirect (lit "Pictures/a") (lit "Sandbox/u{user}")].

Definition example_event : EventRule :=
  {| e_action := kExport; e_source_path := lit "Sandbox/out";
     e_target_path := lit "Download/{package}"; e_options := 5; e_line := 7 |}.

Definition example_canonical : AppPolicy :=
  {| package := lit "com.example.app"; media_compat := MediaCompat_kOff;
     provider_compat := kVirtualize; users := [lit "0"; lit "10"];
     processes := [lit "com.example.app"; lit "com.example.app:ui"];
     mounts :=
       [set_mount (example_mount kRedirect [] []) (lit "DCIM")
          (lit "Android/data/com.example.app/DCIM") 1;
        set_mount (example_mount kRedirect [] []) (lit "Pictures/a") (lit "Sandbox/u{user}") 2;
        set_mount (example_mount kDeny [] []) (lit "Download/private") [] 2];
     events := [{| e_action := kExport; e_source_path := lit "Sandbox/out";
                   e_target_path := lit "Download/com.example.app"; e_options := 5;
                   e_line := 7 |}] |}.

Lemma validate_policy_canonical_witness :
  ValidatePolicy (example_app example_rules [example_event]) = Ok example_canonical
  /\ canonical_policy example_canonical /\ ValidatePolicy example_canonical = Ok example_canonical.
Proof.
  assert (ValidatePolicy (example_app example_rules [example_event]) = Ok example_canonical)
    as E by (vm_compute; reflexivity).
  destruct (validate_policy_canonical (example_app example_rules [example_event])) as (Haccept & Hcanonical & _).
  pose proof (Hcanonical _ (proj1 (Haccept _) E)) as Hc. split; [exact E|]. split; [exact Hc|].
  exact (proj2 (proj2 (proj2 (validate_policy_canonical example_canonical))) Hc).
Defined.

Lemma validate_policy_order_independent_witness :
  ValidatePolicy (example_app (reverse example_rules) [example_event]) = Ok example_canonical.
Proof.
  apply (validate_policy_order_independent (example_app example_rules [example_event]));
    [reflexivity..|symmetry; apply reverse_Permutation|reflexivity|vm_compute; reflexivity].
Defined.
