(* ===== verification/PolicyFormat.v ===== *)
(** * Binary policy format (core/include/pathguard/policy_format.h, policy_index.h)

    Layout constants, the FNV-1a and CRC-32 checksums, and the in-place package
    lookup that reads an encoded policy without decoding it. Reading through a
    pointer is reading a buffer at an offset; an access that does not lie inside
    the buffer is [Oob]. *)

From S2P Require Import Prelude.

Local Open Scope pg_scope.

Definition kMagic : Z := 0x424E4750.
Definition kFormatVersion : Z := 5.
Definition kSchemaVersion : Z := 2.
Definition kHeaderSize : Z := 56.
Definition kPackageSize : Z := 48.
Definition kMountRuleSize : Z := 16.
Definition kEventRuleSize : Z := 16.

Definition kFileSizeOffset : Z := 8.
Definition kPayloadChecksumOffset : Z := 12.
Definition kContentGenerationOffset : Z := 16.
Definition kPackageCountOffset : Z := 24.
Definition kMountRuleCountOffset : Z := 28.
Definition kEventRuleCountOffset : Z := 32.
Definition kPackageTableOffset : Z := 36.
Definition kMountRuleTableOffset : Z := 40.
Definition kEventRuleTableOffset : Z := 44.
Definition kStringTableOffset : Z := 48.
Definition kHeaderFlagsOffset : Z := 52.

Definition kPolicyFlagAllowLegacyStringBind : Z := 1.

Definition kPackageHashOffset : Z := 0.
Definition kPackageNameOffset : Z := 4.
Definition kPackageUsersOffset : Z := 8.
Definition kPackageProcessesOffset : Z := 12.
Definition kPackageFirstMountOffset : Z := 16.
Definition kPackageMountCountOffset : Z := 20.
Definition kPackageFirstEventOffset : Z := 24.
Definition kPackageEventCountOffset : Z := 28.
Definition kPackagePlanGenerationOffset : Z := 32.
Definition kPackageFailureModeOffset : Z := 40.
Definition kPackageMediaCompatOffset : Z := 41.
Definition kPackageProviderCompatOffset : Z := 42.

Definition kMountActionOffset : Z := 0.
Definition kMountDepthOffset : Z := 2.
Definition kMountFlagsOffset : Z := 4.
Definition kMountVisiblePathOffset : Z := 8.
Definition kMountBackingPathOffset : Z := 12.

Definition kEventActionOffset : Z := 0.
Definition kEventSourcePathOffset : Z := 4.
Definition kEventTargetPathOffset : Z := 8.
Definition kEventOptionsOffset : Z := 12.

Definition kFnv1a32OffsetBasis : Z := 2166136261.
Definition kFnv1a64OffsetBasis : Z := 14695981039346656037.
Definition kCrc32Initial : Z := 0xffffffff.
Definition kCrc32XorOut : Z := 0xffffffff.

Definition Fnv1a32 (data : bytes) : Z :=
  fold_left (fun hash b => u32 (Z.lxor hash (byte_val b) * 16777619)) data
            kFnv1a32OffsetBasis.

Definition Fnv1a64 (data : bytes) : Z :=
  fold_left (fun hash b => u64 (Z.lxor hash (byte_val b) * 1099511628211)) data
            kFnv1a64OffsetBasis.

(** One of the eight inner iterations. *)
Definition crc32_bit (crc : Z) : Z :=
  let mask := u32 (0 - Z.land crc 1) in
  Z.lxor (Z.shiftr crc 1) (Z.land 0xedb88320 mask).

Definition crc32_byte (crc : Z) (b : byte) : Z :=
  Nat.iter 8 crc32_bit (Z.lxor crc (byte_val b)).

Definition Crc32 (data : bytes) : Z :=
  Z.lxor (fold_left crc32_byte data kCrc32Initial) kCrc32XorOut.

Definition PackageNameHash (value : bytes) : Z := Fnv1a32 value.

(** [ReadLe16]/[ReadLe32]/[ReadLe64] of [width] bytes at [data + offset]. *)
Definition read_le {E} (width : nat) (data : bytes) (offset : Z) : outcome E Z :=
  if (0 <=? offset) && (offset + Z.of_nat width <=? size data)
  then Ok (le_value (take width (drop (Z.to_nat offset) data)))
  else Oob.

Definition ReadLe32 {E} (data : bytes) (offset : Z) : outcome E Z := read_le 4 data offset.
Definition ReadLe64 {E} (data : bytes) (offset : Z) : outcome E Z := read_le 8 data offset.
Definition read_byte {E} (data : bytes) (offset : Z) : outcome E Z := read_le 1 data offset.

(** [memcmp(data + offset, expected, expected.size()) == 0] *)
Definition mem_equal {E} (data : bytes) (offset : Z) (expected : bytes) : outcome E bool :=
  if (0 <=? offset) && (offset + size expected <=? size data)
  then Ok (take (length expected) (drop (Z.to_nat offset) data) == expected)
  else Oob.

(** [view_data] is [None] for a null pointer. *)
Record PolicyIndexView : Type := {
  view_data : option bytes;
  view_size : Z;
  view_package_count : Z;
  view_package_offset : Z;
  view_package_end : Z;
  view_string_offset : Z;
}.

Definition ValidPolicyIndex (view : PolicyIndexView) : bool :=
  negb (view_data view == None)
  && (view_package_offset view <=? view_package_end view)
  && (view_package_end view <=? view_string_offset view)
  && (view_string_offset view <=? view_size view)
  && (view_package_count view
      <=? (view_package_end view - view_package_offset view) / kPackageSize).

Section FindPackageEntry.
Context {E : Type} (view : PolicyIndexView) (data : bytes).

Definition entry_offset (index : Z) : Z := view_package_offset view + index * kPackageSize.

Definition entry_hash (index : Z) : outcome E Z :=
  ReadLe32 data (entry_offset index + kPackageHashOffset).

(** The lower-bound search. The interval shrinks at each iteration, so a fuel of
    its length is enough. *)
Fixpoint hash_lower_bound (fuel : nat) (expected_hash lower upper : Z) : outcome E Z :=
  match fuel with
  | O => Ok lower
  | S fuel' =>
      if lower <? upper then
        let middle := lower + (upper - lower) / 2 in
        hash ← entry_hash middle;
        if hash <? expected_hash
        then hash_lower_bound fuel' expected_hash (middle + 1) upper
        else hash_lower_bound fuel' expected_hash lower middle
      else Ok lower
  end.

(** The name test of one entry in the second loop: [candidate] is the string at
    the entry's name offset. *)
Definition entry_name_matches (index : Z) (package_name : bytes) : outcome E bool :=
  relative_offset ← ReadLe32 data (entry_offset index + kPackageNameOffset);
  if view_size view - view_string_offset view <=? relative_offset then Ok false
  else
    let candidate := view_string_offset view + relative_offset in
    let remaining := view_size view - view_string_offset view - relative_offset in
    if size package_name <? remaining then
      terminator ← read_byte data (candidate + size package_name);
      if terminator =? 0 then mem_equal data candidate package_name else Ok false
    else Ok false.

(** The loop over the entries from [index] on; [count] of them are left. *)
Fixpoint scan_equal_hashes (count : nat) (index expected_hash : Z) (package_name : bytes)
    : outcome E (option Z) :=
  match count with
  | O => Ok None
  | S count' =>
      hash ← entry_hash index;
      if hash != expected_hash then Ok None
      else
        matches ← entry_name_matches index package_name;
        if (matches : bool) then Ok (Some (entry_offset index))
        else scan_equal_hashes count' (index + 1) expected_hash package_name
  end.
End FindPackageEntry.

(** Returns the offset of the entry; [None] is the null pointer. *)
Definition FindPackageEntry {E} (view : PolicyIndexView) (package_name : bytes)
    : outcome E (option Z) :=
  match view_data view with
  | Some data =>
      if negb (ValidPolicyIndex view) || (package_name == []) then Ok None
      else
        let expected_hash := PackageNameHash package_name in
        lower ← hash_lower_bound view data (Z.to_nat (view_package_count view))
                  expected_hash 0 (view_package_count view);
        scan_equal_hashes view data (Z.to_nat (view_package_count view - lower))
          lower expected_hash package_name
  | None => Ok None
  end.

(** ** Lemmas: reading memory *)

Lemma read_le_in_range {E} width data offset :
  0 <= offset -> offset + Z.of_nat width <= size data ->
  read_le (E:=E) width data offset = Ok (le_value (take width (drop (Z.to_nat offset) data))).
Proof.
  intros H1 H2. unfold read_le. by rewrite !(proj2 (Z.leb_le _ _)) by lia.
Qed.

Lemma read_le_Ok {E} width data offset v :
  read_le (E:=E) width data offset = Ok v ->
  0 <= offset /\ offset + Z.of_nat width <= size data
  /\ v = le_value (take width (drop (Z.to_nat offset) data)).
Proof.
  unfold read_le. destruct (_ && _) eqn:E1; [|done]. intros [= <-].
  split_tests. done.
Qed.

Lemma read_le_range {E} width data offset v :
  read_le (E:=E) width data offset = Ok v -> 0 <= v < 2 ^ (8 * Z.of_nat width).
Proof.
  intros (H1 & H2 & ->)%read_le_Ok.
  replace (Z.of_nat width) with (size (take width (drop (Z.to_nat offset) data))).
  - apply le_value_range.
  - unfold size in *. rewrite length_take, length_drop. lia.
Qed.

Lemma mem_equal_in_range {E} data offset expected :
  0 <= offset -> offset + size expected <= size data ->
  mem_equal (E:=E) data offset expected
  = Ok (starts_with expected (drop (Z.to_nat offset) data)).
Proof.
  intros H1 H2. unfold mem_equal. rewrite !(proj2 (Z.leb_le _ _)) by lia. cbn. f_equal.
  set (d := drop (Z.to_nat offset) data).
  assert (length expected <= length d)%nat as Hl
    by (unfold d; rewrite length_drop; unfold size in *; lia).
  clearbody d. clear -Hl. apply eq_true_iff_eq.
  rewrite bool_decide_eq_true, starts_with_spec. split.
  - intros E. exists (drop (length expected) d). rewrite <- E at 1. by rewrite take_drop.
  - intros [t ->]. by rewrite take_app_length.
Qed.

(** ** Lemmas: CRC-32 *)

Lemma lxor_range n x y : 0 <= n -> 0 <= x < 2 ^ n -> 0 <= y < 2 ^ n -> 0 <= Z.lxor x y < 2 ^ n.
Proof.
  intros Hn Hx Hy. assert (0 <= Z.lxor x y) as Hpos by (rewrite Z.lxor_nonneg; lia).
  split; [done|]. destruct (Z.eq_dec n 0) as [->|Hnz].
  { assert (x = 0) as -> by lia. assert (y = 0) as -> by lia. done. }
  destruct (Z.eq_dec (Z.lxor x y) 0) as [->|Hne]; [lia|].
  apply Z.log2_lt_pow2; [lia|].
  pose proof (Z.log2_lxor x y ltac:(lia) ltac:(lia)).
  assert (forall z, 0 <= z < 2 ^ n -> Z.log2 z < n) as Hlog.
  { intros z Hz. destruct (Z.eq_dec z 0) as [->|]; [cbn; lia|]. apply Z.log2_lt_pow2; lia. }
  pose proof (Hlog x Hx). pose proof (Hlog y Hy). lia.
Qed.

Lemma crc32_bit_cases crc :
  0 <= crc < 2 ^ 32 ->
  (crc = 2 * (crc / 2) /\ crc32_bit crc = crc / 2)
  \/ (crc = 2 * (crc / 2) + 1 /\ crc32_bit crc = Z.lxor (crc / 2) 0xedb88320).
Proof.
  intros Hc. unfold crc32_bit. change (Z.land crc 1) with (Z.land crc (Z.ones 1)).
  rewrite Z.land_ones by lia. rewrite Z.shiftr_div_pow2 by lia. change (2 ^ 1) with 2.
  pose proof (Z.div_mod crc 2 ltac:(lia)). pose proof (Z.mod_pos_bound crc 2 ltac:(lia)).
  assert (crc mod 2 = 0 \/ crc mod 2 = 1) as [E|E] by lia; rewrite E.
  - left. split; [lia|]. change (Z.land 0xedb88320 (u32 (0 - 0))) with 0. apply Z.lxor_0_r.
  - right. split; [lia|]. by change (Z.land 0xedb88320 (u32 (0 - 1))) with 0xedb88320.
Qed.

Lemma crc32_bit_range crc : 0 <= crc < 2 ^ 32 -> 0 <= crc32_bit crc < 2 ^ 32.
Proof.
  intros Hc. assert (0 <= crc / 2 < 2 ^ 32).
  { split; [apply Z.div_pos; lia|]. apply Z.div_lt_upper_bound; lia. }
  destruct (crc32_bit_cases crc Hc) as [[_ ->]|[_ ->]]; [done|].
  apply lxor_range; lia.
Qed.

(** The low bit that is shifted out reappears as bit 31: a shift loses nothing. *)
Lemma crc32_bit_inj x y :
  0 <= x < 2 ^ 32 -> 0 <= y < 2 ^ 32 -> crc32_bit x = crc32_bit y -> x = y.
Proof.
  intros Hx Hy.
  assert (forall z, 0 <= z < 2 ^ 32 -> Z.testbit (z / 2) 31 = false) as Htop.
  { intros z Hz. assert (0 <= z / 2 < 2 ^ 31) as Hr.
    { split; [apply Z.div_pos; lia|]. apply Z.div_lt_upper_bound; lia. }
    rewrite <- (Z.mod_small _ _ Hr), Z.mod_pow2_bits_high by lia. done. }
  destruct (crc32_bit_cases x Hx) as [[Ex ->]|[Ex ->]],
    (crc32_bit_cases y Hy) as [[Ey ->]|[Ey ->]]; intros E.
  - lia.
  - apply (f_equal (fun z => Z.testbit z 31)) in E.
    rewrite Z.lxor_spec, !Htop in E by done. done.
  - apply (f_equal (fun z => Z.testbit z 31)) in E.
    rewrite Z.lxor_spec, !Htop in E by done. done.
  - apply (f_equal (fun z => Z.lxor z 0xedb88320)) in E.
    rewrite !Z.lxor_assoc, Z.lxor_nilpotent, !Z.lxor_0_r in E. lia.
Qed.

Lemma crc32_bits_inj n x y :
  0 <= x < 2 ^ 32 -> 0 <= y < 2 ^ 32 -> Nat.iter n crc32_bit x = Nat.iter n crc32_bit y -> x = y.
Proof.
  assert (forall n z, 0 <= z < 2 ^ 32 -> 0 <= Nat.iter n crc32_bit z < 2 ^ 32) as Hr.
  { intros k z Hz. induction k as [|k IH]; [done|]. by apply crc32_bit_range. }
  intros Hx Hy. induction n as [|n IH]; [done|]. cbn [Nat.iter nat_rect].
  intros E. apply IH. by apply crc32_bit_inj in E; [|apply Hr..].
Qed.

Lemma crc32_byte_range crc b : 0 <= crc < 2 ^ 32 -> 0 <= crc32_byte crc b < 2 ^ 32.
Proof.
  intros Hc. unfold crc32_byte. generalize 8%nat. intros n.
  assert (0 <= Z.lxor crc (byte_val b) < 2 ^ 32) as H0.
  { apply lxor_range; [lia|done|]. pose proof (byte_val_range b). lia. }
  induction n as [|n IH]; [done|]. by apply crc32_bit_range.
Qed.

Lemma crc32_byte_inj crc1 crc2 b1 b2 :
  0 <= crc1 < 2 ^ 32 -> 0 <= crc2 < 2 ^ 32 ->
  crc32_byte crc1 b1 = crc32_byte crc2 b2 -> Z.lxor crc1 (byte_val b1) = Z.lxor crc2 (byte_val b2).
Proof.
  intros H1 H2. pose proof (byte_val_range b1). pose proof (byte_val_range b2).
  apply crc32_bits_inj; apply lxor_range; lia.
Qed.

#[global] Opaque crc32_byte.

Lemma fold_left_cons {A B} (f : A -> B -> A) b l x : fold_left f (b :: l) x = fold_left f l (f x b).
Proof. reflexivity. Qed.

Lemma lxor_cancel_l x y z : Z.lxor x y = Z.lxor x z -> y = z.
Proof.
  intros E. apply (f_equal (Z.lxor x)) in E.
  by rewrite <- !Z.lxor_assoc, Z.lxor_nilpotent, !Z.lxor_0_l in E.
Qed.

Lemma crc32_fold_inj data x y :
  0 <= x < 2 ^ 32 -> 0 <= y < 2 ^ 32 ->
  fold_left crc32_byte data x = fold_left crc32_byte data y -> x = y.
Proof.
  revert x y. induction data as [|b data IH]; intros x y Hx Hy E; [done|].
  rewrite !fold_left_cons in E.
  pose proof (crc32_byte_range x b Hx) as Hx'. pose proof (crc32_byte_range y b Hy) as Hy'.
  pose proof (crc32_byte_inj x y b b Hx Hy (IH _ _ Hx' Hy' E)) as E'.
  rewrite !(Z.lxor_comm _ (byte_val b)) in E'. exact (lxor_cancel_l _ _ _ E').
Qed.

Lemma crc32_fold_range data x :
  0 <= x < 2 ^ 32 -> 0 <= fold_left crc32_byte data x < 2 ^ 32.
Proof.
  revert x. induction data as [|b data IH]; intros x Hx; [done|].
  rewrite fold_left_cons. by apply IH, crc32_byte_range.
Qed.

Lemma Crc32_range data : 0 <= Crc32 data < 2 ^ 32.
Proof.
  unfold Crc32. apply lxor_range; [lia| |by unfold kCrc32XorOut].
  apply crc32_fold_range. unfold kCrc32Initial. lia.
Qed.

Lemma Crc32_single_byte before a b after :
  Crc32 (before ++ a :: after) = Crc32 (before ++ b :: after) -> a = b.
Proof.
  unfold Crc32. intros E. rewrite !(Z.lxor_comm _ kCrc32XorOut) in E.
  apply lxor_cancel_l in E. rewrite !fold_left_app, !fold_left_cons in E.
  assert (0 <= fold_left crc32_byte before kCrc32Initial < 2 ^ 32) as Hb
    by (apply crc32_fold_range; unfold kCrc32Initial; lia).
  apply crc32_fold_inj in E; [|by apply crc32_byte_range..].
  apply crc32_byte_inj, lxor_cancel_l, byte_val_inj in E; done.
Qed.

(** ** Lemmas: the package lookup *)

Section LookupFacts.
Context {E : Type} (view : PolicyIndexView) (data : bytes).
Hypothesis Hvalid : ValidPolicyIndex view = true.
Hypothesis Hsize : view_size view = size data.
Hypothesis Hnonneg : 0 <= view_package_offset view /\ 0 <= view_package_count view.

(** The hash and the name test of an entry as total functions. *)
Definition hash_at (index : Z) : Z :=
  le_value (take 4 (drop (Z.to_nat (entry_offset view index)) data)).

Definition name_offset_at (index : Z) : Z :=
  le_value (take 4 (drop (Z.to_nat (entry_offset view index + kPackageNameOffset)) data)).

Definition name_at (name : bytes) (index : Z) : bool :=
  (name_offset_at index <? size data - view_string_offset view)
  && starts_with (name ++ [x00])
       (drop (Z.to_nat (view_string_offset view + name_offset_at index)) data).

Lemma entry_in_table index :
  0 <= index < view_package_count view ->
  0 <= entry_offset view index
  /\ entry_offset view index + kPackageSize <= view_string_offset view <= size data.
Proof.
  intros Hi. unfold ValidPolicyIndex in Hvalid. split_tests.
  unfold entry_offset, kPackageSize in *.
  pose proof (Z.div_mod (view_package_end view - view_package_offset view) 48 ltac:(lia)).
  pose proof (Z.mod_pos_bound (view_package_end view - view_package_offset view) 48 ltac:(lia)).
  lia.
Qed.

Lemma entry_hash_at index :
  0 <= index < view_package_count view -> entry_hash (E:=E) view data index = Ok (hash_at index).
Proof.
  intros Hi%entry_in_table. unfold entry_hash, ReadLe32, kPackageHashOffset, kPackageSize in *.
  rewrite Z.add_0_r. by rewrite read_le_in_range by lia.
Qed.

Lemma entry_name_matches_at index name :
  0 <= index < view_package_count view ->
  entry_name_matches (E:=E) view data index name = Ok (name_at name index).
Proof.
  intros Hi%entry_in_table.
  unfold entry_name_matches, name_at, kPackageSize in *.
  replace (ReadLe32 (E:=E) data (entry_offset view index + kPackageNameOffset))
    with (Ok (E:=E) (name_offset_at index)).
  2: { unfold name_offset_at, ReadLe32, kPackageNameOffset.
       by rewrite read_le_in_range by lia. }
  cbn [mbind outcome_bind]. rewrite Hsize.
  assert (0 <= name_offset_at index) as Hr by apply le_value_range.
  destruct (Z.leb_spec (size data - view_string_offset view) (name_offset_at index)) as [Hc|Hc].
  { by rewrite (proj2 (Z.ltb_ge (name_offset_at index) (size data - view_string_offset view)))
      by lia. }
  rewrite (proj2 (Z.ltb_lt (name_offset_at index) (size data - view_string_offset view))) by lia.
  cbn [andb].
  set (candidate := view_string_offset view + name_offset_at index).
  replace (size data - view_string_offset view - name_offset_at index)
    with (size data - candidate) by (unfold candidate; lia).
  assert (0 <= candidate < size data) as Hcand by (unfold candidate; lia).
  set (rest := drop (Z.to_nat candidate) data).
  assert (size rest = size data - candidate) as Hrest
    by (unfold rest, size in *; rewrite length_drop; lia).
  pose proof (size_nonneg name).
  destruct (Z.ltb_spec (size name) (size data - candidate)) as [Hlt|Hge].
  - unfold read_byte. rewrite read_le_in_range by lia. cbn [mbind outcome_bind].
    rewrite mem_equal_in_range by lia. fold rest.
    replace (drop (Z.to_nat (candidate + size name)) data) with (drop (length name) rest).
    2: { unfold rest, size. rewrite drop_drop. f_equal. lia. }
    destruct (drop (length name) rest) as [|c tail] eqn:Ed.
    { exfalso. apply (f_equal length) in Ed. rewrite length_drop in Ed.
      unfold size in *. cbn in Ed. lia. }
    cbn [take]. rewrite le_value_cons. cbn [le_value]. rewrite Z.add_0_r.
    assert (starts_with (name ++ [x00]) rest = starts_with name rest && bool_decide (c = x00)) as ->.
    { apply eq_true_iff_eq.
      rewrite andb_true_iff, bool_decide_eq_true, !starts_with_spec. split.
      - intros [t Et]. rewrite <- app_assoc in Et. split; [by eexists|].
        rewrite Et, drop_app_length in Ed. by injection Ed.
      - intros [[t Et] ->]. rewrite Et, drop_app_length in Ed. subst t.
        exists tail. rewrite Et. by rewrite <- app_assoc. }
    destruct (Z.eqb_spec (byte_val c) 0) as [Hz|Hz].
    + rewrite bool_decide_eq_true_2 by (by apply byte_val_inj). by rewrite andb_true_r.
    + rewrite bool_decide_eq_false_2 by (by intros ->). by rewrite andb_false_r.
  - f_equal. symmetry. apply not_true_iff_false. intros [t Et]%starts_with_spec.
    apply (f_equal size) in Et. rewrite !size_app, Hrest in Et.
    change (size [x00]) with 1 in Et. pose proof (size_nonneg t). lia.
Qed.

Lemma hash_lower_bound_spec fuel h lower upper :
  0 <= lower <= upper -> upper <= view_package_count view -> upper - lower <= Z.of_nat fuel ->
  exists lo, hash_lower_bound (E:=E) view data fuel h lower upper = Ok lo
    /\ lower <= lo <= upper
    /\ ((forall i j, 0 <= i <= j -> j < view_package_count view -> hash_at i <= hash_at j) ->
        (forall i, 0 <= i < lower -> hash_at i < h) ->
        (forall i, upper <= i < view_package_count view -> h <= hash_at i) ->
        (forall i, 0 <= i < lo -> hash_at i < h)
        /\ (forall i, lo <= i < view_package_count view -> h <= hash_at i)).
Proof.
  revert lower upper. induction fuel as [|fuel IH]; intros lower upper Hl Hu Hf; cbn [hash_lower_bound].
  { exists lower. assert (lower = upper) as -> by lia. auto with lia. }
  destruct (Z.ltb_spec lower upper) as [Hlt|Hge].
  2: { exists lower. assert (lower = upper) as -> by lia. auto with lia. }
  pose proof (Z.div_mod (upper - lower) 2 ltac:(lia)).
  pose proof (Z.mod_pos_bound (upper - lower) 2 ltac:(lia)).
  set (middle := lower + (upper - lower) / 2). assert (lower <= middle < upper) by (unfold middle; lia).
  cbv zeta. rewrite entry_hash_at by lia. cbn [mbind outcome_bind].
  destruct (Z.ltb_spec (hash_at middle) h) as [Hm|Hm].
  - destruct (IH (middle + 1) upper) as (lo & -> & Hb & Hs); [lia..|].
    exists lo. split_and!; [done|lia|lia|]. intros Hsorted Hbelow Habove. apply Hs; [done| |done].
    intros i Hi. destruct (Z.eq_dec i middle) as [->|]; [done|].
    destruct (Z_lt_ge_dec i middle); [|lia].
    apply (Z.le_lt_trans _ (hash_at middle)); [|done]. apply Hsorted; lia.
  - destruct (IH lower middle) as (lo & -> & Hb & Hs); [lia..|].
    exists lo. split_and!; [done|lia|lia|]. intros Hsorted Hbelow Habove. apply Hs; [done|done|].
    intros i Hi. apply (Z.le_trans _ (hash_at middle)); [done|]. apply Hsorted; lia.
Qed.

(** The indices the loop visits, as a list search. *)
Definition lookup_from (count : nat) (index h : Z) (name : bytes) : option Z :=
  find (fun i => (hash_at i =? h) && name_at name i) (seqZ index (Z.of_nat count)).

Lemma seqZ_step index count : seqZ index (Z.of_nat (S count)) = index :: seqZ (index + 1) (Z.of_nat count).
Proof.
  rewrite seqZ_cons by lia. f_equal. f_equal; lia.
Qed.

Lemma find_none_from count index h name :
  (forall i, index <= i < index + Z.of_nat count -> hash_at i <> h) ->
  lookup_from count index h name = None.
Proof.
  unfold lookup_from. revert index. induction count as [|count IH]; intros index Hne; [done|].
  rewrite seqZ_step. cbn [find]. rewrite (proj2 (Z.eqb_neq _ _)) by (apply Hne; lia).
  cbn [andb]. apply IH. intros i Hi. apply Hne. lia.
Qed.

Lemma scan_equal_hashes_spec count index h name :
  0 <= index -> index + Z.of_nat count <= view_package_count view ->
  exists r, scan_equal_hashes (E:=E) view data count index h name = Ok r
    /\ (forall o, r = Some o -> exists i, 0 <= i < view_package_count view
          /\ o = entry_offset view i /\ hash_at i = h /\ name_at name i = true)
    /\ ((forall i j, index <= i <= j -> j < index + Z.of_nat count -> hash_at i <= hash_at j) ->
        (forall i, index <= i < index + Z.of_nat count -> h <= hash_at i) ->
        r = entry_offset view <$> lookup_from count index h name).
Proof.
  revert index. induction count as [|count IH]; intros index Hi Hc; cbn [scan_equal_hashes].
  { by exists None. }
  rewrite entry_hash_at by lia. cbn [mbind outcome_bind].
  unfold lookup_from. rewrite seqZ_step. cbn [find].
  destruct (decide (hash_at index = h)) as [Eh|Eh].
  - rewrite bool_decide_eq_true_2 by done. cbn [negb].
    rewrite entry_name_matches_at by lia. cbn [mbind outcome_bind].
    rewrite (proj2 (Z.eqb_eq _ _)) by done. cbn [andb].
    destruct (name_at name index) eqn:En.
    + eexists. split_and!; [done| |done]. intros o [= <-]. exists index. split_and!; [lia..|done|done|done].
    + destruct (IH (index + 1)) as (r & Hr & Hsound & Hcomp); [lia..|].
      exists r. split_and!; [done|done|]. intros Hs Hh. apply Hcomp; intros; [apply Hs|apply Hh]; lia.
  - rewrite bool_decide_eq_false_2 by done. cbn [negb].
    exists None. split_and!; [done|done|]. intros Hs Hh.
    rewrite (proj2 (Z.eqb_neq _ _)) by done. cbn [andb].
    fold (lookup_from count (index + 1) h name). rewrite find_none_from; [done|].
    intros i Hi'. pose proof (Hh index ltac:(lia)). pose proof (Hs index i ltac:(lia) ltac:(lia)). lia.
Qed.

Lemma lookup_skip lo h name :
  0 <= lo <= view_package_count view ->
  (forall i, 0 <= i < lo -> hash_at i < h) ->
  lookup_from (Z.to_nat (view_package_count view)) 0 h name
  = lookup_from (Z.to_nat (view_package_count view - lo)) lo h name.
Proof.
  intros Hlo Hlt. unfold lookup_from.
  rewrite !Z2Nat.id by lia.
  replace (view_package_count view) with (lo + (view_package_count view - lo)) at 1 by lia.
  rewrite seqZ_app by lia. rewrite Z.add_0_l.
  assert (forall (f : Z -> bool) l k, find f l = None -> find f (l ++ k) = find f k) as Hfind.
  { intros f l k. induction l as [|x l IH]; [done|]. cbn. by destruct (f x). }
  apply Hfind. pose proof (find_none_from (Z.to_nat lo) 0 h name) as Hn.
  unfold lookup_from in Hn. rewrite Z2Nat.id in Hn by lia. apply Hn.
  intros i Hi. pose proof (Hlt i ltac:(lia)). lia.
Qed.
End LookupFacts.

(** A view that lies in its buffer, as its [uint32_t] fields and its callers
    make it. *)
Definition view_of_buffer (view : PolicyIndexView) (data : bytes) : Prop :=
  view_data view = Some data /\ view_size view = size data
  /\ 0 <= view_package_offset view /\ 0 <= view_package_count view.

(** Entry [index] of the table names [name], which is NUL-terminated in the
    string region. *)
Definition entry_names (view : PolicyIndexView) (data : bytes) (index : Z) (name : bytes) : Prop :=
  0 <= index < view_package_count view
  /\ hash_at view data index = PackageNameHash name /\ name_at view data name index = true.

(** The lookup as a linear search of the whole table. *)
Definition find_package_reference (view : PolicyIndexView) (data name : bytes) : option Z :=
  entry_offset view <$>
    find (fun i => (hash_at view data i =? PackageNameHash name) && name_at view data name i)
         (seqZ 0 (view_package_count view)).

Lemma FindPackageEntry_spec {E} view data name :
  ValidPolicyIndex view = true -> view_of_buffer view data -> name <> [] ->
  exists r, FindPackageEntry (E:=E) view name = Ok r
    /\ (forall o, r = Some o -> exists i, entry_names view data i name /\ o = entry_offset view i)
    /\ ((forall i j, 0 <= i <= j -> j < view_package_count view ->
          hash_at view data i <= hash_at view data j) ->
        r = find_package_reference view data name).
Proof.
  intros Hv (Hd & Hs & Hn1 & Hn2) Hne. unfold FindPackageEntry.
  rewrite Hd, Hv. rewrite bool_decide_eq_false_2 by done. cbn [negb orb].
  set (h := PackageNameHash name).
  destruct (hash_lower_bound_spec (E:=E) view data Hv Hs (conj Hn1 Hn2)
    (Z.to_nat (view_package_count view)) h 0 (view_package_count view))
    as (lo & -> & Hlo & Hpart); [lia..|].
  cbn [mbind outcome_bind].
  destruct (scan_equal_hashes_spec (E:=E) view data Hv Hs (conj Hn1 Hn2)
    (Z.to_nat (view_package_count view - lo)) lo h name)
    as (r & -> & Hsound & Hcomp); [lia..|].
  exists r. split_and!; [done| |].
  - intros o (i & Hi & Ho & Hh & Hm)%Hsound. by exists i.
  - intros Hsorted. destruct (Hpart Hsorted) as [Hbelow Habove]; [lia..|].
    rewrite Hcomp; [|intros; apply Hsorted; lia|intros; apply Habove; lia].
    unfold find_package_reference. f_equal.
    rewrite <- lookup_skip by (done || lia). unfold lookup_from. by rewrite Z2Nat.id by lia.
Qed.

(** ** Properties *)

(** [FindPackageEntry] on any view that passes [ValidPolicyIndex] reads only
    inside the buffer, whatever the table holds (offsets and hashes are not
    trusted), and an entry it returns is one of the table whose hash and
    NUL-terminated name are those of the package. *)
Theorem find_package_entry_safe view data name :
  view_of_buffer view data ->
  exists r, FindPackageEntry (E:=unit) view name = Ok r
    /\ forall o, r = Some o ->
         exists i, entry_names view data i name /\ o = entry_offset view i.
Proof.
  intros Hb. destruct (ValidPolicyIndex view) eqn:Hv.
  2: { exists None. split; [|done]. unfold FindPackageEntry. destruct Hb as [-> _]. by rewrite Hv. }
  destruct (decide (name = [])) as [->|Hne].
  { exists None. split; [|done]. unfold FindPackageEntry. destruct Hb as [-> _]. by rewrite Hv. }
  destruct (FindPackageEntry_spec (E:=unit) view data name Hv Hb Hne) as (r & H1 & H2 & _).
  by exists r.
Qed.

(** C39. When the hashes of the table ascend, as [DecodePolicy] checks, the
    binary search followed by the scan of equal hashes finds exactly what a
    linear search of the whole table finds: hash collisions lose no package. *)
Theorem find_package_entry_linear view data name :
  ValidPolicyIndex view = true -> view_of_buffer view data -> name <> [] ->
  (forall i j, 0 <= i <= j -> j < view_package_count view ->
     hash_at view data i <= hash_at view data j) ->
  FindPackageEntry (E:=unit) view name = Ok (find_package_reference view data name).
Proof.
  intros Hv Hb Hne Hs.
  destruct (FindPackageEntry_spec (E:=unit) view data name Hv Hb Hne) as (r & -> & _ & H2).
  by rewrite H2.
Qed.

(** ** Witnesses *)

(** Two entries whose names follow the table. *)
Definition example_table : bytes :=
  let entry name offset := le_bytes 4 (PackageNameHash name) ++ le_bytes 4 offset ++ repeat x00 40 in
  entry (lit "a") 0 ++ entry (lit "b") 2 ++ lit "a" ++ [x00] ++ lit "b" ++ [x00].

Definition example_view : PolicyIndexView := {|
  view_data := Some example_table; view_size := 100; view_package_count := 2;
  view_package_offset := 0; view_package_end := 96; view_string_offset := 96;
|}.

Lemma find_package_entry_safe_witness :
  FindPackageEntry (E:=unit) example_view (lit "b") = Ok (Some 48)
  /\ exists r, FindPackageEntry (E:=unit) example_view (lit "b") = Ok r
    /\ forall o, r = Some o ->
         exists i, entry_names example_view example_table i (lit "b")
           /\ o = entry_offset example_view i.
Proof.
  split; [vm_compute; reflexivity|]. apply find_package_entry_safe. done.
Defined.

Lemma find_package_entry_linear_witness :
  FindPackageEntry (E:=unit) example_view (lit "b")
  = Ok (find_package_reference example_view example_table (lit "b")).
Proof.
  apply find_package_entry_linear; [vm_compute; reflexivity|done|done|].
  intros i j Hi Hj. cbn [view_package_count example_view] in Hj.
  assert (hash_at example_view example_table 0 <= hash_at example_view example_table 1) as H01
    by (vm_compute; discriminate).
  assert (i = 0 /\ j = 0 \/ i = 0 /\ j = 1 \/ i = 1 /\ j = 1) as [[-> ->]|[[-> ->]|[-> ->]]] by lia;
    (done || apply Z.le_refl).
Defined.
