(* ===== verification/Topology.v ===== *)
(** * Storage topology (core/src/topology.cpp)

    [ParseMountInfo] derives, from the text of /proc/self/mountinfo, where the
    storage of each Android user is visible and which directory backs it;
    [ResolvePath] places a logical path beneath one of the two roots. A failure
    carries the topology it leaves behind, with [supported = false]. The order in
    which the [unordered_map] of users is visited is a parameter. *)

From S2P Require Import Prelude Path.

Local Open Scope pg_scope.

Record MountRecord : Type := {
  r_mount_id : Z;
  r_device_id : bytes;
  r_root : bytes;
  r_mountpoint : bytes;
  r_filesystem_type : bytes;
  r_source : bytes;
}.

#[export] Instance mount_record_eq_dec : EqDecision MountRecord.
Proof. solve_decision. Defined.

(** A [StorageTopologyAlias] is the pair of its mount id and path. *)
Record StorageTopologyMount : Type := {
  user_id : Z;
  mount_id : Z;
  visible_root : bytes;
  backend_root : bytes;
  filesystem_type : bytes;
  aliases : list (Z * bytes);
}.

Record StorageTopology : Type := {
  supported : bool;
  unsupported_reason : bytes;
  mounts : list StorageTopologyMount;
}.

Definition Unsupported {A} (mounts : list StorageTopologyMount) (message : bytes)
    : outcome StorageTopology A :=
  Err {| supported := false; unsupported_reason := message; mounts := mounts |}.

Definition ParseUnsigned (value : bytes) : option Z := from_chars 64 value.

Definition IsDeviceId (value : bytes) : bool :=
  match cut x3a value with
  | (major, Some minor) =>
      (major != []) && (minor != []) && negb (contains x3a minor)
      && (ParseUnsigned major != None) && (ParseUnsigned minor != None)
  | (_, None) => false
  end.

Definition is_octal (b : byte) : bool := (48 <=? byte_val b) && (byte_val b <=? 55).

Fixpoint DecodeMountInfoPath (input : bytes) : option bytes :=
  match input with
  | [] => Some []
  | c :: rest =>
      if c != x5c then output ← DecodeMountInfoPath rest; Some (c :: output)
      else
        match rest with
        | d1 :: d2 :: d3 :: rest' =>
            if is_octal d1 && is_octal d2 && is_octal d3 then
              let value := Z.lor (Z.lor (Z.shiftl (byte_val d1 - 48) 6)
                                        (Z.shiftl (byte_val d2 - 48) 3)) (byte_val d3 - 48) in
              if (value =? 0) || (127 <? value) then None
              else output ← DecodeMountInfoPath rest'; Some (byte_of value :: output)
            else None
        | _ => None
        end
  end.

Definition IsDecimal (value : bytes) : bool := (value != []) && forallb is_digit value.

Definition ParseUserId (value : bytes) : option Z :=
  if IsDecimal value then
    parsed ← ParseUnsigned value;
    if parsed <=? 2 ^ 32 - 1 then Some parsed else None
  else None.

Definition primary_prefix : bytes := lit "/storage/emulated/".

Definition ParsePrimaryRoot (mountpoint : bytes) : option Z :=
  if starts_with primary_prefix mountpoint
  then ParseUserId (drop (length primary_prefix) mountpoint) else None.

Definition ParseUserMountpoint (mountpoint prefix suffix : bytes) : option Z :=
  if starts_with prefix mountpoint then
    match cut x2f (drop (length prefix) mountpoint) with
    | (user, Some rest) => if x2f :: rest == suffix then ParseUserId user else None
    | (_, None) => None
    end
  else None.

(** The loop of [IsSafeLogicalPath] over the components. *)
Definition safe_component (component : bytes) : bool :=
  (component != []) && (component != lit ".") && (component != lit "..")
  && negb (contains x5c component) && negb (contains x7b component)
  && negb (contains x7d component).

Definition IsSafeLogicalPath (path : bytes) : bool :=
  match path with
  | [] => true
  | c :: _ =>
      if (c == x2f) || (List.last path x00 == x2f) then false
      else forallb safe_component (split_on x2f path)
  end.

Definition data_media (user : Z) : bytes := lit "/data/media/" ++ to_string user.

Definition DeriveBackendRoot (source : bytes) (user : Z) : option bytes :=
  if source == lit "/data/media" then Some (data_media user)
  else if source == data_media user then Some (data_media user)
  else None.

Definition DerivePassThroughBackendRoot (record : MountRecord) (records : list MountRecord)
    (user : Z) : option bytes :=
  match DeriveBackendRoot (r_source record) user with
  | Some root => Some root
  | None =>
      if (r_root record != lit "/media")
         || (ParseUserMountpoint (r_mountpoint record) (lit "/mnt/pass_through/")
               (lit "/emulated") != Some user)
      then None
      else if existsb (fun candidate =>
                (r_mountpoint candidate == lit "/data") && (r_root candidate == lit "/")
                && (r_device_id candidate == r_device_id record)
                && (r_filesystem_type candidate == r_filesystem_type record)
                && (r_source candidate == r_source record)) records
      then Some (data_media user)
      else None
  end.

Definition FindUserMount (ms : list StorageTopologyMount) (user : Z)
    : option StorageTopologyMount :=
  List.find (fun m => user_id m == user) ms.

Definition AddAlias (id : Z) (path : bytes) (m : StorageTopologyMount) : StorageTopologyMount :=
  if existsb (fun alias => (alias.1 == id) && (alias.2 == path)) (aliases m) then m
  else {| user_id := user_id m; mount_id := mount_id m; visible_root := visible_root m;
          backend_root := backend_root m; filesystem_type := filesystem_type m;
          aliases := aliases m ++ [(id, path)] |}.

(** A write through the pointer [FindUserMount] returns. *)
Fixpoint update_user (user : Z) (f : StorageTopologyMount -> StorageTopologyMount)
    (ms : list StorageTopologyMount) : list StorageTopologyMount :=
  match ms with
  | [] => []
  | m :: rest => if user_id m == user then f m :: rest else m :: update_user user f rest
  end.

Definition ResolvePath (topology : StorageTopology) (user : Z) (logical_path : bytes)
    (backend : bool) : outcome bytes bytes :=
  if negb (supported topology) then
    Err (if unsupported_reason topology == [] then lit "storage topology is unsupported"
         else unsupported_reason topology)
  else if negb (IsSafeLogicalPath logical_path) then Err (lit "invalid logical storage path")
  else
    match FindUserMount (mounts topology) user with
    | None => Err (lit "storage user is not mounted")
    | Some m =>
        let root := if backend then backend_root m else visible_root m in
        Ok (if logical_path == [] then root else root ++ x2f :: logical_path)
    end.

(** ** ParseMountInfo *)

(** [std::getline]: a last line without terminator counts, an empty one not. *)
Definition get_lines (text : bytes) : list bytes :=
  let lines := split_on x0a text in
  if List.last lines [] == [] then removelast lines else lines.

Definition is_space (b : byte) : bool :=
  bool_decide (b ∈ [x20; x09; x0a; x0b; x0c; x0d]).

(** [fields >> token]: the maximal runs of other characters. *)
Fixpoint tokens_of (line token : bytes) : list bytes :=
  match line with
  | [] => if token == [] then [] else [token]
  | c :: rest =>
      if is_space c then
        (if token == [] then tokens_of rest [] else token :: tokens_of rest [])
      else tokens_of rest (token ++ [c])
  end.

(** The position of the first token that is a single dash. *)
Fixpoint find_dash (tokens : list bytes) : option nat :=
  match tokens with
  | [] => None
  | t :: rest => if t == lit "-" then Some 0%nat else S <$> find_dash rest
  end.

(** One iteration of the first loop, for a line that is not empty. *)
Definition parse_line (line : bytes) (line_number : Z) : outcome StorageTopology MountRecord :=
  let tokens := tokens_of line [] in
  let malformed := Unsupported [] (lit "malformed mountinfo line " ++ to_string line_number) in
  let invalid := Unsupported [] (lit "invalid mountinfo line " ++ to_string line_number) in
  match find_dash tokens with
  | None => malformed
  | Some separator =>
      if (size tokens <? 7) || (Z.of_nat separator <? 6)
         || (size tokens <=? Z.of_nat separator + 2)
      then malformed
      else
        match ParseUnsigned (nth 0 tokens []), IsDeviceId (nth 2 tokens []),
              DecodeMountInfoPath (nth 3 tokens []), DecodeMountInfoPath (nth 4 tokens []),
              DecodeMountInfoPath (nth (separator + 2) tokens []) with
        | Some id, true, Some root, Some mountpoint, Some source =>
            match mountpoint with
            | c :: _ =>
                if c == x2f then
                  Ok {| r_mount_id := id; r_device_id := nth 2 tokens []; r_root := root;
                        r_mountpoint := mountpoint;
                        r_filesystem_type := nth (separator + 1) tokens [];
                        r_source := source |}
                else invalid
            | [] => invalid
            end
        | _, _, _, _, _ => invalid
        end
  end.

Fixpoint parse_records (lines : list bytes) (line_number : Z)
    : outcome StorageTopology (list MountRecord) :=
  match lines with
  | [] => Ok []
  | line :: rest =>
      if line == [] then parse_records rest (line_number + 1)
      else
        record ← parse_line line line_number;
        records ← parse_records rest (line_number + 1);
        Ok (record :: records)
  end.

(** One iteration of the loop over the per-user mounts. *)
Definition add_primary (ms : list StorageTopologyMount) (record : MountRecord)
    : outcome StorageTopology (list StorageTopologyMount) :=
  match ParsePrimaryRoot (r_mountpoint record) with
  | None => Ok ms
  | Some user =>
      match DeriveBackendRoot (r_source record) user with
      | None => Ok ms
      | Some root =>
          match FindUserMount ms user with
          | Some existing =>
              if (mount_id existing != r_mount_id record) || (backend_root existing != root)
              then Unsupported ms (lit "conflicting storage roots for user " ++ to_string user)
              else Ok ms
          | None =>
              Ok (ms ++ [{| user_id := user; mount_id := r_mount_id record;
                            visible_root := r_mountpoint record; backend_root := root;
                            filesystem_type := r_filesystem_type record; aliases := [] |}])
          end
      end
  end.

(** The loop that looks for the aggregate mount. *)
Definition add_aggregate (ms : list StorageTopologyMount) (aggregate : option MountRecord)
    (record : MountRecord) : outcome StorageTopology (option MountRecord) :=
  if r_mountpoint record != lit "/storage/emulated" then Ok aggregate
  else
    match aggregate with
    | Some other =>
        if r_mount_id other != r_mount_id record
        then Unsupported ms (lit "conflicting aggregate storage roots")
        else Ok (Some record)
    | None => Ok (Some record)
    end.

(** The loop that fills the two maps: [emplace] keeps the first entry of a key.
    The first map is kept as a list, whose order the visit may permute. *)
Definition collect_evidence (records : list MountRecord)
    (maps : list (Z * MountRecord) * gmap Z bytes) (record : MountRecord)
    : list (Z * MountRecord) * gmap Z bytes :=
  let '(visible, evidence) := maps in
  let visible :=
    match ParseUserMountpoint (r_mountpoint record) (lit "/mnt/user/") (lit "/emulated") with
    | Some user => if bool_decide (user ∈ visible.*1) then visible
                   else visible ++ [(user, record)]
    | None => visible
    end in
  match ParseUserMountpoint (r_mountpoint record) (lit "/mnt/pass_through/") (lit "/emulated") with
  | Some user =>
      match DerivePassThroughBackendRoot record records user with
      | Some root => (visible, match evidence !! user with
                               | Some _ => evidence
                               | None => <[user := root]> evidence
                               end)
      | None => (visible, evidence)
      end
  | None => (visible, evidence)
  end.

(** The mount pushed for a user that is only visible through the aggregate. *)
Definition aggregate_mount (aggregate : MountRecord) (root : bytes) (user : Z)
    : StorageTopologyMount :=
  {| user_id := user; mount_id := r_mount_id aggregate;
     visible_root := primary_prefix ++ to_string user; backend_root := root;
     filesystem_type := r_filesystem_type aggregate; aliases := [] |}.

(** One iteration of the loop over the map of visible users. *)
Definition add_user (aggregate : option MountRecord) (evidence : gmap Z bytes)
    (ms : list StorageTopologyMount) (item : Z * MountRecord)
    : outcome StorageTopology (list StorageTopologyMount) :=
  let '(user, record) := item in
  let alias := AddAlias (r_mount_id record) (r_mountpoint record) in
  match FindUserMount ms user with
  | Some _ => Ok (update_user user alias ms)
  | None =>
      match aggregate with
      | None => Unsupported ms (lit "missing aggregate visible storage root")
      | Some aggregate =>
          match evidence !! user with
          | None => Unsupported ms (lit "missing backend evidence for user " ++ to_string user)
          | Some root => Ok (ms ++ [alias (aggregate_mount aggregate root user)])
          end
      end
  end.

(** The loop over the aliases of the first user. *)
Definition add_owner_alias (ms : list StorageTopologyMount) (record : MountRecord)
    : list StorageTopologyMount :=
  if (r_mountpoint record != lit "/sdcard") && (r_mountpoint record != lit "/storage/self/primary")
  then ms
  else (fun m => if user_id m == 0 then AddAlias (r_mount_id record) (r_mountpoint record) m
                 else m) <$> ms.

Definition ParseMountInfo (order : list (Z * MountRecord) -> list (Z * MountRecord))
    (mountinfo : bytes) : outcome StorageTopology StorageTopology :=
  records ← parse_records (get_lines mountinfo) 1;
  primary ← fold_outcome add_primary [] records;
  aggregate ← fold_outcome (add_aggregate primary) None records;
  let '(visible, evidence) := fold_left (collect_evidence records) records ([], ∅) in
  added ← fold_outcome (add_user aggregate evidence) primary (order visible);
  let ms := sort_by user_id (fold_left add_owner_alias records added) in
  if bool_decide (ms = []) then Unsupported ms (lit "no supported emulated storage root found")
  else Ok {| supported := true; unsupported_reason := []; mounts := ms |}.

(** ** Lemmas: the per-user mounts *)

Definition users_of (ms : list StorageTopologyMount) : list Z := user_id <$> ms.

Lemma FindUserMount_Some ms user m :
  FindUserMount ms user = Some m -> m ∈ ms /\ user_id m = user.
Proof.
  intros H. apply find_some in H as [Hin Hu%bool_decide_eq_true].
  split; [by apply list_elem_of_In|done].
Qed.

Lemma FindUserMount_None ms user : FindUserMount ms user = None <-> user ∉ users_of ms.
Proof.
  unfold users_of. split.
  - intros H (m & E & Hin)%list_elem_of_fmap. apply list_elem_of_In in Hin.
    pose proof (find_none _ _ H _ Hin) as Hm. by apply bool_decide_eq_false in Hm.
  - intros Hn. destruct (FindUserMount ms user) as [m|] eqn:E; [|done].
    apply FindUserMount_Some in E as [Hin <-]. destruct Hn. by apply list_elem_of_fmap_2.
Qed.

Lemma AddAlias_user id path m : user_id (AddAlias id path m) = user_id m.
Proof. unfold AddAlias. by destruct (existsb _ _). Qed.

Lemma update_user_map user f ms :
  NoDup (users_of ms) -> (forall m, user_id (f m) = user_id m) ->
  update_user user f ms = (fun m => if user_id m == user then f m else m) <$> ms.
Proof.
  intros Hnd Hf. unfold users_of in Hnd. induction ms as [|m ms IH]; [done|].
  cbn in Hnd |- *. apply NoDup_cons in Hnd as [Hnin Hnd].
  destruct (decide (user_id m = user)) as [E|E].
  - rewrite bool_decide_eq_true_2 by done. f_equal. symmetry. rewrite <- (list_fmap_id ms) at 2.
    apply list_fmap_ext. intros i x Hi%list_elem_of_lookup_2. cbn.
    rewrite bool_decide_eq_false_2; [done|]. intros E'. apply Hnin. rewrite E, <- E'.
    by apply list_elem_of_fmap_2.
  - rewrite bool_decide_eq_false_2 by done. f_equal. by apply IH.
Qed.

(** The computation succeeds with the value of [spec], or fails when there is none. *)
Definition computes {E A} (spec : option A) (r : outcome E A) : Prop :=
  match spec with
  | Some a => r = Ok a
  | None => exists e, r = Err e
  end.

(** What one visited user contributes. *)
Section Visit.
Context (aggregate : option MountRecord) (evidence : gmap Z bytes).

Definition alias_of (item : Z * MountRecord) : StorageTopologyMount -> StorageTopologyMount :=
  AddAlias (r_mount_id item.2) (r_mountpoint item.2).

(** The effect of all items on a mount that was there before the visit. *)
Definition visited_mount (items : list (Z * MountRecord)) (m : StorageTopologyMount)
    : StorageTopologyMount :=
  match List.find (fun item => item.1 == user_id m) items with
  | Some item => alias_of item m
  | None => m
  end.

(** The mount an item adds when its user is new. *)
Definition new_mount (item : Z * MountRecord) : option StorageTopologyMount :=
  record ← aggregate;
  root ← evidence !! item.1;
  Some (alias_of item (aggregate_mount record root item.1)).

Definition is_new (ms : list StorageTopologyMount) (item : Z * MountRecord) : Prop :=
  item.1 ∉ users_of ms.

#[local] Instance is_new_dec ms item : Decision (is_new ms item).
Proof. unfold is_new. apply _. Defined.

Definition visit_result (items : list (Z * MountRecord)) (ms : list StorageTopologyMount)
    : option (list StorageTopologyMount) :=
  added ← mapM new_mount (filter (is_new ms) items);
  Some ((visited_mount items <$> ms) ++ added).

Lemma new_mount_user item m : new_mount item = Some m -> user_id m = item.1.
Proof.
  unfold new_mount. intros (r & _ & H)%bind_Some. apply bind_Some in H as (root & _ & [= <-]).
  unfold alias_of. by rewrite AddAlias_user.
Qed.

Lemma visited_mount_user items m : user_id (visited_mount items m) = user_id m.
Proof. unfold visited_mount, alias_of. destruct (List.find _ _); [apply AddAlias_user|done]. Qed.

Lemma visited_mount_skip item items m :
  user_id m <> item.1 -> visited_mount (item :: items) m = visited_mount items m.
Proof. intros Hne. unfold visited_mount. cbn. by rewrite bool_decide_eq_false_2. Qed.

Lemma visited_mount_absent items m : user_id m ∉ items.*1 -> visited_mount items m = m.
Proof.
  intros Hn. unfold visited_mount. destruct (List.find _ items) as [item|] eqn:E; [|done].
  apply find_some in E as [Hin Hu%bool_decide_eq_true]. destruct Hn. rewrite <- Hu.
  apply list_elem_of_fmap_2. by apply list_elem_of_In.
Qed.

Lemma add_user_found ms user record m :
  FindUserMount ms user = Some m ->
  add_user aggregate evidence ms (user, record)
  = Ok (update_user user (AddAlias (r_mount_id record) (r_mountpoint record)) ms).
Proof. intros E. unfold add_user. by rewrite E. Qed.

Lemma add_user_new ms user record :
  FindUserMount ms user = None ->
  computes ((fun m => ms ++ [m]) <$> new_mount (user, record))
    (add_user aggregate evidence ms (user, record)).
Proof.
  intros E. unfold add_user, new_mount. rewrite E. cbn [fst].
  destruct aggregate as [agg|]; cbn; [|by eexists].
  destruct (evidence !! user); cbn; [done|by eexists].
Qed.

Lemma visit_users items ms :
  NoDup (items.*1) -> NoDup (users_of ms) ->
  computes (visit_result items ms) (fold_outcome (add_user aggregate evidence) ms items).
Proof.
  unfold visit_result. revert ms. induction items as [|[user record] items IH]; intros ms Hni Hnm.
  { cbn. rewrite app_nil_r. f_equal. rewrite <- (list_fmap_id ms) at 1. by apply list_fmap_ext. }
  cbn in Hni. apply NoDup_cons in Hni as [Hnin Hni]. cbn [fold_outcome]. rewrite filter_cons.
  destruct (FindUserMount ms user) as [m|] eqn:Ef.
  - assert (~ is_new ms (user, record)) as Hold.
    { unfold is_new. cbn. rewrite <- FindUserMount_None. by rewrite Ef. }
    rewrite decide_False by done. rewrite (add_user_found _ _ _ m) by done.
    cbn [mbind outcome_bind]. rewrite update_user_map by (done || intros; apply AddAlias_user).
    set (ms' := (fun m => if user_id m == user
      then AddAlias (r_mount_id record) (r_mountpoint record) m else m) <$> ms). assert (users_of ms' = users_of ms) as Hu.
    { unfold users_of, ms'. rewrite <- list_fmap_compose. apply list_fmap_ext. intros i x _. cbn.
      case_bool_decide; [apply AddAlias_user|done]. }
    specialize (IH ms' Hni ltac:(by rewrite Hu)).
    assert (filter (is_new ms') items = filter (is_new ms) items) as Hfilter
      by (apply list_filter_iff; intros x; unfold is_new; by rewrite Hu).
    rewrite Hfilter in IH.
    assert (visited_mount items <$> ms' = visited_mount ((user, record) :: items) <$> ms) as Hv.
    { unfold ms'. rewrite <- list_fmap_compose. apply list_fmap_ext. intros i x _. cbn.
      case_bool_decide as Ex.
      - rewrite visited_mount_absent by by rewrite AddAlias_user, Ex.
        unfold visited_mount. cbn. by rewrite bool_decide_eq_true_2.
      - symmetry. by apply visited_mount_skip. }
    rewrite <- Hv. exact IH.
  - pose proof (add_user_new ms user record Ef) as Hnew. apply FindUserMount_None in Ef.
    rewrite decide_True by done. cbn [mapM].
    destruct (new_mount (user, record)) as [added|] eqn:En; cbn [computes fmap option_fmap option_map] in Hnew.
    2: { destruct Hnew as [e ->]. by exists e. }
    rewrite Hnew. cbn [mbind option_bind outcome_bind].
    pose proof (new_mount_user _ _ En) as Hau. cbn in Hau.
    assert (users_of (ms ++ [added]) = users_of ms ++ [user]) as Hu
      by (unfold users_of; by rewrite fmap_app; cbn; rewrite Hau).
    specialize (IH (ms ++ [added]) Hni).
    assert (NoDup (users_of (ms ++ [added]))) as Hnd.
    { rewrite Hu. apply NoDup_app. split_and!; [done| |apply NoDup_singleton].
      intros x Hx ->%list_elem_of_singleton. done. }
    specialize (IH Hnd).
    assert (filter (is_new (ms ++ [added])) items = filter (is_new ms) items) as Hfilter.
    { apply filter_ext_elem. intros x Hx. unfold is_new. rewrite Hu.
      rewrite not_elem_of_app, list_elem_of_singleton. split; [tauto|]. intros Hx'. split; [done|].
      intros E. apply Hnin. rewrite <- E. by apply list_elem_of_fmap_2. }
    rewrite Hfilter in IH. rewrite fmap_app in IH. cbn [fmap list_fmap] in IH.
    rewrite (visited_mount_absent items added) in IH by by rewrite Hau.
    assert (visited_mount ((user, record) :: items) <$> ms = visited_mount items <$> ms) as Hv.
    { apply list_fmap_ext. intros i x Hx%list_elem_of_lookup_2. apply visited_mount_skip. cbn.
      intros E. apply Ef. rewrite <- E. by apply list_elem_of_fmap_2. }
    rewrite Hv. destruct (mapM (new_mount) _) as [more|];
      cbn [mbind option_bind mret option_ret] in *; [by rewrite <- app_assoc in IH|exact IH].
Qed.
End Visit.

(** ** Lemmas: the result as a function of the visited users *)

Lemma users_of_map f ms :
  (forall m, user_id (f m) = user_id m) -> users_of (f <$> ms) = users_of ms.
Proof.
  intros Hf. unfold users_of. rewrite <- list_fmap_compose. apply list_fmap_ext.
  intros i x _. apply Hf.
Qed.

Lemma mapM_perm {A B} (f : A -> option B) l k a :
  l ≡ₚ k -> mapM f l = Some a -> exists b, mapM f k = Some b /\ a ≡ₚ b.
Proof.
  intros Hp Ha%mapM_Some. destruct (Permutation_Forall2 Hp Ha) as (b & Hb & Hf).
  exists b. split; [by apply mapM_Some|done].
Qed.

(** In a list with distinct keys, the first match is the only one. *)
Lemma find_key_perm {A} (l k : list (Z * A)) key :
  NoDup (l.*1) -> l ≡ₚ k ->
  List.find (fun item => item.1 == key) l = List.find (fun item => item.1 == key) k.
Proof.
  intros Hnd Hp. induction Hp as [|x l k Hp IH|x y l|l k j Hp IH Hp' IH']; cbn in *.
  - done.
  - apply NoDup_cons in Hnd as [_ Hnd]. by rewrite IH.
  - apply NoDup_cons in Hnd as [Hnin _]. rewrite not_elem_of_cons in Hnin.
    repeat case_bool_decide; try done. destruct Hnin as [Hne _]. congruence.
  - rewrite IH by done. apply IH'. by rewrite <- Hp.
Qed.

Section VisitOrder.
Context (aggregate : option MountRecord) (evidence : gmap Z bytes).

#[local] Existing Instance is_new_dec.

Lemma visit_result_perm items items' ms a :
  NoDup (items.*1) -> items ≡ₚ items' ->
  visit_result aggregate evidence items ms = Some a ->
  exists b, visit_result aggregate evidence items' ms = Some b /\ a ≡ₚ b.
Proof.
  intros Hnd Hp. unfold visit_result. intros (added & Hadded & [= <-])%bind_Some.
  eapply mapM_perm in Hadded as (added' & -> & Hpa); [|by rewrite Hp].
  eexists. split; [done|]. rewrite Hpa. apply reflexive_eq. f_equal.
  apply list_fmap_ext. intros i m _. unfold visited_mount. by rewrite (find_key_perm items items').
Qed.

Lemma visit_result_users items ms a :
  NoDup (items.*1) -> NoDup (users_of ms) ->
  visit_result aggregate evidence items ms = Some a -> NoDup (users_of a).
Proof.
  intros Hi Hm. unfold visit_result. intros (added & Hadded%mapM_Some & [= <-])%bind_Some.
  unfold users_of. rewrite fmap_app. fold (users_of (visited_mount items <$> ms)) (users_of added).
  rewrite (users_of_map (visited_mount items)) by (intros; apply visited_mount_user).
  assert (users_of added = (filter (is_new ms) items).*1) as Hu.
  { clear -Hadded. induction Hadded as [|x y l k Hxy _ IH]; [done|]. cbn. f_equal; [|apply IH].
    by apply (new_mount_user aggregate evidence). }
  rewrite Hu. apply NoDup_app. split_and!; [done| |].
  - intros u Hin (item & -> & [Hn _]%list_elem_of_filter)%list_elem_of_fmap. done.
  - eapply sublist_NoDup; [exact Hi|apply fmap_sublist, sublist_filter].
Qed.
End VisitOrder.

(** What the loop over the aliases of the first user does to one mount. *)
Definition owner_alias (m : StorageTopologyMount) (record : MountRecord) : StorageTopologyMount :=
  if ((r_mountpoint record == lit "/sdcard")
      || (r_mountpoint record == lit "/storage/self/primary")) && (user_id m == 0)
  then AddAlias (r_mount_id record) (r_mountpoint record) m else m.

Definition owner_aliases (records : list MountRecord) (m : StorageTopologyMount)
    : StorageTopologyMount :=
  fold_left owner_alias records m.

Lemma owner_alias_user record m : user_id (owner_alias m record) = user_id m.
Proof. unfold owner_alias. destruct (_ && _); [apply AddAlias_user|done]. Qed.

Lemma owner_aliases_user records m : user_id (owner_aliases records m) = user_id m.
Proof.
  unfold owner_aliases. revert m. induction records as [|r records IH]; intros m; [done|].
  cbn [fold_left]. by rewrite IH, owner_alias_user.
Qed.

Lemma add_owner_alias_map ms record :
  add_owner_alias ms record = (fun m => owner_alias m record) <$> ms.
Proof.
  unfold add_owner_alias, owner_alias.
  destruct (r_mountpoint record == lit "/sdcard"), (r_mountpoint record == lit "/storage/self/primary");
    cbn [negb andb orb]; try done; symmetry; apply list_fmap_id.
Qed.

Lemma fold_owner_aliases records ms :
  fold_left add_owner_alias records ms = owner_aliases records <$> ms.
Proof.
  revert ms. induction records as [|r records IH]; intros ms; cbn [fold_left].
  - symmetry. apply list_fmap_id.
  - by rewrite IH, add_owner_alias_map, <- list_fmap_compose.
Qed.

Lemma collect_visible_nodup records todo maps :
  NoDup (maps.1.*1) -> NoDup ((fold_left (collect_evidence records) todo maps).1.*1).
Proof.
  revert maps. induction todo as [|r todo IH]; intros [visible evidence] Hnd; [done|].
  cbn [fold_left]. apply IH. unfold collect_evidence. cbn in Hnd.
  set (visible' := match _ with Some user => _ | None => visible end).
  assert (NoDup (visible'.*1)) as Hnd'.
  { subst visible'. destruct (ParseUserMountpoint _ (lit "/mnt/user/") _) as [user|]; [|done].
    case_bool_decide; [done|]. rewrite fmap_app. apply NoDup_app.
    split_and!; [done| |apply NoDup_singleton]. by intros x Hx ->%list_elem_of_singleton. }
  destruct (ParseUserMountpoint _ (lit "/mnt/pass_through/") _) as [user|]; [|done].
  by destruct (DerivePassThroughBackendRoot _ _ _).
Qed.

(** ** Lemmas: every mount is backed by the media directory of its user *)

(** A user id that [ParseUserId] accepted, seen from both roots of its mount. *)
Definition mount_ok (m : StorageTopologyMount) : Prop :=
  ParsePrimaryRoot (visible_root m) = Some (user_id m) /\ backend_root m = data_media (user_id m)
  /\ 0 <= user_id m < 2 ^ 32 /\ NoDup (aliases m).

Lemma AddAlias_ok id path m : mount_ok m -> mount_ok (AddAlias id path m).
Proof.
  unfold mount_ok, AddAlias. intros (Hv & Hb & Hu & Ha).
  destruct (existsb _ _) eqn:E; [done|]. split_and!; cbn; try done; try lia.
  apply NoDup_app. split_and!; [done| |apply NoDup_singleton].
  intros a Hin ->%list_elem_of_singleton. apply not_true_iff_false in E. apply E.
  apply existsb_exists. exists (id, path). split; [by apply list_elem_of_In|].
  cbn. by rewrite !bool_decide_eq_true_2.
Qed.

Lemma ParseUserId_range value user : ParseUserId value = Some user -> 0 <= user < 2 ^ 32.
Proof.
  unfold ParseUserId. destruct (IsDecimal value); [|done].
  intros (parsed & Hp & H)%bind_Some. apply from_chars_range in Hp.
  destruct (parsed <=? 2 ^ 32 - 1) eqn:E; [|done]. injection H as ->. lia.
Qed.

Lemma ParseUserId_to_string user : 0 <= user < 2 ^ 32 -> ParseUserId (to_string user) = Some user.
Proof.
  intros Hu. destruct (to_string_spec user ltac:(lia)) as [Hne Hv].
  unfold ParseUserId, IsDecimal, ParseUnsigned.
  rewrite (digits_value_is_digit _ _ _ Hv), (bool_decide_eq_false_2 (to_string user = [])) by done.
  cbn [negb andb]. rewrite from_chars_to_string by lia. cbn [mbind option_bind].
  by rewrite (proj2 (Z.leb_le user (2 ^ 32 - 1))) by lia.
Qed.

Lemma ParsePrimaryRoot_of user :
  0 <= user < 2 ^ 32 -> ParsePrimaryRoot (primary_prefix ++ to_string user) = Some user.
Proof.
  intros Hu. unfold ParsePrimaryRoot. rewrite starts_with_app, drop_app_length.
  by apply ParseUserId_to_string.
Qed.

Lemma ParseUserMountpoint_range mountpoint prefix suffix user :
  ParseUserMountpoint mountpoint prefix suffix = Some user -> 0 <= user < 2 ^ 32.
Proof.
  unfold ParseUserMountpoint. destruct (starts_with _ _); [|done].
  destruct (cut _ _) as [part [rest|]]; [|done]. case_bool_decide; [|done].
  apply ParseUserId_range.
Qed.

Lemma ParsePrimaryRoot_range mountpoint user :
  ParsePrimaryRoot mountpoint = Some user -> 0 <= user < 2 ^ 32.
Proof. unfold ParsePrimaryRoot. destruct (starts_with _ _); [apply ParseUserId_range|done]. Qed.

Lemma DeriveBackendRoot_media source user root :
  DeriveBackendRoot source user = Some root -> root = data_media user.
Proof. unfold DeriveBackendRoot. repeat case_bool_decide; naive_solver. Qed.

Lemma DerivePassThrough_media record records user root :
  DerivePassThroughBackendRoot record records user = Some root -> root = data_media user.
Proof.
  unfold DerivePassThroughBackendRoot.
  destruct (DeriveBackendRoot _ _) eqn:E; [intros [= ->]; by eapply DeriveBackendRoot_media|].
  destruct (_ || _); [done|]. destruct (existsb _ _); naive_solver.
Qed.

Lemma add_primary_inv ms record :
  NoDup (users_of ms) -> Forall mount_ok ms ->
  ensures (add_primary ms record) (fun ms' => NoDup (users_of ms') /\ Forall mount_ok ms').
Proof.
  intros Hnd Hok. unfold add_primary.
  destruct (ParsePrimaryRoot _) as [user|] eqn:Ep; [|done].
  destruct (DeriveBackendRoot _ _) as [root|] eqn:Er; [|done].
  destruct (FindUserMount ms user) eqn:Ef; [by destruct (_ || _)|].
  apply FindUserMount_None in Ef. cbn. split.
  - unfold users_of. rewrite fmap_app. apply NoDup_app.
    split_and!; [done| |apply NoDup_singleton]. by intros x Hx ->%list_elem_of_singleton.
  - apply Forall_app. split; [done|]. apply Forall_singleton. unfold mount_ok. cbn.
    apply ParsePrimaryRoot_range in Ep as Hr. apply DeriveBackendRoot_media in Er.
    split_and!; try done; try lia. constructor.
Qed.

Lemma primary_ok records :
  ensures (fold_outcome add_primary [] records)
    (fun ms => NoDup (users_of ms) /\ Forall mount_ok ms).
Proof.
  apply (ensures_fold _ (fun _ ms => NoDup (users_of ms) /\ Forall mount_ok ms)).
  - split; constructor.
  - intros _ record _ ms _ [Hnd Hok]. by apply add_primary_inv.
Qed.

Lemma collect_ok records todo maps :
  let good maps := Forall (fun item : Z * MountRecord => 0 <= item.1 < 2 ^ 32) maps.1
                   /\ map_Forall (fun user root => root = data_media user) maps.2 in
  good maps -> good (fold_left (collect_evidence records) todo maps).
Proof.
  intros good. revert maps.
  induction todo as [|r todo IH]; intros [visible evidence] [Hv He]; [done|].
  cbn [fold_left]. apply IH. unfold collect_evidence. cbn in Hv, He.
  set (visible' := match _ with Some user => _ | None => visible end).
  assert (Forall (fun item => 0 <= item.1 < 2 ^ 32) visible') as Hv'.
  { subst visible'.
    destruct (ParseUserMountpoint _ (lit "/mnt/user/") _) as [user|] eqn:E; [|done].
    case_bool_decide; [done|]. apply Forall_app. split; [done|]. apply Forall_singleton.
    by eapply ParseUserMountpoint_range. }
  destruct (ParseUserMountpoint _ (lit "/mnt/pass_through/") _) as [user|]; [|done].
  destruct (DerivePassThroughBackendRoot _ _ _) as [root|] eqn:E; [|done]. split; [done|].
  cbn. destruct (evidence !! user); [done|]. apply map_Forall_insert_2; [|done].
  by eapply DerivePassThrough_media.
Qed.

Lemma new_mount_ok aggregate evidence item m :
  map_Forall (fun user root => root = data_media user) evidence -> 0 <= item.1 < 2 ^ 32 ->
  new_mount aggregate evidence item = Some m -> mount_ok m.
Proof.
  unfold new_mount. intros He Hu (record & _ & (root & Hroot & [= <-])%bind_Some)%bind_Some.
  apply AddAlias_ok. unfold mount_ok. cbn. split_and!; try lia; [|by apply He|constructor].
  by apply ParsePrimaryRoot_of.
Qed.

Lemma visit_result_ok aggregate evidence items ms a :
  map_Forall (fun user root => root = data_media user) evidence ->
  Forall (fun item => 0 <= item.1 < 2 ^ 32) items -> Forall mount_ok ms ->
  visit_result aggregate evidence items ms = Some a -> Forall mount_ok a.
Proof.
  intros He Hi Hm. unfold visit_result. intros (added & Hadded%mapM_Some & [= <-])%bind_Some.
  apply Forall_app. split.
  - apply Forall_fmap. eapply Forall_impl; [exact Hm|]. intros m Hok. cbn.
    unfold visited_mount. destruct (List.find _ _); [by apply AddAlias_ok|done].
  - rewrite Forall_forall. intros m Hin. apply list_elem_of_lookup in Hin as [i Hi'].
    destruct (Forall2_lookup_r _ _ _ _ _ Hadded Hi') as (item & Hl & Hn).
    eapply new_mount_ok; [done| |exact Hn]. apply list_elem_of_lookup_2 in Hl.
    apply list_elem_of_filter in Hl as [_ Hl]. rewrite Forall_forall in Hi. by apply Hi.
Qed.

Lemma owner_aliases_ok records m : mount_ok m -> mount_ok (owner_aliases records m).
Proof.
  unfold owner_aliases. revert m. induction records as [|r records IH]; intros m Hok; [done|].
  cbn [fold_left]. apply IH. unfold owner_alias. destruct (_ && _); [by apply AddAlias_ok|done].
Qed.

(** What is known when the visit starts: [ParseMountInfo] succeeds exactly when the
    parts before the visit do and the visit has a result that is not empty. *)
Lemma ParseMountInfo_visit order text :
  (forall l, order l ≡ₚ l) ->
  match parse_records (get_lines text) 1 with
  | Ok records =>
      match fold_outcome add_primary [] records with
      | Ok primary =>
          match fold_outcome (add_aggregate primary) None records with
          | Ok aggregate =>
              let maps := fold_left (collect_evidence records) records ([], ∅) in
              let finish added :=
                if bool_decide (added = []) then None else
                Some {| supported := true; unsupported_reason := [];
                        mounts := sort_by user_id (owner_aliases records <$> added) |} in
              computes (added ← visit_result aggregate maps.2 (order maps.1) primary; finish added)
                (ParseMountInfo order text)
          | _ => forall t, ParseMountInfo order text <> Ok t
          end
      | _ => forall t, ParseMountInfo order text <> Ok t
      end
  | _ => forall t, ParseMountInfo order text <> Ok t
  end.
Proof.
  intros Horder. unfold ParseMountInfo.
  destruct (parse_records _ _) as [records| |]; cbn [mbind outcome_bind]; try done.
  pose proof (primary_ok records) as Hp.
  destruct (fold_outcome add_primary [] records) as [primary| |]; cbn [mbind outcome_bind]; try done.
  destruct Hp as [Hnd _].
  destruct (fold_outcome (add_aggregate primary) None records) as [aggregate| |];
    cbn [mbind outcome_bind]; try done.
  pose proof (collect_visible_nodup records records ([], ∅) ltac:(constructor)) as Hv.
  destruct (fold_left (collect_evidence records) records ([], ∅)) as [visible evidence].
  cbn [fst snd] in Hv |- *.
  assert (NoDup ((order visible).*1)) as Hv' by by rewrite Horder.
  pose proof (visit_users aggregate evidence (order visible) primary Hv' Hnd) as Hvisit.
  destruct (visit_result _ _ _ _) as [added|]; cbn [computes mbind option_bind] in *.
  2: { destruct Hvisit as [e ->]. by exists e. }
  rewrite Hvisit. cbn [mbind outcome_bind]. rewrite fold_owner_aliases.
  destruct (decide (added = [])) as [->|Hne].
  - cbn. by eexists.
  - rewrite (bool_decide_eq_false_2 (added = [])) by done. cbn [computes].
    rewrite bool_decide_eq_false_2; [done|]. intros E. apply Hne.
    apply (f_equal length) in E. rewrite length_sort_by, length_fmap in E. by destruct added.
Qed.

(** It returns on every text. *)
Lemma ParseMountInfo_returns order text : ParseMountInfo order text <> Oob.
Proof.
  assert (forall lines n, parse_records lines n <> Oob) as Hrecords.
  { induction lines as [|l lines IH]; intros n; [done|]. cbn [parse_records]. case_match; [apply IH|].
    apply bind_not_Oob.
    - unfold parse_line, Unsupported. cbv zeta. repeat case_match; done.
    - intros r _. by apply bind_not_Oob; [apply IH|]. }
  unfold ParseMountInfo.
  apply bind_not_Oob; [apply Hrecords|intros records _].
  apply bind_not_Oob; [|intros primary _].
  { apply fold_not_Oob. intros s x. unfold add_primary, Unsupported. repeat case_match; done. }
  apply bind_not_Oob; [|intros aggregate _].
  { apply fold_not_Oob. intros s x. unfold add_aggregate, Unsupported. repeat case_match; done. }
  destruct (fold_left (collect_evidence records) records ([], ∅)) as [visible evidence].
  apply bind_not_Oob; [|intros added _].
  { apply fold_not_Oob. intros s [user r]. unfold add_user, Unsupported. repeat case_match; done. }
  cbv zeta. case_match; done.
Qed.

Lemma ParseMountInfo_ok order text t :
  (forall l, order l ≡ₚ l) -> ParseMountInfo order text = Ok t ->
  supported t = true /\ mounts t <> [] /\ strictly_sorted_by user_id (mounts t)
  /\ Forall mount_ok (mounts t).
Proof.
  intros Ho H. pose proof (ParseMountInfo_visit order text Ho) as P.
  destruct (parse_records _ _) as [records| |]; try (by destruct (P t)).
  pose proof (primary_ok records) as Hp.
  destruct (fold_outcome add_primary _ _) as [primary| |]; try (by destruct (P t)).
  destruct Hp as [Hnd Hok].
  destruct (fold_outcome (add_aggregate _) _ _) as [aggregate| |]; try (by destruct (P t)).
  pose proof (collect_visible_nodup records records ([], ∅) ltac:(constructor)) as Hv.
  pose proof (collect_ok records records ([], ∅) ltac:(split; [constructor|apply map_Forall_empty]))
    as [Hr He].
  destruct (fold_left _ records ([], ∅)) as [visible evidence]. cbn [fst snd] in *.
  assert (NoDup ((order visible).*1)) as Hvo by by rewrite Ho.
  destruct (visit_result _ _ (order visible) _) as [added|] eqn:Ev; cbn [mbind option_bind] in P.
  2: { destruct P as [e P]. congruence. }
  destruct (decide (added = [])) as [->|Hne]; [destruct P as [e P]; congruence|].
  rewrite (bool_decide_eq_false_2 (added = [])) in P by done. cbn [computes] in P.
  rewrite P in H. injection H as <-. cbn [supported mounts].
  assert (NoDup (users_of (owner_aliases records <$> added))) as Hnda.
  { rewrite users_of_map by (intros; apply owner_aliases_user). by eapply visit_result_users. }
  split_and!; [done| | |].
  - intros E. apply Hne. apply (f_equal length) in E.
    rewrite length_sort_by, length_fmap in E. by destruct added.
  - apply sorted_nodup_strict; [|apply sort_by_sorted].
    change (NoDup (users_of (sort_by user_id (owner_aliases records <$> added)))).
    unfold users_of in *. by rewrite sort_by_perm.
  - rewrite sort_by_perm. apply Forall_fmap. eapply Forall_impl.
    + eapply visit_result_ok; [done| |done|done]. by rewrite Ho.
    + intros m Hm. by apply owner_aliases_ok.
Qed.

Lemma IsSafeLogicalPath_components path :
  path <> [] -> IsSafeLogicalPath path = true ->
  Forall (fun c => c <> [] /\ c <> lit "." /\ c <> lit ".." /\ x5c ∉ c) (split_on x2f path).
Proof.
  intros Hne. unfold IsSafeLogicalPath. destruct path as [|c path]; [done|].
  destruct (_ || _); [done|]. intros H. apply Forall_forall. intros part Hin.
  rewrite forallb_forall in H. apply list_elem_of_In in Hin. specialize (H part Hin).
  unfold safe_component in H. split_tests. split_and!; try done. by apply contains_false.
Qed.

(** ** Properties *)

(** The order in which the [unordered_map] of users is visited never shows in
    the topology: two runs that visit the same users in different orders accept the
    same texts, with the same mounts, in the same order and with the same aliases. *)
Theorem parse_mount_info_order_independent order order' text t :
  (forall l, order l ≡ₚ l) -> (forall l, order' l ≡ₚ l) ->
  ParseMountInfo order text = Ok t -> ParseMountInfo order' text = Ok t.
Proof.
  intros Ho Ho' H.
  pose proof (ParseMountInfo_visit order text Ho) as P.
  pose proof (ParseMountInfo_visit order' text Ho') as P'.
  destruct (parse_records _ _) as [records| |]; try (by destruct (P t)).
  pose proof (primary_ok records) as Hp.
  destruct (fold_outcome add_primary _ _) as [primary| |]; try (by destruct (P t)).
  destruct Hp as [Hnd _].
  destruct (fold_outcome (add_aggregate _) _ _) as [aggregate| |]; try (by destruct (P t)).
  pose proof (collect_visible_nodup records records ([], ∅) ltac:(constructor)) as Hv.
  destruct (fold_left _ records ([], ∅)) as [visible evidence]. cbn [fst snd] in *.
  assert (NoDup ((order visible).*1)) as Hvo by by rewrite Ho.
  destruct (visit_result _ _ (order visible) _) as [added|] eqn:Ev; cbn [mbind option_bind] in P.
  2: { destruct P as [e P]. congruence. }
  destruct (visit_result_perm aggregate evidence (order visible) (order' visible) primary added)
    as (added' & E' & Hperm); [done|by rewrite Ho, Ho'|done|].
  rewrite E' in P'. cbn [mbind option_bind] in P'.
  destruct (decide (added = [])) as [->|Hne]; [destruct P as [e P]; congruence|].
  assert (added' <> []) as Hne'.
  { intros ->. symmetry in Hperm. by apply Permutation_nil_l in Hperm. }
  rewrite (bool_decide_eq_false_2 (added = [])) in P by done.
  rewrite (bool_decide_eq_false_2 (added' = [])) in P' by done. cbn [computes] in P, P'.
  rewrite P', <- H, P. do 2 f_equal. apply sort_by_perm_eq; [|by rewrite Hperm].
  change (NoDup (users_of (owner_aliases records <$> added'))).
  rewrite users_of_map by (intros; apply owner_aliases_user).
  assert (NoDup (users_of added)) as Hu by by eapply visit_result_users.
  unfold users_of in *. by rewrite <- Hperm.
Qed.

(** The mounts of an accepted topology: there is one at least, their user ids
    ascend strictly and fit 32 bits, each visible root is the emulated storage of the
    user, each backend root its media directory, and no alias is listed twice. *)
Theorem parse_mount_info_wellformed order text t :
  (forall l, order l ≡ₚ l) -> ParseMountInfo order text = Ok t ->
  supported t = true /\ mounts t <> [] /\ strictly_sorted_by user_id (mounts t)
  /\ Forall mount_ok (mounts t).
Proof. intros Ho H. exact (ParseMountInfo_ok order text t Ho H). Qed.

(** How a byte is printed by the kernel's [mangle_path]. *)
Definition octal_escape (b : byte) : bytes :=
  [x5c; byte_of (48 + Z.shiftr (byte_val b) 6); byte_of (48 + Z.land (Z.shiftr (byte_val b) 3) 7);
   byte_of (48 + Z.land (byte_val b) 7)].

Definition octal_escape_ok (b : byte) : bool :=
  match octal_escape b with
  | [_; d1; d2; d3] =>
      (byte_val b =? 0) || (127 <? byte_val b)
      || (is_octal d1 && is_octal d2 && is_octal d3
          && (Z.lor (Z.lor (Z.shiftl (byte_val d1 - 48) 6) (Z.shiftl (byte_val d2 - 48) 3))
                (byte_val d3 - 48) =? byte_val b))
  | _ => false
  end.

Lemma octal_escape_ok_all b : octal_escape_ok b = true.
Proof. destruct b; vm_compute; reflexivity. Qed.

Lemma decode_octal b rest :
  0 < byte_val b <= 127 ->
  DecodeMountInfoPath (octal_escape b ++ rest)
  = output ← DecodeMountInfoPath rest; Some (b :: output).
Proof.
  intros Hb. pose proof (octal_escape_ok_all b) as H. unfold octal_escape_ok in H.
  unfold octal_escape in *. cbn [Datatypes.app].
  rewrite (proj2 (Z.eqb_neq (byte_val b) 0)), (proj2 (Z.ltb_ge 127 (byte_val b))) in H by lia.
  cbn [orb] in H. apply andb_true_iff in H as [Hd Hv%Z.eqb_eq].
  cbn [DecodeMountInfoPath]. rewrite (bool_decide_eq_true_2 (x5c = x5c)), Hd by done.
  cbn [negb]. cbv zeta. rewrite Hv, byte_of_val.
  rewrite (proj2 (Z.eqb_neq (byte_val b) 0)), (proj2 (Z.ltb_ge 127 (byte_val b))) by lia. done.
Qed.

Definition mangle_path (special : byte -> bool) (path : bytes) : bytes :=
  flat_map (fun b => if special b then octal_escape b else [b]) path.

(** [DecodeMountInfoPath] reads back every path the kernel printed, whatever the
    set of ASCII characters it escapes, as long as it escapes the backslash. *)
Theorem decode_mount_info_path_roundtrip special path :
  special x5c = true -> (forall b, special b = true -> 0 < byte_val b <= 127) ->
  DecodeMountInfoPath (mangle_path special path) = Some path.
Proof.
  intros Hb Hs. induction path as [|b path IH]; [done|]. cbn [mangle_path flat_map].
  destruct (special b) eqn:E.
  - rewrite decode_octal by auto.
    unfold mangle_path in IH. by rewrite IH.
  - cbn [Datatypes.app DecodeMountInfoPath].
    rewrite bool_decide_eq_false_2 by congruence. cbn [negb]. unfold mangle_path in IH. by rewrite IH.
Qed.

(** Over an accepted topology a resolved backend path is the media directory of
    the user followed by components that are neither empty, ["."] nor [".."]: it can
    not leave that directory. *)
Theorem resolve_backend_path_confined order text t user path out :
  (forall l, order l ≡ₚ l) -> ParseMountInfo order text = Ok t ->
  ResolvePath t user path true = Ok out ->
  IsPathOrDescendant out (data_media user) = true
  /\ exists components, split_on x2f out = split_on x2f (data_media user) ++ components
     /\ Forall (fun c => c <> [] /\ c <> lit "." /\ c <> lit ".." /\ x5c ∉ c) components.
Proof.
  intros Ho H Hr. destruct (ParseMountInfo_ok order text t Ho H) as (Hs & _ & _ & Hm).
  unfold ResolvePath in Hr. rewrite Hs in Hr. cbn [negb] in Hr.
  destruct (IsSafeLogicalPath path) eqn:Esafe; [|done]. cbn [negb] in Hr.
  destruct (FindUserMount _ _) as [m|] eqn:Ef; [|done].
  apply FindUserMount_Some in Ef as [Hin <-]. rewrite Forall_forall in Hm.
  destruct (Hm m Hin) as (_ & Hb & _). rewrite Hb in Hr.
  generalize dependent (data_media (user_id m)). intros root Hr _. injection Hr as <-.
  rewrite IsPathOrDescendant_true. case_bool_decide as Ep.
  - split; [by left|]. exists []. by rewrite app_nil_r.
  - split; [right; eauto|]. exists (split_on x2f path). split; [apply split_on_app_any|].
    by apply IsSafeLogicalPath_components.
Qed.

(** ** Witnesses *)

Definition sample_mountinfo : bytes :=
  lit "21 1 0:5 / / rw - ext4 /dev/root rw" ++ [x0a]
  ++ lit "30 21 0:40 / /storage/emulated rw - fuse /dev/fuse rw" ++ [x0a]
  ++ lit "31 21 0:40 / /storage/emulated/0 rw - fuse /data/media rw" ++ [x0a]
  ++ lit "32 21 0:41 / /mnt/user/0/emulated rw - fuse /dev/fuse rw" ++ [x0a]
  ++ lit "33 21 0:41 / /mnt/user/10/emulated rw - fuse /dev/fuse rw" ++ [x0a]
  ++ lit "34 21 0:42 / /mnt/pass_through/10/emulated rw - sdcardfs /data/media rw" ++ [x0a]
  ++ lit "35 21 0:40 / /sdcard rw - fuse /dev/fuse rw" ++ [x0a].

Definition sample_topology : StorageTopology := {|
  supported := true; unsupported_reason := [];
  mounts := [
    {| user_id := 0; mount_id := 31; visible_root := lit "/storage/emulated/0";
       backend_root := lit "/data/media/0"; filesystem_type := lit "fuse";
       aliases := [(32, lit "/mnt/user/0/emulated"); (35, lit "/sdcard")] |};
    {| user_id := 10; mount_id := 30; visible_root := lit "/storage/emulated/10";
       backend_root := lit "/data/media/10"; filesystem_type := lit "fuse";
       aliases := [(33, lit "/mnt/user/10/emulated")] |}] |}.

Lemma sample_parses : ParseMountInfo id sample_mountinfo = Ok sample_topology.
Proof. vm_compute. reflexivity. Qed.

Lemma parse_mount_info_order_independent_witness :
  ParseMountInfo (@rev _) sample_mountinfo = Ok sample_topology.
Proof.
  apply (parse_mount_info_order_independent id).
  - done.
  - intros l. symmetry. apply Permutation_rev.
  - exact sample_parses.
Defined.

Lemma parse_mount_info_wellformed_witness : Forall mount_ok (mounts sample_topology).
Proof. apply (parse_mount_info_wellformed id sample_mountinfo); [done|exact sample_parses]. Defined.

Lemma decode_mount_info_path_roundtrip_witness :
  DecodeMountInfoPath (lit "/a\040b\134c") = Some (lit "/a b\c").
Proof.
  assert (lit "/a\040b\134c"
          = mangle_path (fun b => (b == x20) || (b == x5c)) (lit "/a b\c")) as ->
    by (vm_compute; reflexivity).
  apply (decode_mount_info_path_roundtrip (fun b => (b == x20) || (b == x5c)) (lit "/a b\c")).
  - done.
  - intros b Hb. apply orb_true_iff in Hb as [Hb|Hb]; apply bool_decide_eq_true in Hb; subst b;
    vm_compute; (split; [reflexivity|discriminate]).
Defined.

Lemma resolve_backend_path_confined_witness :
  IsPathOrDescendant (lit "/data/media/10/Download/a") (lit "/data/media/10") = true.
Proof.
  apply (resolve_backend_path_confined id sample_mountinfo sample_topology 10 (lit "Download/a")).
  - done.
  - exact sample_parses.
  - vm_compute. reflexivity.
Defined.
