(* ===== verification/MountBackend.v ===== *)
(** * Mount backends, transaction states and the mutation journal

    The header-only parts of the mount engine: core/include/pathguard/
    capabilities.h, mount_backend.h, mount_transaction.h and mutation_journal.h. *)

From S2P Require Import Prelude.

Local Open Scope pg_scope.

(** ** capabilities.h *)

Definition kCapabilityOpenAt2 : Z := Z.shiftl 1 0.
Definition kCapabilityComponentFdWalk : Z := Z.shiftl 1 1.
Definition kCapabilityProcFdMount : Z := Z.shiftl 1 2.
Definition kCapabilityOpenTreeMoveMount : Z := Z.shiftl 1 3.
Definition kCapabilityStringBindMount : Z := Z.shiftl 1 4.

(** ** mount_backend.h *)

Definition kMountActionRedirect : Z := Z.shiftl 1 0.
Definition kMountActionDenyAnchor : Z := Z.shiftl 1 1.
Definition kMountActionIsolateRoot : Z := Z.shiftl 1 2.
Definition kMountActionRestore : Z := Z.shiftl 1 3.

Inductive MountBackendKind : Set :=
  | kUnsupported | kStrictOpenTree | kStrictProcFd | kLegacyString.

Inductive MountBackendReason : Set :=
  | kReasonNone | kCapabilityMissing | kLegacyNotAuthorized | kUnsupportedAction.

#[export] Instance backend_eq_dec : EqDecision MountBackendKind.
Proof. solve_decision. Defined.

#[export] Instance backend_reason_eq_dec : EqDecision MountBackendReason.
Proof. solve_decision. Defined.

Record MountBackendCapabilities : Type := {
  primitives : Z;
  strict_actions : Z;
  legacy_actions : Z;
}.

Definition SupportsAllActions (supported required : Z) : bool :=
  (required != 0) && (Z.land supported required == required).

Definition SelectMountBackend (required_actions : Z) (capabilities : MountBackendCapabilities)
    (allow_legacy_string_bind : bool) : MountBackendKind * MountBackendReason :=
  if required_actions == 0 then (kUnsupported, kUnsupportedAction)
  else
    let strict := SupportsAllActions (strict_actions capabilities) required_actions in
    if strict && (Z.land (primitives capabilities) kCapabilityOpenTreeMoveMount != 0)
    then (kStrictOpenTree, kReasonNone)
    else if strict && (Z.land (primitives capabilities) kCapabilityProcFdMount != 0)
    then (kStrictProcFd, kReasonNone)
    else if Z.land (primitives capabilities) kCapabilityStringBindMount == 0
    then (kUnsupported, kCapabilityMissing)
    else if negb allow_legacy_string_bind then (kUnsupported, kLegacyNotAuthorized)
    else if negb (SupportsAllActions (legacy_actions capabilities) required_actions)
    then (kUnsupported, kUnsupportedAction)
    else (kLegacyString, kReasonNone).

Definition NextMountBackend (current : MountBackendKind) (required_actions : Z)
    (allow_legacy_string_bind legacy_namespace_allowed : bool) : MountBackendKind :=
  if current == kStrictOpenTree then kStrictProcFd
  else if (current == kStrictProcFd) && allow_legacy_string_bind && legacy_namespace_allowed
          && SupportsAllActions kMountActionRedirect required_actions
  then kLegacyString else kUnsupported.

Definition NeedsPostMountSnapshot (backend : MountBackendKind)
    (mutation_recorded apply_succeeded : bool) : bool :=
  mutation_recorded && (negb apply_succeeded || (backend == kLegacyString)).

(** ** mount_transaction.h *)

Inductive MountTransactionState : Set :=
  | kPending | kApplying | kComplete | kCancelRequested | kCancelled | kFailed
  | kRollbackComplete | kNamespaceTainted.

#[export] Instance transaction_state_eq_dec : EqDecision MountTransactionState.
Proof. solve_decision. Defined.

Definition IsMountTransactionTerminal (state : MountTransactionState) : bool :=
  (state == kComplete) || (state == kCancelled) || (state == kFailed)
  || (state == kRollbackComplete) || (state == kNamespaceTainted).

Definition MountTransactionHasResult (state : MountTransactionState) : bool :=
  (state == kComplete) || (state == kFailed) || (state == kRollbackComplete)
  || (state == kNamespaceTainted).

Definition IsMountTransitionAllowed (from to : MountTransactionState) : bool :=
  match from with
  | kPending =>
      (to == kApplying) || (to == kComplete) || (to == kCancelRequested) || (to == kFailed)
  | kApplying =>
      (to == kComplete) || (to == kCancelRequested) || (to == kRollbackComplete)
      || (to == kNamespaceTainted)
  | kCancelRequested =>
      (to == kCancelled) || (to == kRollbackComplete) || (to == kNamespaceTainted)
  | kFailed => to == kRollbackComplete
  | kComplete | kCancelled | kRollbackComplete | kNamespaceTainted => false
  end.

(** ** mutation_journal.h

    The array has [Capacity] entries from the start; [size_] of them are in use. *)
Module MutationJournal.
Section Journal.
Context {Entry : Type} (Capacity : nat).

Record t : Type := { entries_ : list Entry; size_ : nat }.

Definition empty_journal (initial : Entry) : t :=
  {| entries_ := replicate Capacity initial; size_ := 0 |}.

Definition Push (entry : Entry) (j : t) : bool * t :=
  if bool_decide (Capacity <= size_ j)%nat then (false, j)
  else (true, {| entries_ := <[size_ j := entry]> (entries_ j); size_ := S (size_ j) |}).

(** The entry, when there is one. *)
Definition Pop (j : t) : option Entry * t :=
  match size_ j with
  | O => (None, j)
  | S n => (entries_ j !! n, {| entries_ := entries_ j; size_ := n |})
  end.

Definition UpdateLast (entry : Entry) (j : t) : bool * t :=
  match size_ j with
  | O => (false, j)
  | S n => (true, {| entries_ := <[n := entry]> (entries_ j); size_ := size_ j |})
  end.

Definition UpdateAt (index : nat) (entry : Entry) (j : t) : bool * t :=
  if bool_decide (size_ j <= index)%nat then (false, j)
  else (true, {| entries_ := <[index := entry]> (entries_ j); size_ := size_ j |}).

Definition At (index : nat) (j : t) : option Entry :=
  if bool_decide (index < size_ j)%nat then entries_ j !! index else None.

Definition Clear (j : t) : t := {| entries_ := entries_ j; size_ := 0 |}.

Definition size_of (j : t) : nat := size_ j.

Definition is_empty (j : t) : bool := bool_decide (size_ j = 0)%nat.

(** *** Specification: a bounded stack, the last entry at the end *)

Definition journal_ok (j : t) : Prop :=
  length (entries_ j) = Capacity /\ (size_ j <= Capacity)%nat.

Definition contents (j : t) : list Entry := take (size_ j) (entries_ j).

Lemma length_contents j : journal_ok j -> length (contents j) = size_ j.
Proof. intros [He Hs]. unfold contents. rewrite length_take. lia. Qed.

Lemma At_contents j index : At index j = contents j !! index.
Proof.
  unfold At, contents. case_bool_decide as E.
  - by rewrite lookup_take_lt.
  - rewrite lookup_take_ge by lia. done.
Qed.

Lemma empty_journal_ok initial :
  journal_ok (empty_journal initial) /\ contents (empty_journal initial) = [].
Proof. split; [split; [apply length_replicate|cbn; lia]|done]. Qed.

Lemma Push_spec entry j :
  journal_ok j ->
  let '(ok, j') := Push entry j in
  journal_ok j' /\ ok = bool_decide (length (contents j) < Capacity)%nat
  /\ contents j' = if ok then contents j ++ [entry] else contents j.
Proof.
  intros Hj. pose proof (length_contents j Hj) as Hl. destruct Hj as [He Hs].
  unfold Push. case_bool_decide as E.
  - split; [done|]. split; [|done]. rewrite bool_decide_eq_false_2; [done|lia].
  - split; [split; cbn; [by rewrite length_insert|lia]|].
    split; [rewrite bool_decide_eq_true_2; [done|lia]|].
    unfold contents. cbn [size_ entries_].
    rewrite (take_S_r _ _ entry) by (apply list_lookup_insert_eq; lia).
    by rewrite take_insert_ge by lia.
Qed.

Lemma Pop_spec j :
  journal_ok j ->
  let '(e, j') := Pop j in
  journal_ok j' /\ e = last (contents j) /\ contents j' = removelast (contents j).
Proof.
  intros [He Hs]. unfold Pop, contents. destruct (size_ j) as [|n] eqn:E.
  - unfold journal_ok. rewrite E. done.
  - cbn [size_ entries_]. destruct (lookup_lt_is_Some_2 (entries_ j) n ltac:(lia)) as [x Hx].
    split; [split; cbn; [done|lia]|]. rewrite (take_S_r _ _ x) by done.
    rewrite last_snoc, removelast_last. by split.
Qed.

Lemma UpdateAt_spec index entry j :
  journal_ok j ->
  let '(ok, j') := UpdateAt index entry j in
  journal_ok j' /\ ok = bool_decide (index < length (contents j))%nat
  /\ contents j' = <[index := entry]> (contents j).
Proof.
  intros Hj. pose proof (length_contents j Hj) as Hl. destruct Hj as [He Hs].
  unfold UpdateAt. case_bool_decide as E.
  - split; [done|]. split; [rewrite bool_decide_eq_false_2; [done|lia]|].
    by rewrite list_insert_ge by lia.
  - split; [split; cbn; [by rewrite length_insert|lia]|].
    split; [rewrite bool_decide_eq_true_2; [done|lia]|].
    unfold contents. cbn [size_ entries_]. by rewrite take_insert_lt by lia.
Qed.

Lemma UpdateLast_spec entry j :
  journal_ok j ->
  let '(ok, j') := UpdateLast entry j in
  journal_ok j' /\ ok = negb (is_empty j)
  /\ contents j' = if ok then removelast (contents j) ++ [entry] else contents j.
Proof.
  intros [He Hs]. unfold UpdateLast, is_empty, contents.
  destruct (size_ j) as [|n] eqn:E; [unfold journal_ok; rewrite E; done|]. cbn [size_ entries_].
  split; [split; cbn; [by rewrite length_insert|lia]|]. split; [done|].
  destruct (lookup_lt_is_Some_2 (entries_ j) n ltac:(lia)) as [x Hx].
  rewrite (take_S_r (entries_ j) n x) by done. rewrite removelast_last.
  rewrite (take_S_r _ n entry) by (apply list_lookup_insert_eq; lia).
  by rewrite take_insert_ge by lia.
Qed.

(** *** Refinement: any sequence of calls answers as the bounded stack does *)

Inductive call : Type :=
  | CallPush (entry : Entry) | CallPop | CallUpdateLast (entry : Entry)
  | CallUpdateAt (index : nat) (entry : Entry) | CallAt (index : nat) | CallClear | CallSize.

Inductive answer : Type :=
  | AnswerBool (b : bool) | AnswerEntry (e : option Entry) | AnswerSize (n : nat) | AnswerUnit.

Definition run (c : call) (j : t) : answer * t :=
  match c with
  | CallPush entry => let '(b, j') := Push entry j in (AnswerBool b, j')
  | CallPop => let '(e, j') := Pop j in (AnswerEntry e, j')
  | CallUpdateLast entry => let '(b, j') := UpdateLast entry j in (AnswerBool b, j')
  | CallUpdateAt index entry => let '(b, j') := UpdateAt index entry j in (AnswerBool b, j')
  | CallAt index => (AnswerEntry (At index j), j)
  | CallClear => (AnswerUnit, Clear j)
  | CallSize => (AnswerSize (size_of j), j)
  end.

(** The specification, on a list that never holds more than [Capacity] entries. *)
Definition spec (c : call) (l : list Entry) : answer * list Entry :=
  match c with
  | CallPush entry =>
      if bool_decide (length l < Capacity)%nat then (AnswerBool true, l ++ [entry])
      else (AnswerBool false, l)
  | CallPop => (AnswerEntry (last l), removelast l)
  | CallUpdateLast entry =>
      if bool_decide (l = []) then (AnswerBool false, l)
      else (AnswerBool true, removelast l ++ [entry])
  | CallUpdateAt index entry =>
      (AnswerBool (bool_decide (index < length l)%nat), <[index := entry]> l)
  | CallAt index => (AnswerEntry (l !! index), l)
  | CallClear => (AnswerUnit, [])
  | CallSize => (AnswerSize (length l), l)
  end.

Fixpoint answers {S} (step : call -> S -> answer * S) (s : S) (calls : list call) : list answer :=
  match calls with
  | [] => []
  | c :: rest => let '(a, s') := step c s in a :: answers step s' rest
  end.

Lemma run_spec c j :
  journal_ok j ->
  journal_ok (run c j).2 /\ spec c (contents j) = ((run c j).1, contents (run c j).2).
Proof.
  intros Hj. pose proof (length_contents j Hj) as Hl. destruct c; cbn [run spec].
  - pose proof (Push_spec entry j Hj) as H. destruct (Push entry j) as [b j'].
    destruct H as (Hj' & Hb & Hc). cbn. rewrite Hc, Hb. by case_bool_decide.
  - pose proof (Pop_spec j Hj) as H. destruct (Pop j) as [e j'].
    destruct H as (Hj' & He & Hc). cbn. by rewrite Hc, He.
  - pose proof (UpdateLast_spec entry j Hj) as H. destruct (UpdateLast entry j) as [b j'].
    destruct H as (Hj' & Hb & Hc). cbn. rewrite Hc, Hb. unfold is_empty.
    rewrite <- Hl. by destruct (contents j).
  - pose proof (UpdateAt_spec index entry j Hj) as H. destruct (UpdateAt index entry j) as [b j'].
    destruct H as (Hj' & Hb & Hc). cbn. by rewrite Hc, Hb.
  - cbn. by rewrite At_contents.
  - cbn. destruct Hj as [He Hs]. split; [split; cbn; [done|lia]|]. done.
  - cbn. by rewrite Hl.
Qed.
End Journal.

Arguments t : clear implicits.
Arguments call : clear implicits.
Arguments answer : clear implicits.
End MutationJournal.

(** ** Lemmas: backends *)

Lemma SupportsAllActions_subset supported required :
  SupportsAllActions supported required = true <->
  required <> 0 /\ forall i, Z.testbit required i = true -> Z.testbit supported i = true.
Proof.
  unfold SupportsAllActions. rewrite andb_true_iff, negb_true_iff, bool_decide_eq_true,
    bool_decide_eq_false. apply and_iff_compat_l. split.
  - intros <- i. rewrite Z.land_spec. by intros [? ?]%andb_true_iff.
  - intros H. apply Z.bits_inj'. intros i _. rewrite Z.land_spec.
    destruct (Z.testbit required i) eqn:E; [by rewrite (H i E)|apply andb_false_r].
Qed.

(** ** Lemmas: transaction states *)

(** How many transitions are still possible from a state. *)
Definition transaction_rank (state : MountTransactionState) : nat :=
  match state with
  | kPending => 3 | kApplying => 2 | kCancelRequested => 1 | kFailed => 1
  | kComplete | kCancelled | kRollbackComplete | kNamespaceTainted => 0
  end.

Lemma transition_rank from to :
  IsMountTransitionAllowed from to = true -> (transaction_rank to < transaction_rank from)%nat.
Proof. destruct from, to; vm_compute; intros E; try discriminate E; lia. Qed.

Lemma transaction_rank_bound state : (transaction_rank state <= 3)%nat.
Proof. destruct state; cbn; lia. Qed.

Lemma Sorted_app_r {A} (R : A -> A -> Prop) l k : Sorted R (l ++ k) -> Sorted R k.
Proof. induction l as [|x l IH]; [done|]. intros [H _]%Sorted_inv. by apply IH. Qed.

Lemma transition_chain chain :
  Sorted (fun a b => IsMountTransitionAllowed a b = true) chain ->
  NoDup chain
  /\ (forall a rest, chain = a :: rest -> (length rest <= transaction_rank a)%nat)
  /\ (forall a rest, chain = a :: rest -> Forall (fun b => (transaction_rank b < transaction_rank a)%nat) rest).
Proof.
  induction chain as [|a chain IH]; intros H.
  { split_and!; [constructor|done|done]. }
  apply Sorted_inv in H as [H Ha]. destruct (IH H) as (Hnd & Hlen & Hlt).
  assert (Forall (fun b => (transaction_rank b < transaction_rank a)%nat) chain) as Hall.
  { destruct chain as [|b rest]; [constructor|]. apply HdRel_inv, transition_rank in Ha.
    constructor; [done|]. eapply Forall_impl; [by apply Hlt|]. cbn. lia. }
  split_and!.
  - apply NoDup_cons. split; [|done]. intros Hin. rewrite Forall_forall in Hall.
    pose proof (Hall a Hin). lia.
  - intros ? ? [= <- <-]. destruct chain as [|b rest]; cbn; [lia|].
    pose proof (Hlen b rest eq_refl). apply HdRel_inv, transition_rank in Ha. lia.
  - by intros ? ? [= <- <-].
Qed.

(** ** Properties *)

(** What [SelectMountBackend] promises: a backend is selected exactly when the
    reason is empty; a strict backend only with its primitive and when the strict
    actions cover the request, open_tree before procfd; the string backend only as a
    last resort, when it was authorised, its primitive exists, its actions cover the
    request and no strict backend is usable. *)
Theorem select_mount_backend_sound required capabilities allow backend reason :
  SelectMountBackend required capabilities allow = (backend, reason) ->
  let supports actions := required <> 0 /\
    forall i, Z.testbit required i = true -> Z.testbit actions i = true in
  let has bit := Z.land (primitives capabilities) bit <> 0 in
  let strict_usable := supports (strict_actions capabilities)
    /\ (has kCapabilityOpenTreeMoveMount \/ has kCapabilityProcFdMount) in
  (reason = kReasonNone <-> backend <> kUnsupported)
  /\ (backend = kStrictOpenTree <->
        supports (strict_actions capabilities) /\ has kCapabilityOpenTreeMoveMount)
  /\ (backend = kStrictProcFd <->
        supports (strict_actions capabilities) /\ has kCapabilityProcFdMount
        /\ ~ has kCapabilityOpenTreeMoveMount)
  /\ (backend = kLegacyString <->
        ~ strict_usable /\ has kCapabilityStringBindMount /\ allow = true
        /\ supports (legacy_actions capabilities)).
Proof.
  intros H supports has strict_usable. subst supports has strict_usable. cbv beta zeta.
  rewrite <- !SupportsAllActions_subset. unfold SelectMountBackend in H.
  destruct (SupportsAllActions (strict_actions capabilities) required) eqn:Es,
    (SupportsAllActions (legacy_actions capabilities) required) eqn:El;
    cbn [andb negb] in H; repeat case_bool_decide; destruct allow; cbn [andb negb] in H;
    injection H as <- <-; unfold SupportsAllActions in Es, El;
    try (rewrite bool_decide_eq_true_2 in Es by done; discriminate Es);
    try (rewrite bool_decide_eq_true_2 in El by done; discriminate El);
    intuition congruence.
Qed.

(** The fallback between backends always ends: from any backend at most three
    steps reach [kUnsupported], no backend is tried twice, and the string backend is
    only ever reached when both the policy and the namespace allow it and nothing
    but redirects is required. *)
Theorem next_mount_backend_terminates current required allow allowed :
  let next b := NextMountBackend b required allow allowed in
  next (next (next current)) = kUnsupported
  /\ next current <> kStrictOpenTree
  /\ (current <> kUnsupported -> next current <> current)
  /\ (next current = kLegacyString ->
       current = kStrictProcFd /\ allow = true /\ allowed = true /\ required = kMountActionRedirect).
Proof.
  assert (SupportsAllActions kMountActionRedirect required = true -> required = kMountActionRedirect)
    as Hreq.
  { unfold SupportsAllActions. intros [Hne Hl]%andb_true_iff.
    apply negb_true_iff, bool_decide_eq_false in Hne. apply bool_decide_eq_true in Hl.
    change kMountActionRedirect with (Z.ones 1) in *. rewrite Z.land_comm, Z.land_ones in Hl by lia.
    change (2 ^ 1) with 2 in Hl. change (Z.ones 1) with 1.
    pose proof (Z.mod_pos_bound required 2). lia. }
  unfold NextMountBackend.
  destruct current, allow, allowed, (SupportsAllActions kMountActionRedirect required); cbn;
    repeat split; try discriminate; auto.
Qed.

(** A transaction makes at most three transitions, whatever the interleaving:
    along any chain of allowed transitions no state is entered twice and the chain
    has four states at most, and a chain can only continue past a terminal state when
    that state is [kFailed]. *)
Theorem mount_transitions_bounded chain :
  Sorted (fun a b => IsMountTransitionAllowed a b = true) chain ->
  NoDup chain /\ (length chain <= 4)%nat
  /\ forall pre a b post, chain = pre ++ a :: b :: post ->
       IsMountTransactionTerminal a = true -> a = kFailed /\ b = kRollbackComplete /\ post = [].
Proof.
  intros H. pose proof (transition_chain chain H) as (Hnd & Hlen & _). split_and!; [done| |].
  - destruct chain as [|a chain]; cbn; [lia|].
    pose proof (Hlen a chain eq_refl). pose proof (transaction_rank_bound a). cbn in *. lia.
  - intros pre a b post -> Ha. apply Sorted_app_r in H.
    apply Sorted_inv in H as [H Hab%HdRel_inv]. apply Sorted_inv in H as [_ Hb].
    destruct a; try discriminate Ha; destruct b; try discriminate Hab.
    split_and!; [done|done|]. destruct post as [|c post]; [done|].
    apply HdRel_inv in Hb. by destruct c.
Qed.

(** A [MutationJournal] refines a bounded stack: whatever is called on it, it
    answers like a list that refuses to grow past [Capacity], pops its last entry and
    never shows an entry it does not hold. *)
Theorem mutation_journal_refines_stack {Entry} (Capacity : nat) (initial : Entry) calls :
  MutationJournal.answers (MutationJournal.run Capacity)
    (MutationJournal.empty_journal Capacity initial) calls
  = MutationJournal.answers (MutationJournal.spec Capacity) [] calls.
Proof.
  destruct (MutationJournal.empty_journal_ok Capacity initial) as [Hj Hc].
  rewrite <- Hc. clear Hc. revert Hj. generalize (MutationJournal.empty_journal Capacity initial).
  induction calls as [|c calls IH]; intros j Hj; [done|]. cbn [MutationJournal.answers].
  destruct (MutationJournal.run_spec Capacity c j Hj) as [Hj' Hs]. rewrite Hs.
  destruct (MutationJournal.run Capacity c j) as [a j']. cbn [fst snd] in *. f_equal. by apply IH.
Qed.

Lemma select_mount_backend_sound_witness :
  (kLegacyString = kLegacyString <->
     ~ ((kMountActionRedirect <> 0 /\ forall i, Z.testbit kMountActionRedirect i = true ->
           Z.testbit 3 i = true) /\ (Z.land 16 kCapabilityOpenTreeMoveMount <> 0
                                      \/ Z.land 16 kCapabilityProcFdMount <> 0))
     /\ Z.land 16 kCapabilityStringBindMount <> 0 /\ true = true
     /\ (kMountActionRedirect <> 0 /\ forall i, Z.testbit kMountActionRedirect i = true ->
           Z.testbit 1 i = true)).
Proof.
  apply (select_mount_backend_sound kMountActionRedirect
           {| primitives := 16; strict_actions := 3; legacy_actions := 1 |} true kLegacyString
           kReasonNone).
  reflexivity.
Defined.

Lemma mount_transitions_bounded_witness :
  NoDup [kPending; kApplying; kCancelRequested; kRollbackComplete].
Proof.
  apply (mount_transitions_bounded [kPending; kApplying; kCancelRequested; kRollbackComplete]).
  repeat constructor.
Defined.
