(* ===== verification/Snapshot.v ===== *)
(** * Mountinfo snapshots (native/mount_info_snapshot.cpp)

    [ParseSnapshot] reads the text of /proc/self/mountinfo into a bounded table and
    [FindEntry] looks a path up in it. An entry keeps the tokens its offsets and
    lengths delimit; a pointer into the text is the text that follows it. The files
    and the namespace identity are read by system calls: they are arguments. *)

From S2P Require Import Prelude Path Topology.

Local Open Scope pg_scope.

(** ** errno.h and limits.h of Linux *)

Definition ENOENT : Z := 2.
Definition EIO : Z := 5.
Definition ENOMEM : Z := 12.
Definition EBUSY : Z := 16.
Definition EXDEV : Z := 18.
Definition EINVAL : Z := 22.
Definition EFBIG : Z := 27.
Definition ENAMETOOLONG : Z := 36.
Definition ENODATA : Z := 61.
Definition EPROTO : Z := 71.
Definition EBADMSG : Z := 74.
Definition EOVERFLOW : Z := 75.
Definition ENOTSUP : Z := 95.
Definition ETIMEDOUT : Z := 110.
Definition ESTALE : Z := 116.
Definition ECANCELED : Z := 125.
Definition EOWNERDEAD : Z := 130.
Definition PATH_MAX : Z := 4096.

(** The C string a pointer to these bytes denotes. *)
Definition c_str (s : bytes) : bytes := (cut x00 s).1.

(** ** The C library's [strtoull] in base 10

    White space, an optional sign, digits; [None] when there is no digit or the value
    overflows 64 bits, else the value and what follows the digits. *)
Definition is_c_space (b : byte) : bool :=
  bool_decide (b ∈ [x20; x09; x0a; x0b; x0c; x0d]).

Fixpoint skip_space (s : bytes) : bytes :=
  match s with
  | b :: s' => if is_c_space b then skip_space s' else s
  | [] => []
  end.

Fixpoint span_digits (s : bytes) : bytes * bytes :=
  match s with
  | b :: s' => if is_digit b then let '(d, r) := span_digits s' in (b :: d, r) else ([], s)
  | [] => ([], [])
  end.

Definition c_sign (s : bytes) : bool * bytes :=
  match s with
  | x2d :: s' => (true, s')
  | x2b :: s' => (false, s')
  | _ => (false, s)
  end.

Definition strtoull (text : bytes) : option (Z * bytes) :=
  let '(negative, s) := c_sign (skip_space text) in
  let '(digits, rest) := span_digits s in
  value ← from_chars 64 digits;
  Some (if negative then u64 (- value) else value, rest).

(** ** The file *)

Definition kMaxMountInfoBytes : Z := 2 * 1024 * 1024.
Definition kMaxMountInfoEntries : Z := 4096.
Definition kFilesystemCapacity : Z := 64.

Definition kMountPropagationNone : Z := 0.
Definition kMountPropagationShared : Z := Z.shiftl 1 0.
Definition kMountPropagationMaster : Z := Z.shiftl 1 1.
Definition kMountPropagationUnbindable : Z := Z.shiftl 1 2.

Definition ParseUnsigned (text : bytes) : option Z :=
  match text with
  | [] => None
  | _ => match strtoull text with
         | Some (value, []) => Some value
         | _ => None
         end
  end.

Definition NextToken (cursor : bytes) : option (bytes * bytes) :=
  let fix skip s := match s with x20 :: s' => skip s' | _ => s end in
  match skip cursor with
  | [] => None
  | current =>
      match cut x20 current with
      | (token, Some rest) => Some (token, rest)
      | (token, None) => Some (token, [])
      end
  end.

Definition octal_digit (b : byte) : bool := (48 <=? byte_val b) && (byte_val b <=? 55).

(** [room] is [capacity - 1 - written]. *)
Fixpoint DecodeToken_loop (text : bytes) (room : Z) : option bytes :=
  match text with
  | [] => Some []
  | c :: rest =>
      if c == x5c then
        match rest with
        | d1 :: d2 :: d3 :: rest' =>
            if octal_digit d1 && octal_digit d2 && octal_digit d3 then
              let value := Z.lor (Z.lor (Z.shiftl (byte_val d1 - 48) 6)
                                        (Z.shiftl (byte_val d2 - 48) 3)) (byte_val d3 - 48) in
              if byte_of value == x00 then None
              else if room <=? 0 then None
              else output ← DecodeToken_loop rest' (room - 1); Some (byte_of value :: output)
            else None
        | _ => None
        end
      else if room <=? 0 then None
      else output ← DecodeToken_loop rest (room - 1); Some (c :: output)
  end.

Definition DecodeToken (text : bytes) (capacity : Z) : option bytes :=
  if capacity =? 0 then None else DecodeToken_loop text (capacity - 1).

Definition IsPathOnMount (path mountpoint : bytes) : bool :=
  match path with
  | x2f :: _ =>
      if mountpoint == lit "/" then true
      else starts_with mountpoint path
           && match drop (length mountpoint) path with
              | [] => true
              | c :: _ => c == x2f
              end
  | _ => false
  end.

Section Snapshot.
(** [makedev] of the C library. *)
Context (makedev : Z -> Z -> Z).

Record MountInfoSnapshotEntry : Type := {
  e_mount_id : Z;
  e_parent_mount_id : Z;
  e_device : Z;
  e_root : bytes;
  e_mountpoint : bytes;
  e_filesystem : bytes;
  e_propagation : Z;
}.

(** The fields the lookups read; [mapped] is [mapping != nullptr]. *)
Record MountInfoSnapshot : Type := {
  mapped : bool;
  entries : list MountInfoSnapshotEntry;
  namespace_id : Z * Z;
}.

Record MountPathIdentity : Type := {
  i_mount_id : Z;
  i_parent_mount_id : Z;
  i_device : Z;
  i_root : bytes;
  i_mountpoint : bytes;
  i_filesystem : bytes;
}.

Definition ParseDevice (text : bytes) : option Z :=
  match strtoull text with
  | Some (major, x3a :: minor_text) =>
      match strtoull minor_text with
      | Some (minor, []) => Some (makedev (u32 major) (u32 minor))
      | _ => None
      end
  | _ => None
  end.

(** The optional fields, up to the separator: the propagation and what follows. *)
Fixpoint optional_fields (fuel : nat) (cursor : bytes) (propagation : Z) : option (Z * bytes) :=
  match fuel with
  | O => None
  | S fuel =>
      match NextToken cursor with
      | None => None
      | Some (token, rest) =>
          let optional := c_str token in
          if optional == lit "-" then Some (propagation, rest)
          else if starts_with (lit "shared:") optional
          then optional_fields fuel rest (Z.lor propagation kMountPropagationShared)
          else if starts_with (lit "master:") optional
          then optional_fields fuel rest (Z.lor propagation kMountPropagationMaster)
          else if optional == lit "unbindable"
          then optional_fields fuel rest (Z.lor propagation kMountPropagationUnbindable)
          else optional_fields fuel rest propagation
      end
  end.

Definition next {A} (cursor : bytes) (k : bytes -> bytes -> option A) : option A :=
  '(token, rest) ← NextToken cursor; k (c_str token) rest.

(** One line that is not empty; [None] is [EBADMSG]. *)
Definition parse_entry (line : bytes) : option MountInfoSnapshotEntry :=
  next line (fun mount_id_text c =>
  next c (fun parent_id_text c =>
  next c (fun device_text c =>
  next c (fun root_text c =>
  next c (fun mountpoint_text c =>
  next c (fun mount_options c =>
  '(propagation, c) ← optional_fields (S (length c)) c kMountPropagationNone;
  next c (fun filesystem_text c =>
  next c (fun source_text c =>
  next c (fun super_options c =>
    mount_id ← ParseUnsigned mount_id_text;
    parent_mount_id ← ParseUnsigned parent_id_text;
    if (mount_id =? 0) || (parent_mount_id =? 0) then None
    else
      device ← ParseDevice device_text;
      _ ← DecodeToken root_text PATH_MAX;
      _ ← DecodeToken mountpoint_text PATH_MAX;
      if (filesystem_text == []) || (kFilesystemCapacity <=? size filesystem_text) then None
      else Some {| e_mount_id := mount_id; e_parent_mount_id := parent_mount_id;
                   e_device := device; e_root := root_text; e_mountpoint := mountpoint_text;
                   e_filesystem := filesystem_text; e_propagation := propagation |}))))))))).

Fixpoint parse_lines (lines : list bytes) (acc : list MountInfoSnapshotEntry)
    : outcome Z (list MountInfoSnapshotEntry) :=
  match lines with
  | [] => Ok acc
  | line :: rest =>
      if line == [] then parse_lines rest acc
      else if kMaxMountInfoEntries <=? size acc then Err EOVERFLOW
      else
        match parse_entry line with
        | None => Err EBADMSG
        | Some entry => parse_lines rest (acc ++ [entry])
        end
  end.

Definition ParseSnapshot (text : bytes) : outcome Z (list MountInfoSnapshotEntry) :=
  entries ← parse_lines (split_on x0a text) [];
  if bool_decide (entries = []) then Err ENODATA else Ok entries.

(** [CaptureMountInfoSnapshot] once the files are read: [text] is what the descriptor
    returned, up to the end of the file. *)
Definition CaptureMountInfoSnapshot (identity : Z * Z) (text : bytes) : outcome Z MountInfoSnapshot :=
  if kMaxMountInfoBytes <? size text then Err EFBIG
  else
    entries ← ParseSnapshot text;
    Ok {| mapped := true; entries := entries; namespace_id := identity |}.

(** One iteration of the loop of [FindEntry]. *)
Definition find_step (absolute_path : bytes) (exact_mountpoint : bool)
    (found : option (nat * nat)) (item : nat * MountInfoSnapshotEntry)
    : outcome Z (option (nat * nat)) :=
  let '(index, entry) := item in
  match DecodeToken (e_mountpoint entry) PATH_MAX with
  | None => Err EBADMSG
  | Some mountpoint =>
      let matches := if exact_mountpoint then mountpoint == absolute_path
                     else IsPathOnMount absolute_path mountpoint in
      let shorter := match found with
                     | Some (_, selected_length) =>
                         bool_decide (length mountpoint < selected_length)%nat
                     | None => false
                     end in
      if negb matches || (negb exact_mountpoint && shorter) then Ok found
      else Ok (Some (index, length mountpoint))
  end.

Definition enumerate {A} (l : list A) : list (nat * A) := zip (seq 0 (length l)) l.

Definition FindEntry (snapshot : MountInfoSnapshot) (absolute_path : bytes)
    (exact_mountpoint : bool) : outcome Z nat :=
  match mapped snapshot, absolute_path with
  | true, x2f :: _ =>
      found ← fold_outcome (find_step absolute_path exact_mountpoint) None
                (enumerate (entries snapshot));
      match found with
      | Some (index, _) => Ok index
      | None => Err ENOENT
      end
  | _, _ => Err EINVAL
  end.

Definition FindMountInfoPath (snapshot : MountInfoSnapshot) (absolute_path : bytes)
    (exact_mountpoint : bool) : outcome Z MountPathIdentity :=
  index ← FindEntry snapshot absolute_path exact_mountpoint;
  match entries snapshot !! index with
  | None => Oob
  | Some entry =>
      match DecodeToken (e_root entry) PATH_MAX, DecodeToken (e_mountpoint entry) PATH_MAX with
      | Some root, Some mountpoint =>
          if kFilesystemCapacity <=? size (e_filesystem entry) then Err EBADMSG
          else Ok {| i_mount_id := e_mount_id entry;
                     i_parent_mount_id := e_parent_mount_id entry; i_device := e_device entry;
                     i_root := root; i_mountpoint := mountpoint;
                     i_filesystem := e_filesystem entry |}
      | _, _ => Err EBADMSG
      end
  end.

Definition MountInfoSnapshotRequiresPrivate (snapshot : MountInfoSnapshot) (mountpoint : bytes)
    : outcome Z bool :=
  index ← FindEntry snapshot mountpoint true;
  match entries snapshot !! index with
  | None => Oob
  | Some entry =>
      Ok ((Z.land (e_propagation entry) kMountPropagationShared != 0)
          && (Z.land (e_propagation entry) kMountPropagationMaster == 0))
  end.

(** [current] is what [ReadNamespaceIdentity] reads, when it succeeds. *)
Definition MountInfoSnapshotMatchesCurrentNamespace (snapshot : MountInfoSnapshot)
    (current : option (Z * Z)) : bool :=
  mapped snapshot && bool_decide (current = Some (namespace_id snapshot)).
End Snapshot.

(** ** Lemmas: C strings and numbers *)

Lemma c_str_no_nul s : x00 ∉ s -> c_str s = s.
Proof.
  intros H. unfold c_str. pose proof (cut_spec x00 s) as C.
  destruct (cut x00 s) as [part [rest|]]; cbn; destruct C as [E _]; [|done]. exfalso. apply H.
  rewrite E. apply elem_of_app. right. left.
Qed.

Lemma digit_not_space b : is_digit b = true -> is_c_space b = false.
Proof. by destruct b. Qed.

Lemma skip_space_digits b s : is_digit b = true -> skip_space (b :: s) = b :: s.
Proof. intros Hb. cbn. by rewrite digit_not_space. Qed.

Lemma c_sign_digits b s : is_digit b = true -> c_sign (b :: s) = (false, b :: s).
Proof. by destruct b. Qed.

Lemma span_digits_app u rest :
  forallb is_digit u = true -> match rest with b :: _ => is_digit b = false | [] => True end ->
  span_digits (u ++ rest) = (u, rest).
Proof.
  intros Hu Hr. induction u as [|b u IH]; cbn [app].
  - destruct rest as [|b rest]; [done|]. cbn. by rewrite Hr.
  - cbn in Hu. apply andb_true_iff in Hu as [Hb Hu]. cbn. by rewrite Hb, IH.
Qed.

(** ** Lemmas: the table a capture leaves *)

Section Table.
Context (makedev : Z -> Z -> Z).

Lemma size_pos {A} (l : list A) : l <> [] -> 0 < size l.
Proof. destruct l; [done|]. intros _. rewrite size_cons. pose proof (size_nonneg l). lia. Qed.

Definition entry_ok (e : MountInfoSnapshotEntry) : Prop :=
  is_Some (DecodeToken (e_root e) PATH_MAX) /\ is_Some (DecodeToken (e_mountpoint e) PATH_MAX)
  /\ 0 < size (e_filesystem e) < kFilesystemCapacity
  /\ 0 < e_mount_id e < 2 ^ 64 /\ 0 < e_parent_mount_id e < 2 ^ 64.

Lemma next_Some {A} cursor (k : bytes -> bytes -> option A) a :
  next cursor k = Some a -> exists token rest, k (c_str token) rest = Some a.
Proof. unfold next. intros ([token rest] & _ & H)%bind_Some. eauto. Qed.

Lemma ParseUnsigned_range text v : ParseUnsigned text = Some v -> 0 <= v < 2 ^ 64.
Proof.
  unfold ParseUnsigned. destruct text as [|b text]; [done|].
  unfold strtoull. destruct (c_sign (skip_space (b :: text))) as [negative s].
  destruct (span_digits s) as [digits rest].
  destruct (from_chars 64 digits) as [value|] eqn:E; cbn [mbind option_bind]; [|done].
  apply from_chars_range in E. destruct rest; [|done]. intros [= <-].
  destruct negative; [apply u64_range|done].
Qed.

Lemma parse_entry_ok line e : parse_entry makedev line = Some e -> entry_ok e.
Proof.
  unfold parse_entry. intros H.
  do 6 (apply next_Some in H as (? & ? & H)). apply bind_Some in H as ([? ?] & _ & H).
  do 3 (apply next_Some in H as (? & ? & H)).
  apply bind_Some in H as (id & Hid & H). apply bind_Some in H as (parent & Hparent & H).
  destruct ((id =? 0) || _) eqn:Ez; [done|]. apply bind_Some in H as (device & _ & H).
  apply bind_Some in H as (root & Hroot & H). apply bind_Some in H as (mp & Hmp & H).
  destruct ((_ == []) || _) eqn:Efs; [done|]. injection H as <-. split_tests.
  apply ParseUnsigned_range in Hid, Hparent. unfold entry_ok. cbn.
  split_and!; eauto; try lia. by apply size_pos.
Qed.

Lemma parse_lines_ok lines acc entries :
  Forall entry_ok acc -> size acc <= kMaxMountInfoEntries ->
  parse_lines makedev lines acc = Ok entries ->
  Forall entry_ok entries /\ size entries <= kMaxMountInfoEntries.
Proof.
  revert acc. induction lines as [|line lines IH]; intros acc Ha Hs H; cbn [parse_lines] in H.
  { by injection H as <-. }
  case_bool_decide; [by apply (IH acc)|].
  destruct (Z.leb_spec kMaxMountInfoEntries (size acc)) as [|Hlt]; [done|].
  destruct (parse_entry makedev line) as [e|] eqn:E; [|done].
  apply (IH (acc ++ [e])); [|rewrite size_app, size_cons, size_nil; lia|done].
  apply Forall_app. split; [done|]. apply Forall_singleton. by eapply parse_entry_ok.
Qed.

Lemma CaptureMountInfoSnapshot_ok identity text s :
  CaptureMountInfoSnapshot makedev identity text = Ok s ->
  mapped s = true /\ entries s <> [] /\ size (entries s) <= kMaxMountInfoEntries
  /\ Forall entry_ok (entries s) /\ namespace_id s = identity.
Proof.
  unfold CaptureMountInfoSnapshot, ParseSnapshot. destruct (_ <? _); [done|].
  intros H.
  apply bind_Ok in H as (l & H & [= <-]). apply bind_Ok in H as (l' & Hl & Hne). cbn.
  apply parse_lines_ok in Hl; [|constructor|done].
  case_bool_decide; [done|]. injection Hne as <-. split_and!; (done || apply Hl).
Qed.

Definition decoded_mountpoint (e : MountInfoSnapshotEntry) : bytes :=
  default [] (DecodeToken (e_mountpoint e) PATH_MAX).

(** The entry is a candidate for the path. *)
Definition covers (path : bytes) (exact : bool) (e : MountInfoSnapshotEntry) : bool :=
  if exact then decoded_mountpoint e == path else IsPathOnMount path (decoded_mountpoint e).

(** One iteration over an entry that decodes. *)
Definition pure_step (path : bytes) (exact : bool) (found : option (nat * nat))
    (item : nat * MountInfoSnapshotEntry) : option (nat * nat) :=
  let '(index, e) := item in
  let shorter := match found with
                 | Some (_, selected) => bool_decide (length (decoded_mountpoint e) < selected)%nat
                 | None => false
                 end in
  if negb (covers path exact e) || (negb exact && shorter) then found
  else Some (index, length (decoded_mountpoint e)).

Lemma find_step_pure path exact found index e :
  entry_ok e -> find_step path exact found (index, e) = Ok (pure_step path exact found (index, e)).
Proof.
  intros (_ & [mp Hmp] & _). unfold find_step, pure_step, covers, decoded_mountpoint.
  rewrite Hmp. cbn [default]. cbv zeta. by destruct (negb (if exact then _ else _) || _).
Qed.

Lemma find_fold_pure path exact items found :
  Forall entry_ok (items.*2) ->
  fold_outcome (find_step path exact) found items = Ok (fold_left (pure_step path exact) items found).
Proof.
  revert found. induction items as [|[index e] items IH]; intros found H; [done|].
  cbn in H. apply Forall_cons in H as [He H]. cbn [fold_outcome fold_left].
  rewrite (find_step_pure path exact found index e He). cbn [mbind outcome_bind]. by apply IH.
Qed.

(** The selection among the first [n] entries. *)
Definition best (path : bytes) (exact : bool) (l : list MountInfoSnapshotEntry)
    (found : option (nat * nat)) : Prop :=
  match found with
  | None => forall i e, l !! i = Some e -> covers path exact e = false
  | Some (i, len) =>
      exists e, l !! i = Some e /\ covers path exact e = true /\ len = length (decoded_mountpoint e)
      /\ forall j e', l !! j = Some e' -> covers path exact e' = true ->
           if exact then (j <= i)%nat
           else (length (decoded_mountpoint e') < len \/ length (decoded_mountpoint e') = len /\ j <= i)%nat
  end.

Lemma enumerate_snoc {A} (l : list A) x : enumerate (l ++ [x]) = enumerate l ++ [(length l, x)].
Proof.
  unfold enumerate. rewrite length_app, seq_app. cbn. rewrite zip_with_app by (by rewrite length_seq).
  done.
Qed.

Lemma lookup_snoc_cases {A} (l : list A) x i y :
  (l ++ [x]) !! i = Some y -> l !! i = Some y \/ i = length l /\ y = x.
Proof.
  intros [H|[Hle H]]%lookup_app_Some; [by left|right].
  apply list_lookup_singleton_Some in H as [Hi <-]. split; [lia|done].
Qed.

Lemma find_best path exact l :
  best path exact l (fold_left (pure_step path exact) (enumerate l) None).
Proof.
  induction l as [|e l IH] using rev_ind; [done|].
  rewrite enumerate_snoc, fold_left_app. cbn [fold_left].
  set (found := fold_left _ _ _) in *. unfold pure_step at 1.
  assert (forall i e', l !! i = Some e' -> (i < length l)%nat) as Hlt
    by (intros; by eapply lookup_lt_Some).
  destruct (covers path exact e) eqn:Ec; cbn [negb orb].
  - destruct (negb exact && _) eqn:Es.
    + apply andb_true_iff in Es as [->%negb_true_iff Es]. destruct found as [[i len]|]; [|done].
      apply bool_decide_eq_true in Es. destruct IH as (e' & Hi & Hc & Hl & Hall).
      exists e'. split_and!; [by apply lookup_app_l_Some|done|done|].
      intros j x [Hj|[-> ->]]%lookup_snoc_cases Hx; [by apply Hall|]. left. lia.
    + exists e. split_and!; [by apply list_lookup_middle|done|done|].
      intros j x [Hj|[-> ->]]%lookup_snoc_cases Hx; [|destruct exact; lia].
      pose proof (Hlt _ _ Hj). destruct exact; [lia|]. cbn [negb andb] in Es.
      destruct found as [[i len]|]; [|by rewrite (IH j x Hj) in Hx].
      destruct IH as (e' & Hi & Hc & -> & Hall). apply bool_decide_eq_false in Es.
      destruct (Hall j x Hj Hx) as [|[]]; lia.
  - destruct found as [[i len]|].
    + destruct IH as (e' & Hi & Hc & Hl & Hall).
      exists e'. split_and!; [by apply lookup_app_l_Some|done|done|].
      intros j x [Hj|[-> ->]]%lookup_snoc_cases Hx; [by apply Hall|congruence].
    + intros j x [Hj|[-> ->]]%lookup_snoc_cases; [by eapply IH|done].
Qed.

Lemma FindEntry_spec s path exact :
  mapped s = true -> Forall entry_ok (entries s) ->
  match FindEntry s path exact with
  | Ok i => exists e, entries s !! i = Some e /\ covers path exact e = true
      /\ forall j e', entries s !! j = Some e' -> covers path exact e' = true ->
           if exact then (j <= i)%nat
           else (length (decoded_mountpoint e') < length (decoded_mountpoint e)
                 \/ length (decoded_mountpoint e') = length (decoded_mountpoint e) /\ j <= i)%nat
  | Err e => e = EINVAL /\ head path <> Some x2f
             \/ e = ENOENT /\ forall e', e' ∈ entries s -> covers path exact e' = false
  | Oob => False
  end.
Proof.
  intros Hm Hok. unfold FindEntry. rewrite Hm.
  destruct path as [|c path]; [by left|]. destruct (decide (c = x2f)) as [->|Hc].
  2: { destruct c; try done; left; (split; [done|intros [= E]; congruence]). }
  rewrite find_fold_pure.
  2: { unfold enumerate. rewrite snd_zip by (by rewrite length_seq). done. }
  cbn [mbind outcome_bind]. pose proof (find_best (x2f :: path) exact (entries s)) as Hb.
  destruct (fold_left _ _ _) as [[i len]|].
  - destruct Hb as (e & Hi & Hcov & -> & Hall). eauto.
  - right. split; [done|]. intros e' [j Hj]%list_elem_of_lookup. by eapply Hb.
Qed.
End Table.

(** What [FindMountInfoPath] reports of an entry. *)
Definition identity_of (e : MountInfoSnapshotEntry) : MountPathIdentity :=
  {| i_mount_id := e_mount_id e; i_parent_mount_id := e_parent_mount_id e;
     i_device := e_device e; i_root := default [] (DecodeToken (e_root e) PATH_MAX);
     i_mountpoint := decoded_mountpoint e; i_filesystem := e_filesystem e |}.

(** The entry a lookup selects. *)
Definition selected (s : MountInfoSnapshot) (path : bytes) (exact : bool) (i : nat)
    (e : MountInfoSnapshotEntry) : Prop :=
  entries s !! i = Some e /\ covers path exact e = true
  /\ forall j e', entries s !! j = Some e' -> covers path exact e' = true ->
       if exact then (j <= i)%nat
       else (length (decoded_mountpoint e') < length (decoded_mountpoint e)
             \/ length (decoded_mountpoint e') = length (decoded_mountpoint e) /\ j <= i)%nat.

Lemma FindMountInfoPath_spec s path exact :
  mapped s = true -> Forall entry_ok (entries s) ->
  match FindMountInfoPath s path exact with
  | Ok found => exists i e, selected s path exact i e /\ found = identity_of e
  | Err e => e = EINVAL /\ head path <> Some x2f
             \/ e = ENOENT /\ forall e', e' ∈ entries s -> covers path exact e' = false
  | Oob => False
  end.
Proof.
  intros Hm Hok. pose proof (FindEntry_spec s path exact Hm Hok) as F. unfold FindMountInfoPath.
  destruct (FindEntry s path exact) as [i|err|]; cbn [mbind outcome_bind]; [|done|done].
  destruct F as (e & Hi & Hc & Hall). rewrite Hi.
  assert (entry_ok e) as ([root Hr] & [mp Hmp] & Hfs & _).
  { rewrite Forall_forall in Hok. apply Hok. by eapply list_elem_of_lookup_2. }
  rewrite Hr, Hmp. destruct (Z.leb_spec kFilesystemCapacity (size (e_filesystem e))); [lia|].
  exists i, e. split; [done|]. unfold identity_of, decoded_mountpoint. by rewrite Hr, Hmp.
Qed.

Lemma IsPathOnMount_descendant path mountpoint :
  head path = Some x2f -> mountpoint <> lit "/" ->
  IsPathOnMount path mountpoint = IsPathOrDescendant path mountpoint.
Proof.
  intros Hp Hm. apply eq_true_iff_eq. rewrite IsPathOrDescendant_true.
  destruct path as [|c path]; [done|]. injection Hp as ->. unfold IsPathOnMount.
  rewrite (bool_decide_eq_false_2 (mountpoint = lit "/")) by done.
  rewrite andb_true_iff, starts_with_spec. split.
  - intros [[r E] Hd]. rewrite E, drop_app_length in Hd. rewrite E.
    destruct r as [|c r]; [left; by rewrite app_nil_r|right].
    apply bool_decide_eq_true in Hd as ->. eauto.
  - intros [->|[r ->]].
    + split; [exists []; by rewrite app_nil_r|]. by rewrite drop_all.
    + split; [eauto|]. rewrite drop_app_length. by apply bool_decide_eq_true.
Qed.

(** ** Properties *)

(** Every captured table is usable: it has between one and 4096 entries, every
    entry has non-zero 64-bit identifiers, names that decode and a file-system type
    that fits, so no lookup in it can fail to decode. *)
Theorem capture_snapshot_wellformed makedev identity text s :
  CaptureMountInfoSnapshot makedev identity text = Ok s ->
  0 < size (entries s) <= kMaxMountInfoEntries /\ Forall entry_ok (entries s)
  /\ MountInfoSnapshotMatchesCurrentNamespace s (Some identity) = true.
Proof.
  intros H. apply CaptureMountInfoSnapshot_ok in H as (Hm & Hne & Hs & Hok & Hid).
  split_and!; [by apply size_pos|done|done|].
  unfold MountInfoSnapshotMatchesCurrentNamespace. rewrite Hm, Hid. by apply bool_decide_eq_true.
Qed.

(** [FindMountInfoPath] on a captured table finds the mount the path lives on:
    the entry with the longest covering mountpoint, and among equals the one mounted
    last; with [exact_mountpoint] the last entry mounted exactly there. When it finds
    none it says [ENOENT] and no entry covers the path. *)
Theorem find_mount_info_path_longest makedev identity text s path exact :
  CaptureMountInfoSnapshot makedev identity text = Ok s -> head path = Some x2f ->
  match FindMountInfoPath s path exact with
  | Ok found => exists i e, selected s path exact i e /\ found = identity_of e
  | Err e => e = ENOENT /\ forall e', e' ∈ entries s -> covers path exact e' = false
  | Oob => False
  end.
Proof.
  intros H Hp. apply CaptureMountInfoSnapshot_ok in H as (Hm & _ & _ & Hok & _).
  pose proof (FindMountInfoPath_spec s path exact Hm Hok) as F.
  destruct (FindMountInfoPath s path exact); tauto.
Qed.

Lemma DecodeToken_loop_agrees text path room :
  DecodeMountInfoPath text = Some path -> size path <= room ->
  DecodeToken_loop text room = Some path.
Proof.
  remember (length text) as n eqn:En. revert text path room En.
  induction n as [n IH] using lt_wf_ind. intros [|c text] path room En H Hs.
  { done. }
  cbn [DecodeMountInfoPath DecodeToken_loop] in *.
  destruct (decide (c = x5c)) as [->|Hc].
  - rewrite bool_decide_eq_true_2 in * by done. cbn [negb] in H.
    destruct text as [|d1 [|d2 [|d3 rest]]]; try done.
    unfold is_octal in H. unfold octal_digit.
    destruct (_ && _ && _) eqn:Ed; [|done]. cbv zeta in *.
    destruct (_ || _) eqn:Ev in H; [done|]. split_tests.
    apply bind_Some in H as (out & Hout & [= <-]). rewrite size_cons in Hs.
    pose proof (size_nonneg out).
    set (v := Z.lor _ _) in *.
    rewrite bool_decide_eq_false_2.
    2: { intros E. apply (f_equal byte_val) in E. rewrite byte_val_of in E. change (byte_val x00) with 0 in E.
      assert (0 <= v) by (subst v; apply Z.lor_nonneg; split; [apply Z.lor_nonneg; split; apply Z.shiftl_nonneg|]; lia).
      rewrite Z.mod_small in E by lia. lia. }
    destruct (Z.leb_spec room 0); [lia|].
    rewrite (IH (length rest)) with (path := out); try done; cbn in En; lia.
  - rewrite bool_decide_eq_false_2 in * by done. cbn [negb] in H.
    apply bind_Some in H as (out & Hout & [= <-]). rewrite size_cons in Hs.
    pose proof (size_nonneg out). destruct (Z.leb_spec room 0); [lia|].
    rewrite (IH (length text)) with (path := out); try done; cbn in En; lia.
Qed.

(** The two decoders of mountinfo paths agree: what [DecodeMountInfoPath] of the
    topology accepts, [DecodeToken] of the snapshot decodes to the same path as soon
    as the buffer has room for it and its terminator. *)
Theorem decode_token_agrees text path capacity :
  DecodeMountInfoPath text = Some path -> size path < capacity ->
  DecodeToken text capacity = Some path.
Proof.
  intros H Hs. pose proof (size_nonneg path). unfold DecodeToken.
  destruct (Z.eqb_spec capacity 0); [lia|]. apply DecodeToken_loop_agrees; [done|lia].
Qed.

(** ** Witnesses *)

Definition sample_makedev (major minor : Z) : Z := major * 2 ^ 20 + minor.

Definition sample_text : bytes :=
  lit "21 1 8:1 / / rw shared:1 - ext4 /dev/root rw" ++ [x0a]
  ++ lit "30 21 0:40 / /storage/emulated rw,nosuid shared:2 master:1 - fuse /dev/fuse rw" ++ [x0a]
  ++ lit "31 30 0:40 /0 /storage/emulated/0/My\040Files rw - fuse /dev/fuse rw" ++ [x0a].

Definition sample_snapshot : MountInfoSnapshot :=
  match CaptureMountInfoSnapshot sample_makedev (4, 7) sample_text with
  | Ok s => s
  | _ => {| mapped := false; entries := []; namespace_id := (0, 0) |}
  end.

Lemma sample_captures :
  CaptureMountInfoSnapshot sample_makedev (4, 7) sample_text = Ok sample_snapshot.
Proof. vm_compute. reflexivity. Qed.

Lemma capture_snapshot_wellformed_witness :
  0 < size (entries sample_snapshot) <= kMaxMountInfoEntries.
Proof. apply (capture_snapshot_wellformed sample_makedev (4, 7) sample_text), sample_captures. Defined.

Lemma find_mount_info_path_longest_witness :
  exists i e, selected sample_snapshot (lit "/storage/emulated/0") false i e /\ e_mount_id e = 30.
Proof.
  assert (match FindMountInfoPath sample_snapshot (lit "/storage/emulated/0") false with
          | Ok found => i_mount_id found = 30 | _ => False end) as E by (vm_compute; reflexivity).
  pose proof (find_mount_info_path_longest sample_makedev (4, 7) sample_text sample_snapshot
    (lit "/storage/emulated/0") false sample_captures eq_refl) as H.
  destruct (FindMountInfoPath sample_snapshot _ false) as [found| |]; [|destruct E..].
  destruct H as (i & e & Hs & ->). exists i, e. exact (conj Hs E).
Defined.

Lemma decode_token_agrees_witness :
  DecodeToken (lit "/My\040Files") 10 = Some (lit "/My Files").
Proof. apply decode_token_agrees; vm_compute; reflexivity. Defined.
