(* ===== verification/Binary.v ===== *)
(** * Binary policy encoding (core/src/binary.cpp)

    [EncodePolicy] and [DecodePolicy] with everything they call. Appending to a
    [std::vector<uint8_t>] is list append; a read through a pointer is a read of
    the input at an offset, [Oob] outside it. A routine that receives a
    [ParseError*] is [checked]. *)

From S2P Require Import Prelude Policy Validation PolicyFormat.

Local Open Scope pg_scope.

Definition Fail {A} (message : bytes) : checked A := fail_at 0 message.

(** [if (bad) return Fail(error, message);] *)
Definition fail_if (bad : bool) (message : bytes) : checked unit :=
  if bad then Fail message else Ok ().

(** The same for a helper that returns [false] through an out parameter. *)
Definition require {A} (message : bytes) (result : option A) : checked A :=
  match result with Some a => Ok a | None => Fail message end.

Definition Put8 (output : bytes) (value : Z) : bytes := output ++ le_bytes 1 value.
Definition Put16 (output : bytes) (value : Z) : bytes := output ++ le_bytes 2 value.
Definition Put32 (output : bytes) (value : Z) : bytes := output ++ le_bytes 4 value.
Definition Put64 (output : bytes) (value : Z) : bytes := output ++ le_bytes 8 value.

Definition Store32 {E} (output : bytes) (offset value : Z) : outcome E bytes :=
  if (0 <=? offset) && (offset + 4 <=? size output)
  then Ok (take (Z.to_nat offset) output ++ le_bytes 4 value
           ++ drop (Z.to_nat (offset + 4)) output)
  else Oob.

Definition Read16 {E} (input : bytes) (offset : Z) : outcome E Z := read_le 2 input offset.
Definition Read32 {E} (input : bytes) (offset : Z) : outcome E Z := read_le 4 input offset.
Definition Read64 {E} (input : bytes) (offset : Z) : outcome E Z := read_le 8 input offset.

Definition PutCanonicalString (output value : bytes) : bytes :=
  Put32 output (size value) ++ value.

(** The two loops that append a counted list to the canonical plan. *)
Definition put_canonical_mount (output : bytes) (rule : LogicalMountRule) : bytes :=
  let output := Put8 output (mount_action_value (m_action rule)) in
  let output := Put16 output (m_depth rule) in
  let output := Put16 output (m_flags rule) in
  let output := PutCanonicalString output (m_visible_path rule) in
  PutCanonicalString output (m_backing_path rule).

Definition put_canonical_event (output : bytes) (rule : EventRule) : bytes :=
  let output := Put8 output (event_action_value (e_action rule)) in
  let output := Put32 output (e_options rule) in
  let output := PutCanonicalString output (e_source_path rule) in
  PutCanonicalString output (e_target_path rule).

Definition CanonicalPlan (policy : AppPolicy) (failure_mode : FailureMode)
    (allow_legacy_string_bind : bool) : bytes :=
  let output := lit "PGPL5" ++ [x00] in
  let output := Put8 output (failure_mode_value failure_mode) in
  let output := Put8 output (media_compat_value (media_compat policy)) in
  let output := Put8 output (provider_compat_value (provider_compat policy)) in
  let output := Put8 output (if allow_legacy_string_bind then 1 else 0) in
  let output := PutCanonicalString output (package policy) in
  let output := Put32 output (size (users policy)) in
  let output := fold_left PutCanonicalString (users policy) output in
  let output := Put32 output (size (processes policy)) in
  let output := fold_left PutCanonicalString (processes policy) output in
  let output := Put32 output (size (mounts policy)) in
  let output := fold_left put_canonical_mount (mounts policy) output in
  let output := Put32 output (size (events policy)) in
  fold_left put_canonical_event (events policy) output.

Definition PlanGeneration (policy : AppPolicy) (failure_mode : FailureMode)
    (allow_legacy_string_bind : bool) : Z :=
  Fnv1a64 (CanonicalPlan policy failure_mode allow_legacy_string_bind).

Definition put_plan (document : PolicyDocument) (output : bytes) (app : AppPolicy) : bytes :=
  let plan := CanonicalPlan app (failure_mode document) (allow_legacy_string_bind document) in
  Put32 output (size plan) ++ plan.

Definition ContentGeneration (document : PolicyDocument) : Z :=
  let apps := sort_by package (apps document) in
  let output := lit "PGIR5" ++ [x00] in
  let output := Put16 output (schema document) in
  let output := Put8 output (failure_mode_value (failure_mode document)) in
  let output := Put8 output (if allow_legacy_string_bind document then 1 else 0) in
  let output := Put32 output (size apps) in
  Fnv1a64 (fold_left (put_plan document) apps output).

Definition Join (values : list bytes) : bytes := join_with x2c values.

(** The loop fails at the first empty item; a string always has an item. *)
Definition Split (value : bytes) : option (list bytes) :=
  let items := split_on x2c value in
  if existsb (fun item => item == []) items then None else Some items.

Record StringTable : Type := {
  offsets_ : gmap bytes Z;
  bytes_ : bytes;
}.

(** [StringTable::Add]: the offset and the table after the call. *)
Definition Add (table : StringTable) (value : bytes) : Z * StringTable :=
  match offsets_ table !! value with
  | Some offset => (offset, table)
  | None =>
      let offset := u32 (size (bytes_ table)) in
      (offset, {| offsets_ := <[value := offset]> (offsets_ table);
                  bytes_ := bytes_ table ++ value ++ [x00] |})
  end.

(** The constructor adds the empty string. *)
Definition NewStringTable : StringTable := (Add {| offsets_ := ∅; bytes_ := [] |} []).2.

Definition ReadString {E} (input : bytes) (string_offset relative_offset : Z)
    : outcome E (option bytes) :=
  if (size input <? string_offset) || (size input - string_offset <=? relative_offset)
  then Ok None
  else
    let start := u32 (string_offset + relative_offset) in
    if size input <? start then Oob
    else
      match cut x00 (drop (Z.to_nat start) input) with
      | (value, Some _) => Ok (Some value)
      | (_, None) => Ok None
      end.

Definition SameMount (lhs rhs : LogicalMountRule) : bool :=
  (m_action lhs == m_action rhs) && (m_visible_path lhs == m_visible_path rhs)
  && (m_backing_path lhs == m_backing_path rhs) && (m_depth lhs == m_depth rhs)
  && (m_flags lhs == m_flags rhs).

Definition SameEvent (lhs rhs : EventRule) : bool :=
  (e_action lhs == e_action rhs) && (e_source_path lhs == e_source_path rhs)
  && (e_target_path lhs == e_target_path rhs) && (e_options lhs == e_options rhs).

(** The loop of [CanonicalizeDocument]. *)
Fixpoint canonicalize_apps (packages : gset bytes) (apps : list AppPolicy)
    : checked (list AppPolicy) :=
  match apps with
  | [] => Ok []
  | app :: rest =>
      _ ← fail_if (bool_decide (package app ∈ packages)) (lit "duplicate package");
      app ← ValidatePolicy app;
      _ ← fail_if (media_compat app != MediaCompat_kOff)
            (lit "media compatibility is not executable in redirect-only R1");
      _ ← fail_if (existsb (fun rule => (m_action rule != kRedirect) && (m_action rule != kDeny))
                     (mounts app))
            (lit "mount action is not executable in Phase R1");
      _ ← fail_if (events app != []) (lit "event action is not executable before Phase R4");
      rest' ← canonicalize_apps ({[package app]} ∪ packages) rest;
      Ok (app :: rest')
  end.

Definition CanonicalizeDocument (input : PolicyDocument) : checked PolicyDocument :=
  _ ← fail_if ((schema input != kSchemaVersion)
               || (failure_mode input != FailureMode_kOpen) || (apps input == []))
        (lit "policy document is not executable schema 2");
  apps' ← canonicalize_apps ∅ (apps input);
  Ok {| schema := schema input; failure_mode := failure_mode input;
        allow_legacy_string_bind := allow_legacy_string_bind input; apps := apps' |}.

Definition ComputeContentGeneration (document : PolicyDocument) : Z :=
  match CanonicalizeDocument document with
  | Ok canonical => ContentGeneration canonical
  | _ => 0
  end.

Definition ComputePlanGeneration (policy : AppPolicy) (failure_mode : FailureMode)
    (allow_legacy_string_bind : bool) : Z :=
  if failure_mode != FailureMode_kOpen then 0
  else
    match ValidatePolicy policy with
    | Ok canonical => PlanGeneration canonical failure_mode allow_legacy_string_bind
    | _ => 0
    end.

(** ** EncodePolicy *)

(** The order of the package table. *)
Definition package_key (app : AppPolicy) : Z * bytes :=
  (PackageNameHash (package app), package app).

(** The local state of the loop that writes the tables. *)
Record EncodeState : Type := {
  out_packages : bytes;
  out_mounts : bytes;
  out_events : bytes;
  strings : StringTable;
  first_mount : Z;
  first_event : Z;
}.

Definition encode_mount (state : bytes * StringTable) (rule : LogicalMountRule)
    : bytes * StringTable :=
  let '(output, table) := state in
  let output := Put8 output (mount_action_value (m_action rule)) in
  let output := Put8 output 0 in
  let output := Put16 output (m_depth rule) in
  let output := Put16 output (m_flags rule) in
  let output := Put16 output 0 in
  let '(visible, table) := Add table (m_visible_path rule) in
  let output := Put32 output visible in
  let '(backing, table) := Add table (m_backing_path rule) in
  (Put32 output backing, table).

Definition encode_event (state : bytes * StringTable) (rule : EventRule)
    : bytes * StringTable :=
  let '(output, table) := state in
  let output := Put8 output (event_action_value (e_action rule)) in
  let output := Put8 output 0 in
  let output := Put16 output 0 in
  let '(source, table) := Add table (e_source_path rule) in
  let output := Put32 output source in
  let '(target, table) := Add table (e_target_path rule) in
  let output := Put32 output target in
  (Put32 output (e_options rule), table).

(** One iteration of the loop over the sorted packages. *)
Definition encode_app (document : PolicyDocument) (state : EncodeState) (app : AppPolicy)
    : EncodeState :=
  let output := Put32 (out_packages state) (PackageNameHash (package app)) in
  let '(name, table) := Add (strings state) (package app) in
  let output := Put32 output name in
  let '(user_list, table) := Add table (Join (users app)) in
  let output := Put32 output user_list in
  let '(process_list, table) := Add table (Join (processes app)) in
  let output := Put32 output process_list in
  let output := Put32 output (first_mount state) in
  let output := Put32 output (size (mounts app)) in
  let output := Put32 output (first_event state) in
  let output := Put32 output (size (events app)) in
  let output := Put64 output (PlanGeneration app (failure_mode document)
                                (allow_legacy_string_bind document)) in
  let output := Put8 output (failure_mode_value (failure_mode document)) in
  let output := Put8 output (media_compat_value (media_compat app)) in
  let output := Put8 output (provider_compat_value (provider_compat app)) in
  let output := Put8 output 0 in
  let output := Put32 output 0 in
  let '(mount_table, table) := fold_left encode_mount (mounts app) (out_mounts state, table) in
  let '(event_table, table) := fold_left encode_event (events app) (out_events state, table) in
  {| out_packages := output; out_mounts := mount_table; out_events := event_table;
     strings := table;
     first_mount := u32 (first_mount state + size (mounts app));
     first_event := u32 (first_event state + size (events app)) |}.

Definition new_encode_state : EncodeState :=
  {| out_packages := []; out_mounts := []; out_events := []; strings := NewStringTable;
     first_mount := 0; first_event := 0 |}.

(** The header, with a zero checksum. *)
Definition encode_header (document : PolicyDocument)
    (file_size package_count mount_count event_count mount_offset event_offset string_offset : Z)
    : bytes :=
  let output := Put32 [] kMagic in
  let output := Put16 output kFormatVersion in
  let output := Put16 output kSchemaVersion in
  let output := Put32 output file_size in
  let output := Put32 output 0 in
  let output := Put64 output (ContentGeneration document) in
  let output := Put32 output package_count in
  let output := Put32 output mount_count in
  let output := Put32 output event_count in
  let output := Put32 output kHeaderSize in
  let output := Put32 output mount_offset in
  let output := Put32 output event_offset in
  let output := Put32 output string_offset in
  Put32 output (if allow_legacy_string_bind document
                then kPolicyFlagAllowLegacyStringBind else 0).

Definition total_size {A} (field : AppPolicy -> list A) (apps : list AppPolicy) : Z :=
  fold_left (fun count app => u64 (count + size (field app))) apps 0.

Definition EncodePolicy (document : PolicyDocument) : checked bytes :=
  canonical ← CanonicalizeDocument document;
  let mount_count := total_size mounts (apps canonical) in
  let event_count := total_size events (apps canonical) in
  _ ← fail_if ((2 ^ 32 - 1 <? size (apps canonical)) || (2 ^ 32 - 1 <? mount_count)
               || (2 ^ 32 - 1 <? event_count)) (lit "policy table count overflow");
  let apps := sort_by package_key (apps canonical) in
  let state := fold_left (encode_app canonical) apps new_encode_state in
  let file_size := kHeaderSize + size (out_packages state) + size (out_mounts state)
                   + size (out_events state) + size (bytes_ (strings state)) in
  _ ← fail_if (2 ^ 32 - 1 <? file_size) (lit "policy file too large");
  let mount_offset := u32 (kHeaderSize + size (out_packages state)) in
  let event_offset := u32 (mount_offset + size (out_mounts state)) in
  let string_offset := u32 (event_offset + size (out_events state)) in
  let output := encode_header canonical file_size (size apps) mount_count event_count
                  mount_offset event_offset string_offset in
  let output := output ++ out_packages state ++ out_mounts state ++ out_events state
                ++ bytes_ (strings state) in
  let checksum := Crc32 (drop (Z.to_nat kHeaderSize) output) in
  Store32 output kPayloadChecksumOffset checksum.

(** ** DecodePolicy *)

Record Header : Type := {
  h_magic : Z;
  h_version : Z;
  h_schema : Z;
  h_file_size : Z;
  h_checksum : Z;
  h_package_count : Z;
  h_mount_count : Z;
  h_event_count : Z;
  h_package_offset : Z;
  h_mount_offset : Z;
  h_event_offset : Z;
  h_string_offset : Z;
  h_flags : Z;
}.

Definition read_header (input : bytes) : checked Header :=
  file_size ← Read32 input kFileSizeOffset;
  checksum ← Read32 input kPayloadChecksumOffset;
  package_count ← Read32 input kPackageCountOffset;
  mount_count ← Read32 input kMountRuleCountOffset;
  event_count ← Read32 input kEventRuleCountOffset;
  package_offset ← Read32 input kPackageTableOffset;
  mount_offset ← Read32 input kMountRuleTableOffset;
  event_offset ← Read32 input kEventRuleTableOffset;
  string_offset ← Read32 input kStringTableOffset;
  flags ← Read32 input kHeaderFlagsOffset;
  magic ← Read32 input 0;
  version ← Read16 input 4;
  schema ← Read16 input 6;
  Ok {| h_magic := magic; h_version := version; h_schema := schema;
        h_file_size := file_size; h_checksum := checksum;
        h_package_count := package_count; h_mount_count := mount_count;
        h_event_count := event_count; h_package_offset := package_offset;
        h_mount_offset := mount_offset; h_event_offset := event_offset;
        h_string_offset := string_offset; h_flags := flags |}.

(** The condition under which the header is refused. *)
Definition bad_header (input : bytes) (h : Header) : bool :=
  let expected_mount_offset := kHeaderSize + h_package_count h * kPackageSize in
  let expected_event_offset := expected_mount_offset + h_mount_count h * kMountRuleSize in
  let expected_string_offset := expected_event_offset + h_event_count h * kEventRuleSize in
  (h_magic h != kMagic) || (h_version h != kFormatVersion) || (h_schema h != kSchemaVersion)
  || (h_file_size h != size input) || (h_package_count h == 0)
  || (h_package_offset h != kHeaderSize) || (h_mount_offset h != expected_mount_offset)
  || (h_event_offset h != expected_event_offset)
  || (h_string_offset h != expected_string_offset)
  || (size input <=? h_string_offset h)
  || (Z.land (h_flags h) (u32 (Z.lnot kPolicyFlagAllowLegacyStringBind)) != 0)
  || (Crc32 (drop (Z.to_nat kHeaderSize) input) != h_checksum h).

(** [ReadString(input, string_offset, Read32(data + offset), &out)] *)
Definition read_string_at (input : bytes) (h : Header) (offset : Z) (message : bytes)
    : checked bytes :=
  relative ← Read32 input offset;
  result ← ReadString input (h_string_offset h) relative;
  require message result.

Definition decode_mount (input : bytes) (h : Header) (rule : Z) : checked LogicalMountRule :=
  reserved ← read_byte input (rule + 1);
  reserved16 ← Read16 input (rule + 6);
  action ← read_byte input (rule + kMountActionOffset);
  _ ← fail_if ((reserved != 0) || (reserved16 != 0) || (mount_action_value kIsolateRoot <? action))
        (lit "invalid mount action");
  depth ← Read16 input (rule + kMountDepthOffset);
  flags ← Read16 input (rule + kMountFlagsOffset);
  visible ← read_string_at input h (rule + kMountVisiblePathOffset) (lit "invalid mount strings");
  backing ← read_string_at input h (rule + kMountBackingPathOffset) (lit "invalid mount strings");
  Ok {| m_action := mount_action_of action; m_visible_path := visible;
        m_backing_path := backing; m_depth := depth; m_flags := flags; m_line := 0 |}.

Definition decode_event (input : bytes) (h : Header) (rule : Z) : checked EventRule :=
  reserved ← read_byte input (rule + 1);
  reserved16 ← Read16 input (rule + 2);
  action ← read_byte input (rule + kEventActionOffset);
  _ ← fail_if ((reserved != 0) || (reserved16 != 0) || (event_action_value kExport <? action))
        (lit "invalid event action");
  options ← Read32 input (rule + kEventOptionsOffset);
  source ← read_string_at input h (rule + kEventSourcePathOffset) (lit "invalid event strings");
  target ← read_string_at input h (rule + kEventTargetPathOffset) (lit "invalid event strings");
  Ok {| e_action := event_action_of action; e_source_path := source;
        e_target_path := target; e_options := options; e_line := 0 |}.

(** The loops over the rules of one package: [read] at the offsets of the rules
    [first + 0, ..., first + count - 1] of a table. *)
Definition decode_rules {A} (read : Z -> checked A) (table_offset rule_size first count : Z)
    : checked (list A) :=
  fold_outcome (fun rules rule_index =>
      rule ← read (table_offset + u32 (first + rule_index) * rule_size);
      Ok (rules ++ [rule])) [] (seqZ 0 count).

(** The local state of the loop over the packages. *)
Record DecodeState : Type := {
  d_failure_mode : FailureMode;
  d_apps : list AppPolicy;
  previous_hash : Z;
  previous_package : bytes;
  expected_first_mount : Z;
  expected_first_event : Z;
}.

Definition new_decode_state : DecodeState :=
  {| d_failure_mode := FailureMode_kOpen; d_apps := []; previous_hash := 0;
     previous_package := []; expected_first_mount := 0; expected_first_event := 0 |}.

(** The comparison of the decoded rules with the validated ones. *)
Fixpoint all_same {A} (same : A -> A -> bool) (l k : list A) : bool :=
  match l, k with
  | x :: l', y :: k' => same x y && all_same same l' k'
  | _, _ => true
  end.

(** From the first use of [ValidatePolicy] to the end of the iteration. *)
Definition check_decoded_app (h : Header) (failure : FailureMode) (generation : Z)
    (encoded_order : AppPolicy) : checked AppPolicy :=
  app ← match ValidatePolicy encoded_order with
        | Ok app => Ok app
        | Err _ => Fail (lit "invalid canonical package plan")
        | Oob => Oob
        end;
  _ ← fail_if ((size (mounts app) != size (mounts encoded_order))
               || (size (events app) != size (events encoded_order)))
        (lit "invalid canonical package plan");
  _ ← fail_if (negb (all_same SameMount (mounts app) (mounts encoded_order)))
        (lit "unordered mount table");
  _ ← fail_if (negb (all_same SameEvent (events app) (events encoded_order)))
        (lit "unordered event table");
  _ ← fail_if (PlanGeneration app failure
                 (Z.land (h_flags h) kPolicyFlagAllowLegacyStringBind != 0) != generation)
        (lit "invalid plan generation");
  Ok app.

(** One iteration of the loop over the packages. *)
Definition decode_app (input : bytes) (h : Header) (state : DecodeState) (index : Z)
    : checked DecodeState :=
  let entry := h_package_offset h + index * kPackageSize in
  package_hash ← Read32 input (entry + kPackageHashOffset);
  let message := lit "invalid package strings" in
  package ← read_string_at input h (entry + kPackageNameOffset) message;
  user_list ← read_string_at input h (entry + kPackageUsersOffset) message;
  process_list ← read_string_at input h (entry + kPackageProcessesOffset) message;
  users ← require message (Split user_list);
  processes ← require message (Split process_list);
  _ ← fail_if ((PackageNameHash package != package_hash)
               || ((0 <? index)
                   && ((package_hash <? previous_hash state)
                       || ((package_hash == previous_hash state)
                           && negb (key_lt (previous_package state) package)))))
        (lit "invalid package index");
  failure ← read_byte input (entry + kPackageFailureModeOffset);
  media ← read_byte input (entry + kPackageMediaCompatOffset);
  provider ← read_byte input (entry + kPackageProviderCompatOffset);
  reserved ← read_byte input (entry + 43);
  reserved32 ← Read32 input (entry + 44);
  _ ← fail_if ((failure_mode_value FailureMode_kClosed <? failure)
               || (media_compat_value kHideDenied <? media)
               || (provider_compat_value kVirtualize <? provider)
               || (reserved != 0) || (reserved32 != 0))
        (lit "invalid package flags");
  let package_failure := failure_mode_of failure in
  _ ← fail_if ((package_failure != FailureMode_kOpen)
               || ((0 <? index) && (package_failure != d_failure_mode state)))
        (lit "unsupported failure mode");
  first_mount ← Read32 input (entry + kPackageFirstMountOffset);
  app_mount_count ← Read32 input (entry + kPackageMountCountOffset);
  first_event ← Read32 input (entry + kPackageFirstEventOffset);
  app_event_count ← Read32 input (entry + kPackageEventCountOffset);
  _ ← fail_if ((first_mount != expected_first_mount state)
               || (u32 (h_mount_count h - first_mount) <? app_mount_count)
               || (first_event != expected_first_event state)
               || (u32 (h_event_count h - first_event) <? app_event_count))
        (lit "invalid package rule range");
  mounts ← decode_rules (decode_mount input h) (h_mount_offset h) kMountRuleSize
             first_mount app_mount_count;
  events ← decode_rules (decode_event input h) (h_event_offset h) kEventRuleSize
             first_event app_event_count;
  generation ← Read64 input (entry + kPackagePlanGenerationOffset);
  app ← check_decoded_app h package_failure generation
          {| package := package; media_compat := media_compat_of media;
             provider_compat := provider_compat_of provider; users := users;
             processes := processes; mounts := mounts; events := events |};
  Ok {| d_failure_mode := package_failure; d_apps := d_apps state ++ [app];
        previous_hash := package_hash; previous_package := package;
        expected_first_mount := u32 (expected_first_mount state + app_mount_count);
        expected_first_event := u32 (expected_first_event state + app_event_count) |}.

(** The document and its content generation. *)
Definition DecodePolicy (input : bytes) : checked (PolicyDocument * Z) :=
  if size input <? kHeaderSize then Err None
  else
    h ← read_header input;
    _ ← fail_if (bad_header input h) (lit "invalid policy header or checksum");
    state ← fold_outcome (decode_app input h) new_decode_state (seqZ 0 (h_package_count h));
    _ ← fail_if ((expected_first_mount state != h_mount_count h)
                 || (expected_first_event state != h_event_count h))
          (lit "unreferenced policy rule");
    let decoded :=
      {| schema := kSchemaVersion; failure_mode := d_failure_mode state;
         allow_legacy_string_bind :=
           Z.land (h_flags h) kPolicyFlagAllowLegacyStringBind != 0;
         apps := d_apps state |} in
    encoded_generation ← Read64 input kContentGenerationOffset;
    _ ← fail_if (ContentGeneration decoded != encoded_generation)
          (lit "invalid content generation");
    Ok (decoded, encoded_generation).
