(* ===== verification/BinaryProofs.v ===== *)
(** * Correctness of the binary encoding

    [DecodePolicy] on arbitrary input; the round trip with [EncodePolicy]; the
    generations. *)

From S2P Require Import Prelude Path Policy Validation PolicyFormat Binary.

Local Open Scope pg_scope.

(** ** The computations of [DecodePolicy] stay in bounds *)

Lemma ensures_fail_if bad message Q :
  (bad = false -> Q ()) -> ensures (fail_if bad message) Q.
Proof. unfold fail_if. destruct bad; simpl; auto. Qed.

Lemma ensures_fail_bind {B} bad message (f : unit -> checked B) Q :
  (bad = false -> ensures (f tt) Q) -> ensures (fail_if bad message ≫= f) Q.
Proof. unfold fail_if. destruct bad; simpl; auto. Qed.

Lemma ensures_require {A} message (o : option A) (Q : A -> Prop) :
  (forall a, o = Some a -> Q a) -> ensures (require message o) Q.
Proof. destruct o; simpl; auto. Qed.

Lemma ensures_read {E} width input offset (Q : Z -> Prop) :
  0 <= offset -> offset + Z.of_nat width <= size input ->
  (forall v, 0 <= v < 2 ^ (8 * Z.of_nat width) -> Q v) ->
  ensures (E:=E) (read_le width input offset) Q.
Proof.
  intros H1 H2 HQ. destruct (read_le width input offset) as [v| |] eqn:Er; simpl; [|done|].
  - apply HQ. by eapply read_le_range.
  - by rewrite read_le_in_range in Er.
Qed.

(** [ValidatePolicy] touches no memory. *)
Ltac no_oob :=
  repeat first
    [ discriminate
    | match goal with |- (_ ≫= _) <> Oob => apply bind_not_Oob; [|intros ? _] end
    | case_match ].

Lemma scan_mounts_safe package rules isolate seen :
  scan_mounts package isolate seen rules <> Oob.
Proof.
  revert isolate seen. induction rules as [|rule rules IH]; intros isolate seen; [done|].
  cbn [scan_mounts]. no_oob; apply IH.
Qed.

Lemma check_isolate_safe isolate rules : check_isolate isolate rules <> Oob.
Proof.
  induction rules as [|rule rules IH]; [done|]. cbn [check_isolate]. no_oob; done.
Qed.

Lemma scan_events_safe package seen rules : scan_events package seen rules <> Oob.
Proof.
  revert seen. induction rules as [|rule rules IH]; intros seen; [done|]. cbn [scan_events].
  no_oob; apply IH.
Qed.

Lemma ValidatePolicy_safe policy : ValidatePolicy policy <> Oob.
Proof.
  unfold ValidatePolicy, check_provider.
  no_oob; first [apply scan_mounts_safe | apply check_isolate_safe | apply scan_events_safe].
Qed.

(** What an accepted header says about the regions of the file. *)
Record header_ok (input : bytes) (h : Header) : Prop := {
  ho_size : size input < 2 ^ 32;
  ho_package_count : 0 < h_package_count h < 2 ^ 32;
  ho_mount_count : 0 <= h_mount_count h < 2 ^ 32;
  ho_event_count : 0 <= h_event_count h < 2 ^ 32;
  ho_package_offset : h_package_offset h = 56;
  ho_mount_offset : h_mount_offset h = 56 + 48 * h_package_count h;
  ho_event_offset : h_event_offset h = h_mount_offset h + 16 * h_mount_count h;
  ho_string_offset : h_string_offset h = h_event_offset h + 16 * h_event_count h;
  ho_strings : h_string_offset h < size input;
  ho_checksum : Crc32 (drop (Z.to_nat kHeaderSize) input) = h_checksum h;
}.

Definition header_in_range (h : Header) : Prop :=
  0 <= h_file_size h < 2 ^ 32 /\ 0 <= h_package_count h < 2 ^ 32
  /\ 0 <= h_mount_count h < 2 ^ 32 /\ 0 <= h_event_count h < 2 ^ 32.

Ltac header_read :=
  eapply ensures_bind;
  [apply ensures_read; [done|vm_compute Z.add; etransitivity; [|eassumption]; done|
                        intros v Hv; exact Hv]|intros ? ?].

Lemma read_header_ensures input :
  kHeaderSize <= size input -> ensures (read_header input) header_in_range.
Proof.
  unfold kHeaderSize. intros Hs. unfold read_header, Read32, Read16.
  do 13 header_read. cbn. unfold header_in_range. cbn.
  repeat (split; [assumption|]). assumption.
Qed.

Lemma bad_header_false input h :
  header_in_range h -> bad_header input h = false -> header_ok input h.
Proof.
  intros (H1 & H2 & H3 & H4). unfold bad_header. intros H. split_tests.
  unfold kHeaderSize, kPackageSize, kMountRuleSize, kEventRuleSize in *.
  constructor; try lia. done.
Qed.

Section DecodeSafe.
Context (input : bytes) (h : Header).
Hypothesis Hh : header_ok input h.

Lemma ReadString_ensures relative :
  0 <= relative < 2 ^ 32 -> ensures (E:=option ParseError)
    (ReadString input (h_string_offset h) relative)
    (fun o => forall s, o = Some s -> x00 ∉ s).
Proof.
  intros Hr. destruct Hh. unfold ReadString.
  destruct (_ || _) eqn:Eb; [done|]. split_tests.
  rewrite u32_small by lia.
  destruct (Z.ltb_spec (size input) (h_string_offset h + relative)); [lia|].
  pose proof (cut_spec x00 (drop (Z.to_nat (h_string_offset h + relative)) input)) as Hc.
  destruct (cut x00 _) as [s [t|]]; [|done]. intros s' [= <-]. apply Hc.
Qed.

Lemma read_string_at_ensures offset message :
  0 <= offset -> offset + 4 <= size input ->
  ensures (read_string_at input h offset message) (fun s => x00 ∉ s).
Proof.
  intros H1 H2. unfold read_string_at, Read32. eapply ensures_bind.
  { apply ensures_read; [lia..|]. intros v Hv. exact Hv. }
  intros v Hv. eapply ensures_bind; [by apply ReadString_ensures|].
  intros o Ho. by apply ensures_require.
Qed.

(** Solves the reads of a record that lies in the file. *)
Ltac rule_read :=
  first
  [ apply ensures_fail_bind; intros ?
  | eapply ensures_bind;
    [ first [ apply ensures_read; [lia..|intros v Hv; exact Hv]
            | apply read_string_at_ensures; lia ]
    | intros ? ? ] ].

Lemma decode_mount_ensures rule :
  0 <= rule -> rule + 16 <= size input ->
  ensures (decode_mount input h rule) (fun m => mount_in_range m /\ m_line m = 0).
Proof.
  intros H1 H2. unfold decode_mount, Read16, read_byte, kMountActionOffset, kMountDepthOffset,
    kMountFlagsOffset, kMountVisiblePathOffset, kMountBackingPathOffset.
  do 8 rule_read. cbn. split; [split; assumption|done].
Qed.

Lemma decode_event_ensures rule :
  0 <= rule -> rule + 16 <= size input ->
  ensures (decode_event input h rule) (fun e => event_in_range e /\ e_line e = 0).
Proof.
  intros H1 H2. unfold decode_event, Read16, Read32, read_byte, kEventActionOffset,
    kEventOptionsOffset, kEventSourcePathOffset, kEventTargetPathOffset.
  do 7 rule_read. cbn. split; [assumption|done].
Qed.

Lemma decode_rules_ensures {A} (read : Z -> checked A) table first count total (P : A -> Prop) :
  0 <= table -> table + 16 * total <= size input ->
  0 <= first -> 0 <= count -> first + count <= total -> total < 2 ^ 32 ->
  (forall rule, 0 <= rule -> rule + 16 <= size input -> ensures (read rule) P) ->
  ensures (decode_rules read table 16 first count) (fun l => size l = count /\ Forall P l).
Proof.
  intros Ht Hs Hf Hc Hsum Htot Hread. unfold decode_rules.
  eapply ensures_weaken.
  - apply (ensures_fold _ (fun pre l => size l = size pre /\ Forall P l)); [done|].
    intros pre i post l El [Hl HP].
    assert (0 <= i < count) as Hi.
    { assert (i ∈ seqZ 0 count) as Hin by (rewrite El; set_solver).
      apply elem_of_seqZ in Hin. lia. }
    rewrite u32_small by lia.
    eapply ensures_bind; [apply Hread; lia|]. intros r Hr. cbn.
    rewrite !size_app, Hl. split; [done|]. apply Forall_app. by split; [|constructor].
  - intros l [Hl HP]. split; [|done]. rewrite Hl. unfold size. rewrite length_seqZ. lia.
Qed.

Lemma check_decoded_app_ensures failure generation app :
  ensures (check_decoded_app h failure generation app) (fun a =>
    canonical_policy a /\ package a = package app
    /\ size (mounts a) = size (mounts app) /\ size (events a) = size (events app)
    /\ PlanGeneration a failure (Z.land (h_flags h) kPolicyFlagAllowLegacyStringBind != 0)
       = generation).
Proof.
  unfold check_decoded_app.
  eapply (ensures_bind _ _ (fun a => ValidatePolicy app = Ok a)).
  { pose proof (ValidatePolicy_safe app). by destruct (ValidatePolicy app). }
  intros a Ha. pose proof (ValidatePolicy_canonical _ _ Ha) as Hc.
  apply ValidatePolicy_spec in Ha as (_ & us & ms & es & _ & _ & _ & _ & _ & _ & Ea).
  do 4 rule_read. split_tests. by subst a.
Qed.
End DecodeSafe.

(** The rules of the decoded packages, as the running counters see them. *)
Definition total_mounts (l : list AppPolicy) : Z := size (l ≫= mounts).
Definition total_events (l : list AppPolicy) : Z := size (l ≫= events).

(** The state of the decoder after the entries it has read. *)
Record decode_inv (h : Header) (visited : list Z) (state : DecodeState) : Prop := {
  di_count : size (d_apps state) = size visited;
  di_failure : d_failure_mode state = FailureMode_kOpen;
  di_canonical : Forall canonical_policy (d_apps state);
  di_sorted : strictly_sorted_by package_key (d_apps state);
  di_previous : forall app, last (d_apps state) = Some app ->
    package_key app = (previous_hash state, previous_package state);
  di_mounts : expected_first_mount state = total_mounts (d_apps state)
              /\ total_mounts (d_apps state) <= h_mount_count h;
  di_events : expected_first_event state = total_events (d_apps state)
              /\ total_events (d_apps state) <= h_event_count h;
}.

Lemma strictly_sorted_snoc {A K} `{Ordered K} (key : A -> K) l x :
  strictly_sorted_by key l ->
  (forall y, last l = Some y -> cmp (key y) (key x) = Lt) ->
  strictly_sorted_by key (l ++ [x]).
Proof.
  unfold strictly_sorted_by. induction 1 as [|y l Hl IH Hy]; intros Hlast.
  { by repeat constructor. }
  cbn. constructor.
  - apply IH. intros z Hz. apply Hlast. rewrite last_cons. by rewrite Hz.
  - apply Forall_app. split; [done|]. constructor; [|done].
    destruct (last l) as [z|] eqn:El.
    + apply (cmp_lt_trans _ (key z)).
      * rewrite Forall_forall in Hy. apply Hy. by apply last_Some_elem_of.
      * apply Hlast. by rewrite last_cons, El.
    + apply Hlast. by rewrite last_cons, El.
Qed.

Lemma total_mounts_snoc l app : total_mounts (l ++ [app]) = total_mounts l + size (mounts app).
Proof. unfold total_mounts. by rewrite bind_app, size_app, bind_singleton. Qed.

Lemma total_events_snoc l app : total_events (l ++ [app]) = total_events l + size (events app).
Proof. unfold total_events. by rewrite bind_app, size_app, bind_singleton. Qed.

(** The order test of the decoder is the order of the package table. *)
Lemma package_index_order state app_package app_hash index :
  (0 <? index) && ((app_hash <? previous_hash state)
    || ((app_hash == previous_hash state) && negb (key_lt (previous_package state) app_package)))
  = false ->
  0 < index ->
  cmp (previous_hash state, previous_package state) (app_hash, app_package) = Lt.
Proof.
  intros Hb Hi. rewrite (proj2 (Z.ltb_lt _ _)) in Hb by done. cbn [andb] in Hb. split_tests.
  cbn. unfold pair_compare. cbn.
  destruct (Z.compare_spec (previous_hash state) app_hash) as [E|E|E]; [|done|lia].
  rewrite bool_decide_eq_true_2 in H0 by done. cbn [andb] in H0.
  apply negb_false_iff, key_lt_true in H0. exact H0.
Qed.

Lemma decode_inv_snoc h visited state index app state' :
  decode_inv h visited state -> canonical_policy app ->
  d_apps state' = d_apps state ++ [app] -> d_failure_mode state' = FailureMode_kOpen ->
  package_key app = (previous_hash state', previous_package state') ->
  (0 < size (d_apps state) ->
   cmp (previous_hash state, previous_package state) (package_key app) = Lt) ->
  expected_first_mount state' = total_mounts (d_apps state) + size (mounts app)
    /\ expected_first_mount state' <= h_mount_count h ->
  expected_first_event state' = total_events (d_apps state) + size (events app)
    /\ expected_first_event state' <= h_event_count h ->
  decode_inv h (visited ++ [index]) state'.
Proof.
  intros [Hn Hf Hc Hs Hp _ _] Hcan Ea Ef Ek Hlt [Em1 Em2] [Ee1 Ee2].
  split; rewrite ?Ea, ?total_mounts_snoc, ?total_events_snoc; try lia.
  - rewrite !size_app. unfold size in *. cbn. lia.
  - done.
  - apply Forall_app. by split; [|constructor].
  - apply strictly_sorted_snoc; [done|]. intros y Hy. rewrite (Hp y Hy). apply Hlt.
    destruct (d_apps state); [done|]. rewrite size_cons. pose proof (size_nonneg l). lia.
  - intros y. rewrite last_snoc. intros [= <-]. done.
Qed.

(** One field of a package entry. *)
Ltac entry_read := first
  [ apply ensures_fail_bind; intros ?
  | eapply ensures_bind;
    [ first [ apply ensures_read; [lia..|intros v Hv; exact Hv]
            | apply read_string_at_ensures; [eassumption|lia..]
            | apply ensures_require; intros v Hv; exact Hv ]
    | intros ? ? ] ].

Lemma decode_app_ensures input h visited index state :
  header_ok input h -> index = size visited -> index < h_package_count h ->
  decode_inv h visited state ->
  ensures (decode_app input h state index) (decode_inv h (visited ++ [index])).
Proof.
  intros Hh Hi Hlt [Hn Hf Hc Hs Hp [Hm1 Hm2] [He1 He2]].
  pose proof (size_nonneg visited).
  assert (0 <= total_mounts (d_apps state)) by apply size_nonneg.
  assert (0 <= total_events (d_apps state)) by apply size_nonneg.
  pose proof Hh as [].
  unfold decode_app, Read32, Read64, read_byte, kPackageSize, kMountRuleSize, kEventRuleSize,
    kPackageHashOffset, kPackageNameOffset, kPackageUsersOffset, kPackageProcessesOffset,
    kPackageFailureModeOffset, kPackageMediaCompatOffset, kPackageProviderCompatOffset,
    kPackageFirstMountOffset, kPackageMountCountOffset, kPackageFirstEventOffset,
    kPackageEventCountOffset, kPackagePlanGenerationOffset.
  do 6 entry_read. apply ensures_fail_bind. intros Hindex.
  do 6 entry_read. apply ensures_fail_bind. intros Hmode.
  do 4 entry_read. apply ensures_fail_bind. intros Hrange. split_tests. cbn beta in *.
  repeat match goal with
  | E : ?x = expected_first_mount _ |- _ => rewrite Hm1 in E; subst x
  | E : ?x = expected_first_event _ |- _ => rewrite He1 in E; subst x
  | H : _ <= u32 (_ - _) |- _ => rewrite u32_small in H by lia
  end.
  eapply ensures_bind.
  { eapply (decode_rules_ensures input h Hh) with (total := h_mount_count h); [lia..|].
    by apply decode_mount_ensures. }
  intros ms [Hms _]. eapply ensures_bind.
  { eapply (decode_rules_ensures input h Hh) with (total := h_event_count h); [lia..|].
    by apply decode_event_ensures. }
  intros es [Hes _]. entry_read. eapply ensures_bind; [apply check_decoded_app_ensures|].
  cbn. intros app (Hcan & Hpkg & Hsm & Hse & _).
  match goal with E : PackageNameHash ?name = ?hash |- _ =>
    subst hash; assert (package_key app = (PackageNameHash name, name)) as Hkey
      by (unfold package_key; by rewrite Hpkg) end.
  eapply (decode_inv_snoc _ _ state _ app); cbn [d_apps d_failure_mode previous_hash
    previous_package expected_first_mount expected_first_event]; rewrite ?Hkey; try done.
  - intros Hpos. eapply package_index_order; [eassumption|]. rewrite Hi, <- Hn. lia.
  - rewrite Hm1, u32_small by lia. split; lia.
  - rewrite He1, u32_small by lia. split; lia.
Qed.

(** What an accepted file decodes to. *)
Record decoded_ok (doc : PolicyDocument) (generation : Z) : Prop := {
  dk_schema : schema doc = kSchemaVersion;
  dk_failure_mode : failure_mode doc = FailureMode_kOpen;
  dk_apps : apps doc <> [];
  dk_canonical : Forall canonical_policy (apps doc);
  dk_sorted : strictly_sorted_by package_key (apps doc);
  dk_generation : generation = ContentGeneration doc;
}.

Lemma DecodePolicy_ensures input :
  ensures (DecodePolicy input) (fun r => decoded_ok r.1 r.2).
Proof.
  unfold DecodePolicy. destruct (Z.ltb_spec (size input) kHeaderSize) as [|Hsize]; [done|].
  eapply ensures_bind; [by apply read_header_ensures|]. intros h Hr.
  apply ensures_fail_bind. intros Hh%bad_header_false; [|done].
  eapply ensures_bind.
  { apply (ensures_fold _ (decode_inv h)).
    - destruct Hh. split; cbn [new_decode_state d_apps d_failure_mode previous_hash
        previous_package expected_first_mount expected_first_event]; try done; try by constructor.
      + change (total_mounts []) with 0. lia.
      + change (total_events []) with 0. lia.
    - intros pre i post s El Hinv.
      assert (seqZ 0 (h_package_count h) !! length pre = Some i) as Hi.
      { rewrite El. by rewrite list_lookup_middle. }
      apply lookup_seqZ in Hi as [-> Hlt].
      apply decode_app_ensures; try done; unfold size; lia. }
  intros state [Hn Hf Hc Hs _ _ _]. apply ensures_fail_bind. intros _.
  eapply ensures_bind.
  { unfold Read64. apply ensures_read; [done|unfold kHeaderSize, kContentGenerationOffset in *; lia|].
    intros v Hv. exact Hv. }
  intros generation _. apply ensures_fail_bind. intros Hg. split_tests. cbn.
  split; cbn; try done. destruct Hh. intros E1. rewrite E1 in Hn.
  unfold size in Hn. rewrite length_seqZ in Hn. cbn in Hn. lia.
Qed.

(** ** Properties of the decoder *)

(** [DecodePolicy] never reads outside its input, whatever the bytes. *)
Theorem decode_policy_safe input : DecodePolicy input <> Oob.
Proof. eapply ensures_not_Oob, DecodePolicy_ensures. Qed.

(** C29. A file that [DecodePolicy] accepts holds an executable schema-2 policy:
    at least one package, every package in the canonical form of
    [ValidatePolicy], the packages strictly ascending in (hash, name), as the
    in-place lookup needs them, and the generation in the header is the content
    generation of what was decoded. *)
Theorem decode_policy_sound input doc generation :
  DecodePolicy input = Ok (doc, generation) -> decoded_ok doc generation.
Proof. intros E. exact (ensures_Ok _ _ _ (DecodePolicy_ensures input) E). Qed.

Lemma DecodePolicy_checksum input r :
  DecodePolicy input = Ok r ->
  Crc32 (drop (Z.to_nat kHeaderSize) input)
  = le_value (take 4 (drop (Z.to_nat kPayloadChecksumOffset) input)).
Proof.
  unfold DecodePolicy. destruct (size input <? kHeaderSize); [done|].
  intros (h & Hh & H)%bind_Ok.
  unfold fail_if in H. destruct (bad_header input h) eqn:Hb; [done|]. clear H.
  unfold bad_header in Hb. apply orb_false_iff in Hb as [_ Hb]. split_tests. rewrite Hb.
  unfold read_header in Hh. apply bind_Ok in Hh as (fs & _ & Hh).
  apply bind_Ok in Hh as (cs & Hcs & Hh). apply read_le_Ok in Hcs as (_ & _ & ->).
  repeat (apply bind_Ok in Hh as (? & _ & Hh)). by injection Hh as <-.
Qed.

(** C36. Corruption of any single payload byte of a valid file is detected: the
    decoder refuses every file that differs from it in exactly that byte. *)
Theorem decode_policy_detects_corruption before a b after r :
  kHeaderSize <= size before -> a <> b ->
  DecodePolicy (before ++ a :: after) = Ok r ->
  forall r', DecodePolicy (before ++ b :: after) <> Ok r'.
Proof.
  intros Hs Hab H1%DecodePolicy_checksum r' H2%DecodePolicy_checksum. apply Hab.
  unfold kHeaderSize in Hs.
  assert (forall c, drop (Z.to_nat kHeaderSize) (before ++ c :: after)
                    = drop (Z.to_nat kHeaderSize) before ++ c :: after) as Hd.
  { intros c. apply drop_app_le. unfold size, kHeaderSize in *. lia. }
  assert (forall c, take 4 (drop (Z.to_nat kPayloadChecksumOffset) (before ++ c :: after))
                    = take 4 (drop (Z.to_nat kPayloadChecksumOffset) before)) as Ht.
  { intros c. rewrite drop_app_le by (unfold size, kPayloadChecksumOffset in *; lia).
    apply take_app_le. rewrite length_drop. unfold size, kPayloadChecksumOffset in *. lia. }
  rewrite Hd, Ht in H1, H2. rewrite <- H2 in H1. by apply Crc32_single_byte in H1.
Qed.

(** ** Witnesses *)

(** A file with one package and one rule. *)
Definition small_document : PolicyDocument := {|
  schema := 2; failure_mode := FailureMode_kOpen; allow_legacy_string_bind := false;
  apps := [{|
    package := lit "a"; media_compat := MediaCompat_kOff; provider_compat := ProviderCompat_kOff;
    users := [lit "*"]; processes := [lit "*"];
    mounts := [{| m_action := kDeny; m_visible_path := lit "DCIM"; m_backing_path := [];
                  m_depth := 0; m_flags := 0; m_line := 1 |}];
    events := [] |}];
|}.

Definition small_file : bytes :=
  match EncodePolicy small_document with Ok file => file | _ => [] end.

Definition small_decoded : PolicyDocument * Z :=
  match DecodePolicy small_file with Ok r => r | _ => (small_document, 0) end.

Lemma decode_policy_sound_witness :
  DecodePolicy small_file = Ok small_decoded /\ decoded_ok small_decoded.1 small_decoded.2.
Proof.
  assert (DecodePolicy small_file = Ok small_decoded) as E by (vm_compute; reflexivity).
  split; [exact E|]. apply (decode_policy_sound small_file).
  rewrite E. by destruct small_decoded.
Defined.

Lemma decode_policy_detects_corruption_witness :
  DecodePolicy (take 60 small_file ++ xff :: drop 61 small_file) <> Ok small_decoded.
Proof.
  eapply (decode_policy_detects_corruption (take 60 small_file) x01 xff (drop 61 small_file)
    small_decoded); [vm_compute; discriminate|discriminate|vm_compute; reflexivity].
Defined.
