(* ===== verification/BinaryRoundTrip.v ===== *)
(** * Round trip of the binary encoding

    What [EncodePolicy] writes, [DecodePolicy] reads back. The tables are lists
    of fixed-size records and the string table only grows, so every record and
    every string of an intermediate state is found in the finished file. *)

From S2P Require Import Prelude Path Policy Validation PolicyFormat Binary BinaryProofs.

Local Open Scope pg_scope.

(** ** Records in a file *)

Lemma read_field {E} file pre rec post width k v :
  file = pre ++ rec ++ post -> 0 <= k -> (0 < width)%nat ->
  take width (drop (Z.to_nat k) rec) = le_bytes width v ->
  0 <= v < 2 ^ (8 * Z.of_nat width) ->
  read_le (E:=E) width file (size pre + k) = Ok v.
Proof.
  intros -> Hk Hw Hf Hv. pose proof (size_nonneg pre).
  assert (Z.to_nat k + width <= length rec)%nat as Hl.
  { apply (f_equal length) in Hf. rewrite length_le_bytes, length_take, length_drop in Hf. lia. }
  rewrite read_le_in_range.
  - f_equal. replace (Z.to_nat (size pre + k)) with (length pre + Z.to_nat k)%nat
      by (unfold size; lia).
    rewrite drop_app_add, drop_app_le by lia.
    rewrite take_app_le by (rewrite length_drop; lia).
    rewrite Hf, le_value_bytes. by apply Z.mod_small.
  - lia.
  - rewrite !size_app. unfold size. lia.
Qed.

Lemma concat_split {A} (n : nat) (recs : list (list A)) i rec :
  Forall (fun r => length r = n) recs -> recs !! i = Some rec ->
  exists pre post, concat recs = pre ++ rec ++ post /\ length pre = (n * i)%nat.
Proof.
  intros Hn Hi. exists (concat (take i recs)), (concat (drop (S i) recs)). split.
  - rewrite <- (take_drop_middle recs i rec Hi) at 1. by rewrite concat_app.
  - assert (i <= length recs)%nat as Hle by (apply lookup_lt_Some in Hi; lia).
    clear Hi. revert recs Hn Hle. induction i as [|i IH]; intros recs Hn Hle; [by rewrite Nat.mul_0_r|].
    destruct recs as [|r recs]; [cbn in Hle; lia|].
    apply Forall_cons in Hn as [Hr Hn]. cbn in *. rewrite length_app, IH; [lia|done|cbn in Hle; lia].
Qed.

Lemma length_concat_records {A} (n : nat) (recs : list (list A)) :
  Forall (fun r => length r = n) recs -> size (concat recs) = Z.of_nat n * size recs.
Proof.
  induction 1 as [|r recs Hr _ IH]; cbn; [unfold size; cbn; lia|].
  rewrite size_app, IH, size_cons. unfold size at 1. lia.
Qed.

(** ** The string table *)

(** [value] with its terminator starts at offset [o] of the string region. *)
Definition stored (table : bytes) (o : Z) (value : bytes) : Prop :=
  0 <= o /\ exists post, drop (Z.to_nat o) table = value ++ x00 :: post.

(** The finished region [T] extends that of [t]. *)
Definition within (T : bytes) (t : StringTable) : Prop := exists more, T = bytes_ t ++ more.

Definition table_ok (T : bytes) (t : StringTable) : Prop :=
  forall value o, offsets_ t !! value = Some o -> stored T o value.

Lemma stored_bound T o value : stored T o value -> 0 <= o < size T.
Proof.
  intros [H1 [post H2]]. apply (f_equal length) in H2.
  rewrite length_drop, length_app in H2. cbn in H2. unfold size. lia.
Qed.

Section Strings.
Context (T : bytes).
Hypothesis HT : size T < 2 ^ 32.

Lemma Add_within t value o t' : Add t value = (o, t') -> within T t' -> within T t.
Proof.
  unfold Add. destruct (offsets_ t !! value); intros [= <- <-]; [done|].
  intros [more Hm]. cbn in Hm. exists ((value ++ [x00]) ++ more). by rewrite Hm, <- app_assoc.
Qed.

Lemma Add_stored t value o t' :
  Add t value = (o, t') -> within T t' -> table_ok T t -> table_ok T t' /\ stored T o value.
Proof.
  intros E Hw Hok. unfold Add in E. destruct (offsets_ t !! value) as [o'|] eqn:El.
  { injection E as <- <-. split; [done|]. by apply Hok. }
  injection E as <- <-. destruct Hw as [more Hm]. cbn in Hm.
  assert (stored T (u32 (size (bytes_ t))) value) as Hs.
  { pose proof (size_nonneg (bytes_ t)) as Hp.
    assert (size (bytes_ t) < 2 ^ 32) as Hlt.
    { rewrite Hm, !size_app in HT. pose proof (size_nonneg value). pose proof (size_nonneg more).
      unfold size in *. cbn in HT. lia. }
    rewrite u32_small by lia. split; [done|]. exists more.
    unfold size. rewrite Nat2Z.id, Hm, <- !app_assoc. by rewrite drop_app_length. }
  split; [|done]. intros v o. cbn. rewrite lookup_insert_Some. intros [[<- <-]|[_ Hv]]; [done|].
  by apply Hok.
Qed.

Lemma NewStringTable_ok : within T NewStringTable -> table_ok T NewStringTable.
Proof.
  intros Hw. unfold NewStringTable in *.
  destruct (Add _ []) as [o t] eqn:E. eapply Add_stored; [exact E|exact Hw|done].
Qed.

(** ** The tables *)

Definition mount_bytes (rule : LogicalMountRule) (visible backing : Z) : bytes :=
  le_bytes 1 (mount_action_value (m_action rule)) ++ le_bytes 1 0 ++ le_bytes 2 (m_depth rule)
  ++ le_bytes 2 (m_flags rule) ++ le_bytes 2 0 ++ le_bytes 4 visible ++ le_bytes 4 backing.

Definition mount_rec (rule : LogicalMountRule) (rec : bytes) : Prop :=
  exists visible backing, stored T visible (m_visible_path rule)
    /\ stored T backing (m_backing_path rule) /\ rec = mount_bytes rule visible backing.

Definition entry_bytes (document : PolicyDocument) (app : AppPolicy)
    (first name user_list process_list : Z) : bytes :=
  le_bytes 4 (PackageNameHash (package app)) ++ le_bytes 4 name ++ le_bytes 4 user_list
  ++ le_bytes 4 process_list ++ le_bytes 4 first ++ le_bytes 4 (size (mounts app))
  ++ le_bytes 4 0 ++ le_bytes 4 0
  ++ le_bytes 8 (PlanGeneration app (failure_mode document) (allow_legacy_string_bind document))
  ++ le_bytes 1 (failure_mode_value (failure_mode document))
  ++ le_bytes 1 (media_compat_value (media_compat app))
  ++ le_bytes 1 (provider_compat_value (provider_compat app)) ++ le_bytes 1 0 ++ le_bytes 4 0.

Definition entry_rec (document : PolicyDocument) (first : Z) (app : AppPolicy) (rec : bytes)
    : Prop :=
  exists name user_list process_list, stored T name (package app)
    /\ stored T user_list (Join (users app)) /\ stored T process_list (Join (processes app))
    /\ rec = entry_bytes document app first name user_list process_list.

Fixpoint entries (document : PolicyDocument) (first : Z) (l : list AppPolicy)
    (recs : list bytes) : Prop :=
  match l, recs with
  | [], [] => True
  | app :: l', rec :: recs' =>
      entry_rec document first app rec
      /\ entries document (u32 (first + size (mounts app))) l' recs'
  | _, _ => False
  end.

Lemma encode_mount_spec m t rule m' t' :
  encode_mount (m, t) rule = (m', t') -> within T t' ->
  within T t /\ (table_ok T t -> table_ok T t' /\ exists rec, m' = m ++ rec /\ mount_rec rule rec).
Proof.
  unfold encode_mount. intros E Hw.
  destruct (Add t (m_visible_path rule)) as [visible t1] eqn:E1.
  destruct (Add t1 (m_backing_path rule)) as [backing t2] eqn:E2. injection E as <- <-.
  pose proof (Add_within _ _ _ _ E2 Hw) as Hw1. pose proof (Add_within _ _ _ _ E1 Hw1) as Hw0.
  split; [done|]. intros Hok.
  destruct (Add_stored _ _ _ _ E1 Hw1 Hok) as [Hok1 Hs1].
  destruct (Add_stored _ _ _ _ E2 Hw Hok1) as [Hok2 Hs2]. split; [done|].
  exists (mount_bytes rule visible backing). split; [|by exists visible, backing].
  unfold Put8, Put16, Put32, mount_bytes. by rewrite <- !app_assoc.
Qed.

Lemma encode_mounts_spec rules m t m' t' :
  fold_left encode_mount rules (m, t) = (m', t') -> within T t' ->
  within T t /\ (table_ok T t -> table_ok T t' /\
    exists recs, m' = m ++ concat recs /\ Forall2 mount_rec rules recs).
Proof.
  revert m t. induction rules as [|rule rules IH]; intros m t E Hw.
  { cbn in E. injection E as <- <-. split; [done|]. intros Hok. split; [done|].
    exists []. by rewrite app_nil_r. }
  rewrite fold_left_cons in E. destruct (encode_mount (m, t) rule) as [m1 t1] eqn:E1.
  destruct (IH _ _ E Hw) as [Hw1 H1]. destruct (encode_mount_spec _ _ _ _ _ E1 Hw1) as [Hw0 H0].
  split; [done|]. intros Hok. destruct (H0 Hok) as (Hok1 & rec & -> & Hrec).
  destruct (H1 Hok1) as (Hok2 & recs & -> & Hrecs). split; [done|].
  exists (rec :: recs). split; [by rewrite <- app_assoc|by constructor].
Qed.

Lemma encode_app_spec document state app :
  events app = [] -> first_event state = 0 ->
  within T (strings (encode_app document state app)) ->
  within T (strings state) /\
  (table_ok T (strings state) ->
   table_ok T (strings (encode_app document state app)) /\
   exists rec recs,
     out_packages (encode_app document state app) = out_packages state ++ rec
     /\ entry_rec document (first_mount state) app rec
     /\ out_mounts (encode_app document state app) = out_mounts state ++ concat recs
     /\ Forall2 mount_rec (mounts app) recs).
Proof.
  intros He Hfe. unfold encode_app. rewrite He, Hfe. cbn [fold_left].
  destruct (Add (strings state) (package app)) as [name t1] eqn:E1.
  destruct (Add t1 (Join (users app))) as [user_list t2] eqn:E2.
  destruct (Add t2 (Join (processes app))) as [process_list t3] eqn:E3.
  destruct (fold_left encode_mount (mounts app) (out_mounts state, t3)) as [m' t4] eqn:E4.
  cbn [strings out_packages out_mounts]. intros Hw.
  destruct (encode_mounts_spec _ _ _ _ _ E4 Hw) as [Hw3 H4].
  pose proof (Add_within _ _ _ _ E3 Hw3) as Hw2.
  pose proof (Add_within _ _ _ _ E2 Hw2) as Hw1.
  split; [by apply (Add_within _ _ _ _ E1)|]. intros Hok.
  destruct (Add_stored _ _ _ _ E1 Hw1 Hok) as [Hok1 Hs1].
  destruct (Add_stored _ _ _ _ E2 Hw2 Hok1) as [Hok2 Hs2].
  destruct (Add_stored _ _ _ _ E3 Hw3 Hok2) as [Hok3 Hs3].
  destruct (H4 Hok3) as (Hok4 & recs & Hm & Hrecs). split; [done|].
  exists (entry_bytes document app (first_mount state) name user_list process_list), recs.
  split_and!; [|by exists name, user_list, process_list|exact Hm|exact Hrecs].
  unfold Put8, Put32, Put64, entry_bytes. rewrite <- !app_assoc. reflexivity.
Qed.

Lemma encode_app_counters document state app :
  events app = [] -> first_event state = 0 ->
  out_events (encode_app document state app) = out_events state
  /\ first_event (encode_app document state app) = 0
  /\ first_mount (encode_app document state app) = u32 (first_mount state + size (mounts app)).
Proof.
  intros He Hf. unfold encode_app. rewrite He, Hf. cbn [fold_left].
  destruct (Add _ _) as [? t1]. destruct (Add t1 _) as [? t2]. destruct (Add t2 _) as [? t3].
  by destruct (fold_left encode_mount _ _).
Qed.

Lemma encode_apps_spec document l state :
  Forall (fun app => events app = []) l -> first_event state = 0 ->
  within T (strings (fold_left (encode_app document) l state)) ->
  within T (strings state) /\
  out_events (fold_left (encode_app document) l state) = out_events state /\
  (table_ok T (strings state) ->
   exists recs mount_recs,
     out_packages (fold_left (encode_app document) l state) = out_packages state ++ concat recs
     /\ entries document (first_mount state) l recs
     /\ out_mounts (fold_left (encode_app document) l state)
        = out_mounts state ++ concat mount_recs
     /\ Forall2 mount_rec (l ≫= mounts) mount_recs).
Proof.
  intros Hl. revert state. induction Hl as [|app l He _ IH]; intros state Hf Hw.
  { split; [done|]. split; [done|]. intros _. exists [], []. by rewrite !app_nil_r. }
  rewrite fold_left_cons in *.
  destruct (encode_app_counters document state app He Hf) as (Hoe & Hf' & Hfm).
  destruct (IH _ Hf' Hw) as (Hw1 & Hev & Hrest).
  destruct (encode_app_spec document state app He Hf Hw1) as [Hw0 Happ].
  split; [done|]. split; [by rewrite Hev|]. intros Hok.
  destruct (Happ Hok) as (Hok1 & rec & recs & Hp & Hrec & Hm & Hrecs).
  destruct (Hrest Hok1) as (more & mount_recs & Hp' & Hmore & Hm' & Hmounts).
  exists (rec :: more), (recs ++ mount_recs). split_and!.
  - rewrite Hp', Hp. cbn. by rewrite <- app_assoc.
  - cbn. rewrite <- Hfm. by split.
  - rewrite Hm', Hm, concat_app. by rewrite <- app_assoc.
  - cbn. by apply Forall2_app.
Qed.
End Strings.

Lemma mount_rec_length T rule rec : mount_rec T rule rec -> length rec = 16%nat.
Proof. by intros (visible & backing & _ & _ & ->). Qed.

Lemma entry_rec_length T document first app rec :
  entry_rec T document first app rec -> length rec = 48%nat.
Proof. by intros (name & us & ps & _ & _ & _ & ->). Qed.

Lemma entries_length T document first l recs :
  entries T document first l recs ->
  length l = length recs /\ Forall (fun r => length r = 48%nat) recs.
Proof.
  revert first recs. induction l as [|app l IH]; intros first [|rec recs] H; try done.
  destruct H as [Hr H]. apply IH in H as [Hl Hf].
  split; [by cbn; f_equal|]. constructor; [by eapply entry_rec_length|done].
Qed.

(** ** Line numbers are not stored *)

Definition erase_mount (rule : LogicalMountRule) : LogicalMountRule :=
  {| m_action := m_action rule; m_visible_path := m_visible_path rule;
     m_backing_path := m_backing_path rule; m_depth := m_depth rule;
     m_flags := m_flags rule; m_line := 0 |}.

Definition erase_app (app : AppPolicy) : AppPolicy :=
  {| package := package app; media_compat := media_compat app;
     provider_compat := provider_compat app; users := users app;
     processes := processes app; mounts := erase_mount <$> mounts app; events := events app |}.

Lemma fold_left_fmap {A B S} (g : A -> B) (f : S -> B -> S) l s :
  fold_left f (g <$> l) s = fold_left (fun s x => f s (g x)) l s.
Proof. revert s. induction l as [|x l IH]; intros s; [done|]. cbn. apply IH. Qed.

Lemma CanonicalPlan_erase app failure legacy :
  CanonicalPlan (erase_app app) failure legacy = CanonicalPlan app failure legacy.
Proof.
  unfold CanonicalPlan, erase_app. cbn [package users processes mounts events media_compat
    provider_compat]. rewrite fold_left_fmap. unfold size at 3. by rewrite length_fmap.
Qed.

Lemma strictly_sorted_fmap {A B K} `{Ordered K} (g : A -> B) (key : B -> K) (key' : A -> K) l :
  (forall x, key (g x) = key' x) ->
  strictly_sorted_by key' l -> strictly_sorted_by key (g <$> l).
Proof.
  intros Hk. unfold strictly_sorted_by. induction 1 as [|x l _ IH Hx]; cbn; [constructor|].
  constructor; [done|]. apply Forall_fmap. eapply Forall_impl; [exact Hx|].
  cbn. intros y. by rewrite !Hk.
Qed.

Lemma sort_by_fmap {A B K} `{Ordered K} (g : A -> B) (key : B -> K) (key' : A -> K) l :
  (forall x, key (g x) = key' x) -> sort_by key (g <$> l) = g <$> sort_by key' l.
Proof.
  intros Hk. unfold sort_by. induction l as [|x l IH]; [done|]. cbn. rewrite IH. clear IH.
  induction (foldr (sort_insert key') [] l) as [|y k IH]; [done|]. cbn. rewrite !Hk.
  destruct (key_lt _ _); cbn; [by rewrite IH|done].
Qed.

Lemma filter_erase (rules : list LogicalMountRule) :
  filter is_isolate (erase_mount <$> rules) = erase_mount <$> filter is_isolate rules
  /\ m_visible_path <$> filter (fun rule => ~ is_isolate rule) (erase_mount <$> rules)
     = m_visible_path <$> filter (fun rule => ~ is_isolate rule) rules.
Proof.
  induction rules as [|r rules [IH1 IH2]]; [done|]. cbn [fmap list_fmap].
  rewrite !filter_cons. unfold is_isolate in *. cbn [m_action erase_mount].
  destruct (decide (m_action r = kIsolateRoot)), (decide (~ m_action r = kIsolateRoot));
    try done; cbn; rewrite ?IH1; (split; [done|]); by rewrite IH2.
Qed.

Lemma mounts_valid_erase package rules :
  mounts_valid package rules -> mounts_valid package (erase_mount <$> rules).
Proof.
  intros [Hc Hd Hi Hr Hj]. destruct (filter_erase rules) as [F1 F2]. split.
  - by apply Forall_fmap.
  - unfold visible_of in *. by rewrite F2.
  - unfold isolates in *. by rewrite F1, length_fmap.
  - intros r (r' & -> & Hin)%list_elem_of_fmap Ha. unfold isolates in *. rewrite F1.
    specialize (Hr r' Hin Ha). by destruct (filter is_isolate rules).
  - intros i r (i' & -> & Hi')%list_elem_of_fmap Hii (r' & -> & Hr')%list_elem_of_fmap Hri.
    exact (Hj _ _ Hi' Hii Hr' Hri).
Qed.

Lemma canonical_policy_erase app : canonical_policy app -> canonical_policy (erase_app app).
Proof.
  intros [Hpk Hu Hp Hm Hms Hpr He Hes]. split; cbn; try done.
  - by apply mounts_valid_erase.
  - by apply (strictly_sorted_fmap erase_mount mount_key mount_key).
  - intros Hv. destruct (Hpr Hv) as [Hne (r & Hin & Ha)]. split; [done|].
    exists (erase_mount r). split; [by apply list_elem_of_fmap_2|done].
Qed.

(** ** What can be written to a file *)

(** A string with no terminator inside. *)
Definition no_nul (s : bytes) : Prop := x00 ∉ s.

Definition list_encodable (items : list bytes) : Prop :=
  items <> [] /\ Forall (fun item => item <> [] /\ x2c ∉ item /\ no_nul item) items.

(** The condition on a canonical policy under which its strings survive. *)
Record storable (app : AppPolicy) : Prop := {
  st_package : no_nul (package app);
  st_users : list_encodable (users app);
  st_processes : list_encodable (processes app);
  st_mounts : Forall (fun m => mount_in_range m /\ no_nul (m_visible_path m)
                        /\ no_nul (m_backing_path m)) (mounts app);
  st_events : events app = [];
}.

Lemma Split_Join items : list_encodable items -> Split (Join items) = Some items.
Proof.
  intros [Hne Hall]. unfold Split, Join.
  rewrite split_join; [|done|eapply Forall_impl; [exact Hall|]; by intros ? (_ & ? & _)].
  destruct (existsb _ items) eqn:Ee; [|done].
  apply existsb_exists in Ee as (item & Hin & Hb). apply bool_decide_eq_true in Hb as ->.
  rewrite Forall_forall in Hall. apply list_elem_of_In in Hin. by destruct (Hall [] Hin).
Qed.

Lemma no_nul_join items : Forall no_nul items -> no_nul (Join items).
Proof.
  unfold no_nul, Join. induction 1 as [|p ps Hp Hps IH]; [apply not_elem_of_nil|].
  destruct ps as [|q ps]; [done|].
  change (join_with x2c (p :: q :: ps)) with (p ++ x2c :: join_with x2c (q :: ps)).
  rewrite not_elem_of_app, not_elem_of_cons. by split_and!.
Qed.

Lemma list_encodable_no_nul items : list_encodable items -> no_nul (Join items).
Proof.
  intros [_ H]. apply no_nul_join. eapply Forall_impl; [exact H|]. by intros ? (_ & _ & ?).
Qed.

(** ** Reading the tables back *)

(** The regions of the file, as the header describes them. *)
Record layout (document : PolicyDocument) (h : Header) (hdr T : bytes)
    (recs mount_recs : list bytes) (file : bytes) : Prop := {
  Hfile : file = hdr ++ concat recs ++ concat mount_recs ++ T;
  Hhdr : size hdr = 56;
  Hrecs : Forall (fun r => length r = 48%nat) recs;
  Hmount_recs : Forall (fun r => length r = 16%nat) mount_recs;
  Hsize : size file < 2 ^ 32;
  Hpo : h_package_offset h = 56;
  Hmo : h_mount_offset h = 56 + 48 * size recs;
  Hso : h_string_offset h = 56 + 48 * size recs + 16 * size mount_recs;
  Hmc : h_mount_count h = size mount_recs;
  Hec : h_event_count h = 0;
  Hmode : failure_mode document = FailureMode_kOpen;
  Hlegacy : (Z.land (h_flags h) kPolicyFlagAllowLegacyStringBind != 0)
            = allow_legacy_string_bind document;
}.

Section Decode.
Context (document : PolicyDocument) (h : Header) (hdr T : bytes) (recs mount_recs : list bytes).
Context (file : bytes) (L : layout document h hdr T recs mount_recs file).

Lemma file_size : size file = h_string_offset h + size T.
Proof.
  destruct L. rewrite Hfile0.
  rewrite !size_app, (length_concat_records 48), (length_concat_records 16) by done.
  rewrite Hso0. lia.
Qed.

Lemma read_stored o value :
  stored T o value -> no_nul value ->
  ReadString (E:=option ParseError) file (h_string_offset h) o = Ok (Some value).
Proof.
  destruct L.
  intros Hs Hn. pose proof (stored_bound _ _ _ Hs) as Hb. destruct Hs as [_ [post Hp]].
  pose proof file_size as Hfs. pose proof (size_nonneg recs). pose proof (size_nonneg mount_recs).
  unfold ReadString.
  destruct (Z.ltb_spec (size file) (h_string_offset h)); [lia|].
  destruct (Z.leb_spec (size file - h_string_offset h) o); [lia|]. cbn [orb].
  rewrite u32_small by lia.
  destruct (Z.ltb_spec (size file) (h_string_offset h + o)); [lia|].
  replace (drop _ file) with (value ++ x00 :: post).
  { by rewrite cut_app. }
  symmetry. rewrite Hfile0, Hso0.
  replace (Z.to_nat (56 + 48 * size recs + 16 * size mount_recs + o))
    with (length (hdr ++ concat recs ++ concat mount_recs) + Z.to_nat o)%nat.
  2: { pose proof (length_concat_records 48 recs Hrecs0).
       pose proof (length_concat_records 16 mount_recs Hmount_recs0).
       rewrite !length_app. unfold size in *. lia. }
  rewrite !app_assoc. by rewrite drop_app_add, Hp.
Qed.

Lemma read_string_field pre rec post k o value message :
  file = pre ++ rec ++ post -> 0 <= k ->
  take 4 (drop (Z.to_nat k) rec) = le_bytes 4 o -> stored T o value -> no_nul value ->
  read_string_at file h (size pre + k) message = Ok value.
Proof.
  destruct L.
  intros Hf Hk Ht Hs Hn. pose proof (stored_bound _ _ _ Hs). pose proof file_size.
  assert (0 <= h_string_offset h) by (rewrite Hso0; unfold size; lia).
  unfold read_string_at, Read32.
  rewrite (read_field file pre rec post 4 k o) by (done || lia).
  cbn [mbind outcome_bind]. by rewrite (read_stored o value).
Qed.

End Decode.

Lemma decode_rules_ok {A} (read : Z -> checked A) table rule_size first rules :
  0 <= first -> first + size rules < 2 ^ 32 ->
  (forall j r, rules !! j = Some r -> read (table + (first + Z.of_nat j) * rule_size) = Ok r) ->
  decode_rules read table rule_size first (size rules) = Ok rules.
Proof.
  intros Hf Hs Hread. unfold decode_rules.
  assert (forall todo visited, rules = visited ++ todo ->
    fold_outcome (fun rules rule_index =>
      rule ← read (table + u32 (first + rule_index) * rule_size); Ok (rules ++ [rule]))
      visited (seqZ (size visited) (size todo)) = Ok rules) as Hgen; [|by apply (Hgen rules [])].
  induction todo as [|r todo IH]; intros visited E.
  { cbn. by rewrite E, app_nil_r. }
  unfold size at 2. cbn [length]. rewrite seqZ_step. cbn [fold_outcome].
  assert (rules !! length visited = Some r) as Hr by (rewrite E; by apply list_lookup_middle).
  assert (size visited + 1 <= size rules) as Hle.
  { rewrite E, size_app, size_cons. pose proof (size_nonneg todo). lia. }
  pose proof (size_nonneg visited).
  pose proof (Hread _ _ Hr) as Hr'. change (Z.of_nat (length visited)) with (size visited) in Hr'.
  rewrite u32_small by lia. rewrite Hr'. cbn [mbind outcome_bind].
  replace (size visited + 1) with (size (visited ++ [r])) by (by rewrite size_app).
  apply IH. by rewrite E, <- app_assoc.
Qed.

Lemma all_same_refl {A} (same : A -> A -> bool) l :
  (forall x, same x x = true) -> all_same same l l = true.
Proof. intros Hs. induction l as [|x l IH]; [done|]. cbn. by rewrite Hs. Qed.

Lemma SameMount_refl m : SameMount m m = true.
Proof. unfold SameMount. by rewrite !bool_decide_eq_true_2. Qed.

Lemma SameEvent_refl e : SameEvent e e = true.
Proof. unfold SameEvent. by rewrite !bool_decide_eq_true_2. Qed.

Lemma check_decoded_app_ok h failure app :
  canonical_policy app ->
  check_decoded_app h failure
    (PlanGeneration app failure (Z.land (h_flags h) kPolicyFlagAllowLegacyStringBind != 0)) app
  = Ok app.
Proof.
  intros Hc. unfold check_decoded_app. rewrite canonical_policy_fixed by done.
  cbn [mbind outcome_bind].
  rewrite !all_same_refl by (apply SameMount_refl || apply SameEvent_refl).
  by rewrite !bool_decide_eq_true_2.
Qed.

(** The decoder state after the packages [visited] of the table. *)
Record decoded_prefix (visited : list AppPolicy) (first : Z) (state : DecodeState) : Prop := {
  dp_apps : d_apps state = erase_app <$> visited;
  dp_mode : d_failure_mode state = FailureMode_kOpen;
  dp_last : forall app, last visited = Some app ->
    (previous_hash state, previous_package state) = package_key app;
  dp_mounts : expected_first_mount state = first;
  dp_events : expected_first_event state = 0;
}.

Lemma PackageNameHash_range name : 0 <= PackageNameHash name < 2 ^ 32.
Proof.
  unfold PackageNameHash, Fnv1a32.
  assert (forall s h, 0 <= h < 2 ^ 32 ->
    0 <= fold_left (fun hash b => u32 (Z.lxor hash (byte_val b) * 16777619)) s h < 2 ^ 32) as Hr.
  { induction s as [|b s IH]; intros h Hh; [done|]. rewrite fold_left_cons. apply IH, u32_range. }
  by apply Hr.
Qed.

Lemma Fnv1a64_range data : 0 <= Fnv1a64 data < 2 ^ 64.
Proof.
  unfold Fnv1a64.
  assert (forall s h, 0 <= h < 2 ^ 64 ->
    0 <= fold_left (fun hash b => u64 (Z.lxor hash (byte_val b) * 1099511628211)) s h < 2 ^ 64)
    as Hr.
  { induction s as [|b s IH]; intros h Hh; [done|]. rewrite fold_left_cons. apply IH, u64_range. }
  by apply Hr.
Qed.

Lemma package_index_ordered visited first state app index :
  decoded_prefix visited first state -> index = size visited ->
  (forall prev, last visited = Some prev -> cmp (package_key prev) (package_key app) = Lt) ->
  (PackageNameHash (package app) != PackageNameHash (package app))
  || ((0 <? index) && ((PackageNameHash (package app) <? previous_hash state)
        || ((PackageNameHash (package app) == previous_hash state)
            && negb (key_lt (previous_package state) (package app))))) = false.
Proof.
  intros [_ _ Hlast _ _] -> Hord. rewrite bool_decide_eq_true_2 by done. cbn [negb orb].
  destruct (last visited) as [prev|] eqn:El.
  2: { apply last_None in El as ->. done. }
  specialize (Hlast prev eq_refl). specialize (Hord prev eq_refl). rewrite <- Hlast in Hord.
  cbn in Hord. unfold pair_compare in Hord. cbn in Hord.
  rewrite andb_false_iff. right.
  destruct (Z.compare_spec (previous_hash state) (PackageNameHash (package app))) as [E|E|E];
    [|..|done].
  - rewrite (proj2 (Z.ltb_ge _ _)) by lia. cbn [orb]. unfold key_lt. cbn. rewrite Hord.
    by rewrite andb_false_r.
  - rewrite (proj2 (Z.ltb_ge _ _)) by lia. cbn [orb].
    by rewrite bool_decide_eq_false_2 by lia.
Qed.

Lemma failure_mode_value_range m : 0 <= failure_mode_value m < 2.
Proof. destruct m; cbn; lia. Qed.

Lemma media_compat_value_range m : 0 <= media_compat_value m < 2.
Proof. destruct m; cbn; lia. Qed.

Lemma provider_compat_value_range m : 0 <= provider_compat_value m < 2.
Proof. destruct m; cbn; lia. Qed.

Lemma flags_ok m p :
  (failure_mode_value FailureMode_kClosed <? failure_mode_value FailureMode_kOpen)
  || (media_compat_value kHideDenied <? media_compat_value m)
  || (provider_compat_value kVirtualize <? provider_compat_value p)
  || (0 != 0) || (0 != 0) = false.
Proof. by destruct m, p. Qed.

(** Replaces the read of a field of a record of the file by what was written. *)
Ltac read_word w k v :=
  match goal with Hf : ?file = ?pre ++ ?rec ++ ?post, Er : ?rec = _ |- _ =>
    rewrite (read_field file pre rec post w k v) by (done || lia || (cbn; lia) || by rewrite Er);
    cbn [mbind outcome_bind]
  end.

Ltac read_text k o value :=
  match goal with L : layout _ _ _ _ _ _ ?file, Hf : ?file = ?pre ++ ?rec ++ ?post,
    Er : ?rec = _ |- _ =>
    rewrite (read_string_field _ _ _ _ _ _ _ L pre rec post k o value)
      by (done || lia || (by rewrite Er) || by apply list_encodable_no_nul);
    cbn [mbind outcome_bind]
  end.

Lemma range_ok h state first count total :
  first = expected_first_mount state -> expected_first_event state = 0 ->
  h_mount_count h = total -> h_event_count h = 0 ->
  0 <= first -> first + count <= total -> total < 2 ^ 28 -> 0 <= count ->
  (first != expected_first_mount state) || (u32 (h_mount_count h - first) <? count)
  || (0 != expected_first_event state) || (u32 (h_event_count h - 0) <? 0) = false.
Proof.
  intros <- -> -> -> H1 H2 H3 H4. rewrite !bool_decide_eq_true_2 by done. cbn [negb orb].
  rewrite u32_small by lia. rewrite (proj2 (Z.ltb_ge (total - first) count)) by lia. done.
Qed.

Lemma PlanGeneration_erase app failure legacy :
  PlanGeneration (erase_app app) failure legacy = PlanGeneration app failure legacy.
Proof. unfold PlanGeneration. by rewrite CanonicalPlan_erase. Qed.

Section DecodeApps.
Context (document : PolicyDocument) (h : Header) (hdr T : bytes) (recs mount_recs : list bytes).
Context (file : bytes) (L : layout document h hdr T recs mount_recs file).

Lemma decode_mount_ok pre rec post rule :
  file = pre ++ rec ++ post -> mount_rec T rule rec -> mount_in_range rule ->
  no_nul (m_visible_path rule) -> no_nul (m_backing_path rule) ->
  decode_mount file h (size pre) = Ok (erase_mount rule).
Proof.
  intros Hf (visible & backing & Hv & Hb & Er) [Hd Hfl] Hnv Hnb.
  assert (0 <= mount_action_value (m_action rule) <= 3) as Ha by (destruct (m_action rule); cbn; lia).
  unfold decode_mount, read_byte, Read16, kMountActionOffset, kMountDepthOffset, kMountFlagsOffset,
    kMountVisiblePathOffset, kMountBackingPathOffset.
  read_word 1%nat 1 0. read_word 2%nat 6 0. read_word 1%nat 0 (mount_action_value (m_action rule)).
  rewrite !bool_decide_eq_true_2 by done. cbn [negb orb].
  destruct (Z.ltb_spec (mount_action_value kIsolateRoot) (mount_action_value (m_action rule)));
    [cbn in *; lia|]. cbn [fail_if mbind outcome_bind].
  read_word 2%nat 2 (m_depth rule). read_word 2%nat 4 (m_flags rule).
  read_text 8 visible (m_visible_path rule). read_text 12 backing (m_backing_path rule).
  by rewrite mount_action_roundtrip.
Qed.

Lemma decode_mounts_ok first rules app_recs :
  Forall2 (mount_rec T) rules app_recs ->
  (forall j r, app_recs !! j = Some r -> mount_recs !! (Z.to_nat first + j)%nat = Some r) ->
  0 <= first -> first + size rules <= size mount_recs ->
  Forall (fun m => mount_in_range m /\ no_nul (m_visible_path m) /\ no_nul (m_backing_path m))
    rules ->
  decode_rules (decode_mount file h) (h_mount_offset h) kMountRuleSize first (size rules)
  = Ok (erase_mount <$> rules).
Proof.
  intros Hf Hloc Hfirst Hle Hall.
  replace (size rules) with (size (erase_mount <$> rules)) by (unfold size; by rewrite length_fmap).
  assert (size mount_recs < 2 ^ 28) as Hsmall.
  { pose proof (file_size _ _ _ _ _ _ _ L) as Hs. destruct L. rewrite Hs, Hso0 in Hsize0.
    pose proof (size_nonneg T). pose proof (size_nonneg recs). lia. }
  apply decode_rules_ok; [done|unfold size in *; rewrite length_fmap; lia|].
  intros j r (r' & -> & Hr)%list_lookup_fmap_Some.
  destruct (Forall2_lookup_l _ _ _ _ _ Hf Hr) as (rec & Hrec & Hm).
  destruct (concat_split 16 mount_recs _ rec ltac:(apply L) (Hloc _ _ Hrec))
    as (pre & post & Hc & Hl).
  rewrite Forall_forall in Hall.
  destruct (Hall r') as (Hrange & Hv & Hb); [by eapply list_elem_of_lookup_2|].
  pose proof L as [].
  replace (h_mount_offset h + (first + Z.of_nat j) * kMountRuleSize)
    with (size (hdr ++ concat recs ++ pre)).
  2: { rewrite !size_app, (length_concat_records 48), Hmo0, Hhdr0 by done.
       unfold size, kMountRuleSize. rewrite Hl. lia. }
  eapply (decode_mount_ok _ rec (post ++ T)); [|done..].
  rewrite Hfile0, Hc. by rewrite <- !app_assoc.
Qed.

Lemma decode_app_ok visited first state app rec app_recs :
  decoded_prefix visited first state ->
  recs !! length visited = Some rec -> entry_rec T document first app rec ->
  Forall2 (mount_rec T) (mounts app) app_recs ->
  (forall j r, app_recs !! j = Some r -> mount_recs !! (Z.to_nat first + j)%nat = Some r) ->
  0 <= first -> first + size (mounts app) <= size mount_recs ->
  (forall prev, last visited = Some prev -> cmp (package_key prev) (package_key app) = Lt) ->
  storable app -> canonical_policy app ->
  exists state', decode_app file h state (size visited) = Ok state'
    /\ decoded_prefix (visited ++ [app]) (u32 (first + size (mounts app))) state'.
Proof.
  intros Hst Hrec (name & us & ps & Hsn & Hsu & Hsp & Er) Hf Hloc Hfirst Hle Hord
    [Hn Hu Hp Hm He] Hcan.
  destruct (concat_split 48 recs _ rec ltac:(apply L) Hrec) as (pre0 & post0 & Hc & Hl).
  assert (size mount_recs < 2 ^ 28) as Hsmall.
  { pose proof (file_size _ _ _ _ _ _ _ L) as Hs. destruct L. rewrite Hs, Hso0 in Hsize0.
    pose proof (size_nonneg T). pose proof (size_nonneg recs). lia. }
  pose proof L as [].
  set (pre := hdr ++ pre0). set (post := post0 ++ concat mount_recs ++ T).
  assert (file = pre ++ rec ++ post) as Hfl.
  { unfold pre, post. rewrite Hfile0, Hc. by rewrite <- !app_assoc. }
  assert (h_package_offset h + size visited * kPackageSize = size pre) as Hentry.
  { unfold pre. rewrite size_app, Hhdr0, Hpo0. unfold size, kPackageSize. rewrite Hl. lia. }
  pose proof (PackageNameHash_range (package app)) as Hh.
  assert (0 <= PlanGeneration app (failure_mode document) (allow_legacy_string_bind document)
          < 2 ^ 64) as Hg by apply Fnv1a64_range.
  pose proof (size_nonneg (mounts app)).
  pose proof Hst as [Ha Hfm Hlast Hfirst' Hevent].
  eexists. split.
  - unfold decode_app, Read32, Read64, read_byte, kPackageHashOffset, kPackageNameOffset,
      kPackageUsersOffset, kPackageProcessesOffset, kPackageFailureModeOffset,
      kPackageMediaCompatOffset, kPackageProviderCompatOffset, kPackageFirstMountOffset,
      kPackageMountCountOffset, kPackageFirstEventOffset, kPackageEventCountOffset,
      kPackagePlanGenerationOffset.
    rewrite Hentry.
    read_word 4%nat 0 (PackageNameHash (package app)).
    read_text 4 name (package app). read_text 8 us (Join (users app)).
    read_text 12 ps (Join (processes app)). rewrite !Split_Join by done.
    cbn [require mbind outcome_bind].
    rewrite (package_index_ordered visited first state app (size visited)) by done.
    cbn [fail_if mbind outcome_bind].
    pose proof (failure_mode_value_range (failure_mode document)).
    pose proof (media_compat_value_range (media_compat app)).
    pose proof (provider_compat_value_range (provider_compat app)).
    read_word 1%nat 40 (failure_mode_value (failure_mode document)).
    read_word 1%nat 41 (media_compat_value (media_compat app)).
    read_word 1%nat 42 (provider_compat_value (provider_compat app)).
    read_word 1%nat 43 0. read_word 4%nat 44 0.
    rewrite Hmode0, flags_ok, failure_mode_roundtrip. cbn [fail_if mbind outcome_bind].
    rewrite Hfm.
    rewrite !bool_decide_eq_true_2 by done. cbn [negb orb]. rewrite andb_false_r.
    cbn [fail_if mbind outcome_bind].
    read_word 4%nat 16 first. read_word 4%nat 20 (size (mounts app)).
    read_word 4%nat 24 0. read_word 4%nat 28 0.
    rewrite (range_ok h state first (size (mounts app)) (size mount_recs)) by (done || lia).
    cbn [fail_if mbind outcome_bind].
    rewrite (decode_mounts_ok first (mounts app) app_recs) by done.
    change (decode_rules (decode_event file h) (h_event_offset h) kEventRuleSize 0 0)
      with (Ok (E:=option ParseError) (@nil EventRule)). cbn [mbind outcome_bind].
    read_word 8%nat 32 (PlanGeneration app (failure_mode document)
                          (allow_legacy_string_bind document)).
    rewrite media_compat_roundtrip, provider_compat_roundtrip, <- He.
    fold (erase_app app). rewrite <- Hlegacy0, Hmode0.
    rewrite <- PlanGeneration_erase, check_decoded_app_ok by by apply canonical_policy_erase.
    cbn [mbind outcome_bind]. reflexivity.
  - split; cbn.
    + by rewrite Ha, fmap_app.
    + done.
    + intros prev. rewrite last_snoc. by intros [= <-].
    + by rewrite Hfirst'.
    + by rewrite Hevent.
Qed.

Lemma mount_recs_small : size mount_recs < 2 ^ 28.
Proof.
  pose proof (file_size _ _ _ _ _ _ _ L) as Hs. destruct L. rewrite Hs, Hso0 in Hsize0.
  pose proof (size_nonneg T). pose proof (size_nonneg recs). lia.
Qed.

Lemma decode_apps_ok todo visited first state rest :
  decoded_prefix visited first state ->
  drop (length visited) recs = rest -> entries T document first todo rest ->
  0 <= first -> first + total_mounts todo = size mount_recs ->
  Forall2 (mount_rec T) (todo ≫= mounts) (drop (Z.to_nat first) mount_recs) ->
  strictly_sorted_by package_key (visited ++ todo) ->
  Forall storable todo -> Forall canonical_policy todo ->
  exists state', fold_outcome (decode_app file h) state (seqZ (size visited) (size todo))
                 = Ok state'
    /\ decoded_prefix (visited ++ todo) (size mount_recs) state'.
Proof.
  pose proof mount_recs_small as Hsmall.
  revert visited first state rest. induction todo as [|app todo IH];
    intros visited first state rest Hst Hrest Hent Hf0 Htot Hmounts Hsorted Hsto Hcan.
  { exists state. rewrite app_nil_r. split; [done|].
    change (total_mounts []) with 0 in Htot. replace (size mount_recs) with first by lia. done. }
  destruct rest as [|rec rest]; [done|]. destruct Hent as [Hrec Hent].
  apply Forall_cons in Hsto as [Hs1 Hsto]. apply Forall_cons in Hcan as [Hc1 Hcan].
  cbn in Hmounts. apply Forall2_app_inv_l in Hmounts as (r1 & r2 & Hm1 & Hm2 & Hr).
  assert (size r1 = size (mounts app)) as Hr1
    by (unfold size; by rewrite (Forall2_length _ _ _ Hm1)).
  assert (total_mounts (app :: todo) = size (mounts app) + total_mounts todo) as Htc
    by (unfold total_mounts; cbn; by rewrite size_app).
  assert (0 <= total_mounts todo) by apply size_nonneg.
  pose proof (size_nonneg (mounts app)).
  destruct (decode_app_ok visited first state app rec r1) as (state1 & E1 & Hst1);
    try done; try lia.
  - rewrite <- (Nat.add_0_r (length visited)), <- lookup_drop, Hrest. done.
  - intros j r Hj. rewrite <- lookup_drop, Hr. by apply lookup_app_l_Some.
  - intros prev Hprev. apply last_Some in Hprev as [l ->].
    unfold strictly_sorted_by in Hsorted. rewrite <- app_assoc in Hsorted.
    clear -Hsorted. induction l as [|y l IHl]; cbn in Hsorted.
    + apply StronglySorted_inv in Hsorted as [_ Hall]. by apply Forall_cons in Hall as [? _].
    + apply StronglySorted_inv in Hsorted as [Hsorted _]. by apply IHl.
  - rewrite u32_small in Hst1 by lia.
    destruct (IH (visited ++ [app]) (first + size (mounts app)) state1 rest)
      as (state' & E' & Hst'); try done; try lia.
    + rewrite length_app. rewrite <- drop_drop, Hrest. done.
    + rewrite u32_small in Hent by lia. done.
    + rewrite Z2Nat.inj_add, <- drop_drop, Hr by lia. rewrite <- Hr1. unfold size.
      rewrite Nat2Z.id. by rewrite drop_app_length.
    + by rewrite <- app_assoc.
    + exists state'. rewrite <- app_assoc in Hst'. split; [|done].
      unfold size at 2. cbn [length]. rewrite seqZ_step. cbn [fold_outcome].
      rewrite E1. cbn [mbind outcome_bind]. rewrite size_app in E'. exact E'.
Qed.
End DecodeApps.

(** ** The header *)

(** The header with its checksum in place. *)
Definition header_bytes (document : PolicyDocument)
    (file_size checksum package_count mount_count event_count mount_offset event_offset
     string_offset : Z) : bytes :=
  le_bytes 4 kMagic ++ le_bytes 2 kFormatVersion ++ le_bytes 2 kSchemaVersion
  ++ le_bytes 4 file_size ++ le_bytes 4 checksum ++ le_bytes 8 (ContentGeneration document)
  ++ le_bytes 4 package_count ++ le_bytes 4 mount_count ++ le_bytes 4 event_count
  ++ le_bytes 4 kHeaderSize ++ le_bytes 4 mount_offset ++ le_bytes 4 event_offset
  ++ le_bytes 4 string_offset
  ++ le_bytes 4 (if allow_legacy_string_bind document
                 then kPolicyFlagAllowLegacyStringBind else 0).

Lemma store_checksum {E} document fs pc mc ec mo eo so payload checksum :
  Store32 (E:=E) (encode_header document fs pc mc ec mo eo so ++ payload)
    kPayloadChecksumOffset checksum
  = Ok (header_bytes document fs checksum pc mc ec mo eo so ++ payload).
Proof.
  unfold Store32, kPayloadChecksumOffset. rewrite size_app.
  change (size (encode_header document fs pc mc ec mo eo so)) with 56.
  pose proof (size_nonneg payload).
  rewrite (proj2 (Z.leb_le (12 + 4) (56 + size payload))) by lia. cbn [andb Z.leb Z.compare].
  reflexivity.
Qed.

Definition header_of (document : PolicyDocument)
    (file_size checksum package_count mount_count event_count mount_offset event_offset
     string_offset : Z) : Header :=
  {| h_magic := kMagic; h_version := kFormatVersion; h_schema := kSchemaVersion;
     h_file_size := file_size; h_checksum := checksum; h_package_count := package_count;
     h_mount_count := mount_count; h_event_count := event_count;
     h_package_offset := kHeaderSize; h_mount_offset := mount_offset;
     h_event_offset := event_offset; h_string_offset := string_offset;
     h_flags := if allow_legacy_string_bind document
                then kPolicyFlagAllowLegacyStringBind else 0 |}.

Lemma read_header_field {E} file rec post width k v :
  file = rec ++ post -> 0 <= k -> (0 < width)%nat ->
  take width (drop (Z.to_nat k) rec) = le_bytes width v ->
  0 <= v < 2 ^ (8 * Z.of_nat width) ->
  read_le (E:=E) width file k = Ok v.
Proof. intros Hf. exact (read_field file [] rec post width k v Hf). Qed.

Definition is_u32 (z : Z) : Prop := 0 <= z < 2 ^ 32.

Lemma read_header_ok document fs checksum pc mc ec mo eo so payload :
  is_u32 fs -> is_u32 checksum -> is_u32 pc -> is_u32 mc -> is_u32 ec -> is_u32 mo ->
  is_u32 eo -> is_u32 so ->
  let file := header_bytes document fs checksum pc mc ec mo eo so ++ payload in
  read_header file = Ok (header_of document fs checksum pc mc ec mo eo so)
  /\ Read64 (E:=option ParseError) file kContentGenerationOffset
     = Ok (ContentGeneration document).
Proof.
  intros H1 H2 H3 H4 H5 H6 H7 H8 file. unfold is_u32 in *.
  assert (forall width k v, 0 <= k -> (0 < width)%nat ->
    take width (drop (Z.to_nat k) (header_bytes document fs checksum pc mc ec mo eo so))
    = le_bytes width v -> 0 <= v < 2 ^ (8 * Z.of_nat width) ->
    read_le (E:=option ParseError) width file k = Ok v) as Hread
    by (intros; by eapply read_header_field).
  split.
  2: { unfold Read64, kContentGenerationOffset. apply Hread; [lia..|done|apply Fnv1a64_range]. }
  unfold read_header, Read32, Read16, kFileSizeOffset, kPayloadChecksumOffset,
    kPackageCountOffset, kMountRuleCountOffset, kEventRuleCountOffset, kPackageTableOffset,
    kMountRuleTableOffset, kEventRuleTableOffset, kStringTableOffset, kHeaderFlagsOffset.
  rewrite (Hread 4%nat 8 fs), (Hread 4%nat 12 checksum), (Hread 4%nat 24 pc),
    (Hread 4%nat 28 mc), (Hread 4%nat 32 ec), (Hread 4%nat 36 kHeaderSize), (Hread 4%nat 40 mo),
    (Hread 4%nat 44 eo), (Hread 4%nat 48 so),
    (Hread 4%nat 52 (if allow_legacy_string_bind document
                     then kPolicyFlagAllowLegacyStringBind else 0)),
    (Hread 4%nat 0 kMagic), (Hread 2%nat 4 kFormatVersion), (Hread 2%nat 6 kSchemaVersion)
    by (done || lia || (by destruct (allow_legacy_string_bind document))).
  reflexivity.
Qed.

(** ** The canonical document *)

(** What the executable subset of schema 2 allows. *)
Definition executable (app : AppPolicy) : Prop :=
  media_compat app = MediaCompat_kOff
  /\ Forall (fun rule => m_action rule = kRedirect \/ m_action rule = kDeny) (mounts app)
  /\ events app = [].

Lemma fail_if_Ok bad message u : fail_if bad message = Ok u <-> bad = false.
Proof. unfold fail_if. destruct bad; [done|]. by destruct u. Qed.

Lemma executable_actions rules :
  existsb (fun rule => (m_action rule != kRedirect) && (m_action rule != kDeny)) rules = false
  <-> Forall (fun rule => m_action rule = kRedirect \/ m_action rule = kDeny) rules.
Proof.
  induction rules as [|r rules IH]; [by split|]. cbn. rewrite orb_false_iff, IH, Forall_cons.
  by destruct (m_action r); cbn; intuition.
Qed.

Lemma ValidatePolicy_package p q : ValidatePolicy p = Ok q -> package q = package p.
Proof. by intros (_ & us & ms & es & _ & _ & _ & _ & _ & _ & ->)%ValidatePolicy_spec. Qed.

Lemma canonicalize_apps_spec seen l l' :
  canonicalize_apps seen l = Ok l' <->
  Forall2 (fun a a' => ValidatePolicy a = Ok a' /\ executable a') l l'
  /\ NoDup (package <$> l) /\ Forall (fun a => package a ∉ seen) l.
Proof.
  revert seen l'. induction l as [|a l IH]; intros seen l'; cbn [canonicalize_apps].
  { split.
    - intros [= <-]. by split_and!; constructor.
    - intros [H _]. by apply Forall2_nil_inv_l in H as ->. }
  rewrite bind_Ok. setoid_rewrite fail_if_Ok. split.
  - intros ([] & Hseen%bool_decide_eq_false & H). apply bind_Ok in H as (a' & Ha & H).
    apply bind_Ok in H as ([] & Hmedia%fail_if_Ok & H).
    apply bind_Ok in H as ([] & Hact%fail_if_Ok & H).
    apply bind_Ok in H as ([] & Hev%fail_if_Ok & H).
    apply bind_Ok in H as (rest & Hrest & [= <-]). split_tests.
    apply executable_actions in Hact. apply IH in Hrest as (Hf & Hnd & Hs).
    rewrite (ValidatePolicy_package _ _ Ha) in *. split_and!.
    + by constructor.
    + cbn. constructor; [|done]. intros (b & Hb & Hin)%list_elem_of_fmap.
      rewrite Forall_forall in Hs. specialize (Hs b Hin). rewrite <- Hb in Hs. set_solver.
    + constructor; [done|]. eapply Forall_impl; [exact Hs|]. cbn. set_solver.
  - intros (Hf & Hnd & Hs). apply Forall2_cons_inv_l in Hf as (a' & rest & [Ha He] & Hf & ->).
    cbn in Hnd. apply NoDup_cons in Hnd as [Hnin Hnd]. apply Forall_cons in Hs as [Hs1 Hs].
    destruct He as (Hmedia & Hact & Hev). exists tt. split; [by apply bool_decide_eq_false_2|].
    rewrite Ha. cbn [mbind outcome_bind]. rewrite Hmedia, Hev.
    apply executable_actions in Hact as ->. cbn [fail_if mbind outcome_bind].
    rewrite (proj2 (IH _ rest)); [done|]. split_and!; [done|done|].
    rewrite (ValidatePolicy_package _ _ Ha).
    rewrite Forall_forall in Hs |- *. intros b Hb. rewrite not_in_insert. split; [|by apply Hs].
    intros E. apply Hnin. rewrite <- E. by apply list_elem_of_fmap_2.
Qed.

(** ** The encoded file *)

Lemma total_size_spec {A} (field : AppPolicy -> list A) l :
  total_size field l = u64 (size (l ≫= field)).
Proof.
  unfold total_size.
  assert (forall n, fold_left (fun count app => u64 (count + size (field app))) l (u64 n)
                    = u64 (n + size (l ≫= field))) as Hgen; [|exact (Hgen 0)].
  induction l as [|a l IH]; intros n; cbn [fold_left].
  { change (size ([] ≫= field)) with 0. by rewrite Z.add_0_r. }
  replace (u64 (u64 n + size (field a))) with (u64 (n + size (field a)))
    by (unfold u64; by rewrite Zplus_mod_idemp_l).
  rewrite IH. cbn. rewrite size_app. f_equal. lia.
Qed.

Lemma CanonicalizeDocument_Ok doc canonical :
  CanonicalizeDocument doc = Ok canonical <->
  schema doc = kSchemaVersion /\ failure_mode doc = FailureMode_kOpen /\ apps doc <> []
  /\ schema canonical = schema doc /\ failure_mode canonical = failure_mode doc
  /\ allow_legacy_string_bind canonical = allow_legacy_string_bind doc
  /\ Forall2 (fun a a' => ValidatePolicy a = Ok a' /\ executable a') (apps doc) (apps canonical)
  /\ NoDup (package <$> apps doc).
Proof.
  unfold CanonicalizeDocument. rewrite bind_Ok. setoid_rewrite fail_if_Ok. split.
  - intros ([] & Hb & H). apply bind_Ok in H as (l & Hl & [= <-]). split_tests. cbn.
    apply canonicalize_apps_spec in Hl as (Hf & Hnd & _). by split_and!.
  - intros (Hs & Hf & Hne & Hs' & Hf' & Hl' & Hall & Hnd). exists tt. split.
    { rewrite Hs, Hf. by rewrite (bool_decide_eq_false_2 _ Hne). }
    rewrite (proj2 (canonicalize_apps_spec ∅ (apps doc) (apps canonical))).
    + cbn [mbind outcome_bind]. destruct canonical. cbn in *. by subst.
    + split_and!; [done|done|]. apply Forall_forall. intros ? _. apply not_elem_of_empty.
Qed.

(** Everything the decoder needs to know about an encoded file. *)
Record encoded (canonical : PolicyDocument) (h : Header) (hdr T : bytes)
    (recs mount_recs : list bytes) (file : bytes) : Prop := {
  en_header : kHeaderSize <= size file /\ read_header file = Ok h /\ bad_header file h = false;
  en_generation : Read64 (E:=option ParseError) file kContentGenerationOffset
                  = Ok (ContentGeneration canonical);
  en_layout : layout canonical h hdr T recs mount_recs file;
  en_count : h_package_count h = size (apps canonical);
  en_entries : entries T canonical 0 (sort_by package_key (apps canonical)) recs;
  en_mounts : Forall2 (mount_rec T) (sort_by package_key (apps canonical) ≫= mounts) mount_recs;
}.

Lemma events_total l : Forall (fun app => events app = []) l -> size (l ≫= events) = 0.
Proof. induction 1 as [|a l Ha _ IH]; [done|]. cbn. by rewrite Ha. Qed.

Lemma bind_perm_size {A B} (f : A -> list B) l k : l ≡ₚ k -> size (l ≫= f) = size (k ≫= f).
Proof.
  induction 1 as [|x l k _ IH|x y l|l k m _ IH1 _ IH2]; cbn; rewrite ?size_app; try lia.
Qed.

Lemma legacy_flag (legacy : bool) :
  (Z.land (if legacy then kPolicyFlagAllowLegacyStringBind else 0)
     (u32 (Z.lnot kPolicyFlagAllowLegacyStringBind)) != 0) = false
  /\ (Z.land (if legacy then kPolicyFlagAllowLegacyStringBind else 0)
        kPolicyFlagAllowLegacyStringBind != 0) = legacy
  /\ is_u32 (if legacy then kPolicyFlagAllowLegacyStringBind else 0).
Proof. by destruct legacy. Qed.

Lemma header_bytes_size document fs checksum pc mc ec mo eo so :
  size (header_bytes document fs checksum pc mc ec mo eo so) = 56.
Proof. reflexivity. Qed.

Lemma encoded_of_parts canonical T recs mount_recs fs :
  let sorted := sort_by package_key (apps canonical) in
  let payload := concat recs ++ concat mount_recs ++ T in
  let eo := 56 + Z.of_nat 48 * size recs + Z.of_nat 16 * size mount_recs in
  let header checksum := header_bytes canonical fs checksum (size sorted) (size mount_recs) 0
                           (56 + Z.of_nat 48 * size recs) eo eo in
  fs = eo + size T -> fs < 2 ^ 32 -> 0 < size T ->
  failure_mode canonical = FailureMode_kOpen -> apps canonical <> [] ->
  entries T canonical 0 sorted recs -> Forall2 (mount_rec T) (sorted ≫= mounts) mount_recs ->
  encoded canonical
    (header_of canonical fs (Crc32 payload) (size sorted) (size mount_recs) 0
       (56 + Z.of_nat 48 * size recs) eo eo)
    (header (Crc32 payload)) T recs mount_recs (header (Crc32 payload) ++ payload).
Proof.
  intros sorted payload eo header Hfs Hlt HT Hmode Hne Hent Hmr.
  destruct (entries_length _ _ _ _ _ Hent) as [Hlen Hrl].
  assert (Forall (fun r => length r = 16%nat) mount_recs) as Hmrl.
  { apply Forall_forall. intros r Hr. apply list_elem_of_lookup_1 in Hr as [i Hi].
    destruct (Forall2_lookup_r _ _ _ _ _ Hmr Hi) as (m & _ & Hrec).
    by apply mount_rec_length in Hrec. }
  pose proof (length_concat_records 48 recs Hrl) as Hps.
  pose proof (length_concat_records 16 mount_recs Hmrl) as Hms.
  pose proof (size_nonneg recs). pose proof (size_nonneg mount_recs).
  assert (size sorted = size recs) as Hsr by (unfold size; by rewrite Hlen).
  assert (size sorted = size (apps canonical)) as Hsa
    by (unfold size, sorted; by rewrite length_sort_by).
  assert (0 < size sorted) as Hpos
    by (rewrite Hsa; destruct (apps canonical); [done|]; rewrite size_cons;
        pose proof (size_nonneg l); lia).
  destruct (legacy_flag (allow_legacy_string_bind canonical)) as (Hfl1 & Hfl2 & Hfl3).
  assert (size (header (Crc32 payload) ++ payload) = fs) as Hsize.
  { unfold header, payload. rewrite !size_app, header_bytes_size, Hps, Hms. lia. }
  destruct (read_header_ok canonical fs (Crc32 payload) (size sorted) (size mount_recs) 0
    (56 + Z.of_nat 48 * size recs) eo eo payload) as [Hrh Hrg];
    try (unfold is_u32; lia); [apply Crc32_range|].
  split; try done.
  - split; [unfold kHeaderSize; rewrite Hsize; lia|]. split; [exact Hrh|].
    unfold bad_header, header_of. cbn [h_magic h_version h_schema h_file_size h_checksum
      h_package_count h_mount_count h_event_count h_package_offset h_mount_offset
      h_event_offset h_string_offset h_flags].
    rewrite Hfl1, Hsize. unfold kHeaderSize, kPackageSize, kMountRuleSize, kEventRuleSize.
    rewrite !orb_false_iff. split_and!;
      first [ by apply negb_false_iff, bool_decide_eq_true_2; first [reflexivity|lia]
            | by apply bool_decide_eq_false_2; lia
            | by apply Z.leb_gt; lia | done ].
  - split; cbn [header_of h_package_offset h_mount_offset h_string_offset h_mount_count
      h_event_count h_flags]; try done; unfold kHeaderSize; lia.
Qed.

Lemma EncodePolicy_encoded doc file :
  EncodePolicy doc = Ok file ->
  exists canonical h hdr T recs mount_recs,
    CanonicalizeDocument doc = Ok canonical /\ encoded canonical h hdr T recs mount_recs file.
Proof.
  unfold EncodePolicy. intros (canonical & Hcan & H)%bind_Ok.
  pose proof Hcan as (Hschema & Hmode & Hne & Hs' & Hm' & _ & Hall & _)%CanonicalizeDocument_Ok.
  apply bind_Ok in H as ([] & _ & H). apply bind_Ok in H as ([] & Hfs & H).
  apply fail_if_Ok, Z.ltb_ge in Hfs.
  set (sorted := sort_by package_key (apps canonical)) in *.
  set (state := fold_left (encode_app canonical) sorted new_encode_state) in *.
  set (T := bytes_ (strings state)) in *.
  assert (Forall (fun app => events app = []) (apps canonical)) as Hev.
  { apply Forall_forall. intros a Ha. apply list_elem_of_lookup_1 in Ha as [i Hi].
    destruct (Forall2_lookup_r _ _ _ _ _ Hall Hi) as (a0 & _ & _ & Hx). apply Hx. }
  assert (sorted ≡ₚ apps canonical) as Hperm by apply sort_by_perm.
  assert (Forall (fun app => events app = []) sorted) as Hev' by by rewrite Hperm.
  pose proof (size_nonneg (out_packages state)). pose proof (size_nonneg (out_mounts state)).
  pose proof (size_nonneg (out_events state)). pose proof (size_nonneg T).
  unfold kHeaderSize in *.
  destruct (encode_apps_spec T ltac:(lia) canonical sorted new_encode_state Hev' eq_refl)
    as (Hw & Hoe & Henc); [exists []; by rewrite app_nil_r|].
  fold state in Hoe, Henc. cbn [out_events new_encode_state] in Hoe.
  destruct Henc as (recs & mount_recs & Hp & Hent & Hm & Hmr);
    [apply NewStringTable_ok; [lia|done]|].
  cbn [out_packages out_mounts first_mount new_encode_state app] in Hp, Hent, Hm.
  destruct (entries_length _ _ _ _ _ Hent) as [Hlen Hrl].
  assert (Forall (fun r => length r = 16%nat) mount_recs) as Hmrl.
  { apply Forall_forall. intros r Hr. apply list_elem_of_lookup_1 in Hr as [i Hi].
    destruct (Forall2_lookup_r _ _ _ _ _ Hmr Hi) as (m & _ & Hrec).
    by apply mount_rec_length in Hrec. }
  pose proof (length_concat_records 48 recs Hrl) as Hps.
  pose proof (length_concat_records 16 mount_recs Hmrl) as Hms.
  assert (size (apps canonical ≫= mounts) = size mount_recs) as Hmc.
  { rewrite <- (bind_perm_size mounts _ _ Hperm). unfold size.
    by rewrite (Forall2_length _ _ _ Hmr). }
  rewrite Hp, Hm, Hoe in Hfs, H. rewrite Hps, Hms in Hfs, H.
  change (size (@nil byte)) with 0 in Hfs, H. pose proof (size_nonneg recs).
  pose proof (size_nonneg mount_recs).
  rewrite !total_size_spec, Hmc, events_total in H by done.
  rewrite !(u64_small (size mount_recs)) in H by lia. change (u64 0) with 0 in H.
  rewrite !(u32_small (56 + _)) in H by lia.
  rewrite !(u32_small (56 + _ + _)) in H by lia. rewrite !Z.add_0_r in H.
  rewrite !(u32_small (56 + _ + _)) in H by lia.
  rewrite store_checksum in H. injection H as <-.
  assert (size sorted = size recs) as Hsr by (unfold size; by rewrite Hlen).
  eexists canonical, _, _, T, recs, mount_recs. split; [done|].
  assert (0 < size T) as HT.
  { destruct Hw as [more ->]. rewrite size_app. change (size (bytes_ (strings new_encode_state))) with 1.
    pose proof (size_nonneg more). lia. }
  apply encoded_of_parts; try done; try lia.
  - congruence.
  - by destruct (apps canonical); [apply Forall2_length in Hall; destruct (apps doc)|].
Qed.

(** ** The round trip *)

(** What [EncodePolicy] takes for granted of its input and [DecodePolicy] needs. *)
Record encodable (app : AppPolicy) : Prop := {
  eb_package : no_nul (package app);
  eb_users : users app <> [];
  eb_processes : list_encodable (processes app);
  eb_flags : Forall (fun m => 0 <= m_flags m < 2 ^ 16) (mounts app);
}.

(** The document a reader of the file sees: packages in table order and no line
    numbers. *)
Definition stored_document (document : PolicyDocument) : PolicyDocument :=
  {| schema := schema document; failure_mode := failure_mode document;
     allow_legacy_string_bind := allow_legacy_string_bind document;
     apps := erase_app <$> sort_by package_key (apps document) |}.

Lemma from_chars_text w user :
  is_Some (from_chars w user) -> user <> [] /\ x2c ∉ user /\ no_nul user.
Proof.
  intros [v Hv]. unfold from_chars in Hv. destruct user as [|b user]; [done|].
  destruct (digits_value 0 (b :: user)) eqn:Ed; [|done]. apply digits_value_is_digit in Ed.
  rewrite forallb_forall in Ed. unfold no_nul. split_and!; [done|..];
    intros Hin%list_elem_of_In%Ed; done.
Qed.

Lemma NormalizeUsers_encodable us us' :
  NormalizeUsers us = Some us' -> us <> [] -> list_encodable us'.
Proof.
  intros Hn Hne. unfold NormalizeUsers in Hn. case_bool_decide as Es.
  { injection Hn as <-. subst us. split; [done|].
    apply Forall_singleton. unfold no_nul. split_and!; [done|..]; by apply contains_false. }
  destruct (forallb _ us) eqn:Ef; [|done]. injection Hn as <-. split.
  - intros E%(f_equal length). rewrite length_sort_by in E. by destruct us.
  - apply Forall_forall. intros u Hu. rewrite elem_of_sort_by in Hu.
    apply (from_chars_text 32). rewrite forallb_forall in Ef.
    apply list_elem_of_In in Hu. specialize (Ef u Hu). apply negb_true_iff in Ef.
    apply bool_decide_eq_false in Ef. by destruct (from_chars 32 u).
Qed.

Lemma logical_no_nul_opt (p : bytes) : logical_path p \/ p = [] -> no_nul p.
Proof. intros [H| ->]; [apply H|apply not_elem_of_nil]. Qed.

Lemma mount_canonical_storable package rule :
  mount_canonical package rule -> 0 <= m_flags rule < 2 ^ 16 ->
  mount_in_range rule /\ no_nul (m_visible_path rule) /\ no_nul (m_backing_path rule).
Proof.
  intros Hc Hf. unfold mount_in_range.
  assert (forall p, logical_path p -> 0 <= size (split_on x2f p) < 2 ^ 16) as Hd.
  { intros p [Hs _ _]. pose proof (length_split_on_le x2f p). unfold size, kMaxLogicalPathBytes in *.
    lia. }
  unfold mount_canonical in Hc. destruct (m_action rule);
    [destruct Hc as ((_ & _ & Hv) & -> & ->) | destruct Hc as ((_ & _ & Hv) & -> & (_ & _ & Hb))
    | destruct Hc as ((_ & _ & Hv) & -> & ->) | destruct Hc as (-> & (_ & _ & Hb) & ->)];
    split_and!; try lia; try (apply Hd; done); apply logical_no_nul_opt; auto.
Qed.

Lemma storable_of a a' :
  ValidatePolicy a = Ok a' -> executable a' -> encodable a -> storable a'.
Proof.
  intros Ha (_ & _ & Hev) [Hpk Hus Hps Hfl].
  pose proof (ValidatePolicy_canonical _ _ Ha) as [_ _ _ Hmv _ _ _ _].
  apply ValidatePolicy_spec in Ha as (_ & us & ms & es & Hu & Hms & _ & _ & _ & _ & ->).
  cbn in *. split; cbn; [done|by eapply NormalizeUsers_encodable| | |done].
  - destruct Hps as [Hne Hall]. split.
    + intros E%(f_equal length). rewrite length_sort_by in E. by destruct (processes a).
    + by rewrite sort_by_perm.
  - apply Forall_forall. intros m Hm. pose proof (mv_canonical _ _ Hmv) as Hc.
    rewrite Forall_forall in Hc. eapply mount_canonical_storable; [by apply Hc|].
    rewrite elem_of_sort_by in Hm. apply list_elem_of_lookup_1 in Hm as [i Hi].
    destruct (Forall2_lookup_r _ _ _ _ _ Hms Hi) as (m0 & Hm0 & Hn).
    apply normalize_mount_action in Hn as (_ & -> & _).
    rewrite Forall_forall in Hfl. apply Hfl. by eapply list_elem_of_lookup_2.
Qed.

Lemma ContentGeneration_stored canonical :
  NoDup (package <$> apps canonical) ->
  ContentGeneration (stored_document canonical) = ContentGeneration canonical.
Proof.
  intros Hnd. unfold ContentGeneration, stored_document.
  cbn [apps schema failure_mode allow_legacy_string_bind].
  rewrite (sort_by_fmap erase_app package package) by done.
  rewrite (sort_by_perm_eq package (sort_by package_key (apps canonical)) (apps canonical))
    by (by rewrite ?sort_by_perm).
  unfold size. rewrite length_fmap, fold_left_fmap. f_equal.
  generalize (Put32 (Put8 (Put8 (Put16 (lit "PGIR5" ++ [x00]) (schema canonical))
    (failure_mode_value (failure_mode canonical)))
    (if allow_legacy_string_bind canonical then 1 else 0))
    (Z.of_nat (length (sort_by package (apps canonical))))).
  induction (sort_by package (apps canonical)) as [|a l IH]; intros output; [done|].
  rewrite !fold_left_cons, IH. unfold put_plan at 2 4. cbn [failure_mode allow_legacy_string_bind].
  by rewrite CanonicalPlan_erase.
Qed.

Lemma DecodePolicy_encoded canonical h hdr T recs mount_recs file :
  encoded canonical h hdr T recs mount_recs file ->
  schema canonical = kSchemaVersion -> NoDup (package <$> apps canonical) ->
  Forall storable (apps canonical) -> Forall canonical_policy (apps canonical) ->
  DecodePolicy file = Ok (stored_document canonical, ContentGeneration canonical).
Proof.
  intros [(Hsz & Hrh & Hbh) Hgen L Hcount Hent Hmr] Hschema Hnd Hsto Hcan.
  set (sorted := sort_by package_key (apps canonical)) in *.
  assert (sorted ≡ₚ apps canonical) as Hperm by apply sort_by_perm.
  destruct (decode_apps_ok canonical h hdr T recs mount_recs file L sorted [] 0
    new_decode_state recs) as (state & Hfold & [Ha Hm _ Hfm Hfe]); try done.
  - unfold total_mounts. rewrite Z.add_0_l. unfold size. by rewrite (Forall2_length _ _ _ Hmr).
  - apply sorted_nodup_strict; [|apply sort_by_sorted]. unfold package_key, sorted.
    rewrite sort_by_perm. apply (NoDup_fmap_1 snd). rewrite <- list_fmap_compose. exact Hnd.
  - by rewrite Hperm.
  - by rewrite Hperm.
  - unfold DecodePolicy. rewrite (proj2 (Z.ltb_ge _ _)) by done.
    rewrite Hrh. cbn [mbind outcome_bind]. rewrite Hbh. cbn [fail_if mbind outcome_bind].
    assert (size sorted = h_package_count h) as Hs
      by (rewrite Hcount; unfold size, sorted; by rewrite length_sort_by).
    change (size (@nil AppPolicy)) with 0 in Hfold. rewrite Hs in Hfold.
    rewrite Hfold. cbn [mbind outcome_bind].
    destruct L. rewrite Hfm, Hfe, Hmc0, Hec0,
      (bool_decide_eq_true_2 (size mount_recs = size mount_recs)),
      (bool_decide_eq_true_2 (0 = 0)) by done.
    cbn [fail_if negb orb mbind outcome_bind]. rewrite Hgen. cbn [mbind outcome_bind].
    rewrite Hm, Ha, Hlegacy0, <- Hschema, <- Hmode0, app_nil_l.
    fold sorted. pose proof (ContentGeneration_stored canonical Hnd) as Hg.
    unfold stored_document in *. fold sorted in Hg |- *. rewrite Hg.
    by rewrite bool_decide_eq_true_2.
Qed.

(** C14. Round trip: the file [EncodePolicy] writes for a document whose apps are [encodable]
    is accepted by [DecodePolicy], which returns the canonical form of the document, with its
    packages in table order and without line numbers, and the generation that
    [ComputeContentGeneration] gives for the document. [encodable] is what [EncodePolicy] takes
    for granted and does not ask: no NUL in the package, some users, some processes, no empty one
    and none with a comma or a NUL, and mount flags of 16 bits; without it the file need not be
    readable (see [unencodable_not_read_back]). *)
Theorem decode_encode doc file :
  EncodePolicy doc = Ok file -> Forall encodable (apps doc) ->
  exists canonical, CanonicalizeDocument doc = Ok canonical
    /\ DecodePolicy file = Ok (stored_document canonical, ComputeContentGeneration doc).
Proof.
  intros (canonical & h & hdr & T & recs & mount_recs & Hcan & Henc)%EncodePolicy_encoded Heb.
  exists canonical. split; [done|]. unfold ComputeContentGeneration. rewrite Hcan.
  apply CanonicalizeDocument_Ok in Hcan as (Hs & _ & _ & Hs' & _ & _ & Hall & Hnd).
  eapply DecodePolicy_encoded; [done|congruence|..].
  - replace (package <$> apps canonical) with (package <$> apps doc); [done|].
    clear -Hall. induction Hall as [|a a' l l' [Ha _] _ IH]; [done|]. cbn.
    by rewrite IH, (ValidatePolicy_package _ _ Ha).
  - clear -Hall Heb. induction Hall as [|a a' l l' [Ha He] _ IH]; [constructor|].
    apply Forall_cons in Heb as [Hb Heb]. constructor; [by eapply storable_of|by apply IH].
  - clear -Hall. induction Hall as [|a a' l l' [Ha _] _ IH]; constructor; [|done].
    by eapply ValidatePolicy_canonical.
Qed.

(** ** Other properties of the encoder *)

Lemma EncodePolicy_safe doc : EncodePolicy doc <> Oob.
Proof.
  unfold EncodePolicy. apply bind_not_Oob.
  { unfold CanonicalizeDocument, fail_if. no_oob; try done. clear.
    generalize (∅ : gset bytes). induction (apps doc) as [|a l IH]; intros seen; [done|].
    cbn [canonicalize_apps]. unfold fail_if. no_oob; first [done|apply ValidatePolicy_safe|apply IH]. }
  intros canonical _. unfold fail_if. no_oob. intros E.
  rewrite store_checksum in E. done.
Qed.

(** C40. [EncodePolicy] stays inside its buffers, and a file it returns is smaller
    than 4 GiB, begins with the magic number and records its own size. *)
Theorem encode_policy_bounds doc :
  EncodePolicy doc <> Oob
  /\ forall file, EncodePolicy doc = Ok file ->
       kHeaderSize < size file < 2 ^ 32
       /\ Read32 (E:=unit) file 0 = Ok kMagic
       /\ Read32 (E:=unit) file kFileSizeOffset = Ok (size file).
Proof.
  split; [apply EncodePolicy_safe|].
  intros file (canonical & h & hdr & T & recs & mount_recs & Hcan & Henc)%EncodePolicy_encoded.
  destruct Henc as [(Hsz & Hrh & Hbh) _ L _ _ _].
  assert (forall k v, read_le (E:=option ParseError) 4 file k = Ok v ->
            read_le (E:=unit) 4 file k = Ok v) as Hlift.
  { intros k v (H1 & H2 & ->)%read_le_Ok. by apply read_le_in_range. }
  unfold read_header in Hrh.
  apply bind_Ok in Hrh as (fs & Hfs & Hrh). do 9 apply bind_Ok in Hrh as (? & _ & Hrh).
  apply bind_Ok in Hrh as (magic & Hmagic & Hrh). do 2 apply bind_Ok in Hrh as (? & _ & Hrh).
  injection Hrh as <-. unfold bad_header in Hbh. split_tests. cbn in *. subst.
  split_and!; [|destruct L; lia|by apply Hlift|by apply Hlift].
  unfold kHeaderSize, kPackageSize, kMountRuleSize, kEventRuleSize in *.
  apply read_le_range in Hfs. destruct L. cbn in *. pose proof (size_nonneg recs).
  pose proof (size_nonneg mount_recs). lia.
Qed.

(** Two policies that list the same rules, in any order. *)
Record same_policy (p p' : AppPolicy) : Prop := {
  sp_package : package p' = package p;
  sp_media : media_compat p' = media_compat p;
  sp_provider : provider_compat p' = provider_compat p;
  sp_users : users p' = users p;
  sp_processes : processes p ≡ₚ processes p';
  sp_mounts : mounts p ≡ₚ mounts p';
  sp_events : events p ≡ₚ events p';
}.

Lemma same_policy_sym p p' : same_policy p p' -> same_policy p' p.
Proof. intros []. by split. Qed.

(** Documents that hold the same policies, in any order. *)
Definition same_document (doc doc' : PolicyDocument) : Prop :=
  schema doc' = schema doc /\ failure_mode doc' = failure_mode doc
  /\ allow_legacy_string_bind doc' = allow_legacy_string_bind doc
  /\ exists middle, apps doc ≡ₚ middle /\ Forall2 same_policy middle (apps doc').

Lemma Forall2_same_sym l k : Forall2 same_policy l k -> Forall2 same_policy k l.
Proof.
  intros H. apply Forall2_flip. eapply Forall2_impl; [exact H|]. apply same_policy_sym.
Qed.

Lemma same_document_sym doc doc' : same_document doc doc' -> same_document doc' doc.
Proof.
  intros (H1 & H2 & H3 & middle & Hp & Hf). split_and!; [done..|]. symmetry in Hp.
  destruct (Forall2_perm _ _ _ _ Hp Hf) as (k & Hk & Hf'). exists k.
  split; [done|]. by apply Forall2_same_sym.
Qed.

Lemma Forall2_package_eq {P : AppPolicy -> AppPolicy -> Prop} l k :
  (forall a b, P a b -> package b = package a) -> Forall2 P l k ->
  package <$> k = package <$> l.
Proof. intros HP. induction 1 as [|a b l k Hab _ IH]; [done|]. cbn. by rewrite IH, (HP a b). Qed.

Lemma ContentGeneration_perm c c' :
  schema c' = schema c -> failure_mode c' = failure_mode c ->
  allow_legacy_string_bind c' = allow_legacy_string_bind c ->
  apps c ≡ₚ apps c' -> NoDup (package <$> apps c) -> ContentGeneration c' = ContentGeneration c.
Proof.
  intros H1 H2 H3 Hp Hnd. unfold ContentGeneration, put_plan.
  by rewrite H1, H2, H3, (sort_by_perm_eq package _ _ Hnd Hp).
Qed.

Lemma CanonicalizeDocument_same doc doc' c :
  same_document doc doc' -> CanonicalizeDocument doc = Ok c ->
  exists c', CanonicalizeDocument doc' = Ok c' /\ ContentGeneration c' = ContentGeneration c.
Proof.
  intros (H1 & H2 & H3 & middle & Hp & Hf)
    (Hs & Hm & Hne & Hs' & Hm' & Hl' & Hall & Hnd)%CanonicalizeDocument_Ok.
  destruct (Forall2_perm _ _ _ _ Hp Hall) as (k & Hk & Hk').
  set (c' := {| schema := schema doc'; failure_mode := failure_mode doc';
    allow_legacy_string_bind := allow_legacy_string_bind doc'; apps := k |}).
  assert (Forall2 (fun a a' => ValidatePolicy a = Ok a' /\ executable a') (apps doc') k) as Hall'.
  { clear -Hf Hk'. revert k Hk'. induction Hf as [|a b l r Hab _ IH]; intros k Hk.
    - apply Forall2_nil_inv_l in Hk as ->. constructor.
    - apply Forall2_cons_inv_l in Hk as (x & k' & [Hx He] & Hk & ->).
      constructor; [|by apply IH]. split; [|done]. destruct Hab. by eapply ValidatePolicy_perm. }
  exists c'. split.
  - apply CanonicalizeDocument_Ok. cbn. split_and!; try congruence; try done.
    + intros E. apply Hne. apply Forall2_length in Hf. rewrite E in Hf.
      apply Permutation_nil_r. by destruct middle.
    + rewrite (Forall2_package_eq (P:=same_policy) middle) by (done || by intros ? ? []).
      by rewrite <- Hp.
  - apply ContentGeneration_perm; cbn; try congruence.
    rewrite (Forall2_package_eq (P:=fun a a' => ValidatePolicy a = Ok a' /\ executable a')
      (apps doc)); [done| |done].
    intros a b [Hab _]. by apply ValidatePolicy_package.
Qed.

(** The content generation identifies what a document says, not how it is
    written down: documents with the same policies have the same generation,
    whatever the order of the packages, of their processes and of their rules. *)
Theorem content_generation_order_independent doc doc' :
  same_document doc doc' ->
  ComputeContentGeneration doc' = ComputeContentGeneration doc.
Proof.
  intros Hsame. unfold ComputeContentGeneration.
  destruct (CanonicalizeDocument doc) as [c|e|] eqn:Ec.
  { destruct (CanonicalizeDocument_same _ _ _ Hsame Ec) as (c' & -> & Hg). exact Hg. }
  all: destruct (CanonicalizeDocument doc') as [c'| |] eqn:Ec'; [|done|done];
    destruct (CanonicalizeDocument_same _ _ _ (same_document_sym _ _ Hsame) Ec') as (c & Ec2 & _);
    congruence.
Qed.

(** ** Witnesses *)

Definition example_policy (name : bytes) : AppPolicy := {|
  package := name; media_compat := MediaCompat_kOff; provider_compat := kVirtualize;
  users := [lit "10"; lit "0"]; processes := [lit "main"; lit "*"];
  mounts := [
    {| m_action := kRedirect; m_visible_path := lit "Download";
       m_backing_path := lit "Android/data/{package}/files"; m_depth := 0; m_flags := 0;
       m_line := 7 |};
    {| m_action := kDeny; m_visible_path := lit "DCIM/a"; m_backing_path := [];
       m_depth := 0; m_flags := 0; m_line := 8 |}];
  events := [];
|}.

Definition example_document : PolicyDocument := {|
  schema := 2; failure_mode := FailureMode_kOpen; allow_legacy_string_bind := true;
  apps := [example_policy (lit "org.a"); example_policy (lit "com.b")];
|}.

Definition example_shuffled : PolicyDocument := {|
  schema := 2; failure_mode := FailureMode_kOpen; allow_legacy_string_bind := true;
  apps := [example_policy (lit "com.b"); example_policy (lit "org.a")];
|}.

Definition example_file : bytes :=
  match EncodePolicy example_document with Ok file => file | _ => [] end.

Lemma example_encodes : EncodePolicy example_document = Ok example_file.
Proof. vm_compute. reflexivity. Qed.

Lemma example_encodable : Forall encodable (apps example_document).
Proof.
  repeat constructor; cbn; try discriminate; try lia; try (by apply contains_false).
Qed.

Lemma decode_encode_witness :
  EncodePolicy example_document = Ok example_file
  /\ exists canonical, CanonicalizeDocument example_document = Ok canonical
    /\ DecodePolicy example_file
       = Ok (stored_document canonical, ComputeContentGeneration example_document).
Proof.
  split; [exact example_encodes|].
  apply decode_encode; [exact example_encodes|exact example_encodable].
Defined.

(** Documents that are encoded without an error and are not [encodable]: the decoder refuses
    both, the one because it has no process, the other because its process is cut in two and gives
    another generation. *)
Definition with_processes (names : list bytes) : PolicyDocument := {|
  schema := 2; failure_mode := FailureMode_kOpen; allow_legacy_string_bind := true;
  apps := [{| package := lit "org.a"; media_compat := MediaCompat_kOff; provider_compat := ProviderCompat_kOff;
              users := [lit "0"]; processes := names; mounts := mounts (example_policy []); events := [] |}];
|}.

Example unencodable_not_read_back :
  let back names :=
    match EncodePolicy (with_processes names) with
    | Ok file => match DecodePolicy file with
                 | Ok (document, _) => Some (processes <$> apps document)
                 | _ => Some []
                 end
    | _ => None
    end in
  back [] = Some [] /\ back [lit "a,b"] = Some [] /\ back [lit "a"; lit "b"] = Some [[lit "a"; lit "b"]].
Proof. vm_compute. done. Qed.

Lemma content_generation_order_independent_witness :
  ComputeContentGeneration example_shuffled = ComputeContentGeneration example_document.
Proof.
  apply content_generation_order_independent. split_and!; [done..|].
  exists (apps example_shuffled). split; [apply perm_swap|]. by repeat constructor.
Defined.
