(* ===== verification/ProcessPlan.v ===== *)
(** * Loading the plan of a process (zygisk/src/module_entry.cpp)

    Inside a starting process the module maps the encoded policy, checks it and
    extracts the rules of that process without decoding the whole file. The
    mapped file is a byte string; a C string is the bytes before its terminator;
    a null pointer is [None]. Opening and mapping the file, the timing
    measurements and the log lines are left out: [LoadProcessPlan] starts from
    the mapped bytes. Its [false] is [None]. *)

From S2P Require Import Prelude Path Policy PolicyFormat Binary.

Local Open Scope pg_scope.

Definition kMaxMountRules : Z := 64.
Definition kMaxPlanPathBytes : Z := 64 * 1024.
Definition kMaxProcessNameBytes : Z := 256.
Definition PATH_MAX : Z := 4096.
Definition kDenyAction : Z := 0.
Definition kRedirectAction : Z := 1.

(** Offsets into the plan's path buffer. *)
Record PlannedMount : Type := {
  pm_action : Z;
  pm_visible_path : Z;
  pm_backing_path : Z;
}.

(** [count] is the length of [plan_mounts] and [path_bytes] that of [paths], the
    used part of the buffer, whose first byte is the empty string. The storage
    topology is filled in later and is not part of this record. *)
Record ProcessPlan : Type := {
  snapshot_generation : Z;
  plan_generation : Z;
  policy_flags : Z;
  plan_media_compat : bool;
  plan_provider_compat : bool;
  process_name : bytes;
  plan_mounts : list PlannedMount;
  paths : bytes;
}.

Definition ReadLe16 {E} (data : bytes) (offset : Z) : outcome E Z := read_le 2 data offset.

Definition ReadPolicyString {E} (data : bytes) (string_offset relative_offset : Z)
    : outcome E (option bytes) :=
  if (size data <? string_offset) || (size data - string_offset <=? relative_offset)
  then Ok None
  else
    match cut x00 (drop (Z.to_nat (string_offset + relative_offset)) data) with
    | (value, Some _) => Ok (Some value)
    | (_, None) => Ok None
    end.

(** The loop of [ListContains] over the items between separators; it stops at
    the terminator, so an empty last item is not looked at. *)
Fixpoint list_loop (items : list bytes) (expected : bytes) : bool :=
  match items with
  | [] => false
  | item :: rest =>
      if (item == []) && (rest == []) then false
      else if item == expected then true
      else list_loop rest expected
  end.

Definition ListContains (list expected : bytes) : bool :=
  if list == lit "*" then true else list_loop (split_on x2c list) expected.

Definition ProcessMatches (package_name process_list process : bytes) : bool :=
  if process_list != lit "*" then ListContains process_list process
  else (package_name == process)
       || (starts_with package_name process
           && match drop (length package_name) process with
              | c :: _ => c == x3a
              | [] => false
              end).

Definition PlanPath (plan : ProcessPlan) (offset : Z) : option bytes :=
  if offset <? size (paths plan)
  then Some (cut x00 (drop (Z.to_nat offset) (paths plan))).1
  else None.

(** The offset of the path and the buffer after the copy. *)
Definition StorePlanPath (buffer path : bytes) : option (Z * bytes) :=
  let length := size path + 1 in
  if kMaxPlanPathBytes - size buffer <? length then None
  else Some (size buffer, buffer ++ path ++ [x00]).

Definition IsExecutableMountAction (action : Z) : bool :=
  (action == kDenyAction) || (action == kRedirectAction).

(** The loop over the components; it stops at the terminator. *)
Fixpoint safe_components (items : list bytes) : bool :=
  match items with
  | [] => true
  | item :: rest =>
      if (item == []) && (rest == []) then true
      else if (item == []) || (item == lit ".") || (item == lit "..") then false
      else safe_components rest
  end.

Definition HasSafePathComponents (path : bytes) : bool :=
  match path with
  | [] => false
  | c :: _ => if c == x2f then false else safe_components (split_on x2f path)
  end.

Definition IsAllowedTarget (path : bytes) : bool :=
  HasSafePathComponents path && negb (contains x7b path) && negb (contains x7d path).

(** The loop of [ExpandRuntimePath]; [skip] bytes of a placeholder are left. *)
Fixpoint expand_runtime (user : bytes) (capacity : Z) (current : bytes) (skip : nat)
    (output : bytes) : option bytes :=
  match current with
  | [] => Some output
  | c :: rest =>
      match skip with
      | S skip' => expand_runtime user capacity rest skip' output
      | O =>
          if starts_with (lit "{user}") current then
            if capacity <=? size output + size user then None
            else expand_runtime user capacity rest 5 (output ++ user)
          else if (c == x7b) || (c == x7d) || (capacity <=? size output + 1) then None
          else expand_runtime user capacity rest 0 (output ++ [c])
      end
  end.

Definition ExpandRuntimePath (input : bytes) (user_id capacity : Z) : option bytes :=
  let user := to_string user_id in
  if 16 <=? size user then None
  else
    output ← expand_runtime user capacity input 0 [];
    if IsAllowedTarget output then Some output else None.

Definition BuildPathUnderRoot (root logical_path : bytes) (output_size : Z) : option bytes :=
  let absolute := match root with c :: _ => c == x2f | [] => false end in
  if negb absolute || negb (IsAllowedTarget logical_path) || (output_size == 0) then None
  else
    let output := root ++ x2f :: logical_path in
    if size output <? output_size then Some output else None.

(** The loop of [ValidPackageIndex] from [index] on; [count] entries are left. *)
Fixpoint valid_package_index (data : bytes) (package_offset string_offset : Z) (count : nat)
    (index previous_hash : Z) (previous_name : bytes) : checked bool :=
  match count with
  | O => Ok true
  | S count' =>
      let entry := package_offset + index * kPackageSize in
      hash ← ReadLe32 data (entry + kPackageHashOffset);
      name_offset ← ReadLe32 data (entry + kPackageNameOffset);
      name ← ReadPolicyString data string_offset name_offset;
      match name with
      | None => Ok false
      | Some name =>
          if (PackageNameHash name != hash)
             || ((0 <? index)
                 && ((hash <? previous_hash)
                     || ((hash == previous_hash) && negb (key_lt previous_name name))))
          then Ok false
          else valid_package_index data package_offset string_offset count' (index + 1) hash name
      end
  end.

Definition ValidPackageIndex (data : bytes) (h : Header) : checked bool :=
  valid_package_index data (h_package_offset h) (h_string_offset h)
    (Z.to_nat (h_package_count h)) 0 0 [].

(** The first loop of [ValidPolicyTables]; the result holds the two counters, or
    [None] when an entry is refused. *)
Fixpoint valid_package_ranges (data : bytes) (h : Header) (count : nat)
    (index expected_first_mount expected_first_event : Z) : checked (option (Z * Z)) :=
  match count with
  | O => Ok (Some (expected_first_mount, expected_first_event))
  | S count' =>
      let entry := h_package_offset h + index * kPackageSize in
      first_mount ← ReadLe32 data (entry + kPackageFirstMountOffset);
      package_mount_count ← ReadLe32 data (entry + kPackageMountCountOffset);
      first_event ← ReadLe32 data (entry + kPackageFirstEventOffset);
      package_event_count ← ReadLe32 data (entry + kPackageEventCountOffset);
      failure ← read_byte data (entry + kPackageFailureModeOffset);
      media ← read_byte data (entry + kPackageMediaCompatOffset);
      provider ← read_byte data (entry + kPackageProviderCompatOffset);
      reserved ← read_byte data (entry + 43);
      reserved32 ← ReadLe32 data (entry + 44);
      if (first_mount != expected_first_mount)
         || (u32 (h_mount_count h - first_mount) <? package_mount_count)
         || (first_event != expected_first_event)
         || (u32 (h_event_count h - first_event) <? package_event_count)
         || (1 <? failure) || (1 <? media) || (1 <? provider)
         || (reserved != 0) || (reserved32 != 0)
      then Ok None
      else valid_package_ranges data h count' (index + 1)
             (u32 (expected_first_mount + package_mount_count))
             (u32 (expected_first_event + package_event_count))
  end.

(** The second and third loops: [string1] and [string2] are the offsets of the
    two string fields and [reserved] that of the reserved half-word. *)
Fixpoint valid_rules (data : bytes) (h : Header) (max_action reserved string1 string2 rule_size
    table_offset : Z) (count : nat) (index : Z) : checked bool :=
  match count with
  | O => Ok true
  | S count' =>
      let rule := table_offset + index * rule_size in
      action ← read_byte data rule;
      byte1 ← read_byte data (rule + 1);
      half ← ReadLe16 data (rule + reserved);
      offset1 ← ReadLe32 data (rule + string1);
      first ← ReadPolicyString data (h_string_offset h) offset1;
      offset2 ← ReadLe32 data (rule + string2);
      second ← ReadPolicyString data (h_string_offset h) offset2;
      if (max_action <? action) || (byte1 != 0) || (half != 0)
         || (first == None) || (second == None)
      then Ok false
      else valid_rules data h max_action reserved string1 string2 rule_size table_offset
             count' (index + 1)
  end.

Definition ValidPolicyTables (data : bytes) (h : Header) : checked bool :=
  counters ← valid_package_ranges data h (Z.to_nat (h_package_count h)) 0 0 0;
  match counters with
  | None => Ok false
  | Some (expected_first_mount, expected_first_event) =>
      if (expected_first_mount != h_mount_count h) || (expected_first_event != h_event_count h)
      then Ok false
      else
        mounts_ok ← valid_rules data h 3 6 kMountVisiblePathOffset kMountBackingPathOffset
                      kMountRuleSize (h_mount_offset h) (Z.to_nat (h_mount_count h)) 0;
        if (mounts_ok : bool) then
          valid_rules data h 1 2 kEventSourcePathOffset kEventTargetPathOffset
            kEventRuleSize (h_event_offset h) (Z.to_nat (h_event_count h)) 0
        else Ok false
  end.

(** The comparisons of [valid_header] that look at the header alone. *)
Definition header_fields_ok (data : bytes) (h : Header) : bool :=
  let expected_mount_offset := kHeaderSize + h_package_count h * kPackageSize in
  let expected_event_offset := expected_mount_offset + h_mount_count h * kMountRuleSize in
  let expected_string_offset := expected_event_offset + h_event_count h * kEventRuleSize in
  (h_magic h == kMagic) && (h_version h == kFormatVersion) && (h_schema h == kSchemaVersion)
  && (h_file_size h == size data) && (0 <? h_package_count h)
  && (h_package_offset h == kHeaderSize) && (h_mount_offset h == expected_mount_offset)
  && (h_event_offset h == expected_event_offset)
  && (h_string_offset h == expected_string_offset)
  && (h_string_offset h <? size data)
  && (Z.land (h_flags h) (u32 (Z.lnot kPolicyFlagAllowLegacyStringBind)) == 0)
  && (Crc32 (drop (Z.to_nat kHeaderSize) data) == h_checksum h).

Definition valid_header (data : bytes) (h : Header) : checked bool :=
  if header_fields_ok data h then
    index_ok ← ValidPackageIndex data h;
    if (index_ok : bool) then ValidPolicyTables data h else Ok false
  else Ok false.

(** One iteration of the loop over the rules: the mounts and the path buffer
    after it. *)
Definition load_rule (data : bytes) (h : Header) (uid first_rule : Z)
    (state : list PlannedMount * bytes) (rule_index : Z)
    : checked (option (list PlannedMount * bytes)) :=
  let rule := h_mount_offset h + u32 (first_rule + rule_index) * kMountRuleSize in
  action ← read_byte data (rule + kMountActionOffset);
  visible_offset ← ReadLe32 data (rule + kMountVisiblePathOffset);
  visible ← ReadPolicyString data (h_string_offset h) visible_offset;
  backing_offset ← ReadLe32 data (rule + kMountBackingPathOffset);
  backing ← ReadPolicyString data (h_string_offset h) backing_offset;
  byte1 ← read_byte data (rule + 1);
  half ← ReadLe16 data (rule + 6);
  let deny := action == kDenyAction in
  if negb (IsExecutableMountAction action) || (byte1 != 0) || (half != 0) then Ok None
  else
    match visible, backing with
    | Some visible, Some backing =>
        if negb (IsAllowedTarget visible) then Ok None
        else
          let expanded := if deny then (if backing == [] then Some [] else None)
                          else ExpandRuntimePath backing (u32 uid / 100000) PATH_MAX in
          match expanded with
          | None => Ok None
          | Some expanded =>
              if PATH_MAX <=? size visible then Ok None
              else
                Ok ('(visible_path, buffer) ← StorePlanPath state.2 visible;
                    '(backing_path, buffer) ← StorePlanPath buffer expanded;
                    Some (state.1 ++ [{| pm_action := action; pm_visible_path := visible_path;
                                         pm_backing_path := backing_path |}], buffer))
          end
    | _, _ => Ok None
    end.

Fixpoint load_rules (data : bytes) (h : Header) (uid first_rule : Z) (count : nat)
    (rule_index : Z) (state : list PlannedMount * bytes)
    : checked (option (list PlannedMount * bytes)) :=
  match count with
  | O => Ok (Some state)
  | S count' =>
      next ← load_rule data h uid first_rule state rule_index;
      match next with
      | None => Ok None
      | Some state => load_rules data h uid first_rule count' (rule_index + 1) state
      end
  end.

Definition index_view (data : bytes) (h : Header) : PolicyIndexView :=
  {| view_data := Some data; view_size := size data;
     view_package_count := h_package_count h; view_package_offset := h_package_offset h;
     view_package_end := h_mount_offset h; view_string_offset := h_string_offset h |}.

(** From the found entry to the end. *)
Definition load_entry (data : bytes) (h : Header) (entry uid : Z) (process : bytes)
    : checked (option ProcessPlan) :=
  let string_at offset :=
    relative ← ReadLe32 data (entry + offset);
    ReadPolicyString data (h_string_offset h) relative in
  package_name ← string_at kPackageNameOffset;
  users ← string_at kPackageUsersOffset;
  processes ← string_at kPackageProcessesOffset;
  first_rule ← ReadLe32 data (entry + kPackageFirstMountOffset);
  rule_count ← ReadLe32 data (entry + kPackageMountCountOffset);
  first_event ← ReadLe32 data (entry + kPackageFirstEventOffset);
  app_event_count ← ReadLe32 data (entry + kPackageEventCountOffset);
  failure_mode ← read_byte data (entry + kPackageFailureModeOffset);
  media_compat ← read_byte data (entry + kPackageMediaCompatOffset);
  provider_compat ← read_byte data (entry + kPackageProviderCompatOffset);
  reserved ← read_byte data (entry + 43);
  reserved32 ← ReadLe32 data (entry + 44);
  if (failure_mode != 0) || (1 <? media_compat) || (1 <? provider_compat)
     || (h_event_count h <? first_event)
     || (u32 (h_event_count h - first_event) <? app_event_count) || (app_event_count != 0)
     || (reserved != 0) || (reserved32 != 0)
  then Ok None
  else
    generation ← ReadLe64 data kContentGenerationOffset;
    plan_generation ← ReadLe64 data (entry + kPackagePlanGenerationOffset);
    match package_name, users, processes with
    | Some package_name, Some users, Some processes =>
        if negb (ProcessMatches package_name processes process)
           || negb (ListContains users (print_int (Z.quot uid 100000)))
        then Ok None
        else if (h_mount_count h <? first_rule)
                || (u32 (h_mount_count h - first_rule) <? rule_count)
                || (kMaxMountRules <? rule_count)
        then Ok None
        else
          loaded ← load_rules data h uid first_rule (Z.to_nat rule_count) 0 ([], [x00]);
          match loaded with
          | None => Ok None
          | Some (mounts, buffer) =>
              if 0 <? size mounts then
                Ok (Some {| snapshot_generation := generation;
                            plan_generation := plan_generation; policy_flags := h_flags h;
                            plan_media_compat := media_compat == 1;
                            plan_provider_compat := provider_compat == 1;
                            process_name := process; plan_mounts := mounts;
                            paths := buffer |})
              else Ok None
          end
    | _, _, _ => Ok None
    end.

Definition LoadProcessPlan (data process : bytes) (uid : Z) : checked (option ProcessPlan) :=
  if (kMaxProcessNameBytes <=? size process) || (size data <? kHeaderSize) then Ok None
  else
    h ← read_header data;
    valid ← valid_header data h;
    if negb valid then Ok None
    else
      let package := (cut x3a process).1 in
      if package == [] then Ok None
      else
        entry ← FindPackageEntry (index_view data h) package;
        match entry with
        | None => Ok None
        | Some entry => load_entry data h entry uid process
        end.

(** The comparison of two plans, rule by rule. *)
Fixpoint same_mounts (expected actual : ProcessPlan) (lhs rhs : list PlannedMount) : bool :=
  match lhs, rhs with
  | x :: lhs', y :: rhs' =>
      match PlanPath expected (pm_visible_path x), PlanPath expected (pm_backing_path x),
            PlanPath actual (pm_visible_path y), PlanPath actual (pm_backing_path y) with
      | Some lhs_visible, Some lhs_backing, Some rhs_visible, Some rhs_backing =>
          (pm_action x == pm_action y) && (lhs_visible == rhs_visible)
          && (lhs_backing == rhs_backing) && same_mounts expected actual lhs' rhs'
      | _, _, _, _ => false
      end
  | _, _ => true
  end.

Definition SameProcessPlan (expected actual : ProcessPlan) : bool :=
  (snapshot_generation expected == snapshot_generation actual)
  && (plan_generation expected == plan_generation actual)
  && (policy_flags expected == policy_flags actual)
  && (size (plan_mounts expected) == size (plan_mounts actual))
  && (bool_decide (plan_media_compat expected = plan_media_compat actual))
  && (bool_decide (plan_provider_compat expected = plan_provider_compat actual))
  && (process_name expected == process_name actual)
  && same_mounts expected actual (plan_mounts expected) (plan_mounts actual).
