(* ===== verification/ProcessPlanProofs.v ===== *)
(** * The loader and the decoder agree

    [LoadProcessPlan] reads the file in place, inside every process;
    [DecodePolicy] builds the whole document. On a file the decoder accepts, the
    loader returns exactly the plan the decoded document gives the process. *)

From S2P Require Import Prelude Path Policy Validation PolicyFormat Binary.
From S2P Require Import BinaryProofs BinaryRoundTrip ProcessPlan.

Local Open Scope pg_scope.

(** ** What the plan of a process should be *)

Definition in_scope (app : AppPolicy) (process : bytes) (uid : Z) : bool :=
  (if processes app == [lit "*"]
   then (process == package app) || starts_with (package app ++ [x3a]) process
   else bool_decide (process ∈ processes app))
  && ((users app == [lit "*"]) || bool_decide (print_int (Z.quot uid 100000) ∈ users app)).

(** The rule with its backing path expanded for the user of [uid]. *)
Definition plan_rule (uid : Z) (rule : LogicalMountRule) : option (Z * bytes * bytes) :=
  match m_action rule with
  | kDeny => Some (kDenyAction, m_visible_path rule, [])
  | kRedirect =>
      backing ← ExpandRuntimePath (m_backing_path rule) (u32 uid / 100000) PATH_MAX;
      Some (kRedirectAction, m_visible_path rule, backing)
  | _ => None
  end.

(** The bytes the paths of the rules take in the plan. *)
Definition rules_bytes (rules : list (Z * bytes * bytes)) : Z :=
  foldr (fun rule total => size rule.1.2 + 1 + (size rule.2 + 1) + total) 0 rules.

Record plan_view : Type := {
  v_generation : Z;
  v_plan_generation : Z;
  v_legacy : bool;
  v_media_compat : bool;
  v_provider_compat : bool;
  v_process : bytes;
  v_rules : list (Z * bytes * bytes);
}.

Definition plan_spec (doc : PolicyDocument) (generation : Z) (process : bytes) (uid : Z)
    : option plan_view :=
  app ← List.find (fun app => package app == (cut x3a process).1) (apps doc);
  if kMaxProcessNameBytes <=? size process then None
  else if negb (in_scope app process uid) || (events app != []) || (kMaxMountRules <? size (mounts app))
     || (mounts app == [])
  then None
  else
    rules ← mapM (plan_rule uid) (mounts app);
    if kMaxPlanPathBytes <? 1 + rules_bytes rules then None
    else
      Some {| v_generation := generation;
              v_plan_generation := PlanGeneration app (failure_mode doc)
                                     (allow_legacy_string_bind doc);
              v_legacy := allow_legacy_string_bind doc;
              v_media_compat := media_compat app == kHideDenied;
              v_provider_compat := provider_compat app == kVirtualize;
              v_process := process; v_rules := rules |}.

(** What a process reads out of its plan. *)
Definition view_rule (plan : ProcessPlan) (mount : PlannedMount) : option (Z * bytes * bytes) :=
  visible ← PlanPath plan (pm_visible_path mount);
  backing ← PlanPath plan (pm_backing_path mount);
  Some (pm_action mount, visible, backing).

Definition view_plan (plan : ProcessPlan) : option plan_view :=
  rules ← mapM (view_rule plan) (plan_mounts plan);
  Some {| v_generation := snapshot_generation plan; v_plan_generation := plan_generation plan;
          v_legacy := Z.land (policy_flags plan) kPolicyFlagAllowLegacyStringBind != 0;
          v_media_compat := plan_media_compat plan;
          v_provider_compat := plan_provider_compat plan;
          v_process := process_name plan; v_rules := rules |}.

(** ** What an accepted entry says *)

Record decoded_entry (input : bytes) (h : Header) (st : DecodeState) (index : Z)
    (st' : DecodeState) (app : AppPolicy) (user_list process_list : bytes)
    (ms : list LogicalMountRule) (gen : Z) : Prop := {
  de_state : d_apps st' = d_apps st ++ [app];
  de_hash : Read32 (E:=option ParseError) input (h_package_offset h + index * 48 + 0)
            = Ok (PackageNameHash (package app));
  de_name : exists o, Read32 (E:=option ParseError) input (h_package_offset h + index * 48 + 4)
              = Ok o /\ ReadString (E:=option ParseError) input (h_string_offset h) o
                        = Ok (Some (package app));
  de_users : exists o, Read32 (E:=option ParseError) input (h_package_offset h + index * 48 + 8)
              = Ok o /\ ReadString (E:=option ParseError) input (h_string_offset h) o
                        = Ok (Some user_list);
  de_processes : exists o,
    Read32 (E:=option ParseError) input (h_package_offset h + index * 48 + 12)
    = Ok o /\ ReadString (E:=option ParseError) input (h_string_offset h) o
              = Ok (Some process_list);
  de_order : (PackageNameHash (package app) != PackageNameHash (package app))
    || ((0 <? index)
        && ((PackageNameHash (package app) <? previous_hash st)
            || ((PackageNameHash (package app) == previous_hash st)
                && negb (key_lt (previous_package st) (package app))))) = false;
  de_flags : read_byte (E:=option ParseError) input (h_package_offset h + index * 48 + 40) = Ok 0
    /\ read_byte (E:=option ParseError) input (h_package_offset h + index * 48 + 41)
       = Ok (media_compat_value (media_compat app))
    /\ read_byte (E:=option ParseError) input (h_package_offset h + index * 48 + 42)
       = Ok (provider_compat_value (provider_compat app))
    /\ read_byte (E:=option ParseError) input (h_package_offset h + index * 48 + 43) = Ok 0
    /\ Read32 (E:=option ParseError) input (h_package_offset h + index * 48 + 44) = Ok 0;
  de_ranges : Read32 (E:=option ParseError) input (h_package_offset h + index * 48 + 16)
       = Ok (expected_first_mount st)
    /\ Read32 (E:=option ParseError) input (h_package_offset h + index * 48 + 20)
       = Ok (size (mounts app))
    /\ Read32 (E:=option ParseError) input (h_package_offset h + index * 48 + 24)
       = Ok (expected_first_event st)
    /\ Read32 (E:=option ParseError) input (h_package_offset h + index * 48 + 28)
       = Ok (size (events app))
    /\ size (mounts app) <= u32 (h_mount_count h - expected_first_mount st)
    /\ size (events app) <= u32 (h_event_count h - expected_first_event st);
  de_mounts : decode_rules (decode_mount input h) (h_mount_offset h) 16
                (expected_first_mount st) (size (mounts app)) = Ok ms
    /\ size ms = size (mounts app) /\ all_same SameMount (mounts app) ms = true;
  de_events : exists es, decode_rules (decode_event input h) (h_event_offset h) 16
                (expected_first_event st) (size (events app)) = Ok es
    /\ size es = size (events app);
  de_generation : Read64 (E:=option ParseError) input (h_package_offset h + index * 48 + 32)
                  = Ok gen
    /\ gen = PlanGeneration app FailureMode_kOpen
               (Z.land (h_flags h) kPolicyFlagAllowLegacyStringBind != 0);
  de_lists : exists us ps, Split user_list = Some us /\ Split process_list = Some ps
    /\ NormalizeUsers us = Some (users app) /\ processes app = sort_by id ps;
  de_canonical : canonical_policy app;
  de_next : d_failure_mode st' = FailureMode_kOpen
    /\ previous_hash st' = PackageNameHash (package app) /\ previous_package st' = package app
    /\ expected_first_mount st' = u32 (expected_first_mount st + size (mounts app))
    /\ expected_first_event st' = u32 (expected_first_event st + size (events app));
}.

Lemma require_Ok {A} message (o : option A) a : require message o = Ok a <-> o = Some a.
Proof. destruct o; cbn; [|done]. naive_solver. Qed.

Lemma read_string_at_Ok input h offset message s :
  read_string_at input h offset message = Ok s ->
  exists o, Read32 (E:=option ParseError) input offset = Ok o
    /\ ReadString (E:=option ParseError) input (h_string_offset h) o = Ok (Some s).
Proof.
  unfold read_string_at. intros (o & Ho & H)%bind_Ok. apply bind_Ok in H as (r & Hr & H).
  apply require_Ok in H. subst r. eauto.
Qed.

Lemma check_decoded_app_Ok h failure gen a app :
  check_decoded_app h failure gen a = Ok app ->
  ValidatePolicy a = Ok app /\ size (mounts app) = size (mounts a)
  /\ size (events app) = size (events a) /\ all_same SameMount (mounts app) (mounts a) = true
  /\ gen = PlanGeneration app failure (Z.land (h_flags h) kPolicyFlagAllowLegacyStringBind != 0).
Proof.
  unfold check_decoded_app. intros (app' & Hv & H)%bind_Ok.
  apply bind_Ok in H as ([] & H1%fail_if_Ok & H). apply bind_Ok in H as ([] & H2%fail_if_Ok & H).
  apply bind_Ok in H as ([] & H3%fail_if_Ok & H). apply bind_Ok in H as ([] & H4%fail_if_Ok & H).
  injection H as <-. split_tests. destruct (ValidatePolicy a) as [x| |]; [|done|done].
  injection Hv as ->. by split_and!.
Qed.

Lemma decode_rules_size {A} (read : Z -> checked A) table rule_size first count l :
  0 <= count -> decode_rules read table rule_size first count = Ok l -> size l = count.
Proof.
  unfold decode_rules. intros Hc H.
  assert (forall todo acc l, fold_outcome (fun rules rule_index =>
      rule ← read (table + u32 (first + rule_index) * rule_size); Ok (rules ++ [rule])) acc todo
      = Ok l -> size l = size acc + size todo) as Hgen.
  { induction todo as [|i todo IH]; intros acc k Hk; cbn in Hk.
    - injection Hk as <-. unfold size. cbn. lia.
    - apply bind_Ok in Hk as (acc' & Ha & Hk). apply bind_Ok in Ha as (r & _ & [= <-]).
      apply IH in Hk. rewrite Hk, size_app, size_cons. unfold size. cbn. lia. }
  apply Hgen in H. rewrite H. unfold size. rewrite length_seqZ. cbn. lia.
Qed.

Lemma media_of_value v : v = 0 \/ v = 1 -> media_compat_value (media_compat_of v) = v.
Proof. by intros [-> | ->]. Qed.

Lemma provider_of_value v : v = 0 \/ v = 1 -> provider_compat_value (provider_compat_of v) = v.
Proof. by intros [-> | ->]. Qed.

(** Splits a successful chain of reads and tests. *)
Ltac run_step H :=
  match type of H with
  | (fail_if _ _ ≫= _) = Ok _ =>
      let u := fresh "u" in let E := fresh "Hcheck" in
      apply bind_Ok in H as (u & E & H); apply fail_if_Ok in E
  | (read_string_at _ _ _ _ ≫= _) = Ok _ =>
      let s := fresh "s" in let E := fresh "Hstring" in
      apply bind_Ok in H as (s & E & H); apply read_string_at_Ok in E
  | (require _ _ ≫= _) = Ok _ =>
      let s := fresh "l" in let E := fresh "Hlist" in
      apply bind_Ok in H as (s & E & H); apply require_Ok in E
  | (_ ≫= _) = Ok _ =>
      let v := fresh "v" in let E := fresh "Hread" in apply bind_Ok in H as (v & E & H)
  end.

Lemma decode_app_inv input h st index st' :
  decode_app input h st index = Ok st' ->
  exists app user_list process_list ms gen,
    decoded_entry input h st index st' app user_list process_list ms gen.
Proof.
  intros H. unfold decode_app in H. unfold kPackageHashOffset, kPackageNameOffset,
    kPackageUsersOffset, kPackageProcessesOffset, kPackageFailureModeOffset,
    kPackageMediaCompatOffset, kPackageProviderCompatOffset, kPackageFirstMountOffset,
    kPackageMountCountOffset, kPackageFirstEventOffset, kPackageEventCountOffset,
    kPackagePlanGenerationOffset, kPackageSize, kMountRuleSize, kEventRuleSize in H.
  do 6 run_step H. run_step H. do 5 run_step H. do 2 run_step H. do 4 run_step H. run_step H.
  do 4 run_step H. injection H as <-.
  pose proof (read_le_range _ _ _ _ Hread0). pose proof (read_le_range _ _ _ _ Hread1).
  pose proof (read_le_range _ _ _ _ Hread2). pose proof (read_le_range _ _ _ _ Hread6).
  pose proof (read_le_range _ _ _ _ Hread8).
  apply check_decoded_app_Ok in Hread12 as (Hv & Hsm & Hse & Hsame & Hgen). cbn in Hsm, Hse, Hsame.
  assert (size v9 = v6) as Hms by (eapply decode_rules_size; [|exact Hread9]; lia).
  assert (size v10 = v8) as Hes by (eapply decode_rules_size; [|exact Hread10]; lia).
  pose proof (ValidatePolicy_canonical _ _ Hv) as Hcan.
  apply ValidatePolicy_spec in Hv as (_ & us & ms & es & Hus & _ & _ & _ & _ & _ & Eapp).
  cbn in Hus, Eapp.
  assert (package v12 = s /\ media_compat v12 = media_compat_of v1
          /\ provider_compat v12 = provider_compat_of v2 /\ users v12 = us
          /\ processes v12 = sort_by id l0) as (Ep & Em & Epr & Eu & Eps)
    by by rewrite Eapp.
  clear Eapp. split_tests.
  match goal with E : PackageNameHash s = v |- _ => subst v end.
  match goal with E : v5 = _ |- _ => subst v5 end.
  match goal with E : v7 = _ |- _ => subst v7 end.
  match goal with E : v3 = 0 |- _ => subst v3 end.
  match goal with E : v4 = 0 |- _ => subst v4 end.
  change (failure_mode_value FailureMode_kClosed) with 1 in *.
  change (media_compat_value kHideDenied) with 1 in *.
  change (provider_compat_value kVirtualize) with 1 in *.
  assert (v0 = 0) as ->.
  { assert (v0 = 0 \/ v0 = 1) as [->|Ev] by lia; [done|]. subst v0. done. }
  assert (media_compat_value (media_compat v12) = v1) as Em'
    by (rewrite Em; apply media_of_value; lia).
  assert (provider_compat_value (provider_compat v12) = v2) as Epr'
    by (rewrite Epr; apply provider_of_value; lia).
  assert (size (mounts v12) = v6) as Ems by lia. assert (size (events v12) = v8) as Ees by lia.
  exists v12, s0, s1, v9, v11.
  split; cbn; rewrite ?Ep, ?Em', ?Epr', ?Ems, ?Ees; try done.
  - rewrite bool_decide_eq_true_2 by done. done.
  - by exists v10.
  - exists l, l0. by rewrite Eu.
Qed.

(** ** The checks of the loader succeed on a file the decoder accepts *)

Section Checks.
Context (data : bytes) (h : Header) (Hh : header_ok data h).

Lemma policy_string o s :
  (exists o', Read32 (E:=option ParseError) data o = Ok o'
    /\ ReadString (E:=option ParseError) data (h_string_offset h) o' = Ok (Some s)) ->
  (o' ← read_le 4 data o; ReadPolicyString data (h_string_offset h) o')
  = Ok (E:=option ParseError) (Some s).
Proof.
  intros (o' & Ho & Hs). unfold Read32 in Ho. rewrite Ho.
  cbn [mbind outcome_bind]. apply read_le_range in Ho. destruct Hh.
  unfold ReadString in Hs. unfold ReadPolicyString. destruct (_ || _) eqn:Eb; [done|].
  split_tests. rewrite u32_small in Hs by lia.
  destruct (_ <? _) in Hs; [done|]. by destruct (cut x00 _) as [v [r|]].
Qed.

Lemma policy_string_at {B} o s (f : option bytes -> checked B) :
  (exists o', Read32 (E:=option ParseError) data o = Ok o'
    /\ ReadString (E:=option ParseError) data (h_string_offset h) o' = Ok (Some s)) ->
  (o' ← read_le 4 data o; r ← ReadPolicyString data (h_string_offset h) o'; f r) = f (Some s).
Proof.
  intros Hs%policy_string. destruct (read_le 4 data o) as [o'| |]; [|done|done].
  cbn [mbind outcome_bind] in *. by rewrite Hs.
Qed.

(** Folding over one more entry. *)
Lemma fold_entries_step count st index final :
  fold_outcome (decode_app data h) st (seqZ index (Z.of_nat (S count))) = Ok final ->
  exists st' app us ps ms gen, decoded_entry data h st index st' app us ps ms gen
    /\ fold_outcome (decode_app data h) st' (seqZ (index + 1) (Z.of_nat count)) = Ok final.
Proof.
  rewrite seqZ_step. cbn [fold_outcome]. intros (st' & Hd & H)%bind_Ok.
  apply decode_app_inv in Hd as (app & us & ps & ms & gen & Hd). eauto 10.
Qed.

Lemma valid_package_index_ok count st index final :
  fold_outcome (decode_app data h) st (seqZ index (Z.of_nat count)) = Ok final ->
  valid_package_index data (h_package_offset h) (h_string_offset h) count index
    (previous_hash st) (previous_package st) = Ok true.
Proof.
  revert st index. induction count as [|count IH]; intros st index H; [done|].
  apply fold_entries_step in H as (st' & app & us & ps & ms & gen & Hd & H).
  cbn [valid_package_index]. destruct Hd. unfold kPackageSize, kPackageHashOffset,
    kPackageNameOffset, ReadLe32. unfold Read32 in de_hash0. rewrite de_hash0.
  cbn [mbind outcome_bind]. rewrite (policy_string_at _ _ _ de_name0). rewrite de_order0.
  destruct de_next0 as (_ & E1 & E2 & _). rewrite <- E1, <- E2. by apply IH.
Qed.

Lemma valid_package_ranges_ok count st index final :
  fold_outcome (decode_app data h) st (seqZ index (Z.of_nat count)) = Ok final ->
  valid_package_ranges data h count index (expected_first_mount st) (expected_first_event st)
  = Ok (Some (expected_first_mount final, expected_first_event final)).
Proof.
  revert st index. induction count as [|count IH]; intros st index H.
  { cbn in H. injection H as <-. done. }
  apply fold_entries_step in H as (st' & app & us & ps & ms & gen & Hd & H).
  cbn [valid_package_ranges]. unfold kPackageSize, kPackageFirstMountOffset,
    kPackageMountCountOffset, kPackageFirstEventOffset, kPackageEventCountOffset,
    kPackageFailureModeOffset, kPackageMediaCompatOffset, kPackageProviderCompatOffset.
  destruct Hd. unfold Read32 in *. unfold ReadLe32.
  destruct de_flags0 as (F1 & F2 & F3 & F4 & F5), de_ranges0 as (R1 & R2 & R3 & R4 & R5 & R6).
  rewrite R1. cbn [mbind outcome_bind]. rewrite R2. cbn [mbind outcome_bind].
  rewrite R3. cbn [mbind outcome_bind]. rewrite R4. cbn [mbind outcome_bind].
  rewrite F1. cbn [mbind outcome_bind]. rewrite F2. cbn [mbind outcome_bind].
  rewrite F3. cbn [mbind outcome_bind]. rewrite F4. cbn [mbind outcome_bind].
  rewrite F5. cbn [mbind outcome_bind].
  pose proof (media_compat_value_range (media_compat app)).
  pose proof (provider_compat_value_range (provider_compat app)).
  replace (_ || _) with false.
  - destruct de_next0 as (_ & _ & _ & E1 & E2). rewrite <- E1, <- E2. by apply (IH st').
  - symmetry. rewrite !orb_false_iff. split_and!;
      first [ by apply negb_false_iff, bool_decide_eq_true_2 | apply Z.ltb_ge; lia | done ].
Qed.

Lemma decode_mount_inv rule m :
  decode_mount data h rule = Ok m ->
  read_byte (E:=option ParseError) data (rule + 1) = Ok 0
  /\ read_le (E:=option ParseError) 2 data (rule + 6) = Ok 0
  /\ read_byte (E:=option ParseError) data (rule + 0) = Ok (mount_action_value (m_action m))
  /\ (exists o, Read32 (E:=option ParseError) data (rule + 8) = Ok o
        /\ ReadString (E:=option ParseError) data (h_string_offset h) o
           = Ok (Some (m_visible_path m)))
  /\ (exists o, Read32 (E:=option ParseError) data (rule + 12) = Ok o
        /\ ReadString (E:=option ParseError) data (h_string_offset h) o
           = Ok (Some (m_backing_path m))).
Proof.
  unfold decode_mount, Read16, kMountActionOffset, kMountDepthOffset, kMountFlagsOffset,
    kMountVisiblePathOffset, kMountBackingPathOffset. intros H. do 8 run_step H. injection H as <-.
  split_tests. subst v v0. cbn. split_and!; try done. rewrite Hread1. f_equal.
  change (mount_action_value kIsolateRoot) with 3 in *. apply read_le_range in Hread1.
  assert (v1 = 0 \/ v1 = 1 \/ v1 = 2 \/ v1 = 3) as [->|[->|[->| ->]]] by lia; done.
Qed.

Lemma valid_mounts_ok count index :
  (forall j, index <= j < index + Z.of_nat count ->
     exists m, decode_mount data h (h_mount_offset h + j * 16) = Ok m) ->
  valid_rules data h 3 6 8 12 16 (h_mount_offset h) count index = Ok true.
Proof.
  revert index. induction count as [|count IH]; intros index Hm; [done|].
  destruct (Hm index ltac:(lia)) as (m & Hd). apply decode_mount_inv in Hd as (B1 & B2 & B3 & S1 & S2).
  cbn [valid_rules]. rewrite Z.add_0_r in B3. rewrite B3. cbn [mbind outcome_bind].
  rewrite B1. cbn [mbind outcome_bind]. unfold ReadLe16. rewrite B2. cbn [mbind outcome_bind].
  unfold ReadLe32. rewrite (policy_string_at _ _ _ S1), (policy_string_at _ _ _ S2).
  replace (_ || _) with false; [apply IH; intros j Hj; apply Hm; lia|].
  by destruct (m_action m).
Qed.

Lemma decode_rules_lookup {A} (read : Z -> checked A) table rule_size first count l j x :
  decode_rules read table rule_size first count = Ok l -> l !! j = Some x ->
  read (table + u32 (first + Z.of_nat j) * rule_size) = Ok x.
Proof.
  unfold decode_rules. intros H Hj.
  assert (forall n acc k start, size acc = start -> fold_outcome (fun rules rule_index =>
      rule ← read (table + u32 (first + rule_index) * rule_size); Ok (rules ++ [rule])) acc
      (seqZ start (Z.of_nat n)) = Ok k -> forall j x, (length acc <= j)%nat -> k !! j = Some x ->
      read (table + u32 (first + Z.of_nat j) * rule_size) = Ok x) as Hgen.
  { clear. induction n as [|n IH]; intros acc k start Hs Hk j x Hle Hj.
    - cbn in Hk. injection Hk as <-. apply lookup_lt_Some in Hj. lia.
    - rewrite seqZ_step in Hk. cbn [fold_outcome] in Hk. apply bind_Ok in Hk as (acc' & Ha & Hk).
      apply bind_Ok in Ha as (r & Hr & [= <-]).
      destruct (decide (j = length acc)) as [->|Hne].
      + assert (k !! length acc = Some r) as Hkr.
        { assert (prefix (acc ++ [r]) k) as [more ->].
          { clear -Hk. revert k Hk. generalize (seqZ (start + 1) (Z.of_nat n)), (acc ++ [r]).
            intros todo. induction todo as [|i todo IHt]; intros a k Hk; cbn in Hk.
            - injection Hk as <-. done.
            - apply bind_Ok in Hk as (a' & Ha & Hk). apply bind_Ok in Ha as (y & _ & [= <-]).
              apply IHt in Hk as [more ->]. exists ([y] ++ more). by rewrite <- app_assoc. }
          rewrite <- app_assoc. by apply list_lookup_middle. }
        rewrite Hkr in Hj. injection Hj as <-. unfold size in Hs. by rewrite Hs.
      + apply (IH (acc ++ [r]) k (start + 1)); try done.
        * rewrite size_app. unfold size in *. cbn. lia.
        * rewrite length_app. cbn. lia. }
  destruct (Z_lt_le_dec count 0) as [Hneg|Hpos].
  { rewrite seqZ_nil in H by lia. injection H as <-. done. }
  rewrite <- (Z2Nat.id count) in H by done. eapply (Hgen _ [] l 0); [done|exact H|cbn; lia|done].
Qed.

(** The mount records between two states of the decoder. *)
Lemma mounts_readable count st index final :
  fold_outcome (decode_app data h) st (seqZ index (Z.of_nat count)) = Ok final ->
  0 <= expected_first_mount st <= h_mount_count h ->
  forall j, expected_first_mount st <= j < expected_first_mount final ->
  exists m, decode_mount data h (h_mount_offset h + j * 16) = Ok m.
Proof.
  revert st index. induction count as [|count IH]; intros st index H Hst j Hj.
  { cbn in H. injection H as <-. lia. }
  apply fold_entries_step in H as (st' & app & us & ps & ms & gen & Hd & H).
  destruct Hd. destruct de_ranges0 as (_ & _ & _ & _ & R5 & _), de_next0 as (_ & _ & _ & E1 & _).
  destruct de_mounts0 as (Hms & Hsz & _). pose proof (size_nonneg (mounts app)). destruct Hh.
  rewrite u32_small in R5 by lia. rewrite u32_small in E1 by lia.
  destruct (Z_lt_le_dec j (expected_first_mount st + size (mounts app))) as [Hlt|Hge].
  - destruct (lookup_lt_is_Some_2 ms (Z.to_nat (j - expected_first_mount st))) as [m Hm].
    { unfold size in *. lia. }
    exists m. pose proof (decode_rules_lookup _ _ _ _ _ _ _ _ Hms Hm) as Hread.
    rewrite Z2Nat.id in Hread by lia.
    replace (expected_first_mount st + (j - expected_first_mount st)) with j in Hread by lia.
    by rewrite u32_small in Hread by lia.
  - apply (IH st' (index + 1) H); lia.
Qed.

Lemma decode_event_inv rule e :
  decode_event data h rule = Ok e ->
  read_byte (E:=option ParseError) data (rule + 1) = Ok 0
  /\ read_le (E:=option ParseError) 2 data (rule + 2) = Ok 0
  /\ read_byte (E:=option ParseError) data (rule + 0) = Ok (event_action_value (e_action e))
  /\ (exists o, Read32 (E:=option ParseError) data (rule + 4) = Ok o
        /\ ReadString (E:=option ParseError) data (h_string_offset h) o
           = Ok (Some (e_source_path e)))
  /\ (exists o, Read32 (E:=option ParseError) data (rule + 8) = Ok o
        /\ ReadString (E:=option ParseError) data (h_string_offset h) o
           = Ok (Some (e_target_path e))).
Proof.
  unfold decode_event, Read16, kEventActionOffset, kEventOptionsOffset, kEventSourcePathOffset,
    kEventTargetPathOffset. intros H. do 7 run_step H. injection H as <-.
  split_tests. subst v v0. cbn. split_and!; try done. rewrite Hread1. f_equal.
  change (event_action_value kExport) with 1 in *. apply read_le_range in Hread1.
  assert (v1 = 0 \/ v1 = 1) as [->| ->] by lia; done.
Qed.

Lemma valid_events_ok count index :
  (forall j, index <= j < index + Z.of_nat count ->
     exists e, decode_event data h (h_event_offset h + j * 16) = Ok e) ->
  valid_rules data h 1 2 4 8 16 (h_event_offset h) count index = Ok true.
Proof.
  revert index. induction count as [|count IH]; intros index Hm; [done|].
  destruct (Hm index ltac:(lia)) as (m & Hd). apply decode_event_inv in Hd as (B1 & B2 & B3 & S1 & S2).
  cbn [valid_rules]. rewrite Z.add_0_r in B3. rewrite B3. cbn [mbind outcome_bind].
  rewrite B1. cbn [mbind outcome_bind]. unfold ReadLe16. rewrite B2. cbn [mbind outcome_bind].
  unfold ReadLe32. rewrite (policy_string_at _ _ _ S1), (policy_string_at _ _ _ S2).
  replace (_ || _) with false; [apply IH; intros j Hj; apply Hm; lia|].
  by destruct (e_action m).
Qed.

Lemma events_readable count st index final :
  fold_outcome (decode_app data h) st (seqZ index (Z.of_nat count)) = Ok final ->
  0 <= expected_first_event st <= h_event_count h ->
  forall j, expected_first_event st <= j < expected_first_event final ->
  exists e, decode_event data h (h_event_offset h + j * 16) = Ok e.
Proof.
  revert st index. induction count as [|count IH]; intros st index H Hst j Hj.
  { cbn in H. injection H as <-. lia. }
  apply fold_entries_step in H as (st' & app & us & ps & ms & gen & Hd & H).
  destruct Hd. destruct de_ranges0 as (_ & _ & _ & _ & _ & R6), de_next0 as (_ & _ & _ & _ & E2).
  destruct de_events0 as (es & Hes & Hsz). pose proof (size_nonneg (events app)). destruct Hh.
  rewrite u32_small in R6 by lia. rewrite u32_small in E2 by lia.
  destruct (Z_lt_le_dec j (expected_first_event st + size (events app))) as [Hlt|Hge].
  - destruct (lookup_lt_is_Some_2 es (Z.to_nat (j - expected_first_event st))) as [e He].
    { unfold size in *. lia. }
    exists e. pose proof (decode_rules_lookup _ _ _ _ _ _ _ _ Hes He) as Hread.
    rewrite Z2Nat.id in Hread by lia.
    replace (expected_first_event st + (j - expected_first_event st)) with j in Hread by lia.
    by rewrite u32_small in Hread by lia.
  - apply (IH st' (index + 1) H); lia.
Qed.

(** The entry each decoded package comes from. *)
Lemma entry_of_app count st index final k app :
  fold_outcome (decode_app data h) st (seqZ index (Z.of_nat count)) = Ok final ->
  0 <= expected_first_mount st <= h_mount_count h ->
  0 <= expected_first_event st <= h_event_count h ->
  d_apps final !! (length (d_apps st) + k)%nat = Some app ->
  exists st1 st2 us ps ms gen,
    decoded_entry data h st1 (index + Z.of_nat k) st2 app us ps ms gen
    /\ 0 <= expected_first_mount st1 <= h_mount_count h
    /\ 0 <= expected_first_event st1 <= h_event_count h.
Proof.
  revert st index k. induction count as [|count IH]; intros st index k H Hst Hse Hk.
  { cbn in H. injection H as <-. apply lookup_lt_Some in Hk. lia. }
  apply fold_entries_step in H as (st' & app' & us & ps & ms & gen & Hd & H).
  pose proof (de_state _ _ _ _ _ _ _ _ _ _ Hd) as Hs. destruct k as [|k].
  - rewrite Z.add_0_r. rewrite Nat.add_0_r in Hk.
    assert (d_apps final !! length (d_apps st) = Some app') as Hk'.
    { assert (prefix (d_apps st') (d_apps final)) as [more ->].
      { clear -H. revert st' index H. induction count as [|count IH]; intros st' index H.
        - cbn in H. by injection H as <-.
        - apply fold_entries_step in H as (st2 & a & us & ps & ms & gen & Hd & H).
          apply IH in H. rewrite (de_state _ _ _ _ _ _ _ _ _ _ Hd) in H.
          etransitivity; [|exact H]. by eexists. }
      rewrite Hs, <- app_assoc. by apply list_lookup_middle. }
    rewrite Hk in Hk'. injection Hk' as ->. eauto 10.
  - destruct Hd. destruct de_ranges0 as (_ & _ & _ & _ & R5 & R6), de_next0 as (_ & _ & _ & E1 & E2).
    pose proof (size_nonneg (mounts app')). pose proof (size_nonneg (events app')). destruct Hh.
    rewrite u32_small in R5, R6 by lia. rewrite u32_small in E1, E2 by lia.
    destruct (IH st' (index + 1) k H) as (st1 & st2 & us1 & ps1 & ms1 & gen1 & Hd1 & Hr1).
    + lia.
    + lia.
    + rewrite Hs, length_app. cbn. by replace (length (d_apps st) + 1 + k)%nat
        with (length (d_apps st) + S k)%nat by lia.
    + replace (index + Z.of_nat (S k)) with (index + 1 + Z.of_nat k) by lia. eauto 10.
Qed.
End Checks.

(** ** A file the decoder accepts *)

Record accepted (data : bytes) (h : Header) (final : DecodeState) (doc : PolicyDocument)
    (generation : Z) : Prop := {
  ac_size : kHeaderSize <= size data;
  ac_header : read_header data = Ok h;
  ac_fields : header_fields_ok data h = true;
  ac_ok : header_ok data h;
  ac_fold : fold_outcome (decode_app data h) new_decode_state (seqZ 0 (h_package_count h))
            = Ok final;
  ac_mounts : expected_first_mount final = h_mount_count h;
  ac_events : expected_first_event final = h_event_count h;
  ac_apps : apps doc = d_apps final;
  ac_legacy : allow_legacy_string_bind doc
              = (Z.land (h_flags h) kPolicyFlagAllowLegacyStringBind != 0);
  ac_mode : failure_mode doc = FailureMode_kOpen;
  ac_generation : Read64 (E:=option ParseError) data kContentGenerationOffset = Ok generation;
}.

Lemma header_fields_ok_true data h :
  header_in_range h -> bad_header data h = false -> header_fields_ok data h = true.
Proof.
  intros (_ & Hp & _ & _) Hb. unfold bad_header in Hb. unfold header_fields_ok. split_tests.
  rewrite !andb_true_iff. split_and!;
    first [ by apply bool_decide_eq_true_2 | apply Z.ltb_lt; lia ].
Qed.

Lemma DecodePolicy_accepted data doc generation :
  DecodePolicy data = Ok (doc, generation) -> exists h final, accepted data h final doc generation.
Proof.
  intros H. pose proof (ensures_Ok _ _ _ (DecodePolicy_ensures data) H) as [_ Hmode _ _ _ _].
  cbn in Hmode.
  unfold DecodePolicy in H. destruct (Z.ltb_spec (size data) kHeaderSize) as [|Hsize]; [done|].
  apply bind_Ok in H as (h & Hh & H). run_step H.
  pose proof (ensures_Ok _ _ _ (read_header_ensures data Hsize) Hh) as Hr.
  apply bind_Ok in H as (final & Hf & H). run_step H. run_step H. run_step H.
  injection H as <- <-. split_tests. exists h, final.
  split; cbn; try done; [by apply header_fields_ok_true|by apply bad_header_false].
Qed.

Lemma valid_header_ok data h final doc generation :
  accepted data h final doc generation -> valid_header data h = Ok true.
Proof.
  intros []. unfold valid_header. rewrite ac_fields0. pose proof ac_ok0 as [].
  rewrite <- (Z2Nat.id (h_package_count h)) in ac_fold0 by lia.
  unfold ValidPackageIndex.
  rewrite (valid_package_index_ok data h ac_ok0 _ new_decode_state 0 final) by done.
  cbn [mbind outcome_bind]. unfold ValidPolicyTables.
  rewrite (valid_package_ranges_ok data h _ new_decode_state 0 final) by done.
  cbn [mbind outcome_bind]. rewrite ac_mounts0, ac_events0.
  rewrite !bool_decide_eq_true_2 by done. cbn [negb orb].
  unfold kMountVisiblePathOffset, kMountBackingPathOffset, kMountRuleSize,
    kEventSourcePathOffset, kEventTargetPathOffset, kEventRuleSize.
  rewrite (valid_mounts_ok data h ac_ok0).
  - cbn [mbind outcome_bind]. apply (valid_events_ok data h ac_ok0). intros j Hj.
    apply (events_readable data h ac_ok0 _ _ _ _ ac_fold0); cbn; lia.
  - intros j Hj. apply (mounts_readable data h ac_ok0 _ _ _ _ ac_fold0); cbn; lia.
Qed.

(** ** The lookup *)

Lemma cut_text s v r : cut x00 s = (v, Some r) -> s = v ++ x00 :: r /\ x00 ∉ v.
Proof. intros E. pose proof (cut_spec x00 s) as Hc. by rewrite E in Hc. Qed.

(** Two terminated texts that agree on the terminated first one are equal. *)
Lemma starts_with_terminated name v r :
  x00 ∉ name -> x00 ∉ v -> starts_with (name ++ [x00]) (v ++ x00 :: r) = (name == v).
Proof.
  intros Hn Hv. apply eq_true_iff_eq. rewrite starts_with_spec, bool_decide_eq_true. split.
  - intros [t Et]. rewrite <- app_assoc in Et. cbn in Et.
    pose proof (cut_app x00 v r Hv) as E1. pose proof (cut_app x00 name t Hn) as E2.
    rewrite Et, E2 in E1. congruence.
  - intros ->. exists r. by rewrite <- app_assoc.
Qed.

Lemma index_view_valid data h :
  header_ok data h -> ValidPolicyIndex (index_view data h) = true.
Proof.
  intros []. unfold ValidPolicyIndex, kPackageSize.
  cbn [index_view view_data view_size view_package_count view_package_offset view_package_end
       view_string_offset].
  rewrite bool_decide_eq_false_2 by done. rewrite !andb_true_iff. split_and!; try done;
    apply Z.leb_le; try lia.
  replace (h_mount_offset h - h_package_offset h) with (h_package_count h * 48) by lia.
  rewrite Z.div_mul by lia. lia.
Qed.

Lemma FindPackageEntry_in_table data h name :
  header_ok data h -> name <> [] ->
  exists r, FindPackageEntry (E:=option ParseError) (index_view data h) name = Ok r
    /\ forall o, r = Some o ->
         exists k, 0 <= k < h_package_count h /\ o = h_package_offset h + k * 48.
Proof.
  intros Hh Hne. pose proof (index_view_valid data h Hh) as Hvalid. destruct Hh.
  destruct (FindPackageEntry_spec (E:=option ParseError) (index_view data h) data name Hvalid)
    as (r & Er & Hs & _); [split_and!; cbn; (done || lia)|done|].
  exists r. split; [done|]. intros o Ho. destruct (Hs o Ho) as (k & (Hk & _) & ->). by exists k.
Qed.

Section Lookup.
Context (data : bytes) (h : Header) (final : DecodeState) (doc : PolicyDocument) (generation : Z).
Hypothesis Hacc : accepted data h final doc generation.

Lemma app_entry k app :
  apps doc !! k = Some app ->
  exists st1 st2 us ps ms gen,
    decoded_entry data h st1 (Z.of_nat k) st2 app us ps ms gen
    /\ 0 <= expected_first_mount st1 <= h_mount_count h
    /\ 0 <= expected_first_event st1 <= h_event_count h.
Proof.
  destruct Hacc. rewrite ac_apps0. intros Hk. pose proof ac_ok0 as [].
  rewrite <- (Z2Nat.id (h_package_count h)) in ac_fold0 by lia.
  apply (entry_of_app data h ac_ok0 _ _ 0 final k app ac_fold0); [cbn; lia|cbn; lia|exact Hk].
Qed.

Lemma app_count : size (apps doc) = h_package_count h.
Proof.
  destruct Hacc. rewrite ac_apps0. pose proof ac_ok0 as [].
  rewrite <- (Z2Nat.id (h_package_count h)) by lia.
  rewrite <- (Z2Nat.id (h_package_count h)) in ac_fold0 by lia.
  clear -ac_fold0 ac_ok0.
  assert (forall count st index, fold_outcome (decode_app data h) st (seqZ index (Z.of_nat count))
    = Ok final -> size (d_apps final) = size (d_apps st) + Z.of_nat count) as Hgen.
  { induction count as [|count IH]; intros st index H.
    - cbn in H. injection H as <-. lia.
    - apply fold_entries_step in H as (st2 & a & us & ps & ms & gen & Hd & H).
      apply IH in H. rewrite (de_state _ _ _ _ _ _ _ _ _ _ Hd), size_app in H.
      unfold size in *. cbn in *. lia. }
  rewrite (Hgen _ _ _ ac_fold0). unfold size. cbn. lia.
Qed.

Lemma app_hash k app :
  apps doc !! k = Some app ->
  hash_at (index_view data h) data (Z.of_nat k) = PackageNameHash (package app).
Proof.
  intros (st1 & st2 & us & ps & ms & gen & Hd & _)%app_entry.
  destruct Hd. apply read_le_Ok in de_hash0 as (_ & _ & Eh). rewrite Z.add_0_r in Eh.
  rewrite Eh. reflexivity.
Qed.

Lemma app_name k app name :
  apps doc !! k = Some app -> x00 ∉ name ->
  name_at (index_view data h) data name (Z.of_nat k) = (name == package app).
Proof.
  intros (st1 & st2 & us & ps & ms & gen & Hd & _)%app_entry Hn.
  destruct Hd. destruct de_name0 as (o & Ho & Hs).
  pose proof (read_le_range _ _ _ _ Ho). apply read_le_Ok in Ho as (_ & _ & Eo).
  destruct Hacc. pose proof ac_ok0 as [].
  unfold ReadString in Hs. destruct (_ || _) eqn:Eb; [done|]. split_tests.
  rewrite u32_small in Hs by lia. destruct (_ <? _) in Hs; [done|].
  destruct (cut x00 _) as [v [r|]] eqn:Ec; [|done]. injection Hs as ->.
  apply cut_text in Ec as [Ed Hv]. unfold name_at.
  assert (name_offset_at (index_view data h) data (Z.of_nat k) = o) as Eno
    by (rewrite Eo; reflexivity).
  rewrite Eno. cbn [index_view view_string_offset].
  rewrite (proj2 (Z.ltb_lt _ _)) by lia. cbn [andb].
  rewrite Ed. by apply starts_with_terminated.
Qed.

Lemma package_keys_sorted : strictly_sorted_by package_key (apps doc).
Proof.
  destruct Hacc. rewrite ac_apps0. pose proof ac_ok0 as Hok.
  refine (di_sorted _ _ _ (ensures_Ok _ _ _ (ensures_fold _ (decode_inv h) _ _ _ _) ac_fold0)).
  - destruct Hok. split; cbn [new_decode_state d_apps d_failure_mode previous_hash
      previous_package expected_first_mount expected_first_event]; try done; try by constructor.
    + change (total_mounts []) with 0. lia.
    + change (total_events []) with 0. lia.
  - intros pre i post s El Hinv.
    assert (seqZ 0 (h_package_count h) !! length pre = Some i) as Hi.
    { rewrite El. by rewrite list_lookup_middle. }
    apply lookup_seqZ in Hi as [-> Hlt].
    apply decode_app_ensures; unfold size; try done; lia.
Qed.

Lemma strictly_sorted_lookup {A K} `{Ordered K} (key : A -> K) l i j x y :
  strictly_sorted_by key l -> l !! i = Some x -> l !! j = Some y -> (i < j)%nat ->
  cmp (key x) (key y) = Lt.
Proof.
  unfold strictly_sorted_by. intros Hs. revert i j. induction Hs as [|z l Hl IH Hz];
    intros i j Hi Hj Hlt; [done|].
  destruct j as [|j]; [lia|]. destruct i as [|i]; cbn in *.
  - injection Hi as <-. rewrite Forall_forall in Hz. apply Hz. by eapply list_elem_of_lookup_2.
  - apply (IH i j); [done..|lia].
Qed.

(** Packages are distinct, and the hashes ascend. *)
Lemma same_package_same_app i j a b :
  apps doc !! i = Some a -> apps doc !! j = Some b -> package a = package b -> i = j /\ a = b.
Proof.
  intros Hi Hj Hp. destruct (Nat.lt_total i j) as [Hlt|[->|Hlt]].
  - pose proof (strictly_sorted_lookup package_key _ _ _ _ _ package_keys_sorted Hi Hj Hlt) as E.
    unfold package_key in E. by rewrite Hp, cmp_refl in E.
  - split; [done|]. congruence.
  - pose proof (strictly_sorted_lookup package_key _ _ _ _ _ package_keys_sorted Hj Hi Hlt) as E.
    unfold package_key in E. by rewrite Hp, cmp_refl in E.
Qed.

Lemma app_at i : 0 <= i < h_package_count h -> exists app, apps doc !! Z.to_nat i = Some app.
Proof.
  intros Hi. apply lookup_lt_is_Some_2. pose proof app_count. unfold size in *. lia.
Qed.

Lemma hashes_ascend i j :
  0 <= i <= j -> j < h_package_count h ->
  hash_at (index_view data h) data i <= hash_at (index_view data h) data j.
Proof.
  intros Hi Hj. destruct (app_at i ltac:(lia)) as [a Ha]. destruct (app_at j ltac:(lia)) as [b Hb].
  pose proof (app_hash _ _ Ha) as Ea. pose proof (app_hash _ _ Hb) as Eb.
  rewrite Z2Nat.id in Ea, Eb by lia. rewrite Ea, Eb.
  destruct (Z.eq_dec i j) as [->|Hne]; [rewrite Ha in Hb; injection Hb as ->; lia|].
  pose proof (strictly_sorted_lookup package_key _ _ _ _ _ package_keys_sorted Ha Hb ltac:(lia)) as E.
  cbn in E. unfold pair_compare in E. cbn in E.
  destruct (Z.compare_spec (PackageNameHash (package a)) (PackageNameHash (package b))); [lia..|done].
Qed.

Lemma find_entry name :
  name <> [] -> x00 ∉ name ->
  match List.find (fun app => package app == name) (apps doc) with
  | Some app => exists k, apps doc !! k = Some app
      /\ FindPackageEntry (E:=option ParseError) (index_view data h) name
         = Ok (Some (h_package_offset h + Z.of_nat k * 48))
  | None => FindPackageEntry (E:=option ParseError) (index_view data h) name = Ok None
  end.
Proof.
  intros Hne Hnul. pose proof app_count as Hcount. pose proof Hacc as [].
  pose proof ac_ok0 as [].
  pose proof (index_view_valid data h ac_ok0) as Hvalid.
  destruct (FindPackageEntry_spec (E:=option ParseError) (index_view data h) data name Hvalid)
    as (r & Er & Hsound & Hcomp); [split_and!; cbn; (done || lia)|done|].
  specialize (Hcomp hashes_ascend). rewrite Er.
  destruct (List.find _ (apps doc)) as [app|] eqn:Ef.
  - apply find_some in Ef as [Hin Hp%bool_decide_eq_true].
    apply list_elem_of_In, list_elem_of_lookup_1 in Hin as [k Hk]. exists k. split; [done|].
    unfold find_package_reference in Hcomp.
    destruct (List.find _ (seqZ _ _)) as [i|] eqn:Ei; cbn in Hcomp; subst r.
    + apply find_some in Ei as [Hin Hm%andb_true_iff].
      apply list_elem_of_In, elem_of_seqZ in Hin. cbn [index_view view_package_count] in Hin.
      destruct (app_at i ltac:(lia)) as [b Hb]. pose proof (app_name _ _ name Hb Hnul) as En.
      rewrite Z2Nat.id in En by lia. rewrite En in Hm. destruct Hm as [_ Hm%bool_decide_eq_true].
      destruct (same_package_same_app _ _ _ _ Hk Hb) as [-> _]; [congruence|].
      unfold entry_offset, kPackageSize. cbn. by rewrite Z2Nat.id by lia.
    + exfalso. eapply find_none in Ei.
      2: { apply list_elem_of_In, (elem_of_seqZ 0 _ (Z.of_nat k)).
           cbn. apply lookup_lt_Some in Hk. unfold size in Hcount. lia. }
      cbn in Ei. rewrite (app_hash _ _ Hk), (app_name _ _ _ Hk Hnul), Hp in Ei.
      rewrite Z.eqb_refl, bool_decide_eq_true_2 in Ei by done. done.
  - destruct r as [o|]; [|done]. destruct (Hsound o eq_refl) as (i & (Hi & _ & Hm) & _).
    cbn in Hi. destruct (app_at i Hi) as [b Hb]. pose proof (app_name _ _ name Hb Hnul) as En.
    rewrite Z2Nat.id in En by lia. rewrite Hm in En. symmetry in En.
    apply bool_decide_eq_true in En. apply list_elem_of_lookup_2, list_elem_of_In in Hb.
    apply (find_none _ _ Ef) in Hb. rewrite bool_decide_eq_true_2 in Hb by done. done.
Qed.
End Lookup.

(** ** The scope *)

Lemma list_loop_elem items expected :
  Forall (fun item => item <> []) items ->
  list_loop items expected = bool_decide (expected ∈ items).
Proof.
  induction 1 as [|item items Hne _ IH]; [done|]. cbn [list_loop].
  rewrite (bool_decide_eq_false_2 (item = [])) by done. cbn [andb].
  destruct (decide (item = expected)) as [->|Hd].
  - rewrite bool_decide_eq_true_2 by done. symmetry. apply bool_decide_eq_true_2. by left.
  - rewrite bool_decide_eq_false_2 by done. rewrite IH. apply bool_decide_ext.
    rewrite elem_of_cons. naive_solver.
Qed.

Lemma Split_items raw items :
  Split raw = Some items -> items = split_on x2c raw /\ Forall (fun item => item <> []) items.
Proof.
  unfold Split. destruct (existsb _ _) eqn:Ee; [done|]. intros [= <-]. split; [done|].
  apply Forall_forall. intros item Hin ->. apply not_true_iff_false in Ee. apply Ee.
  apply existsb_exists. exists []. split; [by apply list_elem_of_In|done].
Qed.

Lemma Split_star raw items : Split raw = Some items -> (raw = lit "*" <-> items = [lit "*"]).
Proof.
  intros [E _]%Split_items. rewrite E. split; [by intros ->|].
  intros H. rewrite <- (join_split x2c raw), H. done.
Qed.

Lemma ListContains_items raw items expected :
  Split raw = Some items ->
  ListContains raw expected = (items == [lit "*"]) || bool_decide (expected ∈ items).
Proof.
  intros Hs. pose proof (Split_star _ _ Hs) as Hstar. apply Split_items in Hs as [E Hne].
  unfold ListContains. destruct (decide (raw = lit "*")) as [Hr|Hr].
  - rewrite bool_decide_eq_true_2 by done.
    rewrite (bool_decide_eq_true_2 (items = _)) by by apply Hstar. done.
  - rewrite bool_decide_eq_false_2 by done.
    rewrite (bool_decide_eq_false_2 (items = _)) by by rewrite <- Hstar.
    rewrite <- E. by apply list_loop_elem.
Qed.

Lemma perm_single {A} (l k : list A) x : l ≡ₚ k -> (l = [x] <-> k = [x]).
Proof.
  intros Hp. split; intros ->; [by apply Permutation_length_1_inv in Hp|].
  symmetry in Hp. by apply Permutation_length_1_inv in Hp.
Qed.

Lemma scope_list (l k : list bytes) expected :
  l ≡ₚ k ->
  (l == [lit "*"]) || bool_decide (expected ∈ l) = (k == [lit "*"]) || bool_decide (expected ∈ k).
Proof.
  intros Hp. f_equal; apply bool_decide_ext; [by apply perm_single|by rewrite Hp].
Qed.

Lemma NormalizeUsers_perm us us' : NormalizeUsers us = Some us' -> us ≡ₚ us'.
Proof.
  unfold NormalizeUsers. case_bool_decide; [by intros [= <-]|].
  destruct (forallb _ us); [|done]. intros [= <-]. by rewrite sort_by_perm.
Qed.

Lemma starts_with_colon name process :
  starts_with name process
  && match drop (length name) process with c :: _ => c == x3a | [] => false end
  = starts_with (name ++ [x3a]) process.
Proof.
  apply eq_true_iff_eq. rewrite andb_true_iff, !starts_with_spec. split.
  - intros [[t ->] Hc]. rewrite drop_app_length in Hc. destruct t as [|c t]; [done|].
    apply bool_decide_eq_true in Hc as ->. exists t. by rewrite <- app_assoc.
  - intros [t ->]. rewrite <- app_assoc. split; [by eexists|]. by rewrite drop_app_length.
Qed.

Lemma scope_ok data h st1 k st2 app us ps ms gen process uid :
  decoded_entry data h st1 k st2 app us ps ms gen ->
  ProcessMatches (package app) ps process && ListContains us (print_int (Z.quot uid 100000))
  = in_scope app process uid.
Proof.
  intros []. destruct de_lists0 as (ul & pl & Hu & Hp & Hn & Ep). unfold in_scope. f_equal.
  - unfold ProcessMatches. pose proof (Split_star _ _ Hp) as Hstar.
    assert (pl ≡ₚ processes app) as Hperm by (rewrite Ep; by rewrite sort_by_perm).
    pose proof (perm_single _ _ (lit "*") Hperm) as Hsingle.
    destruct (decide (ps = lit "*")) as [E|E].
    + rewrite (bool_decide_eq_true_2 (ps = lit "*")) by done. cbn [negb].
      rewrite (bool_decide_eq_true_2 (processes app = _)) by tauto.
      rewrite starts_with_colon. f_equal. apply bool_decide_ext. done.
    + rewrite (bool_decide_eq_false_2 (ps = lit "*")) by done. cbn [negb].
      rewrite (bool_decide_eq_false_2 (processes app = _)) by tauto.
      rewrite (ListContains_items _ _ _ Hp).
      rewrite (bool_decide_eq_false_2 (pl = _)) by tauto. cbn [orb].
      apply bool_decide_ext. by rewrite Hperm.
  - rewrite (ListContains_items _ _ _ Hu). apply scope_list. by apply NormalizeUsers_perm.
Qed.

(** ** The rules *)

Lemma safe_components_valid items : Forall valid_component items -> safe_components items = true.
Proof.
  induction 1 as [|item items Hv _ IH]; [done|]. cbn [safe_components].
  destruct Hv as (Hne & _ & Hd & Hdd).
  rewrite (bool_decide_eq_false_2 _ Hne), (bool_decide_eq_false_2 _ Hd),
    (bool_decide_eq_false_2 _ Hdd). exact IH.
Qed.

Lemma IsAllowedTarget_visible visible : visible_ok visible -> IsAllowedTarget visible = true.
Proof.
  intros (Ho & Hc & [_ _ Hv]). unfold IsAllowedTarget.
  rewrite !(proj2 (contains_false _ _)) by done. cbn [negb]. rewrite !andb_true_r.
  unfold HasSafePathComponents. destruct visible as [|c rest] eqn:E.
  { cbn in Hv. apply Forall_cons in Hv as [(Hne & _) _]. done. }
  case_bool_decide as Ec.
  - subst c. cbn in Hv. apply Forall_cons in Hv as [(Hne & _) _]. done.
  - by apply safe_components_valid.
Qed.

Lemma expand_runtime_no_nul user capacity current skip output out :
  no_nul user -> no_nul current -> no_nul output ->
  expand_runtime user capacity current skip output = Some out -> no_nul out.
Proof.
  unfold no_nul. intros Hu. revert skip output. induction current as [|c rest IH];
    intros skip output Hc Ho; cbn [expand_runtime]; [by intros [= <-]|].
  apply not_elem_of_cons in Hc as [Hc Hrest].
  destruct skip as [|skip]; [|by apply IH].
  destruct (starts_with _ _).
  - destruct (_ <=? _); [done|]. apply IH; [done|]. rewrite not_elem_of_app. done.
  - destruct (_ || _); [done|]. apply IH; [done|].
    rewrite not_elem_of_app, list_elem_of_singleton. done.
Qed.

Lemma to_string_no_nul z : 0 <= z -> no_nul (to_string z).
Proof.
  intros Hz. destruct (to_string_spec z Hz) as [Hne Hv]. apply digits_value_is_digit in Hv.
  rewrite forallb_forall in Hv. intros Hin%list_elem_of_In%Hv. done.
Qed.

Lemma ExpandRuntimePath_no_nul input user capacity out :
  0 <= user -> no_nul input -> ExpandRuntimePath input user capacity = Some out -> no_nul out.
Proof.
  intros Hu Hi. unfold ExpandRuntimePath. destruct (_ <=? _); [done|].
  intros (o & Ho & H)%bind_Some. destruct (IsAllowedTarget o); [|done]. injection H as <-.
  eapply expand_runtime_no_nul; [by apply to_string_no_nul|exact Hi|apply not_elem_of_nil|exact Ho].
Qed.

(** The buffer and the offsets the loop produces. *)
Fixpoint plan_text (rules : list (Z * bytes * bytes)) : bytes :=
  match rules with
  | [] => []
  | (_, visible, backing) :: rest => visible ++ x00 :: backing ++ x00 :: plan_text rest
  end.

Fixpoint plan_offsets (start : Z) (rules : list (Z * bytes * bytes)) : list PlannedMount :=
  match rules with
  | [] => []
  | (action, visible, backing) :: rest =>
      {| pm_action := action; pm_visible_path := start;
         pm_backing_path := start + size visible + 1 |}
      :: plan_offsets (start + size visible + 1 + size backing + 1) rest
  end.

Lemma size_plan_text rules : size (plan_text rules) = rules_bytes rules.
Proof.
  induction rules as [|[[a v] b] rules IH]; [done|]. cbn [plan_text rules_bytes foldr fst snd].
  fold (rules_bytes rules). rewrite size_app, size_cons, size_app, size_cons, IH. lia.
Qed.

Lemma rules_bytes_nonneg rules : 0 <= rules_bytes rules.
Proof. rewrite <- size_plan_text. apply size_nonneg. Qed.

(** What the loop needs to know of one decoded rule. *)
Definition rule_readable (data : bytes) (h : Header) (first : Z) (index : Z)
    (m : LogicalMountRule) : Prop :=
  exists package m', decode_mount data h (h_mount_offset h + u32 (first + index) * 16) = Ok m'
    /\ erase_mount m' = erase_mount m /\ mount_canonical package m.

Lemma load_rule_spec data h uid first state index m :
  header_ok data h -> rule_readable data h first index m ->
  load_rule data h uid first state index =
  Ok (match plan_rule uid m with
      | Some (action, visible, backing) =>
          '(visible_path, buffer) ← StorePlanPath state.2 visible;
          '(backing_path, buffer) ← StorePlanPath buffer backing;
          Some (state.1 ++ [{| pm_action := action; pm_visible_path := visible_path;
                               pm_backing_path := backing_path |}], buffer)
      | None => None
      end).
Proof.
  intros Hh (package & m' & Hd & He & Hc).
  apply (decode_mount_inv data h) in Hd as (B1 & B2 & B3 & S1 & S2).
  assert (m_action m' = m_action m /\ m_visible_path m' = m_visible_path m
          /\ m_backing_path m' = m_backing_path m) as (E1 & E2 & E3)
    by (unfold erase_mount in He; by injection He as -> -> -> _ _).
  rewrite E1 in B3. rewrite E2 in S1. rewrite E3 in S2.
  unfold load_rule, kMountRuleSize, kMountActionOffset, kMountVisiblePathOffset,
    kMountBackingPathOffset, ReadLe32. rewrite B3. cbn [mbind outcome_bind].
  rewrite (policy_string_at data h Hh _ _ _ S1), (policy_string_at data h Hh _ _ _ S2).
  rewrite B1. cbn [mbind outcome_bind]. unfold ReadLe16. rewrite B2. cbn [mbind outcome_bind].
  unfold plan_rule, mount_canonical in *.
  destruct (m_action m) eqn:Ea; cbn [mount_action_value]; [| |reflexivity|reflexivity].
  - destruct Hc as (Hv & _ & Hb). rewrite IsAllowedTarget_visible by done. rewrite Hb. cbn.
    destruct Hv as (_ & _ & [Hs _ _]). unfold kMaxLogicalPathBytes in Hs.
    by rewrite (proj2 (Z.leb_gt _ _)) by (unfold PATH_MAX; lia).
  - destruct Hc as (Hv & _ & Hb). rewrite IsAllowedTarget_visible by done.
    change (IsExecutableMountAction 1) with true. change (1 == kDenyAction) with false.
    cbn [negb orb bool_decide]. rewrite !bool_decide_eq_true_2 by done. cbn [negb orb].
    destruct (ExpandRuntimePath _ _ _) as [backing|]; [|done]. cbn [mbind option_bind].
    destruct Hv as (_ & _ & [Hs _ _]). unfold kMaxLogicalPathBytes in Hs.
    by rewrite (proj2 (Z.leb_gt _ _)) by (unfold PATH_MAX; lia).
Qed.

Lemma store_two buffer visible backing :
  ('(visible_path, buffer) ← StorePlanPath buffer visible;
   '(backing_path, buffer) ← StorePlanPath buffer backing;
   Some (visible_path, backing_path, buffer))
  = if kMaxPlanPathBytes <? size buffer + (size visible + 1) + (size backing + 1) then None
    else Some (size buffer, size buffer + size visible + 1,
               buffer ++ visible ++ x00 :: backing ++ [x00]).
Proof.
  unfold StorePlanPath. pose proof (size_nonneg visible). pose proof (size_nonneg backing).
  destruct (Z.ltb_spec kMaxPlanPathBytes (size buffer + (size visible + 1) + (size backing + 1))).
  - destruct (Z.ltb_spec (kMaxPlanPathBytes - size buffer) (size visible + 1)); [done|].
    cbn [mbind option_bind]. rewrite !size_app. change (size [x00]) with 1.
    by rewrite (proj2 (Z.ltb_lt _ _)) by lia.
  - rewrite (proj2 (Z.ltb_ge _ _)) by lia. cbn [mbind option_bind].
    rewrite !size_app. change (size [x00]) with 1.
    rewrite (proj2 (Z.ltb_ge _ _)) by lia. cbn [mbind option_bind].
    rewrite <- !app_assoc. do 2 f_equal. f_equal. lia.
Qed.

Lemma load_rules_spec data h uid first ms index acc buffer :
  header_ok data h -> size buffer <= kMaxPlanPathBytes ->
  (forall j m, ms !! j = Some m -> rule_readable data h first (index + Z.of_nat j) m) ->
  load_rules data h uid first (length ms) index (acc, buffer) =
  Ok (rules ← mapM (plan_rule uid) ms;
      if kMaxPlanPathBytes <? size buffer + rules_bytes rules then None
      else Some (acc ++ plan_offsets (size buffer) rules, buffer ++ plan_text rules)).
Proof.
  intros Hh. revert index acc buffer. induction ms as [|m ms IH]; intros index acc buffer Hb Hms.
  { cbn. rewrite Z.add_0_r. rewrite (proj2 (Z.ltb_ge _ _)) by done. by rewrite !app_nil_r. }
  cbn [length load_rules].
  rewrite (load_rule_spec _ _ _ _ _ _ m Hh) by
    (rewrite <- (Z.add_0_r index); by apply (Hms 0%nat)).
  cbn [mbind outcome_bind mapM fst snd].
  destruct (plan_rule uid m) as [[[a v] b]|]; [|done]. cbn [mbind option_bind].
  pose proof (store_two buffer v b) as Hst.
  set (rest_spec := mapM (plan_rule uid) ms) in *.
  destruct (Z.ltb_spec kMaxPlanPathBytes (size buffer + (size v + 1) + (size b + 1))) as [Hbig|Hfit].
  - transitivity (Ok (E:=option ParseError) (@None (list PlannedMount * bytes))).
    + destruct (StorePlanPath buffer v) as [[vo buf1]|]; [|done].
      cbn [mbind option_bind] in Hst |- *. by destruct (StorePlanPath buf1 b) as [[bo buf2]|].
    + f_equal. destruct rest_spec as [rules|]; [|done]. cbn [mbind option_bind mret option_ret].
      rewrite (proj2 (Z.ltb_lt _ _)); [done|]. cbn [rules_bytes foldr fst snd].
      pose proof (rules_bytes_nonneg rules). unfold rules_bytes in *. lia.
  - destruct (StorePlanPath buffer v) as [[vo buf1]|]; [|done].
    cbn [mbind option_bind] in Hst |- *. destruct (StorePlanPath buf1 b) as [[bo buf2]|]; [|done].
    cbn [mbind option_bind] in Hst |- *. injection Hst as -> -> ->.
    rewrite IH.
    + f_equal. fold rest_spec. destruct rest_spec as [rules|]; [|done].
      cbn [mbind option_bind mret option_ret rules_bytes foldr fst snd]. fold (rules_bytes rules).
      replace (size (buffer ++ v ++ x00 :: b ++ [x00]))
        with (size buffer + size v + 1 + size b + 1)
        by (rewrite !size_app, size_cons, size_app; change (size [x00]) with 1; lia).
      replace (size buffer + size v + 1 + size b + 1 + rules_bytes rules)
        with (size buffer + (size v + 1 + (size b + 1) + rules_bytes rules)) by lia.
      destruct (_ <? _); [done|]. cbn [plan_offsets plan_text]. f_equal.
      rewrite <- !app_assoc. cbn. by rewrite <- !app_assoc.
    + rewrite !size_app, size_cons, size_app. change (size [x00]) with 1. lia.
    + intros j m' Hj. replace (index + 1 + Z.of_nat j) with (index + Z.of_nat (S j)) by lia.
      by apply Hms.
Qed.

(** Equality of two concatenations of the same pieces. *)
Ltac app_eq :=
  repeat first [rewrite <- app_assoc | rewrite <- app_comm_cons]; cbn [app]; reflexivity.

(** Reading the stored paths back. *)
Lemma view_offsets plan pre rules post :
  paths plan = pre ++ plan_text rules ++ post ->
  Forall (fun rule => no_nul rule.1.2 /\ no_nul rule.2) rules ->
  mapM (view_rule plan) (plan_offsets (size pre) rules) = Some rules.
Proof.
  revert pre. induction rules as [|[[a v] b] rules IH]; intros pre Hp Hn; [done|].
  apply Forall_cons in Hn as [[Hv Hb] Hn]. cbn in Hv, Hb.
  cbn [plan_offsets plan_text] in *.
  assert (forall before text after, paths plan = before ++ text ++ x00 :: after -> no_nul text ->
            PlanPath plan (size before) = Some text) as Hpath.
  { intros before text after E Ht. unfold PlanPath. rewrite E.
    rewrite (proj2 (Z.ltb_lt _ _)).
    - unfold size. rewrite Nat2Z.id, drop_app_length. by rewrite cut_app.
    - rewrite !size_app, size_cons. pose proof (size_nonneg text). pose proof (size_nonneg after). lia. }
  assert (view_rule plan {| pm_action := a; pm_visible_path := size pre;
                            pm_backing_path := size pre + size v + 1 |} = Some (a, v, b)) as Hr.
  { unfold view_rule. cbn [pm_action pm_visible_path pm_backing_path].
    rewrite (Hpath pre v ((b ++ x00 :: plan_text rules) ++ post)) by
      (rewrite ?Hp; app_eq || done). cbn [mbind option_bind].
    replace (size pre + size v + 1) with (size (pre ++ v ++ [x00]))
      by (rewrite !size_app; change (size [x00]) with 1; lia).
    rewrite (Hpath (pre ++ v ++ [x00]) b (plan_text rules ++ post)) by
      (rewrite ?Hp; app_eq || done). done. }
  cbn [mapM]. rewrite Hr. cbn [mbind option_bind].
  replace (size pre + size v + 1 + size b + 1) with (size (pre ++ v ++ [x00] ++ b ++ [x00]))
    by (rewrite !size_app; change (size [x00]) with 1; lia).
  rewrite IH; [done| |done].
  rewrite Hp. app_eq.
Qed.

(** ** The plan *)

Definition agrees (r : option ProcessPlan) (spec : option plan_view) : Prop :=
  match r with
  | Some plan => is_Some spec /\ view_plan plan = spec
  | None => spec = None
  end.

Lemma all_same_mounts l k :
  all_same SameMount l k = true -> length l = length k -> erase_mount <$> l = erase_mount <$> k.
Proof.
  revert k. induction l as [|x l IH]; intros [|y k] Hs Hl; try done.
  cbn in Hs. apply andb_true_iff in Hs as [Hxy Hs]. cbn. f_equal; [|by apply IH; [|injection Hl]].
  unfold SameMount in Hxy. split_tests. unfold erase_mount. congruence.
Qed.

Lemma plan_rule_erase uid rule : plan_rule uid (erase_mount rule) = plan_rule uid rule.
Proof. reflexivity. Qed.

Lemma mapM_erase uid l k :
  erase_mount <$> l = erase_mount <$> k -> mapM (plan_rule uid) l = mapM (plan_rule uid) k.
Proof.
  revert k. induction l as [|x l IH]; intros [|y k] E; try done.
  pose proof (f_equal (@hd _ (erase_mount x)) E) as Ex. apply (f_equal (@tl _)) in E.
  cbn in Ex, E. cbn [mapM]. rewrite <- (plan_rule_erase uid x), <- (plan_rule_erase uid y), Ex.
  by rewrite (IH k E).
Qed.

Lemma mapM_no_nul package uid ms rules :
  Forall (mount_canonical package) ms -> mapM (plan_rule uid) ms = Some rules ->
  Forall (fun rule => no_nul rule.1.2 /\ no_nul rule.2) rules.
Proof.
  intros Hc Hm. apply mapM_Some in Hm. induction Hm as [|m rule ms rules Hr _ IH]; [done|].
  apply Forall_cons in Hc as [Hc1 Hc]. constructor; [|by apply IH].
  unfold plan_rule, mount_canonical in *. destruct (m_action m); try done.
  - injection Hr as <-. destruct Hc1 as ((_ & _ & Hv) & _). split; [apply Hv|apply not_elem_of_nil].
  - apply bind_Some in Hr as (b & Hb & [= <-]). destruct Hc1 as ((_ & _ & Hv) & _ & (_ & _ & Hl)).
    split; [apply Hv|]. cbn. eapply ExpandRuntimePath_no_nul; [|apply Hl|exact Hb].
    apply Z.div_pos; [apply u32_range|lia].
Qed.

Section Agree.
Context (data : bytes) (h : Header) (final : DecodeState) (doc : PolicyDocument) (generation : Z).
Hypothesis Hacc : accepted data h final doc generation.

Lemma entry_rules_readable st1 k st2 app us ps ms gen :
  decoded_entry data h st1 k st2 app us ps ms gen ->
  0 <= expected_first_mount st1 <= h_mount_count h ->
  forall j m, mounts app !! j = Some m ->
    rule_readable data h (expected_first_mount st1) (Z.of_nat j) m.
Proof.
  intros [] Hr j m Hj. destruct de_mounts0 as (Hms & Hsz & Hsame).
  apply all_same_mounts in Hsame; [|unfold size in Hsz; lia].
  assert ((erase_mount <$> ms) !! j = Some (erase_mount m)) as Hj'
    by (rewrite <- Hsame, list_lookup_fmap, Hj; done).
  apply list_lookup_fmap_Some in Hj' as (m' & E & Hm').
  exists (package app), m'. split_and!; [by eapply decode_rules_lookup|done|].
  destruct de_canonical0. pose proof (mv_canonical _ _ cp_mounts) as Hc.
  rewrite Forall_forall in Hc. apply Hc. by eapply list_elem_of_lookup_2.
Qed.

Lemma plan_offsets_length rules start : length (plan_offsets start rules) = length rules.
Proof.
  revert start. induction rules as [|[[a v] b] rules IH]; intros start; [done|]. cbn. by rewrite IH.
Qed.

Lemma load_entry_agrees k app process uid :
  apps doc !! k = Some app -> size process < kMaxProcessNameBytes ->
  exists r, load_entry data h (h_package_offset h + Z.of_nat k * 48) uid process = Ok r
    /\ agrees r (if negb (in_scope app process uid) || (events app != [])
                    || (kMaxMountRules <? size (mounts app)) || (mounts app == [])
                 then None
                 else
                   rules ← mapM (plan_rule uid) (mounts app);
                   if kMaxPlanPathBytes <? 1 + rules_bytes rules then None
                   else Some {| v_generation := generation;
                          v_plan_generation := PlanGeneration app (failure_mode doc)
                                                 (allow_legacy_string_bind doc);
                          v_legacy := allow_legacy_string_bind doc;
                          v_media_compat := media_compat app == kHideDenied;
                          v_provider_compat := provider_compat app == kVirtualize;
                          v_process := process; v_rules := rules |}).
Proof.
  intros Hk Hsize. destruct (app_entry _ _ _ _ _ Hacc _ _ Hk)
    as (st1 & st2 & us & ps & ms & gen & Hd & Hfm & Hfe).
  pose proof Hacc as []. pose proof ac_ok0 as Hok.
  pose proof (scope_ok _ _ _ _ _ _ _ _ _ _ process uid Hd) as Hscope.
  pose proof (entry_rules_readable _ _ _ _ _ _ _ _ Hd Hfm) as Hrules.
  pose proof Hd as [].
  destruct de_flags0 as (F1 & F2 & F3 & F4 & F5), de_ranges0 as (R1 & R2 & R3 & R4 & R5 & R6).
  pose proof (media_compat_value_range (media_compat app)).
  pose proof (provider_compat_value_range (provider_compat app)).
  pose proof (size_nonneg (events app)). pose proof (size_nonneg (mounts app)).
  unfold load_entry, kPackageNameOffset, kPackageUsersOffset, kPackageProcessesOffset,
    kPackageFirstMountOffset, kPackageMountCountOffset, kPackageFirstEventOffset,
    kPackageEventCountOffset, kPackageFailureModeOffset, kPackageMediaCompatOffset,
    kPackageProviderCompatOffset, kPackagePlanGenerationOffset, ReadLe32, ReadLe64.
  unfold Read32, Read64 in *.
  rewrite (policy_string _ _ Hok _ _ de_name0). cbn [mbind outcome_bind].
  rewrite (policy_string _ _ Hok _ _ de_users0). cbn [mbind outcome_bind].
  rewrite (policy_string _ _ Hok _ _ de_processes0). cbn [mbind outcome_bind].
  rewrite R1. cbn [mbind outcome_bind]. rewrite R2. cbn [mbind outcome_bind].
  rewrite R3. cbn [mbind outcome_bind]. rewrite R4. cbn [mbind outcome_bind].
  rewrite F1. cbn [mbind outcome_bind]. rewrite F2. cbn [mbind outcome_bind].
  rewrite F3. cbn [mbind outcome_bind]. rewrite F4. cbn [mbind outcome_bind].
  rewrite F5. cbn [mbind outcome_bind].
  rewrite u32_small in R5, R6 by (destruct Hok; lia).
  rewrite !u32_small by (destruct Hok; lia).
  change ((0 != 0)) with false.
  rewrite (proj2 (Z.ltb_ge 1 (media_compat_value _))), (proj2 (Z.ltb_ge 1 (provider_compat_value _))),
    (proj2 (Z.ltb_ge (h_event_count h) _)),
    (proj2 (Z.ltb_ge (h_event_count h - _) _)) by lia.
  cbn [orb]. rewrite orb_false_r.
  destruct (events app) as [|e es] eqn:Ee.
  2: { rewrite bool_decide_eq_false_2 by (rewrite size_cons; pose proof (size_nonneg es); lia).
       cbn [negb]. exists None. split; [done|]. unfold agrees.
       rewrite (bool_decide_eq_false_2 (e :: es = [])) by done. cbn [negb]. by rewrite orb_true_r. }
  rewrite bool_decide_eq_true_2 by done. cbn [negb]. rewrite orb_false_r.
  unfold Read64 in ac_generation0. rewrite ac_generation0. cbn [mbind outcome_bind].
  destruct de_generation0 as [-> ->]. cbn [mbind outcome_bind].
  rewrite <- negb_andb, Hscope. destruct (in_scope app process uid) eqn:Escope.
  2: { exists None. split; [done|]. done. }
  cbn [negb orb]. rewrite (bool_decide_eq_true_2 (@nil EventRule = [])) by done. cbn [negb orb].
  rewrite (proj2 (Z.ltb_ge (h_mount_count h) _)), (proj2 (Z.ltb_ge (h_mount_count h - _) _)) by lia.
  cbn [orb].
  destruct (Z.ltb_spec kMaxMountRules (size (mounts app))) as [Hmany|Hfew].
  { exists None. done. }
  cbn [orb].
  replace (Z.to_nat (size (mounts app))) with (length (mounts app)) by (unfold size; lia).
  rewrite (load_rules_spec _ _ _ _ (mounts app) 0 [] [x00] Hok);
    [|by vm_compute|exact Hrules].
  cbn [mbind outcome_bind].
  destruct (decide (mounts app = [])) as [Hnil|Hne].
  { rewrite Hnil. exists None. split; reflexivity. }
  rewrite (bool_decide_eq_false_2 (mounts app = [])) by done.
  destruct (mapM (plan_rule uid) (mounts app)) as [rules|] eqn:Em; cbn [mbind option_bind].
  2: { exists None. done. }
  change (size [x00]) with 1.
  destruct (Z.ltb_spec kMaxPlanPathBytes (1 + rules_bytes rules)) as [Hbig|Hfit].
  { exists None. done. }
  pose proof (plan_offsets_length rules 1) as Hlen. pose proof (Forall2_length _ _ _ (proj1 (mapM_Some _ _ _) Em)) as Hml.
  rewrite (proj2 (Z.ltb_lt 0 _)).
  2: { unfold size. cbn [Datatypes.app]. rewrite Hlen, <- Hml. destruct (mounts app); [done|]. cbn. lia. }
  eexists. split; [reflexivity|]. split; [by eexists|].
  unfold view_plan. cbn [plan_mounts Datatypes.app].
  rewrite (view_offsets _ [x00] rules []); [|cbn; by rewrite app_nil_r|].
  - cbn [mbind option_bind snapshot_generation plan_generation policy_flags plan_media_compat
      plan_provider_compat process_name]. rewrite ac_legacy0, ac_mode0.
    by destruct (media_compat app), (provider_compat app).
  - destruct de_canonical0. pose proof (mv_canonical _ _ cp_mounts) as Hc.
    by eapply mapM_no_nul.
Qed.
End Agree.

(** ** Properties *)

Lemma LoadProcessPlan_agrees data doc generation process uid :
  DecodePolicy data = Ok (doc, generation) -> no_nul process ->
  exists r, LoadProcessPlan data process uid = Ok r
    /\ agrees r (plan_spec doc generation process uid).
Proof.
  intros Hd Hnul. destruct (DecodePolicy_accepted _ _ _ Hd) as (h & final & Hacc).
  pose proof (dk_canonical _ _ (ensures_Ok _ _ _ (DecodePolicy_ensures data) Hd)) as Hcan.
  cbn in Hcan. unfold LoadProcessPlan, plan_spec.
  pose proof Hacc as [].
  destruct (Z.leb_spec kMaxProcessNameBytes (size process)) as [Hlong|Hshort].
  { cbn [orb]. exists None. split; [done|]. by destruct (List.find _ _). }
  rewrite (proj2 (Z.ltb_ge _ _)) by done. cbn [orb].
  rewrite ac_header0. cbn [mbind outcome_bind].
  rewrite (valid_header_ok _ _ _ _ _ Hacc). cbn [mbind outcome_bind negb].
  pose proof (cut_spec x3a process) as Hcut. destruct (cut x3a process) as [name rest].
  cbn [fst]. destruct (decide (name = [])) as [->|Hne].
  { rewrite bool_decide_eq_true_2 by done. exists None. split; [done|].
    destruct (List.find _ _) as [app|] eqn:Ef; [|done].
    apply find_some in Ef as [Hin Hp%bool_decide_eq_true]. apply list_elem_of_In in Hin.
    rewrite Forall_forall in Hcan. by destruct (Hcan app Hin). }
  rewrite bool_decide_eq_false_2 by done.
  assert (x00 ∉ name) as Hn.
  { intros Hin. apply Hnul. destruct rest as [r|]; destruct Hcut as [-> _]; set_solver. }
  pose proof (find_entry _ _ _ _ _ Hacc name Hne Hn) as Hf.
  destruct (List.find _ (apps doc)) as [app|].
  - destruct Hf as (k & Hk & ->). cbn [mbind outcome_bind option_bind].
    by apply (load_entry_agrees _ _ _ _ _ Hacc).
  - rewrite Hf. by exists None.
Qed.

(** C13. The two readers of the policy file agree. On every file that
    [DecodePolicy] accepts, and for every process name and uid, [LoadProcessPlan],
    which searches the raw bytes, stays in bounds and returns exactly the plan of
    the decoded document: no plan when the package is missing, out of scope, has
    events, no rule or too many, a path that does not expand or too much path
    text; otherwise the generations, flags and the rules of the package in order,
    as they read back through [PlanPath]. *)
Theorem load_process_plan_agrees data doc generation process uid :
  DecodePolicy data = Ok (doc, generation) -> no_nul process ->
  exists r, LoadProcessPlan data process uid = Ok r
    /\ agrees r (plan_spec doc generation process uid).
Proof. apply LoadProcessPlan_agrees. Qed.

(** ** The loader on arbitrary bytes *)

(** The text [s] is stored, terminated, at offset [o] of the buffer. *)
Definition text_at (buffer : bytes) (o : Z) (s : bytes) : Prop :=
  exists pre post, buffer = pre ++ s ++ x00 :: post /\ size pre = o /\ no_nul s.

(** A relative path without empty, [.] or [..] components and without braces,
    shorter than [PATH_MAX]. *)
Definition safe_text (s : bytes) : Prop := IsAllowedTarget s = true /\ size s < PATH_MAX.

(** A rule the mount code can carry out. *)
Definition planned_safely (buffer : bytes) (m : PlannedMount) : Prop :=
  exists visible backing, text_at buffer (pm_visible_path m) visible
    /\ text_at buffer (pm_backing_path m) backing /\ safe_text visible
    /\ (pm_action m = kDenyAction /\ backing = []
        \/ pm_action m = kRedirectAction /\ safe_text backing).

(** The same of a rule before it is stored. *)
Definition safe_rule (rule : Z * bytes * bytes) : Prop :=
  no_nul rule.1.2 /\ no_nul rule.2 /\ safe_text rule.1.2
  /\ (rule.1.1 = kDenyAction /\ rule.2 = [] \/ rule.1.1 = kRedirectAction /\ safe_text rule.2).

(** The texts of the rules lie one after the other behind the empty string. *)
Definition laid_out (rules : list (Z * bytes * bytes)) (mounts : list PlannedMount) (buffer : bytes) : Prop :=
  mounts = plan_offsets 1 rules /\ buffer = x00 :: plan_text rules /\ Forall safe_rule rules
  /\ size buffer <= kMaxPlanPathBytes.

Definition load_inv (index : Z) (state : list PlannedMount * bytes) : Prop :=
  exists rules, size rules = index /\ laid_out rules state.1 state.2.

Lemma plan_text_app rules more : plan_text (rules ++ more) = plan_text rules ++ plan_text more.
Proof. induction rules as [|[[a v] b] rules IH]; [done|]. cbn. rewrite IH. app_eq. Qed.

Lemma plan_offsets_app start rules more :
  plan_offsets start (rules ++ more) = plan_offsets start rules ++ plan_offsets (start + rules_bytes rules) more.
Proof.
  revert start. induction rules as [|[[a v] b] rules IH]; intros start; cbn [app plan_offsets].
  { by rewrite Z.add_0_r. }
  f_equal. rewrite IH. f_equal. f_equal. cbn. fold (rules_bytes rules). lia.
Qed.

Lemma planned_offsets pre rules :
  Forall safe_rule rules -> Forall (planned_safely (pre ++ plan_text rules)) (plan_offsets (size pre) rules).
Proof.
  revert pre. induction rules as [|[[a v] b] rules IH]; intros pre Hs; [constructor|].
  apply Forall_cons in Hs as [(Hv & Hb & Hsv & Hkind) Hs]. cbn in Hv, Hb, Hsv, Hkind.
  cbn [plan_text plan_offsets]. constructor.
  - exists v, b. cbn. split_and!; [|  |done|done].
    + exists pre, (b ++ x00 :: plan_text rules). split_and!; [app_eq|done|done].
    + exists (pre ++ v ++ [x00]), (plan_text rules). split_and!; [app_eq|rewrite !size_app; change (size [x00]) with 1; lia|done].
  - replace (size pre + size v + 1 + size b + 1) with (size (pre ++ v ++ [x00] ++ b ++ [x00]))
      by (rewrite !size_app; change (size [x00]) with 1; lia).
    specialize (IH (pre ++ v ++ [x00] ++ b ++ [x00]) Hs). by rewrite <- !app_assoc in *.
Qed.

Lemma laid_out_planned rules mounts buffer : laid_out rules mounts buffer -> Forall (planned_safely buffer) mounts.
Proof. intros (-> & -> & Hs & _). by apply (planned_offsets [x00]). Qed.

Lemma StorePlanPath_spec buffer s o buffer' :
  StorePlanPath buffer s = Some (o, buffer') ->
  buffer' = buffer ++ s ++ [x00] /\ o = size buffer /\ size buffer' <= kMaxPlanPathBytes.
Proof.
  unfold StorePlanPath. destruct (Z.ltb_spec (kMaxPlanPathBytes - size buffer) (size s + 1)); [done|].
  intros [= <- <-]. split_and!; [done|done|].
  rewrite !size_app. change (size [x00]) with 1. lia.
Qed.

Lemma expand_runtime_size user capacity current skip output out :
  size output < capacity ->
  expand_runtime user capacity current skip output = Some out -> size out < capacity.
Proof.
  revert skip output. induction current as [|c rest IH]; intros skip output Hc;
    cbn [expand_runtime]; [by intros [= <-]|].
  destruct skip as [|skip]; [|by apply IH].
  destruct (starts_with _ _).
  - destruct (Z.leb_spec capacity (size output + size user)); [done|]. apply IH.
    rewrite size_app. lia.
  - destruct (_ || _) eqn:Eb; [done|]. split_tests. apply IH. rewrite size_app.
    change (size [c]) with 1. lia.
Qed.

Lemma ExpandRuntimePath_safe input user out :
  0 <= user -> no_nul input ->
  ExpandRuntimePath input user PATH_MAX = Some out -> safe_text out /\ no_nul out.
Proof.
  intros Hu Hn H. split; [|by eapply ExpandRuntimePath_no_nul].
  unfold ExpandRuntimePath in H. destruct (_ <=? _); [done|].
  apply bind_Some in H as (o & Ho & H). destruct (IsAllowedTarget o) eqn:Ea; [|done].
  injection H as <-. split; [done|]. eapply expand_runtime_size; [|exact Ho]. by vm_compute.
Qed.

Lemma ReadPolicyString_ensures {E} data so o :
  ensures (E:=E) (ReadPolicyString data so o) (fun r => forall s, r = Some s -> no_nul s).
Proof.
  unfold ReadPolicyString. destruct (_ || _); [done|].
  pose proof (cut_spec x00 (drop (Z.to_nat (so + o)) data)) as Hc.
  destruct (cut x00 _) as [s [t|]]; [|done]. intros s' [= <-]. apply Hc.
Qed.

(** One read or string lookup of the loader. *)
Ltac load_step :=
  eapply ensures_bind;
  [ first [ apply ensures_read; [lia..|intros v Hv; exact Hv] | apply ReadPolicyString_ensures ]
  | intros ? ? ].

Section Arbitrary.
Context (data : bytes) (h : Header) (Hh : header_ok data h).

Lemma load_rule_ensures uid first state index :
  0 <= first -> 0 <= index -> first + index < h_mount_count h -> load_inv index state ->
  ensures (load_rule data h uid first state index)
    (fun r => forall state', r = Some state' -> load_inv (index + 1) state').
Proof.
  intros Hf Hi Hlt Hinv. destruct Hh. unfold load_rule.
  rewrite (u32_small (first + index)) by lia.
  unfold kMountRuleSize, kMountActionOffset, kMountVisiblePathOffset, kMountBackingPathOffset,
    ReadLe32, ReadLe16, read_byte.
  load_step. load_step. load_step. load_step. load_step. load_step. load_step. cbn beta in *.
  rename a into action. rename a1 into visible. rename a3 into backing.
  destruct (negb (IsExecutableMountAction action) || _ || _) eqn:Ex; [done|].
  destruct visible as [visible|]; [|done]. destruct backing as [backing|]; [|done].
  destruct (IsAllowedTarget visible) eqn:Ea; [|done]. cbn [negb].
  assert (forall expanded, (if action == kDenyAction then if backing == [] then Some [] else None
            else ExpandRuntimePath backing (u32 uid / 100000) PATH_MAX) = Some expanded ->
          no_nul expanded /\ (action = kDenyAction /\ expanded = []
            \/ action = kRedirectAction /\ safe_text expanded)) as Hexp.
  { intros expanded. split_tests. unfold IsExecutableMountAction in *.
    destruct (decide (action = kDenyAction)) as [Ed|Ed].
    - rewrite (bool_decide_eq_true_2 _ Ed). destruct (bool_decide (backing = [])); [|done].
      intros [= <-]. split; [apply not_elem_of_nil|by left].
    - rewrite (bool_decide_eq_false_2 _ Ed) in *. cbn [orb] in *. split_tests.
      intros E. apply ExpandRuntimePath_safe in E as [Hs Hnn];
        [|apply Z.div_pos; [apply u32_range|lia]|by eauto].
      split; [done|]. by right. }
  destruct (if action == kDenyAction then _ else _) as [expanded|]; [|done].
  destruct (Hexp expanded eq_refl) as [Hnn Hkind].
  destruct (Z.leb_spec PATH_MAX (size visible)); [done|]. cbn [ensures].
  intros state' H'. apply bind_Some in H' as ([vo buf1] & Hv & H').
  apply bind_Some in H' as ([bo buf2] & Hb2 & [= <-]).
  apply StorePlanPath_spec in Hv as (-> & Ho1 & Hs1). apply StorePlanPath_spec in Hb2 as (-> & Ho2 & Hs2).
  destruct Hinv as (rules & Hn & Em & Eb & Hall & Hb). rewrite Em, Eb in *.
  exists (rules ++ [(action, visible, expanded)]). rewrite size_app, Hn. split; [done|]. cbn [fst snd].
  assert (size (x00 :: plan_text rules) = 1 + rules_bytes rules) as Esz by (rewrite size_cons, size_plan_text; lia).
  split_and!.
  - rewrite plan_offsets_app. cbn [plan_offsets]. subst vo bo.
    rewrite !size_app, Esz. do 3 f_equal. change (size [x00]) with 1. lia.
  - rewrite plan_text_app. cbn [plan_text]. app_eq.
  - apply Forall_app. split; [done|]. constructor; [|done]. unfold safe_rule. cbn. split_and!; [by eauto|done|by split|done].
  - done.
Qed.

Lemma load_rules_ensures uid first count index state :
  0 <= first -> 0 <= index -> first + index + Z.of_nat count <= h_mount_count h ->
  load_inv index state ->
  ensures (load_rules data h uid first count index state)
    (fun r => forall state', r = Some state' -> load_inv (index + Z.of_nat count) state').
Proof.
  intros Hf. revert index state. induction count as [|count IH]; intros index state Hi Hle Hinv.
  { cbn. rewrite Z.add_0_r. by intros ? [= <-]. }
  cbn [load_rules]. eapply ensures_bind; [apply load_rule_ensures; [done|done|lia|done]|].
  intros [state'|] Hs; [|done].
  eapply ensures_weaken; [apply (IH (index + 1)); [lia|lia|by apply Hs]|].
  cbn. intros r Hr s Es. specialize (Hr s Es).
  by replace (index + Z.of_nat (S count)) with (index + 1 + Z.of_nat count) by lia.
Qed.
End Arbitrary.

Lemma valid_package_index_safe data h count index previous_hash previous_name :
  header_ok data h -> 0 <= index -> index + Z.of_nat count <= h_package_count h ->
  valid_package_index data (h_package_offset h) (h_string_offset h) count index previous_hash
    previous_name <> Oob.
Proof.
  intros Hh. revert index previous_hash previous_name.
  induction count as [|count IH]; intros index ph pn Hi Hle; [done|]. pose proof Hh as [].
  cbn [valid_package_index].
  unfold kPackageSize, kPackageHashOffset, kPackageNameOffset, ReadLe32.
  eapply (ensures_not_Oob _ (fun _ => True)). load_step. load_step. load_step.
  destruct a1 as [name|]; [|done]. destruct (_ || _); [done|].
  apply ensures_intro; [|done]. apply IH; lia.
Qed.

Lemma valid_package_ranges_safe data h count index fm fe :
  header_ok data h -> 0 <= index -> index + Z.of_nat count <= h_package_count h ->
  valid_package_ranges data h count index fm fe <> Oob.
Proof.
  intros Hh. revert index fm fe. induction count as [|count IH]; intros index fm fe Hi Hle; [done|].
  pose proof Hh as []. cbn [valid_package_ranges].
  unfold kPackageSize, kPackageFirstMountOffset, kPackageMountCountOffset,
    kPackageFirstEventOffset, kPackageEventCountOffset, kPackageFailureModeOffset,
    kPackageMediaCompatOffset, kPackageProviderCompatOffset, ReadLe32, read_byte.
  eapply (ensures_not_Oob _ (fun _ => True)). do 9 load_step. destruct (_ || _); [done|].
  apply ensures_intro; [|done]. apply IH; lia.
Qed.

Lemma valid_rules_safe data h max reserved s1 s2 table total count index :
  header_ok data h -> 0 <= table -> table + 16 * total <= size data ->
  0 <= reserved <= 14 -> 0 <= s1 <= 12 -> 0 <= s2 <= 12 ->
  0 <= index -> index + Z.of_nat count <= total ->
  valid_rules data h max reserved s1 s2 16 table count index <> Oob.
Proof.
  intros Hh Ht Hs Hr H1 H2. revert index. induction count as [|count IH]; intros index Hi Hle; [done|].
  cbn [valid_rules]. unfold ReadLe16, ReadLe32, read_byte.
  eapply (ensures_not_Oob _ (fun _ => True)). do 7 load_step. destruct (_ || _); [done|].
  apply ensures_intro; [|done]. apply IH; lia.
Qed.

Lemma header_fields_ok_header data h :
  header_in_range h -> header_fields_ok data h = true -> header_ok data h.
Proof.
  intros (H1 & H2 & H3 & H4) H. unfold header_fields_ok in H. split_tests.
  unfold kHeaderSize, kPackageSize, kMountRuleSize, kEventRuleSize in *.
  constructor; try lia. done.
Qed.

(** [valid_header] stays in bounds, and a header it accepts bounds the tables. *)
Lemma valid_header_ensures data h :
  header_in_range h ->
  ensures (valid_header data h) (fun ok => ok = true -> header_ok data h /\ header_fields_ok data h = true).
Proof.
  intros Hr. unfold valid_header. destruct (header_fields_ok data h) eqn:Ef; [|done].
  pose proof (header_fields_ok_header _ _ Hr Ef) as Hh. apply ensures_intro; [|done].
  pose proof Hh as []. unfold ValidPackageIndex.
  apply bind_not_Oob; [apply valid_package_index_safe; done || lia|].
  intros [|] _; [|done]. unfold ValidPolicyTables.
  apply bind_not_Oob; [apply valid_package_ranges_safe; done || lia|].
  intros [[fm fe]|] _; [|done]. destruct (_ || _); [done|].
  unfold kMountVisiblePathOffset, kMountBackingPathOffset, kMountRuleSize,
    kEventSourcePathOffset, kEventTargetPathOffset, kEventRuleSize.
  apply bind_not_Oob.
  - apply (valid_rules_safe _ _ _ _ _ _ _ (h_mount_count h)); done || lia.
  - intros [|] _; [|done]. apply (valid_rules_safe _ _ _ _ _ _ _ (h_event_count h)); done || lia.
Qed.

Definition plan_safe (plan : ProcessPlan) : Prop :=
  0 < size (plan_mounts plan) <= kMaxMountRules /\ size (paths plan) <= kMaxPlanPathBytes
  /\ Forall (planned_safely (paths plan)) (plan_mounts plan).

(** What the loader returns, on any file: the rules lie in the buffer in order. *)
Definition plan_laid_out (process : bytes) (plan : ProcessPlan) : Prop :=
  exists rules, 0 < size rules <= kMaxMountRules /\ laid_out rules (plan_mounts plan) (paths plan)
    /\ process_name plan = process /\ process <> [] /\ size process < kMaxProcessNameBytes
    /\ Z.land (policy_flags plan) (u32 (Z.lnot kPolicyFlagAllowLegacyStringBind)) = 0.

Lemma plan_laid_out_safe process plan : plan_laid_out process plan -> plan_safe plan.
Proof.
  intros (rules & Hn & Hlaid & _). pose proof (laid_out_planned _ _ _ Hlaid).
  destruct Hlaid as (Em & _ & _ & Hb). split; [|by split].
  rewrite Em. unfold size in *. by rewrite plan_offsets_length.
Qed.

Lemma load_entry_ensures data h k uid process :
  header_ok data h -> header_fields_ok data h = true -> 0 <= k < h_package_count h ->
  process <> [] -> size process < kMaxProcessNameBytes ->
  ensures (load_entry data h (h_package_offset h + k * 48) uid process)
    (fun r => forall plan, r = Some plan -> plan_laid_out process plan).
Proof.
  intros Hh Hfields Hk Hpne Hpsz. pose proof Hh as [].
  unfold load_entry, kPackageNameOffset, kPackageUsersOffset, kPackageProcessesOffset,
    kPackageFirstMountOffset, kPackageMountCountOffset, kPackageFirstEventOffset,
    kPackageEventCountOffset, kPackageFailureModeOffset, kPackageMediaCompatOffset,
    kPackageProviderCompatOffset, kPackagePlanGenerationOffset, kContentGenerationOffset,
    ReadLe32, ReadLe64, read_byte.
  do 3 (eapply ensures_bind; [load_step; apply ReadPolicyString_ensures|intros ? ?]).
  do 9 load_step. cbn beta in *. destruct (_ || _); [done|]. do 2 load_step.
  destruct a as [name|]; [|done]. destruct a0 as [us|]; [|done]. destruct a1 as [ps|]; [|done].
  destruct (_ || _); [done|].
  destruct ((h_mount_count h <? a2) || _ || _) eqn:Er; [done|]. split_tests.
  rewrite u32_small in * by lia.
  eapply ensures_bind.
  { apply load_rules_ensures; [done|lia|lia|lia|]. exists []. split; [done|].
    split_and!; [done|done|constructor|by vm_compute]. }
  intros [[mounts buffer]|] Hl; [|done]. destruct (Hl _ eq_refl) as (rules & Hn & Hlaid).
  cbn [fst snd] in *. destruct (Z.ltb_spec 0 (size mounts)) as [Hpos|]; [|done].
  intros plan [= <-]. exists rules. cbn. split_and!; try done.
  - destruct Hlaid as (-> & _). unfold size in *. rewrite plan_offsets_length in Hpos. lia.
  - lia.
  - unfold header_fields_ok in Hfields. split_tests. done.
Qed.

Lemma LoadProcessPlan_laid_out data process uid :
  LoadProcessPlan data process uid <> Oob
  /\ forall plan, LoadProcessPlan data process uid = Ok (Some plan) -> plan_laid_out process plan.
Proof.
  assert (ensures (LoadProcessPlan data process uid)
            (fun r => forall plan, r = Some plan -> plan_laid_out process plan)) as H.
  { unfold LoadProcessPlan. destruct (_ || _) eqn:Es; [done|]. split_tests.
    eapply ensures_bind; [by apply read_header_ensures|]. intros h Hr.
    eapply ensures_bind; [by apply valid_header_ensures|]. intros [|] Hok; [|done]. cbn [negb].
    destruct (Hok eq_refl) as [Hhdr Hfields]. destruct (decide ((cut x3a process).1 = [])) as [En|En].
    { by rewrite bool_decide_eq_true_2. }
    rewrite bool_decide_eq_false_2 by done.
    destruct (FindPackageEntry_in_table data h (cut x3a process).1 Hhdr En) as (r & Er & Hs).
    rewrite Er. cbn [mbind outcome_bind]. destruct r as [o|]; [|done].
    destruct (Hs o eq_refl) as (k & Hk & ->). apply load_entry_ensures; try done. by intros ->. }
  split; [by eapply ensures_not_Oob|]. intros plan E. exact (ensures_Ok _ _ _ H E plan eq_refl).
Qed.

(** C33. [LoadProcessPlan] trusts nothing in the file: on arbitrary bytes it stays
    inside them, and a plan it returns has between 1 and 64 rules whose texts lie
    terminated in a buffer of at most 64 KiB, every visible path and every
    redirect target being a relative path shorter than [PATH_MAX] without [.],
    [..] or empty components and without braces. *)
Theorem load_process_plan_safe data process uid :
  LoadProcessPlan data process uid <> Oob
  /\ forall plan, LoadProcessPlan data process uid = Ok (Some plan) -> plan_safe plan.
Proof.
  destruct (LoadProcessPlan_laid_out data process uid) as [H1 H2]. split; [done|].
  intros plan E. exact (plan_laid_out_safe _ _ (H2 plan E)).
Qed.

(** ** Witnesses *)

Lemma load_process_plan_agrees_witness :
  DecodePolicy small_file = Ok (small_decoded.1, small_decoded.2)
  /\ exists r, LoadProcessPlan small_file (lit "a:remote") 1010123 = Ok r
    /\ agrees r (plan_spec small_decoded.1 small_decoded.2 (lit "a:remote") 1010123).
Proof.
  assert (DecodePolicy small_file = Ok (small_decoded.1, small_decoded.2)) as E
    by (vm_compute; reflexivity).
  split; [exact E|]. apply load_process_plan_agrees; [exact E|by apply contains_false].
Defined.

(** The plan of that process has one rule. *)
Example small_plan_rules :
  v_rules <$> plan_spec small_decoded.1 small_decoded.2 (lit "a:remote") 1010123
  = Some [(kDenyAction, lit "DCIM", [])].
Proof. vm_compute. reflexivity. Qed.
