(* ===== verification/Bootstrap.v ===== *)
(** * The request of an application to the companion

    The socket between the module and the companion, and the memory they share
    (zygisk/src/module_entry.cpp): [SendPlanWithSharedFd] on one side, on the other
    [ReceiveBootstrap], [MapSharedState] and the part of [CompanionHandler] up to the comparison
    with the policy on disk. The header travels in one message and is a record; what follows it
    is a stream of bytes, which the kernel may cut anywhere: an [io_answer] says what one call
    of [read] or [send] did. A file descriptor is its number. *)

From S2P Require Import Prelude Policy PolicyFormat Binary BinaryProofs BinaryRoundTrip ProcessPlan ProcessPlanProofs MountBackend Snapshot.

Local Open Scope pg_scope.

(** ** Reading and writing *)

Inductive io_answer : Set :=
  | Transfers (count : Z)
  | Interrupted
  | Fails.

(** What a call that writes gives: its result, the bytes that were sent, the answers that are left. *)
Definition sender (A : Type) : Type := list io_answer -> option A * bytes * list io_answer.

#[export] Instance sender_ret : MRet sender := fun A x answers => (Some x, [], answers).

#[export] Instance sender_bind : MBind sender := fun A B f m answers =>
  let '(r, sent, answers) := m answers in
  match r with
  | Some x => let '(r', more, answers) := f x answers in (r', sent ++ more, answers)
  | None => (None, sent, answers)
  end.

Definition refuse {A} : sender A := fun answers => (None, [], answers).

Fixpoint write_fully (data : bytes) (answers : list io_answer) {struct answers}
    : option unit * bytes * list io_answer :=
  match data, answers with
  | [], _ => (Some tt, [], answers)
  | _, [] => (None, [], [])
  | _, Interrupted :: rest => write_fully data rest
  | _, Fails :: rest => (None, [], rest)
  | _, Transfers count :: rest =>
      if count <=? 0 then (None, [], rest)
      else
        let '(r, sent, rest) := write_fully (drop (Z.to_nat count) data) rest in
        (r, take (Z.to_nat count) data ++ sent, rest)
  end.

Definition WriteFully (data : bytes) : sender unit := write_fully data.

(** The end of the socket that reads: what the calls will do, and what was sent. *)
Record Incoming : Type := { reads : list io_answer; stream : bytes }.

Definition receiver (A : Type) : Type := Incoming -> option (A * Incoming).

#[export] Instance receiver_ret : MRet receiver := fun A x s => Some (x, s).

#[export] Instance receiver_bind : MBind receiver := fun A B f m s =>
  match m s with Some (x, s') => f x s' | None => None end.

Definition drop_client {A} : receiver A := fun _ => None.

Fixpoint read_fully (count : nat) (stream : bytes) (reads : list io_answer) {struct reads}
    : option (bytes * Incoming) :=
  match count, reads with
  | O, _ => Some ([], {| reads := reads; stream := stream |})
  | _, [] => None
  | _, Interrupted :: rest => read_fully count stream rest
  | _, Fails :: _ => None
  | _, Transfers received :: rest =>
      let chunk := take (Nat.min (Z.to_nat received) count) stream in
      if chunk == [] then None
      else
        '(more, s) ← read_fully (count - length chunk) (drop (length chunk) stream) rest;
        Some (chunk ++ more, s)
  end.

Definition ReadFully (count : Z) : receiver bytes :=
  fun s => read_fully (Z.to_nat count) (stream s) (reads s).

Definition read_uint8 : receiver Z := data ← ReadFully 1; mret (le_value data).
Definition read_uint32 : receiver Z := data ← ReadFully 4; mret (le_value data).

(** ** The header *)

Definition kBootstrapMagic : Z := 0x50474250.
Definition kBootstrapVersion : Z := 5.

Record BootstrapHeader : Type := {
  b_magic : Z;
  b_version : Z;
  b_pid : Z;
  b_uid : Z;
  b_rule_count : Z;
  b_policy_flags : Z;
  b_snapshot_generation : Z;
  b_plan_generation : Z;
  b_process_name_length : Z;
  b_compat_flags : Z;
}.

Definition bootstrap_header (pid uid : Z) (plan : ProcessPlan) : BootstrapHeader :=
  {| b_magic := kBootstrapMagic; b_version := kBootstrapVersion; b_pid := pid; b_uid := uid;
     b_rule_count := size (plan_mounts plan); b_policy_flags := policy_flags plan;
     b_snapshot_generation := snapshot_generation plan; b_plan_generation := plan_generation plan;
     b_process_name_length := u32 (size (process_name plan));
     b_compat_flags := Z.lor (if plan_media_compat plan then 1 else 0)
                         (if plan_provider_compat plan then 2 else 0) |}.

(** ** The application: [SendPlanWithSharedFd] *)

(** One iteration of the loop over the mounts. *)
Definition send_mount (plan : ProcessPlan) (mount : PlannedMount) : sender unit :=
  match PlanPath plan (pm_visible_path mount), PlanPath plan (pm_backing_path mount) with
  | Some visible, Some backing =>
      WriteFully (le_bytes 1 (pm_action mount));;
      WriteFully (le_bytes 4 (size visible));;
      WriteFully visible;;
      WriteFully (le_bytes 4 (size backing));;
      WriteFully backing
  | _, _ => refuse
  end.

Fixpoint send_mounts (plan : ProcessPlan) (mounts : list PlannedMount) : sender unit :=
  match mounts with
  | [] => mret tt
  | mount :: rest => send_mount plan mount;; send_mounts plan rest
  end.

(** The result, the header when it was sent ([header_sent] answers [sendmsg]), and the stream. *)
Definition SendPlanWithSharedFd (pid uid : Z) (plan : ProcessPlan) (module_dir_fd : Z) (header_sent : bool)
    (answers : list io_answer) : bool * option BootstrapHeader * bytes :=
  if (module_dir_fd <? 0) || (process_name plan == []) then (false, None, [])
  else if negb header_sent then (false, None, [])
  else
    let '(r, sent, _) := (WriteFully (process_name plan);; send_mounts plan (plan_mounts plan)) answers in
    (bool_decide (is_Some r), Some (bootstrap_header pid uid plan), sent).

(** ** The shared memory *)

Definition kCompanionResultMagic : Z := 0x52534750.
Definition kCompanionResultVersion : Z := 1.
Definition kSharedStateMagic : Z := 0x53534750.
Definition kSharedStateVersion : Z := 4.

(** [sizeof(SharedMountState)], the result being 16 + 128 bytes. *)
Definition kSharedStateSize : Z := 160.

(** The words of [SharedMountState] that identify it and its status. *)
Record SharedMountState : Type := {
  shared_magic : Z;
  shared_version : Z;
  shared_status : Z;
  result_magic : Z;
  result_version : Z;
}.

(** A memory file: its size and its contents. *)
Record SharedFile : Type := { file_size : Z; file_state : SharedMountState }.

(** The answers are those of [memfd_create], [ftruncate] and [mmap]. *)
Definition CreateSharedState (created truncated mapped : bool) : option SharedFile :=
  if created && truncated && mapped then
    Some {| file_size := kSharedStateSize;
            file_state := {| shared_magic := kSharedStateMagic; shared_version := kSharedStateVersion;
                             shared_status := 0; result_magic := kCompanionResultMagic;
                             result_version := kCompanionResultVersion |} |}
  else None.

Definition MapSharedState (shared_fd : Z) (file : option SharedFile) (mapped : bool) : option SharedMountState :=
  match file with
  | None => None
  | Some file =>
      if (shared_fd <? 0) || (file_size file != kSharedStateSize) then None
      else if negb mapped then None
      else
        let state := file_state file in
        if (shared_magic state != kSharedStateMagic) || (shared_version state != kSharedStateVersion) then None
        else Some state
  end.

(** ** The companion *)

(** What [recvmsg] gave: the header when all of it came, and the descriptors of the first
    [SCM_RIGHTS] message that is long enough. *)
Definition ReceiveBootstrap (received : option BootstrapHeader) (descriptors : option (Z * Z))
    : option (BootstrapHeader * Z * Z) :=
  header ← received;
  let '(shared_fd, module_dir_fd) := default (-1, -1) descriptors in
  if (0 <=? shared_fd) && (0 <=? module_dir_fd) then Some (header, shared_fd, module_dir_fd) else None.

(** The checks of [CompanionHandler] on the header. *)
Definition valid_bootstrap (h : BootstrapHeader) : bool :=
  negb ((b_magic h != kBootstrapMagic) || (b_version h != kBootstrapVersion)
        || (b_pid h <=? 0) || (b_uid h <? 10000)
        || (b_rule_count h == 0) || (kMaxMountRules <? b_rule_count h)
        || (b_process_name_length h == 0) || (kMaxProcessNameBytes <=? b_process_name_length h)
        || (Z.land (b_compat_flags h) (u32 (Z.lnot 3)) != 0)
        || (Z.land (b_policy_flags h) (u32 (Z.lnot kPolicyFlagAllowLegacyStringBind)) != 0)).

(** One iteration of the loop over the mounts of the request. *)
Definition receive_mount (state : list PlannedMount * bytes) : receiver (list PlannedMount * bytes) :=
  action ← read_uint8;
  visible_length ← read_uint32;
  if (visible_length == 0) || (PATH_MAX <=? visible_length) then drop_client
  else
    visible ← ReadFully visible_length;
    backing_length ← read_uint32;
    if PATH_MAX <=? backing_length then drop_client
    else
      backing ← (if 0 <? backing_length then ReadFully backing_length else mret []);
      let visible := c_str visible in
      let backing := c_str backing in
      if negb (IsExecutableMountAction action)
         || (if action == kDenyAction then backing_length != 0 else backing_length == 0)
         || negb (IsAllowedTarget visible)
         || ((action == kRedirectAction) && negb (IsAllowedTarget backing))
      then drop_client
      else
        match ('(visible_path, buffer) ← StorePlanPath state.2 visible;
               '(backing_path, buffer) ← StorePlanPath buffer backing;
               Some (visible_path, backing_path, buffer)) with
        | Some (visible_path, backing_path, buffer) =>
            mret (state.1 ++ [{| pm_action := action; pm_visible_path := visible_path;
                                 pm_backing_path := backing_path |}], buffer)
        | None => drop_client
        end.

Fixpoint receive_mounts (count : nat) (state : list PlannedMount * bytes) : receiver (list PlannedMount * bytes) :=
  match count with
  | O => mret state
  | S count => state ← receive_mount state; receive_mounts count state
  end.

(** The plan that [CompanionHandler] rebuilds from a valid header and the stream. *)
Definition receive_plan (h : BootstrapHeader) : receiver ProcessPlan :=
  name ← ReadFully (b_process_name_length h);
  '(mounts, buffer) ← receive_mounts (Z.to_nat (b_rule_count h)) ([], [x00]);
  mret {| snapshot_generation := b_snapshot_generation h; plan_generation := b_plan_generation h;
          policy_flags := b_policy_flags h;
          plan_media_compat := Z.land (b_compat_flags h) 1 != 0;
          plan_provider_compat := Z.land (b_compat_flags h) 2 != 0;
          process_name := c_str name; plan_mounts := mounts; paths := buffer |}.

(** [CompanionHandler] up to the rebuilt plan. *)
Definition receive_request (received : option BootstrapHeader) (descriptors : option (Z * Z))
    (file : option SharedFile) (mapped : bool) : receiver (BootstrapHeader * SharedMountState * ProcessPlan) :=
  match ReceiveBootstrap received descriptors with
  | Some (header, shared_fd, _) =>
      if negb (valid_bootstrap header) then drop_client
      else
        match MapSharedState shared_fd file mapped with
        | Some state => plan ← receive_plan header; mret (header, state, plan)
        | None => drop_client
        end
  | None => drop_client
  end.

(** The comparison with the plan on disk; [policy] is the mapped file, when it could be mapped. *)
Definition plan_is_current (policy : option bytes) (uid : Z) (plan : ProcessPlan) : bool :=
  match policy with
  | Some data =>
      match LoadProcessPlan data (process_name plan) uid with
      | Ok (Some current) => SameProcessPlan plan current
      | _ => false
      end
  | None => false
  end.

(** ** Lemmas: the sender

    A sender that succeeds has sent its bytes, and one that fails a strict prefix of them. *)

Definition strict_prefix (short long : bytes) : Prop := exists more, more <> [] /\ long = short ++ more.

Definition steady (answers : list io_answer) : Prop :=
  Forall (fun a => match a with Transfers n => 0 < n | Interrupted => True | Fails => False end) answers.

Fixpoint transfers (answers : list io_answer) : nat :=
  match answers with
  | [] => 0
  | Transfers _ :: rest => S (transfers rest)
  | _ :: rest => transfers rest
  end.

(** A steady kernel lets it succeed. *)
Record writes {A} (m : sender A) (a : A) (wire : bytes) : Prop := {
  w_exact : forall answers, let '(r, sent, _) := m answers in
    match r with Some x => x = a /\ sent = wire | None => strict_prefix sent wire end;
  w_live : forall answers, steady answers -> (length wire <= transfers answers)%nat ->
    let '(r, _, rest) := m answers in
    r = Some a /\ steady rest /\ (transfers answers <= transfers rest + length wire)%nat;
}.

Lemma strict_prefix_app wire short long : strict_prefix short long -> strict_prefix (wire ++ short) (wire ++ long).
Proof. intros (more & Hm & ->). exists more. split; [done|]. by rewrite app_assoc. Qed.

Lemma strict_prefix_more short long wire : strict_prefix short long -> strict_prefix short (long ++ wire).
Proof.
  intros (more & Hm & ->). exists (more ++ wire). split; [by destruct more|]. by rewrite app_assoc.
Qed.

Lemma writes_ret {A} (a : A) : writes (mret a) a [].
Proof. split; [done|]. intros answers Hst Hn. cbn. split_and!; [done|done|lia]. Qed.

Lemma writes_bind {A B} (m : sender A) (f : A -> sender B) a b w1 w2 :
  writes m a w1 -> writes (f a) b w2 -> writes (m ≫= f) b (w1 ++ w2).
Proof.
  intros [E1 L1] [E2 L2]. unfold mbind, sender_bind. split; intros answers.
  - specialize (E1 answers). destruct (m answers) as [[[x|] sent] rest]; [|by apply strict_prefix_more].
    destruct E1 as [-> ->]. specialize (E2 rest). destruct (f a rest) as [[[y|] more] rest'].
    + by destruct E2 as [-> ->].
    + by apply strict_prefix_app.
  - rewrite length_app. intros Hst Hn. specialize (L1 answers Hst ltac:(lia)).
    destruct (m answers) as [[r sent] rest]. destruct L1 as (-> & Hst1 & Hn1).
    specialize (L2 rest Hst1 ltac:(lia)). destruct (f a rest) as [[r more] rest'].
    destruct L2 as (-> & Hst2 & Hn2). split_and!; [done|done|lia].
Qed.

Lemma WriteFully_writes data : writes (WriteFully data) tt data.
Proof.
  unfold WriteFully. split; intros answers; revert data.
  - induction answers as [|a answers IH]; intros data; cbn [write_fully]; destruct data as [|b data]; try done.
    { by exists (b :: data). }
    destruct a as [count| |]; [|exact (IH (b :: data))|by exists (b :: data)].
    destruct (Z.leb_spec count 0) as [|Hc]; [by exists (b :: data)|].
    specialize (IH (drop (Z.to_nat count) (b :: data))).
    destruct (write_fully _ _) as [[[[]|] sent] rest].
    + destruct IH as [_ ->]. by rewrite take_drop.
    + rewrite <- (take_drop (Z.to_nat count) (b :: data)) at 2. by apply strict_prefix_app.
  - induction answers as [|a answers IH]; intros data Hst Hn; cbn [write_fully]; destruct data as [|b data];
      try (split_and!; [done|done|cbn; lia]); [cbn in Hn; lia|].
    apply Forall_cons in Hst as [Ha Hst]. destruct a as [count| |]; [|exact (IH (b :: data) Hst Hn)|done].
    destruct (Z.leb_spec count 0) as [|Hc]; [lia|]. cbn [transfers] in *.
    specialize (IH (drop (Z.to_nat count) (b :: data)) Hst). rewrite length_drop in IH. cbn [length] in *.
    specialize (IH ltac:(lia)). destruct (write_fully _ _) as [[r sent] rest]. destruct IH as (-> & Hst' & Hn').
    split_and!; [done|done|lia].
Qed.

(** ** Lemmas: the receiver

    A receiver that succeeds on a stream has read the bytes it expects; it succeeds when the
    calls keep transferring; and it fails on a stream that ends too early. *)

Record reads_as {A} (m : receiver A) (a : A) (wire : bytes) : Prop := {
  ra_exact : forall s rest a' s', stream s = wire ++ rest -> m s = Some (a', s') -> a' = a /\ stream s' = rest;
  ra_live : forall s rest, stream s = wire ++ rest -> steady (reads s) -> (length wire <= transfers (reads s))%nat ->
    exists s', m s = Some (a, s') /\ stream s' = rest /\ steady (reads s')
      /\ (transfers (reads s) <= transfers (reads s') + length wire)%nat;
  ra_short : forall s, strict_prefix (stream s) wire -> m s = None;
}.

Lemma strict_prefix_nil short : ~ strict_prefix short [].
Proof. intros (more & Hm & E). destruct short, more; done. Qed.

Lemma strict_prefix_cases short w1 w2 :
  strict_prefix short (w1 ++ w2) ->
  strict_prefix short w1 \/ exists s2, short = w1 ++ s2 /\ strict_prefix s2 w2.
Proof.
  intros (more & Hm & E). destruct (decide (length short < length w1)%nat) as [Hl|Hl].
  - left. exists (drop (length short) w1). split.
    + intros Hd. apply (f_equal length) in Hd. rewrite length_drop in Hd. cbn in Hd. lia.
    + rewrite <- (take_drop (length short) w1) at 1. f_equal. apply (f_equal (take (length short))) in E.
      rewrite take_app_le in E by lia. by rewrite take_app_length in E.
  - right. exists (drop (length w1) short). apply (f_equal (take (length short))) in E as E1.
    rewrite take_app_length in E1. split.
    + rewrite <- (take_drop (length w1) short) at 1. f_equal. apply (f_equal (take (length w1))) in E.
      rewrite take_app_length in E. rewrite take_app_le in E by lia. by symmetry.
    + exists more. split; [done|]. apply (f_equal (drop (length w1))) in E.
      rewrite drop_app_length in E. rewrite drop_app_le in E by lia. done.
Qed.

Lemma reads_as_ret {A} (a : A) : reads_as (mret a) a [].
Proof.
  split.
  - intros s rest a' s' Hs [= <- <-]. done.
  - intros s rest Hs Hst _. exists s. split_and!; [done|done|done|lia].
  - by intros s ?%strict_prefix_nil.
Qed.

Lemma reads_as_bind {A B} (m : receiver A) (f : A -> receiver B) a b w1 w2 :
  reads_as m a w1 -> reads_as (f a) b w2 -> reads_as (m ≫= f) b (w1 ++ w2).
Proof.
  intros [E1 L1 S1] [E2 L2 S2]. unfold mbind, receiver_bind. split.
  - intros s rest b' s' Hs. rewrite <- app_assoc in Hs. destruct (m s) as [[x s1]|] eqn:Em; [|done].
    destruct (E1 _ _ _ _ Hs Em) as [-> Hs1]. by apply E2.
  - intros s rest Hs Hst Hn. rewrite <- app_assoc in Hs. rewrite length_app in Hn.
    destruct (L1 _ _ Hs Hst ltac:(lia)) as (s1 & -> & Hs1 & Hst1 & Hn1).
    destruct (L2 _ _ Hs1 Hst1 ltac:(lia)) as (s2 & -> & Hs2 & Hst2 & Hn2).
    exists s2. rewrite length_app. split_and!; [done|done|done|lia].
  - intros s [Hp|(s2 & Hs & Hp)]%strict_prefix_cases; [by rewrite S1|].
    destruct (m s) as [[x s1]|] eqn:Em; [|done]. destruct (E1 _ _ _ _ Hs Em) as [-> Hs1].
    apply S2. by rewrite Hs1.
Qed.

Lemma take_length_take {A} k (l : list A) : take (length (take k l)) l = take k l.
Proof.
  rewrite length_take. destruct (Nat.min_spec k (length l)) as [[_ ->]|[Hk ->]]; [done|].
  by rewrite !take_ge.
Qed.

Lemma read_fully_exact count stream0 reads0 data s :
  read_fully count stream0 reads0 = Some (data, s) ->
  length data = count /\ stream0 = data ++ stream s.
Proof.
  revert count stream0 data s. induction reads0 as [|a reads0 IH]; intros count stream0 data s; cbn [read_fully];
    (destruct count as [|count]; [by intros [= <- <-]|]); [done|].
  destruct a as [n| |]; [|apply IH|done].
  set (chunk := take _ _). case_bool_decide as Ec; [done|].
  intros ([more s1] & (Hl & Hs)%IH & [= <- <-])%bind_Some.
  assert (length chunk <= S count)%nat as Hc by (unfold chunk; rewrite length_take; lia).
  rewrite length_app, Hl, <- app_assoc, <- Hs. split; [lia|].
  rewrite <- (take_drop (length chunk) stream0) at 1. f_equal. apply take_length_take.
Qed.

Lemma read_fully_live count stream0 reads0 :
  (count <= length stream0)%nat -> steady reads0 -> (count <= transfers reads0)%nat ->
  exists data s, read_fully count stream0 reads0 = Some (data, s) /\ steady (reads s)
    /\ (transfers reads0 <= transfers (reads s) + count)%nat.
Proof.
  revert count stream0. induction reads0 as [|a reads0 IH]; intros count stream0 Hl Hst Hn; cbn [read_fully];
    (destruct count as [|count]; [do 2 eexists; split_and!; [done|done|cbn; lia]|]); [cbn in Hn; lia|].
  apply Forall_cons in Hst as [Ha Hst]. destruct a as [n| |]; [|by apply IH|done].
  set (chunk := take _ _).
  assert (0 < length chunk <= S count)%nat as Hc by (unfold chunk; rewrite length_take; lia).
  case_bool_decide as Ec; [rewrite Ec in Hc; cbn in Hc; lia|]. cbn [transfers] in *.
  destruct (IH (S count - length chunk)%nat (drop (length chunk) stream0)) as (data & s & -> & Hst' & Hn');
    [rewrite length_drop; lia|done|lia|].
  do 2 eexists. cbn. split_and!; [done|done|]. lia.
Qed.

Lemma ReadFully_reads data : reads_as (ReadFully (size data)) data data.
Proof.
  unfold ReadFully, size. rewrite Nat2Z.id. split.
  - intros s rest d s' Hs (Hl & E)%read_fully_exact. rewrite Hs in E. by apply app_inj_1 in E as [-> ->].
  - intros s rest Hs Hst Hn.
    destruct (read_fully_live (length data) (stream s) (reads s)) as (d & s' & E & Hst' & Hn');
      [rewrite Hs, length_app; lia|done|done|].
    exists s'. rewrite E. apply read_fully_exact in E as [Hl E]. rewrite Hs in E.
    by apply app_inj_1 in E as [-> ->].
  - intros s (more & Hm & E). destruct (read_fully _ _ _) as [[d s']|] eqn:Er; [|done].
    apply read_fully_exact in Er as [Hl Er]. rewrite Er in E.
    apply (f_equal length) in E. rewrite !length_app in E. destruct more; [done|]. cbn in E. lia.
Qed.

Lemma reads_as_wire {A} (m : receiver A) a w w' : reads_as m a w -> w = w' -> reads_as m a w'.
Proof. by intros ? <-. Qed.

Lemma read_uint_reads n v :
  0 <= v < 2 ^ (8 * Z.of_nat n) ->
  reads_as (data ← ReadFully (Z.of_nat n); mret (le_value data)) v (le_bytes n v).
Proof.
  intros Hv. eapply reads_as_wire; [|apply app_nil_r]. eapply reads_as_bind.
  - pose proof (ReadFully_reads (le_bytes n v)) as Hr. unfold size in Hr. by rewrite length_le_bytes in Hr.
  - cbn beta. rewrite <- (Z.mod_small v (2 ^ (8 * Z.of_nat n))) at 2 by done. rewrite <- le_value_bytes. apply reads_as_ret.
Qed.

(** ** Lemmas: the wire *)

Definition rule_wire (rule : Z * bytes * bytes) : bytes :=
  le_bytes 1 rule.1.1 ++ le_bytes 4 (size rule.1.2) ++ rule.1.2 ++ le_bytes 4 (size rule.2) ++ rule.2.

Definition plan_wire (name : bytes) (rules : list (Z * bytes * bytes)) : bytes := name ++ (rules ≫= rule_wire).

Lemma send_mount_writes plan mount rule :
  view_rule plan mount = Some rule -> writes (send_mount plan mount) tt (rule_wire rule).
Proof.
  unfold view_rule, send_mount. intros (v & -> & (b & -> & [= <-])%bind_Some)%bind_Some. unfold rule_wire. cbn [fst snd].
  repeat (eapply writes_bind; [apply WriteFully_writes|]). apply WriteFully_writes.
Qed.

Lemma send_mounts_writes plan mounts rules :
  mapM (view_rule plan) mounts = Some rules -> writes (send_mounts plan mounts) tt (rules ≫= rule_wire).
Proof.
  intros Hm. apply mapM_Some in Hm. induction Hm as [|m rule mounts rules Hr _ IH]; [apply writes_ret|].
  cbn [send_mounts]. change ((rule :: rules) ≫= rule_wire) with (rule_wire rule ++ (rules ≫= rule_wire)).
  eapply writes_bind; [by apply send_mount_writes|done].
Qed.

Lemma safe_text_pos s : safe_text s -> 0 < size s.
Proof. intros [Ha _]. destruct s; [done|]. rewrite size_cons. pose proof (size_nonneg s). lia. Qed.

Lemma no_nul_c_str s : no_nul (c_str s).
Proof.
  unfold c_str. pose proof (cut_spec x00 s) as Hc. destruct (cut x00 s) as [p [r|]]; cbn; [by destruct Hc|]. apply Hc.
Qed.

Lemma size_c_str s : size (c_str s) <= size s.
Proof.
  unfold c_str. pose proof (cut_spec x00 s) as Hc. destruct (cut x00 s) as [p [r|]]; cbn; destruct Hc as [-> _].
  - rewrite size_app. pose proof (size_nonneg (x00 :: r)). lia.
  - lia.
Qed.

Lemma receive_mount_reads rule mounts buffer :
  safe_rule rule -> size buffer + (size rule.1.2 + 1) + (size rule.2 + 1) <= kMaxPlanPathBytes ->
  reads_as (receive_mount (mounts, buffer))
    (mounts ++ plan_offsets (size buffer) [rule], buffer ++ plan_text [rule]) (rule_wire rule).
Proof.
  destruct rule as [[action visible] backing]. cbn [fst snd]. intros (Hnv & Hnb & Hv & Hkind) Hfit.
  cbn [fst snd] in *. pose proof (safe_text_pos _ Hv) as Hvpos. destruct Hv as [Ha Hvs].
  assert (0 <= size backing < PATH_MAX /\ IsExecutableMountAction action = true /\ 0 <= action < 256
    /\ (if action == kDenyAction then size backing != 0 else size backing == 0) = false
    /\ (action == kRedirectAction) && negb (IsAllowedTarget backing) = false) as (Hbs & Hx & Hbyte & Hd & Hr).
  { destruct Hkind as [[-> ->]|[-> Hb]]; [by split_and!|]. pose proof (safe_text_pos _ Hb). destruct Hb as [Hb Hbs].
    change ProcessPlan.PATH_MAX with PATH_MAX in Hbs. split_and!; [lia|lia|done|done|done| |].
    - cbn. apply bool_decide_eq_false_2. lia.
    - by rewrite Hb. }
  change ProcessPlan.PATH_MAX with PATH_MAX in Hvs. unfold PATH_MAX in Hvs, Hbs.
  unfold rule_wire, receive_mount, read_uint8, read_uint32. cbn [fst snd].
  eapply reads_as_bind; [by apply (read_uint_reads 1)|]. cbn beta.
  eapply reads_as_bind; [apply (read_uint_reads 4); lia|]. cbn beta.
  rewrite bool_decide_eq_false_2 by lia. unfold PATH_MAX. destruct (Z.leb_spec 4096 (size visible)); [lia|]. cbn [orb].
  eapply reads_as_bind; [apply ReadFully_reads|]. cbn beta.
  eapply reads_as_bind; [apply (read_uint_reads 4); lia|]. cbn beta.
  destruct (Z.leb_spec 4096 (size backing)); [lia|].
  eapply reads_as_wire; [eapply (reads_as_bind _ _ backing _ backing [])|apply app_nil_r].
  { destruct (Z.ltb_spec 0 (size backing)); [apply ReadFully_reads|].
    destruct backing; [apply reads_as_ret|]. rewrite size_cons in *. pose proof (size_nonneg backing). lia. }
  cbv zeta beta. rewrite !c_str_no_nul by done. rewrite Hx, Ha, Hd, Hr. cbn [negb orb].
  rewrite store_two. destruct (Z.ltb_spec kMaxPlanPathBytes (size buffer + (size visible + 1) + (size backing + 1)));
    [lia|]. cbn [fst snd plan_offsets plan_text]. apply reads_as_ret.
Qed.

Lemma receive_mounts_reads rules prior :
  Forall safe_rule rules -> 1 + rules_bytes prior + rules_bytes rules <= kMaxPlanPathBytes ->
  reads_as (receive_mounts (length rules) (plan_offsets 1 prior, x00 :: plan_text prior))
    (plan_offsets 1 (prior ++ rules), x00 :: plan_text (prior ++ rules)) (rules ≫= rule_wire).
Proof.
  intros Hs. revert prior. induction Hs as [|rule rules Hrule Hs IH]; intros prior Hfit.
  { rewrite app_nil_r. apply reads_as_ret. }
  change ((rule :: rules) ≫= rule_wire) with (rule_wire rule ++ (rules ≫= rule_wire)).
  cbn [length receive_mounts]. pose proof (rules_bytes_nonneg rules).
  assert (size (x00 :: plan_text prior) = 1 + rules_bytes prior) as Esz by (rewrite size_cons, size_plan_text; lia).
  change (rules_bytes (rule :: rules)) with (size rule.1.2 + 1 + (size rule.2 + 1) + rules_bytes rules) in Hfit.
  eapply reads_as_bind; [apply receive_mount_reads; [done|lia]|]. cbn beta.
  replace (prior ++ rule :: rules) with ((prior ++ [rule]) ++ rules) by (by rewrite <- app_assoc).
  rewrite Esz, <- plan_offsets_app, <- app_comm_cons, <- plan_text_app. apply IH.
  replace (rules_bytes (prior ++ [rule])) with (rules_bytes prior + (size rule.1.2 + 1 + (size rule.2 + 1))); [lia|].
  rewrite <- !size_plan_text, plan_text_app, size_app, (size_plan_text [rule]). cbn. lia.
Qed.

Lemma laid_out_view plan rules :
  laid_out rules (plan_mounts plan) (paths plan) -> mapM (view_rule plan) (plan_mounts plan) = Some rules.
Proof.
  intros (-> & Hp & Hs & _). apply (view_offsets plan [x00] rules []); [by rewrite app_nil_r|].
  eapply Forall_impl; [exact Hs|]. by intros rule (? & ? & _).
Qed.

Lemma receive_plan_reads pid uid process plan rules :
  laid_out rules (plan_mounts plan) (paths plan) -> process_name plan = process -> no_nul process ->
  size process < kMaxProcessNameBytes ->
  reads_as (receive_plan (bootstrap_header pid uid plan)) plan (plan_wire process rules).
Proof.
  intros Hlaid Hp Hn Hsz. pose proof (size_nonneg process). unfold kMaxProcessNameBytes in Hsz.
  destruct Hlaid as (Em & Eb & Hs & Hfit). unfold receive_plan, plan_wire.
  cbn [bootstrap_header b_process_name_length b_rule_count b_compat_flags b_snapshot_generation
    b_plan_generation b_policy_flags].
  eapply reads_as_bind; [rewrite Hp, u32_small by lia; apply ReadFully_reads|]. cbn beta.
  eapply reads_as_wire; [eapply reads_as_bind|apply app_nil_r].
  - rewrite Em. unfold size. rewrite Nat2Z.id, plan_offsets_length. apply (receive_mounts_reads rules []); [done|].
    rewrite Eb, size_cons, size_plan_text in Hfit. cbn. lia.
  - cbn beta iota. cbn [app]. rewrite <- Em, <- Eb, (c_str_no_nul _ Hn), <- Hp.
    set (flags := Z.lor _ _).
    assert ((Z.land flags 1 != 0) = plan_media_compat plan /\ (Z.land flags 2 != 0) = plan_provider_compat plan)
      as [-> ->]
      by (by destruct (plan_media_compat plan), (plan_provider_compat plan)).
    destruct plan. apply reads_as_ret.
Qed.

(** No request is longer. *)
Definition kMaxRequestBytes : Z := kMaxProcessNameBytes + kMaxPlanPathBytes + 9 * kMaxMountRules.

Lemma size_le_bytes n z : size (le_bytes n z) = Z.of_nat n.
Proof. unfold size. by rewrite length_le_bytes. Qed.

Lemma size_rules_wire rules : size (rules ≫= rule_wire) <= rules_bytes rules + 9 * size rules.
Proof.
  induction rules as [|rule rules IH]; [done|].
  change ((rule :: rules) ≫= rule_wire) with (rule_wire rule ++ (rules ≫= rule_wire)).
  change (rules_bytes (rule :: rules)) with (size rule.1.2 + 1 + (size rule.2 + 1) + rules_bytes rules).
  assert (size (rule_wire rule) = 9 + size rule.1.2 + size rule.2) by (unfold rule_wire; rewrite !size_app, !size_le_bytes; lia).
  rewrite size_app, size_cons. lia.
Qed.

Lemma plan_wire_bounded process plan rules :
  plan_laid_out process plan -> laid_out rules (plan_mounts plan) (paths plan) ->
  size (plan_wire process rules) <= kMaxRequestBytes.
Proof.
  intros (rules' & Hn & Hlaid' & _ & _ & Hsz & _) (Em & Eb & _ & Hb).
  assert (size rules = size rules') as En.
  { destruct Hlaid' as (Em' & _). rewrite Em in Em'. apply (f_equal length) in Em'. rewrite !plan_offsets_length in Em'.
    unfold size. lia. }
  unfold plan_wire, kMaxRequestBytes. rewrite size_app. pose proof (size_rules_wire rules).
  rewrite Eb, size_cons, size_plan_text in Hb. lia.
Qed.

Lemma bootstrap_header_valid pid uid process plan :
  plan_laid_out process plan -> 0 < pid -> 10000 <= uid -> valid_bootstrap (bootstrap_header pid uid plan) = true.
Proof.
  intros (rules & Hn & (Em & _) & Hp & Hpne & Hpsz & Hflags) Hpid Huid.
  assert (size (plan_mounts plan) = size rules) as En by (rewrite Em; unfold size; by rewrite plan_offsets_length).
  assert (0 < size process) as Hpos by (destruct process; [done|]; rewrite size_cons; pose proof (size_nonneg process); lia).
  unfold kMaxMountRules, kMaxProcessNameBytes in *. unfold valid_bootstrap, kMaxMountRules, kMaxProcessNameBytes. cbn [bootstrap_header b_magic b_version b_pid b_uid
    b_rule_count b_process_name_length b_compat_flags b_policy_flags].
  rewrite En, Hp, Hflags, u32_small by lia. rewrite !(bool_decide_eq_false_2 (_ = 0)) by lia.
  destruct (Z.leb_spec pid 0); [lia|]. destruct (Z.ltb_spec uid 10000); [lia|].
  destruct (Z.ltb_spec 64 (size rules)); [lia|]. destruct (Z.leb_spec 256 (size process)); [lia|].
  by destruct (plan_media_compat plan), (plan_provider_compat plan).
Qed.

Lemma MapSharedState_created file shared_fd created truncated mapped :
  CreateSharedState created truncated mapped = Some file -> 0 <= shared_fd ->
  MapSharedState shared_fd (Some file) true = Some (file_state file).
Proof.
  unfold CreateSharedState. destruct (_ && _); [|done]. intros [= <-] Hfd.
  unfold MapSharedState. destruct (Z.ltb_spec shared_fd 0); [lia|]. done.
Qed.

Lemma ReceiveBootstrap_some header shared_fd module_dir_fd :
  0 <= shared_fd -> 0 <= module_dir_fd ->
  ReceiveBootstrap (Some header) (Some (shared_fd, module_dir_fd)) = Some (header, shared_fd, module_dir_fd).
Proof.
  intros H1 H2. unfold ReceiveBootstrap. cbn.
  destruct (Z.leb_spec 0 shared_fd); [|lia]. destruct (Z.leb_spec 0 module_dir_fd); [done|lia].
Qed.

Lemma send_plan_writes process plan rules :
  laid_out rules (plan_mounts plan) (paths plan) -> process_name plan = process ->
  writes (WriteFully (process_name plan);; send_mounts plan (plan_mounts plan)) tt (plan_wire process rules).
Proof.
  intros Hlaid Hp. unfold plan_wire. rewrite Hp. eapply writes_bind; [apply WriteFully_writes|].
  by apply send_mounts_writes, laid_out_view.
Qed.

Lemma receive_request_reads pid uid module_dir_fd shared_fd plan process rules file :
  plan_laid_out process plan -> laid_out rules (plan_mounts plan) (paths plan) -> no_nul process ->
  0 < pid -> 10000 <= uid -> 0 <= module_dir_fd -> 0 <= shared_fd ->
  CreateSharedState true true true = Some file ->
  reads_as (receive_request (Some (bootstrap_header pid uid plan)) (Some (shared_fd, module_dir_fd)) (Some file) true)
    (bootstrap_header pid uid plan, file_state file, plan) (plan_wire process rules).
Proof.
  intros Hplan Hrules Hnul Hpid Huid Hdir Hshared Hfile.
  pose proof (bootstrap_header_valid pid uid process plan Hplan Hpid Huid) as Hvalid.
  destruct Hplan as (_ & _ & _ & Hp & _ & Hpsz & _).
  unfold receive_request. rewrite ReceiveBootstrap_some, Hvalid, (MapSharedState_created _ _ _ _ _ Hfile Hshared) by done.
  cbn [negb]. eapply reads_as_wire; [eapply reads_as_bind|apply app_nil_r].
  - by apply (receive_plan_reads pid uid process plan rules).
  - apply reads_as_ret.
Qed.

(** ** Lemmas: the comparison of plans *)

Lemma view_rule_paths p m visible backing :
  PlanPath p (pm_visible_path m) = Some visible -> PlanPath p (pm_backing_path m) = Some backing ->
  view_rule p m = Some (pm_action m, visible, backing).
Proof. unfold view_rule. by intros -> ->. Qed.

Lemma same_mounts_view p q l k :
  length l = length k -> same_mounts p q l k = true ->
  exists rules, mapM (view_rule p) l = Some rules /\ mapM (view_rule q) k = Some rules.
Proof.
  revert k. induction l as [|x l IH]; intros [|y k] Hl Hs; try done; [by exists []|].
  cbn [same_mounts] in Hs.
  destruct (PlanPath p (pm_visible_path x)) as [v1|] eqn:E1; [|done].
  destruct (PlanPath p (pm_backing_path x)) as [b1|] eqn:E2; [|done].
  destruct (PlanPath q (pm_visible_path y)) as [v2|] eqn:E3; [|done].
  destruct (PlanPath q (pm_backing_path y)) as [b2|] eqn:E4; [|done]. split_tests.
  destruct (IH k ltac:(by injection Hl) ltac:(done)) as (rules & Hv1 & Hv2). subst.
  exists ((pm_action x, v2, b2) :: rules). cbn [mapM].
  rewrite (view_rule_paths p x v2 b2), (view_rule_paths q y v2 b2) by done. cbn [mbind option_bind].
  rewrite Hv1, Hv2. split; [done|]. by replace (pm_action y) with (pm_action x).
Qed.

Lemma same_mounts_refl p l rules : mapM (view_rule p) l = Some rules -> same_mounts p p l l = true.
Proof.
  intros Hm. apply mapM_Some in Hm. induction Hm as [|x rule l rules Hr _ IH]; [done|]. cbn [same_mounts].
  unfold view_rule in Hr. apply bind_Some in Hr as (v & -> & Hr). apply bind_Some in Hr as (b & -> & _).
  by rewrite !bool_decide_eq_true_2, IH.
Qed.

Lemma SameProcessPlan_view p q : SameProcessPlan p q = true -> is_Some (view_plan p) /\ view_plan p = view_plan q.
Proof.
  unfold SameProcessPlan. intros H. split_tests.
  destruct (same_mounts_view p q (plan_mounts p) (plan_mounts q)) as (rules & Hv1 & Hv2);
    [unfold size in *; lia|done|].
  unfold view_plan. rewrite Hv1, Hv2. cbn. split; [by eexists|]. clear Hv1 Hv2.
  repeat match goal with E : _ = _ |- _ => first [rewrite E; clear E | clear E] end. done.
Qed.

Lemma SameProcessPlan_refl plan rules :
  mapM (view_rule plan) (plan_mounts plan) = Some rules -> SameProcessPlan plan plan = true.
Proof. intros Hv. unfold SameProcessPlan. rewrite !bool_decide_eq_true_2 by done. by apply same_mounts_refl in Hv. Qed.

(** ** Lemmas: arbitrary requests *)

(** What holds of every result a receiver may give. *)
Definition gives {A} (m : receiver A) (Q : A -> Prop) : Prop := forall s a s', m s = Some (a, s') -> Q a.

Lemma gives_ret {A} (a : A) (Q : A -> Prop) : Q a -> gives (mret a) Q.
Proof. by intros Hq s a' s' [= <- <-]. Qed.

Lemma gives_drop {A} (Q : A -> Prop) : gives drop_client Q.
Proof. done. Qed.

Lemma gives_bind {A B} (m : receiver A) (f : A -> receiver B) P Q :
  gives m P -> (forall a, P a -> gives (f a) Q) -> gives (m ≫= f) Q.
Proof.
  intros Hm Hf s b s'. unfold mbind, receiver_bind. destruct (m s) as [[a s1]|] eqn:Em; [|done].
  intros Eb. exact (Hf a (Hm _ _ _ Em) _ _ _ Eb).
Qed.

Lemma gives_ReadFully count : 0 <= count -> gives (ReadFully count) (fun data => size data = count).
Proof. intros Hc s data s' Hr. apply read_fully_exact in Hr as [Hl _]. unfold size. lia. Qed.

Lemma gives_any {A} (m : receiver A) : gives m (fun _ => True).
Proof. done. Qed.

Lemma gives_read_uint n :
  gives (data ← ReadFully (Z.of_nat n); mret (le_value data)) (fun v => 0 <= v < 2 ^ (8 * Z.of_nat n)).
Proof.
  eapply gives_bind; [apply gives_ReadFully; lia|]. intros data Hd. apply gives_ret. rewrite <- Hd.
  apply le_value_range.
Qed.

Lemma receive_mount_gives index state :
  load_inv index state -> gives (receive_mount state) (load_inv (index + 1)).
Proof.
  intros Hinv. unfold receive_mount, read_uint8, read_uint32.
  eapply gives_bind; [apply (gives_read_uint 1)|]. intros action _. cbn beta.
  eapply gives_bind; [apply (gives_read_uint 4)|]. intros vlen Hvlen. cbn beta in *.
  destruct (_ || _) eqn:Ev; [done|]. split_tests.
  eapply gives_bind; [apply gives_ReadFully; lia|]. intros visible Hv. cbn beta in *.
  eapply gives_bind; [apply (gives_read_uint 4)|]. intros blen Hblen. cbn beta in *.
  destruct (Z.leb_spec PATH_MAX blen); [done|].
  eapply (gives_bind _ _ (fun backing => size backing = blen)).
  { destruct (Z.ltb_spec 0 blen); [apply gives_ReadFully; lia|]. apply gives_ret. rewrite size_nil. lia. }
  intros backing Hb. cbv zeta. destruct (_ || _) eqn:Eg; [done|]. split_tests.
  pose proof (size_c_str visible). pose proof (size_c_str backing).
  assert (safe_rule (action, c_str visible, c_str backing)) as Hsafe.
  { unfold safe_rule, safe_text. change ProcessPlan.PATH_MAX with PATH_MAX. cbn [fst snd].
    split; [apply no_nul_c_str|]. split; [apply no_nul_c_str|]. split; [split; [done|lia]|].
    unfold IsExecutableMountAction in *. destruct (decide (action = kDenyAction)) as [->|Hd].
    - left. split; [done|]. rewrite bool_decide_eq_true_2 in * by done. split_tests.
      destruct backing as [|b backing]; [done|]. rewrite (size_cons b) in Hb. pose proof (size_nonneg backing). lia.
    - right. rewrite (bool_decide_eq_false_2 (action = kDenyAction)) in * by done. cbn [orb] in *. split_tests.
      subst action. rewrite bool_decide_eq_true_2 in * by done. cbn [andb] in *. split_tests.
      split; [done|]. split; [done|lia]. }
  rewrite store_two. destruct (Z.ltb_spec kMaxPlanPathBytes (size state.2 + (size (c_str visible) + 1)
    + (size (c_str backing) + 1))); [done|]. apply gives_ret.
  destruct Hinv as (rules & Hn & Em & Eb & Hall & Hfit). destruct state as [mounts buffer]. cbn [fst snd] in *.
  exists (rules ++ [(action, c_str visible, c_str backing)]). rewrite size_app, Hn. split; [done|]. cbn [fst snd].
  assert (size buffer = 1 + rules_bytes rules) as Esz by (rewrite Eb, size_cons, size_plan_text; lia).
  split_and!.
  - rewrite plan_offsets_app, Em, <- Esz. done.
  - rewrite plan_text_app, Eb. cbn [plan_text]. by rewrite <- app_comm_cons.
  - apply Forall_app. by split; [|constructor].
  - rewrite !size_app, !size_cons, size_app, size_cons. change (size (@nil byte)) with 0. lia.
Qed.

Lemma receive_mounts_gives count index state :
  load_inv index state -> gives (receive_mounts count state) (load_inv (index + Z.of_nat count)).
Proof.
  revert index state. induction count as [|count IH]; intros index state Hinv; cbn [receive_mounts].
  { rewrite Z.add_0_r. by apply gives_ret. }
  eapply gives_bind; [by apply receive_mount_gives|]. intros state' Hinv'.
  replace (index + Z.of_nat (S count)) with (index + 1 + Z.of_nat count) by lia. by apply IH.
Qed.

Lemma receive_plan_gives h :
  0 <= b_rule_count h -> valid_bootstrap h = true ->
  gives (receive_plan h) (fun plan => exists rules, 0 < size rules <= kMaxMountRules
    /\ laid_out rules (plan_mounts plan) (paths plan) /\ no_nul (process_name plan)).
Proof.
  unfold valid_bootstrap. intros Hcount Hv. split_tests. unfold receive_plan.
  eapply gives_bind; [apply gives_any|]. intros name _.
  eapply gives_bind.
  { apply (receive_mounts_gives _ 0). exists []. split; [done|]. split_and!; [done|done|constructor|by vm_compute]. }
  intros [mounts buffer] (rules & Hn & Hlaid). apply gives_ret. exists rules. cbn [plan_mounts paths process_name].
  split; [lia|]. split; [exact Hlaid|apply no_nul_c_str].
Qed.

(** ** Properties *)

(** C19. A request arrives as it was sent, however the kernel cuts the stream. When the
    application sends the plan it loaded, the companion rebuilds exactly that plan, with the
    header of the application, and reads nothing else; while the policy on disk is the same it
    finds the plan current. A steady kernel lets both ends succeed; a request that could not be
    sent to the end is never taken for one. *)
Theorem request_roundtrip data process uid pid module_dir_fd shared_fd plan file answers :
  LoadProcessPlan data process uid = Ok (Some plan) -> no_nul process ->
  0 < pid -> 10000 <= uid -> 0 <= module_dir_fd -> 0 <= shared_fd ->
  CreateSharedState true true true = Some file ->
  let '(ok, header, sent) := SendPlanWithSharedFd pid uid plan module_dir_fd true answers in
  let receive rs :=
    receive_request header (Some (shared_fd, module_dir_fd)) (Some file) true {| reads := rs; stream := sent |} in
  let request := (bootstrap_header pid uid plan, file_state file, plan) in
  plan_is_current (Some data) uid plan = true
  /\ (ok = true -> forall rs r s', receive rs = Some (r, s') -> r = request /\ stream s' = [])
  /\ (ok = true -> forall rs, steady rs -> (length sent <= transfers rs)%nat ->
        exists s', receive rs = Some (request, s'))
  /\ (ok = false -> forall rs, receive rs = None)
  /\ (steady answers -> kMaxRequestBytes <= Z.of_nat (transfers answers) -> ok = true).
Proof.
  intros Hload Hnul Hpid Huid Hdir Hshared Hfile.
  destruct (LoadProcessPlan_laid_out data process uid) as [_ Hlaid]. specialize (Hlaid plan Hload).
  pose proof Hlaid as (rules & _ & Hrules & Hp & Hpne & _).
  destruct (receive_request_reads pid uid module_dir_fd shared_fd plan process rules file) as [Rexact Rlive Rshort];
    [done..|].
  destruct (send_plan_writes process plan rules Hrules Hp) as [Wexact Wlive].
  specialize (Wexact answers). specialize (Wlive answers). unfold SendPlanWithSharedFd.
  destruct (Z.ltb_spec module_dir_fd 0); [lia|]. rewrite bool_decide_eq_false_2 by congruence. cbn [orb negb].
  destruct ((WriteFully (process_name plan);; send_mounts plan (plan_mounts plan)) answers) as [[r sent] rest].
  cbv zeta. split_and!.
  - unfold plan_is_current. rewrite Hp, Hload. eapply SameProcessPlan_refl. by apply laid_out_view.
  - intros Hok%bool_decide_eq_true rs r' s'. destruct r as [x|]; [|by destruct Hok]. destruct Wexact as [_ ->].
    apply Rexact. cbn. by rewrite app_nil_r.
  - intros Hok%bool_decide_eq_true rs Hst Hn. destruct r as [x|]; [|by destruct Hok]. destruct Wexact as [_ ->].
    destruct (Rlive {| reads := rs; stream := plan_wire process rules |} []) as (s' & -> & _);
      [cbn; by rewrite app_nil_r|done|done|by exists s'].
  - intros Hok%bool_decide_eq_false rs. destruct r as [x|]; [by destruct Hok; exists x|]. by apply Rshort.
  - intros Hst Hn. pose proof (plan_wire_bounded process plan rules Hlaid Hrules) as Hb. unfold size in Hb.
    destruct (Wlive Hst ltac:(lia)) as (-> & _). by apply bool_decide_eq_true_2; exists tt.
Qed.

(** C3. The companion trusts nothing in a request. Whatever header, descriptors and bytes
    arrive, a plan it rebuilds has at most 64 rules with safe relative paths in a bounded buffer;
    and when it finds the plan current, the plan is exactly the one that the policy on disk gives
    to the process name and uid of the request. *)
Theorem accepted_request_is_policy header descriptors file mapped s h state plan s' :
  0 <= b_rule_count header ->
  receive_request (Some header) descriptors file mapped s = Some ((h, state, plan), s') ->
  h = header /\ valid_bootstrap h = true /\ plan_safe plan
  /\ shared_magic state = kSharedStateMagic /\ shared_version state = kSharedStateVersion
  /\ (forall data doc generation, DecodePolicy data = Ok (doc, generation) ->
        plan_is_current (Some data) (b_uid h) plan = true ->
        is_Some (view_plan plan) /\ view_plan plan = plan_spec doc generation (process_name plan) (b_uid h)).
Proof.
  intros Hcount. unfold receive_request. destruct (ReceiveBootstrap _ _) as [[[h0 shared_fd] dir]|] eqn:Er; [|done].
  assert (h0 = header) as ->.
  { unfold ReceiveBootstrap in Er. cbn in Er. destruct (default _ descriptors) as [a b].
    destruct (_ && _); [|done]. by injection Er. }
  destruct (valid_bootstrap header) eqn:Ev; [|done]. cbn [negb].
  destruct (MapSharedState _ _ _) as [st|] eqn:Em; [|done]. unfold mbind, receiver_bind.
  destruct (receive_plan header s) as [[p s1]|] eqn:Ep; [|done]. intros [= <- <- <- <-].
  destruct (receive_plan_gives header Hcount Ev _ _ _ Ep) as (rules & Hn & Hlaid & Hnul).
  split; [done|]. split; [done|]. split.
  { pose proof (laid_out_planned _ _ _ Hlaid). destruct Hlaid as (Emo & _ & _ & Hb). split; [|by split].
    rewrite Emo. unfold size in *. by rewrite plan_offsets_length. }
  unfold MapSharedState in Em. destruct file as [file|]; [|done]. destruct (_ || _); [done|].
  destruct (negb mapped); [done|]. cbv zeta in Em. destruct (_ || _) eqn:Eid; [done|]. injection Em as <-. split_tests.
  split; [done|]. split; [done|]. intros data doc generation Hdec Hcur. unfold plan_is_current in Hcur.
  destruct (LoadProcessPlan_agrees data doc generation (process_name p) (b_uid header) Hdec Hnul) as (r & El & Hag).
  rewrite El in Hcur. destruct r as [current|]; [|done]. apply SameProcessPlan_view in Hcur as [Hsome Hview].
  split; [done|]. rewrite Hview. apply Hag.
Qed.

(** ** Witnesses *)

Definition small_plan : ProcessPlan :=
  match LoadProcessPlan small_file (lit "a:remote") 1010123 with
  | Ok (Some plan) => plan
  | _ => {| snapshot_generation := 0; plan_generation := 0; policy_flags := 0; plan_media_compat := false;
            plan_provider_compat := false; process_name := []; plan_mounts := []; paths := [] |}
  end.

Definition small_shared : SharedFile :=
  {| file_size := kSharedStateSize;
     file_state := {| shared_magic := kSharedStateMagic; shared_version := kSharedStateVersion; shared_status := 0;
                      result_magic := kCompanionResultMagic; result_version := kCompanionResultVersion |} |}.

(** The kernel takes three bytes at a time and is interrupted now and then. *)
Definition slow_kernel : list io_answer := flat_map (fun _ => [Transfers 3; Interrupted]) (seq 0 40).

Lemma request_roundtrip_witness :
  (SendPlanWithSharedFd 7 1010123 small_plan 4 true slow_kernel).1.1 = true
  /\ exists s', receive_request (SendPlanWithSharedFd 7 1010123 small_plan 4 true slow_kernel).1.2 (Some (5, 6))
       (Some small_shared) true
       {| reads := slow_kernel; stream := (SendPlanWithSharedFd 7 1010123 small_plan 4 true slow_kernel).2 |}
     = Some ((bootstrap_header 7 1010123 small_plan, file_state small_shared, small_plan), s').
Proof.
  assert (LoadProcessPlan small_file (lit "a:remote") 1010123 = Ok (Some small_plan)) as Hload by (vm_compute; reflexivity).
  pose proof (request_roundtrip small_file (lit "a:remote") 1010123 7 6 5 small_plan small_shared slow_kernel Hload
    ltac:(by apply contains_false) ltac:(lia) ltac:(lia) ltac:(lia) ltac:(lia) ltac:(reflexivity)) as Hround.
  change (SendPlanWithSharedFd 7 1010123 small_plan 4 true slow_kernel)
    with (SendPlanWithSharedFd 7 1010123 small_plan 6 true slow_kernel).
  destruct (SendPlanWithSharedFd 7 1010123 small_plan 6 true slow_kernel) as [[ok header] sent] eqn:Esend.
  assert (ok = true /\ (length sent <= transfers slow_kernel)%nat) as [-> Hlen].
  { vm_compute in Esend. injection Esend as <- _ <-. split; [reflexivity|vm_compute; lia]. }
  destruct Hround as (_ & _ & Hlive & _). split; [reflexivity|].
  apply Hlive; [reflexivity| |exact Hlen]. repeat constructor.
Defined.

Lemma accepted_request_is_policy_witness :
  let header := bootstrap_header 7 1010123 small_plan in
  let s := {| reads := slow_kernel; stream := (SendPlanWithSharedFd 7 1010123 small_plan 6 true slow_kernel).2 |} in
  exists h state plan s',
    receive_request (Some header) (Some (5, 6)) (Some small_shared) true s = Some ((h, state, plan), s')
    /\ plan_safe plan.
Proof.
  cbv zeta.
  set (s := {| reads := slow_kernel; stream := (SendPlanWithSharedFd 7 1010123 small_plan 6 true slow_kernel).2 |}).
  destruct (receive_request (Some (bootstrap_header 7 1010123 small_plan)) (Some (5, 6)) (Some small_shared) true s)
    as [[[[h state] plan] s']|] eqn:E; [|exfalso; vm_compute in E; discriminate E].
  exists h, state, plan, s'. split; [reflexivity|].
  apply (accepted_request_is_policy (bootstrap_header 7 1010123 small_plan) (Some (5, 6)) (Some small_shared) true s h state plan s');
    [vm_compute; discriminate|exact E].
Defined.
