(* ===== verification/Resolver.v ===== *)
(** * Directories opened one component at a time (native/directory_resolver.cpp)

    [OpenDirectoryRoot] and [ResolveDirectoryBeneath] with the system calls they make. The
    kernel is a [Kernel]: what each call would reach at each moment, for the directory tree may
    change between two calls. The process is a [Process]: its descriptors, the time and [errno].
    Paths are C strings and hold no NUL; the flags of the calls never vary and are part of them. *)

From S2P Require Import Prelude Path MountBackend Snapshot.

Local Open Scope pg_scope.

Definition EPERM : Z := 1.
Definition EBADF : Z := 9.
Definition EACCES : Z := 13.
Definition ENOSYS : Z := 38.
Definition NAME_MAX : Z := 255.

(** The fields of [struct stat] that are read. *)
Record Stat : Type := {
  st_is_dir : bool;
  st_dev : Z;
  st_ino : Z;
}.

Record DirectoryResolveResult : Type := {
  r_fd : Z;
  r_error : Z;
  r_capability : Z;
}.

Definition failed (e : Z) : DirectoryResolveResult := {| r_fd := -1; r_error := e; r_capability := 0 |}.

(** One turn of the loop of [ValidLogicalPath]. *)
Definition valid_component (name : bytes) : bool :=
  negb ((size name =? 0) || (NAME_MAX <? size name) || (name == lit ".") || (name == lit "..")).

(** The loop: it ends at the end of the string, which is after a final separator too. *)
Fixpoint valid_components (parts : list bytes) : bool :=
  match parts with
  | [] | [[]] => true
  | name :: rest => valid_component name && valid_components rest
  end.

Definition ValidLogicalPath (path : bytes) : bool :=
  if starts_with (lit "/") path || contains x5c path then false
  else (path == []) || valid_components (split_on x2f path).

Definition OpenAt2Unavailable (e : Z) : bool :=
  (e =? ENOSYS) || (e =? EINVAL) || (e =? EPERM) || (e =? EACCES).

Section Resolver.
Context {Node : Type}.

(** What the calls with [O_PATH | O_DIRECTORY | O_NOFOLLOW] reach at a moment, or their errno:
    [k_child] is [openat], [k_beneath] [openat2] with [RESOLVE_BENEATH], [RESOLVE_NO_SYMLINKS]
    and [RESOLVE_NO_MAGICLINKS]; [k_new_fd] is the number a new descriptor gets. *)
Record Kernel : Type := {
  k_open : nat -> bytes -> Node + Z;
  k_child : nat -> Node -> bytes -> Node + Z;
  k_beneath : nat -> Node -> bytes -> Node + Z;
  k_new_fd : nat -> gmap Z Node -> Z + Z;
  k_lstat : nat -> bytes -> Stat + Z;
  k_fstat : nat -> Node -> Stat + Z;
}.

Record Process : Type := {
  open_fds : gmap Z Node;
  now : nat;
  errno : Z;
}.

(** A computation in the process. There are no exceptions; [Oob] is an access out of bounds. *)
Definition os (A : Type) : Type := Process -> outcome Empty_set (A * Process).

#[export] Instance os_ret : MRet os := fun A x s => Ok (x, s).

#[export] Instance os_bind : MBind os := fun A B f m s => '(x, s') ← m s; f x s'.

Definition out_of_bounds {A} : os A := fun _ => Oob.

Definition get_errno : os Z := fun s => Ok (errno s, s).

Context (k : Kernel).

(** ** System calls *)

Definition fails_with (e : Z) : os Z := fun s =>
  Ok (-1, {| open_fds := open_fds s; now := S (now s); errno := e |}).

Definition new_descriptor (found : Node + Z) : os Z := fun s =>
  match found with
  | inr e => fails_with e s
  | inl node =>
      match k_new_fd k (now s) (open_fds s) with
      | inr e => fails_with e s
      | inl number => Ok (number, {| open_fds := <[number := node]> (open_fds s);
                                     now := S (now s); errno := errno s |})
      end
  end.

Definition open (path : bytes) : os Z := fun s => new_descriptor (k_open k (now s) path) s.

Definition at_directory (directory : Z) (reach : nat -> Node -> Node + Z) : os Z := fun s =>
  match open_fds s !! directory with
  | Some node => new_descriptor (reach (now s) node) s
  | None => fails_with EBADF s
  end.

Definition openat (directory : Z) (name : bytes) : os Z :=
  at_directory directory (fun t node => k_child k t node name).

Definition openat2 (directory : Z) (path : bytes) : os Z :=
  at_directory directory (fun t node => k_beneath k t node path).

Definition dup_cloexec (directory : Z) : os Z := at_directory directory (fun _ node => inl node).

Definition lstat (path : bytes) : os (option Stat) := fun s =>
  let answer e r := Ok (r, {| open_fds := open_fds s; now := S (now s); errno := e |}) in
  match k_lstat k (now s) path with
  | inl value => answer (errno s) (Some value)
  | inr e => answer e None
  end.

Definition fstat (number : Z) : os (option Stat) := fun s =>
  let answer e r := Ok (r, {| open_fds := open_fds s; now := S (now s); errno := e |}) in
  match open_fds s !! number with
  | None => answer EBADF None
  | Some node =>
      match k_fstat k (now s) node with
      | inl value => answer (errno s) (Some value)
      | inr e => answer e None
      end
  end.

Definition close (number : Z) : os unit := fun s =>
  Ok (tt, {| open_fds := delete number (open_fds s); now := S (now s); errno := errno s |}).

(** ** The functions of the file *)

(** The loop over the components, from [current]; [name] has room for [NAME_MAX] bytes and a NUL. *)
Fixpoint walk (parts : list bytes) (current : Z) : os DirectoryResolveResult :=
  match parts with
  | [] | [[]] => mret {| r_fd := current; r_error := 0; r_capability := kCapabilityComponentFdWalk |}
  | name :: rest =>
      if NAME_MAX <? size name then out_of_bounds
      else
        next ← openat current name;
        if next <? 0 then
          e ← get_errno;
          close current;;
          mret (failed e)
        else
          close current;;
          walk rest next
  end.

Definition WalkDirectoryComponents (root_fd : Z) (logical_path : bytes) : os DirectoryResolveResult :=
  current ← dup_cloexec root_fd;
  if current <? 0 then e ← get_errno; mret (failed e)
  else if logical_path == [] then
    mret {| r_fd := current; r_error := 0; r_capability := kCapabilityComponentFdWalk |}
  else walk (split_on x2f logical_path) current.

Definition OpenDirectoryRoot (absolute_path : bytes) : os DirectoryResolveResult :=
  if negb (starts_with (lit "/") absolute_path) then mret (failed EINVAL)
  else
    number ← open absolute_path;
    if number <? 0 then e ← get_errno; mret {| r_fd := number; r_error := e; r_capability := 0 |}
    else mret {| r_fd := number; r_error := 0; r_capability := 0 |}.

Definition ResolveDirectoryBeneath (root_fd : Z) (logical_path : bytes) (force_component_walk : bool)
    : os DirectoryResolveResult :=
  if (root_fd <? 0) || negb (ValidLogicalPath logical_path) then mret (failed EINVAL)
  else if negb force_component_walk && (logical_path != []) then
    number ← openat2 root_fd logical_path;
    if 0 <=? number then mret {| r_fd := number; r_error := 0; r_capability := kCapabilityOpenAt2 |}
    else
      e ← get_errno;
      if negb (OpenAt2Unavailable e) then mret {| r_fd := number; r_error := e; r_capability := 0 |}
      else WalkDirectoryComponents root_fd logical_path
  else WalkDirectoryComponents root_fd logical_path.
End Resolver.

Arguments Kernel : clear implicits.
Arguments Process : clear implicits.
Arguments os : clear implicits.


(** ** What the kernel documents *)

(** A name that [openat] can only find in the directory itself. *)
Definition plain (name : bytes) : Prop :=
  name <> [] /\ x2f ∉ name /\ name <> lit "." /\ name <> lit "..".

(** [names] leads from a directory to another through subdirectories, each a real entry of the
    one before it at some moment of the interval: no link, no "..". [fs_entry] is the tree. *)
Inductive descends {Node} (fs_entry : nat -> Node -> bytes -> option Node)
    : nat -> nat -> Node -> list bytes -> Node -> Prop :=
  | descends_nil lo hi node : descends fs_entry lo hi node [] node
  | descends_cons lo hi t node name next rest last :
      (lo <= t < hi)%nat -> plain name -> fs_entry t node name = Some next ->
      descends fs_entry t hi next rest last -> descends fs_entry lo hi node (name :: rest) last.

(** The components the loops visit: a final separator ends the last one. *)
Definition components (path : bytes) : list bytes := filter (fun p => p <> []) (split_on x2f path).

(** A kernel over a tree of directories: [O_NOFOLLOW] and [O_DIRECTORY] make [openat] on a plain
    name reach the entry of that name or fail, [openat2] with the flags above resolves a path
    inside the directory without following links, a new descriptor has an unused number, and
    [errno] is not zero after a failure. *)
Class KernelOf {Node} (k : Kernel Node) (fs_entry : nat -> Node -> bytes -> option Node) : Prop := {
  child_is_entry : forall t node name next,
    plain name -> k_child k t node name = inl next -> fs_entry t node name = Some next;
  beneath_descends : forall t node path last,
    ValidLogicalPath path = true -> k_beneath k t node path = inl last ->
    descends fs_entry t (S t) node (components path) last;
  new_fd_unused : forall t table number,
    k_new_fd k t table = inl number -> 0 <= number /\ table !! number = None;
  child_errno : forall t node name e, k_child k t node name = inr e -> e <> 0;
  beneath_errno : forall t node path e, k_beneath k t node path = inr e -> e <> 0;
  open_errno : forall t path e, k_open k t path = inr e -> e <> 0;
  new_fd_errno : forall t table e, k_new_fd k t table = inr e -> e <> 0;
  lstat_errno : forall t path e, k_lstat k t path = inr e -> e <> 0;
  fstat_errno : forall t node e, k_fstat k t node = inr e -> e <> 0;
}.

Section Confined.
Context {Node : Type} (k : Kernel Node) (fs_entry : nat -> Node -> bytes -> option Node).
Context `{!KernelOf k fs_entry}.

(** ** Lemmas: paths *)

Lemma valid_component_plain name : valid_component name = true -> x2f ∉ name -> plain name /\ size name <= NAME_MAX.
Proof.
  intros H Hs. unfold valid_component in H. split_tests. split; [|done].
  split_and!; try done. by intros ->.
Qed.

Lemma valid_components_cons name rest :
  valid_components (name :: rest) = true -> x2f ∉ name ->
  name = [] /\ rest = []
  \/ plain name /\ size name <= NAME_MAX /\ valid_components rest = true.
Proof.
  intros H Hs. destruct name as [|c name]; [destruct rest; [by left|]|].
  - cbn in H. discriminate H.
  - right. cbn [valid_components] in H. apply andb_true_iff in H as [Hc Hr].
    destruct (valid_component_plain _ Hc Hs). done.
Qed.

(** ** Lemmas: system calls *)

Lemma os_bind_run {A B} (m : os Node A) (f : A -> os Node B) s x s1 :
  m s = Ok (x, s1) -> (m ≫= f) s = f x s1.
Proof. intros E. unfold mbind, os_bind. by rewrite E. Qed.

(** What a call that may open a descriptor leaves. *)
Lemma new_descriptor_spec found s :
  (forall e, found = inr e -> e <> 0) ->
  exists number s', new_descriptor k found s = Ok (number, s') /\ now s' = S (now s)
    /\ (number = -1 /\ open_fds s' = open_fds s /\ errno s' <> 0
        \/ exists node, found = inl node /\ 0 <= number /\ open_fds s !! number = None
           /\ open_fds s' = <[number := node]> (open_fds s)).
Proof.
  intros He. unfold new_descriptor, fails_with. destruct found as [node|e].
  - destruct (k_new_fd k (now s) (open_fds s)) as [number|e] eqn:E.
    + destruct (new_fd_unused _ _ _ E). eexists _, _. split; [done|]. cbn. split; [done|].
      right. eauto.
    + eexists _, _. split; [done|]. cbn. split; [done|]. left. split_and!; try done.
      by eapply new_fd_errno.
  - eexists _, _. split; [done|]. cbn. split; [done|]. left. split_and!; eauto.
Qed.

Lemma at_directory_spec directory reach s :
  (forall t node e, reach t node = inr e -> e <> 0) ->
  exists number s', at_directory k directory reach s = Ok (number, s') /\ now s' = S (now s)
    /\ (number = -1 /\ open_fds s' = open_fds s /\ errno s' <> 0
        \/ exists node next, open_fds s !! directory = Some node /\ reach (now s) node = inl next
           /\ 0 <= number /\ open_fds s !! number = None
           /\ open_fds s' = <[number := next]> (open_fds s)).
Proof.
  intros He. unfold at_directory. destruct (open_fds s !! directory) as [node|] eqn:E.
  - destruct (new_descriptor_spec (reach (now s) node) s (He _ _))
      as (number & s' & -> & Hn & [?|(next & ? & ? & ? & ?)]).
    + eexists _, _. split; [done|]. split; [done|]. by left.
    + eexists _, _. split; [done|]. split; [done|]. right. exists node, next. done.
  - eexists _, _. split; [done|]. split; [done|]. by left.
Qed.

Lemma lstat_spec path s :
  exists r s', lstat k path s = Ok (r, s') /\ now s' = S (now s) /\ open_fds s' = open_fds s
    /\ match r with
       | Some value => k_lstat k (now s) path = inl value
       | None => errno s' <> 0
       end.
Proof.
  unfold lstat. destruct (k_lstat k (now s) path) eqn:E; eexists _, _; (split; [done|]);
    split_and!; try done. by eapply lstat_errno.
Qed.

Lemma fstat_spec number s node :
  open_fds s !! number = Some node ->
  exists r s', fstat k number s = Ok (r, s') /\ now s' = S (now s) /\ open_fds s' = open_fds s
    /\ match r with
       | Some value => k_fstat k (now s) node = inl value
       | None => errno s' <> 0
       end.
Proof.
  intros Ho. unfold fstat. rewrite Ho. destruct (k_fstat k (now s) node) eqn:E;
    eexists _, _; (split; [done|]); split_and!; try done. by eapply fstat_errno.
Qed.

Lemma OpenDirectoryRoot_spec path s :
  starts_with (lit "/") path = true ->
  exists r s', OpenDirectoryRoot k path s = Ok (r, s') /\ now s' = S (now s)
    /\ (r_fd r = -1 /\ r_error r <> 0 /\ open_fds s' = open_fds s
        \/ exists root, k_open k (now s) path = inl root /\ 0 <= r_fd r
           /\ open_fds s !! r_fd r = None /\ open_fds s' = <[r_fd r := root]> (open_fds s)).
Proof.
  intros Hp. unfold OpenDirectoryRoot. rewrite Hp. cbn [negb].
  destruct (new_descriptor_spec (k_open k (now s) path) s (open_errno _ _))
    as (number & s' & E & Hn & Hc).
  rewrite (os_bind_run (open k path) _ _ _ _ E).
  destruct Hc as [(-> & Ho & He)|(root & Hroot & Hpos & Hfree & Ho)].
  - eexists _, _. split; [done|]. split; [done|]. by left.
  - destruct (Z.ltb_spec number 0); [lia|]. eexists _, _. split; [done|]. split; [done|].
    right. by exists root.
Qed.

(** What a resolution that started with the descriptors [table] at [from] leaves. *)
Definition resolved (table : gmap Z Node) (root : Node) (names : list bytes) (from : nat)
    (r : DirectoryResolveResult) (s : Process Node) : Prop :=
  (from <= now s)%nat
  /\ (r_fd r = -1 /\ r_error r <> 0 /\ open_fds s = table
      \/ exists node, 0 <= r_fd r /\ r_error r = 0 /\ r_capability r <> 0
         /\ table !! r_fd r = None /\ open_fds s = <[r_fd r := node]> table
         /\ descends fs_entry from (now s) root names node).

Lemma descends_mono lo hi lo' hi' node names last :
  (lo' <= lo)%nat -> (hi <= hi')%nat -> descends fs_entry lo hi node names last ->
  descends fs_entry lo' hi' node names last.
Proof.
  intros Hlo Hhi D. revert lo' Hlo. induction D; intros lo' Hlo; [constructor|].
  econstructor; [|done|done|by apply IHD]. lia.
Qed.

Lemma resolved_mono from from' table root names r s :
  (from' <= from)%nat -> resolved table root names from r s -> resolved table root names from' r s.
Proof.
  intros Hf [Hle Hr]. split; [lia|].
  destruct Hr as [?|(last & ? & ? & ? & ? & ? & D)]; [by left|]. right. exists last.
  do 5 (split; [done|]). eapply descends_mono; [| |done]; lia.
Qed.

Lemma walk_spec parts current node table s :
  Forall (fun p => x2f ∉ p) parts -> valid_components parts = true ->
  0 <= current -> table !! current = None -> open_fds s = <[current := node]> table ->
  exists r s', walk k parts current s = Ok (r, s')
    /\ resolved table node (filter (fun p => p <> []) parts) (now s) r s'.
Proof.
  revert current node s. induction parts as [|name rest IH]; intros current node s Hs Hv Hc Ht Ho.
  { eexists _, _. split; [done|]. split; [done|]. right. exists node.
    split_and!; try done. constructor. }
  apply Forall_cons in Hs as [Hn Hs].
  destruct (valid_components_cons _ _ Hv Hn) as [[-> ->]|(Hp & Hsize & Hrest)].
  { eexists _, _. split; [done|]. split; [done|]. right. exists node.
    split_and!; try done. constructor. }
  rewrite filter_cons_True by apply Hp.
  assert (walk k (name :: rest) current s
    = (next ← openat k current name;
       if next <? 0 then e ← get_errno; close current;; mret (failed e)
       else close current;; walk k rest next) s) as ->.
  { cbn [walk]. destruct name; [by destruct Hp|].
    destruct (Z.ltb_spec NAME_MAX (size (b :: name))); [lia|done]. }
  destruct (at_directory_spec current (fun t d => k_child k t d name) s
    (fun t d e => child_errno t d name e)) as (next & s1 & E & Hnow & Hcases).
  rewrite (os_bind_run _ _ _ _ _ E).
  destruct Hcases as [(-> & Ho1 & He)|(d & node' & Hd & Hreach & Hnext & Hfree & Ho1)].
  - eexists _, _. split; [done|]. split; [cbn; lia|]. left. split_and!; try done. cbn.
    rewrite Ho1, Ho. by apply delete_insert_id.
  - destruct (Z.ltb_spec next 0); [lia|]. rewrite Ho, lookup_insert_eq in Hd. injection Hd as <-.
    rewrite Ho in Hfree. apply lookup_insert_None in Hfree as [Hfree Hne].
    set (s2 := {| open_fds := delete current (open_fds s1); now := S (now s1); errno := errno s1 |}).
    destruct (IH next node' s2) as (r & s' & Ew & Hle & Hr); try done.
    { cbn. rewrite Ho1, Ho, delete_insert_ne by done. by rewrite delete_insert_id. }
    exists r, s'. split; [done|]. cbn in Hle. split; [lia|].
    destruct Hr as [?|(last & ? & ? & ? & ? & ? & D)]; [by left|]. right. exists last.
    do 5 (split; [done|]). apply (descends_cons _ _ _ (now s) _ _ node'); [lia|done| |].
    + by apply child_is_entry.
    + eapply descends_mono; [| |done]; cbn; lia.
Qed.

Lemma WalkDirectoryComponents_spec root_fd path s :
  ValidLogicalPath path = true ->
  exists r s', WalkDirectoryComponents k root_fd path s = Ok (r, s') /\ (now s <= now s')%nat
    /\ (r_fd r = -1 /\ r_error r <> 0 /\ open_fds s' = open_fds s
        \/ exists root, open_fds s !! root_fd = Some root
           /\ resolved (open_fds s) root (components path) (now s) r s').
Proof.
  intros Hv. unfold WalkDirectoryComponents.
  destruct (at_directory_spec root_fd (fun _ node => inl node) s) as (current & s1 & E & Hnow & Hc).
  { done. }
  rewrite (os_bind_run _ _ _ _ _ E).
  destruct Hc as [(-> & Ho & He)|(root & node & Hroot & [= <-] & Hpos & Hfree & Ho)].
  { eexists _, _. split; [done|]. split; [cbn; lia|]. by left. }
  destruct (Z.ltb_spec current 0); [lia|]. case_bool_decide as Hp.
  { subst path. eexists _, _. split; [done|]. split; [lia|]. right. exists root. split; [done|].
    split; [lia|]. right. exists root. split_and!; try done. constructor. }
  unfold ValidLogicalPath in Hv. destruct (_ || _) in Hv; [done|].
  rewrite (bool_decide_eq_false_2 (path = [])) in Hv by done.
  destruct (walk_spec (split_on x2f path) current root (open_fds s) s1) as (r & s' & Ew & Hle & Hr);
    try done; [apply split_on_nosep|].
  exists r, s'. split; [done|]. split; [lia|]. right. exists root. split; [done|].
  apply (resolved_mono (now s1)); [lia|]. by split.
Qed.

(** ** Property *)

(** [ResolveDirectoryBeneath] never leaves its root and never leaks a descriptor. It reads
    no name past its buffer; when it fails the descriptors are those before the call and the
    error is not zero; when it succeeds the path is valid, exactly one descriptor is new, and its
    directory was reached from the root through one real subdirectory for each component of the
    path, with either strategy and whatever happens to the tree meanwhile. *)
Theorem resolve_directory_confined root_fd path force s :
  exists r s', ResolveDirectoryBeneath k root_fd path force s = Ok (r, s') /\ (now s <= now s')%nat
    /\ (r_fd r = -1 /\ r_error r <> 0 /\ open_fds s' = open_fds s
        \/ ValidLogicalPath path = true
           /\ exists root, open_fds s !! root_fd = Some root
           /\ resolved (open_fds s) root (components path) (now s) r s').
Proof.
  unfold ResolveDirectoryBeneath.
  destruct ((root_fd <? 0) || negb (ValidLogicalPath path)) eqn:Ev.
  { eexists _, _. split; [done|]. split; [done|]. by left. }
  split_tests. assert (ValidLogicalPath path = true) as Hv by done.
  pose proof (WalkDirectoryComponents_spec root_fd path) as W.
  destruct (negb force && _).
  2: { destruct (W s Hv) as (r & s' & ? & ? & ?). exists r, s'. tauto. }
  destruct (at_directory_spec root_fd (fun t d => k_beneath k t d path) s
    (fun t d e => beneath_errno t d path e)) as (number & s1 & E & Hnow & Hc).
  rewrite (os_bind_run _ _ _ _ _ E).
  destruct Hc as [(-> & Ho & He)|(root & node & Hroot & Hreach & Hpos & Hfree & Ho)].
  - cbn [Z.leb Z.compare]. rewrite (os_bind_run get_errno _ s1 (errno s1) s1) by done.
    destruct (OpenAt2Unavailable (errno s1)); cbn [negb].
    2: { eexists _, _. split; [done|]. split; [cbn; lia|]. by left. }
    destruct (W s1 Hv) as (r & s' & Ew & Hle & Hr). exists r, s'. split; [done|]. split; [lia|].
    rewrite Ho in Hr. destruct Hr as [?|(root & Hroot & Hr)]; [by left|].
    right. split; [done|]. exists root. split; [done|]. by apply (resolved_mono (now s1)); [lia|].
  - destruct (Z.leb_spec 0 number); [|lia]. eexists _, _. split; [done|]. split; [lia|].
    right. split; [done|]. exists root. split; [done|]. split; [lia|]. right. exists node.
    do 5 (split; [done|]). rewrite Hnow. by apply beneath_descends.
Qed.
End Confined.

(** ** A tree that does not change

    Its directories are named from the root; links and files are not part of it. *)

Section Tree.
Context (directories : list (list bytes)) (stat_of : list bytes -> Stat).

Definition tree_entry (t : nat) (node : list bytes) (name : bytes) : option (list bytes) :=
  if bool_decide (node ++ [name] ∈ directories) then Some (node ++ [name]) else None.

Fixpoint tree_descend (node : list bytes) (names : list bytes) : option (list bytes) :=
  match names with
  | [] => Some node
  | name :: rest => next ← tree_entry 0 node name; tree_descend next rest
  end.

Definition found_or (e : Z) {A} (o : option A) : A + Z :=
  match o with Some x => inl x | None => inr e end.

Definition tree_kernel : Kernel (list bytes) :=
  {| k_open := fun _ path => if path == lit "/" then inl [] else inr ENOENT;
     k_child := fun t node name => found_or ENOENT (tree_entry t node name);
     k_beneath := fun _ node path => found_or ENOENT (tree_descend node (components path));
     k_new_fd := fun _ table => inl (map_fold (fun number _ top => Z.max top (number + 1)) 3 table);
     k_lstat := fun _ path =>
       if bool_decide (components path ∈ directories) then inl (stat_of (components path))
       else inr ENOENT;
     k_fstat := fun _ node => inl (stat_of node) |}.

Lemma tree_descends names node last t :
  Forall plain names -> tree_descend node names = Some last ->
  descends tree_entry t (S t) node names last.
Proof.
  revert node. induction names as [|name names IH]; intros node Hp H.
  { cbn in H. simplify_eq. constructor. }
  apply Forall_cons in Hp as [Hp Hps]. cbn [tree_descend] in H.
  apply bind_Some in H as (next & He & H). apply (descends_cons _ _ _ t _ _ next); [lia|done|done|].
  by apply IH.
Qed.

Lemma valid_components_plain parts :
  Forall (fun p => x2f ∉ p) parts -> valid_components parts = true ->
  Forall plain (filter (fun p => p <> []) parts).
Proof.
  induction parts as [|p parts IH]; intros Hs Hv; [constructor|].
  apply Forall_cons in Hs as [Hp Hs].
  destruct (valid_components_cons _ _ Hv Hp) as [[-> ->]|(Hplain & _ & Hr)]; [constructor|].
  rewrite filter_cons_True by apply Hplain. constructor; [done|]. by apply IH.
Qed.

Lemma ValidLogicalPath_plain path : ValidLogicalPath path = true -> Forall plain (components path).
Proof.
  unfold ValidLogicalPath. destruct (_ || _); [done|]. intros H. unfold components.
  case_bool_decide as Hp; [subst; constructor|].
  apply valid_components_plain; [apply split_on_nosep|done].
Qed.

Lemma map_fold_top {A} (table : gmap Z A) :
  3 <= map_fold (fun number _ top => Z.max top (number + 1)) 3 table
  /\ forall number, is_Some (table !! number) ->
       number < map_fold (fun number _ top => Z.max top (number + 1)) 3 table.
Proof.
  apply (map_fold_weak_ind (fun top (table : gmap Z A) => 3 <= top /\ forall number, is_Some (table !! number) -> number < top)).
  - split; [done|]. intros number [x Hx]. by rewrite lookup_empty in Hx.
  - intros i x m top Hi [Ht Hall]. split; [lia|]. intros number Hn.
    destruct (decide (i = number)) as [->|Hne]; [lia|]. rewrite lookup_insert_ne in Hn by done.
    specialize (Hall number Hn). lia.
Qed.

#[export] Instance tree_kernel_of : KernelOf tree_kernel tree_entry.
Proof.
  assert (forall A (o : option A) e, found_or ENOENT o = inr e -> e <> 0) as Hfound.
  { intros A [] e; cbn; intros E; [discriminate E|]. by injection E as <-. }
  split; cbn.
  - intros t node name next _ H. destruct (tree_entry t node name); cbn in H; by simplify_eq.
  - intros t node path last Hv H. destruct (tree_descend node (components path)) eqn:E; cbn in H;
      simplify_eq. apply tree_descends; [by apply ValidLogicalPath_plain|done].
  - intros _ table number [= <-]. destruct (map_fold_top table) as [H3 Hall]. split; [lia|].
    apply eq_None_not_Some. intros H. specialize (Hall _ H). lia.
  - intros t node name e. apply Hfound.
  - intros t node path e. apply Hfound.
  - intros t path e. case_bool_decide; intros E; by simplify_eq.
  - done.
  - intros t path e. case_bool_decide; intros E; by simplify_eq.
  - done.
Qed.
End Tree.

(** ** Witness *)

Definition sample_directories : list (list bytes) :=
  [[]; [lit "storage"]; [lit "storage"; lit "emulated"]; [lit "storage"; lit "emulated"; lit "0"];
   [lit "storage"; lit "emulated"; lit "0"; lit "Download"];
   [lit "storage"; lit "emulated"; lit "0"; lit "My Files"]].

Definition sample_stat (node : list bytes) : Stat :=
  {| st_is_dir := true; st_dev := 40; st_ino := 8 + size (concat node) |}.

Definition sample_kernel : Kernel (list bytes) := tree_kernel sample_directories sample_stat.
Definition sample_entry := tree_entry sample_directories.

#[export] Instance sample_kernel_of : KernelOf sample_kernel sample_entry.
Proof. apply tree_kernel_of. Qed.

(** A process with the root on descriptor 3. *)
Definition sample_process : Process (list bytes) :=
  {| open_fds := {[3 := []]}; now := 0; errno := 0 |}.

Lemma resolve_directory_confined_witness :
  KernelOf sample_kernel sample_entry
  /\ exists r s', ResolveDirectoryBeneath sample_kernel 3 (lit "storage/emulated/0/") true sample_process
                  = Ok (r, s')
     /\ r_fd r = 7 /\ open_fds s' !! 7 = Some [lit "storage"; lit "emulated"; lit "0"]
     /\ resolved sample_entry {[3 := []]} [] [lit "storage"; lit "emulated"; lit "0"] 0 r s'.
Proof.
  split; [apply sample_kernel_of|].
  destruct (resolve_directory_confined sample_kernel sample_entry 3 (lit "storage/emulated/0/") true
    sample_process) as (r & s' & E & _ & H).
  exists r, s'. split; [exact E|].
  assert (exists x, ResolveDirectoryBeneath sample_kernel 3 (lit "storage/emulated/0/") true sample_process
    = Ok x /\ r_fd x.1 = 7 /\ open_fds x.2 !! 7 = Some [lit "storage"; lit "emulated"; lit "0"]) as Hrun.
  { eexists. vm_compute. split; [reflexivity|]. split; reflexivity. }
  destruct Hrun as (x & Ex & Hfd & Hopen). rewrite Ex in E. injection E as E. subst x.
  split; [exact Hfd|]. split; [exact Hopen|]. cbn in Hfd.
  destruct H as [(Hbad & _)|(_ & root & Hroot & H)]; [rewrite Hfd in Hbad; discriminate Hbad|].
  cbn in Hroot. rewrite lookup_singleton_eq in Hroot. injection Hroot as <-. exact H.
Defined.
