(* ===== verification/MountExecutor.v ===== *)
(** * The mount executor (native/mount_executor.cpp)

    The operations that mount a directory, verify the mount and take it back. The
    system calls are the fields of [Sys]: what each answers, an errno of zero being
    success. [errno] is returned where the code returns it. *)

From S2P Require Import Prelude Path MountBackend Snapshot Resolver.

Local Open Scope pg_scope.

Record Sys : Type := {
  sys_lstat : bytes -> Stat + Z;
  sys_stat : bytes -> Stat + Z;
  sys_move_mount : Z -> Z -> Z;
  sys_bind_fds : Z -> Z -> Z;
  sys_bind_paths : bytes -> bytes -> Z;
  sys_umount : bytes -> Z;
  sys_namespace : option (Z * Z);
}.

Record PinnedIdentity : Type := {
  p_fd : Z;
  p_device : Z;
  p_inode : Z;
  p_mount : MountPathIdentity;
  expected_bind_root : bytes;
}.

Record AppliedMount : Type := {
  a_backend : MountBackendKind;
  a_target : bytes;
  a_mount_id : Z;
  a_operation_id : Z;
}.

Inductive MountOperationStage : Set :=
  | kStageNone | kPreflight | kApply | kVerify | kRollbackIdentity | kRollbackUnmount
  | kRollbackVerify.

Record MountError : Type := {
  stage : MountOperationStage;
  err_backend : MountBackendKind;
  err_operation_id : Z;
  error : Z;
  expected_mount_id : Z;
  actual_mount_id : Z;
  mutation_happened : bool;
  identity_confirmed : bool;
}.

Definition ok (failure : MountError) : bool := error failure =? 0.

Definition SameObject (value : Stat) (identity : PinnedIdentity) : bool :=
  st_is_dir value && (st_dev value =? p_device identity) && (st_ino value =? p_inode identity).

(** [snprintf] of the given text, and the test of its result. *)
Definition print_bounded (text : bytes) (capacity : Z) : outcome Z bytes :=
  if (0 <? size text) && (size text <? capacity) then Ok text else Err ENAMETOOLONG.

Definition BuildExpectedBindRoot (absolute_path mountpoint root : bytes) (capacity : Z)
    : outcome Z bytes :=
  if negb (IsPathOnMount absolute_path mountpoint) then Err EXDEV
  else
    let suffix := if mountpoint == lit "/" then absolute_path
                  else drop (length mountpoint) absolute_path in
    match suffix with
    | [] => print_bounded root capacity
    | c :: _ =>
        if root == lit "/" then print_bounded suffix capacity
        else print_bounded (root ++ (if c == x2f then [] else lit "/") ++ suffix) capacity
    end.

Definition VerifyPinnedDirectory (sys : Sys) (absolute_path : bytes) (identity : PinnedIdentity) : Z :=
  match sys_lstat sys absolute_path with
  | inl value => if SameObject value identity then 0 else ESTALE
  | inr e => e
  end.

Definition ApplyRaw (sys : Sys) (backend : MountBackendKind) (source_fd target_fd : Z)
    (source_path target_path : bytes) : Z :=
  match backend with
  | kStrictOpenTree => sys_move_mount sys source_fd target_fd
  | kStrictProcFd => sys_bind_fds sys source_fd target_fd
  | kLegacyString => sys_bind_paths sys source_path target_path
  | kUnsupported => ENOTSUP
  end.

Definition apply_failure (backend : MountBackendKind) (operation_id : Z)
    (at_stage : MountOperationStage) (e : Z) (mutated : bool) : MountError :=
  {| stage := at_stage; err_backend := backend; err_operation_id := operation_id; error := e;
     expected_mount_id := 0; actual_mount_id := 0; mutation_happened := mutated;
     identity_confirmed := false |}.

Definition ApplyDirectoryMountRaw (sys : Sys) (backend : MountBackendKind) (operation_id : Z)
    (source target : PinnedIdentity) (source_locator target_locator : bytes)
    : AppliedMount * MountError :=
  let mount := {| a_backend := backend; a_target := target_locator; a_mount_id := 0;
                  a_operation_id := operation_id |} in
  let fail at_stage e := (mount, apply_failure backend operation_id at_stage e false) in
  if (p_fd source <? 0) || (p_fd target <? 0) then fail kPreflight EINVAL
  else
    let legacy := backend == kLegacyString in
    let source_error := if legacy then VerifyPinnedDirectory sys source_locator source else 0 in
    if source_error != 0 then fail kPreflight source_error
    else
      let target_error := if legacy then VerifyPinnedDirectory sys target_locator target else 0 in
      if target_error != 0 then fail kPreflight target_error
      else
        let e := ApplyRaw sys backend (p_fd source) (p_fd target) source_locator target_locator in
        if e != 0 then fail kApply e
        else (mount, apply_failure backend operation_id kStageNone 0 true).

(** The legacy backend also looks at the object and at the number of mounts. *)
Definition verify_legacy (sys : Sys) (before after : MountInfoSnapshot) (source : PinnedIdentity)
    (target_locator : bytes) (expected_mount_count : Z) : Z :=
  match sys_stat sys target_locator with
  | inl value =>
      if negb (SameObject value source) then EXDEV
      else if (expected_mount_count =? 0)
              || negb (size (entries after) =? size (entries before) + expected_mount_count)
      then EBADMSG else 0
  | inr e => e
  end.

Definition no_identity : MountPathIdentity :=
  {| i_mount_id := 0; i_parent_mount_id := 0; i_device := 0; i_root := []; i_mountpoint := [];
     i_filesystem := [] |}.

(** What a lookup leaves in the identity it was given, and its error. *)
Definition found_identity (r : outcome Z MountPathIdentity) : MountPathIdentity * Z :=
  match r with
  | Ok identity => (identity, 0)
  | Err e => (no_identity, e)
  | Oob => (no_identity, EINVAL)
  end.

(** The applied mount with the id that was found, and the verdict. *)
Definition VerifyDirectoryMount (sys : Sys) (before after : MountInfoSnapshot)
    (source target : PinnedIdentity) (target_locator : bytes) (applied : AppliedMount)
    (expected_mount_count : Z) : AppliedMount * MountError :=
  let failure e actual :=
    {| stage := kVerify; err_backend := a_backend applied; err_operation_id := a_operation_id applied;
       error := e; expected_mount_id := 0; actual_mount_id := actual; mutation_happened := true;
       identity_confirmed := false |} in
  if (target_locator == []) || negb (mapped before) || negb (mapped after)
     || (namespace_id before != namespace_id after)
     || negb (MountInfoSnapshotMatchesCurrentNamespace after (sys_namespace sys))
  then (applied, failure ESTALE 0)
  else
    let '(mounted, find_error) := found_identity (FindMountInfoPath after target_locator true) in
    let applied := {| a_backend := a_backend applied; a_target := a_target applied;
                      a_mount_id := i_mount_id mounted;
                      a_operation_id := a_operation_id applied |} in
    let e :=
      if find_error =? 0 then
        if a_backend applied == kLegacyString
        then verify_legacy sys before after source target_locator expected_mount_count else 0
      else find_error in
    let e :=
      if (e =? 0)
         && ((i_mount_id mounted =? 0) || (i_root mounted == [])
             || (i_root mounted != expected_bind_root source)
             || negb (i_device mounted =? p_device source)
             || (i_filesystem mounted != i_filesystem (p_mount source)))
      then EXDEV else e in
    let expected_parent :=
      if target_locator == i_mountpoint (p_mount target) then i_parent_mount_id (p_mount target)
      else i_mount_id (p_mount target) in
    let e :=
      if (e =? 0)
         && ((expected_parent =? 0) || negb (i_parent_mount_id mounted =? expected_parent))
      then EXDEV else e in
    if e != 0 then (applied, failure e (i_mount_id mounted))
    else
      (applied,
       {| stage := kStageNone; err_backend := a_backend applied;
          err_operation_id := a_operation_id applied; error := 0; expected_mount_id := 0;
          actual_mount_id := i_mount_id mounted; mutation_happened := true;
          identity_confirmed := true |}).

(** The result of a rollback step on a recorded mount. *)
Definition rollback_result (applied : AppliedMount) (at_stage : MountOperationStage) (e actual : Z)
    (confirmed : bool) : MountError :=
  {| stage := at_stage; err_backend := a_backend applied;
     err_operation_id := a_operation_id applied; error := e;
     expected_mount_id := a_mount_id applied; actual_mount_id := actual;
     mutation_happened := true; identity_confirmed := confirmed |}.

Definition ValidateRollbackDirectoryMount (sys : Sys) (applied : AppliedMount)
    (snapshot : MountInfoSnapshot) : MountError :=
  if a_mount_id applied =? 0 then rollback_result applied kRollbackIdentity ESTALE 0 false
  else
    let '(current, e) :=
      if MountInfoSnapshotMatchesCurrentNamespace snapshot (sys_namespace sys)
      then found_identity (FindMountInfoPath snapshot (a_target applied) true)
      else (no_identity, ESTALE) in
    if (e != 0) || (i_mount_id current =? 0) || negb (i_mount_id current =? a_mount_id applied)
    then rollback_result applied kRollbackIdentity (if e != 0 then e else ESTALE)
           (i_mount_id current) false
    else rollback_result applied kStageNone 0 (i_mount_id current) true.

Definition UnmountValidatedDirectoryMount (sys : Sys) (applied : AppliedMount) : MountError :=
  let e := sys_umount sys (a_target applied) in
  if e != 0 then rollback_result applied kRollbackUnmount e (a_mount_id applied) true
  else rollback_result applied kStageNone 0 (a_mount_id applied) true.

Definition VerifyRollbackDirectoryMount (sys : Sys) (applied : AppliedMount)
    (snapshot : MountInfoSnapshot) : MountError :=
  let '(remaining, e) :=
    if MountInfoSnapshotMatchesCurrentNamespace snapshot (sys_namespace sys)
    then found_identity (FindMountInfoPath snapshot (a_target applied) true)
    else (no_identity, ESTALE) in
  if (e != 0) && (e != ENOENT) then rollback_result applied kRollbackVerify e 0 true
  else if (e =? 0) && (i_mount_id remaining =? a_mount_id applied)
  then rollback_result applied kRollbackVerify EBUSY (i_mount_id remaining) true
  else rollback_result applied kStageNone 0 0 true.

(** ** Lemmas *)

Lemma found_identity_zero r m e :
  found_identity r = (m, e) -> e = 0 -> i_mount_id m <> 0 -> r = Ok m.
Proof. destruct r; cbn; intros [= <- <-] He Hm; [done|by destruct Hm|done]. Qed.

(** The components of a path, empty ones dropped. *)
Definition parts (path : bytes) : list bytes := filter (fun p => p <> []) (split_on x2f path).

Lemma parts_app a b : parts (a ++ x2f :: b) = parts a ++ parts b.
Proof. unfold parts. by rewrite split_on_app_any, filter_app. Qed.

Lemma parts_slash b : parts (x2f :: b) = parts b.
Proof. apply (parts_app []). Qed.

Lemma on_mount_parts path mountpoint :
  IsPathOnMount path mountpoint = true ->
  let suffix := if mountpoint == lit "/" then path else drop (length mountpoint) path in
  (suffix = [] \/ exists s, suffix = x2f :: s) /\ parts path = parts mountpoint ++ parts suffix.
Proof.
  unfold IsPathOnMount. destruct path as [|c path]; [done|].
  destruct (decide (c = x2f)) as [->|Hc]; [|by destruct c].
  case_bool_decide as Hm; [subst; intros _; split; [right; eauto|done]|].
  intros [Hs Hd]%andb_true_iff. apply starts_with_spec in Hs as [r E]. cbv zeta.
  rewrite E, drop_app_length in *.
  destruct r as [|d r]; [split; [by left|by rewrite !app_nil_r]|].
  apply bool_decide_eq_true in Hd as ->. split; [right; eauto|]. by rewrite parts_app, parts_slash.
Qed.

Lemma print_bounded_spec text capacity :
  match print_bounded text capacity with
  | Ok out => out = text /\ 0 < size out < capacity
  | Err e => e = ENAMETOOLONG
  | Oob => False
  end.
Proof. unfold print_bounded. destruct (_ && _) eqn:E; [split_tests; split; [done|lia]|done]. Qed.

Lemma ApplyDirectoryMountRaw_spec sys backend operation_id source target source_locator
    target_locator :
  let '(mount, failure) := ApplyDirectoryMountRaw sys backend operation_id source target
                             source_locator target_locator in
  mutation_happened failure = ok failure
  /\ a_backend mount = backend /\ a_target mount = target_locator /\ a_mount_id mount = 0
  /\ (ok failure = true ->
       0 <= p_fd source /\ 0 <= p_fd target
       /\ ApplyRaw sys backend (p_fd source) (p_fd target) source_locator target_locator = 0
       /\ backend <> kUnsupported
       /\ (backend = kLegacyString ->
            VerifyPinnedDirectory sys source_locator source = 0
            /\ VerifyPinnedDirectory sys target_locator target = 0)).
Proof.
  unfold ApplyDirectoryMountRaw, ok. cbv zeta.
  destruct ((p_fd source <? 0) || (p_fd target <? 0)) eqn:Ef; [by split_and!|].
  apply orb_false_iff in Ef as [Hs%Z.ltb_ge Ht%Z.ltb_ge].
  repeat case_bool_decide; cbn -[Z.eqb]; split_and!; try done;
    try (symmetry; by apply Z.eqb_neq); intros Hok; try (by apply Z.eqb_eq in Hok);
    split_and!; try done; intros ->; done.
Qed.

Lemma VerifyDirectoryMount_confirmed sys before after source target locator applied count :
  let '(recorded, failure) :=
    VerifyDirectoryMount sys before after source target locator applied count in
  a_operation_id recorded = a_operation_id applied /\ a_backend recorded = a_backend applied
  /\ a_target recorded = a_target applied /\ identity_confirmed failure = ok failure
  /\ (identity_confirmed failure = true -> a_mount_id recorded <> 0).
Proof.
  unfold VerifyDirectoryMount. cbv zeta. destruct (_ || _); [done|].
  destruct (found_identity (FindMountInfoPath after locator true)) as [mounted fe].
  set (e1 := if fe =? 0 then _ else fe).
  set (e2 := if (e1 =? 0) && _ then EXDEV else e1).
  set (e3 := if (e2 =? 0) && _ then EXDEV else e2).
  case_bool_decide as E3; cbn [negb]; cbn -[Z.eqb]; split_and!; try done.
  - intros _ Hid. assert (e2 = 0) as E2.
    { revert E3. unfold e3. destruct (e2 =? 0) eqn:Ez; [by apply Z.eqb_eq in Ez|].
      apply Z.eqb_neq in Ez. done. }
    revert E2. unfold e2. rewrite Hid. cbn [orb]. rewrite andb_true_r.
    destruct (e1 =? 0) eqn:Ez; [intros E; discriminate E|]. apply Z.eqb_neq in Ez. done.
  - unfold ok. cbn. symmetry. by apply Z.eqb_neq.
Qed.

(** A table every lookup in which succeeds to decode. *)
Definition usable (snapshot : MountInfoSnapshot) : Prop :=
  mapped snapshot = true /\ Forall entry_ok (entries snapshot).

Lemma captured_usable makedev identity text snapshot :
  CaptureMountInfoSnapshot makedev identity text = Ok snapshot -> usable snapshot.
Proof. intros H. by apply CaptureMountInfoSnapshot_ok in H as (? & _ & _ & ? & _). Qed.

Lemma VerifyDirectoryMount_sound sys before after source target
    target_locator applied count :
  usable after ->
  let '(recorded, failure) :=
    VerifyDirectoryMount sys before after source target target_locator applied count in
  identity_confirmed failure = ok failure
  /\ (ok failure = true ->
       exists i e, selected after target_locator true i e
         /\ decoded_mountpoint e = target_locator
         /\ a_mount_id recorded = e_mount_id e /\ e_mount_id e <> 0
         /\ i_root (identity_of e) = expected_bind_root source /\ e_device e = p_device source
         /\ e_parent_mount_id e
            = if target_locator == i_mountpoint (p_mount target) then i_parent_mount_id (p_mount target)
              else i_mount_id (p_mount target)).
Proof.
  intros [Hm Hok].
  pose proof (FindMountInfoPath_spec after target_locator true Hm Hok) as F.
  unfold VerifyDirectoryMount. cbv zeta. destruct (_ || _); [done|].
  destruct (found_identity (FindMountInfoPath after target_locator true)) as [mounted fe] eqn:Efind.
  set (e1 := if fe =? 0 then _ else fe).
  set (mismatch := (i_mount_id mounted =? 0) || _ || _ || _ || _).
  set (e2 := if (e1 =? 0) && mismatch then EXDEV else e1).
  set (parent := if target_locator == i_mountpoint (p_mount target) then _ else _).
  set (e3 := if (e2 =? 0) && _ then EXDEV else e2).
  case_bool_decide as E3; cbn [negb]; [|split; [|unfold ok; cbn; intros ?%Z.eqb_eq; done]].
  2: { unfold ok. cbn. symmetry. by apply Z.eqb_neq. }
  split; [done|]. intros _.
  assert (e2 = 0 /\ ((parent =? 0) || negb (i_parent_mount_id mounted =? parent)) = false) as [E2 Hp].
  { revert E3. unfold e3. destruct (e2 =? 0) eqn:Ez; [apply Z.eqb_eq in Ez|apply Z.eqb_neq in Ez; done].
    cbn [andb].  destruct ((parent =? 0) || _); [intros E; discriminate E|]. by split. }
  assert (e1 = 0 /\ mismatch = false) as [E1 Hmis].
  { revert E2. unfold e2. destruct (e1 =? 0) eqn:Ez; [apply Z.eqb_eq in Ez|apply Z.eqb_neq in Ez; done].
    cbn [andb]. destruct mismatch; [intros E; discriminate E|]. by split. }
  assert (fe = 0) as Efe.
  { revert E1. unfold e1. destruct (fe =? 0) eqn:Ez; [by apply Z.eqb_eq in Ez|done]. }
  unfold mismatch in Hmis. split_tests.
  apply found_identity_zero in Efind; [|done|done]. rewrite Efind in F.
  destruct F as (i & e & Hsel & ->). exists i, e. destruct Hsel as (Hi & Hc & Hall).
  assert (decoded_mountpoint e = target_locator) by (by apply bool_decide_eq_true in Hc).
  by split_and!.
Qed.

(** ** Properties *)

(** A raw mount either changes the namespace and reports success, or reports an
    error and changes nothing; it succeeds exactly when the primitive of the backend
    did, and the string backend only after both directories were seen to be the
    pinned ones. *)
Theorem apply_raw_mutation_iff_ok sys backend operation_id source target source_locator
    target_locator :
  let '(mount, failure) := ApplyDirectoryMountRaw sys backend operation_id source target
                             source_locator target_locator in
  mutation_happened failure = ok failure
  /\ a_backend mount = backend /\ a_target mount = target_locator /\ a_mount_id mount = 0
  /\ (ok failure = true ->
       0 <= p_fd source /\ 0 <= p_fd target
       /\ ApplyRaw sys backend (p_fd source) (p_fd target) source_locator target_locator = 0
       /\ backend <> kUnsupported
       /\ (backend = kLegacyString ->
            VerifyPinnedDirectory sys source_locator source = 0
            /\ VerifyPinnedDirectory sys target_locator target = 0)).
Proof. apply ApplyDirectoryMountRaw_spec. Qed.

(** [BuildExpectedBindRoot] relocates a path from its mount to the file system
    below it: the components of the result are those of the root of the mount
    followed by the components of the path beyond the mountpoint. It fails exactly when
    the path is not on the mount or the result is empty or does not fit. *)
Theorem expected_bind_root_components path mountpoint root capacity :
  match BuildExpectedBindRoot path mountpoint root capacity with
  | Ok out => IsPathOnMount path mountpoint = true /\ 0 < size out < capacity
      /\ parts path = parts mountpoint ++ drop (length (parts mountpoint)) (parts path)
      /\ parts out = parts root ++ drop (length (parts mountpoint)) (parts path)
  | Err e => IsPathOnMount path mountpoint = false /\ e = EXDEV
      \/ IsPathOnMount path mountpoint = true /\ e = ENAMETOOLONG
  | Oob => False
  end.
Proof.
  unfold BuildExpectedBindRoot.
  destruct (IsPathOnMount path mountpoint) eqn:Hon; cbn [negb]; [|by left].
  destruct (on_mount_parts path mountpoint Hon) as [Hsuf Hparts]. revert Hsuf Hparts. cbv zeta.
  generalize (if mountpoint == lit "/" then path else drop (length mountpoint) path).
  intros suffix Hsuf Hparts.
  assert (drop (length (parts mountpoint)) (parts path) = parts suffix) as ->
    by (by rewrite Hparts, drop_app_length).
  assert (forall text, parts text = parts root ++ parts suffix ->
    match print_bounded text capacity with
    | Ok out => true = true /\ 0 < size out < capacity
        /\ parts path = parts mountpoint ++ parts suffix /\ parts out = parts root ++ parts suffix
    | Err e => true = false /\ e = EXDEV \/ true = true /\ e = ENAMETOOLONG
    | Oob => False
    end) as Hprint.
  { intros text Ht. pose proof (print_bounded_spec text capacity) as P.
    destruct (print_bounded text capacity); [|by right|done]. by destruct P as [-> ?]. }
  destruct Hsuf as [->|[s ->]]; [apply Hprint; by rewrite app_nil_r|].
  case_bool_decide as Hr; [subst root; by apply Hprint|].
  apply Hprint. rewrite (bool_decide_eq_true_2 (x2f = x2f)) by done.
  cbn [Datatypes.app]. by rewrite parts_app, parts_slash.
Qed.

(** A mount that [VerifyDirectoryMount] confirms is the requested one: on the
    table captured after the mount, the topmost entry at the target has the recorded
    id, binds the expected directory of the file system of the source, and hangs below
    the mount the target was pinned on. It is confirmed exactly when no error is
    reported. *)
Theorem verify_directory_mount_sound makedev sys before identity text after source target
    target_locator applied count :
  CaptureMountInfoSnapshot makedev identity text = Ok after ->
  let '(recorded, failure) :=
    VerifyDirectoryMount sys before after source target target_locator applied count in
  identity_confirmed failure = ok failure
  /\ (ok failure = true ->
       exists i e, selected after target_locator true i e
         /\ decoded_mountpoint e = target_locator
         /\ a_mount_id recorded = e_mount_id e /\ e_mount_id e <> 0
         /\ i_root (identity_of e) = expected_bind_root source /\ e_device e = p_device source
         /\ e_parent_mount_id e
            = if target_locator == i_mountpoint (p_mount target) then i_parent_mount_id (p_mount target)
              else i_mount_id (p_mount target)).
Proof. intros H. eapply VerifyDirectoryMount_sound, captured_usable, H. Qed.

(** ** Witnesses *)

(** The last row of the sample table: a bind of "/0" of the FUSE mount at the target. *)
Definition sample_source : PinnedIdentity :=
  {| p_fd := 5; p_device := 40; p_inode := 11;
     p_mount := {| i_mount_id := 30; i_parent_mount_id := 21; i_device := 40; i_root := lit "/";
                   i_mountpoint := lit "/storage/emulated"; i_filesystem := lit "fuse" |};
     expected_bind_root := lit "/0" |}.

Definition sample_target : PinnedIdentity :=
  {| p_fd := 6; p_device := 40; p_inode := 12;
     p_mount := {| i_mount_id := 30; i_parent_mount_id := 21; i_device := 40; i_root := lit "/";
                   i_mountpoint := lit "/storage/emulated"; i_filesystem := lit "fuse" |};
     expected_bind_root := lit "/0/My Files" |}.

Definition sample_locator : bytes := lit "/storage/emulated/0/My Files".

Definition sample_sys : Sys :=
  {| sys_lstat := fun _ => inr ENOENT; sys_stat := fun _ => inr ENOENT;
     sys_move_mount := fun _ _ => 0; sys_bind_fds := fun _ _ => 0; sys_bind_paths := fun _ _ => EIO;
     sys_umount := fun _ => 0; sys_namespace := Some (4, 7) |}.

Definition sample_applied : AppliedMount :=
  {| a_backend := kStrictOpenTree; a_target := sample_locator; a_mount_id := 0; a_operation_id := 0 |}.

Lemma verify_directory_mount_sound_witness :
  exists i e, selected sample_snapshot sample_locator true i e /\ e_mount_id e <> 0
    /\ i_root (identity_of e) = lit "/0".
Proof.
  pose proof (verify_directory_mount_sound sample_makedev sample_sys sample_snapshot (4, 7)
    sample_text sample_snapshot sample_source sample_target sample_locator sample_applied 1
    sample_captures) as H.
  assert (ok (VerifyDirectoryMount sample_sys sample_snapshot sample_snapshot sample_source
    sample_target sample_locator sample_applied 1).2 = true) as Hok by (vm_compute; reflexivity).
  destruct (VerifyDirectoryMount _ _ _ _ _ _ _ _) as [recorded failure].
  destruct H as [_ H]. destruct (H Hok) as (i & e & Hs & _ & _ & Hid & Hroot & _).
  exists i, e. exact (conj Hs (conj Hid Hroot)).
Defined.
