(* ===== verification/Pin.v ===== *)
(** * Pinned directories and the probe of the mount backends (native/mount_executor.cpp)

    [PinDirectory] opens a directory without following links and records which object and which
    mount it is; [ProbeDirectoryMountBackends] tries each backend on two pinned directories and
    reports those whose mount could be verified and taken back. The descriptors and the tree are
    those of [Resolver]; the mounts are made with the calls of [MountExecutor]. *)

From S2P Require Import Prelude Path MountBackend Snapshot Resolver MountExecutor.

Local Open Scope pg_scope.

Definition ENOTDIR : Z := 20.

(** [PinnedIdentity{}] *)
Definition unpinned : PinnedIdentity :=
  {| p_fd := -1; p_device := 0; p_inode := 0; p_mount := no_identity; expected_bind_root := [] |}.

Section Pin.
Context {Node : Type} (k : Kernel Node).

Definition ClosePinnedIdentity (identity : PinnedIdentity) : os Node PinnedIdentity :=
  if 0 <=? p_fd identity then close (p_fd identity);; mret unpinned else mret unpinned.

Definition same_directory (pinned before : Stat) : bool :=
  st_is_dir pinned && (st_dev pinned =? st_dev before) && (st_ino pinned =? st_ino before).

(** From the lookup of the mount: [fd] refers to [pinned]. *)
Definition pin_mount (snapshot : MountInfoSnapshot) (absolute_path : bytes) (fd : Z) (pinned : Stat)
    : os Node (Z * PinnedIdentity) :=
  let identity := {| p_fd := fd; p_device := st_dev pinned; p_inode := st_ino pinned;
                     p_mount := no_identity; expected_bind_root := [] |} in
  let refuse e := identity ← ClosePinnedIdentity identity; mret (e, identity) in
  match FindMountInfoPath snapshot absolute_path false with
  | Oob => out_of_bounds
  | Err mount_error => refuse mount_error
  | Ok mount =>
      if negb (i_device mount =? st_dev pinned) then refuse EXDEV
      else
        match BuildExpectedBindRoot absolute_path (i_mountpoint mount) (i_root mount) PATH_MAX with
        | Oob => out_of_bounds
        | Err root_error => refuse root_error
        | Ok bind_root =>
            mret (0, {| p_fd := fd; p_device := st_dev pinned; p_inode := st_ino pinned;
                        p_mount := mount; expected_bind_root := bind_root |})
        end
  end.

(** From the result of the resolution, when the root is closed again. *)
Definition pin_resolved (snapshot : MountInfoSnapshot) (absolute_path : bytes) (before : Stat)
    (resolved : DirectoryResolveResult) : os Node (Z * PinnedIdentity) :=
  if r_fd resolved <? 0 then mret (r_error resolved, unpinned)
  else
    let fd := r_fd resolved in
    let refuse :=
      e ← get_errno;
      close fd;;
      mret (if e =? 0 then ESTALE else e, unpinned) in
    pinned ← fstat k fd;
    match pinned with
    | Some pinned =>
        if same_directory pinned before then pin_mount snapshot absolute_path fd pinned else refuse
    | None => refuse
    end.

(** The result and what is left in [identity]. *)
Definition PinDirectory (snapshot : MountInfoSnapshot) (absolute_path : bytes)
    (identity : PinnedIdentity) : os Node (Z * PinnedIdentity) :=
  if negb (starts_with (lit "/") absolute_path) then mret (EINVAL, identity)
  else
    before ← lstat k absolute_path;
    match before with
    | None => e ← get_errno; mret (e, unpinned)
    | Some before =>
        if negb (st_is_dir before) then mret (ENOTDIR, unpinned)
        else
          root ← OpenDirectoryRoot k (lit "/");
          if r_fd root <? 0 then mret (r_error root, unpinned)
          else
            resolved ← ResolveDirectoryBeneath k (r_fd root) (drop 1 absolute_path) true;
            close (r_fd root);;
            pin_resolved snapshot absolute_path before resolved
    end.
End Pin.

(** ** The probe *)

Record MountBackendProbeStep : Type := {
  before_error : Z;
  before_count : Z;
  apply_error : Z;
  stat_error : Z;
  identity_match : bool;
  after_error : Z;
  after_count : Z;
  mounted_id : Z;
  verify_error : Z;
  step_rollback_error : Z;
  remaining_error : Z;
  remaining_id : Z;
  success : bool;
}.

(** The fields the function fills. *)
Record MountBackendProbe : Type := {
  probe_capabilities : MountBackendCapabilities;
  probe_error : Z;
  open_tree : MountBackendProbeStep;
  proc_fd : MountBackendProbeStep;
  legacy_string : MountBackendProbeStep;
}.

(** What the kernel answers to one [ProbeOne]: the three captures, or their error, and the
    system calls at each step. *)
Record ProbeCalls : Type := {
  pc_before : MountInfoSnapshot + Z;
  pc_apply : Sys;
  pc_after : MountInfoSnapshot + Z;
  pc_verify : Sys;
  pc_stat : Sys;
  pc_validate : Sys;
  pc_unmount : Sys;
  pc_remaining : MountInfoSnapshot + Z;
  pc_confirm : Sys;
}.

(** [snprintf] into a [CanonicalLocator]. *)
Definition locator (path : bytes) : bytes := take (Z.to_nat (PATH_MAX - 1)) path.

Definition no_step : MountBackendProbeStep :=
  {| before_error := 0; before_count := 0; apply_error := 0; stat_error := 0;
     identity_match := false; after_error := 0; after_count := 0; mounted_id := 0;
     verify_error := 0; step_rollback_error := 0; remaining_error := 0; remaining_id := 0;
     success := false |}.

(** The verification: the mount with the id that was found, and the error. *)
Definition probe_verify (c : ProbeCalls) (before : MountInfoSnapshot) (source target : PinnedIdentity)
    (target_path : bytes) (applied : AppliedMount) : AppliedMount * Z :=
  match pc_after c with
  | inl after =>
      let '(applied, verify) :=
        VerifyDirectoryMount (pc_verify c) before after source target (locator target_path) applied 1 in
      (applied,
       if (error verify =? 0) && negb (size (entries after) =? size (entries before) + 1)
       then EBADMSG else error verify)
  | inr e => (applied, e)
  end.

Definition probe_rollback (c : ProbeCalls) (applied : AppliedMount) : Z :=
  match pc_after c with
  | inl after =>
      let rollback := ValidateRollbackDirectoryMount (pc_validate c) applied after in
      if ok rollback then error (UnmountValidatedDirectoryMount (pc_unmount c) applied)
      else error rollback
  | inr e => e
  end.

(** The error and the id of what is mounted at the target afterwards. *)
Definition probe_remaining (c : ProbeCalls) (target_path : bytes) (applied : AppliedMount) : Z * Z :=
  match pc_remaining c with
  | inr e => (e, 0)
  | inl snapshot =>
      let '(remaining, find_error) := found_identity (FindMountInfoPath snapshot target_path true) in
      let verify := VerifyRollbackDirectoryMount (pc_confirm c) applied snapshot in
      (if ok verify then find_error else error verify,
       if find_error =? 0 then i_mount_id remaining else 0)
  end.

Definition count_of (capture : MountInfoSnapshot + Z) : Z :=
  match capture with inl s => size (entries s) | inr _ => 0 end.

Definition error_of (capture : MountInfoSnapshot + Z) : Z :=
  match capture with inl _ => 0 | inr e => e end.

(** The telemetry; [success] is the result. *)
Definition ProbeOne (backend : MountBackendKind) (source target : PinnedIdentity)
    (source_path target_path : bytes) (c : ProbeCalls) : MountBackendProbeStep :=
  match pc_before c with
  | inr e =>
      {| before_error := e; before_count := 0; apply_error := 0; stat_error := 0;
         identity_match := false; after_error := 0; after_count := 0; mounted_id := 0;
         verify_error := 0; step_rollback_error := 0; remaining_error := 0; remaining_id := 0;
         success := false |}
  | inl before =>
      let apply := ApplyRaw (pc_apply c) backend (p_fd source) (p_fd target) source_path target_path in
      if negb (apply =? 0) then
        {| before_error := 0; before_count := size (entries before); apply_error := apply;
           stat_error := 0; identity_match := false; after_error := 0; after_count := 0;
           mounted_id := 0; verify_error := 0; step_rollback_error := 0; remaining_error := 0;
           remaining_id := 0; success := false |}
      else
        let applied := {| a_backend := backend; a_target := locator target_path; a_mount_id := 0;
                          a_operation_id := 0 |} in
        let '(applied, verify) := probe_verify c before source target target_path applied in
        let '(stat_errno, same) :=
          match sys_stat (pc_stat c) target_path with
          | inl value => (0, SameObject value source)
          | inr e => (e, false)
          end in
        let rollback := probe_rollback c applied in
        let '(remaining, id) :=
          if rollback =? 0 then probe_remaining c target_path applied else (0, 0) in
        {| before_error := 0; before_count := size (entries before); apply_error := 0;
           stat_error := stat_errno; identity_match := same; after_error := error_of (pc_after c);
           after_count := count_of (pc_after c); mounted_id := a_mount_id applied;
           verify_error := verify; step_rollback_error := rollback; remaining_error := remaining;
           remaining_id := id;
           success := (verify =? 0) && same && (rollback =? 0)
                      && ((remaining =? 0) || (remaining =? ENOENT))
                      && negb (id =? a_mount_id applied) |}
  end.

Definition flag_if (step : MountBackendProbeStep) (bit : Z) : Z := if success step then bit else 0.

(** The capabilities of a probe that pinned both directories. *)
Definition probed (open_tree proc_fd legacy_string : MountBackendProbeStep) : MountBackendProbe :=
  {| probe_capabilities :=
       {| primitives :=
            Z.lor (Z.lor (Z.lor kCapabilityComponentFdWalk
                                (flag_if open_tree kCapabilityOpenTreeMoveMount))
                         (flag_if proc_fd kCapabilityProcFdMount))
                  (flag_if legacy_string kCapabilityStringBindMount);
          strict_actions := Z.lor kMountActionRedirect kMountActionDenyAnchor;
          legacy_actions := kMountActionRedirect |};
     probe_error := 0; open_tree := open_tree; proc_fd := proc_fd;
     legacy_string := legacy_string |}.

Definition not_probed (e : Z) : MountBackendProbe :=
  {| probe_capabilities := {| primitives := 0; strict_actions := 0; legacy_actions := 0 |};
     probe_error := e; open_tree := no_step; proc_fd := no_step; legacy_string := no_step |}.

(** [capture] is the snapshot the directories are pinned on, [calls] answers each backend. *)
Definition ProbeDirectoryMountBackends {Node : Type} (k : Kernel Node)
    (capture : MountInfoSnapshot + Z) (calls : MountBackendKind -> ProbeCalls)
    (source_path target_path : bytes) : os Node MountBackendProbe :=
  match capture with
  | inr e => mret (not_probed e)
  | inl snapshot =>
      '(e, source) ← PinDirectory k snapshot source_path unpinned;
      '(e, target) ← if e =? 0 then PinDirectory k snapshot target_path unpinned
                     else mret (e, unpinned);
      if negb (e =? 0) then
        ClosePinnedIdentity source;;
        ClosePinnedIdentity target;;
        mret (not_probed e)
      else
        let probe b := ProbeOne b source target source_path target_path (calls b) in
        let result := probed (probe kStrictOpenTree) (probe kStrictProcFd) (probe kLegacyString) in
        ClosePinnedIdentity source;;
        ClosePinnedIdentity target;;
        mret result
  end.

(** ** What a pin says *)

Section Pinned.
Context {Node : Type} (k : Kernel Node) (fs_entry : nat -> Node -> bytes -> option Node).
Context `{!KernelOf k fs_entry}.

(** [identity] holds the only new descriptor. It refers to the directory that the components of
    the path lead to from "/", which is the object [lstat] saw first; its mount is the one the
    table gives for the path, on the same device, and the expected root of a bind mount is the
    root of that mount followed by what the path has beyond its mountpoint. *)
Definition pinned_at (snapshot : MountInfoSnapshot) (path : bytes) (s s' : Process Node)
    (identity : PinnedIdentity) : Prop :=
  0 <= p_fd identity /\ open_fds s !! p_fd identity = None
  /\ (exists root node t seen t' pinned,
        open_fds s' = <[p_fd identity := node]> (open_fds s)
        /\ k_open k t (lit "/") = inl root
        /\ descends fs_entry (now s) (now s') root (components (drop 1 path)) node
        /\ k_lstat k (now s) path = inl seen /\ k_fstat k t' node = inl pinned
        /\ (now s <= t <= t')%nat /\ (t' < now s')%nat
        /\ st_is_dir seen = true /\ st_is_dir pinned = true
        /\ st_dev seen = p_device identity /\ st_dev pinned = p_device identity
        /\ st_ino seen = p_inode identity /\ st_ino pinned = p_inode identity)
  /\ exists i e, selected snapshot path false i e /\ p_mount identity = identity_of e
       /\ e_device e = p_device identity
       /\ parts (expected_bind_root identity)
          = parts (i_root (identity_of e)) ++ drop (length (parts (decoded_mountpoint e))) (parts path).

(** A pin that fails leaves the descriptors as they were. *)
Definition unpinned_at (s s' : Process Node) (e : Z) (identity : PinnedIdentity) : Prop :=
  e <> 0 /\ identity = unpinned /\ open_fds s' = open_fds s.

Lemma close_fresh table number (node : Node) s :
  table !! number = None -> open_fds s = <[number := node]> table ->
  exists s', close number s = Ok (tt, s') /\ open_fds s' = table /\ now s' = S (now s)
    /\ errno s' = errno s.
Proof.
  intros Hf Ho. eexists. split; [done|]. cbn. split; [|done]. rewrite Ho. by apply delete_insert_id.
Qed.

Lemma pin_mount_refuse table number (node : Node) identity (e : Z) s :
  0 <= number -> table !! number = None -> open_fds s = <[number := node]> table ->
  p_fd identity = number ->
  exists s', (identity ← ClosePinnedIdentity identity; mret (e, identity)) s = Ok ((e, unpinned), s')
    /\ open_fds s' = table /\ (now s <= now s')%nat.
Proof.
  intros Hn Hf Ho <-. unfold ClosePinnedIdentity. destruct (Z.leb_spec 0 (p_fd identity)); [|lia].
  destruct (close_fresh _ _ _ _ Hf Ho) as (s' & E & ? & ? & _).
  exists s'. unfold mbind, os_bind. rewrite E. cbn. split; [done|]. split; [done|lia].
Qed.

Lemma pin_mount_spec snapshot path number (node : Node) pinned table s :
  usable snapshot -> 0 <= number -> table !! number = None ->
  open_fds s = <[number := node]> table ->
  exists e identity s', pin_mount snapshot path number pinned s = Ok ((e, identity), s')
    /\ (now s <= now s')%nat
    /\ (e <> 0 /\ identity = unpinned /\ open_fds s' = table
        \/ e = 0 /\ s' = s /\ p_fd identity = number /\ p_device identity = st_dev pinned
           /\ p_inode identity = st_ino pinned
           /\ exists i m, selected snapshot path false i m /\ p_mount identity = identity_of m
              /\ e_device m = st_dev pinned
              /\ parts (expected_bind_root identity)
                 = parts (i_root (identity_of m))
                   ++ drop (length (parts (decoded_mountpoint m))) (parts path)).
Proof.
  intros [Hm Hok] Hn Hf Ho. unfold pin_mount. cbv zeta.
  set (pin := {| p_fd := number; p_device := st_dev pinned; p_inode := st_ino pinned;
                 p_mount := no_identity; expected_bind_root := [] |}).
  pose proof (fun e => pin_mount_refuse table number node pin e s Hn Hf Ho eq_refl) as Refuse.
  pose proof (FindMountInfoPath_spec snapshot path false Hm Hok) as F.
  destruct (FindMountInfoPath snapshot path false) as [mount|e|]; [|..|done].
  2: { destruct (Refuse e) as (s' & -> & ? & ?). eexists _, _, _. split; [done|].
       split; [done|]. left. split; [|done]. by destruct F as [[-> _]|[-> _]]. }
  destruct F as (i & m & Hsel & ->).
  destruct (Z.eqb_spec (i_device (identity_of m)) (st_dev pinned)) as [Hd|Hd]; cbn [negb].
  2: { destruct (Refuse EXDEV) as (s' & -> & ? & ?). eexists _, _, _. split; [done|].
       split; [done|]. by left. }
  pose proof (expected_bind_root_components path (i_mountpoint (identity_of m))
    (i_root (identity_of m)) PATH_MAX) as B.
  destruct (BuildExpectedBindRoot _ _ _ _) as [bind_root|e|]; [|..|done].
  2: { destruct (Refuse e) as (s' & -> & ? & ?). eexists _, _, _. split; [done|].
       split; [done|]. left. split; [|done]. by destruct B as [[_ ->]|[_ ->]]. }
  eexists _, _, _. split; [done|]. split; [done|]. right. do 5 (split; [done|]).
  exists i, m. destruct B as (_ & _ & _ & B). done.
Qed.

Lemma pin_resolved_refuse table number (node : Node) s :
  table !! number = None -> open_fds s = <[number := node]> table ->
  exists e s', (e ← get_errno; close number;; mret (if e =? 0 then ESTALE else e, unpinned)) s
               = Ok ((e, unpinned), s')
    /\ e <> 0 /\ open_fds s' = table /\ (now s <= now s')%nat.
Proof.
  intros Hf Ho. destruct (close_fresh _ _ _ _ Hf Ho) as (s' & E & ? & ? & _).
  exists (if errno s =? 0 then ESTALE else errno s), s'. split.
  { rewrite (os_bind_run get_errno _ s (errno s) s) by done. by rewrite (os_bind_run _ _ _ _ _ E). }
  split; [by destruct (Z.eqb_spec (errno s) 0)|]. split; [done|lia].
Qed.

Lemma pin_resolved_spec snapshot path before resolved (node : Node) table s :
  usable snapshot -> 0 <= r_fd resolved -> table !! r_fd resolved = None ->
  open_fds s = <[r_fd resolved := node]> table ->
  exists e pin s', pin_resolved k snapshot path before resolved s = Ok ((e, pin), s')
    /\ (now s < now s')%nat
    /\ (e <> 0 /\ pin = unpinned /\ open_fds s' = table
        \/ e = 0 /\ p_fd pin = r_fd resolved /\ open_fds s' = open_fds s
           /\ (exists pinned, k_fstat k (now s) node = inl pinned
                /\ same_directory pinned before = true
                /\ st_dev pinned = p_device pin /\ st_ino pinned = p_inode pin)
           /\ exists i m, selected snapshot path false i m /\ p_mount pin = identity_of m
              /\ e_device m = p_device pin
              /\ parts (expected_bind_root pin)
                 = parts (i_root (identity_of m))
                   ++ drop (length (parts (decoded_mountpoint m))) (parts path)).
Proof.
  intros Hu Hpos Hf Ho. unfold pin_resolved. cbv zeta.
  destruct (Z.ltb_spec (r_fd resolved) 0); [lia|].
  destruct (fstat_spec k fs_entry (r_fd resolved) s node) as (pinned & s1 & E & Hn & Ho1 & Hp).
  { by rewrite Ho, lookup_insert_eq. }
  rewrite (os_bind_run _ _ _ _ _ E). rewrite Ho in Ho1.
  destruct (pin_resolved_refuse _ _ _ _ Hf Ho1) as (e & s2 & Er & He & Ho2 & Hn2).
  destruct pinned as [pinned|].
  2: { eexists _, _, _. split; [done|]. split; [lia|]. by left. }
  destruct (same_directory pinned before) eqn:Hs.
  2: { eexists _, _, _. split; [done|]. split; [lia|]. by left. }
  destruct (pin_mount_spec snapshot path _ _ pinned _ _ Hu Hpos Hf Ho1)
    as (e' & pin & s3 & Em & Hn3 & Hcases).
  exists e', pin, s3. split; [done|]. split; [lia|].
  destruct Hcases as [?|(-> & -> & Hfd & Hdev & Hino & i & m & Hm)]; [by left|]. right.
  rewrite Hdev, Ho1, Ho. split_and!; eauto 10.
Qed.

(** The root is opened, the rest of the path resolved beneath it, and the root closed. *)
Lemma root_resolved path (rn : Node) root table s :
  0 <= r_fd root -> table !! r_fd root = None -> open_fds s = <[r_fd root := rn]> table ->
  exists resolved s', (resolved ← ResolveDirectoryBeneath k (r_fd root) path true;
                       close (r_fd root);; mret resolved) s = Ok (resolved, s')
    /\ (now s < now s')%nat
    /\ (r_fd resolved = -1 /\ r_error resolved <> 0 /\ open_fds s' = table
        \/ exists node, 0 <= r_fd resolved /\ table !! r_fd resolved = None
           /\ open_fds s' = <[r_fd resolved := node]> table
           /\ descends fs_entry (now s) (now s') rn (components path) node).
Proof.
  intros Hr Hf Ho.
  destruct (resolve_directory_confined k fs_entry (r_fd root) path true s) as (res & s1 & E & Hle & H).
  rewrite (os_bind_run _ _ _ _ _ E). eexists res, _. split; [done|]. cbn [now open_fds].
  split; [lia|].
  destruct H as [(Hfd & He & Ho1)|(_ & rn' & Hrn & _ & H)].
  { left. rewrite Ho1, Ho. split_and!; try done. by apply delete_insert_id. }
  rewrite Ho, lookup_insert_eq in Hrn. injection Hrn as <-.
  destruct H as [(Hfd & He & Ho1)|(node & Hpos & He & _ & Hfree & Ho1 & D)].
  { left. rewrite Ho1, Ho. split_and!; try done. by apply delete_insert_id. }
  right. exists node. rewrite Ho in Hfree. apply lookup_insert_None in Hfree as [Hfree Hne].
  split; [done|]. split; [done|]. split.
  - rewrite Ho1, Ho, delete_insert_ne by done. by rewrite delete_insert_id.
  - eapply descends_mono; [| |done]; lia.
Qed.

Lemma os_bind_through {A B} (m : os Node A) (c : os Node unit) (f : A -> os Node B) s :
  (x ← m; c;; f x) s = ((x ← m; c;; mret x) ≫= f) s.
Proof.
  unfold mbind, os_bind. destruct (m s) as [[x s1]| |]; cbn; [|done|done].
  by destruct (c s1) as [[] | |].
Qed.

Lemma PinDirectory_spec snapshot path identity s :
  usable snapshot ->
  exists e pin s', PinDirectory k snapshot path identity s = Ok ((e, pin), s')
    /\ (now s <= now s')%nat
    /\ (e <> 0 /\ (pin = unpinned \/ pin = identity) /\ open_fds s' = open_fds s
        \/ e = 0 /\ pinned_at snapshot path s s' pin).
Proof.
  intros Hu. unfold PinDirectory. destruct (starts_with (lit "/") path) eqn:Hp; cbn [negb].
  2: { eexists _, _, _. split; [done|]. split; [done|]. left. eauto. }
  destruct (lstat_spec k fs_entry path s) as (before & s1 & E1 & Hn1 & Ho1 & Hb).
  rewrite (os_bind_run _ _ _ _ _ E1). destruct before as [before|].
  2: { eexists _, _, _. split; [done|]. split; [cbn; lia|]. left. eauto. }
  destruct (st_is_dir before) eqn:Hdir; cbn [negb].
  2: { eexists _, _, _. split; [done|]. split; [lia|]. left. eauto. }
  destruct (OpenDirectoryRoot_spec k fs_entry (lit "/") s1 eq_refl) as (root & s2 & E2 & Hn2 & Hc).
  rewrite (os_bind_run _ _ _ _ _ E2).
  destruct Hc as [(Hr & He & Ho2)|(rn & Hopen & Hr & Hrf & Ho2)].
  { rewrite Hr. eexists _, _, _. split; [done|]. split; [lia|]. left. rewrite Ho2, Ho1. eauto. }
  destruct (Z.ltb_spec (r_fd root) 0); [lia|]. rewrite os_bind_through.
  destruct (root_resolved (drop 1 path) rn root _ s2 Hr Hrf Ho2) as (res & s3 & E3 & Hn3 & H3).
  rewrite (os_bind_run _ _ _ _ _ E3). rewrite Ho1 in *.
  destruct H3 as [(Hres & He & Ho3)|(node & Hpos & Hfree & Ho3 & D)].
  { unfold pin_resolved. rewrite Hres. eexists _, _, _. split; [done|]. split; [lia|]. left. eauto. }
  destruct (pin_resolved_spec snapshot path before res node _ s3 Hu Hpos Hfree Ho3)
    as (e & pin & s4 & E4 & Hn4 & H4).
  exists e, pin, s4. split; [done|]. split; [lia|].
  destruct H4 as [(? & -> & ?)|(-> & Hfd & Ho4 & (pinned & Hp4 & Hsame & Hdev & Hino) & Hm)]; [by left; eauto|].
  right. split; [done|]. unfold same_directory in Hsame. split_tests.
  split; [by rewrite Hfd|]. split; [by rewrite Hfd|]. split; [|done].
  exists rn, node, (now s1), before, (now s3), pinned. rewrite Hfd, Ho4.
  split; [done|]. split; [done|]. split; [eapply descends_mono; [| |done]; lia|].
  split_and!; try done; lia.
Qed.
End Pinned.

(** ** What a successful probe says *)

(** Captures are well-formed tables, and fail with an error. *)
Definition capture_ok (capture : MountInfoSnapshot + Z) : Prop :=
  match capture with inl s => usable s | inr e => e <> 0 end.

Definition calls_ok (c : ProbeCalls) : Prop :=
  capture_ok (pc_before c) /\ capture_ok (pc_after c) /\ capture_ok (pc_remaining c).

(** The backend mounted the source on the target: exactly one mount more, at the target, of the
    directory that was pinned; and it could be unmounted, for at the target there is no mount with
    that id any more. (The last table may be missing, when reading it failed with [ENOENT].) *)
Definition backend_works (b : MountBackendKind) (source target : PinnedIdentity)
    (source_path target_path : bytes) (c : ProbeCalls) : Prop :=
  exists before after i e,
    pc_before c = inl before /\ pc_after c = inl after
    /\ ApplyRaw (pc_apply c) b (p_fd source) (p_fd target) source_path target_path = 0
    /\ size (entries after) = size (entries before) + 1
    /\ selected after target_path true i e /\ e_mount_id e <> 0
    /\ i_root (identity_of e) = expected_bind_root source /\ e_device e = p_device source
    /\ (exists value, sys_stat (pc_stat c) target_path = inl value /\ SameObject value source = true)
    /\ sys_umount (pc_unmount c) target_path = 0
    /\ match pc_remaining c with
       | inl remaining => forall i' e', selected remaining target_path true i' e' -> e_mount_id e' <> e_mount_id e
       | inr error => error = ENOENT
       end.

Lemma locator_fits path : size path < PATH_MAX -> locator path = path.
Proof. unfold locator, size. intros H. apply take_ge. unfold PATH_MAX in *. lia. Qed.

Lemma probe_verify_sound c before after source target target_path applied recorded :
  size target_path < PATH_MAX -> pc_after c = inl after -> usable after ->
  probe_verify c before source target target_path applied = (recorded, 0) ->
  a_target recorded = a_target applied /\ size (entries after) = size (entries before) + 1
  /\ exists i e, selected after target_path true i e /\ a_mount_id recorded = e_mount_id e
     /\ e_mount_id e <> 0 /\ i_root (identity_of e) = expected_bind_root source
     /\ e_device e = p_device source.
Proof.
  intros Hs Ha Hu H. unfold probe_verify in H. rewrite Ha, locator_fits in H by done.
  pose proof (VerifyDirectoryMount_sound (pc_verify c) before after source target target_path applied 1 Hu) as V.
  pose proof (VerifyDirectoryMount_confirmed (pc_verify c) before after source target target_path applied 1) as W.
  destruct (VerifyDirectoryMount _ _ _ _ _ _ _ _) as [r failure].
  destruct (Z.eqb_spec (error failure) 0) as [He|He]; cbn [andb] in H.
  2: { by injection H as _ ?. }
  destruct (Z.eqb_spec (size (entries after)) (size (entries before) + 1)); cbn [negb] in H; [|done].
  injection H as <- _. destruct W as (_ & _ & Ht & _). split; [done|]. split; [done|].
  destruct V as [_ V]. destruct V as (i & e' & Hsel & _ & Hid & Hne & Hroot & Hdev & _).
  { unfold ok. by apply Z.eqb_eq. }
  by exists i, e'.
Qed.

Lemma probe_rollback_unmounts c after applied :
  pc_after c = inl after -> probe_rollback c applied = 0 -> sys_umount (pc_unmount c) (a_target applied) = 0.
Proof.
  intros Ha H. unfold probe_rollback in H. rewrite Ha in H. unfold ok in H.
  destruct (Z.eqb_spec (error (ValidateRollbackDirectoryMount (pc_validate c) applied after)) 0);
    [|done].
  unfold UnmountValidatedDirectoryMount in H.
  destruct (decide (sys_umount (pc_unmount c) (a_target applied) = 0)) as [|Hne]; [done|].
  rewrite bool_decide_eq_false_2 in H by done. done.
Qed.

Lemma probe_remaining_gone c target_path applied error id :
  capture_ok (pc_remaining c) -> head target_path = Some x2f ->
  probe_remaining c target_path applied = (error, id) ->
  error = 0 \/ error = ENOENT -> id <> a_mount_id applied ->
  match pc_remaining c with
  | inl remaining => forall i e, selected remaining target_path true i e -> e_mount_id e <> a_mount_id applied
  | inr error => error = ENOENT
  end.
Proof.
  intros Hok Hhead H He Hid. unfold probe_remaining in H. destruct (pc_remaining c) as [s|e].
  2: { injection H as <- <-. by destruct He. }
  destruct Hok as [Hm Hok]. pose proof (FindMountInfoPath_spec s target_path true Hm Hok) as F.
  intros i e Hsel.
  destruct (FindMountInfoPath s target_path true) as [found|err|]; [| |done].
  - destruct F as (j & e' & Hsel' & ->). cbn [found_identity] in H. injection H as _ <-.
    cbn in Hid. enough (e = e') by (subst; done).
    destruct Hsel as (Hi & Hc & Hall), Hsel' as (Hj & Hc' & Hall').
    pose proof (Hall _ _ Hj Hc'). pose proof (Hall' _ _ Hi Hc). assert (i = j) by lia. by simplify_eq.
  - destruct Hsel as (Hi & Hc & _). destruct F as [[_ F]|[_ F]]; [done|].
    apply list_elem_of_lookup_2 in Hi. by rewrite (F e Hi) in Hc.
Qed.

Lemma ProbeOne_works b source target source_path target_path c :
  size target_path < PATH_MAX -> head target_path = Some x2f -> calls_ok c ->
  success (ProbeOne b source target source_path target_path c) = true ->
  backend_works b source target source_path target_path c.
Proof.
  intros Hs Hhead (_ & Hafter & Hrem) H. unfold ProbeOne in H.
  destruct (pc_before c) as [before|] eqn:Eb; [|done].
  destruct (Z.eqb_spec (ApplyRaw (pc_apply c) b (p_fd source) (p_fd target) source_path target_path) 0)
    as [Eapply|]; cbn [negb] in H; [|done].
  destruct (probe_verify _ _ _ _ _ _) as [applied verify] eqn:Ev.
  destruct (sys_stat (pc_stat c) target_path) as [value|] eqn:Estat;
    destruct (if probe_rollback c applied =? 0 then _ else _) as [remaining id] eqn:Em;
    cbn [success] in H; [|by rewrite andb_false_r in H].
  apply andb_true_iff in H as [H Hid%negb_true_iff%Z.eqb_neq].
  apply andb_true_iff in H as [H Hgone]. apply andb_true_iff in H as [H Er%Z.eqb_eq].
  apply andb_true_iff in H as [->%Z.eqb_eq Hsame]. rewrite Er in Em. cbn [Z.eqb] in Em.
  destruct (pc_after c) as [after|e] eqn:Ea.
  2: { unfold probe_rollback in Er. by rewrite Ea in Er. }
  destruct (probe_verify_sound c before after source target target_path _ applied Hs Ea Hafter Ev)
    as (Ht & Hsize & i & m & Hsel & Hrec & Hne & Hroot & Hdev).
  cbn [a_target] in Ht. rewrite locator_fits in Ht by done.
  pose proof (probe_rollback_unmounts c after applied Ea Er) as Hun.
  exists before, after, i, m. rewrite Ht in Hun. split_and!; try done; [by exists value|].
  rewrite <- Hrec. eapply probe_remaining_gone; try done. apply orb_true_iff in Hgone. lia.
Qed.

Lemma selected_succeeded o p l required allow backend :
  SelectMountBackend required (probe_capabilities (probed o p l)) allow = (backend, kReasonNone) ->
  backend = kStrictOpenTree /\ success o = true \/ backend = kStrictProcFd /\ success p = true
  \/ backend = kLegacyString /\ success l = true.
Proof.
  intros H. apply select_mount_backend_sound in H as (Hr & Ho & Hp & Hl).
  unfold probed, flag_if in *. cbn [probe_capabilities primitives] in *.
  destruct backend.
  - by destruct (proj1 Hr eq_refl).
  - left. split; [done|]. destruct (proj1 Ho eq_refl) as [_ Hbit].
    destruct (success o), (success p), (success l); first [done | by destruct Hbit].
  - right; left. split; [done|]. destruct (proj1 Hp eq_refl) as (_ & Hbit & _).
    destruct (success o), (success p), (success l); first [done | by destruct Hbit].
  - right; right. split; [done|]. destruct (proj1 Hl eq_refl) as (_ & Hbit & _).
    destruct (success o), (success p), (success l); first [done | by destruct Hbit].
Qed.

Lemma not_probed_unsupported e required allow backend :
  SelectMountBackend required (probe_capabilities (not_probed e)) allow = (backend, kReasonNone) -> False.
Proof.
  intros H. apply select_mount_backend_sound in H as (Hr & Ho & Hp & Hl).
  destruct backend.
  - by destruct (proj1 Hr eq_refl).
  - destruct (proj1 Ho eq_refl) as [_ Hbit]. by destruct Hbit.
  - destruct (proj1 Hp eq_refl) as (_ & Hbit & _). by destruct Hbit.
  - destruct (proj1 Hl eq_refl) as (_ & Hbit & _). by destruct Hbit.
Qed.

Section Probe.
Context {Node : Type} (k : Kernel Node) (fs_entry : nat -> Node -> bytes -> option Node).
Context `{!KernelOf k fs_entry}.

Lemma close_unpinned (s : Process Node) : ClosePinnedIdentity unpinned s = Ok (unpinned, s).
Proof. done. Qed.

Lemma close_pin snapshot path s s' identity (s1 : Process Node) :
  pinned_at k fs_entry snapshot path s s' identity -> open_fds s1 = open_fds s' ->
  exists s2, ClosePinnedIdentity identity s1 = Ok (unpinned, s2) /\ open_fds s2 = open_fds s.
Proof.
  intros (Hpos & Hfree & (root & node & ? & ? & ? & ? & Ho & _) & _) H1. unfold ClosePinnedIdentity.
  destruct (Z.leb_spec 0 (p_fd identity)); [|lia]. eexists. split; [done|]. cbn.
  rewrite H1, Ho. by apply delete_insert_id.
Qed.

Lemma pinned_absolute snapshot path s s' identity :
  usable snapshot -> pinned_at k fs_entry snapshot path s s' identity -> head path = Some x2f.
Proof.
  intros [Hm Hok] (_ & _ & _ & i & e & (_ & Hc & _) & _). unfold covers, IsPathOnMount in Hc.
  destruct path as [|c path]; [done|]. cbn. f_equal. by destruct c.
Qed.

(** Both pins are closed, in the order of the code. *)
Lemma close_pins {A} snapshot source_path target_path s s1 s2 source target (r : A) :
  pinned_at k fs_entry snapshot source_path s s1 source ->
  pinned_at k fs_entry snapshot target_path s1 s2 target ->
  exists s3, (ClosePinnedIdentity source;; ClosePinnedIdentity target;; mret r) s2 = Ok (r, s3)
    /\ open_fds s3 = open_fds s.
Proof.
  intros (Hp1 & Hf1 & (? & node1 & ? & ? & ? & ? & Ho1 & _) & _)
    (Hp2 & Hf2 & (? & node2 & ? & ? & ? & ? & Ho2 & _) & _).
  unfold ClosePinnedIdentity. destruct (Z.leb_spec 0 (p_fd source)); [|lia].
  destruct (Z.leb_spec 0 (p_fd target)); [|lia]. eexists. split; [done|]. cbn.
  rewrite Ho1 in Hf2. apply lookup_insert_None in Hf2 as [Hf2 Hne].
  rewrite Ho2, Ho1, delete_insert_ne by done. rewrite (delete_insert_id (open_fds s)) by done.
  by apply delete_insert_id.
Qed.

Lemma ProbeDirectoryMountBackends_spec capture calls source_path target_path s :
  capture_ok capture -> (forall b, calls_ok (calls b)) -> size target_path < PATH_MAX ->
  exists probe s',
    ProbeDirectoryMountBackends k capture calls source_path target_path s = Ok (probe, s')
    /\ open_fds s' = open_fds s
    /\ forall required allow backend,
         SelectMountBackend required (probe_capabilities probe) allow = (backend, kReasonNone) ->
         exists snapshot source target s1 s2, capture = inl snapshot
           /\ pinned_at k fs_entry snapshot source_path s s1 source
           /\ pinned_at k fs_entry snapshot target_path s1 s2 target
           /\ backend_works backend source target source_path target_path (calls backend).
Proof.
  intros Hc Hcalls Hs. unfold ProbeDirectoryMountBackends.
  assert (forall e (P : MountBackendKind -> Prop) required allow backend,
    SelectMountBackend required (probe_capabilities (not_probed e)) allow = (backend, kReasonNone) ->
    P backend) as Hnot by (intros; exfalso; by eapply not_probed_unsupported).
  destruct capture as [snapshot|e].
  2: { eexists _, _. split; [done|]. split; [done|]. apply (Hnot e). }
  destruct (PinDirectory_spec k fs_entry snapshot source_path unpinned s Hc)
    as (e1 & source & s1 & E1 & _ & H1). rewrite (os_bind_run _ _ _ _ _ E1).
  destruct H1 as [(He1 & Hsource & Ho1)|(-> & Hpin1)].
  { assert (source = unpinned) as -> by tauto. destruct (Z.eqb_spec e1 0); [done|].
    rewrite (os_bind_run _ _ s1 (e1, unpinned) s1) by done.
    destruct (Z.eqb_spec e1 0); [done|]. cbn [negb].
    eexists _, _. split; [done|]. split; [done|]. apply (Hnot e1). }
  cbn [Z.eqb].
  destruct (PinDirectory_spec k fs_entry snapshot target_path unpinned s1 Hc)
    as (e2 & target & s2 & E2 & _ & H2). rewrite (os_bind_run _ _ _ _ _ E2).
  destruct H2 as [(He2 & Htarget & Ho2)|(-> & Hpin2)].
  { assert (target = unpinned) as -> by tauto. destruct (Z.eqb_spec e2 0); [done|]. cbn [negb].
    destruct (close_pin _ _ _ _ _ s2 Hpin1 Ho2) as (s3 & E3 & Ho3).
    exists (not_probed e2), s3. split; [|split; [done|apply (Hnot e2)]].
    by rewrite (os_bind_run _ _ _ _ _ E3). }
  cbn [Z.eqb negb]. cbv zeta.
  destruct (close_pins snapshot source_path target_path s s1 s2 source target
    (probed (ProbeOne kStrictOpenTree source target source_path target_path (calls kStrictOpenTree))
            (ProbeOne kStrictProcFd source target source_path target_path (calls kStrictProcFd))
            (ProbeOne kLegacyString source target source_path target_path (calls kLegacyString)))
    Hpin1 Hpin2) as (s3 & E3 & Ho3).
  eexists _, s3. split; [exact E3|]. split; [done|]. intros required allow backend Hsel.
  exists snapshot, source, target, s1, s2. split; [done|]. split; [done|]. split; [done|].
  assert (head target_path = Some x2f) as Hhead by (by (eapply pinned_absolute; [exact Hc|done])).
  apply selected_succeeded in Hsel as [[-> ?]|[[-> ?]|[-> ?]]]; by apply ProbeOne_works.
Qed.

(** ** Properties *)

(** C18. [PinDirectory] returns 0 exactly when it leaves a pin, and a pin is sound: the descriptor
    it holds, the only new one, refers to the directory reached from "/" through real
    subdirectories named by the path; that directory is the object that was at the path when
    the call began; the mount recorded is the one the table gives for the path, on its device,
    and the expected root is the one a bind of the directory will show. On an error nothing
    stays open. *)
Theorem pin_directory_sound makedev identity text snapshot path before s :
  CaptureMountInfoSnapshot makedev identity text = Ok snapshot ->
  exists e pin s', PinDirectory k snapshot path before s = Ok ((e, pin), s')
    /\ (e <> 0 /\ (pin = unpinned \/ pin = before) /\ open_fds s' = open_fds s
        \/ e = 0 /\ pinned_at k fs_entry snapshot path s s' pin).
Proof.
  intros H. destruct (PinDirectory_spec k fs_entry snapshot path before s) as (e & pin & s' & ? & _ & ?);
    [by eapply captured_usable|]. by exists e, pin, s'.
Qed.

(** C21. A backend that [SelectMountBackend] chooses from a probe is one that worked: on two
    directories pinned in this table it made exactly one mount, of the pinned source at the
    target, and took it back. A probe always returns, and closes every descriptor it opened. *)
Theorem probed_backend_works capture calls source_path target_path s :
  capture_ok capture -> (forall b, calls_ok (calls b)) -> size target_path < PATH_MAX ->
  exists probe s',
    ProbeDirectoryMountBackends k capture calls source_path target_path s = Ok (probe, s')
    /\ open_fds s' = open_fds s
    /\ forall required allow backend,
         SelectMountBackend required (probe_capabilities probe) allow = (backend, kReasonNone) ->
         exists snapshot source target s1 s2, capture = inl snapshot
           /\ pinned_at k fs_entry snapshot source_path s s1 source
           /\ pinned_at k fs_entry snapshot target_path s1 s2 target
           /\ backend_works backend source target source_path target_path (calls backend).
Proof. apply ProbeDirectoryMountBackends_spec. Qed.
End Probe.

(** ** Witnesses *)

Definition sample_path : bytes := lit "/storage/emulated/0/Download".

Lemma pin_directory_sound_witness :
  exists pin s', PinDirectory sample_kernel sample_snapshot sample_path unpinned sample_process
                 = Ok ((0, pin), s')
    /\ pinned_at sample_kernel sample_entry sample_snapshot sample_path sample_process s' pin.
Proof.
  destruct (pin_directory_sound sample_kernel sample_entry sample_makedev (4, 7) sample_text
    sample_snapshot sample_path unpinned sample_process sample_captures)
    as (e & pin & s' & E & H).
  assert (match PinDirectory sample_kernel sample_snapshot sample_path unpinned sample_process with
          | Ok ((e, _), _) => e = 0 | _ => False end) as Hrun by (vm_compute; reflexivity).
  rewrite E in Hrun. destruct H as [[He _]|[_ H]]; [destruct (He Hrun)|].
  exists pin, s'. rewrite <- Hrun at 1. exact (conj E H).
Defined.

(** The two directories before the bind, and the calls of a device where [move_mount] works. *)
Definition sample_before : MountInfoSnapshot :=
  {| mapped := true; entries := take 2 (entries sample_snapshot); namespace_id := (4, 7) |}.

Definition sample_probe_sys : Sys :=
  {| sys_lstat := fun _ => inr ENOENT;
     sys_stat := fun _ => inl (sample_stat [lit "storage"; lit "emulated"; lit "0"]);
     sys_move_mount := fun _ _ => 0; sys_bind_fds := fun _ _ => EPERM;
     sys_bind_paths := fun _ _ => EPERM; sys_umount := fun _ => 0;
     sys_namespace := Some (4, 7) |}.

Definition sample_calls (b : MountBackendKind) : ProbeCalls :=
  {| pc_before := inl sample_before; pc_apply := sample_probe_sys; pc_after := inl sample_snapshot;
     pc_verify := sample_probe_sys; pc_stat := sample_probe_sys; pc_validate := sample_probe_sys;
     pc_unmount := sample_probe_sys; pc_remaining := inl sample_before;
     pc_confirm := sample_probe_sys |}.

Lemma sample_usable : usable sample_snapshot.
Proof. eapply captured_usable, sample_captures. Qed.

Lemma sample_before_usable : usable sample_before.
Proof. split; [done|]. apply Forall_take, sample_usable. Qed.

Lemma probed_backend_works_witness :
  exists source target, backend_works kStrictOpenTree source target (lit "/storage/emulated/0")
                          sample_locator (sample_calls kStrictOpenTree).
Proof.
  destruct (probed_backend_works sample_kernel sample_entry (inl sample_before) sample_calls
    (lit "/storage/emulated/0") sample_locator sample_process sample_before_usable
    (fun b => conj sample_before_usable (conj sample_usable sample_before_usable)) eq_refl)
    as (probe & s' & E & _ & H).
  assert (match ProbeDirectoryMountBackends sample_kernel (inl sample_before) sample_calls
                  (lit "/storage/emulated/0") sample_locator sample_process with
          | Ok (probe, _) => SelectMountBackend kMountActionRedirect (probe_capabilities probe) false
                             = (kStrictOpenTree, kReasonNone)
          | _ => False end) as Hrun by (vm_compute; reflexivity).
  rewrite E in Hrun. destruct (H _ _ _ Hrun) as (? & source & target & ? & ? & _ & _ & _ & W).
  exists source, target. exact W.
Defined.
