(* ===== verification/Probe.v ===== *)
(** * The probes of the daemon (daemon/src/main.cpp)

    [ProbeProcFdMount], and the probe of a directory that [main] makes, over the system calls of
    [Resolver]. What the calls that mount answer is a [MountProbe]: they leave the descriptors as
    they are. *)

From S2P Require Import Prelude Console MountBackend Resolver.

Local Open Scope pg_scope.

Definition PATH_MAX : Z := 4096.

(** The errors of the calls, zero for success: of the first two, of each bind mount with its
    removal in the order of the probes, and of [MoveMountDirectoryFds] with its removal. *)
Record MountProbe : Type := {
  unshare_error : Z;
  private_error : Z;
  string_string_errors : Z * Z;
  fd_string_errors : Z * Z;
  string_fd_errors : Z * Z;
  fd_fd_errors : Z * Z;
  move_mount_errors : Z * Z;
}.

(** A mount that is made and removed: the line that is printed, and whether both worked. *)
Definition probe_bind (label : bytes) (errors : Z * Z) : Console * bool :=
  let '(mount_error, umount_error) := errors in
  let unmount_error := if mount_error =? 0 then umount_error else 0 in
  (prints (line (lit "proc fd mount case=" ++ label ++ lit " mount_errno=" ++ print_int mount_error
                 ++ lit " unmount_errno=" ++ print_int unmount_error)),
   (mount_error =? 0) && (unmount_error =? 0)).

Section Probe.
Context {Node : Type} (k : Kernel Node).

Definition close_opened (r : DirectoryResolveResult) : os Node unit :=
  if 0 <=? r_fd r then close (r_fd r) else mret tt.

(** What comes after both directories are open, up to the closing of their descriptors. *)
Definition probe_mounts (source_absolute target_absolute : bytes) (source target : DirectoryResolveResult)
    (a : MountProbe) : Console * bool :=
  if (unshare_error a != 0) || (private_error a != 0) then
    (complains (line (lit "mount probe namespace isolation failed: errno="
       ++ print_int (if unshare_error a =? 0 then private_error a else unshare_error a))), false)
  else if (PATH_MAX <=? size source_absolute) || (PATH_MAX <=? size target_absolute) then
    (complains (line (lit "mount probe path construction failed")), false)
  else
    let '(c1, string_string) := probe_bind (lit "string_string") (string_string_errors a) in
    let '(c2, _) := probe_bind (lit "fd_string") (fd_string_errors a) in
    let '(c3, _) := probe_bind (lit "string_fd") (string_fd_errors a) in
    let '(c4, fd_fd) := probe_bind (lit "fd_fd") (fd_fd_errors a) in
    let '(c5, open_tree_move_mount) := probe_bind (lit "open_tree_move_mount") (move_mount_errors a) in
    let capabilities :=
      Z.lor (Z.lor (Z.lor (r_capability source) (r_capability target))
                   (if fd_fd then kCapabilityProcFdMount else 0))
            (if open_tree_move_mount then kCapabilityOpenTreeMoveMount else 0) in
    let shown := c1 ⊕ c2 ⊕ c3 ⊕ c4 ⊕ c5 in
    if negb string_string || (negb fd_fd && negb open_tree_move_mount) then
      (shown ⊕ complains (line (lit "mount probe compatibility incomplete: capability=" ++ to_string capabilities)),
       false)
    else (shown ⊕ prints (line (lit "proc fd mount ready: capability=" ++ to_string capabilities)), true).

Definition ProbeProcFdMount (source_root_path source_path target_root_path target_path : bytes)
    (force_component_walk : bool) (a : MountProbe) : os Node (Console * bool) :=
  source_root ← OpenDirectoryRoot k source_root_path;
  target_root ← OpenDirectoryRoot k target_root_path;
  if (r_fd source_root <? 0) || (r_fd target_root <? 0) then
    close_opened source_root;;
    close_opened target_root;;
    mret (complains (line (lit "mount probe root open failed: source_errno=" ++ print_int (r_error source_root)
            ++ lit " target_errno=" ++ print_int (r_error target_root))), false)
  else
    source ← ResolveDirectoryBeneath k (r_fd source_root) source_path force_component_walk;
    target ← ResolveDirectoryBeneath k (r_fd target_root) target_path force_component_walk;
    close (r_fd source_root);;
    close (r_fd target_root);;
    if (r_fd source <? 0) || (r_fd target <? 0) then
      close_opened source;;
      close_opened target;;
      mret (complains (line (lit "mount probe resolve failed: source_errno=" ++ print_int (r_error source)
              ++ lit " target_errno=" ++ print_int (r_error target))), false)
    else
      let result := probe_mounts (source_root_path ++ x2f :: source_path) (target_root_path ++ x2f :: target_path)
                      source target a in
      close (r_fd source);;
      close (r_fd target);;
      mret result.

(** The probe of a directory in [main]. *)
Definition ProbeDirectory (root_path path : bytes) (force_component_walk : bool) : os Node (Console * bool) :=
  root ← OpenDirectoryRoot k root_path;
  if r_fd root <? 0 then
    mret (complains (line (lit "directory root open failed: errno=" ++ print_int (r_error root))), false)
  else
    found ← ResolveDirectoryBeneath k (r_fd root) path force_component_walk;
    close (r_fd root);;
    if r_fd found <? 0 then
      mret (complains (line (lit "directory resolve failed: errno=" ++ print_int (r_error found))), false)
    else
      close (r_fd found);;
      mret (prints (line (lit "directory resolve ready: capability=" ++ to_string (r_capability found)
              ++ lit " fd=" ++ print_int (r_fd found))), true).
End Probe.

(** ** Lemmas *)

Section ProbeLemmas.
Context {Node : Type} (k : Kernel Node) (fs_entry : nat -> Node -> bytes -> option Node).
Context `{!KernelOf k fs_entry}.
Implicit Types (r : DirectoryResolveResult) (s : Process Node) (table : gmap Z Node).

(** The descriptors without the one of a result. *)
Definition forget r table : gmap Z Node := if 0 <=? r_fd r then delete (r_fd r) table else table.

Lemma forget_comm r1 r2 table : forget r1 (forget r2 table) = forget r2 (forget r1 table).
Proof. unfold forget. destruct (0 <=? r_fd r1), (0 <=? r_fd r2); try done. apply delete_delete. Qed.

(** A call that opens a directory: it returns, and its descriptor is all that is new. *)
Definition opens (m : os Node DirectoryResolveResult) : Prop :=
  forall s, exists r s', m s = Ok (r, s') /\ forget r (open_fds s') = open_fds s.

Lemma forget_new r table node :
  0 <= r_fd r -> table !! r_fd r = None -> forget r (<[r_fd r := node]> table) = table.
Proof. intros H Hf. unfold forget. rewrite (proj2 (Z.leb_le _ _) H). by apply delete_insert_id. Qed.

Lemma forget_failed r table : r_fd r = -1 -> forget r table = table.
Proof. unfold forget. by intros ->. Qed.

Lemma OpenDirectoryRoot_opens path : opens (OpenDirectoryRoot k path).
Proof.
  intros s. destruct (starts_with (lit "/") path) eqn:Ep.
  - destruct (OpenDirectoryRoot_spec k fs_entry path s Ep)
      as (r & s' & E & _ & [(Hr & _ & Ho)|(root & _ & Hpos & Hfree & Ho)]);
      exists r, s'; (split; [done|]); rewrite Ho; [by apply forget_failed|by apply forget_new].
  - unfold OpenDirectoryRoot. rewrite Ep. by eexists _, s.
Qed.

Lemma ResolveDirectoryBeneath_opens root path force : opens (ResolveDirectoryBeneath k root path force).
Proof.
  intros s. destruct (resolve_directory_confined k fs_entry root path force s) as (r & s' & E & _ & H).
  exists r, s'. split; [done|].
  destruct H as [(Hr & _ & Ho)|(_ & d & _ & _ & [(Hr & _ & Ho)|(node & ? & _ & _ & ? & Ho & _)])]; rewrite Ho;
    first [by apply forget_failed | by apply forget_new].
Qed.

(** A computation that returns with the descriptors [after] of those before. *)
Definition leaves {A} (m : os Node A) s (after : gmap Z Node) : Prop :=
  exists x s', m s = Ok (x, s') /\ open_fds s' = after.

Lemma leaves_opens {A} m (f : DirectoryResolveResult -> os Node A) s after :
  opens m ->
  (forall r s', forget r (open_fds s') = open_fds s -> leaves (f r) s' after) ->
  leaves (m ≫= f) s after.
Proof.
  intros Hm Hf. destruct (Hm s) as (r & s' & E & Ho). unfold leaves. rewrite (os_bind_run _ _ _ _ _ E). by apply Hf.
Qed.

Lemma leaves_close_opened {A} r (f : os Node A) s after :
  (forall s', open_fds s' = forget r (open_fds s) -> leaves f s' after) ->
  leaves (close_opened r;; f) s after.
Proof.
  intros Hf. unfold close_opened. destruct (0 <=? r_fd r) eqn:E; unfold leaves.
  - eapply Hf. cbn. unfold forget. by rewrite E.
  - apply Hf. unfold forget. by rewrite E.
Qed.

Lemma leaves_close {A} r (f : os Node A) s after :
  0 <= r_fd r -> (forall s', open_fds s' = forget r (open_fds s) -> leaves f s' after) ->
  leaves (close (r_fd r);; f) s after.
Proof. intros H. pose proof (leaves_close_opened r f s after) as Hc. unfold close_opened in Hc. by rewrite (proj2 (Z.leb_le _ _) H) in Hc. Qed.

Lemma leaves_ret {A} (x : A) s : leaves (mret x) s (open_fds s).
Proof. by exists x, s. Qed.
End ProbeLemmas.

(** Follows a computation that opens and closes directories. *)
Ltac leaves_step :=
  lazymatch goal with
  | |- leaves (OpenDirectoryRoot _ _ ≫= _) _ _ => eapply leaves_opens; [by eapply OpenDirectoryRoot_opens|intros]
  | |- leaves (ResolveDirectoryBeneath _ _ _ _ ≫= _) _ _ =>
      eapply leaves_opens; [by eapply ResolveDirectoryBeneath_opens|intros]
  | |- leaves (if ?b then _ else _) _ _ => destruct b eqn:?; split_tests
  | |- leaves (close_opened _ ≫= _) _ _ => apply leaves_close_opened; intros
  | |- leaves (close _ ≫= _) _ _ => apply leaves_close; [lia|intros]
  end.

(** ** Property *)

Section ProbeProperties.
Context {Node : Type} (k : Kernel Node) (fs_entry : nat -> Node -> bytes -> option Node).
Context `{!KernelOf k fs_entry}.

Lemma forget_negative r (table : gmap Z Node) : r_fd r < 0 -> forget r table = table.
Proof. intros H. unfold forget. destruct (Z.leb_spec 0 (r_fd r)); [lia|done]. Qed.

Lemma forget_four a b c d (table : gmap Z Node) :
  forget a (forget b (forget c (forget d table))) = forget d (forget c (forget b (forget a table))).
Proof.
  rewrite (forget_comm a b), (forget_comm a c), (forget_comm b c), (forget_comm a d), (forget_comm b d).
  by rewrite (forget_comm c d).
Qed.

(** The probes return and close what they opened, whatever the kernel answers. *)
Theorem probes_leak_nothing source_root source target_root target force a (s : Process Node) :
  leaves (ProbeProcFdMount k source_root source target_root target force a) s (open_fds s)
  /\ leaves (ProbeDirectory k source_root source force) s (open_fds s).
Proof.
  split; [unfold ProbeProcFdMount|unfold ProbeDirectory]; repeat leaves_step;
    eexists _, _; (split; [reflexivity|]);
    repeat match goal with H : open_fds _ = _ |- _ => rewrite H; clear H end.
  all: repeat match goal with H : forget _ (open_fds _) = _ |- _ => rewrite <- H; clear H end.
  all: first [apply forget_comm | apply forget_four | by rewrite !forget_negative by lia | by rewrite forget_comm, (forget_negative r0) by lia | done].
Qed.
End ProbeProperties.

(** The probe of the mounts says ready exactly when the namespace is its own, the paths fit, a mount
    by the two paths was made and removed, and one by the descriptors of both ends as well. *)
Theorem probe_ready_iff source_absolute target_absolute source target a :
  (probe_mounts source_absolute target_absolute source target a).2 = true <->
  unshare_error a = 0 /\ private_error a = 0 /\ size source_absolute < PATH_MAX /\ size target_absolute < PATH_MAX
  /\ string_string_errors a = (0, 0) /\ (fd_fd_errors a = (0, 0) \/ move_mount_errors a = (0, 0)).
Proof.
  assert (forall label e, (probe_bind label e).2 = true <-> e = (0, 0)) as Hbind.
  { intros label [m u]. cbn. destruct (Z.eqb_spec m 0), (Z.eqb_spec u 0); cbn; split; congruence. }
  unfold probe_mounts.
  destruct (decide (unshare_error a = 0)); [rewrite (bool_decide_eq_true_2 (unshare_error a = 0)) by done|
    rewrite (bool_decide_eq_false_2 (unshare_error a = 0)) by done; cbn; naive_solver].
  destruct (decide (private_error a = 0)); [rewrite (bool_decide_eq_true_2 (private_error a = 0)) by done|
    rewrite (bool_decide_eq_false_2 (private_error a = 0)) by done; cbn; naive_solver].
  cbn [negb orb]. destruct (Z.leb_spec PATH_MAX (size source_absolute)); cbn [orb snd]; [split; [done|lia]|].
  destruct (Z.leb_spec PATH_MAX (size target_absolute)); cbn [snd]; [split; [done|lia]|].
  pose proof (Hbind (lit "string_string") (string_string_errors a)) as H1.
  pose proof (Hbind (lit "fd_fd") (fd_fd_errors a)) as H2.
  pose proof (Hbind (lit "open_tree_move_mount") (move_mount_errors a)) as H3.
  destruct (probe_bind (lit "string_string") _) as [c1 [|]], (probe_bind (lit "fd_string") _) as [c2 b2],
    (probe_bind (lit "string_fd") _) as [c3 b3], (probe_bind (lit "fd_fd") _) as [c4 [|]],
    (probe_bind (lit "open_tree_move_mount") _) as [c5 [|]]; cbn in *; naive_solver.
Qed.

(** ** Examples *)

Definition all_work : MountProbe :=
  {| unshare_error := 0; private_error := 0; string_string_errors := (0, 0); fd_string_errors := (0, 0);
     string_fd_errors := (0, 0); fd_fd_errors := (0, 0); move_mount_errors := (0, 0) |}.

(** Both directories are found, one mount after the other works, and the descriptors are as before. *)
Example probe_succeeds :
  match ProbeProcFdMount sample_kernel (lit "/") (lit "storage") (lit "/") (lit "storage/emulated/0") false
          all_work sample_process with
  | Ok ((_, ready), s) => ready = true /\ open_fds s = open_fds sample_process
  | _ => False
  end.
Proof. vm_compute. done. Qed.

(** A path that is not absolute is no root. *)
Example relative_root_refused :
  match ProbeDirectory sample_kernel (lit "storage") (lit "emulated") true sample_process with
  | Ok ((c, found), _) => found = false /\ c = complains (line (lit "directory root open failed: errno=22"))
  | _ => False
  end.
Proof. vm_compute. done. Qed.
