(* ===== verification/MountTransaction.v ===== *)
(** * The mount transaction of one process

    The part of [ApplyProcessPlan] (zygisk/src/module_entry.cpp) after the mutation
    lease is acquired: the mounts with their fallback between backends, the
    verification against one snapshot, the rollback, and the report of a failure to the
    shared state. The answers of the system calls and of the shared state are the fields
    of [Environment]; the captures are the snapshots they produced, or their error. *)

From S2P Require Import Prelude Policy ProcessPlan MountBackend Snapshot MountExecutor.

Local Open Scope pg_scope.

Definition RequiredMountActions (actions : list Z) : Z :=
  let fix go actions required :=
    match actions with
    | [] => required
    | action :: rest =>
        if action == kDenyAction then go rest (Z.lor required kMountActionDenyAnchor)
        else if action == kRedirectAction then go rest (Z.lor required kMountActionRedirect)
        else 0
    end in
  go actions 0.

(** An entry of /proc: its number when it has one, the identity of its mount
    namespace when it can be read, and whether it runs with the uid of the target. *)
Record ProcEntry : Type := {
  pe_value : option Z;
  pe_namespace : option (Z * Z);
  pe_uid_matches : bool;
}.

Definition IsDisposableAppNamespace (proc : list ProcEntry) (self target_pid : Z)
    (namespace : Z * Z) : bool :=
  let fix go entries target_found :=
    match entries with
    | [] => target_found
    | entry :: rest =>
        match pe_value entry with
        | Some value =>
            if (value <=? 0) || (value =? self) then go rest target_found
            else if bool_decide (pe_namespace entry = Some namespace) then
              if negb (value =? target_pid) || negb (pe_uid_matches entry) then false
              else go rest true
            else go rest target_found
        | None => go rest target_found
        end
    end in
  go proc false.

(** The arrays of the workspace; the mapping is zeroed, and so is what was not filled. *)
Record Workspace : Type := {
  w_sources : list PinnedIdentity;
  w_source_locators : list bytes;
  w_targets : list PinnedIdentity;
  w_target_locators : list bytes;
  w_source_indexes : list nat;
}.

Definition no_pin : PinnedIdentity :=
  {| p_fd := 0; p_device := 0; p_inode := 0; p_mount := no_identity; expected_bind_root := [] |}.

Definition pinned_source_count (w : Workspace) : nat := length (w_sources w).
Definition source_index (w : Workspace) (rule : nat) : nat := nth rule (w_source_indexes w) 0%nat.
Definition source_of (w : Workspace) (rule : nat) : PinnedIdentity :=
  nth (source_index w rule) (w_sources w) no_pin.
Definition target_of (w : Workspace) (rule : nat) : PinnedIdentity := nth rule (w_targets w) no_pin.
Definition target_locator_of (w : Workspace) (rule : nat) : bytes :=
  nth rule (w_target_locators w) [].
Definition source_locator_of (w : Workspace) (rule : nat) : bytes :=
  nth (source_index w rule) (w_source_locators w) [].

Record Environment : Type := {
  (** The kernel at each use: an attempt to mount a rule with a backend, then the
      steps of the verification and of the rollback of each entry of the journal. *)
  e_apply : nat -> MountBackendKind -> Sys;
  e_verify : nat -> Sys;
  e_validate : nat -> Sys;
  e_unmount : nat -> Sys;
  e_confirm : nat -> Sys;
  e_workspace : Workspace;
  e_count : nat;
  e_required : Z;
  e_allow_legacy : bool;
  (** [IsDisposableAppNamespace], when it is asked. *)
  e_disposable : bool;
  (** [IsCancelRequested] before each rule, and after the last. *)
  e_cancelled : nat -> bool;
  (** [mount("/storage", MS_REC | MS_PRIVATE)], when propagation needs it. *)
  e_propagation : option Z;
  e_before : MountInfoSnapshot;
  e_after_mounts : MountInfoSnapshot + Z;
  e_rollback_before : MountInfoSnapshot + Z;
  e_rollback_after : MountInfoSnapshot + Z;
  (** Whether the state still is [kApplying] when [kComplete] is published. *)
  e_publishes : bool;
  (** The state a failure finds, and whether it still is the state when the report is
      published. *)
  e_current : MountTransactionState;
  e_current_stays : bool;
}.

Definition Journal : Type := MutationJournal.t AppliedMount.

Definition no_mount : AppliedMount :=
  {| a_backend := kUnsupported; a_target := []; a_mount_id := 0; a_operation_id := 0 |}.

Definition kJournalCapacity : nat := Z.to_nat kMaxMountRules.

Definition new_journal : Journal := MutationJournal.empty_journal kJournalCapacity no_mount.

Section Transaction.
Context (env : Environment).

(** The fields of [MountPerfResult] the status record reads. *)
Record Perf : Type := {
  perf_backend : MountBackendKind;
  perf_reason : MountBackendReason;
}.

(** The inner [while (true)]: the result of the last attempt, the backend it used and
    what was noted about it. *)
Fixpoint attempt (fuel : nat) (backend : MountBackendKind) (locked : bool) (rule : nat)
    (perf : Perf) : option (AppliedMount * MountError * MountBackendKind * Perf) :=
  match fuel with
  | O => None
  | S fuel =>
      let w := e_workspace env in
      let '(mount, failure) :=
        ApplyDirectoryMountRaw (e_apply env rule backend) backend (Z.of_nat rule) (source_of w rule)
          (target_of w rule) (source_locator_of w rule) (target_locator_of w rule) in
      if ok failure || mutation_happened failure || locked || negb (bool_decide (rule = 0%nat))
      then Some (mount, failure, backend, perf)
      else
        let legacy_namespace_allowed :=
          if (backend == kStrictProcFd) && e_allow_legacy env
             && (e_required env == kMountActionRedirect)
          then e_disposable env else false in
        let next := NextMountBackend backend (e_required env) (e_allow_legacy env)
                      legacy_namespace_allowed in
        if next == kUnsupported then
          Some (mount, failure, backend,
                {| perf_backend := next;
                   perf_reason :=
                     if (e_required env == kMountActionRedirect) && negb (e_allow_legacy env)
                     then kLegacyNotAuthorized else kCapabilityMissing |})
        else attempt fuel next locked rule
               {| perf_backend := next; perf_reason := perf_reason perf |}
  end.

Record Progress : Type := {
  backend : MountBackendKind;
  backend_locked : bool;
  journal : Journal;
  run_error : Z;
  untracked_mutation : bool;
  perf : Perf;
  failure_stage : MountOperationStage;
}.

(** One iteration of the loop over the rules, entered with no error. *)
Definition apply_rule (s : Progress) (rule : nat) : option Progress :=
  let stop e :=
    Some {| backend := backend s; backend_locked := backend_locked s; journal := journal s;
            run_error := e; untracked_mutation := untracked_mutation s; perf := perf s;
            failure_stage := failure_stage s |} in
  if e_cancelled env rule then stop ECANCELED
  else if bool_decide (pinned_source_count (e_workspace env)
                       <= source_index (e_workspace env) rule)%nat then stop EINVAL
  else
    '(mount, failure, backend, perf) ← attempt 4 (backend s) (backend_locked s) rule (perf s);
    let applied := ok failure && mutation_happened failure in
    let '(pushed, journal) :=
      if mutation_happened failure
      then MutationJournal.Push kJournalCapacity mount (journal s) else (true, journal s) in
    let e := if pushed then 0 else EOVERFLOW in
    Some {| backend := backend; backend_locked := backend_locked s || applied; journal := journal;
            run_error := if e =? 0 then error failure else e;
            untracked_mutation := untracked_mutation s || negb pushed;
            perf := if applied then {| perf_backend := backend; perf_reason := kReasonNone |}
                    else perf;
            failure_stage := stage failure |}.

Fixpoint apply_rules (s : Progress) (rules : list nat) : option Progress :=
  match rules with
  | [] => Some s
  | rule :: rest =>
      if run_error s =? 0 then s' ← apply_rule s rule; apply_rules s' rest else Some s
  end.

Definition set_error (s : Progress) (e : Z) (untracked : bool) : Progress :=
  {| backend := backend s; backend_locked := backend_locked s; journal := journal s;
     run_error := e; untracked_mutation := untracked; perf := perf s;
     failure_stage := failure_stage s |}.

(** From the propagation change to the end of the loop. *)
Definition apply_mounts (s : Progress) : option Progress :=
  let s := match e_propagation env with
           | Some e => if e =? 0 then s else set_error s e (untracked_mutation s)
           | None => s
           end in
  s ← apply_rules s (seq 0 (e_count env));
  Some (if (run_error s =? 0) && e_cancelled env (e_count env)
        then set_error s ECANCELED (untracked_mutation s) else s).

(** One iteration of the verification of the journal against the snapshot. *)
Definition verify_recorded (after : MountInfoSnapshot) (expected : Z) (s : Progress)
    (index : nat) : Progress :=
  let w := e_workspace env in
  let overflow := set_error s (if run_error s =? 0 then EOVERFLOW else run_error s) true in
  match MutationJournal.At index (journal s) with
  | None => overflow
  | Some recorded =>
      if Z.of_nat (e_count env) <=? a_operation_id recorded then overflow
      else
        let rule := Z.to_nat (a_operation_id recorded) in
        if bool_decide (pinned_source_count w <= source_index w rule)%nat then overflow
        else
          let '(verified, verify) :=
            VerifyDirectoryMount (e_verify env index) (e_before env) after (source_of w rule)
              (target_of w rule) (target_locator_of w rule) recorded expected in
          let '(updated, journal) :=
            if identity_confirmed verify
            then MutationJournal.UpdateAt index verified (journal s) else (true, journal s) in
          let verify_error := if updated then error verify else EOVERFLOW in
          let verify_stage := if updated then stage verify else kVerify in
          {| backend := backend s; backend_locked := backend_locked s; journal := journal;
             run_error := if (run_error s =? 0) && negb (verify_error =? 0) then verify_error
                          else run_error s;
             untracked_mutation := untracked_mutation s || negb updated; perf := perf s;
             failure_stage := if verify_error =? 0 then failure_stage s else verify_stage |}
  end.

Definition journal_size (s : Progress) : nat := MutationJournal.size_of (journal s).

(** The post-mount snapshot, and whether it is ready. *)
Definition verify_mounts (s : Progress) : Progress * option MountInfoSnapshot :=
  if NeedsPostMountSnapshot (backend s) (negb (MutationJournal.is_empty (journal s)))
       (run_error s =? 0)
  then
    match e_after_mounts env with
    | inl after =>
        (fold_left (verify_recorded after (Z.of_nat (journal_size s)))
           (seq 0 (journal_size s)) s, Some after)
    | inr e =>
        ({| backend := backend s; backend_locked := backend_locked s; journal := journal s;
            run_error := if run_error s =? 0 then e else run_error s;
            untracked_mutation := untracked_mutation s; perf := perf s;
            failure_stage := kVerify |}, None)
    end
  else (s, None).

(** *** Rollback *)

(** What a rollback leaves: whether a step failed, the last error of one, and the
    mounts that were detached, in order. *)
Record Rollback : Type := {
  rollback_failed : bool;
  rollback_error : Z;
  detached : list AppliedMount;
}.

Definition record_rollback_failure (r : Rollback) (failure : MountError) : Rollback :=
  if ok failure then r
  else {| rollback_failed := true; rollback_error := error failure; detached := detached r |}.

(** A loop over the journal, from the last entry: it stops at the first failure. *)
Fixpoint rollback_loop (step : nat -> AppliedMount -> MountError) (detaches : bool) (j : Journal)
    (index : nat) (r : Rollback) : Rollback :=
  match index with
  | O => r
  | S index =>
      if rollback_failed r then r
      else
        match MutationJournal.At index j with
        | None => {| rollback_failed := true; rollback_error := EOVERFLOW; detached := detached r |}
        | Some applied =>
            let r := record_rollback_failure r (step index applied) in
            let r := if detaches && negb (rollback_failed r)
                     then {| rollback_failed := rollback_failed r;
                             rollback_error := rollback_error r;
                             detached := detached r ++ [applied] |}
                     else r in
            rollback_loop step detaches j index r
        end
  end.

Definition unread : MountInfoSnapshot :=
  {| mapped := false; entries := []; namespace_id := (0, 0) |}.

(** The snapshot the identities are checked on, and the error of taking it. *)
Definition rollback_snapshot (empty : bool) (ready : option MountInfoSnapshot)
    : MountInfoSnapshot * Z :=
  match ready with
  | Some after => (after, 0)
  | None =>
      if empty then (unread, 0)
      else match e_rollback_before env with
           | inl s => (s, 0)
           | inr e => (unread, e)
           end
  end.

Definition roll_back (j : Journal) (ready : option MountInfoSnapshot) (e : Z) : Rollback * Journal :=
  let size := MutationJournal.size_of j in
  let empty := MutationJournal.is_empty j in
  let '(identity_snapshot, snapshot_error) := rollback_snapshot empty ready in
  let start := {| rollback_failed := negb (snapshot_error =? 0);
                  rollback_error := if snapshot_error =? 0 then e else snapshot_error;
                  detached := [] |} in
  let validated := rollback_loop
    (fun index applied =>
       ValidateRollbackDirectoryMount (e_validate env index) applied identity_snapshot)
    false j size start in
  let unmounted := rollback_loop
    (fun index => UnmountValidatedDirectoryMount (e_unmount env index)) true j size validated in
  let '(after, unmounted) :=
    if negb (rollback_failed unmounted) && negb empty then
      match e_rollback_after env with
      | inl s => (s, unmounted)
      | inr e => (unread, {| rollback_failed := true; rollback_error := e;
                             detached := detached unmounted |})
      end
    else (unread, unmounted) in
  let verified := rollback_loop
    (fun index applied => VerifyRollbackDirectoryMount (e_confirm env index) applied after)
    false j size unmounted in
  (verified, if rollback_failed verified then j else MutationJournal.Clear j).

(** *** The whole transaction *)

(** A publication of a terminal state: from which state, and whether it was the state and the
    transition is allowed. *)
Record Publication : Type := {
  pub_from : MountTransactionState;
  pub_to : MountTransactionState;
  pub_landed : bool;
}.

(** [PublishSharedResult], when a failure is reported. *)
Definition publication (from to : MountTransactionState) : Publication :=
  {| pub_from := from; pub_to := to;
     pub_landed := IsMountTransitionAllowed from to && (from == e_current env) && e_current_stays env |}.

(** The end of a transaction with an error: what is published, and whether the members of the
    namespace are terminated. *)
Definition report_failure (propagation_changed rollback_failed untracked : bool) : option Publication * bool :=
  let current := e_current env in
  if propagation_changed || rollback_failed || untracked
  then (Some (publication current kNamespaceTainted), true)
  else if current == kCancelRequested then (Some (publication kCancelRequested kRollbackComplete), false)
  else if current == kApplying then (Some (publication kApplying kRollbackComplete), false)
  else (None, false).

Record Outcome : Type := {
  o_error : Z;
  o_complete : bool;
  o_journal : Journal;
  o_backend : MountBackendKind;
  o_perf : Perf;
  o_stage : MountOperationStage;
  o_rollback : Rollback;
  o_untracked : bool;
  o_propagation_changed : bool;
  o_report : option Publication;
  o_terminates : bool;
}.

Definition transact (s : Progress) : option Outcome :=
  s ← apply_mounts s;
  let propagation_changed := bool_decide (e_propagation env = Some 0) in
  let fast := (run_error s =? 0)
              && negb (NeedsPostMountSnapshot (backend s)
                         (negb (MutationJournal.is_empty (journal s))) true) in
  (** the strict backends publish before any verification *)
  let published := fast && e_publishes env in
  let s := if fast && negb (e_publishes env)
           then set_error s ECANCELED (untracked_mutation s) else s in
  let '(s, ready) := verify_mounts s in
  let publishes := (run_error s =? 0) && negb published in
  let complete := published || (publishes && e_publishes env) in
  let e := if publishes && negb (e_publishes env) then ECANCELED else run_error s in
  let '(rollback, journal) :=
    if e =? 0 then ({| rollback_failed := false; rollback_error := 0; detached := [] |}, journal s)
    else roll_back (journal s) ready e in
  let error := if e =? 0 then 0 else rollback_error rollback in
  let '(report, terminates) :=
    if error =? 0 then (None, false)
    else report_failure propagation_changed (rollback_failed rollback) (untracked_mutation s) in
  Some {| o_error := error;
          o_complete := complete; o_journal := journal; o_backend := backend s; o_perf := perf s;
          o_stage := failure_stage s; o_rollback := rollback;
          o_untracked := untracked_mutation s; o_propagation_changed := propagation_changed;
          o_report := report; o_terminates := terminates |}.
End Transaction.

(** ** Lemmas: one rule *)

Definition contents : Journal -> list AppliedMount := MutationJournal.contents.
Definition journal_ok : Journal -> Prop := MutationJournal.journal_ok kJournalCapacity.
Definition operations (l : list AppliedMount) : list Z := a_operation_id <$> l.

Definition backend_rank (b : MountBackendKind) : nat :=
  match b with kStrictOpenTree => 3 | kStrictProcFd => 2 | kLegacyString => 1 | kUnsupported => 0 end.

Lemma NextMountBackend_rank b required allow allowed :
  NextMountBackend b required allow allowed <> kUnsupported ->
  (backend_rank (NextMountBackend b required allow allowed) < backend_rank b)%nat.
Proof.
  unfold NextMountBackend.
  destruct b, allow, allowed, (SupportsAllActions _ _); vm_compute; intros ?; first [lia | congruence].
Qed.

Section OneRule.
Context (env : Environment).

(** When the string backend may be used by a transaction that did not start with it. *)
Definition legacy_allowed : Prop :=
  e_allow_legacy env = true /\ e_disposable env = true /\ e_required env = kMountActionRedirect.

Definition raw_apply (rule : nat) (b : MountBackendKind) : AppliedMount * MountError :=
  let w := e_workspace env in
  ApplyDirectoryMountRaw (e_apply env rule b) b (Z.of_nat rule) (source_of w rule)
    (target_of w rule) (source_locator_of w rule) (target_locator_of w rule).

Lemma attempt_spec fuel b locked rule perf :
  (backend_rank b < fuel)%nat ->
  exists b' perf', attempt env fuel b locked rule perf
    = Some ((raw_apply rule b').1, (raw_apply rule b').2, b', perf')
  /\ (b' = b \/ locked = false /\ rule = 0%nat /\ (b' = kLegacyString -> legacy_allowed)).
Proof.
  revert b perf. induction fuel as [|fuel IH]; intros b perf Hf; [lia|].
  cbn [attempt]. fold (raw_apply rule b). destruct (raw_apply rule b) as [mount failure] eqn:Er.
  destruct (_ || _) eqn:Estop; [exists b, perf; rewrite Er; eauto|].
  apply orb_false_iff in Estop as [[[_ _]%orb_false_iff Hl]%orb_false_iff Hr].
  apply negb_false_iff, bool_decide_eq_true in Hr.
  set (allowed := if _ && _ && _ then e_disposable env else false).
  case_bool_decide as En; [exists b; rewrite Er; eauto|].
  apply NextMountBackend_rank in En as Hrank.
  match goal with |- context [attempt env fuel ?n _ _ ?p] => destruct (IH n p) as (b' & perf' & -> & Hb) end;
    [lia|].
  exists b', perf'. split; [done|]. right. split_and!; [done|done|]. intros Hlegacy.
  destruct Hb as [->|(_ & _ & Hb)]; [|by apply Hb].
  unfold NextMountBackend in Hlegacy. case_bool_decide; [done|].
  destruct (_ && _) eqn:Ec in Hlegacy; [|done]. subst allowed. split_tests.
  destruct ((b == kStrictProcFd) && e_allow_legacy env && (e_required env == kMountActionRedirect))
    eqn:Ea; [|done]. split_tests. done.
Qed.
End OneRule.

(** ** Lemmas: the loop over the rules *)

Section Loop.
Context (env : Environment) (b0 : MountBackendKind) (locked0 : bool).
Hypothesis count_small : (e_count env <= kJournalCapacity)%nat.

Definition start (perf : Perf) : Progress :=
  {| backend := b0; backend_locked := locked0; journal := new_journal; run_error := 0;
     untracked_mutation := false; perf := perf; failure_stage := kStageNone |}.

(** The entry of the journal for one rule: the call that mounted it reported success. *)
Definition entry_for (b : MountBackendKind) (rule : nat) (m : AppliedMount) : Prop :=
  a_operation_id m = Z.of_nat rule /\ a_backend m = b
  /\ a_target m = target_locator_of (e_workspace env) rule
  /\ (source_index (e_workspace env) rule < pinned_source_count (e_workspace env))%nat
  /\ ok (raw_apply env rule b).2 = true.

(** The entry was found in the snapshot taken after the mounts, and nothing was wrong with it. *)
Definition verified_in (after : MountInfoSnapshot) (expected : nat) (rule : nat) (m : AppliedMount) : Prop :=
  a_mount_id m <> 0
  /\ exists recorded verify,
       VerifyDirectoryMount (e_verify env rule) (e_before env) after (source_of (e_workspace env) rule)
         (target_of (e_workspace env) rule) (target_locator_of (e_workspace env) rule) recorded (Z.of_nat expected)
       = (m, verify) /\ ok verify = true.

(** The first [k] rules are mounted, nothing else is, and one backend did it all. *)
Record mounted (k : nat) (s : Progress) : Prop := {
  md_journal : journal_ok (journal s);
  md_length : length (contents (journal s)) = k;
  md_entries : forall i m, contents (journal s) !! i = Some m -> entry_for (backend s) i m;
  md_tracked : untracked_mutation s = false;
  md_locked : (0 < k)%nat -> backend_locked s = true;
  md_count : (k <= e_count env)%nat;
  md_start : k = 0%nat -> backend_locked s = locked0;
  md_backend : backend s = b0
               \/ locked0 = false /\ (backend s = kLegacyString -> legacy_allowed env);
}.

Lemma apply_rule_mounted k s :
  mounted k s -> (k < e_count env)%nat ->
  exists s', apply_rule env s k = Some s'
    /\ (run_error s' = 0 /\ mounted (S k) s' \/ run_error s' <> 0 /\ mounted k s').
Proof.
  intros Hm Hk. unfold apply_rule.
  destruct (e_cancelled env k).
  { eexists. split; [done|]. right. split; [done|]. by destruct Hm. }
  case_bool_decide as Hsrc.
  { eexists. split; [done|]. right. split; [done|]. by destruct Hm. }
  destruct (attempt_spec env 4 (backend s) (backend_locked s) k (perf s))
    as (b' & perf' & Ea & Hb'); [destruct (backend s); cbn; lia|].
  rewrite Ea. cbn [mbind option_bind].
  pose proof (ApplyDirectoryMountRaw_spec (e_apply env k b') b' (Z.of_nat k)
    (source_of (e_workspace env) k) (target_of (e_workspace env) k)
    (source_locator_of (e_workspace env) k) (target_locator_of (e_workspace env) k)) as Hraw.
  fold (raw_apply env k b') in Hraw.
  assert (a_operation_id (raw_apply env k b').1 = Z.of_nat k) as Hop.
  { unfold raw_apply, ApplyDirectoryMountRaw. cbv zeta. by repeat case_match. }
  destruct (raw_apply env k b') as [mount failure] eqn:Eraw. cbn [fst snd] in *.
  destruct Hraw as (Hmut & Hback & Htgt & _ & _). rewrite Hmut.
  destruct Hm as [Hj Hlen Hent Htr Hlock Hcnt Hst Hbk].
  assert (backend_locked s = true -> b' = backend s) as Hkeep.
  { intros El. destruct Hb' as [|(El' & _)]; congruence. }
  assert (b' = b0 \/ locked0 = false /\ (b' = kLegacyString -> legacy_allowed env)) as Hnew.
  { destruct Hb' as [->|(El & -> & Hl)]; [done|]. right. split; [|done]. by rewrite <- Hst. }
  pose proof (MutationJournal.Push_spec kJournalCapacity mount (journal s) Hj) as Hpush.
  destruct (ok failure) eqn:Eok; cbn [andb].
  - destruct (MutationJournal.Push kJournalCapacity mount (journal s)) as [pushed j'].
    fold contents in Hpush. destruct Hpush as (Hj' & Hp & Hc').
    rewrite bool_decide_eq_true_2 in Hp by (change MutationJournal.contents with contents; lia).
    subst pushed. eexists. split; [done|]. left. unfold ok in Eok. apply Z.eqb_eq in Eok.
    split; [done|]. split; cbn -[contents].
    + done.
    + change MutationJournal.contents with contents in Hc'. rewrite Hc', length_app. cbn. lia.
    + change MutationJournal.contents with contents in Hc'. rewrite Hc'.
      intros i m [Hi|[-> ->]]%lookup_snoc_cases.
      * assert (0 < k)%nat by (apply lookup_lt_Some in Hi; lia).
        rewrite (Hkeep (Hlock H)). by apply Hent.
      * rewrite Hlen. split_and!; [done|done|done|lia|]. rewrite Eraw. cbn. unfold ok. by apply Z.eqb_eq.
    + by rewrite Htr.
    + intros _. by rewrite orb_true_r.
    + lia.
    + done.
    + done.
  - eexists. split; [done|]. right. unfold ok in Eok. apply Z.eqb_neq in Eok.
    split; [done|]. split; cbn -[contents]; try done.
    + intros i m Hi. assert (0 < k)%nat by (apply lookup_lt_Some in Hi; lia).
      rewrite (Hkeep (Hlock H)). by apply Hent.
    + by rewrite Htr.
    + intros H. by rewrite (Hlock H).
    + intros H. by rewrite (Hst H), orb_false_r.
Qed.

Lemma apply_rules_mounted k s :
  mounted k s -> run_error s = 0 ->
  exists k' s', apply_rules env s (seq k (e_count env - k)) = Some s' /\ mounted k' s'
    /\ (run_error s' = 0 -> k' = e_count env).
Proof.
  remember (e_count env - k)%nat as n eqn:En. revert k s En.
  induction n as [|n IH]; intros k s En Hm Hr.
  { exists k, s. split_and!; [done|done|]. intros _. pose proof (md_count _ _ Hm). lia. }
  cbn [seq apply_rules]. rewrite Hr. cbn [Z.eqb].
  destruct (apply_rule_mounted k s Hm ltac:(lia)) as (s' & -> & [[Hr' Hm']|[Hr' Hm']]);
    cbn [mbind option_bind].
  - apply (IH (S k)); [lia|done|done].
  - exists k, s'. split_and!; [|done|by intros].
    destruct (seq (S k) n); cbn; [done|]. by rewrite (proj2 (Z.eqb_neq (run_error s') 0)).
Qed.

(** *** The verification keeps what is recorded *)

Lemma mounted_ext k s s' :
  mounted k s -> journal s' = journal s -> backend s' = backend s ->
  backend_locked s' = backend_locked s -> untracked_mutation s' = untracked_mutation s ->
  mounted k s'.
Proof. intros [] Hj Hb Hl Hu. split; rewrite ?Hj, ?Hb, ?Hl, ?Hu; done. Qed.

Lemma verify_recorded_mounted after expected k s index :
  mounted k s -> (index < k)%nat ->
  let s' := verify_recorded env after (Z.of_nat expected) s index in
  mounted k s'
  /\ (run_error s' = 0 -> run_error s = 0
      /\ (exists m, contents (journal s') !! index = Some m /\ verified_in after expected index m)
      /\ forall i, i <> index -> contents (journal s') !! i = contents (journal s) !! i).
Proof.
  intros Hm Hi. pose proof Hm as [Hj Hlen Hent Htr _ Hcnt _ _]. cbv zeta. unfold verify_recorded.
  destruct (lookup_lt_is_Some_2 (contents (journal s)) index ltac:(lia)) as [recorded Hrec].
  rewrite (MutationJournal.At_contents (journal s) index). fold contents. rewrite Hrec.
  destruct (Hent index recorded Hrec) as (Hop & Hbk & Htgt & Hsrc & Hraw).
  rewrite Hop, Nat2Z.id. destruct (Z.leb_spec (Z.of_nat (e_count env)) (Z.of_nat index)); [lia|].
  rewrite bool_decide_eq_false_2 by lia.
  pose proof (VerifyDirectoryMount_confirmed (e_verify env index) (e_before env) after
    (source_of (e_workspace env) index) (target_of (e_workspace env) index)
    (target_locator_of (e_workspace env) index) recorded (Z.of_nat expected)) as V.
  destruct (VerifyDirectoryMount _ _ _ _ _ _ _ _) as [verified verify] eqn:Everify.
  destruct V as (Vop & Vbk & Vtgt & Vok & Vid). destruct (identity_confirmed verify) eqn:Ec.
  - pose proof (MutationJournal.UpdateAt_spec kJournalCapacity index verified (journal s) Hj) as U.
    destruct (MutationJournal.UpdateAt index verified (journal s)) as [updated j'].
    destruct U as (Hj' & Hu & Hc'). change MutationJournal.contents with contents in *.
    rewrite bool_decide_eq_true_2 in Hu by lia. subst updated. cbn -[contents].
    symmetry in Vok. unfold ok in Vok. rewrite Vok. cbn [negb]. rewrite andb_false_r. split.
    + split; cbn -[contents]; try apply Hm; [done|by rewrite Hc', length_insert| |by rewrite Htr].
      intros i m. rewrite Hc'. intros [(<- & -> & _)|[_ Hl]]%list_lookup_insert_Some; [|by apply Hent].
      split_and!; [congruence|congruence|congruence|done|done].
    + intros He. split; [done|]. rewrite Hc'. split.
      * exists verified. split; [apply list_lookup_insert_eq; lia|]. split; [by apply Vid|].
        by exists recorded, verify.
      * intros i Hne. by apply list_lookup_insert_ne.
  - symmetry in Vok. unfold ok in Vok. cbn -[contents]. rewrite Vok. cbn [negb].
    rewrite andb_true_r, orb_false_r. split; [by apply (mounted_ext k s)|].
    intros He. apply Z.eqb_neq in Vok. by destruct (run_error s =? 0) eqn:E; [|apply Z.eqb_neq in E].
Qed.

Lemma verify_fold_mounted after expected k n s :
  mounted k s -> (n <= k)%nat ->
  let s' := fold_left (verify_recorded env after (Z.of_nat expected)) (seq 0 n) s in
  mounted k s'
  /\ (run_error s' = 0 -> run_error s = 0
      /\ forall i m, (i < n)%nat -> contents (journal s') !! i = Some m -> verified_in after expected i m).
Proof.
  intros Hm. induction n as [|n IH]; intros Hn; [by split; [|split; [|lia]]|].
  rewrite seq_S, fold_left_app. cbn [fold_left Nat.add].
  destruct (IH ltac:(lia)) as [Hm' Hids]. set (s1 := fold_left _ (seq 0 n) s) in *.
  destruct (verify_recorded_mounted after expected k s1 n Hm' ltac:(lia)) as [Hm'' Hlast].
  split; [done|]. intros He. destruct (Hlast He) as (He1 & (m & Hlook & Hid) & Hsame).
  destruct (Hids He1) as [He0 Hall]. split; [done|]. intros i m' Hi Hl.
  destruct (decide (i = n)) as [->|Hne]; [congruence|].
  rewrite (Hsame i Hne) in Hl. apply (Hall i); [lia|done].
Qed.

Lemma journal_size_contents k s : mounted k s -> journal_size s = k.
Proof.
  intros []. unfold journal_size, MutationJournal.size_of.
  by rewrite <- (MutationJournal.length_contents kJournalCapacity).
Qed.

Lemma journal_empty_contents k s :
  mounted k s -> MutationJournal.is_empty (journal s) = bool_decide (k = 0%nat).
Proof.
  intros Hm. rewrite <- (journal_size_contents k s Hm). done.
Qed.

Lemma verify_mounts_mounted k s :
  mounted k s ->
  let '(s', ready) := verify_mounts env s in
  mounted k s'
  /\ ((forall e, e_after_mounts env = inr e -> e <> 0) -> run_error s' = 0 ->
      run_error s = 0 /\ (backend s = kLegacyString -> (0 < k)%nat ->
        exists after, e_after_mounts env = inl after
          /\ forall i m, contents (journal s') !! i = Some m -> verified_in after k i m)).
Proof.
  intros Hm. unfold verify_mounts.
  destruct (NeedsPostMountSnapshot _ _ _) eqn:En.
  - destruct (e_after_mounts env) as [after|e] eqn:Ea.
    + rewrite (journal_size_contents k s Hm).
      destruct (verify_fold_mounted after k k k s Hm ltac:(lia)) as [Hm' Hids].
      split; [done|]. intros _ He. destruct (Hids He) as [He0 Hall]. split; [done|].
      intros _ _. exists after. split; [done|]. intros i m Hi. apply Hall; [|done].
      apply lookup_lt_Some in Hi. by rewrite (md_length _ _ Hm') in Hi.
    + split; [by apply (mounted_ext k s)|]. cbn. intros Hsane He.
      destruct (run_error s =? 0) eqn:Es; [by destruct (Hsane e)|]. by apply Z.eqb_neq in Es.
  - split; [done|]. intros _ He. split; [done|]. intros Hlegacy Hk. exfalso.
    unfold NeedsPostMountSnapshot in En. rewrite Hlegacy, He in En. cbn in En.
    rewrite andb_true_r in En. rewrite (journal_empty_contents k s Hm) in En.
    apply negb_false_iff, bool_decide_eq_true in En. lia.
Qed.

Lemma verify_mounts_backend s : backend (verify_mounts env s).1 = backend s.
Proof.
  unfold verify_mounts. destruct (NeedsPostMountSnapshot _ _ _); [|done].
  destruct (e_after_mounts env) as [after|e]; [|done]. cbn [fst].
  generalize (seq 0 (journal_size s)) (Z.of_nat (journal_size s)). intros indexes expected.
  revert s. induction indexes as [|i indexes IH]; intros s; [done|]. cbn [fold_left].
  rewrite IH. unfold verify_recorded. repeat case_match; done.
Qed.
End Loop.

(** ** Lemmas: rollback *)

Section RollbackLoop.
Context (step : nat -> AppliedMount -> MountError) (detaches : bool) (j : Journal).
Hypothesis j_ok : journal_ok j.

Lemma rollback_loop_failed index r :
  rollback_failed r = true -> rollback_loop step detaches j index r = r.
Proof. destruct index; [done|]. cbn. by intros ->. Qed.

(** A loop detaches from the last entry on, stops at the first failure, and passes
    exactly when every step did. *)
Lemma rollback_loop_spec index r :
  (index <= length (contents j))%nat -> rollback_failed r = false ->
  let r' := rollback_loop step detaches j index r in
  exists n, (n <= index)%nat
    /\ detached r' = detached r
       ++ (if detaches then take n (rev (take index (contents j))) else [])
    /\ (if rollback_failed r' then rollback_error r' <> 0
        else n = index /\ rollback_error r' = rollback_error r
             /\ forall i m, (i < index)%nat -> contents j !! i = Some m -> ok (step i m) = true).
Proof.
  revert r. induction index as [|index IH]; intros r Hi Hr.
  { exists 0%nat. cbn. rewrite Hr. split_and!; [done| |done|done|lia].
    destruct detaches; by rewrite app_nil_r. }
  cbn [rollback_loop]. rewrite Hr.
  destruct (lookup_lt_is_Some_2 (contents j) index ltac:(lia)) as [m Hm].
  rewrite (MutationJournal.At_contents j index). fold contents. rewrite Hm.
  unfold record_rollback_failure. destruct (ok (step index m)) eqn:Eok.
  - rewrite Hr, andb_true_r.
    set (r1 := if detaches then _ else r).
    assert (rollback_failed r1 = false) as Hr1 by (unfold r1; by destruct detaches).
    assert (rollback_error r1 = rollback_error r) as He1 by (unfold r1; by destruct detaches).
    destruct (IH r1 ltac:(lia) Hr1) as (n & Hn & Hd & Hres). exists (S n). split; [lia|].
    rewrite (take_S_r _ _ m Hm), rev_app_distr. cbn [rev Datatypes.app take].
    split.
    + rewrite Hd. unfold r1. destruct detaches; [|done]. cbn. by rewrite <- app_assoc.
    + destruct (rollback_failed (rollback_loop step detaches j index r1)); [done|]. destruct Hres as (-> & He & Hall).
      split_and!; [done|congruence|]. intros i m' Hlt Hl.
      destruct (decide (i = index)) as [->|]; [congruence|]. apply Hall; [lia|done].
  - cbn [rollback_failed negb]. rewrite andb_false_r.
    rewrite rollback_loop_failed by done. exists 0%nat. cbn. split_and!; [lia| |].
    + destruct detaches; by rewrite app_nil_r.
    + unfold ok in Eok. by apply Z.eqb_neq.
Qed.
End RollbackLoop.

Lemma ValidateRollback_id sys applied snapshot :
  ok (ValidateRollbackDirectoryMount sys applied snapshot) = true -> a_mount_id applied <> 0.
Proof.
  unfold ValidateRollbackDirectoryMount. destruct (Z.eqb_spec (a_mount_id applied) 0); [|done].
  intros H. discriminate H.
Qed.

Lemma take_rev_all {A} (l : list A) : take (length l) (rev (take (length l) l)) = rev l.
Proof. rewrite firstn_all. rewrite <- (length_rev l) at 1. by rewrite firstn_all. Qed.

(** What the rollback of a journal leaves, however the kernel answers. *)
Definition rolled_back (j : Journal) (r : Rollback) (j' : Journal) : Prop :=
  rollback_error r <> 0
  /\ if rollback_failed r
     then j' = j /\ exists n, detached r = take n (rev (contents j))
     else contents j' = [] /\ detached r = rev (contents j)
          /\ Forall (fun m => a_mount_id m <> 0) (contents j).

Section RollBack.
Context (env : Environment) (j : Journal).
Hypothesis j_ok : journal_ok j.
Hypothesis captures_fail_with_error :
  (forall e, e_rollback_before env = inr e -> e <> 0)
  /\ (forall e, e_rollback_after env = inr e -> e <> 0).

Lemma all_looked_up (P : AppliedMount -> Prop) :
  (forall i m, (i < length (contents j))%nat -> contents j !! i = Some m -> P m) ->
  Forall P (contents j).
Proof.
  intros H. rewrite Forall_forall. intros m [i Hi]%list_elem_of_lookup.
  apply (H i); [by apply lookup_lt_Some in Hi|done].
Qed.

(** The two loops after the validation. *)
Lemma unmount_and_confirm (validated : Rollback) :
  rollback_failed validated = false -> rollback_error validated <> 0 -> detached validated = [] ->
  Forall (fun m => a_mount_id m <> 0) (contents j) ->
  let size := length (contents j) in
  let unmounted := rollback_loop
    (fun index => UnmountValidatedDirectoryMount (e_unmount env index)) true j size validated in
  let '(after, unmounted) :=
    if negb (rollback_failed unmounted) && negb (bool_decide (size = 0)%nat) then
      match e_rollback_after env with
      | inl s => (s, unmounted)
      | inr e => (unread, {| rollback_failed := true; rollback_error := e;
                             detached := detached unmounted |})
      end
    else (unread, unmounted) in
  let verified := rollback_loop
    (fun index applied => VerifyRollbackDirectoryMount (e_confirm env index) applied after)
    false j size unmounted in
  rolled_back j verified (if rollback_failed verified then j else MutationJournal.Clear j).
Proof.
  intros Hf He Hd Hids size. subst size. cbv zeta.
  destruct (rollback_loop_spec (fun index => UnmountValidatedDirectoryMount (e_unmount env index))
    true j (length (contents j)) validated ltac:(lia) Hf) as (n & Hn & Hdet & Hres).
  set (unmounted := rollback_loop _ true j _ validated) in *.
  assert (exists n, detached unmounted = take n (rev (contents j))) as Hprefix.
  { exists n. rewrite Hdet, Hd, firstn_all. done. }
  assert (forall r, rollback_failed r = true -> rollback_error r <> 0 ->
            detached r = detached unmounted -> rolled_back j r j) as Hfail.
  { intros r H1 H2 H3. split; [done|]. rewrite H1, H3. done. }
  destruct (rollback_failed unmounted) eqn:Eu; cbn [negb andb].
  { rewrite rollback_loop_failed by done. rewrite Eu. by apply Hfail. }
  destruct Hres as (-> & Heq & _). rewrite Hd, take_rev_all in Hdet. cbn in Hdet.
  assert (forall after, let verified := rollback_loop
    (fun index applied => VerifyRollbackDirectoryMount (e_confirm env index) applied after)
    false j (length (contents j)) unmounted in
    rolled_back j verified (if rollback_failed verified then j else MutationJournal.Clear j)) as Hverify.
  { intros after. cbv zeta.
    destruct (rollback_loop_spec
      (fun index applied => VerifyRollbackDirectoryMount (e_confirm env index) applied after)
      false j (length (contents j)) unmounted ltac:(lia) Eu) as (n & _ & Hd' & Hres').
    set (verified := rollback_loop _ false j _ unmounted) in *. rewrite app_nil_r in Hd'.
    destruct (rollback_failed verified) eqn:Ev; [by apply Hfail|].
    destruct Hres' as (_ & Heq' & _). split; [congruence|]. rewrite Ev.
    split_and!; [done|congruence|done]. }
  destruct (bool_decide (length (contents j) = 0%nat)); cbn [negb]; [apply Hverify|].
  destruct (e_rollback_after env) as [s|e] eqn:Ea; [apply Hverify|].
  rewrite rollback_loop_failed by done. cbn [rollback_failed].
  apply Hfail; [done|by apply captures_fail_with_error|done].
Qed.

Lemma roll_back_spec ready e :
  e <> 0 -> let '(r, j') := roll_back env j ready e in rolled_back j r j'.
Proof.
  intros He. unfold roll_back.
  assert (MutationJournal.size_of j = length (contents j)) as Hsize
    by (symmetry; by apply (MutationJournal.length_contents kJournalCapacity)).
  unfold MutationJournal.is_empty. change (MutationJournal.size_ j) with (MutationJournal.size_of j).
  rewrite Hsize. cbv zeta.
  destruct (rollback_snapshot env _ ready) as [identity_snapshot snap_error].
  set (start := {| rollback_failed := negb (snap_error =? 0); rollback_error := _; detached := [] |}).
  assert (rollback_error start <> 0) as Hes.
  { unfold start. cbn. destruct (Z.eqb_spec snap_error 0); done. }
  assert (forall r, rollback_failed r = true -> rollback_error r <> 0 -> detached r = [] ->
            rolled_back j r j) as Hfail.
  { intros r H1 H2 H3. split; [done|]. rewrite H1, H3. split; [done|]. by exists 0%nat. }
  set (validated := rollback_loop _ false j _ start).
  destruct (rollback_failed start) eqn:Es.
  { assert (validated = start) as -> by (by apply rollback_loop_failed).
    rewrite (rollback_loop_failed _ true) by done. rewrite Es. cbn [negb andb].
    rewrite rollback_loop_failed by done. rewrite Es. by apply Hfail. }
  destruct (rollback_loop_spec
    (fun index applied => ValidateRollbackDirectoryMount (e_validate env index) applied identity_snapshot)
    false j (length (contents j)) start ltac:(lia) Es) as (n & _ & Hd & Hres).
  fold validated in Hd, Hres. rewrite app_nil_r in Hd.
  destruct (rollback_failed validated) eqn:Ev.
  { rewrite (rollback_loop_failed _ true) by done. rewrite Ev. cbn [negb andb].
    rewrite rollback_loop_failed by done. rewrite Ev. by apply Hfail. }
  destruct Hres as (_ & Heq & Hall).
  pose proof (unmount_and_confirm validated Ev ltac:(congruence) Hd) as U.
  cbv zeta in U. specialize (U (all_looked_up _ (fun i m Hi Hm =>
    ValidateRollback_id _ _ _ (Hall i m Hi Hm)))).
  match type of U with context [let '(_, _) := ?c in _] => destruct c as [after unmounted] end.
  exact U.
Qed.
End RollBack.

(** ** Properties *)

(** A capture of a snapshot that fails says why. *)
Definition captures_fail_with_error (env : Environment) : Prop :=
  (forall e, e_after_mounts env = inr e -> e <> 0)
  /\ (forall e, e_rollback_before env = inr e -> e <> 0)
  /\ (forall e, e_rollback_after env = inr e -> e <> 0).

(** What a transaction may end with. Committed: the mount call of every rule reported success
    with one backend, in the order of the rules, and for the string backend, whose calls name
    paths, every mount was then found and identified in a snapshot. *)
Definition committed (env : Environment) (o : Outcome) : Prop :=
  o_error o = 0 /\ o_complete o = true /\ detached (o_rollback o) = []
  /\ o_report o = None /\ o_terminates o = false
  /\ operations (contents (o_journal o)) = seqZ 0 (Z.of_nat (e_count env))
  /\ Forall (fun m => a_backend m = o_backend o) (contents (o_journal o))
  /\ (forall rule, (rule < e_count env)%nat -> ok (raw_apply env rule (o_backend o)).2 = true)
  /\ (o_backend o = kLegacyString -> (0 < e_count env)%nat ->
      exists after, e_after_mounts env = inl after
        /\ forall rule m, contents (o_journal o) !! rule = Some m -> verified_in env after (e_count env) rule m).

(** What a failure reports. Whatever may be left in the namespace is called tainted, and its
    members are terminated; a rollback is called complete only when nothing is left and the
    propagation is what it was; and the report lands while the transaction is in flight. *)
Definition reported (env : Environment) (o : Outcome) : Prop :=
  let left := rollback_failed (o_rollback o) || o_untracked o || bool_decide (e_propagation env = Some 0) in
  (o_terminates o = left)
  /\ (left = true -> exists p, o_report o = Some p /\ pub_to p = kNamespaceTainted)
  /\ (forall p, o_report o = Some p -> pub_to p = kRollbackComplete ->
        left = false /\ contents (o_journal o) = [])
  /\ ((e_current env = kApplying \/ e_current env = kCancelRequested) -> e_current_stays env = true ->
      exists p, o_report o = Some p /\ pub_from p = e_current env /\ pub_landed p = true).

Definition undone (env : Environment) (o : Outcome) : Prop :=
  o_error o <> 0 /\ o_complete o = false
  /\ exists k, (k <= e_count env)%nat
     /\ if rollback_failed (o_rollback o)
        then operations (contents (o_journal o)) = seqZ 0 (Z.of_nat k)
             /\ exists n, operations (detached (o_rollback o)) = take n (rev (seqZ 0 (Z.of_nat k)))
        else contents (o_journal o) = []
             /\ operations (detached (o_rollback o)) = rev (seqZ 0 (Z.of_nat k))
             /\ Forall (fun m => a_mount_id m <> 0) (detached (o_rollback o)).

Lemma report_failure_reported env o e :
  o_propagation_changed o = bool_decide (e_propagation env = Some 0) ->
  (rollback_failed (o_rollback o) = false -> contents (o_journal o) = []) ->
  (o_report o, o_terminates o) = (if e =? 0 then (None, false) else
    report_failure env (o_propagation_changed o) (rollback_failed (o_rollback o)) (o_untracked o)) ->
  e <> 0 -> reported env o.
Proof.
  intros Hp Hj Hr He. rewrite (proj2 (Z.eqb_neq e 0) He) in Hr. unfold reported, report_failure in *. cbv zeta.
  rewrite <- Hp. set (left := rollback_failed _ || _ || _).
  replace (o_propagation_changed o || rollback_failed (o_rollback o) || o_untracked o) with left in Hr
    by (subst left; by destruct (o_propagation_changed o), (rollback_failed _), (o_untracked o)).
  assert (left = false -> contents (o_journal o) = []) as Hleft.
  { intros [[H _]%orb_false_iff _]%orb_false_iff. by apply Hj. }
  clearbody left. unfold publication in Hr.
  destruct left; [injection Hr as -> ->; split_and!; [done|by eexists|by intros p [= <-]|]|].
  { intros Hin Hs. eexists. split; [done|]. split; [done|]. cbn. rewrite Hs, (bool_decide_eq_true_2 (e_current env = _)) by done.
    by destruct Hin as [-> | ->]. }
  destruct (decide (e_current env = kCancelRequested)) as [E|E]; [rewrite E, (bool_decide_eq_true_2 (_ = _)) in Hr by done|
    rewrite (bool_decide_eq_false_2 (e_current env = kCancelRequested)) in Hr by done;
    destruct (decide (e_current env = kApplying)) as [E'|E']; [rewrite E', (bool_decide_eq_true_2 (_ = _)) in Hr by done|
      rewrite (bool_decide_eq_false_2 (e_current env = kApplying)) in Hr by done]];
    injection Hr as -> ->; split_and!; try done; try (intros p [= <-] _; by split_and!; auto); try tauto.
  all: intros _ Hs; eexists; split; [done|]; split; [done|]; cbn; by rewrite Hs.
Qed.

Lemma seqZ_of_entries env b l k :
  length l = k -> (forall i m, l !! i = Some m -> entry_for env b i m) ->
  operations l = seqZ 0 (Z.of_nat k).
Proof.
  intros <- Hl. unfold operations. apply list_eq. intros i. rewrite list_lookup_fmap.
  destruct (l !! i) as [m|] eqn:Hi; cbn.
  - destruct (Hl i m Hi) as [-> _]. symmetry. apply lookup_seqZ. apply lookup_lt_Some in Hi. lia.
  - symmetry. apply lookup_seqZ_ge. apply lookup_ge_None in Hi. lia.
Qed.

Lemma Forall_of_entries env b l :
  (forall i m, l !! i = Some m -> entry_for env b i m) -> Forall (fun m => a_backend m = b) l.
Proof.
  intros Hl. rewrite Forall_forall. intros m [i Hi]%list_elem_of_lookup. by destruct (Hl i m Hi) as (_ & ? & _).
Qed.

Lemma operations_rev l : operations (rev l) = rev (operations l).
Proof.
  unfold operations. induction l as [|m l IH]; [done|]. cbn. by rewrite fmap_app, IH.
Qed.

Lemma operations_take n l : operations (take n l) = take n (operations l).
Proof. apply fmap_take. Qed.

Lemma undone_of_rollback env b0 locked0 k s ready e o :
  mounted env b0 locked0 k s -> captures_fail_with_error env -> e <> 0 ->
  (let '(r, j) := roll_back env (journal s) ready e in
   o_error o = rollback_error r /\ o_rollback o = r /\ o_journal o = j) ->
  o_complete o = false -> undone env o.
Proof.
  intros Hm (_ & Hs) He Ho Hc.
  pose proof (roll_back_spec env (journal s) (md_journal _ _ _ _ _ Hm) Hs ready e He) as R.
  destruct (roll_back env (journal s) ready e) as [r j']. destruct Ho as (Ho1 & Ho2 & Ho3).
  destruct R as [Hre R].
  assert (operations (contents (journal s)) = seqZ 0 (Z.of_nat k)) as Hops.
  { eapply seqZ_of_entries; [apply (md_length _ _ _ _ _ Hm)|]. apply Hm. }
  split; [congruence|]. split; [done|]. exists k. split; [apply Hm|]. rewrite Ho2, Ho3.
  destruct (rollback_failed r).
  - destruct R as (-> & n & ->). split; [done|]. exists n.
    by rewrite operations_take, operations_rev, Hops.
  - destruct R as (-> & -> & Hids). split; [done|]. split.
    + by rewrite operations_rev, Hops.
    + rewrite Forall_forall in Hids |- *. intros m Hin. apply Hids.
      rewrite list_elem_of_In in Hin |- *. by apply in_rev.
Qed.

Lemma transact_spec env b0 locked0 perf :
  (e_count env <= kJournalCapacity)%nat -> captures_fail_with_error env ->
  exists o, transact env (start b0 locked0 perf) = Some o /\ o_untracked o = false
    /\ (committed env o \/ undone env o /\ reported env o)
    /\ (o_backend o = b0 \/ locked0 = false /\ (o_backend o = kLegacyString -> legacy_allowed env)).
Proof.
  intros Hcount Hsane. unfold transact, apply_mounts.
  set (s0 := match e_propagation env with Some e => _ | None => _ end).
  assert (mounted env b0 locked0 0 s0) as Hm0.
  { assert (mounted env b0 locked0 0 (start b0 locked0 perf)) as H.
    { destruct (MutationJournal.empty_journal_ok kJournalCapacity no_mount) as [Hj Hc].
      split; cbn -[contents new_journal]; try done; try lia; by left. }
    unfold s0. destruct (e_propagation env); [|done]. destruct (_ =? 0); [done|].
    by eapply mounted_ext. }
  assert (exists k s1, apply_rules env s0 (seq 0 (e_count env)) = Some s1
            /\ mounted env b0 locked0 k s1 /\ (run_error s1 = 0 -> k = e_count env))
    as (k & s1 & -> & Hm1 & Hk).
  { destruct (decide (run_error s0 = 0)) as [E|E].
    - pose proof (apply_rules_mounted env b0 locked0 Hcount 0 s0 Hm0 E) as H.
      by rewrite Nat.sub_0_r in H.
    - exists 0%nat, s0. split_and!; [|done|by intros]. destruct (seq 0 (e_count env)); [done|].
      cbn. by rewrite (proj2 (Z.eqb_neq (run_error s0) 0)). }
  cbn [mbind option_bind].
  set (s2 := if _ && e_cancelled env (e_count env) then _ else s1).
  assert (mounted env b0 locked0 k s2 /\ (run_error s2 = 0 -> k = e_count env)) as [Hm2 Hk2].
  { unfold s2. destruct (_ && _); [|done]. split; [by eapply mounted_ext|]. intros E. discriminate E. }
  clearbody s2. clear s0 Hm0 s1 Hm1 Hk.
  set (fast := (run_error s2 =? 0) && _).
  set (s3 := if fast && negb (e_publishes env) then _ else s2).
  assert (mounted env b0 locked0 k s3) as Hm3
    by (unfold s3; destruct (fast && negb _); [by eapply mounted_ext|done]).
  assert (run_error s3 = 0 -> run_error s2 = 0) as Hr3
    by (unfold s3; destruct (fast && negb _); [intros E; discriminate E|done]).
  pose proof (verify_mounts_mounted env b0 locked0 Hcount k s3 Hm3) as V.
  pose proof (verify_mounts_backend env s3) as Hbk.
  assert (fast && e_publishes env = true -> (verify_mounts env s3).1 = s3 /\ run_error s3 = 0) as Hfast.
  { intros [Ef Ep]%andb_true_iff. unfold s3. rewrite Ef, Ep. cbn [negb andb].
    apply andb_true_iff in Ef as [Er%Z.eqb_eq En%negb_true_iff].
    unfold verify_mounts. rewrite Er. cbn [Z.eqb]. by rewrite En. }
  destruct (verify_mounts env s3) as [s4 ready]. destruct V as [Hm4 Hids]. cbn [fst] in Hbk, Hfast.
  specialize (Hids (proj1 Hsane)).
  set (publishes := (run_error s4 =? 0) && negb (fast && e_publishes env)).
  set (e := if publishes && negb (e_publishes env) then ECANCELED else run_error s4).
  assert (backend s4 = b0 \/ locked0 = false /\ (backend s4 = kLegacyString -> legacy_allowed env))
    as Hb by apply Hm4.
  destruct (Z.eqb_spec e 0) as [E|E].
  - eexists. split; [done|]. cbn. split; [apply Hm4|]. split; [left|done].
    assert (run_error s4 = 0 /\ (publishes && negb (e_publishes env)) = false) as [E4 Ep].
    { revert E. unfold e. destruct (publishes && _); [intros E; discriminate E|done]. }
    destruct (Hids E4) as [E3 Hlegacy].
    assert (k = e_count env) as -> by auto.
    split_and!; cbn; try done.
    + revert Ep. unfold publishes. rewrite E4. cbn [Z.eqb andb].
      by destruct (fast && e_publishes env), (e_publishes env).
    + eapply seqZ_of_entries; [apply Hm4|]. apply Hm4.
    + eapply Forall_of_entries. apply Hm4.
    + intros rule Hrule. pose proof (md_length _ _ _ _ _ Hm4) as Hlen.
      destruct (lookup_lt_is_Some_2 (contents (journal s4)) rule ltac:(lia)) as [m Hm].
      by destruct (md_entries _ _ _ _ _ Hm4 rule m Hm) as (_ & _ & _ & _ & ?).
    + rewrite Hbk. intros Hl Hn. by apply Hlegacy.
  - destruct (roll_back env (journal s4) ready e) as [r j'] eqn:Eroll.
    destruct (if rollback_error r =? 0 then (None, false) else report_failure env _ _ _) as [report terminates] eqn:Erep.
    eexists. split; [done|]. cbn. split; [apply Hm4|]. split; [right|done].
    match goal with |- ?U /\ _ => assert U as HU end.
    2:{ split; [exact HU|]. apply (report_failure_reported _ _ (rollback_error r)); [done| |by symmetry|by apply HU].
        destruct HU as (_ & _ & k' & _ & HU). cbn. intros Hf. cbn in HU. rewrite Hf in HU. apply HU. }
    eapply (undone_of_rollback env b0 locked0 k s4 ready e); try done.
    + by rewrite Eroll.
    + cbn. destruct (fast && e_publishes env) eqn:Ef.
      { destruct (Hfast eq_refl) as [-> E3]. destruct E. unfold e, publishes. rewrite E3. done. }
      cbn [orb]. unfold e, publishes in E. rewrite andb_true_r in E. unfold publishes.
      rewrite andb_true_r. destruct (run_error s4 =? 0) eqn:Ez; [|done].
      destruct (e_publishes env); [|done]. apply Z.eqb_eq in Ez. by destruct E.
Qed.

(** C1. A mount transaction is atomic. However the kernel, the shared state and the
    captures answer, it terminates and never loses track of a mutation; it ends either
    committed - the mount call of every rule reported success, in order and all by one backend,
    and nothing was detached; for the string backend every mount was then verified against a
    snapshot and identified, while the strict backends, which mount what they have pinned,
    commit on the success of the calls, before any snapshot - or undone with an error: the
    rules mounted so far were detached in reverse order, after the identity of each of them was
    confirmed, unless a rollback step failed, and then what was detached is the end of that
    order. A failure is reported as what it is: when a rollback step failed or the propagation
    of /storage was changed, the namespace is published as tainted and its members are
    terminated; a complete rollback is published only when nothing is left mounted and the
    propagation is unchanged; and the report lands whenever the state is still in flight. *)
Theorem transaction_atomic env b0 locked0 perf :
  (e_count env <= kJournalCapacity)%nat -> captures_fail_with_error env ->
  exists o, transact env (start b0 locked0 perf) = Some o /\ o_untracked o = false
    /\ (committed env o \/ undone env o /\ reported env o)
    /\ (o_backend o = b0 \/ locked0 = false /\ (o_backend o = kLegacyString -> legacy_allowed env)).
Proof. apply transact_spec. Qed.

(** ** Witnesses *)

Definition sample_env_with (publishes : bool) : Environment :=
  {| e_apply := fun _ backend => {| sys_lstat := sys_lstat sample_sys; sys_stat := sys_stat sample_sys;
       sys_move_mount := fun _ _ => 38; sys_bind_fds := fun _ _ => 0;
       sys_bind_paths := fun _ _ => EIO; sys_umount := fun _ => 0; sys_namespace := Some (4, 7) |};
     e_verify := fun _ => sample_sys; e_validate := fun _ => sample_sys;
     e_unmount := fun _ => sample_sys; e_confirm := fun _ => sample_sys;
     e_workspace := {| w_sources := [sample_source]; w_source_locators := [lit "/storage/emulated/0"];
                       w_targets := [sample_target; sample_target];
                       w_target_locators := [sample_locator; lit "/storage/emulated/0/Other"];
                       w_source_indexes := [0%nat; 0%nat] |};
     e_count := 2; e_required := kMountActionRedirect; e_allow_legacy := false;
     e_disposable := false; e_cancelled := fun _ => false; e_propagation := None;
     e_before := sample_snapshot; e_after_mounts := inl sample_snapshot;
     e_rollback_before := inl sample_snapshot; e_rollback_after := inr EIO; e_publishes := publishes;
     e_current := kApplying; e_current_stays := true |}.

Definition sample_env : Environment := sample_env_with true.

Definition sample_perf : Perf := {| perf_backend := kStrictOpenTree; perf_reason := kReasonNone |}.

(** The first backend is unavailable, the second mounts both rules. *)
Lemma transaction_atomic_witness :
  exists o, transact sample_env (start kStrictOpenTree false sample_perf) = Some o
    /\ committed sample_env o /\ o_backend o = kStrictProcFd.
Proof.
  destruct (transaction_atomic sample_env kStrictOpenTree false sample_perf) as (o & Ho & _ & Hend & _).
  - vm_compute. lia.
  - split; [|split]; intros e H; [discriminate H|discriminate H|injection H as <-; discriminate].
  - exists o. split; [exact Ho|].
    assert (o_complete o = true /\ o_backend o = kStrictProcFd) as [Hc Hb].
    { vm_compute in Ho. injection Ho as <-. split; reflexivity. }
    split; [|exact Hb]. destruct Hend as [Hend|[(_ & Hno & _) _]]; [exact Hend|congruence].
Defined.

(** When the commit cannot be published and the rollback does not succeed either, the namespace is
    reported as tainted and its members are terminated. *)
Example failed_rollback_taints :
  match transact (sample_env_with false) (start kStrictOpenTree false sample_perf) with
  | Some o =>
      o_complete o = false /\ rollback_failed (o_rollback o) = true /\ o_terminates o = true
      /\ o_report o = Some {| pub_from := kApplying; pub_to := kNamespaceTainted; pub_landed := true |}
  | None => False
  end.
Proof. vm_compute. by split_and!. Qed.
