(* ===== verification/RuntimeStatus.v ===== *)
(** * The runtime status record

    core/include/pathguard/runtime_status.h and the part of [WriteRuntimeStatus]
    (zygisk/src/module_entry.cpp) before the file is written: the record a companion
    derives from the end of a transaction, and its text. *)

From S2P Require Import Prelude ProcessPlan MountBackend Snapshot.

Local Open Scope pg_scope.

Inductive EnforcementState : Set := kInactive | kActive | kPendingRestart | kEnforcementFailed.

Inductive TransactionOutcome : Set :=
  | kOutcomeNone | kOutcomeComplete | kFailedPreflight | kOutcomeRollbackComplete
  | kOutcomeNamespaceTainted.

Inductive SecurityLevel : Set := kSecurityNone | kFdPinned | kLegacyToctou.

Inductive RuntimeReason : Set :=
  | kRuntimeNone | kRuntimeCapabilityMissing | kRuntimeLegacyNotAuthorized
  | kRuntimeUnsupportedAction | kTopologyChanged | kPolicyChanged | kPreflightFailed
  | kApplyFailed | kRollbackFailed | kOwnerDeath.

Record RuntimeStatusRecord : Type := {
  rs_version : Z;
  rs_pid : Z;
  rs_uid : Z;
  rs_process_start_time : Z;
  rs_snapshot_generation : Z;
  rs_plan_generation : Z;
  rs_topology_generation : Z;
  rs_enforcement : EnforcementState;
  rs_backend : Z;
  rs_transaction : TransactionOutcome;
  rs_security : SecurityLevel;
  rs_reason : RuntimeReason;
  rs_error : Z;
}.

(** The fields of [MountPerfResult] that are read, as they are stored. *)
Record MountPerfResult : Type := {
  mp_result : Z;
  mp_backend : Z;
  mp_backend_reason : Z;
  mp_failure_stage : Z;
  mp_rollback_failed : Z;
  mp_runtime_reason : Z;
}.

Definition backend_value (b : MountBackendKind) : Z :=
  match b with kUnsupported => 0 | kStrictOpenTree => 1 | kStrictProcFd => 2 | kLegacyString => 3 end.

Definition backend_reason_value (r : MountBackendReason) : Z :=
  match r with
  | kReasonNone => 0 | kCapabilityMissing => 1 | kLegacyNotAuthorized => 2 | kUnsupportedAction => 3
  end.

(** [static_cast<RuntimeReason>]; a value outside the enumeration has no name and is
    printed by the default of [ReasonName], as [kPreflightFailed] is. *)
Definition runtime_reason_of (value : Z) : RuntimeReason :=
  match value with
  | 0 => kRuntimeNone
  | 1 => kRuntimeCapabilityMissing
  | 2 => kRuntimeLegacyNotAuthorized
  | 3 => kRuntimeUnsupportedAction
  | 4 => kTopologyChanged
  | 5 => kPolicyChanged
  | 6 => kPreflightFailed
  | 7 => kApplyFailed
  | 8 => kRollbackFailed
  | 9 => kOwnerDeath
  | _ => kPreflightFailed
  end.

Definition EnforcementName (value : EnforcementState) : bytes :=
  match value with
  | kInactive => lit "inactive"
  | kActive => lit "active"
  | kPendingRestart => lit "pending_restart"
  | kEnforcementFailed => lit "failed"
  end.

Definition TransactionName (value : TransactionOutcome) : bytes :=
  match value with
  | kOutcomeNone => lit "none"
  | kOutcomeComplete => lit "complete"
  | kFailedPreflight => lit "failed_preflight"
  | kOutcomeRollbackComplete => lit "rollback_complete"
  | kOutcomeNamespaceTainted => lit "namespace_tainted"
  end.

Definition SecurityName (value : SecurityLevel) : bytes :=
  match value with
  | kSecurityNone => lit "none"
  | kFdPinned => lit "fd_pinned"
  | kLegacyToctou => lit "legacy_toctou"
  end.

Definition ReasonName (value : RuntimeReason) : bytes :=
  match value with
  | kRuntimeNone => lit "none"
  | kRuntimeCapabilityMissing => lit "capability_missing"
  | kRuntimeLegacyNotAuthorized => lit "legacy_not_authorized"
  | kRuntimeUnsupportedAction => lit "unsupported_action"
  | kTopologyChanged => lit "topology_changed"
  | kPolicyChanged => lit "policy_changed"
  | kPreflightFailed => lit "preflight_failed"
  | kApplyFailed => lit "apply_failed"
  | kRollbackFailed => lit "rollback_failed"
  | kOwnerDeath => lit "owner_death"
  end.

Definition status_reason (mount : MountPerfResult) (state : MountTransactionState) : RuntimeReason :=
  if negb (mp_runtime_reason mount =? 0) then runtime_reason_of (mp_runtime_reason mount)
  else if mp_result mount =? EOWNERDEAD then kOwnerDeath
  else if negb (mp_rollback_failed mount =? 0) || (state == kNamespaceTainted) then kRollbackFailed
  else if mp_backend_reason mount =? backend_reason_value kLegacyNotAuthorized
  then kRuntimeLegacyNotAuthorized
  else if mp_backend_reason mount =? backend_reason_value kUnsupportedAction
  then kRuntimeUnsupportedAction
  else if mp_backend_reason mount =? backend_reason_value kCapabilityMissing
  then kRuntimeCapabilityMissing
  else if mp_result mount =? ESTALE then kPolicyChanged
  else if negb (mp_failure_stage mount =? 0) then kApplyFailed
  else if negb (mp_result mount =? 0) then kPreflightFailed
  else kRuntimeNone.

(** The record [WriteRuntimeStatus] fills. *)
Definition runtime_status (pid uid start_time snapshot_generation plan_generation
    topology_generation : Z) (mount : MountPerfResult) (state : MountTransactionState)
    : RuntimeStatusRecord :=
  {| rs_version := 1; rs_pid := pid; rs_uid := uid; rs_process_start_time := start_time;
     rs_snapshot_generation := snapshot_generation; rs_plan_generation := plan_generation;
     rs_topology_generation := topology_generation;
     rs_enforcement := if state == kComplete then kActive else kEnforcementFailed;
     rs_backend := mp_backend mount mod 2 ^ 8;
     rs_transaction :=
       if state == kComplete then kOutcomeComplete
       else if state == kNamespaceTainted then kOutcomeNamespaceTainted
       else if state == kRollbackComplete then kOutcomeRollbackComplete
       else kFailedPreflight;
     rs_security :=
       if mp_backend mount =? backend_value kLegacyString then kLegacyToctou
       else if (mp_backend mount =? backend_value kStrictOpenTree)
               || (mp_backend mount =? backend_value kStrictProcFd)
       then kFdPinned else kSecurityNone;
     rs_reason := status_reason mount state;
     rs_error := mp_result mount |}.

Definition line (key value : bytes) : bytes := key ++ lit "=" ++ value ++ [x0a].

Definition status_text (process_name : bytes) (r : RuntimeStatusRecord) : bytes :=
  line (lit "version") (lit "1")
  ++ line (lit "pid") (print_int (rs_pid r))
  ++ line (lit "uid") (to_string (rs_uid r))
  ++ line (lit "process_start_time") (to_string (rs_process_start_time r))
  ++ line (lit "process") process_name
  ++ line (lit "enforcement") (EnforcementName (rs_enforcement r))
  ++ line (lit "backend") (to_string (rs_backend r))
  ++ line (lit "transaction") (TransactionName (rs_transaction r))
  ++ line (lit "security") (SecurityName (rs_security r))
  ++ line (lit "reason") (ReasonName (rs_reason r))
  ++ line (lit "error") (print_int (rs_error r))
  ++ line (lit "snapshot_generation") (to_string (rs_snapshot_generation r))
  ++ line (lit "plan_generation") (to_string (rs_plan_generation r))
  ++ line (lit "topology_generation") (to_string (rs_topology_generation r)).

Definition kStatusTextCapacity : Z := 1536.

(** ** Lemmas *)

Lemma print_int_size z : -(2 ^ 31) <= z < 2 ^ 31 -> size (print_int z) <= 11.
Proof.
  intros Hz. unfold print_int. destruct (Z.ltb_spec z 0).
  - rewrite size_app. pose proof (to_string_size 10 (2 ^ 31 + 1) (- z) ltac:(lia) eq_refl).
    change (size (lit "-")) with 1. lia.
  - pose proof (to_string_size 10 (2 ^ 31) z ltac:(lia) eq_refl). lia.
Qed.

Lemma line_size key value : size (line key value) = size key + size value + 2.
Proof. unfold line. rewrite !size_app, !size_cons, size_nil. change (size (lit "=")) with 1. lia. Qed.

(** ** Properties *)

(** The status of a process whose name fits the plan is never lost to the size of
    its text: for any identifiers, generations and outcome the text is shorter than
    the buffer it is printed to. *)
Theorem status_text_fits pid uid start_time snapshot_generation plan_generation
    topology_generation mount state process_name :
  size process_name < kMaxProcessNameBytes ->
  -(2 ^ 31) <= pid < 2 ^ 31 -> 0 <= uid < 2 ^ 32 -> -(2 ^ 31) <= mp_result mount < 2 ^ 31 ->
  Forall (fun v => 0 <= v < 2 ^ 64)
    [start_time; snapshot_generation; plan_generation; topology_generation] ->
  0 < size (status_text process_name
              (runtime_status pid uid start_time snapshot_generation plan_generation
                 topology_generation mount state)) < kStatusTextCapacity.
Proof.
  intros Hname Hpid Huid Hres Hgen. rewrite !Forall_cons in Hgen.
  destruct Hgen as (Hstart & Hsnap & Hplan & Htopo & _).
  pose proof (print_int_size pid Hpid). pose proof (print_int_size (mp_result mount) Hres).
  assert (forall v, 0 <= v < 2 ^ 64 -> size (to_string v) <= 20) as H64
    by (intros v Hv; by apply (to_string_size 20 (2 ^ 64))).
  pose proof (to_string_size 10 (2 ^ 32) uid Huid eq_refl).
  pose proof (H64 _ Hstart). pose proof (H64 _ Hsnap). pose proof (H64 _ Hplan). pose proof (H64 _ Htopo).
  assert (size (to_string (mp_backend mount mod 2 ^ 8)) <= 3)
    by (apply (to_string_size 3 (2 ^ 8)); [apply Z.mod_pos_bound; lia|reflexivity]).
  assert (forall e, size (EnforcementName e) <= 15) by (intros []; vm_compute; discriminate).
  assert (forall e, size (TransactionName e) <= 17) by (intros []; vm_compute; discriminate).
  assert (forall e, size (SecurityName e) <= 13) by (intros []; vm_compute; discriminate).
  assert (forall e, size (ReasonName e) <= 21) by (intros []; vm_compute; discriminate).
  unfold status_text, kMaxProcessNameBytes, kStatusTextCapacity in *.
  rewrite !size_app, !line_size. cbn [runtime_status rs_pid rs_uid rs_process_start_time
    rs_enforcement rs_backend rs_transaction rs_security rs_reason rs_error rs_snapshot_generation
    rs_plan_generation rs_topology_generation].
  repeat match goal with
  | H : forall e : ?T, size (?f e) <= _ |- context [size (?f ?x)] =>
      lazymatch goal with K : size (f x) <= _ |- _ => fail | _ => pose proof (H x) end
  end.
  repeat match goal with |- context [size (lit ?s)] =>
    let v := eval vm_compute in (size (lit s)) in change (size (lit s)) with v end.
  pose proof (size_nonneg process_name).
  repeat match goal with |- context [size ?x] => lazymatch goal with
    | K : 0 <= size x |- _ => fail | _ => pose proof (size_nonneg x) end end.
  lia.
Qed.

Definition sample_mount : MountPerfResult :=
  {| mp_result := 116; mp_backend := 1; mp_backend_reason := 0; mp_failure_stage := 3;
     mp_rollback_failed := 0; mp_runtime_reason := 5 |}.

Lemma status_text_fits_witness :
  0 < size (status_text (lit "com.example.app")
              (runtime_status 4321 10123 99 7 8 9 sample_mount kRollbackComplete))
    < kStatusTextCapacity.
Proof.
  refine (status_text_fits 4321 10123 99 7 8 9 sample_mount kRollbackComplete
            (lit "com.example.app") _ _ _ _ _).
  - vm_compute. reflexivity.
  - lia.
  - lia.
  - vm_compute. split; [discriminate|reflexivity].
  - repeat (constructor; [lia|]). constructor.
Defined.
