(* ===== verification/ProcessIdentity.v ===== *)
(** * The identity of a process (zygisk/src/module_entry.cpp)

    What the companion reads of a process in /proc, and how long it waits for the process to
    leave the zygote: [ReadProcessUid], [ReadProcessStartTime], [ReadProcessContext],
    [WaitForProcessReady]; and the members of a mount namespace, which it terminates when a
    worker died with mounts in place. A file is the text it holds, [None] when it cannot be
    opened. *)

From S2P Require Import Prelude Topology Snapshot MountBackend MountExecutor MountTransaction.

Local Open Scope pg_scope.

(** ** stdio *)

(** [fgets] with a buffer of [S room] bytes: the line, which keeps its end, and what is left. *)
Fixpoint fgets (room : nat) (s : bytes) : bytes * bytes :=
  match room, s with
  | O, _ | _, [] => ([], s)
  | S room, c :: s =>
      if c == x0a then ([c], s) else let '(line, rest) := fgets room s in (c :: line, rest)
  end.

(** The lines a loop of [fgets] reads, until the end of the file. *)
Fixpoint fgets_lines (fuel : nat) (room : nat) (s : bytes) : list bytes :=
  match fuel, s with
  | O, _ | _, [] => []
  | S fuel, _ => let '(line, rest) := fgets room s in line :: fgets_lines fuel room rest
  end.

Definition lines_of (room : nat) (s : bytes) : list bytes := fgets_lines (length s) room s.

(** [sscanf] of [%u]: white space, a sign, digits; a number that does not fit is the largest. *)
Definition scan_unsigned (s : bytes) : option Z :=
  let '(negative, s) := c_sign (skip_space s) in
  let '(digits, _) := span_digits s in
  match digits with
  | [] => None
  | _ =>
      value ← digits_value 0 digits;
      Some (u32 (if 2 ^ 64 <=? value then 2 ^ 64 - 1 else if negative then - value else value))
  end.

(** [strstr(s, text) != nullptr] *)
Fixpoint has_text (text s : bytes) : bool :=
  starts_with text s || match s with [] => false | _ :: s => has_text text s end.

(** [strrchr(s, c)]: what follows the last [c]. *)
Fixpoint after_last (c : byte) (s : bytes) : option bytes :=
  match s with
  | [] => None
  | x :: s' => match after_last c s' with
               | Some rest => Some rest
               | None => if x == c then Some s' else None
               end
  end.

(** ** /proc/<pid> *)

(** [sscanf(line, "Uid:\t%u")]: the white space of the format matches any white space. *)
Definition scan_uid (line : bytes) : option Z :=
  if starts_with (lit "Uid:") line then scan_unsigned (skip_space (drop 4 line)) else None.

Fixpoint find_uid (lines : list bytes) (expected_uid : Z) : bool :=
  match lines with
  | [] => false
  | line :: rest =>
      match scan_uid (c_str line) with
      | Some real_uid => real_uid =? expected_uid
      | None => find_uid rest expected_uid
      end
  end.

Definition ReadProcessUid (status : option bytes) (expected_uid : Z) : bool :=
  match status with
  | None => false
  | Some text => find_uid (lines_of 255 text) expected_uid
  end.

Fixpoint skip_blanks (s : bytes) : bytes :=
  match s with x20 :: s' => skip_blanks s' | _ => s end.

(** One turn of the loop over the fields. *)
Definition next_field (current : bytes) : option bytes :=
  match cut x20 current with
  | (_, Some rest) => Some (skip_blanks rest)
  | (_, None) => None
  end.

Fixpoint skip_fields (n : nat) (current : bytes) : option bytes :=
  match n with
  | O => Some current
  | S n => current ← next_field current; skip_fields n current
  end.

Definition ReadProcessStartTime (stat : option bytes) : option Z :=
  text ← stat;
  if text == [] then None
  else
    let line := c_str (fgets 4095 text).1 in
    rest ← after_last x29 line;
    match rest with
    | x20 :: current =>
        current ← skip_fields 19 current;
        '(value, _) ← strtoull current;
        Some value
    | _ => None
    end.

(** [strcspn(context, "\r\n")] and the terminator it places. *)
Fixpoint until_line_end (s : bytes) : bytes :=
  match s with
  | [] => []
  | c :: s => if (c == x0d) || (c == x0a) then [] else c :: until_line_end s
  end.

Definition ReadProcessContext (attr : option bytes) (context_size : nat) : option bytes :=
  if (context_size <? 2)%nat then None
  else
    text ← attr;
    if text == [] then None
    else
      let context := until_line_end (c_str (fgets (context_size - 1) text).1) in
      if context == [] then None else Some context.

(** ** Waiting for the process *)

Definition kProcessReadyTimeoutMs : Z := 5000.

Inductive ProcessReadyResult : Set := kReady | kTimedOut | kCancelled.

(** What one turn of the loop sees. *)
Record Poll : Type := {
  poll_cancelled : bool;
  poll_status : option bytes;
  poll_context : option bytes;
}.

Definition process_ready (expected_uid : Z) (p : Poll) : bool :=
  ReadProcessUid (poll_status p) expected_uid
  && match ReadProcessContext (poll_context p) 256 with
     | Some context => negb (has_text (lit "zygote") context)
     | None => false
     end.

Fixpoint wait_loop (fuel : nat) (expected_uid : Z) (polls : nat -> Poll) (turn : nat)
    (elapsed delay_ms : Z) : option (ProcessReadyResult * nat) :=
  if negb (elapsed <? kProcessReadyTimeoutMs) then Some (kTimedOut, turn)
  else
    match fuel with
    | O => None
    | S fuel =>
        if poll_cancelled (polls turn) then Some (kCancelled, turn)
        else if process_ready expected_uid (polls turn) then Some (kReady, turn)
        else
          wait_loop fuel expected_uid polls (S turn) (elapsed + delay_ms)
            (if delay_ms <? 10 then if 5 <=? delay_ms then 10 else delay_ms * 2 else delay_ms)
    end.

(** The result, and how many turns it took. *)
Definition WaitForProcessReady (expected_uid : Z) (polls : nat -> Poll)
    : option (ProcessReadyResult * nat) :=
  wait_loop 503 expected_uid polls 0 0 1.

(** ** The members of a mount namespace *)

(** The entries of /proc that the loop counts, and the numbers [kill] accepted; [None] when /proc
    cannot be opened. *)
Definition is_member (self : Z) (namespace : Z * Z) (entry : ProcEntry) : bool :=
  match pe_value entry with
  | Some value => negb ((value <=? 0) || (value =? self))
                  && bool_decide (pe_namespace entry = Some namespace)
  | None => false
  end.

Definition ScanNamespaceMembers (proc : option (list ProcEntry)) (self : Z) (namespace : Z * Z)
    (terminate : bool) (kill : Z -> bool) : nat * list Z :=
  match proc with
  | None => (0%nat, [])
  | Some entries =>
      let members := omap pe_value (filter (fun e => is_member self namespace e = true) entries) in
      (length members, if terminate then filter (fun pid => kill pid = true) members else [])
  end.

Record NamespaceTerminationResult : Type := {
  matched : nat;
  signaled : list Z;
  remaining : nat;
}.

(** [procs] is /proc at each scan, [kills] what [kill] says then. *)
Fixpoint terminate_loop (attempts : nat) (procs : nat -> option (list ProcEntry))
    (kills : nat -> Z -> bool) (self : Z) (namespace : Z * Z) (scan : nat)
    (result : NamespaceTerminationResult) : NamespaceTerminationResult :=
  match attempts with
  | O => result
  | S attempts =>
      let left := (ScanNamespaceMembers (procs scan) self namespace false (kills scan)).1 in
      let result := {| matched := matched result; signaled := signaled result; remaining := left |} in
      if bool_decide (left = 0%nat) then result
      else
        let more := (ScanNamespaceMembers (procs (S scan)) self namespace true (kills (S scan))).2 in
        terminate_loop attempts procs kills self namespace (S (S scan))
          {| matched := matched result; signaled := signaled result ++ more; remaining := left |}
  end.

Definition TerminateNamespaceMembers (procs : nat -> option (list ProcEntry))
    (kills : nat -> Z -> bool) (self : Z) (namespace : Z * Z) : NamespaceTerminationResult :=
  let '(matched, signaled) := ScanNamespaceMembers (procs 0%nat) self namespace true (kills 0%nat) in
  terminate_loop 20 procs kills self namespace 1
    {| matched := matched; signaled := signaled; remaining := 0 |}.

(** ** Lemmas: lines *)

Lemma fgets_line room l r :
  x0a ∉ l -> (length l < room)%nat -> fgets room (l ++ x0a :: r) = (l ++ [x0a], r).
Proof.
  revert room. induction l as [|c l IH]; intros [|room] Hl Hr; cbn in Hr |- *; try lia; [done|].
  apply not_elem_of_cons in Hl as [Hc Hl]. rewrite bool_decide_eq_false_2 by done.
  by rewrite IH by (done || lia).
Qed.

Lemma fgets_app room s : (fgets room s).1 ++ (fgets room s).2 = s.
Proof.
  revert room. induction s as [|c s IH]; intros [|room]; cbn; try done.
  case_bool_decide; [by subst|]. specialize (IH room). destruct (fgets room s) as [l r].
  cbn in *. by rewrite IH.
Qed.

Lemma fgets_prefix room l r :
  x0a ∉ l -> (length l <= room)%nat -> exists more, (fgets room (l ++ r)).1 = l ++ more.
Proof.
  revert room. induction l as [|c l IH]; intros room Hl Hr; cbn; [by eexists|].
  destruct room as [|room]; cbn in Hr; [lia|]. apply not_elem_of_cons in Hl as [Hc Hl]. cbn.
  rewrite bool_decide_eq_false_2 by done. destruct (IH room) as [more E]; [done|lia|].
  destruct (fgets room (l ++ r)) as [line rest]. cbn in *. exists more. by rewrite E.
Qed.

Lemma after_last_app c a b : c ∉ b -> after_last c (a ++ c :: b) = Some b.
Proof.
  intros Hb. assert (after_last c b = None) as E.
  { revert Hb. induction b as [|x b IH]; intros Hb; [done|].
    apply not_elem_of_cons in Hb as [Hx Hb]. cbn. rewrite IH by done.
    by rewrite bool_decide_eq_false_2. }
  induction a as [|x a IH]; cbn; [rewrite E; by rewrite bool_decide_eq_true_2|]. by rewrite IH.
Qed.

Lemma skip_blanks_id c s : c <> x20 -> skip_blanks (c :: s) = c :: s.
Proof. by destruct c. Qed.

Lemma next_field_app field c rest :
  x20 ∉ field -> c <> x20 -> next_field (field ++ x20 :: c :: rest) = Some (c :: rest).
Proof. intros Hf Hc. unfold next_field. rewrite cut_app by done. by rewrite skip_blanks_id. Qed.

(** A field of /proc/<pid>/stat. *)
Definition stat_field (field : bytes) : Prop := field <> [] /\ x20 ∉ field.

Lemma skip_fields_app fields c rest :
  Forall stat_field fields -> c <> x20 ->
  skip_fields (length fields) (concat (map (fun f => f ++ [x20]) fields) ++ c :: rest)
  = Some (c :: rest).
Proof.
  intros Hf Hc. induction fields as [|f fields IH]; [done|].
  apply Forall_cons in Hf as [[Hne Hsp] Hf]. cbn [length skip_fields map concat].
  rewrite <- !app_assoc. cbn [Datatypes.app].
  assert (exists d s, concat (map (fun f => f ++ [x20]) fields) ++ c :: rest = d :: s /\ d <> x20)
    as (d & s & E & Hd).
  { destruct fields as [|g fields]; [by eexists _, _|].
    apply Forall_cons in Hf as [[Hg Hgs] _]. destruct g as [|d g]; [done|].
    eexists d, _. split; [done|]. intros ->. apply Hgs. left. }
  rewrite E, next_field_app by done. cbn [mbind option_bind]. rewrite <- E. by apply IH.
Qed.

(** ** Lemmas: numbers *)

Lemma digit_plain b : is_digit b = true -> is_c_space b = false /\ b <> x2d /\ b <> x2b /\ b <> x20.
Proof. destruct b; intros H; first [discriminate H | by split_and!]. Qed.

Lemma to_string_head v : 0 <= v -> exists d s, to_string v = d :: s /\ is_digit d = true.
Proof.
  intros Hv. destruct (to_string_spec v) as [Hne Hd]; [done|]. apply digits_value_is_digit in Hd.
  destruct (to_string v) as [|d s]; [done|]. cbn in Hd. apply andb_true_iff in Hd as [Hd _]. eauto.
Qed.

Lemma unsigned_prefix v rest :
  0 <= v -> match rest with [] => True | c :: _ => is_digit c = false end ->
  c_sign (skip_space (to_string v ++ rest)) = (false, to_string v ++ rest)
  /\ span_digits (to_string v ++ rest) = (to_string v, rest).
Proof.
  intros Hv Hr. destruct (to_string_head v Hv) as (d & s & E & Hd).
  destruct (digit_plain d Hd) as (Hsp & Hm & Hp & _). split.
  - rewrite E. cbn [Datatypes.app skip_space]. rewrite Hsp. by destruct d.
  - apply span_digits_app; [|done]. destruct (to_string_spec v) as [_ Hd']; [done|].
    by eapply digits_value_is_digit.
Qed.

Lemma strtoull_to_string v rest :
  0 <= v < 2 ^ 64 -> match rest with [] => True | c :: _ => is_digit c = false end ->
  strtoull (to_string v ++ rest) = Some (v, rest).
Proof.
  intros Hv Hr. unfold strtoull. destruct (unsigned_prefix v rest) as [-> ->]; [lia|done|].
  by rewrite from_chars_to_string by done.
Qed.

Lemma scan_unsigned_to_string v rest :
  0 <= v < 2 ^ 32 -> match rest with [] => True | c :: _ => is_digit c = false end ->
  scan_unsigned (to_string v ++ rest) = Some v.
Proof.
  intros Hv Hr. unfold scan_unsigned. destruct (unsigned_prefix v rest) as [-> ->]; [lia|done|].
  destruct (to_string_spec v) as [Hne Hval]; [lia|]. rewrite Hval.
  destruct (to_string v) as [|d s]; [done|]. cbn [mbind option_bind].
  destruct (Z.leb_spec (2 ^ 64) v); [lia|]. by rewrite u32_small.
Qed.

(** ** Lemmas: the files of a process *)

(** The lines of a /proc/<pid>/status before the one with the uids. *)
Definition status_line (line : bytes) : Prop :=
  x0a ∉ line /\ x00 ∉ line /\ size line < 255 /\ starts_with (lit "Uid:") line = false.

Definition end_lines (lines : list bytes) : bytes := concat (map (fun l => l ++ [x0a]) lines).

Lemma starts_with_app_false p l r : starts_with p l = false -> (length p <= length l)%nat ->
  starts_with p (l ++ r) = false.
Proof.
  revert l. induction p as [|c p IH]; intros [|d l] H Hl; cbn in *; try done; [lia|].
  destruct (bool_decide (c = d)); [|done]. cbn in *. apply IH; [done|lia].
Qed.

Lemma scan_uid_status_line line : status_line line -> scan_uid (c_str (line ++ [x0a])) = None.
Proof.
  intros (_ & H0 & _ & Hs). rewrite c_str_no_nul.
  2: { intros [|H]%elem_of_app; [done|]. apply list_elem_of_singleton in H. discriminate H. }
  unfold scan_uid. destruct (starts_with (lit "Uid:") (line ++ [x0a])) eqn:E; [|done].
  apply starts_with_spec in E as [t E]. exfalso.
  destruct t as [|c t _] using rev_ind.
  - rewrite app_nil_r in E. assert (x0a ∈ lit "Uid:") as Hin.
    { rewrite <- E. apply elem_of_app. right. left. }
    assert (x0a ∉ lit "Uid:") by (by apply contains_false). done.
  - rewrite app_assoc in E. apply app_inj_tail in E as [-> _]. by rewrite starts_with_app in Hs.
Qed.

Lemma fgets_lines_fuel room fuel fuel' s :
  (0 < room)%nat -> (length s <= fuel)%nat -> (length s <= fuel')%nat ->
  fgets_lines fuel room s = fgets_lines fuel' room s.
Proof.
  intros Hr. revert fuel' s. induction fuel as [|fuel IH]; intros fuel' s Hf Hf'.
  { destruct s; [|cbn in Hf; lia]. by destruct fuel'. }
  destruct s as [|c s]; [by destruct fuel'|]. destruct fuel' as [|fuel']; [cbn in Hf'; lia|].
  cbn [fgets_lines]. pose proof (fgets_app room (c :: s)) as E.
  assert ((fgets room (c :: s)).1 <> []) as Hne.
  { destruct room; [lia|]. cbn. case_bool_decide; [done|]. by destruct (fgets room s). }
  destruct (fgets room (c :: s)) as [l r]. cbn in E, Hne.
  assert (length (c :: s) = length l + length r)%nat as Hl by (by rewrite <- E, length_app).
  destruct l; [done|]. cbn in Hl, Hf, Hf'. f_equal. apply IH; lia.
Qed.

Lemma lines_of_cons room l r :
  x0a ∉ l -> (length l < room)%nat ->
  lines_of room (l ++ x0a :: r) = (l ++ [x0a]) :: lines_of room r.
Proof.
  intros Hl Hr. unfold lines_of.
  assert (exists c s, l ++ x0a :: r = c :: s) as (c & s & E) by (destruct l; by eexists _, _).
  destruct (length (l ++ x0a :: r)) as [|fuel] eqn:En; [by rewrite E in En|].
  rewrite E. cbn [fgets_lines]. rewrite <- E, fgets_line by done. f_equal.
  rewrite length_app in En. cbn in En. apply fgets_lines_fuel; lia.
Qed.

Lemma find_uid_skips lines rest expected :
  Forall status_line lines ->
  find_uid (lines_of 255 (end_lines lines ++ rest)) expected = find_uid (lines_of 255 rest) expected.
Proof.
  induction 1 as [|line lines Hl _ IH]; [done|]. unfold end_lines. cbn [map concat].
  rewrite <- !app_assoc. cbn [Datatypes.app]. pose proof Hl as (Hn & _ & Hs & _).
  rewrite lines_of_cons by (done || (unfold size in Hs; lia)). cbn [find_uid].
  by rewrite scan_uid_status_line.
Qed.

Lemma c_str_app a b : x00 ∉ a -> c_str (a ++ b) = a ++ c_str b.
Proof.
  intros Ha. unfold c_str. induction a as [|c a IH]; [done|]. apply not_elem_of_cons in Ha as [Hc Ha].
  cbn. rewrite bool_decide_eq_false_2 by done. specialize (IH Ha).
  destruct (cut x00 (a ++ b)) as [part rest]. cbn in *. by rewrite IH.
Qed.

Lemma skip_space_number v r : 0 <= v -> skip_space (x09 :: to_string v ++ r) = to_string v ++ r.
Proof.
  intros Hv. destruct (to_string_head v Hv) as (d & s & E & Hd).
  destruct (digit_plain d Hd) as (Hsp & _). rewrite E. cbn -[is_c_space]. by rewrite Hsp.
Qed.

Lemma uid_text_plain c uid :
  c = x0a \/ c = x00 -> 0 <= uid -> c ∉ lit "Uid:" ++ [x09] ++ to_string uid ++ [x09].
Proof.
  intros Hc Hu H. destruct (to_string_spec uid Hu) as [_ Hd]. apply digits_value_is_digit in Hd.
  rewrite forallb_forall in Hd. repeat (apply elem_of_app in H as [H|H]).
  - assert (c ∉ lit "Uid:") by (apply contains_false; by destruct Hc as [-> | ->]). done.
  - apply list_elem_of_singleton in H. by destruct Hc; subst.
  - apply list_elem_of_In in H. apply Hd in H. by destruct Hc; subst.
  - apply list_elem_of_singleton in H. by destruct Hc; subst.
Qed.

(** The time and the next delay after [n] turns. *)
Definition on_schedule (n : nat) (elapsed delay_ms : Z) : Prop :=
  n = 0%nat /\ elapsed = 0 /\ delay_ms = 1 \/ n = 1%nat /\ elapsed = 1 /\ delay_ms = 2
  \/ n = 2%nat /\ elapsed = 3 /\ delay_ms = 4 \/ n = 3%nat /\ elapsed = 7 /\ delay_ms = 8
  \/ (4 <= n)%nat /\ elapsed = 15 + 10 * (Z.of_nat n - 4) /\ delay_ms = 10.

Lemma on_schedule_next n elapsed delay_ms :
  on_schedule n elapsed delay_ms ->
  on_schedule (S n) (elapsed + delay_ms)
    (if delay_ms <? 10 then if 5 <=? delay_ms then 10 else delay_ms * 2 else delay_ms).
Proof.
  unfold on_schedule.
  intros [(-> & -> & ->)|[(-> & -> & ->)|[(-> & -> & ->)|[(-> & -> & ->)|(Hn & -> & ->)]]]];
    cbn -[Z.of_nat Z.mul Z.add]; lia.
Qed.

Lemma on_schedule_bound n elapsed delay_ms :
  on_schedule n elapsed delay_ms -> (elapsed < kProcessReadyTimeoutMs <-> (n < 503)%nat).
Proof.
  unfold kProcessReadyTimeoutMs, on_schedule. lia.
Qed.

(** A turn that does not end the wait. *)
Definition undecided (expected_uid : Z) (p : Poll) : Prop :=
  poll_cancelled p = false /\ process_ready expected_uid p = false.

Lemma wait_loop_spec fuel uid polls turn elapsed delay_ms :
  on_schedule turn elapsed delay_ms -> (503 <= turn + fuel)%nat -> (turn <= 503)%nat ->
  (forall m, (m < turn)%nat -> undecided uid (polls m)) ->
  exists r n, wait_loop fuel uid polls turn elapsed delay_ms = Some (r, n) /\ (n <= 503)%nat
    /\ (forall m, (m < n)%nat -> undecided uid (polls m))
    /\ match r with
       | kReady => poll_cancelled (polls n) = false /\ process_ready uid (polls n) = true
       | kCancelled => poll_cancelled (polls n) = true
       | kTimedOut => n = 503%nat
       end.
Proof.
  revert turn elapsed delay_ms. induction fuel as [|fuel IH]; intros turn elapsed delay_ms Hs Hf Ht Hm;
    pose proof (on_schedule_bound _ _ _ Hs) as Hb; cbn [wait_loop];
    destruct (Z.ltb_spec elapsed kProcessReadyTimeoutMs); cbn [negb];
    try (exists kTimedOut, turn; split_and!; (done || lia)).
  destruct (poll_cancelled (polls turn)) eqn:Ec; [by exists kCancelled, turn|].
  destruct (process_ready uid (polls turn)) eqn:Er; [by exists kReady, turn|].
  apply IH; [by apply on_schedule_next|lia|lia|].
  intros m Hlt. destruct (decide (m = turn)) as [->|]; [done|]. apply Hm. lia.
Qed.

(** ** Properties *)

(** [ReadProcessStartTime] reads the start time of the process, the 22nd field of
    /proc/<pid>/stat, whatever the process is called: the name may hold blanks and closing
    parentheses and so imitate the fields that follow it. *)
Theorem process_start_time_exact pid comm fields value rest :
  Forall stat_field fields -> length fields = 19%nat -> 0 <= value < 2 ^ 64 ->
  let tail := concat (map (fun f => f ++ [x20]) fields) ++ to_string value ++ x20 :: rest in
  x29 ∉ tail ->
  let line := pid ++ lit " (" ++ comm ++ lit ") " ++ tail in
  x0a ∉ line -> x00 ∉ line -> size line < 4095 ->
  ReadProcessStartTime (Some (line ++ [x0a])) = Some value.
Proof.
  intros Hf Hn Hv tail Hp line Hnl Hnul Hs. unfold ReadProcessStartTime. cbn [mbind option_bind].
  rewrite bool_decide_eq_false_2 by (intros E%app_eq_nil; by destruct E).
  rewrite fgets_line by (done || (unfold size in Hs; lia)). cbn [fst]. rewrite c_str_no_nul.
  2: { intros [|H]%elem_of_app; [done|]. apply list_elem_of_singleton in H. discriminate H. }
  assert (line ++ [x0a] = (pid ++ lit " (" ++ comm) ++ x29 :: x20 :: tail ++ [x0a]) as ->.
  { unfold line. change (lit ") ") with [x29; x20]. by rewrite <- !app_assoc. }
  rewrite after_last_app.
  2: { intros [H|H]%elem_of_cons; [discriminate H|]. apply elem_of_app in H as [|H]; [done|].
       apply list_elem_of_singleton in H. discriminate H. }
  cbn [mbind option_bind]. destruct (to_string_head value) as (d & s & E & Hd); [lia|].
  destruct (digit_plain d Hd) as (_ & _ & _ & Hd20).
  unfold tail. rewrite <- !app_assoc. rewrite <- Hn, E. cbn [Datatypes.app].
  rewrite skip_fields_app by done. cbn [mbind option_bind].
  change (d :: s ++ x20 :: (rest ++ [x0a])) with ((d :: s) ++ x20 :: (rest ++ [x0a])). rewrite <- E.
  by rewrite strtoull_to_string.
Qed.

(** [ReadProcessUid] compares the real uid of the process: the first number of the line
    "Uid:" of /proc/<pid>/status, whatever the name and the other lines before it say. *)
Theorem process_uid_exact lines uid rest expected :
  Forall status_line lines -> 0 <= uid < 2 ^ 32 ->
  ReadProcessUid (Some (end_lines lines ++ lit "Uid:" ++ [x09] ++ to_string uid ++ x09 :: rest)) expected
  = (uid =? expected).
Proof.
  intros Hl Hu. unfold ReadProcessUid. rewrite find_uid_skips by done.
  set (text := lit "Uid:" ++ [x09] ++ to_string uid ++ x09 :: rest).
  assert (exists more, (fgets 255 text).1 = (lit "Uid:" ++ [x09] ++ to_string uid ++ [x09]) ++ more)
    as [more E].
  { assert (text = (lit "Uid:" ++ [x09] ++ to_string uid ++ [x09]) ++ rest) as ->
      by (unfold text; by rewrite <- !app_assoc).
    apply fgets_prefix; [apply uid_text_plain; [by left|lia]|].
    pose proof (to_string_size 10 (2 ^ 32) uid Hu eq_refl). rewrite !length_app.
    change (length (lit "Uid:")) with 4%nat. cbn [length]. unfold size in *. lia. }
  unfold lines_of. destruct (length text) eqn:En; [done|]. cbn [fgets_lines].
  destruct text as [|c t] eqn:Et; [done|]. rewrite <- Et in *.
  destruct (fgets 255 text) as [line left]. cbn [fst] in E. subst line. cbn [find_uid].
  rewrite c_str_app by (apply uid_text_plain; [by right|lia]). rewrite <- !app_assoc. unfold scan_uid.
  rewrite starts_with_app. rewrite (drop_app_length (lit "Uid:") _ : drop 4 (lit "Uid:" ++ _) = _).
  cbn [Datatypes.app]. rewrite skip_space_number by lia.
  by rewrite scan_unsigned_to_string.
Qed.

(** [WaitForProcessReady] always returns, after at most 503 looks at the process: with the
    first look that decides. It says ready only of a process that has the expected uid and a
    context other than the zygote's, cancelled only if the application cancelled, and timed out
    only after 503 looks that decided nothing. *)
Theorem wait_for_process_ready_decides uid polls :
  exists r n, WaitForProcessReady uid polls = Some (r, n) /\ (n <= 503)%nat
    /\ (forall m, (m < n)%nat -> undecided uid (polls m))
    /\ match r with
       | kReady => poll_cancelled (polls n) = false /\ process_ready uid (polls n) = true
       | kCancelled => poll_cancelled (polls n) = true
       | kTimedOut => n = 503%nat
       end.
Proof.
  apply wait_loop_spec; [by left|lia|lia|]. intros m Hm. lia.
Qed.

(** ** Lemmas: the members of a namespace *)

Lemma ScanNamespaceMembers_spec proc self namespace terminate kill :
  let '(matched, signaled) := ScanNamespaceMembers proc self namespace terminate kill in
  (forall pid, pid ∈ signaled -> 0 < pid /\ pid <> self /\ kill pid = true /\ terminate = true
     /\ exists entries e, proc = Some entries /\ e ∈ entries /\ pe_value e = Some pid
                          /\ pe_namespace e = Some namespace)
  /\ (matched = 0%nat -> forall entries e, proc = Some entries -> e ∈ entries ->
        is_member self namespace e = false).
Proof.
  unfold ScanNamespaceMembers. destruct proc as [entries|]; [|split; [intros pid H; by apply elem_of_nil in H|done]].
  split.
  - intros pid H. destruct terminate; [|by apply elem_of_nil in H].
    apply list_elem_of_filter in H as [Hk (e & He & Hv)%list_elem_of_omap].
    apply list_elem_of_filter in He as [He Hin]. unfold is_member in He. rewrite Hv in He.
    apply andb_true_iff in He as [He Hns]. apply negb_true_iff, orb_false_iff in He as [Hp Hs].
    apply Z.leb_gt in Hp. apply Z.eqb_neq in Hs. apply bool_decide_eq_true in Hns.
    split_and!; try done. by exists entries, e.
  - intros H entries' e [= <-] Hin. destruct (is_member self namespace e) eqn:E; [|done].
    exfalso. unfold is_member in E. destruct (pe_value e) as [v|] eqn:Ev; [|done].
    assert (v ∈ omap pe_value (filter (fun e => is_member self namespace e = true) entries)) as Hv.
    { apply list_elem_of_omap. exists e. split; [|done]. apply list_elem_of_filter. split; [|done].
      unfold is_member. by rewrite Ev. }
    apply list_elem_of_lookup in Hv as [i Hi]. apply lookup_lt_Some in Hi. lia.
Qed.

(** The processes that were signalled were members of the namespace in some scan, and never the
    companion; a result that leaves none means a scan of /proc that found none. *)
Definition termination_sound (procs : nat -> option (list ProcEntry)) (self : Z) (namespace : Z * Z)
    (result : NamespaceTerminationResult) : Prop :=
  (forall pid, pid ∈ signaled result -> 0 < pid /\ pid <> self
     /\ exists n entries e, procs n = Some entries /\ e ∈ entries /\ pe_value e = Some pid
                            /\ pe_namespace e = Some namespace).

Lemma terminate_loop_sound attempts procs kills self namespace scan result :
  termination_sound procs self namespace result -> (0 < attempts)%nat ->
  termination_sound procs self namespace
    (terminate_loop attempts procs kills self namespace scan result)
  /\ (remaining (terminate_loop attempts procs kills self namespace scan result) = 0%nat ->
      exists n, (scan <= n)%nat /\ forall entries e, procs n = Some entries -> e ∈ entries ->
        is_member self namespace e = false).
Proof.
  revert scan result. induction attempts as [|attempts IH]; intros scan result Hr Ha; [lia|].
  cbn [terminate_loop]. cbv zeta.
  pose proof (ScanNamespaceMembers_spec (procs scan) self namespace false (kills scan)) as S1.
  destruct (ScanNamespaceMembers (procs scan) self namespace false (kills scan)) as [left s1].
  cbn [fst]. case_bool_decide as Hleft.
  { split; [exact Hr|]. intros _. exists scan. split; [lia|]. by apply S1. }
  pose proof (ScanNamespaceMembers_spec (procs (S scan)) self namespace true (kills (S scan))) as S2.
  destruct (ScanNamespaceMembers (procs (S scan)) self namespace true (kills (S scan))) as [m s2].
  destruct S2 as [S2 _]. cbn [snd].
  assert (termination_sound procs self namespace
    {| matched := matched result; signaled := signaled result ++ s2; remaining := left |}) as Hr'.
  { intros pid [H|H]%elem_of_app; [by apply Hr|].
    destruct (S2 pid H) as (? & ? & _ & _ & entries & e & ? & ? & ? & ?).
    split; [done|]. split; [done|]. by exists (S scan), entries, e. }
  destruct attempts as [|attempts].
  { split; [exact Hr'|]. cbn. done. }
  destruct (IH (S (S scan)) _ Hr') as [IH1 IH2]; [lia|]. split; [done|].
  intros Hrem. destruct (IH2 Hrem) as (n & Hn & H). exists n. split; [lia|done].
Qed.

Lemma TerminateNamespaceMembers_sound procs kills self namespace :
  let result := TerminateNamespaceMembers procs kills self namespace in
  termination_sound procs self namespace result
  /\ (remaining result = 0%nat ->
      exists n, (1 <= n)%nat /\ forall entries e, procs n = Some entries -> e ∈ entries ->
        is_member self namespace e = false).
Proof.
  cbv zeta. unfold TerminateNamespaceMembers.
  pose proof (ScanNamespaceMembers_spec (procs 0%nat) self namespace true (kills 0%nat)) as S1.
  destruct (ScanNamespaceMembers (procs 0%nat) self namespace true (kills 0%nat)) as [m s1].
  destruct S1 as [S1 _]. apply terminate_loop_sound; [|lia].
  intros pid H. destruct (S1 pid H) as (? & ? & _ & _ & entries & e & ? & ? & ? & ?).
  split; [done|]. split; [done|]. by exists 0%nat, entries, e.
Qed.

(** ** Witnesses *)

(** A process that calls itself "a) R 0". *)
Lemma process_start_time_exact_witness :
  ReadProcessStartTime (Some (lit "4242 (a) R 0) S 812 0 0 0 -1 0 0 0 0 0 0 0 0 0 20 0 1 0 987654 0" ++ [x0a]))
  = Some 987654.
Proof.
  apply (process_start_time_exact (lit "4242") (lit "a) R 0")
    [lit "S"; lit "812"; lit "0"; lit "0"; lit "0"; lit "-1"; lit "0"; lit "0"; lit "0"; lit "0";
     lit "0"; lit "0"; lit "0"; lit "0"; lit "0"; lit "20"; lit "0"; lit "1"; lit "0"]
    987654 (lit "0")).
  - repeat (constructor; [split; [discriminate|by apply contains_false]|]). constructor.
  - reflexivity.
  - lia.
  - by apply contains_false.
  - by apply contains_false.
  - by apply contains_false.
  - reflexivity.
Defined.

(** A process that calls itself "Uid: 0" cannot pass for root. *)
Lemma process_uid_exact_witness :
  ReadProcessUid (Some (end_lines [lit "Name:" ++ x09 :: lit "Uid: 0"] ++ lit "Uid:" ++ [x09]
                        ++ to_string 10123 ++ x09 :: lit "10123")) 0 = false.
Proof.
  rewrite (process_uid_exact [lit "Name:" ++ x09 :: lit "Uid: 0"] 10123 (lit "10123") 0).
  - reflexivity.
  - repeat constructor; by apply contains_false.
  - lia.
Defined.
