(* ===== verification/RuntimeTopology.v ===== *)
(** * The storage topology of a transaction (zygisk/src/module_entry.cpp)

    [CaptureStorageTopologyFromSnapshot] pins the storage an application sees and a second path
    to the same file system, under which the redirect targets are opened. The companion captures
    it before it forks the worker; the worker captures it again before it takes the lease and
    compares. *)

From S2P Require Import Prelude Path PolicyFormat Snapshot Resolver MountExecutor Pin.

Local Open Scope pg_scope.

Record RuntimeStorageTopology : Type := {
  user_id : Z;
  generation : Z;
  visible_root : bytes;
  source_root : bytes;
  visible_identity : MountPathIdentity;
  source_identity : MountPathIdentity;
}.

Definition kTopologyTextCapacity : Z := PATH_MAX * 2 + 512.

(** The text that [TopologyGeneration] prints. *)
Definition topology_text (topology : RuntimeStorageTopology) : bytes :=
  let identity m :=
    to_string (i_mount_id m) ++ lit "|" ++ to_string (i_parent_mount_id m) ++ lit "|"
    ++ to_string (i_device m) ++ lit "|" ++ i_root m ++ lit "|" ++ i_filesystem m in
  lit "PGTOPO1|" ++ to_string (user_id topology) ++ lit "|" ++ visible_root topology ++ lit "|"
  ++ source_root topology ++ lit "|" ++ identity (visible_identity topology) ++ lit "|"
  ++ identity (source_identity topology).

Definition TopologyGeneration (topology : RuntimeStorageTopology) : Z :=
  let canonical := topology_text topology in
  if kTopologyTextCapacity <=? size canonical then 0 else Fnv1a64 canonical.

Definition user_of (uid : Z) : Z := u32 uid / 100000.

Definition visible_root_of (user : Z) : bytes := lit "/storage/emulated/" ++ to_string user.

(** The candidate paths, cut to their buffers. *)
Definition candidates (required_source_root : bytes) (user : Z) : list bytes :=
  if required_source_root != [] then [locator required_source_root]
  else [lit "/mnt/user/" ++ to_string user ++ lit "/emulated/" ++ to_string user;
        lit "/mnt/runtime/default/emulated/" ++ to_string user;
        lit "/mnt/pass_through/" ++ to_string user ++ lit "/emulated/" ++ to_string user].

Section Capture.
Context {Node : Type} (k : Kernel Node).

Definition same_plane (pinned : PinnedIdentity) (visible : MountPathIdentity) : bool :=
  (p_device pinned =? i_device visible) && (i_filesystem (p_mount pinned) == i_filesystem visible).

(** The loop over the candidates: the one that is taken, and its mount. *)
Fixpoint find_source (snapshot : MountInfoSnapshot) (visible : MountPathIdentity)
    (paths : list bytes) : os Node (option (bytes * MountPathIdentity)) :=
  match paths with
  | [] => mret None
  | path :: rest =>
      '(e, pinned) ← PinDirectory k snapshot path unpinned;
      if negb (e =? 0) then find_source snapshot visible rest
      else
        ClosePinnedIdentity pinned;;
        if same_plane pinned visible then mret (Some (path, p_mount pinned))
        else find_source snapshot visible rest
  end.

(** [None] is a capture that returned false. *)
Definition CaptureStorageTopologyFromSnapshot (uid : Z) (required_source_root : bytes)
    (snapshot : MountInfoSnapshot) : os Node (option RuntimeStorageTopology) :=
  let user := user_of uid in
  '(e, visible) ← PinDirectory k snapshot (visible_root_of user) unpinned;
  if negb (e =? 0) then mret None
  else
    ClosePinnedIdentity visible;;
    source ← find_source snapshot (p_mount visible) (candidates required_source_root user);
    match source with
    | None => mret None
    | Some (path, identity) =>
        let topology generation :=
          {| user_id := user; generation := generation; visible_root := visible_root_of user;
             source_root := path; visible_identity := p_mount visible; source_identity := identity |} in
        let generation := TopologyGeneration (topology 0) in
        if generation =? 0 then mret None else mret (Some (topology generation))
    end.
End Capture.

Definition SameStorageTopology (expected actual : RuntimeStorageTopology) : bool :=
  (generation expected != 0) && (generation actual != 0)
  && (user_id expected =? user_id actual)
  && (visible_root expected == visible_root actual)
  && (source_root expected == source_root actual)
  && (i_device (visible_identity expected) =? i_device (visible_identity actual))
  && (i_device (source_identity expected) =? i_device (source_identity actual))
  && (i_root (visible_identity expected) == i_root (visible_identity actual))
  && (i_root (source_identity expected) == i_root (source_identity actual))
  && (i_filesystem (visible_identity expected) == i_filesystem (visible_identity actual))
  && (i_filesystem (source_identity expected) == i_filesystem (source_identity actual)).

(** ** Lemmas *)

Section Captured.
Context {Node : Type} (k : Kernel Node) (fs_entry : nat -> Node -> bytes -> option Node).
Context `{!KernelOf k fs_entry}.

(** A path was pinned, on the mount the table gives for it, and the pin closed again. *)
Definition was_pinned (snapshot : MountInfoSnapshot) (path : bytes) (mount : MountPathIdentity) : Prop :=
  exists s s' identity, pinned_at k fs_entry snapshot path s s' identity /\ p_mount identity = mount.

Lemma find_source_spec snapshot visible paths s :
  usable snapshot ->
  exists r s', find_source k snapshot visible paths s = Ok (r, s') /\ open_fds s' = open_fds s
    /\ match r with
       | None => True
       | Some (path, mount) => path ∈ paths /\ was_pinned snapshot path mount
           /\ i_device mount = i_device visible /\ i_filesystem mount = i_filesystem visible
       end.
Proof.
  intros Hu. revert s. induction paths as [|path rest IH]; intros s; [by exists None, s|].
  cbn [find_source].
  destruct (PinDirectory_spec k fs_entry snapshot path unpinned s Hu) as (e & pin & s1 & E & _ & H).
  rewrite (os_bind_run _ _ _ _ _ E).
  destruct H as [(He & Hpin & Ho)|(-> & Hpin)].
  { destruct (Z.eqb_spec e 0); [done|]. cbn [negb].
    destruct (IH s1) as (r & s2 & E2 & Ho2 & Hr). exists r, s2. split; [done|].
    split; [congruence|]. destruct r as [[p m]|]; [|done]. destruct Hr as [Hin Hr].
    split; [by right|done]. }
  cbn [Z.eqb negb]. destruct (close_pin k fs_entry _ _ _ _ _ s1 Hpin eq_refl) as (s2 & E2 & Ho2).
  rewrite (os_bind_run _ _ _ _ _ E2).
  destruct (same_plane pin visible) eqn:Hs.
  - exists (Some (path, p_mount pin)), s2. split; [done|]. split; [done|].
    unfold same_plane in Hs. apply andb_true_iff in Hs as [Hd%Z.eqb_eq Hf%bool_decide_eq_true].
    split; [left|]. split; [by exists s, s1, pin|]. split; [|done].
    destruct Hpin as (_ & _ & _ & i & m & _ & -> & Hdev & _). cbn. congruence.
  - destruct (IH s2) as (r & s3 & E3 & Ho3 & Hr). exists r, s3. split; [done|].
    split; [congruence|]. destruct r as [[p m]|]; [|done]. destruct Hr as [Hin Hr].
    split; [by right|done].
Qed.

(** What a captured topology says of the device. *)
Definition topology_of (snapshot : MountInfoSnapshot) (uid : Z) (required : bytes)
    (t : RuntimeStorageTopology) : Prop :=
  user_id t = user_of uid /\ visible_root t = visible_root_of (user_of uid)
  /\ was_pinned snapshot (visible_root t) (visible_identity t)
  /\ source_root t ∈ candidates required (user_of uid)
  /\ was_pinned snapshot (source_root t) (source_identity t)
  /\ i_device (source_identity t) = i_device (visible_identity t)
  /\ i_filesystem (source_identity t) = i_filesystem (visible_identity t)
  /\ generation t <> 0.

Lemma CaptureStorageTopology_spec uid required snapshot s :
  usable snapshot ->
  exists r s', CaptureStorageTopologyFromSnapshot k uid required snapshot s = Ok (r, s')
    /\ open_fds s' = open_fds s
    /\ match r with Some t => topology_of snapshot uid required t | None => True end.
Proof.
  intros Hu. unfold CaptureStorageTopologyFromSnapshot. cbv zeta.
  destruct (PinDirectory_spec k fs_entry snapshot (visible_root_of (user_of uid)) unpinned s Hu)
    as (e & pin & s1 & E & _ & H). rewrite (os_bind_run _ _ _ _ _ E).
  destruct H as [(He & Hpin & Ho)|(-> & Hpin)].
  { destruct (Z.eqb_spec e 0); [done|]. by exists None, s1. }
  cbn [Z.eqb negb]. destruct (close_pin k fs_entry _ _ _ _ _ s1 Hpin eq_refl) as (s2 & E2 & Ho2).
  rewrite (os_bind_run _ _ _ _ _ E2).
  destruct (find_source_spec snapshot (p_mount pin) (candidates required (user_of uid)) s2 Hu)
    as (r & s3 & E3 & Ho3 & Hr). rewrite (os_bind_run _ _ _ _ _ E3).
  destruct r as [[path mount]|]; [|exists None, s3; split; [done|]; split; [congruence|done]].
  match goal with |- context [TopologyGeneration ?t =? 0] =>
    destruct (Z.eqb_spec (TopologyGeneration t) 0) as [|Hg] end.
  { exists None, s3. split; [done|]. split; [congruence|done]. }
  eexists (Some _), s3. split; [done|]. split; [congruence|].
  destruct Hr as (Hin & Hsrc & Hdev & Hfs). unfold topology_of. cbn.
  split_and!; try done. by exists s, s1, pin.
Qed.

Lemma SameStorageTopology_spec expected actual :
  SameStorageTopology expected actual = true ->
  generation expected <> 0 /\ user_id expected = user_id actual
  /\ visible_root expected = visible_root actual /\ source_root expected = source_root actual
  /\ i_device (visible_identity expected) = i_device (visible_identity actual)
  /\ i_root (visible_identity expected) = i_root (visible_identity actual)
  /\ i_filesystem (visible_identity expected) = i_filesystem (visible_identity actual)
  /\ i_device (source_identity expected) = i_device (source_identity actual)
  /\ i_root (source_identity expected) = i_root (source_identity actual)
  /\ i_filesystem (source_identity expected) = i_filesystem (source_identity actual).
Proof. intros H. unfold SameStorageTopology in H. split_tests. split_and!; first [done|lia]. Qed.
End Captured.
