(* ===== verification/Preflight.v ===== *)
(** * From the plan of a process to its mounts (zygisk/src/module_entry.cpp)

    [ApplyProcessPlan] up to the mutation lease: the worker enters the namespace of the process,
    pins every source and target of the plan, reads the process, the policy and the storage
    topology again, and settles the backend when the mounts of /storage propagate. The mounts
    themselves are [MountTransaction.transact]. What the kernel and the shared state answer is a
    [PreflightCalls]. The descriptors that the worker makes - of the namespace, the anchor, the
    sockets of the probe, the policy and the pins - are those of [Resolver]; how the functions that
    read /proc open their files is not represented. *)

From S2P Require Import Prelude Path Policy PolicyFormat ProcessPlan MountBackend Snapshot Resolver MountExecutor Pin MountTransaction RuntimeStatus ProcessIdentity RuntimeTopology Bootstrap BinaryProofs.

Local Open Scope pg_scope.

Definition ESRCH : Z := 3.

(** ** The anchor of denied paths *)

(** What the calls of [BuildDenyAnchorPath] answer, but for those that open descriptors:
    [anchor_scans] is [fdopendir]. *)
Record AnchorCalls : Type := {
  anchor_stat : option (Stat * Z * Z);
  anchor_scans : bool;
  anchor_names : list bytes;
  anchor_read_errno : Z;
  anchor_module_path : option bytes;
  anchor_lstat : bytes -> option Stat;
}.

Definition kDenyAnchorRelativePath : bytes := lit "run/deny-anchor".

(** The opened directory is one, is owned by root and has no permissions. *)
Definition anchor_is_guarded (c : AnchorCalls) : bool :=
  match anchor_stat c with
  | Some (stat, uid, mode) => st_is_dir stat && (uid =? 0) && (Z.land mode 511 =? 0)
  | None => false
  end.

(** The loop over its entries. *)
Definition anchor_is_empty (c : AnchorCalls) : bool :=
  forallb (fun name => (name == lit ".") || (name == lit "..")) (anchor_names c) && (anchor_read_errno c =? 0).

(** Its path, from that of the module directory, when it leads to the opened directory. *)
Definition anchor_path (c : AnchorCalls) (capacity : Z) : option bytes :=
  '(stat, _, _) ← anchor_stat c;
  module_path ← anchor_module_path c;
  let output := module_path ++ lit "/" ++ kDenyAnchorRelativePath in
  if starts_with (lit "/") module_path && negb (has_text (lit " (deleted)") module_path) && (size output <? capacity)
  then
    path_stat ← anchor_lstat c output;
    if (st_dev path_stat =? st_dev stat) && (st_ino path_stat =? st_ino stat) then Some output else None
  else None.

Section Anchor.
Context {Node : Type} (k : Kernel Node).

(** A stream of [fdopendir] owns its descriptor and [closedir] closes it; without a stream nobody
    closes [scan_fd]. *)
Definition BuildDenyAnchorPath (c : AnchorCalls) (module_dir_fd capacity : Z) : os Node (option bytes) :=
  if (module_dir_fd <? 0) || (capacity =? 0) then mret None
  else
    run_fd ← openat k module_dir_fd (lit "run");
    if run_fd <? 0 then mret None
    else
      anchor_fd ← openat k run_fd (lit "deny-anchor");
      close run_fd;;
      if anchor_fd <? 0 then mret None
      else
        let guarded := anchor_is_guarded c in
        scan_fd ← (if guarded then dup_cloexec k anchor_fd else mret (-1));
        let scans := (0 <=? scan_fd) && anchor_scans c in
        (if scans then close scan_fd else mret tt);;
        let output := if guarded && scans && anchor_is_empty c then anchor_path c capacity else None in
        close anchor_fd;;
        mret output.
End Anchor.

(** ** The directories of the plan *)

Definition BuildMountSourcePath (plan : ProcessPlan) (source_root : bytes) (mount : PlannedMount)
    (deny_anchor_path : bytes) (capacity : Z) : option bytes :=
  if pm_action mount == kDenyAction then
    if starts_with (lit "/") deny_anchor_path && (size deny_anchor_path <? capacity)
    then Some deny_anchor_path else None
  else if pm_action mount == kRedirectAction then
    match PlanPath plan (pm_backing_path mount) with
    | Some backing => if backing == [] then None else BuildPathUnderRoot source_root backing capacity
    | None => None
    end
  else None.

(** The paths of one rule: the target and the source. *)
Definition rule_paths (plan : ProcessPlan) (topology : RuntimeStorageTopology)
    (deny_anchor_path : bytes) (mount : PlannedMount) : option (bytes * bytes) :=
  if negb (IsExecutableMountAction (pm_action mount)) then None
  else
    visible ← PlanPath plan (pm_visible_path mount);
    _ ← PlanPath plan (pm_backing_path mount);
    target ← BuildPathUnderRoot (visible_root topology) visible PATH_MAX;
    source ← BuildMountSourcePath plan (source_root topology) mount deny_anchor_path PATH_MAX;
    Some (target, source).

(** The search among the sources pinned so far; their number when there is none. *)
Fixpoint find_locator (path : bytes) (locators : list bytes) : nat :=
  match locators with
  | [] => 0
  | locator :: rest => if locator == path then 0 else S (find_locator path rest)
  end.

Definition empty_workspace : Workspace :=
  {| w_sources := []; w_source_locators := []; w_targets := []; w_target_locators := [];
     w_source_indexes := [] |}.

Definition add_source (w : Workspace) (path : bytes) (pin : PinnedIdentity) : Workspace :=
  {| w_sources := w_sources w ++ [pin]; w_source_locators := w_source_locators w ++ [path];
     w_targets := w_targets w; w_target_locators := w_target_locators w;
     w_source_indexes := w_source_indexes w |}.

Definition add_target (w : Workspace) (index : nat) (path : bytes) (pin : PinnedIdentity) : Workspace :=
  {| w_sources := w_sources w; w_source_locators := w_source_locators w;
     w_targets := w_targets w ++ [pin]; w_target_locators := w_target_locators w ++ [path];
     w_source_indexes := w_source_indexes w ++ [index] |}.

Section Pins.
Context {Node : Type} (k : Kernel Node).
Context (plan : ProcessPlan) (topology : RuntimeStorageTopology) (deny_anchor_path : bytes).
Context (snapshot : MountInfoSnapshot).

Definition pin_source (w : Workspace) (path : bytes) : os Node (Z * Workspace) :=
  if bool_decide (find_locator path (w_source_locators w) = pinned_source_count w) then
    '(e, pin) ← PinDirectory k snapshot path unpinned;
    mret (e, if e =? 0 then add_source w path pin else w)
  else mret (0, w).

(** One turn of the loop: the error, and the workspace. *)
Definition pin_rule (w : Workspace) (mount : PlannedMount) : os Node (Z * Workspace) :=
  match rule_paths plan topology deny_anchor_path mount with
  | None => mret (EINVAL, w)
  | Some (target_path, source_path) =>
      let index := find_locator source_path (w_source_locators w) in
      '(e, w) ← pin_source w source_path;
      if negb (e =? 0) then mret (e, w)
      else
        '(e, pin) ← PinDirectory k snapshot target_path unpinned;
        mret (e, if e =? 0 then add_target w index target_path pin else w)
  end.

Fixpoint pin_rules (w : Workspace) (mounts : list PlannedMount) : os Node (Z * Workspace) :=
  match mounts with
  | [] => mret (0, w)
  | mount :: rest =>
      '(e, w) ← pin_rule w mount;
      if negb (e =? 0) then mret (e, w) else pin_rules w rest
  end.

Fixpoint close_all (pins : list PinnedIdentity) : os Node unit :=
  match pins with
  | [] => mret tt
  | pin :: rest => ClosePinnedIdentity pin;; close_all rest
  end.

(** [finish_preflight], and the end of the transaction. *)
Definition close_workspace (w : Workspace) : os Node unit :=
  close_all (w_sources w);; close_all (w_targets w).
End Pins.

(** ** The preflight *)

Definition StoragePropagationRequiresPrivate (snapshot : MountInfoSnapshot) : bool :=
  match MountInfoSnapshotRequiresPrivate snapshot (lit "/storage") with
  | Ok requires_private => requires_private
  | _ => true
  end.

(** [ProbeMountBackendsIsolated]: the two ends of [socketpair] or its error; the errors of [fork]
    and, in the child, of [unshare] and [mount]; what the child sees; and whether its answer
    arrives. *)
Record IsolatedCalls (Node : Type) : Type := {
  iso_socketpair : (Node * Node) + Z;
  iso_fork : Z;
  iso_private : Z;
  iso_capture : MountInfoSnapshot + Z;
  iso_calls : MountBackendKind -> ProbeCalls;
  iso_received : bool;
}.
Arguments iso_socketpair {Node} _.
Arguments iso_fork {Node} _.
Arguments iso_private {Node} _.
Arguments iso_capture {Node} _.
Arguments iso_calls {Node} _ _.
Arguments iso_received {Node} _.

Section Isolated.
Context {Node : Type} (k : Kernel Node).

(** Both descriptors or none. *)
Definition socketpair (ends : (Node * Node) + Z) : os Node ((Z * Z) + Z) :=
  match ends with
  | inr e => mret (inr e)
  | inl (first, second) =>
      first_fd ← new_descriptor k (inl first);
      if first_fd <? 0 then e ← get_errno; mret (inr e)
      else
        second_fd ← new_descriptor k (inl second);
        if second_fd <? 0 then e ← get_errno; close first_fd;; mret (inr e)
        else mret (inl (first_fd, second_fd))
  end.

(** What a forked child computes: it has a copy of the descriptors, the process keeps its own. *)
Definition in_child {A} (m : os Node A) : os Node A := fun s => '(x, _) ← m s; Ok (x, s).

Definition ProbeMountBackendsIsolated (c : IsolatedCalls Node) (source_path target_path : bytes)
    : os Node MountBackendProbe :=
  sockets ← socketpair (iso_socketpair c);
  match sockets with
  | inr e => mret (not_probed e)
  | inl (socket0, socket1) =>
      probe ← (if negb (iso_fork c =? 0) then mret (not_probed (iso_fork c))
               else in_child (close socket0;;
                      if negb (iso_private c =? 0) then mret (not_probed (iso_private c))
                      else ProbeDirectoryMountBackends k (iso_capture c) (iso_calls c) source_path target_path));
      close socket1;;
      let probe := if negb (iso_fork c =? 0) || iso_received c then probe else not_probed EIO in
      close socket0;;
      mret probe
  end.
End Isolated.

(** [pf_open_namespace] is the namespace that is opened; [pf_lease_policy_file] the policy file, and
    [pf_lease_policy] what it holds when it can be measured and mapped. *)
Record PreflightCalls (Node : Type) : Type := {
  pf_cancelled : bool;
  pf_status : option bytes;
  pf_stat : option bytes;
  pf_open_namespace : Node + Z;
  pf_setns : Z;
  pf_namespace : (Z * Z) + Z;
  pf_anchor : AnchorCalls;
  pf_workspace : option Z;
  pf_capture : MountInfoSnapshot + Z;
  pf_current_namespace : option (Z * Z);
  pf_lease_status : option bytes;
  pf_lease_stat : option bytes;
  pf_lease_policy_file : Node + Z;
  pf_lease_policy : option bytes;
  pf_isolated : IsolatedCalls Node;
  pf_proc : list ProcEntry;
  pf_self : Z;
  pf_cancelled_late : bool;
  pf_lease : bool;
}.
Arguments pf_cancelled {Node} _.
Arguments pf_status {Node} _.
Arguments pf_stat {Node} _.
Arguments pf_open_namespace {Node} _.
Arguments pf_setns {Node} _.
Arguments pf_namespace {Node} _.
Arguments pf_anchor {Node} _.
Arguments pf_workspace {Node} _.
Arguments pf_capture {Node} _.
Arguments pf_current_namespace {Node} _.
Arguments pf_lease_status {Node} _.
Arguments pf_lease_stat {Node} _.
Arguments pf_lease_policy_file {Node} _.
Arguments pf_lease_policy {Node} _.
Arguments pf_isolated {Node} _.
Arguments pf_proc {Node} _.
Arguments pf_self {Node} _.
Arguments pf_cancelled_late {Node} _.
Arguments pf_lease {Node} _.

(** What a preflight that fails reports. *)
Record Refusal : Type := {
  refused_error : Z;
  refused_perf : Perf;
  refused_reason : RuntimeReason;
}.

(** What one that succeeds leaves to the transaction. *)
Record Ready : Type := {
  ready_workspace : Workspace;
  ready_snapshot : MountInfoSnapshot;
  ready_namespace : Z * Z;
  ready_private : bool;
  ready_backend : MountBackendKind;
  ready_locked : bool;
  ready_perf : Perf;
}.

Definition no_backend : Perf := {| perf_backend := kUnsupported; perf_reason := kReasonNone |}.
Definition first_backend : Perf := {| perf_backend := kStrictOpenTree; perf_reason := kReasonNone |}.

Definition refusal (e : Z) (perf : Perf) (reason : RuntimeReason) : Refusal + Ready :=
  inl {| refused_error := e; refused_perf := perf; refused_reason := reason |}.

Definition allow_legacy (plan : ProcessPlan) : bool :=
  Z.land (policy_flags plan) kPolicyFlagAllowLegacyStringBind != 0.

Definition required_actions (plan : ProcessPlan) : Z := RequiredMountActions (pm_action <$> plan_mounts plan).

Section Preflight.
Context {Node : Type} (k : Kernel Node).
Context (pid uid module_dir_fd : Z) (plan : ProcessPlan) (topology : RuntimeStorageTopology).
Context (c : PreflightCalls Node).

(** Until the worker is in the namespace: the start time of the process, and the namespace. *)
Definition enter_namespace : os Node (Refusal + (Z * (Z * Z))) :=
  let refuse e := mret (inl {| refused_error := e; refused_perf := no_backend; refused_reason := kRuntimeNone |}) in
  if pf_cancelled c then refuse ECANCELED
  else if negb (ReadProcessUid (pf_status c) uid) then refuse ESRCH
  else
    match ReadProcessStartTime (pf_stat c) with
    | None => refuse ESRCH
    | Some start_time =>
        namespace_fd ← new_descriptor k (pf_open_namespace c);
        if namespace_fd <? 0 then e ← get_errno; refuse e
        else if negb (pf_setns c =? 0) then close namespace_fd;; refuse (pf_setns c)
        else
          match pf_namespace c with
          | inr e => close namespace_fd;; refuse e
          | inl namespace => close namespace_fd;; mret (inr (start_time, namespace))
          end
    end.

(** The path of the anchor, when the plan needs one. *)
Definition plan_anchor : os Node (option bytes) :=
  let required := required_actions plan in
  if required =? 0 then mret None
  else if Z.land required kMountActionDenyAnchor != 0
  then BuildDenyAnchorPath k (pf_anchor c) module_dir_fd PATH_MAX else mret (Some []).

(** What the loader of the plan reads: the policy file, which is closed as soon as it is mapped. *)
Definition read_lease_policy : os Node (option bytes) :=
  policy_fd ← new_descriptor k (pf_lease_policy_file c);
  if policy_fd <? 0 then mret None else close policy_fd;; mret (pf_lease_policy c).

Definition finish_preflight (w : Workspace) (e : Z) (perf : Perf) (reason : RuntimeReason)
    : os Node (Refusal + Ready) :=
  close_workspace w;; mret (refusal e perf reason).

(** What is read again right before the lease; the reason when something changed. *)
Definition revalidate (snapshot : MountInfoSnapshot) (start_time : Z) : os Node (option RuntimeReason) :=
  if negb (ReadProcessUid (pf_lease_status c) uid
           && (ReadProcessStartTime (pf_lease_stat c) == Some start_time))
  then mret (Some kPreflightFailed)
  else
    policy ← read_lease_policy;
    if negb (plan_is_current policy uid plan) then mret (Some kPolicyChanged)
    else
    lease_topology ← CaptureStorageTopologyFromSnapshot k uid (source_root topology) snapshot;
    match lease_topology with
    | Some actual =>
        mret (if SameStorageTopology topology actual then None else Some kTopologyChanged)
    | None => mret (Some kTopologyChanged)
    end.

(** The backend the transaction starts with and whether it is settled, or the refusal. *)
Definition settle_backend (w : Workspace) (private : bool) (namespace : Z * Z)
    : os Node (Refusal + (MountBackendKind * bool * Perf)) :=
  if negb private then mret (inr (kStrictOpenTree, false, first_backend))
  else
    probe ← ProbeMountBackendsIsolated k (pf_isolated c) (source_locator_of w 0) (target_locator_of w 0);
    let '(backend, reason) :=
      SelectMountBackend (required_actions plan) (probe_capabilities probe) (allow_legacy plan) in
    let perf := {| perf_backend := backend; perf_reason := reason |} in
    if backend == kUnsupported then
      mret (inl {| refused_error := if negb (probe_error probe =? 0) then probe_error probe else ENOTSUP;
                   refused_perf := perf; refused_reason := kPreflightFailed |})
    else if (backend == kLegacyString)
            && negb (IsDisposableAppNamespace (pf_proc c) (pf_self c) pid namespace)
    then
      mret (inl {| refused_error := ENOTSUP;
                   refused_perf := {| perf_backend := kUnsupported; perf_reason := kCapabilityMissing |};
                   refused_reason := kRuntimeNone |})
    else mret (inr (backend, true, perf)).

(** From the pinned workspace to the lease. *)
Definition take_lease (snapshot : MountInfoSnapshot) (w : Workspace) (start_time : Z)
    (namespace : Z * Z) : os Node (Refusal + Ready) :=
  let private := StoragePropagationRequiresPrivate snapshot in
  changed ← revalidate snapshot start_time;
  match changed with
  | Some reason => finish_preflight w ESTALE first_backend reason
  | None =>
      settled ← settle_backend w private namespace;
      match settled with
      | inl r => finish_preflight w (refused_error r) (refused_perf r) (refused_reason r)
      | inr (backend, locked, perf) =>
          if pf_cancelled_late c || negb (pf_lease c)
          then finish_preflight w ECANCELED perf kRuntimeNone
          else
            mret (inr {| ready_workspace := w; ready_snapshot := snapshot;
                         ready_namespace := namespace; ready_private := private;
                         ready_backend := backend; ready_locked := locked; ready_perf := perf |})
      end
  end.

Definition preflight : os Node (Refusal + Ready) :=
  entered ← enter_namespace;
  match entered with
  | inl r => mret (inl r)
  | inr (start_time, namespace) =>
      anchor ← plan_anchor;
      match anchor with
      | None => mret (refusal ENOTSUP no_backend kRuntimeUnsupportedAction)
      | Some deny_anchor_path =>
          match pf_workspace c with
          | Some e => mret (refusal (if negb (e =? 0) then e else ENOMEM) first_backend kRuntimeNone)
          | None =>
              match pf_capture c with
              | inr e => mret (refusal e first_backend kRuntimeNone)
              | inl snapshot =>
                  if negb (MountInfoSnapshotMatchesCurrentNamespace snapshot (pf_current_namespace c))
                  then mret (refusal ESTALE first_backend kRuntimeNone)
                  else
                    '(e, w) ← pin_rules k plan topology deny_anchor_path snapshot empty_workspace
                                (plan_mounts plan);
                    if negb (e =? 0) then finish_preflight w e first_backend kRuntimeNone
                    else take_lease snapshot w start_time namespace
              end
          end
      end
  end.
End Preflight.

(** ** The whole of [ApplyProcessPlan] *)

(** The answers the transaction gets; the others come from the preflight. *)
Record TransactionCalls : Type := {
  t_apply : nat -> MountBackendKind -> Sys;
  t_verify : nat -> Sys;
  t_validate : nat -> Sys;
  t_unmount : nat -> Sys;
  t_confirm : nat -> Sys;
  t_proc : list ProcEntry;
  t_cancelled : nat -> bool;
  t_propagation : Z;
  t_after_mounts : MountInfoSnapshot + Z;
  t_rollback_before : MountInfoSnapshot + Z;
  t_rollback_after : MountInfoSnapshot + Z;
  t_publishes : bool;
  (** the state a failure finds, and whether it stays; /proc at each scan of
      [TerminateNamespaceMembers], and what [kill] says then *)
  t_current : MountTransactionState;
  t_current_stays : bool;
  t_procs : nat -> option (list ProcEntry);
  t_kills : nat -> Z -> bool;
}.

Definition environment {Node : Type} (pid : Z) (plan : ProcessPlan) (c : PreflightCalls Node) (t : TransactionCalls)
    (r : Ready) : Environment :=
  {| e_apply := t_apply t; e_verify := t_verify t; e_validate := t_validate t;
     e_unmount := t_unmount t; e_confirm := t_confirm t; e_workspace := ready_workspace r;
     e_count := length (plan_mounts plan); e_required := required_actions plan;
     e_allow_legacy := allow_legacy plan;
     e_disposable := IsDisposableAppNamespace (t_proc t) (pf_self c) pid (ready_namespace r);
     e_cancelled := t_cancelled t;
     e_propagation := if ready_private r then Some (t_propagation t) else None;
     e_before := ready_snapshot r; e_after_mounts := t_after_mounts t;
     e_rollback_before := t_rollback_before t; e_rollback_after := t_rollback_after t;
     e_publishes := t_publishes t; e_current := t_current t; e_current_stays := t_current_stays t |}.

(** The refusal of the preflight, or the outcome of the transaction with what the termination of
    the namespace did, when there was one; [None] is a loop that did not end. *)
Definition ApplyProcessPlan {Node : Type} (k : Kernel Node) (pid uid module_dir_fd : Z)
    (plan : ProcessPlan) (topology : RuntimeStorageTopology) (c : PreflightCalls Node)
    (t : TransactionCalls) : os Node (option (Refusal + (Outcome * option NamespaceTerminationResult))) :=
  entered ← preflight k pid uid module_dir_fd plan topology c;
  match entered with
  | inl r => mret (Some (inl r))
  | inr ready =>
      match transact (environment pid plan c t ready)
              (start (ready_backend ready) (ready_locked ready) (ready_perf ready)) with
      | None => mret None
      | Some o =>
          close_workspace (ready_workspace ready);;
          let terminated :=
            if o_terminates o
            then Some (TerminateNamespaceMembers (t_procs t) (t_kills t) (pf_self c) (ready_namespace ready))
            else None in
          mret (Some (inr (o, terminated)))
      end
  end.

(** ** Lemmas: descriptors held by pins *)

Section Held.
Context {Node : Type}.

Definition fds (pins : list PinnedIdentity) : list Z := p_fd <$> pins.

(** [table] is [base] and the descriptors of the pins. *)
Record held (base : gmap Z Node) (pins : list PinnedIdentity) (table : gmap Z Node) : Prop := {
  held_nodup : NoDup (fds pins);
  held_new : forall pin, pin ∈ pins -> 0 <= p_fd pin /\ base !! p_fd pin = None
                                       /\ is_Some (table !! p_fd pin);
  held_rest : forall n, n ∉ fds pins -> table !! n = base !! n;
}.

Lemma held_nil base : held base [] base.
Proof. split; [constructor|intros pin H; by apply elem_of_nil in H|done]. Qed.

Lemma held_perm base pins pins' table : pins ≡ₚ pins' -> held base pins table -> held base pins' table.
Proof.
  intros P [Hn Hnew Hrest]. split.
  - unfold fds. by rewrite <- P.
  - intros pin Hin. apply Hnew. by rewrite P.
  - intros n Hn'. apply Hrest. unfold fds in *. by rewrite P.
Qed.

Lemma held_add base pins table pin (node : Node) :
  held base pins table -> 0 <= p_fd pin -> table !! p_fd pin = None ->
  held base (pin :: pins) (<[p_fd pin := node]> table).
Proof.
  intros [Hn Hnew Hrest] Hpos Hfree.
  assert (p_fd pin ∉ fds pins) as Hnot.
  { intros (q & Hq & Hin)%list_elem_of_fmap. destruct (Hnew q Hin) as (_ & _ & [x Hx]).
    rewrite <- Hq, Hfree in Hx. discriminate Hx. }
  split.
  - by constructor.
  - intros q [->|Hin]%elem_of_cons.
    + split; [done|]. rewrite lookup_insert_eq. split; [|done]. by rewrite <- Hrest.
    + destruct (Hnew q Hin) as (? & ? & Hs). split; [done|]. split; [done|].
      destruct (decide (p_fd pin = p_fd q)) as [<-|Hne]; [by rewrite lookup_insert_eq|].
      by rewrite lookup_insert_ne.
  - intros n [Hne Hin]%not_elem_of_cons. rewrite lookup_insert_ne by done. by apply Hrest.
Qed.

Lemma held_close base pin pins table :
  held base (pin :: pins) table -> held base pins (delete (p_fd pin) table).
Proof.
  intros [Hn Hnew Hrest]. apply NoDup_cons in Hn as [Hnot Hn]. split; [done|..].
  - intros q Hin. destruct (Hnew q) as (? & ? & Hs); [by right|]. split; [done|]. split; [done|].
    rewrite lookup_delete_ne; [done|]. intros E. apply Hnot. rewrite E. by apply list_elem_of_fmap_2.
  - intros n Hin. destruct (decide (n = p_fd pin)) as [->|Hne].
    + rewrite lookup_delete_eq. destruct (Hnew pin) as (_ & -> & _); [left|done].
    + rewrite lookup_delete_ne by done. apply Hrest. by apply not_elem_of_cons.
Qed.

Lemma close_all_spec base pins rest (s : Process Node) :
  held base (pins ++ rest) (open_fds s) ->
  exists s', close_all pins s = Ok (tt, s') /\ held base rest (open_fds s').
Proof.
  revert s. induction pins as [|pin pins IH]; intros s H; [by exists s|]. cbn [close_all].
  destruct (held_new _ _ _ H pin) as [Hpos _]; [left|]. unfold ClosePinnedIdentity.
  destruct (Z.leb_spec 0 (p_fd pin)); [|lia]. cbn [Datatypes.app] in H. apply held_close in H.
  apply (IH {| open_fds := delete (p_fd pin) (open_fds s); now := S (now s); errno := errno s |} H).
Qed.

Definition workspace_pins (w : Workspace) : list PinnedIdentity := w_sources w ++ w_targets w.

Lemma close_workspace_spec base w (s : Process Node) :
  held base (workspace_pins w) (open_fds s) ->
  exists s', close_workspace w s = Ok (tt, s') /\ open_fds s' = base.
Proof.
  intros H. unfold close_workspace. destruct (close_all_spec base _ _ s H) as (s1 & E1 & H1).
  rewrite (os_bind_run _ _ _ _ _ E1). rewrite <- (app_nil_r (w_targets w)) in H1.
  destruct (close_all_spec base _ _ s1 H1) as (s2 & E2 & H2). exists s2. split; [done|].
  apply map_eq. intros n. apply (held_rest _ _ _ H2). apply not_elem_of_nil.
Qed.
End Held.

(** ** Lemmas: the pinned workspace *)

Lemma find_locator_spec path locators :
  let i := find_locator path locators in
  (i <= length locators)%nat /\ (i < length locators -> locators !! i = Some path)%nat.
Proof.
  cbv zeta. induction locators as [|l locators [IH1 IH2]]; cbn; [split; [done|lia]|].
  case_bool_decide as E; [subst; split; [lia|done]|]. split; [lia|]. intros H. apply IH2. lia.
Qed.

Section PinRules.
Context {Node : Type} (k : Kernel Node) (fs_entry : nat -> Node -> bytes -> option Node).
Context `{!KernelOf k fs_entry}.
Context (plan : ProcessPlan) (topology : RuntimeStorageTopology) (deny_anchor_path : bytes).
Context (snapshot : MountInfoSnapshot) (snapshot_usable : usable snapshot).
Context (base : gmap Z Node).

(** The pin was taken of this path, on the snapshot. *)
Definition pin_of (path : bytes) (pin : PinnedIdentity) : Prop :=
  exists s s', pinned_at k fs_entry snapshot path s s' pin.

(** Rule [i] has its target and its source pinned, at the paths the plan gives. *)
Definition rule_pinned (w : Workspace) (i : nat) (mount : PlannedMount) : Prop :=
  exists target_path source_path,
    rule_paths plan topology deny_anchor_path mount = Some (target_path, source_path)
    /\ target_locator_of w i = target_path /\ pin_of target_path (target_of w i)
    /\ (source_index w i < pinned_source_count w)%nat
    /\ source_locator_of w i = source_path /\ pin_of source_path (source_of w i).

Record workspace_ok (w : Workspace) (mounts : list PlannedMount) : Prop := {
  ws_sources : length (w_source_locators w) = length (w_sources w);
  ws_targets : length (w_targets w) = length mounts;
  ws_locators : length (w_target_locators w) = length mounts;
  ws_indexes : length (w_source_indexes w) = length mounts;
  ws_pins : forall j path, w_source_locators w !! j = Some path -> pin_of path (nth j (w_sources w) no_pin);
  ws_rules : forall i mount, mounts !! i = Some mount -> rule_pinned w i mount;
}.

Lemma empty_workspace_ok : workspace_ok empty_workspace [].
Proof. by split. Qed.

Lemma rule_pinned_add_source w mounts i mount path pin :
  workspace_ok w mounts -> rule_pinned w i mount -> rule_pinned (add_source w path pin) i mount.
Proof.
  intros Hw (tp & sp & Hr & Ht & Hpt & Hlt & Hs & Hps). exists tp, sp.
  unfold pinned_source_count, source_locator_of, source_of, source_index in *. cbn.
  pose proof (ws_sources _ _ Hw). rewrite length_app. split_and!; try done; [lia|..].
  - rewrite app_nth1 by lia. done.
  - rewrite app_nth1 by lia. done.
Qed.

Lemma rule_pinned_add_target w mounts i mount index path pin :
  workspace_ok w mounts -> (i < length mounts)%nat -> rule_pinned w i mount ->
  rule_pinned (add_target w index path pin) i mount.
Proof.
  intros Hw Hi (tp & sp & Hr & Ht & Hpt & Hlt & Hs & Hps). exists tp, sp.
  unfold pinned_source_count, source_locator_of, source_of, source_index, target_of, target_locator_of in *.
  cbn. destruct Hw. rewrite !app_nth1 by lia. done.
Qed.

Lemma pin_source_spec w mounts path s :
  workspace_ok w mounts -> held base (workspace_pins w) (open_fds s) ->
  exists e w' s', pin_source k snapshot w path s = Ok ((e, w'), s')
    /\ held base (workspace_pins w') (open_fds s')
    /\ (e = 0 -> workspace_ok w' mounts
        /\ (find_locator path (w_source_locators w) < length (w_sources w'))%nat
        /\ w_source_locators w' !! find_locator path (w_source_locators w) = Some path).
Proof.
  intros Hw Hh. unfold pin_source. destruct (find_locator_spec path (w_source_locators w)) as [Hle Hlt].
  pose proof (ws_sources _ _ Hw) as Hlen. unfold pinned_source_count. case_bool_decide as Hi.
  2: { exists 0, w, s. split; [done|]. split; [done|]. intros _. split; [done|]. split; [lia|].
       apply Hlt. lia. }
  destruct (PinDirectory_spec k fs_entry snapshot path unpinned s snapshot_usable)
    as (e & pin & s1 & E & _ & H). rewrite (os_bind_run _ _ _ _ _ E).
  destruct H as [(He & _ & Ho)|(-> & Hpin)].
  { exists e, w, s1. destruct (Z.eqb_spec e 0); [done|]. split; [done|]. split; [by rewrite Ho|done]. }
  exists 0, (add_source w path pin), s1. split; [done|].
  pose proof Hpin as (Hpos & Hfree & (root & node & ? & ? & ? & ? & Ho & _) & _). split.
  { eapply held_perm; [|rewrite Ho; by apply held_add].
    unfold workspace_pins. cbn. rewrite <- app_assoc. by apply Permutation_middle. }
  intros _. cbn [add_source w_sources w_source_locators]. rewrite length_app. split; [|split].
  - pose proof Hw as []. split; cbn; try done; [rewrite !length_app; cbn; lia| |].
    + intros j p [Hj|[-> ->]]%lookup_snoc_cases.
      * rewrite app_nth1 by (apply lookup_lt_Some in Hj; lia). by apply ws_pins0.
      * rewrite app_nth2, Hlen, Nat.sub_diag by lia. by exists s, s1.
    + intros i mount Hi'. by eapply rule_pinned_add_source, ws_rules0.
  - rewrite Hi. cbn. lia.
  - rewrite Hi. rewrite lookup_app_r by lia. by rewrite Hlen, Nat.sub_diag.
Qed.

Lemma pin_rule_spec w mounts mount s :
  workspace_ok w mounts -> held base (workspace_pins w) (open_fds s) ->
  exists e w' s', pin_rule k plan topology deny_anchor_path snapshot w mount s = Ok ((e, w'), s')
    /\ held base (workspace_pins w') (open_fds s') /\ (e = 0 -> workspace_ok w' (mounts ++ [mount])).
Proof.
  intros Hw Hh. unfold pin_rule.
  destruct (rule_paths plan topology deny_anchor_path mount) as [[tp sp]|] eqn:Hr.
  2: { by exists EINVAL, w, s. }
  destruct (pin_source_spec w mounts sp s Hw Hh) as (e & w1 & s1 & E & Hh1 & H1).
  rewrite (os_bind_run _ _ _ _ _ E).
  destruct (Z.eqb_spec e 0) as [->|He]; cbn [negb]; [|by exists e, w1, s1].
  destruct (H1 eq_refl) as (Hw1 & Hlt & Hloc). clear H1.
  destruct (PinDirectory_spec k fs_entry snapshot tp unpinned s1 snapshot_usable)
    as (e & pin & s2 & E2 & _ & H). rewrite (os_bind_run _ _ _ _ _ E2).
  destruct H as [(He & _ & Ho)|(-> & Hpin)].
  { exists e, w1, s2. destruct (Z.eqb_spec e 0); [done|]. split; [done|]. split; [by rewrite Ho|done]. }
  set (index := find_locator sp (w_source_locators w)) in *.
  exists 0, (add_target w1 index tp pin), s2. split; [done|].
  pose proof Hpin as (Hpos & Hfree & (root & node & ? & ? & ? & ? & Ho & _) & _). split.
  { eapply held_perm; [|rewrite Ho; by apply held_add].
    unfold workspace_pins. cbn. rewrite app_assoc. by apply Permutation_cons_append. }
  intros _. pose proof Hw1 as []. split; cbn; try done; try (rewrite !length_app; cbn; lia).
  intros i m [Hi|[-> ->]]%lookup_snoc_cases.
  - eapply rule_pinned_add_target; [done|by apply lookup_lt_Some in Hi|by apply ws_rules0].
  - exists tp, sp. unfold pinned_source_count, source_locator_of, source_of, source_index, target_of, target_locator_of.
    cbn. rewrite !app_nth2 by lia. rewrite ws_targets0, ws_locators0, ws_indexes0, Nat.sub_diag. cbn [nth].
    split; [done|]. split; [done|]. split; [by exists s1, s2|]. split; [done|]. split.
    + by apply nth_lookup_Some.
    + by apply ws_pins0.
Qed.

Lemma pin_rules_spec w done rest s :
  workspace_ok w done -> held base (workspace_pins w) (open_fds s) ->
  exists e w' s', pin_rules k plan topology deny_anchor_path snapshot w rest s = Ok ((e, w'), s')
    /\ held base (workspace_pins w') (open_fds s') /\ (e = 0 -> workspace_ok w' (done ++ rest)).
Proof.
  revert w done s. induction rest as [|mount rest IH]; intros w done s Hw Hh.
  { exists 0, w, s. by rewrite app_nil_r. }
  cbn [pin_rules]. destruct (pin_rule_spec w done mount s Hw Hh) as (e & w1 & s1 & E & Hh1 & H1).
  rewrite (os_bind_run _ _ _ _ _ E).
  destruct (Z.eqb_spec e 0) as [->|He]; cbn [negb]; [|by exists e, w1, s1].
  destruct (IH w1 (done ++ [mount]) s1 (H1 eq_refl) Hh1) as (e & w2 & s2 & E2 & Hh2 & H2).
  exists e, w2, s2. split; [exact E2|]. split; [exact Hh2|]. by rewrite <- app_assoc in H2.
Qed.
End PinRules.

(** ** Lemmas: descriptors that are opened and closed again *)

Section Descriptors.
Context {Node : Type} (k : Kernel Node) (fs_entry : nat -> Node -> bytes -> option Node).
Context `{!KernelOf k fs_entry}.

(** A call on a directory that may open a descriptor. *)
Lemma at_directory_opens directory reach (s : Process Node) :
  exists number s', at_directory k directory reach s = Ok (number, s')
    /\ (number = -1 /\ open_fds s' = open_fds s
        \/ exists node, 0 <= number /\ open_fds s !! number = None
             /\ open_fds s' = <[number := node]> (open_fds s)).
Proof.
  unfold at_directory, new_descriptor, fails_with. destruct (open_fds s !! directory) as [node|]; [|eexists _, _; by eauto].
  destruct (reach (now s) node) as [found|e]; [|eexists _, _; by eauto].
  destruct (k_new_fd k (now s) (open_fds s)) as [number|e] eqn:E; [|eexists _, _; by eauto].
  destruct (new_fd_unused _ _ _ E). eexists _, _. split; [done|]. right. by exists found.
Qed.

Lemma close_bind {A} number (f : os Node A) (s : Process Node) :
  (close number;; f) s = f {| open_fds := delete number (open_fds s); now := S (now s); errno := errno s |}.
Proof. done. Qed.

(** Closing the descriptor before the last one that was opened. *)
Lemma close_below (table : gmap Z Node) first second x y :
  table !! first = None -> <[first := x]> table !! second = None ->
  delete first (<[second := y]> (<[first := x]> table)) = <[second := y]> table /\ table !! second = None /\ first <> second.
Proof.
  intros Hf Hs. assert (first <> second) as Hne by (intros ->; by rewrite lookup_insert_eq in Hs).
  rewrite lookup_insert_ne in Hs by done. split; [|done].
  rewrite delete_insert_ne by done. by rewrite delete_insert_id.
Qed.

(** The table is as it was, but for one descriptor when the scan of the anchor could not start. *)
Definition leftover (scans : bool) (table table' : gmap Z Node) : Prop :=
  table' = table
  \/ scans = false /\ exists number node, table !! number = None /\ table' = <[number := node]> table.

(** The anchor is what it has to be: a directory of root without permissions and without entries,
    and its path leads to it. *)
Definition anchor_at (c : AnchorCalls) (capacity : Z) (path : bytes) : Prop :=
  exists stat mode module_path path_stat,
    anchor_stat c = Some (stat, 0, mode) /\ st_is_dir stat = true /\ Z.land mode 511 = 0
    /\ anchor_scans c = true /\ anchor_read_errno c = 0
    /\ Forall (fun name => name = lit "." \/ name = lit "..") (anchor_names c)
    /\ anchor_module_path c = Some module_path /\ starts_with (lit "/") module_path = true
    /\ has_text (lit " (deleted)") module_path = false
    /\ path = module_path ++ lit "/" ++ kDenyAnchorRelativePath /\ size path < capacity
    /\ anchor_lstat c path = Some path_stat /\ st_dev path_stat = st_dev stat /\ st_ino path_stat = st_ino stat.

Lemma anchor_path_at c capacity path :
  anchor_is_guarded c && anchor_scans c && anchor_is_empty c = true -> anchor_path c capacity = Some path ->
  anchor_at c capacity path.
Proof.
  unfold anchor_is_guarded, anchor_is_empty, anchor_path. destruct (anchor_stat c) as [[[stat uid] mode]|] eqn:Es; [|done].
  intros [[[[Hd ->%Z.eqb_eq]%andb_true_iff Hm%Z.eqb_eq]%andb_true_iff Hsc]%andb_true_iff [Hn He%Z.eqb_eq]%andb_true_iff]%andb_true_iff.
  cbn. destruct (anchor_module_path c) as [module_path|] eqn:Em; [|done]. cbn.
  destruct (_ && _ && _) eqn:Ec; [|done]. apply andb_true_iff in Ec as [[Hs Hx%negb_true_iff]%andb_true_iff Hz%Z.ltb_lt].
  destruct (anchor_lstat c _) as [path_stat|] eqn:El; [|done]. cbn.
  destruct (_ && _) eqn:Ei; [|done]. apply andb_true_iff in Ei as [Hdev%Z.eqb_eq Hino%Z.eqb_eq]. intros [= <-].
  exists stat, mode, module_path, path_stat. split_and!; try done.
  rewrite forallb_forall in Hn. rewrite Forall_forall. intros name Hin%list_elem_of_In%Hn.
  apply orb_true_iff in Hin as [?%bool_decide_eq_true|?%bool_decide_eq_true]; auto.
Qed.

Lemma BuildDenyAnchorPath_spec c module_dir_fd capacity (s : Process Node) :
  exists r s', BuildDenyAnchorPath k c module_dir_fd capacity s = Ok (r, s')
    /\ leftover (anchor_scans c) (open_fds s) (open_fds s')
    /\ (forall path, r = Some path -> anchor_at c capacity path).
Proof.
  unfold BuildDenyAnchorPath. destruct (_ || _); [by exists None, s; split_and!; [|left|]|].
  destruct (at_directory_opens module_dir_fd (fun t node => k_child k t node (lit "run")) s) as (run & s1 & E1 & H1).
  rewrite (os_bind_run _ _ _ _ _ E1).
  destruct H1 as [[-> H1]|(x & Hr & Hfr & H1)]; [by exists None, s1; split_and!; [|left|]|].
  destruct (Z.ltb_spec run 0); [lia|].
  destruct (at_directory_opens run (fun t node => k_child k t node (lit "deny-anchor")) s1) as (anchor & s2 & E2 & H2).
  rewrite (os_bind_run _ _ _ _ _ E2), close_bind.
  set (s3 := {| open_fds := delete run (open_fds s2); now := S (now s2); errno := errno s2 |}).
  destruct H2 as [[-> H2]|(y & Ha & Hfa & H2)].
  { exists None, s3. split; [done|]. split; [left|done]. cbn. rewrite H2, H1. by apply delete_insert_id. }
  destruct (Z.ltb_spec anchor 0); [lia|].
  rewrite H1 in Hfa, H2. destruct (close_below _ _ _ x y Hfr Hfa) as (Hd & Hfa' & _).
  assert (open_fds s3 = <[anchor := y]> (open_fds s)) as H3 by (cbn; by rewrite H2). clearbody s3. clear H2 E2 s2 Hd.
  assert (forall scan (s4 : Process Node) (out : option bytes),
    (open_fds s4 = open_fds s3
     \/ anchor_scans c = false /\ exists z, open_fds s3 !! scan = None /\ open_fds s4 = <[scan := z]> (open_fds s3)) ->
    exists s', (close anchor;; mret out : os Node (option bytes)) s4 = Ok (out, s') /\ leftover (anchor_scans c) (open_fds s) (open_fds s')) as Hend.
  { intros scan s4 out H4. eexists. split; [done|]. cbn.
    destruct H4 as [->|(Hsc & z & Hf & ->)]; rewrite H3.
    - left. by apply delete_insert_id.
    - rewrite H3 in Hf. destruct (close_below _ _ _ y z Hfa' Hf) as (-> & Hfs & _). right. split; [done|]. by exists scan, z. }
  destruct (anchor_is_guarded c) eqn:Eg; cbn [andb].
  2:{ destruct (Hend (-1) s3 None (or_introl eq_refl)) as (s' & E & Hl). exists None, s'. by split_and!. }
  destruct (at_directory_opens anchor (fun _ node => inl node) s3) as (scan & s4 & E4 & H4).
  rewrite (os_bind_run _ _ _ _ _ E4).
  destruct H4 as [[-> H4]|(z & Hs & Hfs & H4)].
  { change (0 <=? -1) with false. cbn [andb].
    destruct (Hend (-1) s4 None (or_introl H4)) as (s' & E & Hl). exists None, s'. by split_and!. }
  rewrite (proj2 (Z.leb_le 0 scan)) by done. cbn [andb]. destruct (anchor_scans c) eqn:Esc; cbn [andb].
  - set (out := if anchor_is_empty c then _ else None).
    rewrite close_bind.
    destruct (Hend scan {| open_fds := delete scan (open_fds s4); now := S (now s4); errno := errno s4 |} out) as (s' & E & Hl).
    { left. cbn. rewrite H4. by apply delete_insert_id. }
    exists out, s'. split; [exact E|]. split; [exact Hl|]. intros path Ho. unfold out in Ho.
    destruct (anchor_is_empty c) eqn:Ee; [|done]. apply anchor_path_at; [|done]. by rewrite Eg, Esc, Ee.
  - destruct (Hend scan s4 None) as (s' & E & Hl); [right; split; [done|by exists z]|].
    exists None, s'. by split_and!.
Qed.

Lemma socketpair_spec answer (s : Process Node) :
  (forall e, answer = inr e -> e <> 0) ->
  exists r s', socketpair k answer s = Ok (r, s')
    /\ match r with
       | inr e => e <> 0 /\ open_fds s' = open_fds s
       | inl (first, second) => exists x y,
           open_fds s !! first = None /\ open_fds s !! second = None /\ first <> second
           /\ open_fds s' = <[second := y]> (<[first := x]> (open_fds s))
       end.
Proof.
  intros He. destruct answer as [[x y]|e]; cbn [socketpair]; [|exists (inr e), s; split; [done|]; split; [by apply He|done]].
  destruct (new_descriptor_spec k fs_entry (inl x) s ltac:(done)) as (first & s1 & E1 & _ & H1).
  rewrite (os_bind_run _ _ _ _ _ E1). destruct H1 as [(-> & Ho & Hn)|(x' & [= <-] & Hp & Hf & Ho)].
  { eexists (inr _), s1. split; [done|]. by split. }
  destruct (Z.ltb_spec first 0); [lia|].
  destruct (new_descriptor_spec k fs_entry (inl y) s1 ltac:(done)) as (second & s2 & E2 & _ & H2).
  rewrite (os_bind_run _ _ _ _ _ E2). destruct H2 as [(-> & Ho2 & Hn)|(y' & [= <-] & Hp2 & Hf2 & Ho2)].
  { eexists (inr _), _. split; [done|]. split; [done|]. cbn. rewrite Ho2, Ho. by apply delete_insert_id. }
  destruct (Z.ltb_spec second 0); [lia|]. eexists (inl _), s2. split; [done|].
  rewrite Ho in Hf2. destruct (close_below _ _ _ x y Hf Hf2) as (_ & Hs & Hne). rewrite Ho in Ho2. by exists x, y.
Qed.
End Descriptors.

(** ** The preflight is sound *)

Section Sound.
Context {Node : Type} (k : Kernel Node) (fs_entry : nat -> Node -> bytes -> option Node).
Context `{!KernelOf k fs_entry}.
Context (pid uid module_dir_fd : Z) (plan : ProcessPlan) (topology : RuntimeStorageTopology).
Context (c : PreflightCalls Node).

(** Captures are tables or errors, and a failed call has an [errno]. *)
Record answers_ok : Prop := {
  ok_open_namespace : forall e, pf_open_namespace c = inr e -> e <> 0;
  ok_namespace : forall e, pf_namespace c = inr e -> e <> 0;
  ok_lease_policy : forall e, pf_lease_policy_file c = inr e -> e <> 0;
  ok_sockets : forall e, iso_socketpair (pf_isolated c) = inr e -> e <> 0;
  ok_capture : capture_ok (pf_capture c);
  ok_iso_capture : capture_ok (iso_capture (pf_isolated c));
  ok_iso_calls : forall b, calls_ok (iso_calls (pf_isolated c) b);
}.

(** The backend is settled by a probe when the mounts would propagate: it worked, and the string
    backend is allowed by the policy and alone in its namespace. *)
Definition settled (w : Workspace) (private : bool) (namespace : Z * Z) (backend : MountBackendKind)
    (locked : bool) : Prop :=
  locked = private
  /\ if private then
       (exists source target, backend_works backend source target (source_locator_of w 0)
          (target_locator_of w 0) (iso_calls (pf_isolated c) backend))
       /\ (backend = kLegacyString ->
           allow_legacy plan = true
           /\ IsDisposableAppNamespace (pf_proc c) (pf_self c) pid namespace = true)
     else backend = kStrictOpenTree.

(** The path of the anchor, for a plan that denies something. *)
Definition anchor_of_plan (path : bytes) : Prop :=
  required_actions plan <> 0
  /\ if Z.land (required_actions plan) kMountActionDenyAnchor =? 0 then path = []
     else anchor_at (pf_anchor c) PATH_MAX path.

Lemma plan_anchor_spec (s : Process Node) :
  exists r s', plan_anchor k module_dir_fd plan c s = Ok (r, s')
    /\ leftover (anchor_scans (pf_anchor c)) (open_fds s) (open_fds s')
    /\ (forall path, r = Some path -> anchor_of_plan path /\ open_fds s' = open_fds s).
Proof.
  unfold plan_anchor, anchor_of_plan. cbv zeta. destruct (Z.eqb_spec (required_actions plan) 0) as [E|E].
  { exists None, s. by split_and!; [|left|]. }
  destruct (Z.eqb_spec (Z.land (required_actions plan) kMountActionDenyAnchor) 0) as [E'|E'].
  - rewrite bool_decide_eq_true_2 by done. cbn [negb]. exists (Some []), s. split; [done|]. split; [by left|].
    by intros path [= <-].
  - rewrite bool_decide_eq_false_2 by done. cbn [negb].
    destruct (BuildDenyAnchorPath_spec k fs_entry (pf_anchor c) module_dir_fd PATH_MAX s) as (r & s' & E1 & Hl & Hr).
    exists r, s'. split; [exact E1|]. split; [exact Hl|]. intros path Hp. specialize (Hr path Hp).
    split; [done|]. destruct Hl as [?|[Hsc _]]; [done|]. destruct Hr as (? & ? & ? & ? & _ & _ & _ & ? & _). congruence.
Qed.

(** What the worker knows once it is in the namespace. *)
Definition entered_namespace (start_time : Z) (namespace : Z * Z) : Prop :=
  pf_cancelled c = false /\ ReadProcessUid (pf_status c) uid = true
  /\ ReadProcessStartTime (pf_stat c) = Some start_time /\ pf_setns c = 0 /\ pf_namespace c = inl namespace.

Lemma enter_namespace_spec (s : Process Node) :
  answers_ok ->
  exists r s', enter_namespace k uid c s = Ok (r, s') /\ open_fds s' = open_fds s
    /\ match r with
       | inl f => refused_error f <> 0
       | inr (start_time, namespace) => entered_namespace start_time namespace
       end.
Proof.
  intros Hok. unfold enter_namespace, entered_namespace. cbv zeta. destruct (pf_cancelled c); [by eexists (inl _), s|].
  destruct (ReadProcessUid (pf_status c) uid); cbn [negb]; [|by eexists (inl _), s].
  destruct (ReadProcessStartTime (pf_stat c)) as [start_time|]; [|by eexists (inl _), s].
  destruct (new_descriptor_spec k fs_entry (pf_open_namespace c) s (ok_open_namespace Hok)) as (number & s1 & E1 & _ & H1).
  rewrite (os_bind_run _ _ _ _ _ E1). destruct H1 as [(-> & Ho & Hn)|(x & _ & Hp & Hf & Ho)].
  { eexists (inl _), s1. by split_and!. }
  destruct (Z.ltb_spec number 0); [lia|].
  assert (delete number (open_fds s1) = open_fds s) as Hclose by (rewrite Ho; by apply delete_insert_id).
  destruct (Z.eqb_spec (pf_setns c) 0) as [Es|Es]; cbn [negb]; [|eexists (inl _), _; split; [done|]; by split_and!].
  destruct (pf_namespace c) as [namespace|e] eqn:En.
  - eexists (inr _), _. split; [done|]. by split_and!.
  - eexists (inl _), _. split; [done|]. split; [done|]. by apply ok_namespace.
Qed.

(** Everything the worker has made sure of when it holds the lease. *)
Record validated (r : Ready) : Prop := {
  v_process : exists start_time,
    ReadProcessUid (pf_status c) uid = true /\ ReadProcessUid (pf_lease_status c) uid = true
    /\ ReadProcessStartTime (pf_stat c) = Some start_time
    /\ ReadProcessStartTime (pf_lease_stat c) = Some start_time;
  v_policy : plan_is_current (pf_lease_policy c) uid plan = true;
  v_snapshot : pf_capture c = inl (ready_snapshot r)
    /\ MountInfoSnapshotMatchesCurrentNamespace (ready_snapshot r) (pf_current_namespace c) = true;
  v_topology : exists actual,
    topology_of k fs_entry (ready_snapshot r) uid (source_root topology) actual
    /\ SameStorageTopology topology actual = true;
  v_pins : exists deny_anchor_path, anchor_of_plan deny_anchor_path
    /\ workspace_ok k fs_entry plan topology deny_anchor_path (ready_snapshot r) (ready_workspace r)
         (plan_mounts plan);
  v_backend : settled (ready_workspace r) (ready_private r) (ready_namespace r) (ready_backend r)
                (ready_locked r);
  v_lease : pf_cancelled c = false /\ pf_cancelled_late c = false /\ pf_lease c = true;
}.

Lemma isolated_spec source_path target_path s :
  answers_ok -> size target_path < PATH_MAX ->
  exists probe s', ProbeMountBackendsIsolated k (pf_isolated c) source_path target_path s = Ok (probe, s')
    /\ open_fds s' = open_fds s
    /\ forall required allow backend,
         SelectMountBackend required (probe_capabilities probe) allow = (backend, kReasonNone) ->
         exists source target, backend_works backend source target source_path target_path
                                 (iso_calls (pf_isolated c) backend).
Proof.
  intros Hok Hs. unfold ProbeMountBackendsIsolated.
  assert (forall e required allow backend,
    SelectMountBackend required (probe_capabilities (not_probed e)) allow = (backend, kReasonNone) ->
    exists source target, backend_works backend source target source_path target_path
      (iso_calls (pf_isolated c) backend)) as Hnot.
  { intros e r a b H. exfalso. by eapply not_probed_unsupported. }
  destruct (socketpair_spec k fs_entry (iso_socketpair (pf_isolated c)) s (ok_sockets Hok)) as (r & s1 & E1 & H1).
  rewrite (os_bind_run _ _ _ _ _ E1). destruct r as [[socket0 socket1]|e].
  2:{ eexists _, s1. split; [done|]. split; [apply H1|apply Hnot]. }
  destruct H1 as (x & y & Hf0 & Hf1 & Hne & Ho).
  assert (exists probe,
    (if negb (iso_fork (pf_isolated c) =? 0) then mret (not_probed (iso_fork (pf_isolated c)))
     else in_child (close socket0;;
            if negb (iso_private (pf_isolated c) =? 0) then mret (not_probed (iso_private (pf_isolated c)))
            else ProbeDirectoryMountBackends k (iso_capture (pf_isolated c)) (iso_calls (pf_isolated c))
                   source_path target_path)) s1 = Ok (probe, s1)
    /\ forall required allow backend,
         SelectMountBackend required (probe_capabilities probe) allow = (backend, kReasonNone) ->
         exists source target, backend_works backend source target source_path target_path
                                 (iso_calls (pf_isolated c) backend)) as (probe & E2 & Hprobe).
  { destruct (negb (iso_fork (pf_isolated c) =? 0)); [eexists; split; [done|apply Hnot]|].
    unfold in_child. rewrite close_bind.
    destruct (negb (iso_private (pf_isolated c) =? 0)); [eexists; split; [done|apply Hnot]|].
    set (s2 := {| open_fds := delete socket0 _; now := _; errno := _ |}).
    destruct (ProbeDirectoryMountBackends_spec k fs_entry (iso_capture (pf_isolated c))
      (iso_calls (pf_isolated c)) source_path target_path s2 (ok_iso_capture Hok) (ok_iso_calls Hok) Hs)
      as (probe & s3 & E & _ & H).
    exists probe. split; [by rewrite E|]. intros required allow backend Hsel.
    destruct (H _ _ _ Hsel) as (_ & source & target & _ & _ & _ & _ & _ & W). by exists source, target. }
  rewrite (os_bind_run _ _ _ _ _ E2). eexists _, _. split; [done|]. split.
  - cbn. rewrite Ho. rewrite delete_insert_id by (by rewrite lookup_insert_ne). by apply delete_insert_id.
  - destruct (_ || _); [apply Hprobe|apply Hnot].
Qed.

Lemma settle_backend_spec w private namespace s :
  answers_ok -> size (target_locator_of w 0) < PATH_MAX ->
  exists r s', settle_backend k pid plan c w private namespace s = Ok (r, s') /\ open_fds s' = open_fds s
    /\ match r with
       | inl f => refused_error f <> 0
       | inr (backend, locked, _) => settled w private namespace backend locked
       end.
Proof.
  intros Hok Hs. unfold settle_backend. destruct private; cbn [negb].
  2: { eexists _, s. split; [done|]. done. }
  destruct (isolated_spec (source_locator_of w 0) (target_locator_of w 0) s Hok Hs)
    as (probe & s1 & E & Ho & H). rewrite (os_bind_run _ _ _ _ _ E).
  destruct (SelectMountBackend _ _ _) as [backend reason] eqn:Esel.
  pose proof (select_mount_backend_sound _ _ _ _ _ Esel) as (Hr & _ & _ & Hl).
  case_bool_decide as Eb.
  { eexists _, s1. split; [done|]. split; [done|]. cbn. destruct (Z.eqb_spec (probe_error probe) 0); done. }
  assert (reason = kReasonNone) as -> by (by apply Hr).
  destruct (_ && negb _) eqn:Ed; [by eexists _, s1|].
  eexists _, s1. split; [done|]. split; [done|]. split; [done|]. split; [by eapply H|]. intros ->.
  destruct (proj1 Hl eq_refl) as (_ & _ & Ha & _). split; [done|].
  rewrite bool_decide_eq_true_2 in Ed by done. by apply negb_false_iff in Ed.
Qed.

Lemma revalidate_spec snapshot start_time s :
  answers_ok -> usable snapshot ->
  exists r s', revalidate k uid plan topology c snapshot start_time s = Ok (r, s')
    /\ open_fds s' = open_fds s
    /\ (r = None ->
        ReadProcessUid (pf_lease_status c) uid = true
        /\ ReadProcessStartTime (pf_lease_stat c) = Some start_time
        /\ plan_is_current (pf_lease_policy c) uid plan = true
        /\ exists actual, topology_of k fs_entry snapshot uid (source_root topology) actual
             /\ SameStorageTopology topology actual = true).
Proof.
  intros Hok Hu. unfold revalidate. destruct (_ && _) eqn:Ep; cbn [negb]; [|by eexists _, s].
  assert (exists policy s0, read_lease_policy k c s = Ok (policy, s0) /\ open_fds s0 = open_fds s
            /\ (policy = None \/ policy = pf_lease_policy c)) as (policy & s0 & E0 & Ho0 & Hpolicy).
  { unfold read_lease_policy.
    destruct (new_descriptor_spec k fs_entry (pf_lease_policy_file c) s (ok_lease_policy Hok))
      as (number & s1 & E1 & _ & H1).
    rewrite (os_bind_run _ _ _ _ _ E1). destruct H1 as [(-> & Ho & _)|(x & _ & Hp & Hf & Ho)].
    { exists None, s1. split_and!; auto. }
    destruct (Z.ltb_spec number 0); [lia|]. eexists _, _. split; [done|]. split; [|by right].
    cbn. rewrite Ho. by apply delete_insert_id. }
  rewrite (os_bind_run _ _ _ _ _ E0).
  destruct (plan_is_current _ _ _) eqn:Epol; cbn [negb]; [|by eexists _, s0].
  assert (policy = pf_lease_policy c) as -> by (by destruct Hpolicy as [->|]).
  destruct (CaptureStorageTopology_spec k fs_entry uid (source_root topology) snapshot s0 Hu)
    as (r & s1 & E & Ho & Hr). rewrite Ho0 in Ho. rewrite (os_bind_run _ _ _ _ _ E).
  destruct r as [actual|]; [|by eexists _, s1].
  eexists _, s1. split; [done|]. split; [done|]. intros H.
  destruct (SameStorageTopology topology actual) eqn:Es; [|discriminate H].
  apply andb_true_iff in Ep as [Huid Hst%bool_decide_eq_true]. split_and!; try done.
  by exists actual.
Qed.

Lemma finish_preflight_spec base w e perf reason (s : Process Node) :
  held base (workspace_pins w) (open_fds s) ->
  exists s', finish_preflight w e perf reason s = Ok (refusal e perf reason, s') /\ open_fds s' = base.
Proof.
  intros H. destruct (close_workspace_spec base w s H) as (s' & E & Ho). exists s'. split; [|done].
  unfold finish_preflight. by rewrite (os_bind_run _ _ _ _ _ E).
Qed.

(** What an entered or refused worker leaves of its descriptors, [base] being what it had. *)
Definition entered (base : gmap Z Node) (r : Refusal + Ready) (s : Process Node) : Prop :=
  match r with
  | inl f => refused_error f <> 0 /\ open_fds s = base
  | inr ready => validated ready /\ held base (workspace_pins (ready_workspace ready)) (open_fds s)
  end.

Lemma rule_paths_fit deny_anchor_path mount target source :
  rule_paths plan topology deny_anchor_path mount = Some (target, source) -> size target < PATH_MAX.
Proof.
  unfold rule_paths. destruct (IsExecutableMountAction _); cbn [negb]; [|done].
  intros (visible & _ & H)%bind_Some. apply bind_Some in H as (backing & _ & H).
  apply bind_Some in H as (t & Ht & H). apply bind_Some in H as (x & _ & H). simplify_eq.
  unfold BuildPathUnderRoot in Ht. destruct (_ || _ || _); [done|].
  case_match eqn:E; simplify_eq. lia.
Qed.

Lemma first_target_fits snapshot deny_anchor_path w :
  workspace_ok k fs_entry plan topology deny_anchor_path snapshot w (plan_mounts plan) ->
  size (target_locator_of w 0) < PATH_MAX.
Proof.
  intros Hw. destruct (plan_mounts plan !! 0%nat) as [mount|] eqn:E.
  - destruct (ws_rules _ _ _ _ _ _ _ _ Hw 0%nat mount E) as (tp & sp & Hr & <- & _).
    by eapply rule_paths_fit.
  - apply lookup_ge_None in E. pose proof (ws_locators _ _ _ _ _ _ _ _ Hw).
    unfold target_locator_of. rewrite nth_overflow by lia. done.
Qed.

Lemma take_lease_spec snapshot w start_time namespace deny_anchor_path base s :
  answers_ok -> entered_namespace start_time namespace -> anchor_of_plan deny_anchor_path ->
  pf_capture c = inl snapshot ->
  MountInfoSnapshotMatchesCurrentNamespace snapshot (pf_current_namespace c) = true ->
  workspace_ok k fs_entry plan topology deny_anchor_path snapshot w (plan_mounts plan) ->
  held base (workspace_pins w) (open_fds s) ->
  exists r s', take_lease k pid uid plan topology c snapshot w start_time namespace s = Ok (r, s')
    /\ entered base r s'.
Proof.
  intros Hok Henter Hanchor Hcap Hns Hw Hh. unfold take_lease. cbv zeta.
  assert (usable snapshot) as Hu by (pose proof (ok_capture Hok) as H; by rewrite Hcap in H).
  destruct (revalidate_spec snapshot start_time s Hok Hu) as (changed & s1 & E1 & Ho1 & H1).
  rewrite (os_bind_run _ _ _ _ _ E1). rewrite <- Ho1 in Hh.
  destruct changed as [reason|].
  { destruct (finish_preflight_spec base w ESTALE first_backend reason s1 Hh) as (s2 & E2 & Ho2).
    eexists _, s2. split; [exact E2|]. by split. }
  destruct (H1 eq_refl) as (Huid & Hst & Hpol & Htop).
  destruct (settle_backend_spec w (StoragePropagationRequiresPrivate snapshot) namespace s1 Hok)
    as (settled_r & s1' & E2 & Ho1' & H2); [by eapply first_target_fits|]. rewrite <- Ho1' in Hh.
  rewrite (os_bind_run _ _ _ _ _ E2). destruct settled_r as [f|[[backend locked] perf]].
  { destruct (finish_preflight_spec base w (refused_error f) (refused_perf f) (refused_reason f) s1' Hh)
      as (s2 & E3 & Ho2). eexists _, s2. split; [exact E3|]. by split. }
  destruct (pf_cancelled_late c || negb (pf_lease c)) eqn:Ec.
  { destruct (finish_preflight_spec base w ECANCELED perf kRuntimeNone s1' Hh) as (s2 & E3 & Ho2).
    eexists _, s2. split; [exact E3|]. by split. }
  eexists (inr _), s1'. split; [done|]. split; [|done]. split_tests.
  destruct Henter as (? & ? & ? & _ & _). split; cbn; eauto 10.
Qed.

Lemma preflight_spec s :
  answers_ok ->
  exists r s', preflight k pid uid module_dir_fd plan topology c s = Ok (r, s')
    /\ match r with
       | inl f => refused_error f <> 0 /\ leftover (anchor_scans (pf_anchor c)) (open_fds s) (open_fds s')
       | inr ready => validated ready /\ held (open_fds s) (workspace_pins (ready_workspace ready)) (open_fds s')
       end.
Proof.
  intros Hok. unfold preflight.
  destruct (enter_namespace_spec s Hok) as (r & s0 & E0 & Ho0 & H0). rewrite (os_bind_run _ _ _ _ _ E0).
  destruct r as [f|[start_time namespace]]; [exists (inl f), s0; by split_and!; [..|left]|].
  destruct (plan_anchor_spec s0) as (r & s' & Ea & Hl & Ha). rewrite (os_bind_run _ _ _ _ _ Ea).
  rewrite Ho0 in Hl, Ha. clear s0 E0 Ho0 Ea.
  destruct r as [anchor|]; [|by eexists (inl _), s']. destruct (Ha anchor eq_refl) as [Hanchor Ho]. clear Ha Hl.
  assert (forall f s1, refused_error f <> 0 -> open_fds s1 = open_fds s ->
    refused_error f <> 0 /\ leftover (anchor_scans (pf_anchor c)) (open_fds s) (open_fds s1)) as Hleft by (by split; [|left]).
  destruct (pf_workspace c) as [e|].
  { eexists (inl _), s'. split; [done|]. apply Hleft; [|done]. cbn. by destruct (Z.eqb_spec e 0). }
  pose proof (ok_capture Hok) as Hcap. destruct (pf_capture c) as [snapshot|e] eqn:Ecap.
  2: { eexists (inl _), s'. split; [done|]. by apply Hleft. }
  destruct (MountInfoSnapshotMatchesCurrentNamespace _ _) eqn:Ens; cbn [negb].
  2: { eexists (inl _), s'. split; [done|]. by apply Hleft. }
  destruct (pin_rules_spec k fs_entry plan topology anchor snapshot Hcap (open_fds s') empty_workspace []
    (plan_mounts plan) s' (empty_workspace_ok k fs_entry plan topology anchor snapshot) (held_nil _))
    as (e & w & s1 & E & Hh & Hw).
  rewrite (os_bind_run _ _ _ _ _ E). rewrite Ho in Hh. destruct (Z.eqb_spec e 0) as [->|He]; cbn [negb].
  - destruct (take_lease_spec snapshot w start_time namespace anchor (open_fds s) s1) as (r & s2 & E2 & H2); auto.
    exists r, s2. split; [exact E2|]. destruct r as [f|ready]; [|exact H2]. destruct H2. by apply Hleft.
  - destruct (finish_preflight_spec (open_fds s) w e first_backend kRuntimeNone s1 Hh) as (s2 & E2 & Ho2).
    eexists _, s2. split; [exact E2|]. by apply Hleft.
Qed.
End Sound.

(** ** Property *)

Definition transaction_calls_ok (t : TransactionCalls) : Prop :=
  (forall e, t_after_mounts t = inr e -> e <> 0) /\ (forall e, t_rollback_before t = inr e -> e <> 0)
  /\ (forall e, t_rollback_after t = inr e -> e <> 0).

(** C2. [ApplyProcessPlan] always returns. Of the descriptors that it makes - of the namespace, the
    anchor and its parent, the sockets of the probe, the policy and the pins - it leaves none open,
    but for one case: when the deny anchor could be opened and its scan not started ([fdopendir]
    fails), the descriptor of the scan stays open, one more than before, and the plan is refused.
    Either it refuses with an error before any mount; or it was [validated] when it took the lease -
    the process is still the one it was, the policy on disk gives exactly this plan, the storage
    topology is the one the plan was made for, a plan that denies has an inert anchor, every target
    and source is the pinned directory of its rule, and a backend that must not propagate was
    probed - and then its transaction ended committed, or undone and reported, in the sense of
    [transaction_atomic]. The members of the namespace are terminated exactly when the transaction
    asks for it, and only members are. Mounts by path are used only if the policy allows them and
    the process is alone in its namespace. *)
Theorem apply_process_plan_safe {Node : Type} (k : Kernel Node) fs_entry `{!KernelOf k fs_entry}
    pid uid module_dir_fd plan topology c t s :
  answers_ok c -> transaction_calls_ok t -> (length (plan_mounts plan) <= kJournalCapacity)%nat ->
  exists r s', ApplyProcessPlan k pid uid module_dir_fd plan topology c t s = Ok (Some r, s')
    /\ match r with
       | inl f => refused_error f <> 0 /\ leftover (anchor_scans (pf_anchor c)) (open_fds s) (open_fds s')
       | inr (o, terminated) =>
           open_fds s' = open_fds s
           /\ exists ready, validated k fs_entry pid uid plan topology c ready
           /\ (let env := environment pid plan c t ready in committed env o \/ undone env o /\ reported env o)
           /\ o_untracked o = false
           /\ (is_Some terminated <-> o_terminates o = true)
           /\ (forall result, terminated = Some result ->
                termination_sound (t_procs t) (pf_self c) (ready_namespace ready) result)
           /\ (o_backend o = kLegacyString -> allow_legacy plan = true
               /\ exists proc, (proc = pf_proc c \/ proc = t_proc t)
                    /\ IsDisposableAppNamespace proc (pf_self c) pid (ready_namespace ready) = true)
       end.
Proof.
  intros Hok Ht Hn. unfold ApplyProcessPlan.
  destruct (preflight_spec k fs_entry pid uid module_dir_fd plan topology c s Hok) as (r & s1 & E & H).
  rewrite (os_bind_run _ _ _ _ _ E). destruct r as [f|ready]; [by exists (inl f), s1|].
  destruct H as [Hv Hh]. set (env := environment pid plan c t ready).
  destruct (transact_spec env (ready_backend ready) (ready_locked ready) (ready_perf ready) Hn Ht)
    as (o & Eo & Hun & Hend & Hback). rewrite Eo.
  destruct (close_workspace_spec (open_fds s) (ready_workspace ready) s1 Hh) as (s2 & E2 & Ho2).
  eexists (inr (o, _)), s2. split; [by rewrite (os_bind_run _ _ _ _ _ E2)|]. split; [done|].
  exists ready. split_and!; [done|done|done|..].
  { destruct (o_terminates o); split; [done|by eexists|by intros []|done]. }
  { intros result. destruct (o_terminates o); intros [= <-]. apply TerminateNamespaceMembers_sound. }
  intros Hl. pose proof (v_backend _ _ _ _ _ _ _ _ Hv) as [Hlock Hset].
  destruct Hback as [Hb|[Hfree Hlegacy]].
  - rewrite Hl in Hb. destruct (ready_private ready); [|by rewrite <- Hb in Hset].
    destruct Hset as [_ Hset]. destruct (Hset (eq_sym Hb)) as [Ha Hd]. split; [done|].
    exists (pf_proc c). split; [by left|done].
  - destruct (Hlegacy Hl) as (Ha & Hd & _). split; [done|]. exists (t_proc t). split; [by right|done].
Qed.

(** ** Witness: a plan that denies one directory, on a device whose /storage does not propagate *)

Definition module_path : list bytes := [lit "data"; lit "adb"; lit "modules"; lit "pathguard"].

Definition device_directories : list (list bytes) :=
  [[]; [lit "storage"]; [lit "storage"; lit "emulated"]; [lit "storage"; lit "emulated"; lit "10"];
   [lit "storage"; lit "emulated"; lit "10"; lit "DCIM"]; [lit "data"]; [lit "data"; lit "adb"];
   [lit "data"; lit "adb"; lit "modules"]; module_path; module_path ++ [lit "run"];
   module_path ++ [lit "run"; lit "deny-anchor"]].

Definition device_stat (node : list bytes) : Stat :=
  {| st_is_dir := true;
     st_dev := if head node == Some (lit "storage") then 40 else sample_makedev 8 1;
     st_ino := 8 + size (concat node) |}.

Definition device_kernel : Kernel (list bytes) := tree_kernel device_directories device_stat.

#[export] Instance device_kernel_of : KernelOf device_kernel (tree_entry device_directories).
Proof. apply tree_kernel_of. Qed.

Definition device_mountinfo : bytes :=
  lit "21 1 8:1 / / rw shared:1 - ext4 /dev/root rw" ++ [x0a]
  ++ lit "25 21 0:30 / /storage rw master:2 - tmpfs tmpfs rw" ++ [x0a]
  ++ lit "30 25 0:40 / /storage/emulated rw - fuse /dev/fuse rw" ++ [x0a].

Definition device_snapshot : MountInfoSnapshot :=
  match CaptureMountInfoSnapshot sample_makedev (4, 7) device_mountinfo with Ok s => s | _ => unread end.

Lemma device_captures :
  CaptureMountInfoSnapshot sample_makedev (4, 7) device_mountinfo = Ok device_snapshot.
Proof. vm_compute. reflexivity. Qed.

(** The worker has the module directory on descriptor 5. *)
Definition device_process : Process (list bytes) := {| open_fds := {[5 := module_path]}; now := 0; errno := 0 |}.

Definition device_topology : RuntimeStorageTopology :=
  match CaptureStorageTopologyFromSnapshot device_kernel 1010123 (lit "/storage/emulated/10")
          device_snapshot device_process with
  | Ok (Some t, _) => t
  | _ => {| user_id := 0; generation := 0; visible_root := []; source_root := [];
            visible_identity := no_identity; source_identity := no_identity |}
  end.

Definition process_status : bytes :=
  lit "Name:" ++ x09 :: lit "a" ++ x0a :: lit "Uid:" ++ x09 :: lit "1010123" ++ x09 :: lit "1010123".

Definition process_stat : bytes :=
  lit "7 (a:remote) S 1 0 0 0 -1 0 0 0 0 0 0 0 0 0 20 0 1 0 987654 0" ++ [x0a].

Definition device_anchor : bytes := lit "/data/adb/modules/pathguard/run/deny-anchor".

Definition device_calls_with (scans : bool) : PreflightCalls (list bytes) :=
  {| pf_cancelled := false; pf_status := Some process_status; pf_stat := Some process_stat;
     pf_open_namespace := inl []; pf_setns := 0; pf_namespace := inl (4, 7);
     pf_anchor :=
       {| anchor_stat := Some (device_stat (module_path ++ [lit "run"; lit "deny-anchor"]), 0, 0);
          anchor_scans := scans; anchor_names := [lit "."; lit ".."]; anchor_read_errno := 0;
          anchor_module_path := Some (lit "/data/adb/modules/pathguard");
          anchor_lstat := fun path => Some (device_stat (components path)) |};
     pf_workspace := None; pf_capture := inl device_snapshot; pf_current_namespace := Some (4, 7);
     pf_lease_status := Some process_status; pf_lease_stat := Some process_stat;
     pf_lease_policy_file := inl []; pf_lease_policy := Some small_file;
     pf_isolated := {| iso_socketpair := inl ([], []); iso_fork := ENOMEM; iso_private := 0;
                       iso_capture := inr EIO; iso_calls := sample_calls; iso_received := false |};
     pf_proc := []; pf_self := 1; pf_cancelled_late := false; pf_lease := true |}.

Definition device_calls : PreflightCalls (list bytes) := device_calls_with true.

Definition device_transaction : TransactionCalls :=
  {| t_apply := fun _ _ => sample_sys; t_verify := fun _ => sample_sys;
     t_validate := fun _ => sample_sys; t_unmount := fun _ => sample_sys;
     t_confirm := fun _ => sample_sys; t_proc := []; t_cancelled := fun _ => false;
     t_propagation := 0; t_after_mounts := inr EIO; t_rollback_before := inr EIO;
     t_rollback_after := inr EIO; t_publishes := true; t_current := kApplying; t_current_stays := true;
     t_procs := fun _ => None; t_kills := fun _ _ => false |}.

Lemma device_calls_ok : answers_ok device_calls.
Proof.
  split.
  1-4: intros e E; discriminate E.
  - eapply captured_usable, device_captures.
  - discriminate.
  - intros b. exact (conj sample_before_usable (conj sample_usable sample_before_usable)).
Qed.

Lemma apply_process_plan_safe_witness :
  exists o s' ready,
    ApplyProcessPlan device_kernel 7 1010123 5 small_plan device_topology device_calls
      device_transaction device_process = Ok (Some (inr (o, None)), s')
    /\ o_complete o = true /\ open_fds s' = {[5 := module_path]}
    /\ validated device_kernel (tree_entry device_directories) 7 1010123 small_plan
         device_topology device_calls ready.
Proof.
  destruct (apply_process_plan_safe device_kernel (tree_entry device_directories) 7 1010123 5 small_plan
    device_topology device_calls device_transaction device_process device_calls_ok)
    as (r & s' & E & H).
  - split; [|split]; intros e Ee; injection Ee as <-; discriminate.
  - vm_compute. lia.
  - assert (match ApplyProcessPlan device_kernel 7 1010123 5 small_plan device_topology device_calls
                    device_transaction device_process with
            | Ok (Some (inr (o, None)), _) => o_complete o = true | _ => False end) as Hrun
      by (vm_compute; reflexivity).
    rewrite E in Hrun. destruct r as [f|[o [|]]]; [destruct Hrun|destruct Hrun|].
    destruct H as (Ho & ready & Hv & _). exists o, s', ready.
    exact (conj E (conj Hrun (conj Ho Hv))).
Defined.

(** When the scan of the anchor cannot start, its descriptor is left open. *)
Example scan_descriptor_leaks :
  match ApplyProcessPlan device_kernel 7 1010123 5 small_plan device_topology (device_calls_with false)
          device_transaction device_process with
  | Ok (Some (inl f), s') =>
      refused_error f = ENOTSUP /\ exists node, open_fds s' = <[8 := node]> (open_fds device_process)
  | _ => False
  end.
Proof. vm_compute. split; [done|]. by eexists. Qed.
