(* ===== verification/Source.v ===== *)
(** * Rules sources: spans, diagnostics, positions, the format line

    rules/include/pathguard/rules_contract.h, rules/.../diagnostic.h and diagnostic.cpp,
    source.h and source.cpp, format_probe.h and format_probe.cpp. Offsets into a source
    are [nat]; the 32-bit fields of a [ByteSpan] are [Z], with the conversion written
    out where the code casts. *)

From S2P Require Import Prelude.

Local Open Scope pg_scope.

(** ** rules_contract.h *)

Record RulesLimits : Type := {
  max_source_bytes : Z;
  max_container_depth : Z;
  max_tokens_or_nodes : Z;
  max_apps : Z;
  max_rules_per_app : Z;
  max_expanded_rules : Z;
  max_path_bytes : Z;
  max_path_components : Z;
  max_string_token_bytes : Z;
  max_rewrites : Z;
  max_rewrite_segments : Z;
  max_diagnostics : Z;
  max_related_spans : Z;
  max_generated_bytes : Z;
}.

Definition default_limits : RulesLimits :=
  {| max_source_bytes := 1024 * 1024; max_container_depth := 128; max_tokens_or_nodes := 65536;
     max_apps := 1024; max_rules_per_app := 4096; max_expanded_rules := 8192;
     max_path_bytes := 4095; max_path_components := 256; max_string_token_bytes := 4096;
     max_rewrites := 4096; max_rewrite_segments := 24577; max_diagnostics := 64;
     max_related_spans := 8; max_generated_bytes := 2 * 1024 * 1024 |}.

Definition kArrowContext : bytes := lit "PG-ARROW-CONTEXT".
Definition kArrowOperand : bytes := lit "PG-ARROW-OPERAND".
Definition kArrowChained : bytes := lit "PG-ARROW-CHAINED".
Definition kArrowMissingComma : bytes := lit "PG-ARROW-MISSING-COMMA".
Definition kArrowCommentInside : bytes := lit "PG-ARROW-COMMENT-INSIDE".
Definition kArrowStringBoundary : bytes := lit "PG-ARROW-STRING-BOUNDARY".
Definition kDesugarInternal : bytes := lit "PG-DESUGAR-INTERNAL".
Definition kResourceLimit : bytes := lit "PG-RESOURCE-LIMIT".
Definition kFormatMissing : bytes := lit "PG-FORMAT-MISSING".
Definition kFormatInvalid : bytes := lit "PG-FORMAT-INVALID".
Definition kFormatUnsupported : bytes := lit "PG-FORMAT-UNSUPPORTED".
Definition kDiagnosticsOmitted : bytes := lit "PG-DIAGNOSTICS-OMITTED".
Definition kRuleArrowScope : bytes := lit "PG-RULE-ARROW-SCOPE".
Definition kRedirectSyntax : bytes := lit "PG-REDIRECT-SYNTAX".
Definition kCompilerInternal : bytes := lit "PG-COMPILER-INTERNAL".
Definition kTomlParse : bytes := lit "PG-TOML-PARSE".
Definition kTypeMismatch : bytes := lit "PG-RULE-TYPE".
Definition kUnknownField : bytes := lit "PG-RULE-UNKNOWN-FIELD".
Definition kInvalidValue : bytes := lit "PG-RULE-INVALID-VALUE".
Definition kPathInvalid : bytes := lit "PG-PATH-INVALID".
Definition kRuleRedundant : bytes := lit "PG-RULE-REDUNDANT".
Definition kRuleConflict : bytes := lit "PG-RULE-CONFLICT".
Definition kRedirectCycle : bytes := lit "PG-REDIRECT-CYCLE".
Definition kPolicyEncode : bytes := lit "PG-POLICY-ENCODE".

(** ** diagnostic.h *)

Record ByteSpan : Type := { span_begin : Z; span_end : Z }.

Definition span_size (s : ByteSpan) : Z := u32 (span_end s - span_begin s).

#[export] Instance byte_span_eq_dec : EqDecision ByteSpan.
Proof. solve_decision. Defined.

Inductive DiagnosticSeverity : Set := kError | kWarning.

Inductive DiagnosticPhase : Set :=
  | kSource | kLex | kParse | kDecode | kSemantic | kAdmission | kPublish | kInternal.

#[export] Instance diagnostic_severity_eq_dec : EqDecision DiagnosticSeverity.
Proof. solve_decision. Defined.

Record RelatedSpan : Type := { related_span : ByteSpan; related_message_key : bytes }.

Record Diagnostic : Type := {
  code : bytes;
  message_key : bytes;
  primary : ByteSpan;
  omitted : bool;
  severity : DiagnosticSeverity;
  phase : DiagnosticPhase;
  related : list RelatedSpan;
  field_path : bytes;
  arguments : list bytes;
}.

(** The aggregate [{code, message_key, primary, omitted}], with the default members. *)
Definition diagnostic (c key : bytes) (span : ByteSpan) (o : bool) : Diagnostic :=
  {| code := c; message_key := key; primary := span; omitted := o; severity := kError;
     phase := kLex; related := []; field_path := []; arguments := [] |}.

Definition no_span : ByteSpan := {| span_begin := 0; span_end := 0 |}.

(** ** source.cpp *)

Definition HasUtf8Bom (input : bytes) : bool :=
  match input with
  | xef :: xbb :: xbf :: _ => true
  | _ => false
  end.

(** The [while] loops that skip the bytes with a property: the offset where they stop. *)
Fixpoint prefix_length (p : byte -> bool) (s : bytes) : nat :=
  match s with
  | b :: s => if p b then S (prefix_length p s) else O
  | [] => O
  end.

Definition skip_while (p : byte -> bool) (input : bytes) (offset : nat) : nat :=
  (offset + prefix_length p (drop offset input))%nat.

Definition continuation (b : byte) : bool := Z.land (byte_val b) 192 =? 128.

Definition Utf8Width (input : bytes) (offset limit : nat) : nat :=
  match input !! offset with
  | None => 1%nat
  | Some b =>
      let lead := byte_val b in
      let width := if Z.land lead 224 =? 192 then 2%nat
                   else if Z.land lead 240 =? 224 then 3%nat
                   else if Z.land lead 248 =? 240 then 4%nat else 1%nat in
      if bool_decide (limit < offset + width)%nat then 1%nat
      else if forallb continuation (take (width - 1) (drop (S offset) input)) then width else 1%nat
  end.

Definition is_newline_at (input : bytes) (offset : nat) : bool :=
  match input !! offset with
  | Some x0a => true
  | _ => false
  end.

(** [LineIndex::line_starts_] *)
Fixpoint line_starts_from (offset : nat) (input : bytes) : list nat :=
  match input with
  | b :: rest =>
      if b == x0a then S offset :: line_starts_from (S offset) rest
      else line_starts_from (S offset) rest
  | [] => []
  end.

Definition line_starts (input : bytes) : list nat := 0%nat :: line_starts_from 0 input.

Record SourcePosition : Type := { position_line : Z; position_column : Z }.

(** The loop that counts columns; the cursor moves at every step. *)
Fixpoint count_columns (fuel : nat) (input : bytes) (offset cursor : nat) (column : Z) : Z :=
  match fuel with
  | O => column
  | S fuel =>
      if bool_decide (cursor < offset)%nat then
        if (input !! cursor == Some x0d) && is_newline_at input (S cursor)
        then count_columns fuel input offset (S cursor) column
        else count_columns fuel input offset (cursor + Utf8Width input cursor offset) (column + 1)
      else column
  end.

(** [std::upper_bound] on ascending offsets: how many are not beyond the value. *)
Fixpoint upper_bound (value : nat) (l : list nat) : nat :=
  match l with
  | x :: l => if bool_decide (x <= value)%nat then S (upper_bound value l) else O
  | [] => O
  end.

Definition PositionAt (input : bytes) (offset : nat) : option SourcePosition :=
  if bool_decide (length input < offset)%nat then None
  else
    let line_index := (upper_bound offset (line_starts input) - 1)%nat in
    let line_start := nth line_index (line_starts input) 0%nat in
    let cursor := if bool_decide (line_index = 0%nat) && HasUtf8Bom input
                     && bool_decide (line_start < 3)%nat && bool_decide (3 <= offset)%nat
                  then 3%nat else line_start in
    Some {| position_line := Z.of_nat line_index + 1;
            position_column := count_columns (S offset) input offset cursor 1 |}.

Record SourceBuffer : Type := { file_name : bytes; source_bytes : bytes }.

Definition source_size (s : SourceBuffer) : Z := u32 (size (source_bytes s)).

Definition Create (name input : bytes) (limits : RulesLimits) : outcome Diagnostic SourceBuffer :=
  if (max_source_bytes limits <? size input) || (2 ^ 32 - 1 <? size input) then
    Err (diagnostic kResourceLimit (lit "rules.source_too_large")
           {| span_begin := 0; span_end := Z.min (size input) (2 ^ 32 - 1) |} false)
  else Ok {| file_name := name; source_bytes := input |}.

Definition IsValidSpan (s : SourceBuffer) (span : ByteSpan) : bool :=
  (span_begin span <=? span_end span) && (span_end span <=? size (source_bytes s)).

(** ** diagnostic.cpp *)

Definition SeverityName (s : DiagnosticSeverity) : bytes :=
  match s with
  | kWarning => lit "warning"
  | kError => lit "error"
  end.

Definition PhaseName (p : DiagnosticPhase) : bytes :=
  match p with
  | kSource => lit "source"
  | kLex => lit "lex"
  | kParse => lit "parse"
  | kDecode => lit "decode"
  | kSemantic => lit "semantic"
  | kAdmission => lit "admission"
  | kPublish => lit "publish"
  | kInternal => lit "internal"
  end.

Definition hex_digit (z : Z) : byte := byte_of (if z <? 10 then 48 + z else 87 + z).

Definition escape_byte (b : byte) : bytes :=
  match b with
  | x22 => [x5c; x22]
  | x5c => [x5c; x5c]
  | x08 => [x5c; x62]
  | x0c => [x5c; x66]
  | x0a => [x5c; x6e]
  | x0d => [x5c; x72]
  | x09 => [x5c; x74]
  | _ => if byte_val b <? 32
         then [x5c; x75; x30; x30; hex_digit (Z.shiftr (byte_val b) 4);
               hex_digit (Z.land (byte_val b) 15)]
         else [b]
  end.

Definition EscapeJson (value : bytes) : bytes := flat_map escape_byte value.

Definition PositionOrDefault (s : SourceBuffer) (offset : Z) : SourcePosition :=
  match PositionAt (source_bytes s) (Z.to_nat offset) with
  | Some p => p
  | None => {| position_line := 1; position_column := 1 |}
  end.

Definition RenderDiagnosticText (d : Diagnostic) (s : SourceBuffer) : bytes :=
  let position := PositionOrDefault s (span_begin (primary d)) in
  file_name s ++ lit ":" ++ to_string (position_line position)
  ++ lit ":" ++ to_string (position_column position)
  ++ lit ": " ++ SeverityName (severity d) ++ lit "[" ++ code d ++ lit "] " ++ message_key d
  ++ (if field_path d == [] then [] else lit " (" ++ field_path d ++ lit ")").

Definition quoted (s : bytes) : bytes := [x22] ++ s ++ [x22].

Definition member (key value : bytes) : bytes := quoted key ++ lit ":" ++ value.

Definition RenderDiagnosticJson (d : Diagnostic) (s : SourceBuffer) : bytes :=
  let first := PositionOrDefault s (span_begin (primary d)) in
  let last := PositionOrDefault s (span_end (primary d)) in
  let text v := quoted (EscapeJson v) in
  lit "{" ++ member (lit "file") (text (file_name s))
  ++ lit "," ++ member (lit "code") (text (code d))
  ++ lit "," ++ member (lit "severity") (quoted (SeverityName (severity d)))
  ++ lit "," ++ member (lit "phase") (quoted (PhaseName (phase d)))
  ++ lit "," ++ member (lit "message_key") (text (message_key d))
  ++ lit "," ++ member (lit "field_path") (text (field_path d))
  ++ lit "," ++ quoted (lit "span") ++ lit ":{"
  ++ member (lit "begin") (to_string (span_begin (primary d)))
  ++ lit "," ++ member (lit "end") (to_string (span_end (primary d)))
  ++ lit "," ++ member (lit "begin_line") (to_string (position_line first))
  ++ lit "," ++ member (lit "begin_column") (to_string (position_column first))
  ++ lit "," ++ member (lit "end_line") (to_string (position_line last))
  ++ lit "," ++ member (lit "end_column") (to_string (position_column last)) ++ lit "}}".

(** ** format_probe.cpp *)

Definition IsHorizontalSpace (b : byte) : bool := (b == x20) || (b == x09).

Definition SpanAt (b e : nat) : ByteSpan :=
  {| span_begin := u32 (Z.of_nat b); span_end := u32 (Z.of_nat e) |}.

Definition is_blank (b : byte) : bool :=
  (b == x20) || (b == x09) || (b == x0d) || (b == x0a).

(** The loop before the declaration: blanks and comments. *)
Fixpoint skip_blanks (fuel : nat) (input : bytes) (offset : nat) : nat :=
  match fuel with
  | O => offset
  | S fuel =>
      match input !! offset with
      | None => offset
      | Some b =>
          if is_blank b then skip_blanks fuel input (S offset)
          else if b == x23
          then skip_blanks fuel input (skip_while (fun c => c != x0a) input offset)
          else offset
      end
  end.

Definition is_value_end (b : byte) : bool :=
  IsHorizontalSpace b || (b == x23) || (b == x0d) || (b == x0a).

Definition canonical_decimal (value : bytes) : bool :=
  (negb (bool_decide (value = []))) && forallb is_digit value
  && ((value == lit "0") || negb (bool_decide (head value = Some x30))).

(** [ProbeRulesFormat]: the version, or the diagnostic of a result that is not [ok]. *)
Definition ProbeRulesFormat (s : SourceBuffer) : outcome Diagnostic Z :=
  let input := source_bytes s in
  let n := length input in
  let error c key b e := Err (diagnostic c key (SpanAt b e) false) in
  let offset := skip_blanks (S n) input (if HasUtf8Bom input then 3 else 0) in
  if bool_decide (offset = n) then
    error kFormatMissing (lit "rules.format_missing") offset offset
  else if take 6 (drop offset input) != lit "format" then
    error kFormatInvalid (lit "rules.format_must_be_first") offset (Nat.min n (offset + 1)%nat)
  else
    let declaration_begin := offset in
    let offset := (offset + 6)%nat in
    let at_ offset (p : byte -> bool) :=
      match input !! offset with Some b => p b | None => false end in
    if at_ offset (fun b => negb (IsHorizontalSpace b) && (b != x3d)) then
      error kFormatInvalid (lit "rules.format_bare_key_required") declaration_begin
        (Nat.min n (offset + 1)%nat)
    else
      let offset := skip_while IsHorizontalSpace input offset in
      if negb (at_ offset (fun b => b == x3d)) then
        error kFormatInvalid (lit "rules.format_equals_required") declaration_begin offset
      else
        let value_begin := skip_while IsHorizontalSpace input (S offset) in
        let value_end := skip_while (fun b => negb (is_value_end b)) input value_begin in
        let value := take (value_end - value_begin) (drop value_begin input) in
        let offset := skip_while IsHorizontalSpace input value_end in
        if at_ offset (fun b => (b != x23) && (b != x0d) && (b != x0a)) then
          error kFormatInvalid (lit "rules.format_invalid_value") value_begin (offset + 1)%nat
        else if value == lit "1" then Ok 1
        else if canonical_decimal value then
          error kFormatUnsupported (lit "rules.format_unsupported") value_begin offset
        else error kFormatInvalid (lit "rules.format_invalid_value") value_begin offset.

(** ** Reference notions *)

(** A well-formed UTF-8 character on one line: its lead byte announces its length. *)
Definition lead_of (length : nat) (b : byte) : Prop :=
  match length with
  | 1%nat => 0 <= byte_val b < 128 /\ b <> x0a /\ b <> x0d
  | 2%nat => 194 <= byte_val b < 224
  | 3%nat => 224 <= byte_val b < 240
  | 4%nat => 240 <= byte_val b < 245
  | _ => False
  end.

Definition utf8_char (c : bytes) : Prop :=
  match c with
  | lead :: tail => lead_of (length c) lead /\ Forall (fun b => 128 <= byte_val b < 192) tail
  | [] => False
  end.

Definition count_newlines (s : bytes) : nat := length (filter (fun b => b = x0a) s).

Definition bom : bytes := [xef; xbb; xbf].

(** What may stand before the first character of a line that is counted. *)
Definition line_begin (input before : bytes) : Prop :=
  before = [] /\ HasUtf8Bom input = false \/ before = bom \/ exists p, before = p ++ [x0a].

(** Blanks and complete comment lines. *)
Inductive blanks : bytes -> Prop :=
  | blanks_nil : blanks []
  | blanks_space b s : is_blank b = true -> blanks s -> blanks (b :: s)
  | blanks_comment c s : x0a ∉ c -> blanks s -> blanks (x23 :: c ++ x0a :: s).

Definition ends_line (rest : bytes) : Prop :=
  match rest with
  | [] => True
  | b :: _ => b = x23 \/ b = x0d \/ b = x0a
  end.

(** A source whose first statement is [format = 1]. *)
Definition declares_format_1 (input : bytes) : Prop :=
  exists mark pre s1 s2 s3 rest,
    input = mark ++ pre ++ lit "format" ++ s1 ++ lit "=" ++ s2 ++ lit "1" ++ s3 ++ rest
    /\ (mark = [] \/ mark = bom) /\ blanks pre
    /\ Forall (fun b => IsHorizontalSpace b = true) (s1 ++ s2 ++ s3) /\ ends_line rest.

(** The value of a JSON string body. Only the escapes of one byte are needed. *)
Definition hex_value (b : byte) : option Z :=
  let v := byte_val b in
  if (48 <=? v) && (v <=? 57) then Some (v - 48)
  else if (97 <=? v) && (v <=? 102) then Some (v - 87)
  else if (65 <=? v) && (v <=? 70) then Some (v - 55) else None.

Definition json_escape (b : byte) : option byte :=
  match b with
  | x22 => Some x22
  | x5c => Some x5c
  | x2f => Some x2f
  | x62 => Some x08
  | x66 => Some x0c
  | x6e => Some x0a
  | x72 => Some x0d
  | x74 => Some x09
  | _ => None
  end.

Fixpoint json_value (s : bytes) : option bytes :=
  match s with
  | [] => Some []
  | b :: s =>
      if b == x5c then
        match s with
        | [] => None
        | e :: s =>
            if e == x75 then
              match s with
              | z0 :: z1 :: h :: l :: s =>
                  h ← hex_value h; l ← hex_value l;
                  if (z0 == x30) && (z1 == x30) && (16 * h + l <? 128)
                  then cons (byte_of (16 * h + l)) <$> json_value s else None
              | _ => None
              end
            else c ← json_escape e; cons c <$> json_value s
        end
      else if (b == x22) || (byte_val b <? 32) then None else cons b <$> json_value s
  end.

(** ** Lemmas *)

Lemma prefix_split p s :
  exists a r, s = a ++ r /\ prefix_length p s = length a /\ Forall (fun b => p b = true) a
    /\ match r with b :: _ => p b = false | [] => True end.
Proof.
  induction s as [|b s (a & r & -> & E & Ha & Hr)]; [by exists [], []|]. cbn [prefix_length].
  destruct (p b) eqn:Hb; [|by exists [], (b :: a ++ r)].
  exists (b :: a), r. cbn. rewrite E. split_and!; [done|done|by constructor|done].
Qed.

Lemma prefix_length_app p a r :
  Forall (fun b => p b = true) a -> match r with b :: _ => p b = false | [] => True end ->
  prefix_length p (a ++ r) = length a.
Proof.
  intros Ha Hr. induction Ha as [|b a Hb Ha IH]; cbn; [destruct r as [|b r]; [done|cbn; by rewrite Hr]|].
  by rewrite Hb, IH.
Qed.

Lemma skip_while_at p b s : skip_while p (b ++ s) (length b) = (length b + prefix_length p s)%nat.
Proof. unfold skip_while. by rewrite drop_app_length. Qed.

Lemma lookup_at (b s : bytes) : (b ++ s) !! length b = head s.
Proof. rewrite lookup_app_r, Nat.sub_diag by done. by destruct s. Qed.

Lemma escape_json_byte b s : json_value (escape_byte b ++ s) = cons b <$> json_value s.
Proof. destruct b; reflexivity. Qed.

(** *** Positions *)

Lemma upper_bound_lines offset o s :
  upper_bound offset (line_starts_from o s) = count_newlines (take (offset - o) s).
Proof.
  revert o. induction s as [|b s IH]; intros o; [by destruct (offset - o)%nat|].
  cbn [line_starts_from]. destruct (decide (offset <= o)%nat) as [Hle|Hgt].
  - replace (offset - o)%nat with 0%nat by lia. cbn [take]. change (count_newlines []) with 0%nat.
    assert (forall o', (offset <= o')%nat -> upper_bound offset (line_starts_from o' s) = 0%nat) as H.
    { intros o' H. rewrite IH. by replace (offset - o')%nat with 0%nat by lia. }
    destruct (_ == _); [|apply H; lia]. cbn [upper_bound].
    rewrite bool_decide_eq_false_2 by lia. done.
  - replace (offset - o)%nat with (S (offset - S o)) by lia. cbn [take]. unfold count_newlines.
    rewrite filter_cons. case_bool_decide as Hb.
    + rewrite decide_True by done. cbn [upper_bound length].
      rewrite bool_decide_eq_true_2 by lia. by rewrite IH.
    + rewrite decide_False by done. apply IH.
Qed.

Lemma nth_line_start o p s :
  nth (count_newlines p) (line_starts_from o (p ++ x0a :: s)) 0%nat = (o + length p + 1)%nat.
Proof.
  revert o. induction p as [|b p IH]; intros o; unfold count_newlines; cbn [Datatypes.app line_starts_from].
  - rewrite bool_decide_eq_true_2 by done. cbn. lia.
  - rewrite filter_cons. case_bool_decide.
    + rewrite decide_True by done. cbn. rewrite IH. lia.
    + rewrite decide_False by done. fold (count_newlines p). rewrite IH. cbn. lia.
Qed.

Lemma count_newlines_app p q : count_newlines (p ++ q) = (count_newlines p + count_newlines q)%nat.
Proof. unfold count_newlines. by rewrite filter_app, length_app. Qed.

Lemma lead_bits n b :
  lead_of n b ->
  n = (if Z.land (byte_val b) 224 =? 192 then 2%nat
       else if Z.land (byte_val b) 240 =? 224 then 3%nat
       else if Z.land (byte_val b) 248 =? 240 then 4%nat else 1%nat).
Proof.
  intros H. destruct n as [|[|[|[|[|n]]]]]; cbn in H; try done.
  all: destruct b; vm_compute in H |- *; try reflexivity; exfalso; intuition congruence.
Qed.

Lemma continuation_range b : 128 <= byte_val b < 192 -> continuation b = true.
Proof. destruct b; vm_compute; intros []; congruence. Qed.

Lemma utf8_no_newline c : utf8_char c -> x0a ∉ c /\ x0d ∉ c.
Proof.
  destruct c as [|lead tail]; [done|]. intros [Hl Ht].
  assert (lead <> x0a /\ lead <> x0d) as [].
  { destruct (length (lead :: tail)) as [|[|[|[|[|n]]]]]; cbn in Hl; try done; try tauto.
    all: split; intros ->; vm_compute in Hl; intuition congruence. }
  rewrite !not_elem_of_cons. split_and!; try done.
  all: intros Hin; rewrite Forall_forall in Ht; specialize (Ht _ Hin); vm_compute in Ht; intuition congruence.
Qed.

Lemma utf8_width pre c rest limit :
  utf8_char c -> (length pre + length c <= limit)%nat ->
  Utf8Width (pre ++ c ++ rest) (length pre) limit = length c.
Proof.
  destruct c as [|lead tail]; [done|]. intros [Hl Ht] Hlim. unfold Utf8Width.
  rewrite lookup_at. cbn [head Datatypes.app]. rewrite <- (lead_bits _ _ Hl).
  rewrite bool_decide_eq_false_2 by lia.
  replace (drop (S (length pre)) (pre ++ lead :: tail ++ rest)) with (tail ++ rest).
  2:{ change (lead :: tail ++ rest) with ([lead] ++ tail ++ rest).
      rewrite app_assoc, drop_app_length'; [done|]. rewrite length_app. cbn. lia. }
  cbn [length]. rewrite Nat.sub_succ, Nat.sub_0_r, take_app_length.
  assert (forallb continuation tail = true) as ->; [|done].
  apply forallb_forall. rewrite Forall_forall in Ht. intros b Hb. apply continuation_range, Ht.
  by apply list_elem_of_In.
Qed.

Lemma count_columns_chars fuel pre chars after column :
  Forall utf8_char chars -> (length (concat chars) < fuel)%nat ->
  count_columns fuel (pre ++ concat chars ++ after) (length pre + length (concat chars))
    (length pre) column = column + Z.of_nat (length chars).
Proof.
  intros Hc. revert fuel pre column. induction Hc as [|c chars Hc Hcs IH]; intros fuel pre column Hf.
  - destruct fuel; cbn [count_columns concat length]; [lia|]. rewrite bool_decide_eq_false_2 by lia. lia.
  - destruct fuel as [|fuel]; [lia|]. cbn [concat] in *. rewrite length_app in *.
    destruct c as [|lead tail] eqn:Ec; [done|]. rewrite <- Ec in *.
    assert (0 < length c)%nat by (rewrite Ec; cbn; lia).
    cbn [count_columns]. rewrite bool_decide_eq_true_2 by lia.
    rewrite <- (app_assoc c), lookup_at.
    destruct (utf8_no_newline c Hc) as [_ Hd]. rewrite (bool_decide_eq_false_2 (head _ = _)).
    2:{ rewrite Ec. cbn. intros [= ->]. rewrite Ec in Hd. apply Hd. by left. }
    cbn [andb]. rewrite utf8_width by (done || lia).
    rewrite Nat.add_assoc, <- length_app, app_assoc, IH by lia. cbn [length]. lia.
Qed.

Lemma concat_no_newline chars : Forall utf8_char chars -> count_newlines (concat chars) = 0%nat.
Proof.
  induction 1 as [|c chars Hc _ IH]; [done|]. cbn [concat]. rewrite count_newlines_app, IH.
  unfold count_newlines. enough (filter (fun b => b = x0a) c = []) as -> by done.
  destruct (filter _ c) as [|b l] eqn:E; [done|]. exfalso.
  assert (b ∈ filter (fun b => b = x0a) c) as [-> Hb]%list_elem_of_filter by (rewrite E; by left).
  by destruct (utf8_no_newline c Hc).
Qed.

(** *** The format line *)

Lemma skip_blanks_over pre b r fuel :
  blanks pre -> match r with c :: _ => is_blank c = false /\ c <> x23 | [] => True end ->
  (length pre < fuel)%nat ->
  skip_blanks fuel (b ++ pre ++ r) (length b) = (length b + length pre)%nat.
Proof.
  intros Hp Hr. revert b fuel. induction Hp as [|c s Hc Hs IH|c s Hc Hs IH]; intros b fuel Hf.
  - destruct fuel as [|fuel]; cbn [skip_blanks]; [cbn; lia|]. rewrite lookup_at.
    destruct r as [|c r]; cbn; [lia|]. destruct Hr as [-> Hr].
    rewrite bool_decide_eq_false_2 by done. lia.
  - destruct fuel as [|fuel]; [cbn in Hf; lia|]. cbn [skip_blanks]. rewrite lookup_at. cbn [head Datatypes.app].
    rewrite Hc. specialize (IH (b ++ [c]) fuel ltac:(cbn in Hf; lia)).
    rewrite <- app_assoc, length_app in IH. cbn in IH |- *. rewrite Nat.add_1_r in IH. rewrite IH. lia.
  - destruct fuel as [|[|fuel]]; [cbn in Hf; lia..|]. rewrite length_cons, length_app, length_cons in Hf.
    cbn [skip_blanks]. rewrite lookup_at. cbn [head Datatypes.app].
    change (is_blank x23) with false. cbv iota. rewrite bool_decide_eq_true_2 by done.
    rewrite skip_while_at, <- app_assoc.
    change (x23 :: c ++ (x0a :: s) ++ r) with ((x23 :: c) ++ (x0a :: s) ++ r).
    rewrite prefix_length_app; [|..|done].
    2:{ constructor; [done|]. rewrite Forall_forall. intros d Hd.
        apply negb_true_iff, bool_decide_eq_false_2. by intros ->. }
    rewrite app_assoc, <- length_app, lookup_at. cbn [head Datatypes.app].
    change (is_blank x0a) with true. cbv iota.
    specialize (IH ((b ++ x23 :: c) ++ [x0a]) fuel ltac:(lia)).
    rewrite <- (app_assoc _ [x0a]), (length_app _ [x0a]) in IH. cbn [Datatypes.app] in IH.
    cbn [length] in IH. rewrite Nat.add_1_r in IH. rewrite IH. rewrite !length_app. cbn. rewrite length_app. cbn. lia.
Qed.

Lemma skip_blanks_split fuel b s :
  (length s < fuel)%nat ->
  exists pre r, s = pre ++ r /\ skip_blanks fuel (b ++ s) (length b) = (length b + length pre)%nat
    /\ (r = [] \/ blanks pre /\ match r with c :: _ => is_blank c = false /\ c <> x23 | [] => False end).
Proof.
  revert b s. induction fuel as [fuel IH] using lt_wf_ind; intros b s Hf.
  destruct fuel as [|fuel]; [lia|]. cbn [skip_blanks]. rewrite lookup_at.
  destruct s as [|c s]; [exists [], []; cbn; split_and!; [done|lia|by left]|]. cbn [head].
  destruct (is_blank c) eqn:Hc; [|case_bool_decide as Hx].
  - destruct (IH fuel ltac:(lia) (b ++ [c]) s ltac:(cbn in Hf; lia)) as (pre & r & -> & E & H).
    rewrite <- app_assoc, length_app in E. cbn in E. rewrite Nat.add_1_r in E.
    exists (c :: pre), r. split_and!; [done|cbn; rewrite E; lia|].
    destruct H as [|[]]; [by left|right]. split; [by constructor|done].
  - subst c. rewrite skip_while_at.
    destruct (prefix_split (fun c => c != x0a) (x23 :: s)) as (a & r & E & Hl & Ha & Hr). rewrite Hl, E.
    destruct a as [|a0 a]; cbn in E; [subst r; discriminate|]. injection E as <- ->.
    rewrite app_assoc, <- length_app.
    destruct (IH fuel ltac:(lia) (b ++ x23 :: a) r) as (pre & r' & -> & E & H).
    { cbn in Hf. rewrite length_app in Hf. lia. }
    rewrite E. exists (x23 :: a ++ pre), r'.
    split_and!; [cbn; by rewrite app_assoc|rewrite !length_app; cbn; rewrite length_app; lia|].
    destruct H as [|[Hb Hr']]; [by left|right]. split; [|done].
    destruct pre as [|p pre]; [destruct r' as [|p r']; [done|]|]; cbn in Hr;
      apply negb_false_iff, bool_decide_eq_true in Hr; subst p; [by destruct Hr'|].
    inversion Hb; subst. constructor; [|done]. apply Forall_cons in Ha as [_ Ha]. intros Hin.
    rewrite Forall_forall in Ha. specialize (Ha _ Hin). by rewrite bool_decide_eq_true_2 in Ha.
  - exists [], (c :: s). cbn. split_and!; [done|lia|]. right. split; [constructor|done].
Qed.

(** The rest of [ProbeRulesFormat], once the blanks are skipped: [r] is what follows. *)
Section AfterBlanks.
Context (s : SourceBuffer) (b r : bytes).
Context (source_split : source_bytes s = b ++ r).
Context (blanks_skipped : skip_blanks (S (length (b ++ r))) (b ++ r)
                            (if HasUtf8Bom (b ++ r) then 3%nat else 0%nat) = length b).

Lemma probe_needs_format v : ProbeRulesFormat s = Ok v -> exists s0, r = lit "format" ++ s0.
Proof.
  unfold ProbeRulesFormat. rewrite source_split. cbv zeta. rewrite blanks_skipped, drop_app_length.
  case_bool_decide; [done|]. case_bool_decide as E; [|cbn; done]. intros _.
  exists (drop 6 r). rewrite <- E. by rewrite take_drop.
Qed.

Lemma probe_value_shape s1 r1 v :
  r = lit "format" ++ s1 ++ r1 -> Forall (fun c => IsHorizontalSpace c = true) s1 ->
  match r1 with c :: _ => IsHorizontalSpace c = false | [] => True end ->
  ProbeRulesFormat s = Ok v ->
  exists r2, r1 = x3d :: r2.
Proof.
  intros Hr Hs1 Hr1. unfold ProbeRulesFormat. rewrite source_split. cbv zeta.
  rewrite blanks_skipped, drop_app_length. rewrite Hr.
  case_bool_decide; [done|]. change (take 6 (lit "format" ++ s1 ++ r1)) with (lit "format").
  case_bool_decide; [|cbn; done]. cbn [negb].
  rewrite app_assoc. change (length b + 6)%nat with (length b + length (lit "format"))%nat.
  rewrite <- length_app, lookup_at, skip_while_at, prefix_length_app by done.
  destruct (match head (s1 ++ r1) with Some _ => _ | None => false end); [done|].
  rewrite app_assoc, <- length_app, lookup_at.
  destruct r1 as [|c r1]; [done|]. cbn [head].
  case_bool_decide; [subst; eauto|done].
Qed.

Lemma probe_value s1 s2 value s3 rest v :
  r = lit "format" ++ s1 ++ x3d :: s2 ++ value ++ s3 ++ rest ->
  Forall (fun c => IsHorizontalSpace c = true) s1 ->
  prefix_length IsHorizontalSpace (s2 ++ value ++ s3 ++ rest) = length s2 ->
  prefix_length (fun c => negb (is_value_end c)) (value ++ s3 ++ rest) = length value ->
  prefix_length IsHorizontalSpace (s3 ++ rest) = length s3 ->
  ProbeRulesFormat s = Ok v <-> ends_line rest /\ value = lit "1" /\ v = 1.
Proof.
  intros Hr Hs1 E2 E3 E4. unfold ProbeRulesFormat. rewrite source_split. cbv zeta.
  rewrite blanks_skipped, drop_app_length.
  case_bool_decide as Hlen.
  { exfalso. rewrite length_app, Hr in Hlen. cbn in Hlen. lia. }
  rewrite Hr. change (take 6 (lit "format" ++ s1 ++ x3d :: s2 ++ value ++ s3 ++ rest)) with (lit "format").
  case_bool_decide; [|done]. cbn [negb]. rewrite (app_assoc b).
  change (length b + 6)%nat with (length b + length (lit "format"))%nat.
  rewrite <- length_app, lookup_at, skip_while_at, prefix_length_app by done.
  assert (match head (s1 ++ x3d :: s2 ++ value ++ s3 ++ rest) with
          | Some c => negb (IsHorizontalSpace c) && (c != x3d) | None => false end = false) as ->.
  { destruct s1 as [|c s1]; cbn; [done|]. apply Forall_cons in Hs1 as [-> _]. done. }
  rewrite (app_assoc _ s1), <- length_app, lookup_at. cbn [head].
  rewrite bool_decide_eq_true_2 by done. cbn [negb].
  set (p := (b ++ lit "format") ++ s1).
  replace (p ++ x3d :: s2 ++ value ++ s3 ++ rest) with ((p ++ [x3d]) ++ s2 ++ value ++ s3 ++ rest)
    by (by rewrite <- !app_assoc).
  replace (S (length p)) with (length (p ++ [x3d])) by (rewrite length_app; cbn; lia).
  set (q := p ++ [x3d]). rewrite skip_while_at, E2, (app_assoc q), <- length_app.
  rewrite skip_while_at, E3.
  replace (length (q ++ s2) + length value - length (q ++ s2))%nat with (length value) by lia.
  rewrite drop_app_length, take_app_length, (app_assoc (q ++ s2)), <- length_app.
  rewrite skip_while_at, E4, (app_assoc _ s3), <- length_app, lookup_at.
  destruct (match head rest with Some _ => _ | None => false end) eqn:Eend.
  - split; [done|]. intros [He _]. exfalso. destruct rest as [|c rest]; [done|]. cbn in Eend, He.
    destruct He as [->|[->| ->]]; by vm_compute in Eend.
  - assert (ends_line rest) as He.
    { destruct rest as [|c rest]; [done|]. cbn in Eend |- *.
      rewrite !andb_false_iff, !negb_false_iff, !bool_decide_eq_true in Eend. tauto. }
    case_bool_decide; [split; [intros [= <-]|intros (_ & _ & ->)]; done|].
    destruct (canonical_decimal _); split; naive_solver.
Qed.
End AfterBlanks.

Lemma HasUtf8Bom_true input : HasUtf8Bom input = true -> exists t, input = bom ++ t.
Proof.
  intros E. destruct input as [|b0 input]; [discriminate E|]. destruct b0; try discriminate E.
  destruct input as [|b1 input]; [discriminate E|]. destruct b1; try discriminate E.
  destruct input as [|b2 input]; [discriminate E|]. destruct b2; try discriminate E.
  by exists input.
Qed.

(** ** Properties *)

(** [ProbeRulesFormat] accepts exactly the sources whose first statement, after an
    optional byte order mark, blanks and comment lines, is [format = 1] alone on its
    line; the version it gives is then 1. *)
Theorem probe_rules_format_grammar s v :
  ProbeRulesFormat s = Ok v <-> declares_format_1 (source_bytes s) /\ v = 1.
Proof.
  set (input := source_bytes s).
  assert (exists mark body, input = mark ++ body /\ (mark = [] \/ mark = bom)
    /\ (if HasUtf8Bom input then 3%nat else 0%nat) = length mark) as (mark & body & Hin & Hm & Hlen).
  { destruct (HasUtf8Bom input) eqn:E; [|by exists [], input; auto].
    destruct (HasUtf8Bom_true _ E) as [t ->]. exists bom, t. auto. }
  split.
  - intros Hok.
    destruct (skip_blanks_split (S (length input)) mark body) as (pre & r & -> & E & Hr).
    { rewrite Hin, length_app. lia. }
    rewrite <- Hlen, <- Hin, Hlen, <- length_app in E. rewrite app_assoc in Hin.
    assert (skip_blanks (S (length ((mark ++ pre) ++ r))) ((mark ++ pre) ++ r)
      (if HasUtf8Bom ((mark ++ pre) ++ r) then 3%nat else 0%nat) = length (mark ++ pre)) as Hsk
      by (rewrite <- Hin, Hlen; exact E).
    destruct (probe_needs_format s _ r Hin Hsk v Hok) as [s0 Hs0].
    destruct (prefix_split IsHorizontalSpace s0) as (s1 & r1 & -> & _ & Hs1 & Hr1).
    destruct (probe_value_shape s _ r Hin Hsk s1 r1 v Hs0 Hs1 Hr1 Hok) as [r2 ->].
    destruct (prefix_split IsHorizontalSpace r2) as (s2 & r3 & -> & E2 & Hs2 & _).
    destruct (prefix_split (fun c => negb (is_value_end c)) r3) as (value & r4 & -> & E3 & _).
    destruct (prefix_split IsHorizontalSpace r4) as (s3 & rest & -> & E4 & Hs3 & _).
    apply (probe_value s _ r Hin Hsk s1 s2 value s3 rest v Hs0 Hs1 E2 E3 E4) in Hok as (He & -> & ->).
    split; [|done]. exists mark, pre, s1, s2, s3, rest. fold input. rewrite Hin, Hs0.
    split_and!; [by rewrite <- !app_assoc|done|by destruct Hr as [->|[]]|by rewrite !Forall_app|done].
  - intros [(mark' & pre & s1 & s2 & s3 & rest & E & Hm' & Hp & Hs & He) ->].
    fold input in E. rewrite !Forall_app in Hs. destruct Hs as (Hs1 & Hs2 & Hs3).
    assert (mark' = mark) as ->.
    { destruct Hm as [->| ->], Hm' as [->| ->]; try done; exfalso.
      - by rewrite E in Hlen.
      - rewrite E in Hin. destruct Hp as [|c pre Hc|c pre]; [done| |done].
        injection Hin as -> _. by vm_compute in Hc. }
    clear Hm'. set (r := lit "format" ++ s1 ++ x3d :: s2 ++ lit "1" ++ s3 ++ rest) in *.
    change (lit "=" ++ s2 ++ lit "1" ++ s3 ++ rest) with (x3d :: s2 ++ lit "1" ++ s3 ++ rest) in E.
    fold r in E. assert (source_bytes s = (mark ++ pre) ++ r) as Hsrc by (by rewrite <- app_assoc).
    apply (probe_value s (mark ++ pre) r Hsrc) with (s1 := s1) (s2 := s2) (s3 := s3) (value := lit "1") (rest := rest);
      try done.
    + rewrite <- app_assoc, <- E, Hlen, length_app. rewrite E at 2.
      apply skip_blanks_over; [done|done|]. rewrite E, !length_app. lia.
    + by apply prefix_length_app.
    + change (lit "1" ++ s3 ++ rest) with ([x31] ++ s3 ++ rest). apply prefix_length_app.
      * by constructor; [done|constructor].
      * destruct s3 as [|c s3]; cbn.
        -- destruct rest as [|c rest]; [done|]. destruct He as [->|[->| ->]]; done.
        -- apply Forall_cons in Hs3 as [Hc _]. unfold is_value_end. by rewrite Hc.
    + apply prefix_length_app; [done|]. destruct rest as [|c rest]; [done|].
      destruct He as [->|[->| ->]]; done.
Qed.

Lemma probe_rules_format_grammar_witness :
  declares_format_1 (lit "# rules" ++ [x0a] ++ lit "format = 1 # one" ++ [x0a] ++ lit "[apps]").
Proof.
  refine (proj1 (proj1 (probe_rules_format_grammar
    {| file_name := []; source_bytes := lit "# rules" ++ [x0a] ++ lit "format = 1 # one" ++ [x0a] ++ lit "[apps]" |} 1) _)).
  vm_compute. reflexivity.
Defined.

(** Positions are the ones an editor shows: the line is one more than the line
    feeds before the offset, and the column one more than the characters since the
    start of the line, each counted once whatever its length in UTF-8; a byte order
    mark is not counted. *)
Theorem position_at_characters before chars after :
  line_begin (before ++ concat chars ++ after) before -> Forall utf8_char chars ->
  PositionAt (before ++ concat chars ++ after) (length before + length (concat chars))
  = Some {| position_line := Z.of_nat (count_newlines before) + 1;
            position_column := Z.of_nat (length chars) + 1 |}.
Proof.
  intros Hb Hc. set (input := before ++ concat chars ++ after) in *. unfold PositionAt.
  set (offset := (length before + length (concat chars))%nat).
  assert (upper_bound offset (line_starts input) = S (count_newlines before)) as Hup.
  { unfold line_starts. cbn [upper_bound]. rewrite bool_decide_eq_true_2 by lia.
    rewrite upper_bound_lines, Nat.sub_0_r. unfold input, offset.
    rewrite app_assoc, <- length_app, take_app_length, count_newlines_app, concat_no_newline by done. lia. }
  rewrite bool_decide_eq_false_2 by (unfold input, offset; rewrite !length_app; lia).
  rewrite Hup. cbn [Nat.sub]. rewrite Nat.sub_0_r.
  assert ((if bool_decide (count_newlines before = 0%nat) && HasUtf8Bom input
              && bool_decide (nth (count_newlines before) (line_starts input) 0%nat < 3)%nat
              && bool_decide (3 <= offset)%nat
           then 3%nat else nth (count_newlines before) (line_starts input) 0%nat) = length before) as ->.
  { destruct Hb as [[-> Hm]|[->|[p ->]]].
    - rewrite Hm, andb_false_r. done.
    - change (count_newlines bom) with 0%nat. cbn [nth line_starts].
      rewrite !bool_decide_eq_true_2; [done|unfold offset; cbn; lia|lia|done].
    - rewrite count_newlines_app. change (count_newlines [x0a]) with 1%nat.
      rewrite bool_decide_eq_false_2 by lia. cbn [andb]. rewrite Nat.add_1_r. cbn [nth line_starts].
      unfold input. rewrite <- app_assoc. change ([x0a] ++ ?l) with (x0a :: l).
      rewrite nth_line_start, length_app. cbn. lia. }
  f_equal. f_equal. unfold input, offset. rewrite count_columns_chars by (done || lia). lia.
Qed.

Lemma position_at_characters_witness :
  PositionAt (lit "a" ++ [x0a] ++ [xc3; xa9; x78] ++ lit "yz") 5
  = Some {| position_line := 2; position_column := 3 |}.
Proof.
  refine (position_at_characters (lit "a" ++ [x0a]) [[xc3; xa9]; [x78]] (lit "yz") _ _).
  - right. right. by exists (lit "a").
  - repeat constructor; vm_compute; try discriminate; done.
Defined.

(** JSON diagnostics carry any text: the value a JSON reader gives to an escaped
    string is the original string. *)
Theorem escape_json_roundtrip value : json_value (EscapeJson value) = Some value.
Proof.
  induction value as [|b value IH]; [done|].
  change (EscapeJson (b :: value)) with (escape_byte b ++ EscapeJson value).
  by rewrite escape_json_byte, IH.
Qed.
