(* ===== verification/Scanner.v ===== *)
(** * The arrow scanner

    rules/src/arrow_scanner.cpp: the tokens that matter for the [source -> target]
    shorthand, the frames of brackets they stand in, and the pairs of strings that an
    arrow joins. The state of the class [Scanner] is a record; [Run] is a loop over an
    offset that advances at every step. *)

From S2P Require Import Prelude Source.

Local Open Scope pg_scope.

(** ** Data *)

Inductive SignificantKind : Set :=
  | kString | kMultilineString | kArrow | kOpenArray | kCloseArray | kOpenInlineTable
  | kCloseInlineTable | kComma | kEquals | kDot | kOther.

Inductive FrameKind : Set :=
  | kValueArray | kInlineTable | kTableHeader | kArrayTableHeader | kUnknownBracket
  | kUnknownBrace.

#[export] Instance significant_kind_eq_dec : EqDecision SignificantKind.
Proof. solve_decision. Defined.

#[export] Instance frame_kind_eq_dec : EqDecision FrameKind.
Proof. solve_decision. Defined.

Record SignificantToken : Type := {
  token_kind : SignificantKind;
  token_span : ByteSpan;
  token_frame : Z;
}.

Record Frame : Type := {
  frame_kind : FrameKind;
  frame_id : Z;
  closing : byte;
  closing_count : nat;
}.

Inductive PendingStage : Set := kWaitingTarget | kWaitingDelimiter.

Record PendingCandidate : Type := {
  pending_stage : PendingStage;
  pending_source : ByteSpan;
  pending_arrow : ByteSpan;
  pending_target : ByteSpan;
  pending_frame : Z;
}.

Record ArrowCandidate : Type := {
  candidate_rule : ByteSpan;
  candidate_source : ByteSpan;
  candidate_arrow : ByteSpan;
  candidate_target : ByteSpan;
  array_frame_id : Z;
}.

Record ArrowScanResult : Type := {
  candidates : list ArrowCandidate;
  diagnostics : list Diagnostic;
  significant_tokens : Z;
  max_frame_depth : Z;
  bytes_consumed : Z;
  open_frames_at_eof : Z;
}.

(** ** Characters and strings *)

Definition IsNewline (b : byte) : bool := (b == x0d) || (b == x0a).

Definition IsTokenBoundary (b : byte) : bool :=
  IsHorizontalSpace b || IsNewline b || (b == x23) || (b == x22) || (b == x27) || (b == x5b)
  || (b == x5d) || (b == x7b) || (b == x7d) || (b == x3d) || (b == x2c) || (b == x2e).

Record StringToken : Type := { string_end : nat; multiline : bool; terminated : bool }.

(** The loop of a one-line string; [rest] is what follows [offset]. *)
Fixpoint scan_single (quote : byte) (basic : bool) (rest : bytes) (offset slash_run : nat)
    : StringToken :=
  match rest with
  | [] => {| string_end := offset; multiline := false; terminated := false |}
  | value :: rest =>
      if IsNewline value
      then {| string_end := offset; multiline := false; terminated := false |}
      else if (value == quote) && (negb basic || Nat.even slash_run)
      then {| string_end := S offset; multiline := false; terminated := true |}
      else scan_single quote basic rest (S offset)
             (if basic && (value == x5c) then S slash_run else 0%nat)
  end.

Definition QuoteRun (rest : bytes) (quote : byte) : nat := prefix_length (fun b => b == quote) rest.

(** The loop of a multi-line string. *)
Fixpoint scan_multi (fuel : nat) (quote : byte) (basic : bool) (rest : bytes)
    (offset slash_run : nat) : StringToken :=
  match fuel, rest with
  | S fuel, value :: tail =>
      if value == quote then
        let run := QuoteRun rest quote in
        let ends n := {| string_end := offset + n; multiline := true; terminated := true |} in
        if negb basic && (3 <=? run)%nat then ends (Nat.min run 5)
        else if basic && Nat.even slash_run && (3 <=? run)%nat then ends (Nat.min run 5)
        else if basic && Nat.odd slash_run && (4 <=? run)%nat
        then ends (1 + Nat.min (run - 1) 5)%nat
        else scan_multi fuel quote basic (drop run rest) (offset + run) 0
      else scan_multi fuel quote basic tail (S offset)
             (if basic && (value == x5c) then S slash_run else 0%nat)
  | _, _ => {| string_end := offset + length rest; multiline := true; terminated := false |}
  end.

Definition ScanStringToken (input : bytes) (start : nat) : StringToken :=
  match drop start input with
  | quote :: rest =>
      let basic := quote == x22 in
      match rest with
      | q1 :: q2 :: rest' =>
          if (q1 == quote) && (q2 == quote)
          then scan_multi (length rest') quote basic rest' (start + 3) 0
          else scan_single quote basic rest (S start) 0
      | _ => scan_single quote basic rest (S start) 0
      end
  | [] => {| string_end := length input; multiline := false; terminated := false |}
  end.

(** ** The state of the scanner *)

Record Output : Type := {
  out_candidates : list ArrowCandidate;
  out_diagnostics : list Diagnostic;
  has_error : bool;
  omitted_ : bool;
}.

Record Machine : Type := {
  previous : option SignificantToken;
  last : option SignificantToken;
  pending : option PendingCandidate;
  suppress_arrow_frame : option Z;
  comment_since_significant : bool;
}.

(** [frames] holds the innermost frame first. *)
Record Scanner : Type := {
  out : Output;
  machine : Machine;
  frames : list Frame;
  next_frame_id : Z;
  tokens : Z;
  depth : Z;
  at_statement_start : bool;
  expecting_value : bool;
  stopped : bool;
}.

Definition initial : Scanner :=
  {| out := {| out_candidates := []; out_diagnostics := []; has_error := false; omitted_ := false |};
     machine := {| previous := None; last := None; pending := None; suppress_arrow_frame := None;
                   comment_since_significant := false |};
     frames := []; next_frame_id := 1; tokens := 0; depth := 0; at_statement_start := true;
     expecting_value := false; stopped := false |}.

Definition set_pending (m : Machine) (p : option PendingCandidate) : Machine :=
  {| previous := previous m; last := last m; pending := p;
     suppress_arrow_frame := suppress_arrow_frame m;
     comment_since_significant := comment_since_significant m |}.

Definition set_suppress (m : Machine) (f : option Z) : Machine :=
  {| previous := previous m; last := last m; pending := pending m; suppress_arrow_frame := f;
     comment_since_significant := comment_since_significant m |}.

Definition set_comment (m : Machine) (v : bool) : Machine :=
  {| previous := previous m; last := last m; pending := pending m;
     suppress_arrow_frame := suppress_arrow_frame m; comment_since_significant := v |}.

Definition set_out (s : Scanner) (o : Output) (m : Machine) : Scanner :=
  {| out := o; machine := m; frames := frames s; next_frame_id := next_frame_id s;
     tokens := tokens s; depth := depth s; at_statement_start := at_statement_start s;
     expecting_value := expecting_value s; stopped := stopped s |}.

Definition set_flags (s : Scanner) (start value : bool) : Scanner :=
  {| out := out s; machine := machine s; frames := frames s; next_frame_id := next_frame_id s;
     tokens := tokens s; depth := depth s; at_statement_start := start; expecting_value := value;
     stopped := stopped s |}.

Definition stop (s : Scanner) (o : Output) : Scanner :=
  {| out := o; machine := machine s; frames := frames s; next_frame_id := next_frame_id s;
     tokens := tokens s; depth := depth s; at_statement_start := at_statement_start s;
     expecting_value := expecting_value s; stopped := true |}.

Definition set_frames (s : Scanner) (f : list Frame) : Scanner :=
  {| out := out s; machine := machine s; frames := f; next_frame_id := next_frame_id s;
     tokens := tokens s; depth := depth s; at_statement_start := at_statement_start s;
     expecting_value := expecting_value s; stopped := stopped s |}.

Section Scan.
Context (limits : RulesLimits) (input : bytes).

Definition CurrentFrameId (s : Scanner) : Z :=
  match frames s with
  | [] => 0
  | f :: _ => frame_id f
  end.

Definition CurrentFrameKind (s : Scanner) : FrameKind :=
  match frames s with
  | [] => kUnknownBracket
  | f :: _ => frame_kind f
  end.

Definition IsValueArrayFrame (fs : list Frame) (id : Z) : bool :=
  existsb (fun f => (frame_id f == id) && (frame_kind f == kValueArray)) fs.

Definition AddDiagnostic (o : Output) (c key : bytes) (span : ByteSpan) : Output :=
  let limit := Z.max (max_diagnostics limits) 1 in
  if size (out_diagnostics o) <? limit then
    {| out_candidates := out_candidates o;
       out_diagnostics := out_diagnostics o ++ [diagnostic c key span false];
       has_error := true; omitted_ := omitted_ o |}
  else if omitted_ o then
    {| out_candidates := out_candidates o; out_diagnostics := out_diagnostics o;
       has_error := true; omitted_ := true |}
  else
    {| out_candidates := out_candidates o;
       out_diagnostics := removelast (out_diagnostics o)
         ++ [diagnostic kDiagnosticsOmitted (lit "rules.diagnostics_omitted") span true];
       has_error := true; omitted_ := true |}.

Definition ConfirmCandidate (o : Output) (m : Machine) : Output * Machine :=
  match pending m with
  | None => (o, m)
  | Some p =>
      if max_rewrites limits <=? size (out_candidates o)
      then (AddDiagnostic o kResourceLimit (lit "rules.rewrite_limit") (pending_arrow p),
            set_pending m None)
      else
        ({| out_candidates := out_candidates o ++
              [{| candidate_rule := {| span_begin := span_begin (pending_source p);
                                       span_end := span_end (pending_target p) |};
                  candidate_source := pending_source p; candidate_arrow := pending_arrow p;
                  candidate_target := pending_target p; array_frame_id := pending_frame p |}];
            out_diagnostics := out_diagnostics o; has_error := has_error o;
            omitted_ := omitted_ o |}, set_pending m None)
  end.

Definition is_delimiter (k : SignificantKind) : bool := (k == kComma) || (k == kCloseArray).

(** [HandlePending] when a candidate is pending. *)
Definition advance_pending (token : SignificantToken) (p : PendingCandidate) (o : Output)
    (m : Machine) : Output * Machine :=
  let kind := token_kind token in
  match pending_stage p with
  | kWaitingTarget =>
      if (kind == kString) && (token_frame token == pending_frame p)
      then (o, set_pending m (Some
              {| pending_stage := kWaitingDelimiter; pending_source := pending_source p;
                 pending_arrow := pending_arrow p; pending_target := token_span token;
                 pending_frame := pending_frame p |}))
      else (AddDiagnostic o kArrowOperand (lit "rules.arrow_operand") (token_span token),
            set_pending m None)
  | kWaitingDelimiter =>
      if is_delimiter kind && (token_frame token == pending_frame p) then ConfirmCandidate o m
      else if kind == kArrow then
        (AddDiagnostic o kArrowChained (lit "rules.arrow_chained") (token_span token),
         set_pending m None)
      else if (kind == kString) || (kind == kMultilineString) then
        (AddDiagnostic o kArrowMissingComma (lit "rules.arrow_missing_comma") (token_span token),
         set_pending (set_suppress m (Some (pending_frame p))) None)
      else (AddDiagnostic o kArrowContext (lit "rules.arrow_context") (token_span token),
            set_pending m None)
  end.

(** [HandlePending] on an arrow when none is. *)
Definition start_pending (fs : list Frame) (token : SignificantToken) (o : Output) (m : Machine)
    : Output * Machine :=
  match last m with
  | Some l =>
      if token_kind l != kString then
        (AddDiagnostic o kArrowOperand (lit "rules.arrow_operand") (token_span token), m)
      else if comment_since_significant m then
        (AddDiagnostic o kArrowCommentInside (lit "rules.arrow_comment_inside") (token_span token), m)
      else
        let context_ok :=
          match previous m with
          | Some p => ((token_kind p == kOpenArray) || (token_kind p == kComma))
                      && (token_frame p == token_frame l) && (token_frame l == token_frame token)
                      && IsValueArrayFrame fs (token_frame token)
          | None => false
          end in
        if negb context_ok then
          (AddDiagnostic o kArrowContext (lit "rules.arrow_context") (token_span token), m)
        else
          (o, set_pending m (Some
                {| pending_stage := kWaitingTarget; pending_source := token_span l;
                   pending_arrow := token_span token; pending_target := no_span;
                   pending_frame := token_frame token |}))
  | None => (AddDiagnostic o kArrowOperand (lit "rules.arrow_operand") (token_span token), m)
  end.

Definition HandlePending (fs : list Frame) (token : SignificantToken) (o : Output) (m : Machine)
    : Output * Machine :=
  let suppressed := suppress_arrow_frame m == Some (token_frame token) in
  if suppressed && (token_kind token == kArrow) then (o, m)
  else
    let m := if suppressed && is_delimiter (token_kind token) then set_suppress m None else m in
    match pending m with
    | Some p => advance_pending token p o m
    | None => if token_kind token != kArrow then (o, m) else start_pending fs token o m
    end.

Definition Emit (token : SignificantToken) (s : Scanner) : Scanner :=
  if stopped s then s
  else if max_tokens_or_nodes limits <=? tokens s then
    stop s (AddDiagnostic (out s) kResourceLimit (lit "rules.token_limit") (token_span token))
  else
    let '(o, m) := HandlePending (frames s) token (out s) (machine s) in
    {| out := o;
       machine := {| previous := last m; last := Some token; pending := pending m;
                     suppress_arrow_frame := suppress_arrow_frame m;
                     comment_since_significant := false |};
       frames := frames s; next_frame_id := next_frame_id s; tokens := u32 (tokens s + 1);
       depth := depth s; at_statement_start := at_statement_start s;
       expecting_value := expecting_value s; stopped := stopped s |}.

Definition token (kind : SignificantKind) (b e : nat) (frame : Z) : SignificantToken :=
  {| token_kind := kind; token_span := SpanAt b e; token_frame := frame |}.

(** [PushFrame]: the flag is its result. *)
Definition PushFrame (kind : FrameKind) (close : byte) (count : nat) (offset : nat) (s : Scanner)
    : bool * Scanner :=
  if max_container_depth limits <=? size (frames s) then
    (false, stop s (AddDiagnostic (out s) kResourceLimit (lit "rules.container_depth")
                      (SpanAt offset (offset + 1)%nat)))
  else
    let fs := {| frame_kind := kind; frame_id := next_frame_id s; closing := close;
                 closing_count := count |} :: frames s in
    (true,
     {| out := out s; machine := machine s; frames := fs;
        next_frame_id := u32 (next_frame_id s + 1); tokens := tokens s;
        depth := Z.max (depth s) (u32 (size fs)); at_statement_start := at_statement_start s;
        expecting_value := expecting_value s; stopped := stopped s |}).

Definition OpenArray (offset : nat) (s : Scanner) : Scanner * nat :=
  let empty := bool_decide (length (frames s) = 0%nat) in
  let '(kind, width) :=
    if empty && at_statement_start s && negb (expecting_value s)
       && (input !! S offset == Some x5b)
    then (kArrayTableHeader, 2%nat)
    else if empty && at_statement_start s && negb (expecting_value s) then (kTableHeader, 1%nat)
    else if expecting_value s then (kValueArray, 1%nat) else (kUnknownBracket, 1%nat) in
  let '(pushed, s) := PushFrame kind x5d width offset s in
  if negb pushed then (s, length input)
  else
    let s := Emit (token kOpenArray offset (offset + width) (CurrentFrameId s)) s in
    (set_flags s false (kind == kValueArray), (offset + width)%nat).

Definition pop_frame (close : byte) (s : Scanner) : Scanner :=
  match frames s with
  | f :: fs => if closing f == close then set_frames s fs else s
  | [] => s
  end.

Definition CloseArray (offset : nat) (s : Scanner) : Scanner * nat :=
  let width :=
    match frames s with
    | f :: _ => if (closing f == x5d) && bool_decide (closing_count f = 2%nat)
                   && (input !! S offset == Some x5d) then 2%nat else 1%nat
    | [] => 1%nat
    end in
  let s := Emit (token kCloseArray offset (offset + width) (CurrentFrameId s)) s in
  let s := pop_frame x5d s in
  (set_flags s (at_statement_start s) false, (offset + width)%nat).

Definition OpenBrace (offset : nat) (s : Scanner) : Scanner :=
  let kind := if expecting_value s then kInlineTable else kUnknownBrace in
  let '(pushed, s) := PushFrame kind x7d 1 offset s in
  if negb pushed then s
  else set_flags (Emit (token kOpenInlineTable offset (S offset) (CurrentFrameId s)) s) false false.

Definition CloseBrace (offset : nat) (s : Scanner) : Scanner :=
  let s := Emit (token kCloseInlineTable offset (S offset) (CurrentFrameId s)) s in
  let s := pop_frame x7d s in
  set_flags s (at_statement_start s) false.

Definition HandleComment (offset : nat) (s : Scanner) : Scanner :=
  match pending (machine s) with
  | Some p =>
      match pending_stage p with
      | kWaitingTarget =>
          set_out s (AddDiagnostic (out s) kArrowCommentInside (lit "rules.arrow_comment_inside")
                       (SpanAt offset (Nat.min (length input) (offset + 1)%nat)))
            (set_pending (machine s) None)
      | kWaitingDelimiter => s
      end
  | None => set_out s (out s) (set_comment (machine s) true)
  end.

(** The branch of [Run] on a quote. *)
Definition scan_string (offset : nat) (s : Scanner) : Scanner * nat :=
  let string := ScanStringToken input offset in
  let token_end := Nat.max (S offset) (string_end string) in
  if max_string_token_bytes limits <? Z.of_nat (token_end - offset) then
    (stop s (AddDiagnostic (out s) kResourceLimit (lit "rules.string_token_too_large")
               (SpanAt offset token_end)), token_end)
  else if negb (terminated string) then
    (stop s (AddDiagnostic (out s) kArrowStringBoundary (lit "rules.arrow_string_boundary")
               (SpanAt offset token_end)), token_end)
  else
    (set_flags
       (Emit (token (if multiline string then kMultilineString else kString) offset
                (string_end string) (CurrentFrameId s)) s) false false,
     string_end string).

(** The end of a token of kind [kOther]. *)
Fixpoint other_length (rest : bytes) : nat :=
  match rest with
  | b :: tail =>
      if IsTokenBoundary b || ((b == x2d) && bool_decide (head tail = Some x3e)) then O
      else S (other_length tail)
  | [] => O
  end.

(** One iteration of the loop of [Run]. *)
Definition step (value : byte) (offset : nat) (s : Scanner) : Scanner * nat :=
  let id := CurrentFrameId s in
  if IsHorizontalSpace value then (s, S offset)
  else if IsNewline value then
    (match frames s with [] => set_flags s true false | _ => s end,
     if (value == x0d) && (input !! S offset == Some x0a) then S (S offset) else S offset)
  else if value == x23 then
    (HandleComment offset s, skip_while (fun b => b != x0a) input offset)
  else if (value == x22) || (value == x27) then scan_string offset s
  else if (value == x2d) && (input !! S offset == Some x3e) then
    (Emit (token kArrow offset (offset + 2) id) s, (offset + 2)%nat)
  else if value == x5b then OpenArray offset s
  else if value == x5d then CloseArray offset s
  else if value == x7b then (OpenBrace offset s, S offset)
  else if value == x7d then (CloseBrace offset s, S offset)
  else if value == x3d then
    (set_flags (Emit (token kEquals offset (S offset) id) s) false true, S offset)
  else if value == x2c then
    (let s := Emit (token kComma offset (S offset) id) s in
     set_flags s (at_statement_start s) (CurrentFrameKind s == kValueArray), S offset)
  else if value == x2e then
    (set_flags (Emit (token kDot offset (S offset) id) s) false false, S offset)
  else
    let e := (S offset + other_length (drop (S offset) input))%nat in
    (set_flags (Emit (token kOther offset e id) s) false false, e).

Fixpoint run (fuel : nat) (s : Scanner) (offset : nat) : Scanner * nat :=
  match fuel with
  | O => (s, offset)
  | S fuel =>
      if stopped s then (s, offset)
      else
        match input !! offset with
        | None => (s, offset)
        | Some value => let '(s, offset) := step value offset s in run fuel s offset
        end
  end.

Definition FinishAtEof (o : Output) (m : Machine) : Output :=
  match pending m with
  | None => o
  | Some p =>
      match pending_stage p with
      | kWaitingTarget =>
          AddDiagnostic o kArrowOperand (lit "rules.arrow_operand") (pending_arrow p)
      | kWaitingDelimiter => fst (ConfirmCandidate o m)
      end
  end.

Definition Run : ArrowScanResult :=
  let '(s, offset) := run (S (length input)) initial 0 in
  let o := FinishAtEof (out s) (machine s) in
  {| candidates := if has_error o then [] else out_candidates o;
     diagnostics := out_diagnostics o; significant_tokens := tokens s;
     max_frame_depth := depth s; bytes_consumed := u32 (Z.of_nat offset);
     open_frames_at_eof := u32 (size (frames s)) |}.
End Scan.

Definition ScanArrowCandidates (source : SourceBuffer) (limits : RulesLimits) : ArrowScanResult :=
  Run limits (source_bytes source).

(** [AnalyzeRulesSource]: the format version and the scan, or the diagnostics. *)
Definition AnalyzeRulesSource (source : SourceBuffer) (limits : RulesLimits)
    : Z * ArrowScanResult :=
  match ProbeRulesFormat source with
  | Ok version => (version, ScanArrowCandidates source limits)
  | Err d => (0, {| candidates := []; diagnostics := [d]; significant_tokens := 0;
                    max_frame_depth := 0; bytes_consumed := 0; open_frames_at_eof := 0 |})
  | Oob => (0, {| candidates := []; diagnostics := []; significant_tokens := 0;
                  max_frame_depth := 0; bytes_consumed := 0; open_frames_at_eof := 0 |})
  end.

Definition parser_allowed (r : ArrowScanResult) : bool := bool_decide (length (diagnostics r) = 0%nat).

(** ** Reference notions *)

(** The body of a one-line basic string: characters and escaped characters. *)
Inductive basic_body : bytes -> Prop :=
  | basic_nil : basic_body []
  | basic_char c s : c <> x22 -> c <> x5c -> IsNewline c = false -> basic_body s -> basic_body (c :: s)
  | basic_escape c s : IsNewline c = false -> basic_body s -> basic_body (x5c :: c :: s).

Definition literal_body (s : bytes) : Prop := Forall (fun c => c <> x27 /\ IsNewline c = false) s.

(** A one-line TOML string, with its quotes. *)
Definition quoted_string (w : bytes) : Prop :=
  exists body, w = x22 :: body ++ [x22] /\ basic_body body
               \/ w = x27 :: body ++ [x27] /\ literal_body body.

Definition slice (input : bytes) (s : ByteSpan) : bytes :=
  take (Z.to_nat (span_end s - span_begin s)) (drop (Z.to_nat (span_begin s)) input).

Definition span_within (lo hi : Z) (s : ByteSpan) : Prop :=
  lo <= span_begin s /\ span_begin s < span_end s /\ span_end s <= hi.

(** A candidate that can be rewritten: its spans are in order, and they cover a string,
    an arrow and a string. *)
Record candidate_ok (input : bytes) (c : ArrowCandidate) : Prop := {
  cok_begin : span_begin (candidate_rule c) = span_begin (candidate_source c);
  cok_end : span_end (candidate_rule c) = span_end (candidate_target c);
  cok_source : span_within 0 (span_begin (candidate_arrow c)) (candidate_source c);
  cok_arrow : span_within (span_end (candidate_source c)) (span_begin (candidate_target c))
                (candidate_arrow c);
  cok_target : span_within (span_end (candidate_arrow c)) (size input) (candidate_target c);
  cok_source_text : quoted_string (slice input (candidate_source c));
  cok_arrow_text : slice input (candidate_arrow c) = lit "->";
  cok_target_text : quoted_string (slice input (candidate_target c));
}.

Definition precedes (c d : ArrowCandidate) : Prop :=
  span_end (candidate_rule c) <= span_begin (candidate_rule d).

(** ** Lemmas: strings *)

Lemma scan_single_basic rest offset run :
  let t := scan_single x22 true rest offset run in
  terminated t = true ->
  exists body tail, rest = body ++ x22 :: tail /\ string_end t = (offset + length body + 1)%nat
    /\ (if Nat.even run then basic_body body
        else exists c b, body = c :: b /\ IsNewline c = false /\ basic_body b).
Proof.
  revert offset run. induction rest as [|c rest IH]; intros offset run; [done|]. cbn [scan_single].
  destruct (IsNewline c) eqn:Hc; [done|]. cbn [negb orb]. case_bool_decide as Hq.
  - subst c. cbn [andb]. destruct (Nat.even run) eqn:He.
    + intros _. exists [], rest. split_and!; [done|cbn; lia|constructor].
    + cbn [andb]. rewrite bool_decide_eq_false_2 by done. intros (body & tail & -> & -> & Hb)%IH.
      exists (x22 :: body), tail. split_and!; [done|cbn; lia|]. by exists x22, body.
  - cbn [andb]. case_bool_decide as Hs.
    + subst c. intros (body & tail & -> & -> & Hb)%IH. rewrite Nat.even_succ, <- Nat.negb_even in Hb.
      exists (x5c :: body), tail. split_and!; [done|cbn; lia|].
      destruct (Nat.even run); cbn [negb] in Hb.
      * destruct Hb as (d & b & -> & Hd & Hb). by constructor.
      * by exists x5c, body.
    + intros (body & tail & -> & -> & Hb)%IH. cbn in Hb.
      exists (c :: body), tail. split_and!; [done|cbn; lia|].
      destruct (Nat.even run); [by constructor|by exists c, body].
Qed.

Lemma scan_single_basic_body body tail offset run :
  Nat.even run = true -> basic_body body ->
  scan_single x22 true (body ++ x22 :: tail) offset run
  = {| string_end := offset + length body + 1; multiline := false; terminated := true |}.
Proof.
  intros Hr Hb. revert offset run Hr. induction Hb as [|c s Hq Hs Hn Hb IH|c s Hn Hb IH]; intros offset run Hr; cbn [Datatypes.app scan_single].
  - rewrite bool_decide_eq_true_2, Hr by done. cbn. f_equal. lia.
  - rewrite Hn, bool_decide_eq_false_2 by done. cbn [andb]. rewrite bool_decide_eq_false_2 by done.
    rewrite IH by done. f_equal. cbn. lia.
  - change (IsNewline x5c) with false. cbv iota. rewrite (bool_decide_eq_false_2 (x5c = x22)) by done.
    cbn [andb]. rewrite (bool_decide_eq_true_2 (x5c = x5c)) by done.
    rewrite Hn, Nat.even_succ, <- Nat.negb_even, Hr. cbn [negb orb]. rewrite andb_false_r.
    rewrite IH by (by destruct (c == x5c); cbn [andb Nat.even]). f_equal. cbn. lia.
Qed.

Lemma scan_single_literal rest offset run :
  let t := scan_single x27 false rest offset run in
  terminated t = true ->
  exists body tail, rest = body ++ x27 :: tail /\ string_end t = (offset + length body + 1)%nat
    /\ literal_body body.
Proof.
  revert offset run. induction rest as [|c rest IH]; intros offset run; [done|]. cbn [scan_single].
  destruct (IsNewline c) eqn:Hc; [done|]. cbn [negb orb]. case_bool_decide as Hq.
  - subst c. intros _. exists [], rest. split_and!; [done|cbn; lia|constructor].
  - cbn [andb]. intros (body & tail & -> & -> & Hb)%IH.
    exists (c :: body), tail. split_and!; [done|cbn; lia|]. by constructor.
Qed.

Lemma scan_single_literal_body body tail offset run :
  literal_body body ->
  scan_single x27 false (body ++ x27 :: tail) offset run
  = {| string_end := offset + length body + 1; multiline := false; terminated := true |}.
Proof.
  intros Hb. revert offset run. induction Hb as [|c s [Hq Hn] Hb IH]; intros offset run; cbn [Datatypes.app scan_single].
  - rewrite bool_decide_eq_true_2 by done. cbn. f_equal. lia.
  - rewrite Hn, bool_decide_eq_false_2 by done. cbn [andb]. rewrite IH. f_equal. cbn. lia.
Qed.

Lemma scan_single_end quote basic rest offset run :
  (offset <= string_end (scan_single quote basic rest offset run) <= offset + length rest)%nat
  /\ multiline (scan_single quote basic rest offset run) = false.
Proof.
  revert offset run. induction rest as [|c rest IH]; intros offset run; cbn [scan_single length]; [cbn; split; [lia|done]|].
  destruct (IsNewline c); [cbn; split; [lia|done]|]. destruct (_ && _); [cbn; split; [lia|done]|].
  destruct (IH (S offset) (if basic && (c == x5c) then S run else 0%nat)). split; [lia|done].
Qed.

Lemma prefix_length_le p s : (prefix_length p s <= length s)%nat.
Proof. induction s as [|b s IH]; cbn; [lia|]. destruct (p b); lia. Qed.

Lemma scan_multi_end fuel quote basic rest offset run :
  (offset <= string_end (scan_multi fuel quote basic rest offset run) <= offset + length rest)%nat
  /\ multiline (scan_multi fuel quote basic rest offset run) = true.
Proof.
  revert rest offset run. induction fuel as [|fuel IH]; intros rest offset run; cbn [scan_multi]; [cbn; split; [lia|done]|].
  destruct rest as [|c rest]; [cbn; split; [lia|done]|].
  destruct (c == quote).
  - pose proof (prefix_length_le (fun b => b == quote) (c :: rest)) as Hle. cbn [length] in Hle |- *.
    unfold QuoteRun. set (n := prefix_length _ _) in *.
    destruct (_ && (3 <=? n)%nat) eqn:E1; [apply andb_true_iff in E1 as [_ E1%Nat.leb_le]; cbn [string_end multiline]; split; [lia|done]|].
    destruct (_ && _ && (3 <=? n)%nat) eqn:E2; [apply andb_true_iff in E2 as [_ E2%Nat.leb_le]; cbn [string_end multiline]; split; [lia|done]|].
    destruct (_ && _ && (4 <=? n)%nat) eqn:E3; [apply andb_true_iff in E3 as [_ E3%Nat.leb_le]; cbn [string_end multiline]; split; [lia|done]|].
    destruct (IH (drop n (c :: rest)) (offset + n)%nat 0%nat) as [Hb ?]. rewrite length_drop in Hb. cbn [length] in Hb. split; [lia|done].
  - destruct (IH rest (S offset) (if basic && (c == x5c) then S run else 0%nat)) as [Hb ?]. cbn [length]. split; [lia|done].
Qed.

Lemma ScanStringToken_single input start q rest :
  drop start input = q :: rest -> take 3 (q :: rest) <> [q; q; q] ->
  ScanStringToken input start = scan_single q (q == x22) rest (S start) 0.
Proof.
  intros Hd Ht. unfold ScanStringToken. rewrite Hd.
  destruct rest as [|q1 [|q2 rest]]; [done|done|].
  destruct (_ && _) eqn:E; [|done]. split_tests. subst. done.
Qed.

Lemma ScanStringToken_end input start :
  (start < length input)%nat ->
  (start < string_end (ScanStringToken input start) <= length input)%nat.
Proof.
  intros Hs. unfold ScanStringToken. destruct (drop start input) as [|q rest] eqn:E.
  - apply (f_equal length) in E. rewrite length_drop in E. cbn in E. lia.
  - apply (f_equal length) in E. rewrite length_drop in E. cbn in E.
    destruct rest as [|q1 [|q2 rest]].
    + pose proof (scan_single_end q (q == x22) [] (S start) 0). cbn in *. lia.
    + pose proof (scan_single_end q (q == x22) [q1] (S start) 0). cbn [length] in *. lia.
    + destruct (_ && _).
      * pose proof (scan_multi_end (length rest) q (q == x22) rest (start + 3) 0). cbn in E. lia.
      * pose proof (scan_single_end q (q == x22) (q1 :: q2 :: rest) (S start) 0).
        cbn [length] in *. lia.
Qed.

Lemma scan_single_quoted q rest start :
  q = x22 \/ q = x27 ->
  let t := scan_single q (q == x22) rest (S start) 0 in
  terminated t = true ->
  exists k, string_end t = (start + k)%nat /\ (k <= S (length rest))%nat /\ quoted_string (take k (q :: rest)).
Proof.
  intros [-> | ->]; cbv zeta.
  - rewrite bool_decide_eq_true_2 by done.
    intros (body & tail & -> & E & Hb)%scan_single_basic. rewrite E.
    exists (length body + 2)%nat. rewrite length_app. split_and!; [lia|cbn; lia|].
    exists body. left. split; [|done].
    rewrite cons_middle, app_assoc. replace (length body + 2)%nat with (S (length (body ++ [x22]))).
    { cbn [take]. by rewrite take_app_length. } rewrite length_app. cbn. lia.
  - rewrite bool_decide_eq_false_2 by done.
    intros (body & tail & -> & E & Hb)%scan_single_literal. rewrite E.
    exists (length body + 2)%nat. rewrite length_app. split_and!; [lia|cbn; lia|].
    exists body. right. split; [|done].
    rewrite cons_middle, app_assoc. replace (length body + 2)%nat with (S (length (body ++ [x27]))).
    { cbn [take]. by rewrite take_app_length. } rewrite length_app. cbn. lia.
Qed.

Lemma scan_single_of_quoted q rest start k :
  quoted_string (take k (q :: rest)) -> (k <= S (length rest))%nat ->
  scan_single q (q == x22) rest (S start) 0
  = {| string_end := start + k; multiline := false; terminated := true |}.
Proof.
  intros (body & Hw) Hk. pose proof (take_drop k (q :: rest)) as Hsplit.
  assert (length (take k (q :: rest)) = k) as Hlen by (rewrite length_take; cbn; lia).
  destruct Hw as [[Hw Hb]|[Hw Hb]]; rewrite Hw in Hsplit, Hlen; cbn in Hsplit, Hlen;
    rewrite length_app in Hlen; injection Hsplit as <- <-; rewrite <- app_assoc; cbn [Datatypes.app].
  - rewrite bool_decide_eq_true_2, scan_single_basic_body by done. f_equal. cbn in Hlen. lia.
  - rewrite bool_decide_eq_false_2, scan_single_literal_body by done. f_equal. cbn in Hlen. lia.
Qed.

(** ** Lemmas: the scanner keeps its invariant *)

Section Invariant.
Context (limits : RulesLimits) (input : bytes) (source_fits : size input < 2 ^ 32).

(** A token inside the source, with the text its kind announces. *)
Record token_ok (t : SignificantToken) : Prop := {
  tok_span : span_within 0 (size input) (token_span t);
  tok_string : token_kind t = kString -> quoted_string (slice input (token_span t));
  tok_arrow : token_kind t = kArrow -> slice input (token_span t) = lit "->";
}.

(** What is known of a pending candidate when the tokens up to [pos] are read. *)
Record pending_ok (pos : Z) (p : PendingCandidate) : Prop := {
  pok_source : span_within 0 (span_begin (pending_arrow p)) (pending_source p);
  pok_arrow : span_within (span_end (pending_source p)) pos (pending_arrow p);
  pok_source_text : quoted_string (slice input (pending_source p));
  pok_arrow_text : slice input (pending_arrow p) = lit "->";
  pok_target : pending_stage p = kWaitingDelimiter ->
    span_within (span_end (pending_arrow p)) pos (pending_target p)
    /\ quoted_string (slice input (pending_target p));
}.

Definition all_before (pos : Z) (o : Output) : Prop :=
  Forall (fun c => span_end (candidate_rule c) <= pos) (out_candidates o).

Record output_ok (o : Output) : Prop := {
  ook_candidates : Forall (candidate_ok input) (out_candidates o);
  ook_sorted : StronglySorted precedes (out_candidates o);
  ook_rewrites : size (out_candidates o) <= Z.max 0 (max_rewrites limits);
  ook_diagnostics : size (out_diagnostics o) <= Z.max (max_diagnostics limits) 1;
  ook_error : has_error o = true <-> out_diagnostics o <> [];
}.

Record machine_ok (pos : Z) (o : Output) (m : Machine) : Prop := {
  mok_last : forall t, last m = Some t ->
    token_ok t /\ span_end (token_span t) <= pos /\ all_before (span_begin (token_span t)) o;
  mok_none : last m = None -> out_candidates o = [];
  mok_pending : forall p, pending m = Some p ->
    pending_ok pos p /\ all_before (span_begin (pending_source p)) o;
}.

Record scanner_ok (pos : Z) (s : Scanner) : Prop := {
  sok_pos : 0 <= pos <= size input;
  sok_output : output_ok (out s);
  sok_machine : machine_ok pos (out s) (machine s);
  sok_stopped : stopped s = true -> has_error (out s) = true;
  sok_tokens : 0 <= tokens s <= Z.max 0 (max_tokens_or_nodes limits);
  sok_depth : 0 <= depth s <= Z.max 0 (max_container_depth limits);
  sok_frames : size (frames s) <= Z.max 0 (max_container_depth limits);
}.

Lemma AddDiagnostic_candidates o c key span :
  out_candidates (AddDiagnostic limits o c key span) = out_candidates o.
Proof. unfold AddDiagnostic. destruct (_ <? _); [done|by destruct (omitted_ o)]. Qed.

Lemma AddDiagnostic_error o c key span : has_error (AddDiagnostic limits o c key span) = true.
Proof. unfold AddDiagnostic. destruct (_ <? _); [done|by destruct (omitted_ o)]. Qed.

Lemma removelast_length {A} (l : list A) : length (removelast l) = (length l - 1)%nat.
Proof. rewrite removelast_firstn_len, length_take. lia. Qed.

Lemma AddDiagnostic_ok o c key span : output_ok o -> output_ok (AddDiagnostic limits o c key span).
Proof.
  intros [Hc Hs Hr Hd He]. unfold AddDiagnostic.
  destruct (Z.ltb_spec (size (out_diagnostics o)) (Z.max (max_diagnostics limits) 1)) as [Hlt|Hge].
  - split; cbn [out_candidates out_diagnostics has_error]; try done.
    + rewrite size_app. change (size [_]) with 1. lia.
    + split; [|done]. intros _ [_ ?]%app_eq_nil. done.
  - assert (out_diagnostics o <> []) as Hne by (intros E; rewrite E, size_nil in Hge; lia).
    destruct (omitted_ o); split; cbn [out_candidates out_diagnostics has_error]; try done.
    + unfold size in *. rewrite length_app, removelast_length. cbn [length].
      destruct (out_diagnostics o); [done|cbn [length] in *]. lia.
    + split; [|done]. intros _ [_ ?]%app_eq_nil. done.
Qed.

Lemma all_before_mono a b o : a <= b -> all_before a o -> all_before b o.
Proof. intros Hab. intros H. eapply Forall_impl; [exact H|]. intros c ?. cbn in *. lia. Qed.

Lemma all_before_add pos o c key span :
  all_before pos (AddDiagnostic limits o c key span) <-> all_before pos o.
Proof. unfold all_before. by rewrite AddDiagnostic_candidates. Qed.

Lemma StronglySorted_snoc {A} (R : A -> A -> Prop) l x :
  StronglySorted R l -> Forall (fun y => R y x) l -> StronglySorted R (l ++ [x]).
Proof.
  induction 1 as [|y l Hl IH Hy]; intros Hx; [repeat constructor|].
  apply Forall_cons in Hx as [Hyx Hx]. constructor; [by apply IH|].
  apply Forall_app. split; [done|]. by constructor.
Qed.

Lemma ConfirmCandidate_ok pos o m p :
  pos <= size input -> output_ok o -> machine_ok pos o m -> pending m = Some p ->
  pending_stage p = kWaitingDelimiter ->
  let '(o', m') := ConfirmCandidate limits o m in
  output_ok o' /\ all_before pos o' /\ last m' = last m /\ pending m' = None
  /\ (has_error o = true -> has_error o' = true).
Proof.
  intros Hpos Ho [_ _ Hp] Em Es. unfold ConfirmCandidate. rewrite Em.
  destruct (Hp p Em) as [[Hsrc Harr Hst Hat Htar] Hbefore].
  specialize (Htar Es) as [Htar Htt]. unfold span_within in *.
  assert (all_before pos o) as Hall by (eapply all_before_mono; [|exact Hbefore]; lia).
  destruct (Z.leb_spec (max_rewrites limits) (size (out_candidates o))) as [|Hlt].
  - split_and!; [by apply AddDiagnostic_ok|by apply all_before_add|done|done|by rewrite AddDiagnostic_error].
  - destruct Ho as [Hc Hs Hr Hd He]. split_and!; [|..|done|done|done].
    + split; cbn [out_candidates out_diagnostics has_error]; [..|done|done].
      * apply Forall_app. split; [done|]. constructor; [|constructor].
        split; cbn; unfold span_within; try done; lia.
      * by apply StronglySorted_snoc.
      * rewrite size_app. change (size [_]) with 1. lia.
    + unfold all_before. cbn [out_candidates]. apply Forall_app. split; [done|].
      constructor; [cbn; lia|constructor].
Qed.

(** One token: the candidates stay before it, and what becomes pending is in order. *)
Lemma HandlePending_ok pos fs t o m :
  pos <= size input -> output_ok o -> machine_ok pos o m -> token_ok t ->
  pos <= span_begin (token_span t) ->
  let '(o', m') := HandlePending limits fs t o m in
  output_ok o' /\ all_before (span_begin (token_span t)) o' /\ last m' = last m
  /\ (has_error o = true -> has_error o' = true)
  /\ forall p, pending m' = Some p ->
       pending_ok (span_end (token_span t)) p /\ all_before (span_begin (pending_source p)) o'.
Proof.
  intros Hpos Ho Hm Ht Hb.
  assert (all_before (span_begin (token_span t)) o) as Hall.
  { destruct Hm as [Hl Hn _]. destruct (last m) as [l|] eqn:El.
    - destruct (Hl l eq_refl) as ([[? ?] _ _] & ? & ?). eapply all_before_mono; [|done]. lia.
    - unfold all_before. rewrite Hn by done. constructor. }
  pose proof (tok_span t Ht) as Hspan. unfold span_within in Hspan.
  assert (forall p, pending m = Some p ->
    pending_ok (span_end (token_span t)) p /\ all_before (span_begin (pending_source p)) o) as Hpend.
  { intros p Hp. destruct (mok_pending _ _ _ Hm p Hp) as [[H1 H2 H3 H4 H5] H6].
    split; [|done]. unfold span_within in *. split; unfold span_within; try done; [lia|].
    intros Hs. destruct (H5 Hs). split; [lia|done]. }
  assert (forall c key m', last m' = last m -> pending m' = None ->
    output_ok (AddDiagnostic limits o c key (token_span t))
    /\ all_before (span_begin (token_span t)) (AddDiagnostic limits o c key (token_span t))
    /\ last m' = last m
    /\ (has_error o = true -> has_error (AddDiagnostic limits o c key (token_span t)) = true)
    /\ forall p, pending m' = Some p -> pending_ok (span_end (token_span t)) p
         /\ all_before (span_begin (pending_source p)) (AddDiagnostic limits o c key (token_span t)))
    as Hdiag.
  { intros c key m' Hl Hn. split_and!; [by apply AddDiagnostic_ok|by apply all_before_add|done| |].
    - by rewrite AddDiagnostic_error.
    - by rewrite Hn. }
  unfold HandlePending. cbv zeta. destruct (_ && (token_kind t == kArrow)); [by split_and!|].
  set (m1 := if _ && _ then set_suppress m None else m).
  assert (last m1 = last m /\ pending m1 = pending m /\ previous m1 = previous m) as (El & Ep & _)
    by (unfold m1; by destruct (_ && _)).
  assert (machine_ok pos o m1) as Hm1 by (destruct Hm; split; rewrite ?El, ?Ep; done). clearbody m1.
  destruct (pending m1) as [p|] eqn:Em.
  - symmetry in Ep. destruct (Hpend p Ep) as [Hpok Hpb].
    unfold advance_pending. destruct (pending_stage p) eqn:Es.
    + destruct (_ && _) eqn:E.
      * split_tests. cbv beta iota. split_and!; [done|done|done|done|]. intros q [= <-]. split; [|done].
        destruct (mok_pending _ _ _ Hm p Ep) as [[H1 H2 H3 H4 H5] _]. destruct Hpok as [H1' H2' _ _ _].
        split; cbn [pending_source pending_arrow pending_target pending_stage]; try done.
        intros _. split; [unfold span_within in *; lia|]. by apply tok_string.
      * by apply Hdiag.
    + destruct (is_delimiter _ && _) eqn:E.
      * pose proof (ConfirmCandidate_ok pos o m1 p Hpos Ho Hm1 Em Es) as Hc.
        destruct (ConfirmCandidate limits o m1) as [o' m']. destruct Hc as (? & ? & Hl & Hn & ?).
        cbv beta iota. split_and!; [done|by eapply all_before_mono|by rewrite Hl|done|by rewrite Hn].
      * destruct (_ == kArrow); [by apply Hdiag|]. destruct (_ || _); by apply Hdiag.
  - destruct (token_kind t != kArrow) eqn:Ek; [cbv beta iota; split_and!; try done; by rewrite Em|]. split_tests.
    unfold start_pending. destruct (last m1) as [l|] eqn:Elast; [|apply Hdiag; congruence].
    destruct (token_kind l != kString) eqn:Elk; [apply Hdiag; congruence|]. split_tests.
    destruct (comment_since_significant m1); [apply Hdiag; congruence|].
    destruct (negb _); [apply Hdiag; congruence|].
    cbv beta iota. split_and!; [done|done|cbn; congruence|done|]. intros q [= <-].
    destruct (mok_last _ _ _ Hm1 l Elast) as ([Hls Hlt _] & Hle & Hlb). split; [|done].
    unfold span_within in *.
    split; cbn; unfold span_within; [lia|lia|by apply Hlt|by apply tok_arrow|done].
Qed.

Lemma scanner_ok_mono pos pos' s :
  pos <= pos' <= size input -> scanner_ok pos s -> scanner_ok pos' s.
Proof.
  intros Hp [Hpos Ho [Hl Hn Hpe] Hs Ht Hd Hf]. split; try done; [lia|]. split; [|done|].
  - intros t E. destruct (Hl t E) as (? & ? & ?). split_and!; try done. lia.
  - intros p E. destruct (Hpe p E) as [[H1 H2 H3 H4 H5] ?]. split; [|done]. unfold span_within in *.
    split; unfold span_within; try done; [lia|]. intros Es. destruct (H5 Es). split; [lia|done].
Qed.

Lemma Emit_ok pos pos' t s :
  scanner_ok pos s -> token_ok t -> pos <= span_begin (token_span t) ->
  pos' = span_end (token_span t) -> scanner_ok pos' (Emit limits t s).
Proof.
  intros Hs Ht Hb ->. pose proof (tok_span t Ht) as Hspan. unfold span_within in Hspan.
  pose proof (sok_pos _ _ Hs).
  unfold Emit. destruct (stopped s) eqn:Est; [eapply scanner_ok_mono; [|done]; lia|].
  destruct (Z.leb_spec (max_tokens_or_nodes limits) (tokens s)) as [|Hlt].
  - apply (scanner_ok_mono pos); [lia|].
    destruct Hs as [Hpos Ho [Hl Hn Hpe] Hst Htk Hd Hf]. split; cbn; try done.
    + by apply AddDiagnostic_ok.
    + split; cbn.
      * intros u E. destruct (Hl u E) as (? & ? & ?). split_and!; try done. by apply all_before_add.
      * rewrite AddDiagnostic_candidates. done.
      * intros p E. destruct (Hpe p E). split; [done|]. by apply all_before_add.
    + by rewrite AddDiagnostic_error.
  - pose proof (HandlePending_ok pos (frames s) t (out s) (machine s) (proj2 (sok_pos _ _ Hs))
      (sok_output _ _ Hs) (sok_machine _ _ Hs) Ht Hb) as Hh.
    destruct (HandlePending limits (frames s) t (out s) (machine s)) as [o' m'].
    destruct Hh as (Ho' & Hall & Hl & He & Hp). destruct Hs as [Hpos Ho Hm Hst Htk Hd Hf].
    split; cbn; try done; [lia| |].
    + split; cbn; [|done|done]. intros u [= <-]. split_and!; [done|lia|done].

    + pose proof (u32_range (tokens s + 1)). unfold u32 in *.
      pose proof (Z.mod_le (tokens s + 1) (2 ^ 32) ltac:(lia) ltac:(lia)). lia.
Qed.

Lemma span_at b e : (b <= length input)%nat -> (e <= length input)%nat ->
  SpanAt b e = {| span_begin := Z.of_nat b; span_end := Z.of_nat e |}.
Proof. intros Hb He. unfold SpanAt. unfold size in source_fits. by rewrite !u32_small by lia. Qed.

Lemma slice_at b e : (b <= e)%nat -> (e <= length input)%nat ->
  slice input (SpanAt b e) = take (e - b) (drop b input).
Proof.
  intros Hb He. rewrite span_at by lia. unfold slice. cbn [span_begin span_end].
  rewrite Nat2Z.id. f_equal. lia.
Qed.

Lemma token_ok_intro kind b e id :
  (b < e <= length input)%nat ->
  (kind = kString -> quoted_string (take (e - b) (drop b input))) ->
  (kind = kArrow -> take (e - b) (drop b input) = lit "->") ->
  token_ok (token kind b e id).
Proof.
  intros Hb Hs Ha. split; cbn [token token_kind token_span].
  - rewrite span_at by lia. unfold span_within, size. cbn [span_begin span_end]. lia.
  - intros E. rewrite slice_at by lia. by apply Hs.
  - intros E. rewrite slice_at by lia. by apply Ha.
Qed.

Lemma emit_token kind b e id s :
  (b < e <= length input)%nat ->
  (kind = kString -> quoted_string (take (e - b) (drop b input))) ->
  (kind = kArrow -> take (e - b) (drop b input) = lit "->") ->
  scanner_ok (Z.of_nat b) s -> scanner_ok (Z.of_nat e) (Emit limits (token kind b e id) s).
Proof.
  intros Hb Ht Ha Hs. eapply Emit_ok; [exact Hs|by apply token_ok_intro|..];
    cbn [token token_span]; rewrite span_at by lia; cbn; lia.
Qed.

Lemma set_flags_ok pos s a b : scanner_ok pos s -> scanner_ok pos (set_flags s a b).
Proof. intros []. by split. Qed.

Lemma pop_frame_ok pos s c : scanner_ok pos s -> scanner_ok pos (pop_frame c s).
Proof.
  intros Hs. unfold pop_frame. destruct (frames s) as [|f fs] eqn:E; [done|].
  destruct (_ == _); [|done]. destruct Hs as [? ? ? ? ? ? Hf]. rewrite E, size_cons in Hf.
  split; cbn; try done. lia.
Qed.

Lemma stop_ok pos s c key span :
  scanner_ok pos s -> scanner_ok pos (stop s (AddDiagnostic limits (out s) c key span)).
Proof.
  intros [Hpos Ho [Hl Hn Hp] Hst Ht Hd Hf]. split; cbn; try done.
  - by apply AddDiagnostic_ok.
  - split; cbn.
    + intros t E. destruct (Hl t E) as (? & ? & ?). split_and!; try done. by apply all_before_add.
    + by rewrite AddDiagnostic_candidates.
    + intros p E. destruct (Hp p E). split; [done|]. by apply all_before_add.
  - by rewrite AddDiagnostic_error.
Qed.

Lemma PushFrame_ok kind c count offset s pos :
  scanner_ok pos s ->
  let '(pushed, s') := PushFrame limits kind c count offset s in
  scanner_ok pos s'.
Proof.
  intros Hs. unfold PushFrame.
  destruct (Z.leb_spec (max_container_depth limits) (size (frames s))) as [|Hlt];
    [by apply stop_ok|]. destruct Hs as [Hpos Ho Hm Hst Ht Hd Hf].
  split; cbn [out machine stopped tokens depth frames]; try done; rewrite size_cons; [|lia].
  pose proof (size_nonneg (frames s)). pose proof (u32_range (1 + size (frames s))). unfold u32 in *.
  pose proof (Z.mod_le (1 + size (frames s)) (2 ^ 32) ltac:(lia) ltac:(lia)). lia.
Qed.

Lemma HandleComment_ok offset s pos :
  scanner_ok pos s -> scanner_ok pos (HandleComment limits input offset s).
Proof.
  intros Hs. unfold HandleComment. destruct (pending (machine s)) as [p|] eqn:Ep.
  - destruct (pending_stage p); [|done]. pose proof (stop_ok pos s kArrowCommentInside
      (lit "rules.arrow_comment_inside") (SpanAt offset (Nat.min (length input) (offset + 1))) Hs) as [? ? [? ? ?] ? ? ? ?].
    split; cbn in *; try done. intros _. by rewrite AddDiagnostic_error.
  - destruct Hs as [Hpos Ho [Hl Hn Hp] Hst Ht Hd Hf]. split; cbn; try done.
Qed.

Lemma lookup_lt offset value : input !! offset = Some value -> (offset < length input)%nat.
Proof. apply lookup_lt_Some. Qed.

Lemma two_bytes offset a b :
  input !! offset = Some a -> input !! S offset = Some b ->
  (offset + 2 <= length input)%nat /\ take (offset + 2 - offset) (drop offset input) = [a; b].
Proof.
  intros Ha Hb. pose proof (lookup_lt_Some _ _ _ Hb). split; [lia|].
  replace (offset + 2 - offset)%nat with 2%nat by lia.
  by rewrite (drop_S _ _ _ Ha), (drop_S _ _ _ Hb).
Qed.

Lemma scan_string_ok value offset s :
  input !! offset = Some value -> value = x22 \/ value = x27 -> scanner_ok (Z.of_nat offset) s ->
  let '(s', offset') := scan_string limits input offset s in
  scanner_ok (Z.of_nat offset') s' /\ (offset < offset' <= length input)%nat.
Proof.
  intros Hv Hq Hs. pose proof (lookup_lt _ _ Hv) as Hlt.
  pose proof (ScanStringToken_end input offset Hlt) as He.
  unfold scan_string. cbv zeta. set (t := ScanStringToken input offset) in *.
  assert (Nat.max (S offset) (string_end t) = string_end t) as -> by lia.
  assert (forall c key span, scanner_ok (Z.of_nat (string_end t))
    (stop s (AddDiagnostic limits (out s) c key span))) as Hstop.
  { intros. apply stop_ok. eapply scanner_ok_mono; [|done]. unfold size. lia. }
  destruct (_ <? _); [by split|]. destruct (terminated t) eqn:Et; cbn [negb]; [|by split].
  split; [|lia]. apply set_flags_ok, emit_token; [lia|..|done]; destruct (multiline t) eqn:Em; try done.
  intros _. assert (drop offset input = value :: drop (S offset) input) as Hd by (by apply drop_S).
  rewrite Hd. destruct (decide (take 3 (value :: drop (S offset) input) = [value; value; value])) as [Htri|Htri].
  - exfalso. unfold t, ScanStringToken in Em. rewrite Hd in Em.
    destruct (drop (S offset) input) as [|q1 [|q2 rest]]; [done|done|].
    cbn in Htri. injection Htri as -> ->. rewrite !bool_decide_eq_true_2 in Em by done. cbn [andb] in Em.
    by rewrite (proj2 (scan_multi_end _ _ _ _ _ _)) in Em.
  - pose proof (ScanStringToken_single _ _ _ _ Hd Htri) as Esingle. fold t in Esingle.
    rewrite Esingle in Et |- *.
    destruct (scan_single_quoted value (drop (S offset) input) offset Hq Et) as (k & -> & _ & Hk).
    by replace (offset + k - offset)%nat with k by lia.
Qed.

Lemma skip_comment offset :
  input !! offset = Some x23 ->
  (offset < skip_while (fun b => b != x0a) input offset <= length input)%nat.
Proof.
  intros Hv. pose proof (lookup_lt _ _ Hv). unfold skip_while. rewrite (drop_S _ _ _ Hv).
  cbn [prefix_length]. pose proof (prefix_length_le (fun b => b != x0a) (drop (S offset) input)) as Hle.
  rewrite length_drop in Hle. change (x23 != x0a) with true. cbv iota. lia.
Qed.

Lemma other_length_le rest : (other_length rest <= length rest)%nat.
Proof. induction rest as [|b rest IH]; [done|]. cbn [other_length length]. destruct (_ || _); lia. Qed.

(** The tokens whose text does not matter. *)
Lemma emit_plain kind b e id s :
  (b < e <= length input)%nat -> kind <> kString -> kind <> kArrow ->
  scanner_ok (Z.of_nat b) s -> scanner_ok (Z.of_nat e) (Emit limits (token kind b e id) s).
Proof. intros Hb Hs Ha. by apply emit_token. Qed.

Lemma next_position offset offset' s :
  (offset <= offset' <= length input)%nat -> scanner_ok (Z.of_nat offset) s ->
  scanner_ok (Z.of_nat offset') s.
Proof. intros H. apply scanner_ok_mono. unfold size. lia. Qed.

Definition advances (offset : nat) (r : Scanner * nat) : Prop :=
  scanner_ok (Z.of_nat r.2) r.1 /\ (offset < r.2 <= length input)%nat.

Lemma OpenArray_ok offset s :
  (offset < length input)%nat -> scanner_ok (Z.of_nat offset) s ->
  advances offset (OpenArray limits input offset s).
Proof.
  intros Hlt Hs. unfold OpenArray.
  destruct (if _ && (input !! S offset == Some x5b) then _ else _) as [kind width] eqn:Ek.
  assert (1 <= width /\ offset + width <= length input)%nat as Hw.
  { revert Ek. destruct (_ && (input !! S offset == Some x5b)) eqn:E.
    - apply andb_true_iff in E as [_ E%bool_decide_eq_true]. apply lookup_lt in E.
      intros [= <- <-]. lia.
    - destruct (_ && negb (expecting_value s)); [intros [= <- <-]; lia|].
      destruct (expecting_value s); intros [= <- <-]; lia. }
  pose proof (PushFrame_ok kind x5d width offset s _ Hs) as Hp.
  destruct (PushFrame limits kind x5d width offset s) as [[] s']; cbn [negb].
  - split; cbn [fst snd]; [|lia]. apply set_flags_ok, emit_plain; [lia|done|done|done].
  - split; cbn [fst snd]; [|lia]. by apply (next_position offset); [lia|].
Qed.

Lemma CloseArray_ok offset s :
  (offset < length input)%nat -> scanner_ok (Z.of_nat offset) s ->
  advances offset (CloseArray limits input offset s).
Proof.
  intros Hlt Hs. unfold CloseArray. set (width := match frames s with [] => _ | _ => _ end).
  assert (1 <= width /\ offset + width <= length input)%nat as Hw.
  { unfold width. destruct (frames s); [lia|]. destruct (_ && (input !! S offset == _)) eqn:E; [|lia].
    apply andb_true_iff in E as [_ E%bool_decide_eq_true]. apply lookup_lt in E. lia. }
  split; cbn [fst snd]; [|lia]. by apply set_flags_ok, pop_frame_ok, emit_plain; [lia|..].
Qed.

Lemma step_ok value offset s :
  input !! offset = Some value -> scanner_ok (Z.of_nat offset) s ->
  advances offset (step limits input value offset s).
Proof.
  intros Hv Hs. pose proof (lookup_lt _ _ Hv) as Hlt. unfold step.
  assert (scanner_ok (Z.of_nat (S offset)) s) as Hnext by (apply (next_position offset); [lia|done]).
  destruct (IsHorizontalSpace value); [by split; cbn [fst snd]; [|lia]|].
  destruct (IsNewline value).
  { destruct (_ && _) eqn:E; [apply andb_true_iff in E as [_ E%bool_decide_eq_true]; apply lookup_lt in E|];
      (split; cbn [fst snd]; [|lia]); (destruct (frames s); [apply set_flags_ok|]);
      by apply (next_position offset); [lia|]. }
  destruct (value == x23) eqn:E1.
  { apply bool_decide_eq_true in E1 as ->. pose proof (skip_comment offset Hv).
    split; cbn [fst snd]; [|done]. apply HandleComment_ok, (next_position offset); [lia|done]. }
  destruct ((value == x22) || _) eqn:E2.
  { apply orb_true_iff in E2 as [E2%bool_decide_eq_true|E2%bool_decide_eq_true];
      (pose proof (scan_string_ok value offset s Hv ltac:(auto) Hs) as H;
       destruct (scan_string limits input offset s); exact H). }
  destruct ((value == x2d) && _) eqn:E3.
  { apply andb_true_iff in E3 as [E3%bool_decide_eq_true E4%bool_decide_eq_true]. subst value.
    destruct (two_bytes offset _ _ Hv E4) as [Hle Htext].
    split; cbn [fst snd]; [|lia]. apply emit_token; [lia|done|done|done]. }
  destruct (value == x5b); [by apply OpenArray_ok|].
  destruct (value == x5d); [by apply CloseArray_ok|].
  destruct (value == x7b).
  { split; cbn [fst snd]; [|lia]. unfold OpenBrace.
    pose proof (PushFrame_ok (if expecting_value s then kInlineTable else kUnknownBrace) x7d 1 offset s _ Hs) as Hp.
    destruct (PushFrame limits _ x7d 1 offset s) as [[] s']; cbn [negb];
      [by apply set_flags_ok, emit_plain; [lia|..]|]. by apply (next_position offset); [lia|]. }
  destruct (value == x7d).
  { split; cbn [fst snd]; [|lia]. by apply set_flags_ok, pop_frame_ok, emit_plain; [lia|..]. }
  destruct (value == x3d); [split; cbn [fst snd]; [|lia]; by apply set_flags_ok, emit_plain; [lia|..]|].
  destruct (value == x2c); [split; cbn [fst snd]; [|lia]; by apply set_flags_ok, emit_plain; [lia|..]|].
  destruct (value == x2e); [split; cbn [fst snd]; [|lia]; by apply set_flags_ok, emit_plain; [lia|..]|].
  pose proof (other_length_le (drop (S offset) input)) as Hle. rewrite length_drop in Hle.
  split; cbn [fst snd]; [|lia]. by apply set_flags_ok, emit_plain; [lia|..].
Qed.

Lemma run_ok fuel offset s :
  (length input < offset + fuel)%nat -> (offset <= length input)%nat -> scanner_ok (Z.of_nat offset) s ->
  let '(s', offset') := run limits input fuel s offset in
  scanner_ok (Z.of_nat offset') s' /\ (offset' <= length input)%nat
  /\ (stopped s' = true \/ offset' = length input).
Proof.
  revert offset s. induction fuel as [|fuel IH]; intros offset s Hf Ho Hs; [lia|]. cbn [run].
  destruct (stopped s) eqn:Est; [by auto|].
  destruct (input !! offset) as [value|] eqn:Hv.
  - pose proof (step_ok value offset s Hv Hs) as [Hs' Hlt].
    destruct (step limits input value offset s) as [s' offset']. cbn [fst snd] in *. apply IH; [lia|lia|done].
  - apply lookup_ge_None in Hv. split_and!; [done|done|right; lia].
Qed.

Lemma initial_ok : scanner_ok 0 initial.
Proof.
  split; cbn.
  - pose proof (size_nonneg input). lia.
  - split; cbn; try done; [constructor|rewrite size_nil; lia|rewrite size_nil; lia].
  - by split.
  - done.
  - lia.
  - lia.
  - unfold size. cbn. lia.
Qed.

Lemma FinishAtEof_ok pos s :
  scanner_ok pos s ->
  output_ok (FinishAtEof limits (out s) (machine s))
  /\ (has_error (out s) = true -> has_error (FinishAtEof limits (out s) (machine s)) = true).
Proof.
  intros [Hpos Ho Hm _ _ _ _]. unfold FinishAtEof. destruct (pending (machine s)) as [p|] eqn:Ep; [|done].
  destruct (pending_stage p) eqn:Es.
  - split; [by apply AddDiagnostic_ok|by rewrite AddDiagnostic_error].
  - pose proof (ConfirmCandidate_ok pos _ _ p (proj2 Hpos) Ho Hm Ep Es) as H.
    destruct (ConfirmCandidate limits (out s) (machine s)). by destruct H as (? & _ & _ & _ & ?).
Qed.
End Invariant.

Lemma Create_fits name input limits source :
  Create name input limits = Ok source -> size (source_bytes source) < 2 ^ 32.
Proof. unfold Create. destruct (_ || _) eqn:E; [done|]. split_tests. intros [= <-]. cbn. lia. Qed.

(** A whole scan: the state it ends in, and what its result is made of. *)
Lemma Run_result limits input :
  size input < 2 ^ 32 ->
  exists s offset, scanner_ok limits input (Z.of_nat offset) s
    /\ (offset <= length input)%nat /\ (stopped s = true \/ offset = length input)
    /\ Run limits input
       = let o := FinishAtEof limits (out s) (machine s) in
         {| candidates := if has_error o then [] else out_candidates o;
            diagnostics := out_diagnostics o; significant_tokens := tokens s;
            max_frame_depth := depth s; bytes_consumed := u32 (Z.of_nat offset);
            open_frames_at_eof := u32 (size (frames s)) |}.
Proof.
  intros Hn. pose proof (run_ok limits input Hn (S (length input)) 0 initial ltac:(lia) ltac:(lia)
    (initial_ok limits input)) as H.
  unfold Run. destruct (run limits input (S (length input)) initial 0) as [s offset].
  destruct H as (? & ? & ?). by exists s, offset.
Qed.

(** ** Properties *)

(** A one-line string token is read as TOML defines it: unless three quotes begin a
    multi-line string, the scanner ends the token at [start + k] exactly when those [k]
    bytes are a string, escapes and all, with its two quotes. *)
Theorem scan_string_token_grammar input start q rest k :
  drop start input = q :: rest -> q = x22 \/ q = x27 -> take 3 (q :: rest) <> [q; q; q] ->
  (terminated (ScanStringToken input start) = true
   /\ string_end (ScanStringToken input start) = (start + k)%nat)
  <-> (k <= length (q :: rest))%nat /\ quoted_string (take k (q :: rest)).
Proof.
  intros Hd Hq Ht. rewrite (ScanStringToken_single _ _ _ _ Hd Ht). split.
  - intros [Hterm Hend]. destruct (scan_single_quoted q rest start Hq Hterm) as (k' & E & Hk & Hw).
    assert (k' = k) as -> by lia. done.
  - intros [Hk Hw]. cbn [length] in Hk. by rewrite (scan_single_of_quoted q rest start k Hw Hk).
Qed.

Lemma scan_string_token_grammar_witness :
  quoted_string [x22; x61; x5c; x22; x62; x22].
Proof.
  assert (drop 1 [x20; x22; x61; x5c; x22; x62; x22; x2c] = x22 :: [x61; x5c; x22; x62; x22; x2c]) as E
    by reflexivity.
  refine (proj2 (proj1 (scan_string_token_grammar _ 1 x22 _ 6 E (or_introl eq_refl) ltac:(discriminate)) _)).
  split; reflexivity.
Defined.

(** Every candidate the scanner reports can be rewritten in place: its source, arrow
    and target lie in this order inside the file, they are a one-line string, [->] and a
    one-line string, and the candidates follow one another without overlap. Nothing is
    reported next to an error. *)
Theorem scan_candidates_rewritable name input source limits :
  Create name input limits = Ok source ->
  let r := ScanArrowCandidates source limits in
  Forall (candidate_ok (source_bytes source)) (candidates r)
  /\ StronglySorted precedes (candidates r)
  /\ (diagnostics r <> [] -> candidates r = []).
Proof.
  intros Hn%Create_fits.
  destruct (Run_result limits _ Hn) as (s & offset & Hs & _ & _ & E).
  cbv zeta. unfold ScanArrowCandidates. rewrite E. cbv zeta. cbn [candidates diagnostics].
  destruct (FinishAtEof_ok limits _ _ s Hs) as [[Hc Hst _ _ He] _].
  destruct (has_error _); [split_and!; [constructor|constructor|done]|].
  split_and!; [done|done|]. intros Hd%He. done.
Qed.

(** The scanner stays within its limits, and it always finishes: it reports no more
    diagnostics, candidates, tokens and nested frames than the limits allow, and when it
    reports no diagnostic it has read the whole file. *)
Theorem scan_within_limits name input source limits :
  Create name input limits = Ok source ->
  let r := ScanArrowCandidates source limits in
  size (diagnostics r) <= Z.max (max_diagnostics limits) 1
  /\ size (candidates r) <= Z.max 0 (max_rewrites limits)
  /\ 0 <= significant_tokens r <= Z.max 0 (max_tokens_or_nodes limits)
  /\ 0 <= max_frame_depth r <= Z.max 0 (max_container_depth limits)
  /\ 0 <= bytes_consumed r <= size (source_bytes source)
  /\ (parser_allowed r = true -> bytes_consumed r = size (source_bytes source)).
Proof.
  intros Hn%Create_fits.
  destruct (Run_result limits _ Hn) as (s & offset & Hs & Hoff & Hend & E).
  cbv zeta. unfold ScanArrowCandidates. rewrite E. cbv zeta.
  destruct (FinishAtEof_ok limits _ _ s Hs) as [[_ _ Hr Hd He] Herr].
  unfold parser_allowed. cbn [candidates diagnostics significant_tokens max_frame_depth bytes_consumed].
  rewrite u32_small by (unfold size in Hn; lia).
  refine (conj Hd (conj _ (conj (sok_tokens _ _ _ _ Hs) (conj (sok_depth _ _ _ _ Hs) (conj _ _)))));
    [|unfold size; lia|].
  - destruct (has_error _); [rewrite size_nil; lia|done].
  - intros Hz%bool_decide_eq_true%nil_length_inv.
    destruct Hend as [Hstop| ->]; [|done]. exfalso.
    by apply He in Hz; [|apply Herr, (sok_stopped _ _ _ _ Hs)].
Qed.

Definition sample_input : bytes :=
  lit "redirect = [" ++ [x22] ++ lit "A" ++ [x22] ++ lit " -> " ++ [x22] ++ lit "B" ++ [x22] ++ lit "]".

Definition sample_source : SourceBuffer := {| file_name := lit "r.toml"; source_bytes := sample_input |}.

Lemma scan_candidates_rewritable_witness :
  length (candidates (ScanArrowCandidates sample_source default_limits)) = 1%nat
  /\ Forall (candidate_ok sample_input) (candidates (ScanArrowCandidates sample_source default_limits)).
Proof.
  split; [vm_compute; reflexivity|].
  exact (proj1 (scan_candidates_rewritable (lit "r.toml") sample_input sample_source default_limits
                  ltac:(vm_compute; reflexivity))).
Defined.

Lemma scan_within_limits_witness :
  size (diagnostics (ScanArrowCandidates sample_source default_limits)) <= 64.
Proof.
  exact (proj1 (scan_within_limits (lit "r.toml") sample_input sample_source default_limits
                  ltac:(vm_compute; reflexivity))).
Defined.
