(* ===== verification/Desugar.v ===== *)
(** * Desugaring the arrow shorthand

    rules/src/desugarer.cpp: every [source -> target] of a rules file becomes an inline
    table [{ from = source, to = target }], and a [RewriteMap] sends the positions of the
    text the TOML parser sees back to the file. The counter of queries of a map is not
    represented. *)

From S2P Require Import Prelude Source Scanner.

Local Open Scope pg_scope.

(** ** Data *)

Record ArrowRewrite : Type := {
  rewrite_id : Z;
  rewrite_rule : ByteSpan;
  rewrite_source : ByteSpan;
  rewrite_arrow : ByteSpan;
  rewrite_target : ByteSpan;
}.

Inductive RewriteSegmentKind : Set := kCopied | kSyntheticRule | kSyntheticArrow.

#[export] Instance segment_kind_eq_dec : EqDecision RewriteSegmentKind.
Proof. solve_decision. Defined.

Record RewriteSegment : Type := {
  generated : ByteSpan;
  original : ByteSpan;
  segment_kind : RewriteSegmentKind;
}.

Record RewriteMap : Type := {
  segments_ : list RewriteSegment;
  generated_size_ : Z;
  original_size_ : Z;
}.

Record GeneratedRedirect : Type := {
  redirect_id : Z;
  original_rule : ByteSpan;
  original_source : ByteSpan;
  original_arrow : ByteSpan;
  original_target : ByteSpan;
  generated_table : ByteSpan;
  generated_source : ByteSpan;
  generated_target : ByteSpan;
}.

Record DesugarResult : Type := {
  generated_storage : option bytes;
  rewrite_map : RewriteMap;
  redirects : list GeneratedRedirect;
  desugar_diagnostics : list Diagnostic;
}.

(** ** [RewriteMap] *)

Definition Identity (source_size : Z) : RewriteMap :=
  {| segments_ := []; generated_size_ := source_size; original_size_ := source_size |}.

Fixpoint check_segments (segments : list RewriteSegment) (generated_size original_size expected : Z)
    : bool :=
  match segments with
  | [] => expected =? generated_size
  | s :: rest =>
      if negb (span_begin (generated s) =? expected)
         || (span_end (generated s) <=? span_begin (generated s))
         || (generated_size <? span_end (generated s))
         || (span_end (original s) <? span_begin (original s))
         || (original_size <? span_end (original s))
         || ((segment_kind s == kCopied) && negb (span_size (generated s) =? span_size (original s)))
      then false
      else check_segments rest generated_size original_size (span_end (generated s))
  end.

Definition CreateMap (segments : list RewriteSegment) (generated_size original_size : Z)
    : option RewriteMap :=
  match segments with
  | [] => None
  | _ => if check_segments segments generated_size original_size 0
         then Some {| segments_ := segments; generated_size_ := generated_size;
                      original_size_ := original_size |}
         else None
  end.

(** The segment before [std::upper_bound]: the last that does not begin after the offset. *)
Fixpoint last_before (offset : Z) (segments : list RewriteSegment) (found : option RewriteSegment)
    : option RewriteSegment :=
  match segments with
  | s :: rest =>
      if offset <? span_begin (generated s) then found else last_before offset rest (Some s)
  | [] => found
  end.

Definition point (z : Z) : ByteSpan := {| span_begin := z; span_end := z |}.

Definition MapPositionUnchecked (m : RewriteMap) (offset : Z) : option ByteSpan :=
  if generated_size_ m <? offset then None
  else
    match segments_ m with
    | [] => if negb (generated_size_ m =? original_size_ m) then None else Some (point offset)
    | _ =>
        if offset =? generated_size_ m then Some (point (original_size_ m))
        else
          segment ← last_before offset (segments_ m) None;
          if span_end (generated segment) <=? offset then None
          else if segment_kind segment != kCopied then Some (original segment)
          else Some (point (u32 (span_begin (original segment)
                                 + u32 (offset - span_begin (generated segment)))))
    end.

Definition MapGeneratedPosition (m : RewriteMap) (offset : Z) : option ByteSpan :=
  MapPositionUnchecked m offset.

(** The part of a span one segment covers, and where it comes from. *)
Definition segment_part (span : ByteSpan) (s : RewriteSegment) : option ByteSpan :=
  let b := Z.max (span_begin span) (span_begin (generated s)) in
  let e := Z.min (span_end span) (span_end (generated s)) in
  if e <=? b then None
  else if segment_kind s == kCopied then
    let delta := u32 (b - span_begin (generated s)) in
    Some {| span_begin := u32 (span_begin (original s) + delta);
            span_end := u32 (span_begin (original s) + delta + (e - b)) |}
  else Some (original s).

Definition merge_part (mapped : option ByteSpan) (part : option ByteSpan) : option ByteSpan :=
  match part, mapped with
  | None, _ => mapped
  | Some p, None => Some p
  | Some p, Some m => Some {| span_begin := Z.min (span_begin m) (span_begin p);
                              span_end := Z.max (span_end m) (span_end p) |}
  end.

Definition MapGeneratedSpan (m : RewriteMap) (span : ByteSpan) : option ByteSpan :=
  if (span_end span <? span_begin span) || (generated_size_ m <? span_end span) then None
  else if span_begin span =? span_end span then MapPositionUnchecked m (span_begin span)
  else
    match segments_ m with
    | [] => if negb (generated_size_ m =? original_size_ m) then None else Some span
    | segments => fold_left (fun mapped s => merge_part mapped (segment_part span s)) segments None
    end.

(** ** [EmitDesugaredSource] *)

Definition kPrefix : bytes := lit "{ from = ".
Definition kMiddle : bytes := lit ", to = ".
Definition kSuffix : bytes := lit " }".

Definition failure (source : SourceBuffer) (d : Diagnostic) : DesugarResult :=
  {| generated_storage := None; rewrite_map := Identity (source_size source); redirects := [];
     desugar_diagnostics := [d] |}.

Definition IsValidRewrite (source : SourceBuffer) (r : ArrowRewrite) : bool :=
  negb (rewrite_id r =? 0)
  && IsValidSpan source (rewrite_rule r) && IsValidSpan source (rewrite_source r)
  && IsValidSpan source (rewrite_arrow r) && IsValidSpan source (rewrite_target r)
  && (span_begin (rewrite_rule r) =? span_begin (rewrite_source r))
  && (span_end (rewrite_rule r) =? span_end (rewrite_target r))
  && (span_begin (rewrite_source r) <? span_end (rewrite_source r))
  && (span_begin (rewrite_arrow r) <? span_end (rewrite_arrow r))
  && (span_begin (rewrite_target r) <? span_end (rewrite_target r))
  && (span_end (rewrite_source r) <=? span_begin (rewrite_arrow r))
  && (span_end (rewrite_arrow r) <=? span_begin (rewrite_target r)).

Definition AddSize (value increment : Z) : option Z :=
  if 2 ^ 64 - 1 - value <? increment then None else Some (value + increment).

Definition replacement_size (r : ArrowRewrite) : Z :=
  size kPrefix + span_size (rewrite_source r) + size kMiddle + span_size (rewrite_target r)
  + size kSuffix.

(** The loop that checks the rewrites and computes the size of the result. *)
Fixpoint check_rewrites (source : SourceBuffer) (limits : RulesLimits) (ids : gset Z)
    (generated_size previous_end : Z) (rewrites : list ArrowRewrite) : outcome Diagnostic Z :=
  match rewrites with
  | [] => Ok generated_size
  | r :: rest =>
      if negb (IsValidRewrite source r) || (span_begin (rewrite_rule r) <? previous_end)
         || bool_decide (rewrite_id r ∈ ids)
      then Err (diagnostic kDesugarInternal (lit "rules.desugar_invalid_rewrite") (rewrite_rule r) false)
      else
        let too_large :=
          Err (diagnostic kResourceLimit (lit "rules.generated_too_large") (rewrite_rule r) false) in
        match AddSize (u64 (generated_size - span_size (rewrite_rule r))) (replacement_size r) with
        | None => too_large
        | Some generated_size =>
            if (max_generated_bytes limits <? generated_size) || (2 ^ 32 - 1 <? generated_size)
            then too_large
            else check_rewrites source limits ({[rewrite_id r]} ∪ ids) generated_size
                   (span_end (rewrite_rule r)) rest
        end
  end.

Record Emission : Type := {
  output : bytes;
  segments : list RewriteSegment;
  emitted : list GeneratedRedirect;
}.

Definition position (e : Emission) : Z := u32 (size (output e)).

Definition append_segment (limits : RulesLimits) (text : bytes) (from : ByteSpan)
    (kind : RewriteSegmentKind) (e : Emission) : option Emission :=
  match text with
  | [] => Some e
  | _ =>
      if max_rewrite_segments limits <=? size (segments e) then None
      else
        let output' := output e ++ text in
        Some {| output := output';
                segments := segments e ++
                  [{| generated := {| span_begin := position e; span_end := u32 (size output') |};
                      original := from; segment_kind := kind |}];
                emitted := emitted e |}
  end.

Definition append_copied (source : SourceBuffer) (limits : RulesLimits) (span : ByteSpan)
    (e : Emission) : option Emission :=
  append_segment limits
    (take (Z.to_nat (span_size span)) (drop (Z.to_nat (span_begin span)) (source_bytes source)))
    span kCopied e.

(** One rewrite of the second loop, after [source_cursor]. *)
Definition emit_rewrite (source : SourceBuffer) (limits : RulesLimits) (source_cursor : Z)
    (r : ArrowRewrite) (e : Emission) : option Emission :=
  e ← append_copied source limits
        {| span_begin := source_cursor; span_end := span_begin (rewrite_rule r) |} e;
  let table_begin := position e in
  e ← append_segment limits kPrefix (rewrite_rule r) kSyntheticRule e;
  let source_begin := position e in
  e ← append_copied source limits (rewrite_source r) e;
  let source_end := position e in
  e ← append_segment limits kMiddle (rewrite_arrow r) kSyntheticArrow e;
  let target_begin := position e in
  e ← append_copied source limits (rewrite_target r) e;
  let target_end := position e in
  e ← append_segment limits kSuffix (rewrite_rule r) kSyntheticRule e;
  Some {| output := output e; segments := segments e;
          emitted := emitted e ++
            [{| redirect_id := rewrite_id r; original_rule := rewrite_rule r;
                original_source := rewrite_source r; original_arrow := rewrite_arrow r;
                original_target := rewrite_target r;
                generated_table := {| span_begin := table_begin; span_end := position e |};
                generated_source := {| span_begin := source_begin; span_end := source_end |};
                generated_target := {| span_begin := target_begin; span_end := target_end |} |}] |}.

Fixpoint emit_rewrites (source : SourceBuffer) (limits : RulesLimits) (source_cursor : Z)
    (rewrites : list ArrowRewrite) (e : Emission) : outcome Diagnostic (Z * Emission) :=
  match rewrites with
  | [] => Ok (source_cursor, e)
  | r :: rest =>
      match emit_rewrite source limits source_cursor r e with
      | None => Err (diagnostic kResourceLimit (lit "rules.rewrite_segment_limit") (rewrite_rule r) false)
      | Some e => emit_rewrites source limits (span_end (rewrite_rule r)) rest e
      end
  end.

Definition emit (source : SourceBuffer) (rewrites : list ArrowRewrite) (limits : RulesLimits)
    : outcome Diagnostic DesugarResult :=
  generated_size ← check_rewrites source limits ∅ (source_size source) 0 rewrites;
  '(source_cursor, e) ← emit_rewrites source limits 0 rewrites
                          {| output := []; segments := []; emitted := [] |};
  let tail := {| span_begin := source_cursor; span_end := source_size source |} in
  match append_copied source limits tail e with
  | None => Err (diagnostic kDesugarInternal (lit "rules.desugar_emit_mismatch") tail false)
  | Some e =>
      if negb (size (output e) =? generated_size)
      then Err (diagnostic kDesugarInternal (lit "rules.desugar_emit_mismatch") tail false)
      else
        match CreateMap (segments e) (position e) (source_size source) with
        | None => Err (diagnostic kDesugarInternal (lit "rules.desugar_map_invalid")
                         {| span_begin := 0; span_end := source_size source |} false)
        | Some m => Ok {| generated_storage := Some (output e); rewrite_map := m;
                          redirects := emitted e; desugar_diagnostics := [] |}
        end
  end.

Definition EmitDesugaredSource (source : SourceBuffer) (rewrites : list ArrowRewrite)
    (limits : RulesLimits) : DesugarResult :=
  match rewrites with
  | [] => {| generated_storage := None; rewrite_map := Identity (source_size source);
             redirects := []; desugar_diagnostics := [] |}
  | first :: _ =>
      if max_rewrites limits <? size rewrites then
        failure source (diagnostic kResourceLimit (lit "rules.rewrite_limit") (rewrite_rule first) false)
      else
        match emit source rewrites limits with
        | Ok result => result
        | Err d => failure source d
        | Oob => failure source (diagnostic kDesugarInternal [] no_span false)
        end
  end.

Fixpoint rewrites_of (index : Z) (candidates : list ArrowCandidate) : list ArrowRewrite :=
  match candidates with
  | [] => []
  | c :: rest =>
      {| rewrite_id := u32 (index + 1); rewrite_rule := candidate_rule c;
         rewrite_source := candidate_source c; rewrite_arrow := candidate_arrow c;
         rewrite_target := candidate_target c |} :: rewrites_of (index + 1) rest
  end.

Definition DesugarRulesSource (source : SourceBuffer) (limits : RulesLimits) : DesugarResult :=
  let lexical := (AnalyzeRulesSource source limits).2 in
  if negb (parser_allowed lexical) then
    {| generated_storage := None; rewrite_map := Identity (source_size source); redirects := [];
       desugar_diagnostics := diagnostics lexical |}
  else EmitDesugaredSource source (rewrites_of 0 (candidates lexical)) limits.

(** [parser_input]: what the TOML parser reads. *)
Definition parser_input (source : SourceBuffer) (result : DesugarResult) : bytes :=
  match generated_storage result with
  | Some text => text
  | None => source_bytes source
  end.

(** ** Reference notions *)

(** The text the rewrites of a file stand for, from [cursor] on. *)
Fixpoint desugared (input : bytes) (cursor : Z) (rewrites : list ArrowRewrite) : bytes :=
  match rewrites with
  | [] => slice input {| span_begin := cursor; span_end := size input |}
  | r :: rest =>
      slice input {| span_begin := cursor; span_end := span_begin (rewrite_rule r) |}
      ++ kPrefix ++ slice input (rewrite_source r) ++ kMiddle ++ slice input (rewrite_target r)
      ++ kSuffix ++ desugared input (span_end (rewrite_rule r)) rest
  end.

(** Segments that follow one another from [b] to [e]. *)
Fixpoint tiled (b : Z) (segments : list RewriteSegment) (e : Z) : Prop :=
  match segments with
  | [] => b = e
  | s :: rest =>
      span_begin (generated s) = b /\ b < span_end (generated s)
      /\ tiled (span_end (generated s)) rest e
  end.

(** A segment says where its text comes from: a copy of the same bytes, or an arrow
    rule. *)
Definition segment_ok (input text : bytes) (s : RewriteSegment) : Prop :=
  span_within 0 (size text) (generated s) /\ span_within 0 (size input) (original s)
  /\ (segment_kind s = kCopied -> slice text (generated s) = slice input (original s)).

Definition copied_in (segments : list RewriteSegment) (from to : ByteSpan) : Prop :=
  exists s, s ∈ segments /\ segment_kind s = kCopied /\ generated s = from /\ original s = to.

Definition redirect_ok (segments : list RewriteSegment) (g : GeneratedRedirect) : Prop :=
  copied_in segments (generated_source g) (original_source g)
  /\ copied_in segments (generated_target g) (original_target g).

(** The spans of a rewrite, in order and inside the file, after [cursor]. *)
Definition rewrite_ok (n cursor : Z) (r : ArrowRewrite) : Prop :=
  cursor <= span_begin (rewrite_rule r) /\ span_begin (rewrite_rule r) = span_begin (rewrite_source r)
  /\ span_end (rewrite_rule r) = span_end (rewrite_target r)
  /\ span_begin (rewrite_source r) < span_end (rewrite_source r)
  /\ span_end (rewrite_source r) <= span_begin (rewrite_arrow r)
  /\ span_begin (rewrite_arrow r) < span_end (rewrite_arrow r)
  /\ span_end (rewrite_arrow r) <= span_begin (rewrite_target r)
  /\ span_begin (rewrite_target r) < span_end (rewrite_target r)
  /\ span_end (rewrite_target r) <= n.

Fixpoint rewrites_ok (n cursor : Z) (rewrites : list ArrowRewrite) : Prop :=
  match rewrites with
  | [] => cursor <= n
  | r :: rest => rewrite_ok n cursor r /\ rewrites_ok n (span_end (rewrite_rule r)) rest
  end.

(** ** Lemmas: spans and segments *)

Lemma slice_size input s :
  0 <= span_begin s <= span_end s -> span_end s <= size input ->
  size (slice input s) = span_end s - span_begin s.
Proof. intros. unfold slice, size in *. rewrite length_take, length_drop. lia. Qed.

Lemma slice_app_l text more s :
  0 <= span_begin s <= span_end s -> span_end s <= size text -> slice (text ++ more) s = slice text s.
Proof.
  intros Hb He. unfold slice, size in *. rewrite drop_app_le by lia. apply take_app_le.
  rewrite length_drop. lia.
Qed.

Lemma slice_end text more :
  slice (text ++ more) {| span_begin := size text; span_end := size (text ++ more) |} = more.
Proof.
  unfold slice, size. cbn [span_begin span_end]. rewrite Nat2Z.id, drop_app_length.
  apply take_ge. rewrite length_app. lia.
Qed.

Lemma slice_lookup input s i :
  0 <= span_begin s -> 0 <= i < span_end s - span_begin s -> span_end s <= size input ->
  slice input s !! Z.to_nat i = input !! Z.to_nat (span_begin s + i).
Proof.
  intros Hb Hi He. unfold slice. rewrite lookup_take_lt, lookup_drop by lia. f_equal. lia.
Qed.

Lemma tiled_app b l s e : tiled b (l ++ [s]) e <-> exists m, tiled b l m /\ tiled m [s] e.
Proof.
  revert b. induction l as [|x l IH]; intros b; cbn; [naive_solver|].
  rewrite IH. cbn. naive_solver.
Qed.

Lemma tiled_le b l e : tiled b l e -> b <= e.
Proof. revert b. induction l as [|s l IH]; intros b; cbn; [lia|]. intros (<- & ? & ?%IH). lia. Qed.

Lemma tiled_bounds b l e :
  tiled b l e -> Forall (fun s => b <= span_begin (generated s) /\ span_end (generated s) <= e
                                  /\ span_begin (generated s) < span_end (generated s)) l.
Proof.
  revert b. induction l as [|s l IH]; intros b; [constructor|]. cbn. intros (<- & Hlt & Ht).
  constructor; [pose proof (tiled_le _ _ _ Ht); lia|].
  eapply Forall_impl; [by apply IH|]. cbn. intros x. lia.
Qed.

Lemma last_before_tiled b l e offset found :
  tiled b l e -> b <= offset < e ->
  exists s, s ∈ l /\ last_before offset l found = Some s
    /\ span_begin (generated s) <= offset < span_end (generated s).
Proof.
  revert b found. induction l as [|s l IH]; intros b found; cbn; [lia|]. intros (<- & Hlt & Ht) Ho.
  destruct (Z.ltb_spec offset (span_begin (generated s))); [lia|].
  destruct (decide (span_end (generated s) <= offset)).
  - destruct (IH _ (Some s) Ht) as (x & Hx & E & Hb); [lia|]. exists x. by split; [right|].
  - exists s. split; [by left|]. split; [|lia].
    destruct l as [|x l]; [done|]. cbn in Ht |- *. destruct Ht as (E & _).
    destruct (Z.ltb_spec offset (span_begin (generated x))); [done|lia].
Qed.

Lemma fold_merge_none span l m :
  Forall (fun s => segment_part span s = None) l ->
  fold_left (fun mapped s => merge_part mapped (segment_part span s)) l m = m.
Proof. revert m. induction l as [|s l IH]; intros m H; [done|]. apply Forall_cons in H as [E H]. cbn. rewrite E. by apply IH. Qed.

Lemma segment_part_disjoint span s :
  span_end span <= span_begin (generated s) \/ span_end (generated s) <= span_begin span ->
  segment_part span s = None.
Proof.
  intros H. unfold segment_part. destruct (Z.leb_spec (Z.min (span_end span) (span_end (generated s)))
    (Z.max (span_begin span) (span_begin (generated s)))); [done|lia].
Qed.

Lemma tiled_middle b l1 s l2 e :
  tiled b (l1 ++ s :: l2) e ->
  Forall (fun x => span_end (generated x) <= span_begin (generated s)) l1
  /\ Forall (fun x => span_end (generated s) <= span_begin (generated x)) l2.
Proof.
  revert b. induction l1 as [|x l1 IH]; intros b; cbn.
  - intros (_ & _ & Ht). split; [constructor|]. apply tiled_bounds in Ht.
    eapply Forall_impl; [exact Ht|]. cbn. lia.
  - intros (<- & Hlt & Ht). destruct (IH _ Ht) as [H1 H2]. split; [|done]. constructor; [|done].
    apply tiled_bounds in Ht. apply Forall_app in Ht as [_ Ht].
    apply Forall_cons in Ht as [Ht _]. lia.
Qed.

(** ** Lemmas: emission *)

Section Emission.
Context (source : SourceBuffer) (limits : RulesLimits).
Let input := source_bytes source.
Context (source_fits : size input < 2 ^ 32).

(** The table a redirect was rewritten to, in the text. *)
Definition table_written (text : bytes) (g : GeneratedRedirect) : Prop :=
  span_within 0 (size text) (generated_table g)
  /\ slice text (generated_table g)
     = kPrefix ++ slice input (original_source g) ++ kMiddle ++ slice input (original_target g) ++ kSuffix.

Record emission_ok (e : Emission) : Prop := {
  eok_tiled : tiled 0 (segments e) (size (output e));
  eok_segments : Forall (segment_ok input (output e)) (segments e);
  eok_redirects : Forall (redirect_ok (segments e)) (emitted e);
  eok_tables : Forall (table_written (output e)) (emitted e);
}.

Lemma source_size_fits : source_size source = size input.
Proof. apply u32_small. pose proof (size_nonneg input). lia. Qed.

Lemma segment_ok_extend text more s : segment_ok input text s -> segment_ok input (text ++ more) s.
Proof.
  intros (Hg & Ho & Hc). unfold span_within in *. pose proof (size_nonneg more).
  split_and!; try done; rewrite ?size_app; unfold span_within; [lia..|].
  intros Ek. rewrite slice_app_l by lia. by apply Hc.
Qed.

Lemma table_written_extend text more g : table_written text g -> table_written (text ++ more) g.
Proof.
  unfold table_written, span_within. intros [Hw E]. pose proof (size_nonneg more).
  split; [rewrite size_app; lia|]. by rewrite slice_app_l by lia.
Qed.

Lemma copied_in_extend l k from to : copied_in l from to -> copied_in (l ++ k) from to.
Proof. intros (s & Hs & H). exists s. split; [apply elem_of_app; by left|done]. Qed.

(** What one [append_segment] of a text of known origin does. *)
Lemma append_segment_ok text from kind e :
  emission_ok e -> size (output e ++ text) < 2 ^ 32 ->
  (text <> [] -> span_within 0 (size input) from) ->
  (text <> [] -> kind = kCopied -> text = slice input from) ->
  match append_segment limits text from kind e with
  | None => text <> [] /\ max_rewrite_segments limits <= size (segments e)
  | Some e' =>
      output e' = output e ++ text /\ emitted e' = emitted e /\ emission_ok e'
      /\ size (segments e') <= size (segments e) + 1
      /\ (exists more, segments e' = segments e ++ more)
      /\ (text <> [] -> kind = kCopied ->
          copied_in (segments e') {| span_begin := position e; span_end := position e' |} from)
  end.
Proof.
  intros [Ht Hs Hr Hw] Hfit Hfrom Hcopy.
  destruct (decide (text = [])) as [->|Hne].
  { cbn [append_segment]. rewrite app_nil_r. split_and!; try done; [lia|]. exists []. by rewrite app_nil_r. }
  unfold append_segment. destruct text as [|b text'] eqn:E; [done|]. rewrite <- E in *. clear E b text'.
  destruct (Z.leb_spec (max_rewrite_segments limits) (size (segments e))) as [|Hlt]; [done|].
  pose proof (size_nonneg (output e)). assert (0 < size text) by (destruct text; [done|rewrite size_cons; pose proof (size_nonneg text); lia]).
  rewrite size_app in Hfit.
  assert (position e = size (output e)) as Hpos by (apply u32_small; lia).
  assert (u32 (size (output e ++ text)) = size (output e ++ text)) as Hpos' by (apply u32_small; rewrite size_app; lia).
  cbn [output segments emitted]. rewrite Hpos, Hpos'. set (s := {| generated := _ |}).
  split_and!; [done|done| |rewrite size_app; change (size [s]) with 1; lia|by exists [s]|].
  - split; cbn [output segments emitted].
    + apply tiled_app. exists (size (output e)). split; [done|]. cbn. rewrite size_app. lia.
    + apply Forall_app. split.
      * eapply Forall_impl; [exact Hs|]. intros x. apply segment_ok_extend.
      * constructor; [|constructor]. split_and!; cbn; unfold span_within in *; cbn.
        -- rewrite size_app. lia.
        -- by apply Hfrom.
        -- intros Ek. rewrite slice_end. by apply Hcopy.
    + eapply Forall_impl; [exact Hr|]. intros g [H1 H2]. split; by apply copied_in_extend.
    + eapply Forall_impl; [exact Hw|]. intros g. apply table_written_extend.
  - intros _ Ek. exists s. split_and!; [apply elem_of_app; right; by left|done| |done].
    cbn. unfold position. cbn [output]. by rewrite Hpos'.
Qed.

Lemma append_copied_ok span e :
  emission_ok e -> 0 <= span_begin span <= span_end span -> span_end span <= size input ->
  size (output e ++ slice input span) < 2 ^ 32 ->
  match append_copied source limits span e with
  | None => span_begin span < span_end span /\ max_rewrite_segments limits <= size (segments e)
  | Some e' =>
      output e' = output e ++ slice input span /\ emitted e' = emitted e /\ emission_ok e'
      /\ size (segments e') <= size (segments e) + 1
      /\ (exists more, segments e' = segments e ++ more)
      /\ (span_begin span < span_end span ->
          copied_in (segments e') {| span_begin := position e; span_end := position e' |} span)
  end.
Proof.
  intros He Hb Hle Hfit. unfold append_copied, span_size. rewrite u32_small by lia.
  change (take _ _) with (slice input span).
  pose proof (slice_size input span Hb Hle) as Hsz.
  assert (span_begin span < span_end span <-> slice input span <> []) as Hiff.
  { destruct (slice input span) as [|b t]; rewrite ?size_nil, ?size_cons in Hsz;
      [split; [lia|done]|]. pose proof (size_nonneg t). split; [done|lia]. }
  pose proof (append_segment_ok (slice input span) span kCopied e He Hfit) as H.
  destruct (append_segment limits (slice input span) span kCopied e) as [e'|].
  - destruct H as (? & ? & ? & ? & ? & H); [rewrite <- Hiff; unfold span_within; lia|done|].
    split_and!; try done. intros Hlt%Hiff. by apply H.
  - rewrite Hiff. apply H; [rewrite <- Hiff; unfold span_within; lia|done].
Qed.

Definition piece (cursor : Z) (r : ArrowRewrite) : bytes :=
  slice input {| span_begin := cursor; span_end := span_begin (rewrite_rule r) |}
  ++ kPrefix ++ slice input (rewrite_source r) ++ kMiddle ++ slice input (rewrite_target r) ++ kSuffix.

Definition redirect_for (r : ArrowRewrite) (g : GeneratedRedirect) : Prop :=
  redirect_id g = rewrite_id r /\ original_rule g = rewrite_rule r
  /\ original_source g = rewrite_source r /\ original_arrow g = rewrite_arrow r
  /\ original_target g = rewrite_target r.

Lemma synthetic_ok text from kind e :
  emission_ok e -> size (output e) + size text < 2 ^ 32 -> span_within 0 (size input) from ->
  kind <> kCopied ->
  match append_segment limits text from kind e with
  | None => max_rewrite_segments limits <= size (segments e)
  | Some e' =>
      output e' = output e ++ text /\ emitted e' = emitted e /\ emission_ok e'
      /\ size (segments e') <= size (segments e) + 1
      /\ exists more, segments e' = segments e ++ more
  end.
Proof.
  intros He Hfit Hfrom Hk.
  pose proof (append_segment_ok text from kind e He ltac:(rewrite size_app; lia) ltac:(done) ltac:(done)) as H.
  destruct (append_segment limits text from kind e); [|by destruct H]. by destruct H as (? & ? & ? & ? & ? & _).
Qed.

Lemma copied_ok span e :
  emission_ok e -> 0 <= span_begin span <= span_end span -> span_end span <= size input ->
  size (output e) + size (slice input span) < 2 ^ 32 ->
  match append_copied source limits span e with
  | None => max_rewrite_segments limits <= size (segments e)
  | Some e' =>
      output e' = output e ++ slice input span /\ emitted e' = emitted e /\ emission_ok e'
      /\ size (segments e') <= size (segments e) + 1
      /\ (exists more, segments e' = segments e ++ more)
      /\ (span_begin span < span_end span ->
          copied_in (segments e') {| span_begin := position e; span_end := position e' |} span)
  end.
Proof.
  intros He Hb Hle Hfit.
  pose proof (append_copied_ok span e He Hb Hle ltac:(rewrite size_app; lia)) as H.
  destruct (append_copied source limits span e); [done|by destruct H].
Qed.

Lemma emit_rewrite_ok cursor r e :
  emission_ok e -> 0 <= cursor -> rewrite_ok (size input) cursor r ->
  size (output e) + size (piece cursor r) < 2 ^ 32 ->
  match emit_rewrite source limits cursor r e with
  | None => max_rewrite_segments limits < size (segments e) + 6
  | Some e' =>
      output e' = output e ++ piece cursor r /\ emission_ok e'
      /\ size (segments e') <= size (segments e) + 6
      /\ exists g, emitted e' = emitted e ++ [g] /\ redirect_for r g
  end.
Proof.
  intros He Hc (H0 & H1 & H2 & H3 & H4 & H5 & H6 & H7 & H8) Hfit. unfold piece in *.
  rewrite !size_app in Hfit. unfold emit_rewrite.
  pose proof (size_nonneg (slice input {| span_begin := cursor; span_end := span_begin (rewrite_rule r) |})).
  pose proof (size_nonneg (slice input (rewrite_source r))).
  pose proof (size_nonneg (slice input (rewrite_target r))).
  pose proof (size_nonneg kPrefix). pose proof (size_nonneg kMiddle). pose proof (size_nonneg kSuffix).
  pose proof (copied_ok {| span_begin := cursor; span_end := span_begin (rewrite_rule r) |} e He
    ltac:(cbn; lia) ltac:(cbn; lia) ltac:(lia)) as S1.
  destruct (append_copied _ _ _ e) as [e1|]; cbn [mbind option_bind]; [|lia].
  destruct S1 as (O1 & M1 & He1 & L1 & _ & _).
  pose proof (synthetic_ok kPrefix (rewrite_rule r) kSyntheticRule e1 He1 ltac:(rewrite O1, size_app; lia)
    ltac:(unfold span_within; lia) ltac:(done)) as S2.
  destruct (append_segment _ kPrefix _ _ e1) as [e2|]; cbn [mbind option_bind]; [|lia].
  destruct S2 as (O2 & M2 & He2 & L2 & _).
  pose proof (copied_ok (rewrite_source r) e2 He2 ltac:(lia) ltac:(lia) ltac:(rewrite O2, O1, !size_app; lia)) as S3.
  destruct (append_copied _ _ _ e2) as [e3|]; cbn [mbind option_bind]; [|lia].
  destruct S3 as (O3 & M3 & He3 & L3 & _ & C3). specialize (C3 H3).
  pose proof (synthetic_ok kMiddle (rewrite_arrow r) kSyntheticArrow e3 He3
    ltac:(rewrite O3, O2, O1, !size_app; lia) ltac:(unfold span_within; lia) ltac:(done)) as S4.
  destruct (append_segment _ kMiddle _ _ e3) as [e4|]; cbn [mbind option_bind]; [|lia].
  destruct S4 as (O4 & M4 & He4 & L4 & [k4 P4]).
  pose proof (copied_ok (rewrite_target r) e4 He4 ltac:(lia) ltac:(lia)
    ltac:(rewrite O4, O3, O2, O1, !size_app; lia)) as S5.
  destruct (append_copied _ _ _ e4) as [e5|]; cbn [mbind option_bind]; [|lia].
  destruct S5 as (O5 & M5 & He5 & L5 & [k5 P5] & C5). specialize (C5 H7).
  pose proof (synthetic_ok kSuffix (rewrite_rule r) kSyntheticRule e5 He5
    ltac:(rewrite O5, O4, O3, O2, O1, !size_app; lia) ltac:(unfold span_within; lia) ltac:(done)) as S6.
  destruct (append_segment _ kSuffix _ _ e5) as [e6|]; cbn [mbind option_bind]; [|lia].
  destruct S6 as (O6 & M6 & [T6 G6 R6 W6] & L6 & [k6 P6]). cbn [output segments emitted].
  rewrite M6, M5, M4, M3, M2, M1 in *. split_and!.
  - by rewrite O6, O5, O4, O3, O2, O1, <- !app_assoc.
  - split; [done|done| |]; (apply Forall_app; split; [done|]; constructor; [|constructor]).
    + split; cbn; rewrite P6; [|by apply copied_in_extend].
      rewrite P5, P4. by do 3 apply copied_in_extend.
    + assert (output e6 = output e1 ++ kPrefix ++ slice input (rewrite_source r) ++ kMiddle
                          ++ slice input (rewrite_target r) ++ kSuffix) as E6
        by (by rewrite O6, O5, O4, O3, O2, <- !app_assoc).
      assert (0 <= size (output e1) < size (output e6) /\ size (output e6) < 2 ^ 32) as [Hle Hlt].
      { pose proof (size_nonneg (output e)). rewrite E6, O1, !size_app.
        change (size kPrefix) with 9 in *. lia. }
      unfold table_written, position. cbn [generated_table original_source original_target].
      rewrite !u32_small by lia. split; [unfold span_within; cbn; lia|]. rewrite E6. apply slice_end.
  - lia.
  - eexists. split; [done|]. by split_and!.
Qed.

Lemma desugared_cons cursor r rest :
  desugared input cursor (r :: rest) = piece cursor r ++ desugared input (span_end (rewrite_rule r)) rest.
Proof. unfold piece. cbn [desugared]. by rewrite <- !app_assoc. Qed.

Lemma emit_rewrites_ok rewrites cursor e :
  emission_ok e -> 0 <= cursor -> rewrites_ok (size input) cursor rewrites ->
  size (output e) + size (desugared input cursor rewrites) < 2 ^ 32 ->
  match emit_rewrites source limits cursor rewrites e with
  | Ok (cursor', e') =>
      0 <= cursor' <= size input
      /\ output e ++ desugared input cursor rewrites
         = output e' ++ slice input {| span_begin := cursor'; span_end := size input |}
      /\ emission_ok e' /\ size (segments e') <= size (segments e) + 6 * size rewrites
      /\ exists gs, emitted e' = emitted e ++ gs /\ Forall2 redirect_for rewrites gs
  | Err d => max_rewrite_segments limits < size (segments e) + 6 * size rewrites
             /\ code d = kResourceLimit
  | Oob => False
  end.
Proof.
  revert cursor e. induction rewrites as [|r rest IH]; intros cursor e He Hc Hok Hfit; cbn [emit_rewrites].
  - cbn in Hok. pose proof (size_nonneg (@nil ArrowRewrite)).
    do 4 (split; [done || lia|]). exists []. by rewrite app_nil_r.
  - destruct Hok as [Hr Hrest]. rewrite desugared_cons, size_app in Hfit.
    pose proof (size_nonneg (desugared input (span_end (rewrite_rule r)) rest)).
    pose proof (emit_rewrite_ok cursor r e He Hc Hr ltac:(lia)) as H1. rewrite size_cons.
    pose proof (size_nonneg rest).
    destruct (emit_rewrite source limits cursor r e) as [e1|]; [|split; [lia|done]].
    destruct H1 as (O1 & He1 & L1 & g & M1 & Hg).
    assert (0 <= span_end (rewrite_rule r)) as Hc1 by (unfold rewrite_ok in Hr; lia).
    specialize (IH (span_end (rewrite_rule r)) e1 He1 Hc1 Hrest ltac:(rewrite O1, size_app; lia)).
    destruct (emit_rewrites source limits _ rest e1) as [[cursor' e']|d|]; [|destruct IH; split; [lia|done]|done].
    destruct IH as (? & E & ? & ? & gs & M2 & Hgs). split; [done|]. split; [|split; [done|split; [lia|]]].
    + by rewrite desugared_cons, app_assoc, <- O1.
    + exists (g :: gs). rewrite M2, M1, <- app_assoc. split; [done|by constructor].
Qed.

Lemma IsValidRewrite_spec cursor r :
  0 <= cursor ->
  IsValidRewrite source r = true /\ cursor <= span_begin (rewrite_rule r)
  <-> rewrite_id r <> 0 /\ rewrite_ok (size input) cursor r.
Proof.
  intros Hc. unfold IsValidRewrite, IsValidSpan, rewrite_ok. fold input.
  rewrite !andb_true_iff, negb_true_iff, Z.eqb_neq, !Z.eqb_eq, !Z.leb_le, !Z.ltb_lt.
  split; [intros ([] & ?)|intros []]; split_and!; lia.
Qed.

Lemma desugared_size_nonneg cursor rewrites : 0 <= size (desugared input cursor rewrites).
Proof. apply size_nonneg. Qed.

Lemma piece_size cursor r :
  0 <= cursor -> rewrite_ok (size input) cursor r ->
  size (piece cursor r) = span_begin (rewrite_rule r) - cursor + replacement_size r
  /\ span_size (rewrite_rule r) = span_end (rewrite_rule r) - span_begin (rewrite_rule r)
  /\ span_end (rewrite_source r) - span_begin (rewrite_source r) <= replacement_size r
  /\ span_end (rewrite_target r) - span_begin (rewrite_target r) <= replacement_size r
  /\ replacement_size r < 2 ^ 34.
Proof.
  intros Hc (H0 & H1 & H2 & H3 & H4 & H5 & H6 & H7 & H8). unfold piece, replacement_size, span_size.
  rewrite !size_app, !slice_size by (cbn; lia). cbn [span_begin span_end].
  rewrite !u32_small by lia. change (size kPrefix) with 9. change (size kMiddle) with 7.
  change (size kSuffix) with 2. lia.
Qed.

(** The second rewrite of an id is refused; fresh ids are not. *)
Definition ids_fresh (ids : gset Z) (rewrites : list ArrowRewrite) : Prop :=
  NoDup (rewrite_id <$> rewrites)
  /\ Forall (fun r => rewrite_id r <> 0 /\ rewrite_id r ∉ ids) rewrites.

Lemma check_rewrites_ok rewrites ids g0 prev :
  0 <= prev <= size input -> size input - prev <= g0 < 2 ^ 32 ->
  match check_rewrites source limits ids g0 prev rewrites with
  | Ok g => rewrites_ok (size input) prev rewrites /\ g < 2 ^ 32
            /\ g = g0 - (size input - prev) + size (desugared input prev rewrites)
  | Err d => rewrites_ok (size input) prev rewrites -> ids_fresh ids rewrites ->
             exists r, d = diagnostic kResourceLimit (lit "rules.generated_too_large") (rewrite_rule r) false
  | Oob => False
  end.
Proof.
  revert ids g0 prev. induction rewrites as [|r rest IH]; intros ids g0 prev Hp Hg; cbn [check_rewrites].
  { cbn [desugared rewrites_ok]. rewrite slice_size by (cbn; lia). cbn. lia. }
  destruct (negb (IsValidRewrite source r) || _ || _) eqn:Ebad.
  { intros [Hr _] [_ [[Hid Hin] _]%Forall_cons]. exfalso.
    destruct (proj2 (IsValidRewrite_spec prev r ltac:(lia)) (conj Hid Hr)) as [Hv Hb].
    rewrite Hv, bool_decide_eq_false_2 in Ebad by done. cbn [negb orb] in Ebad.
    destruct (Z.ltb_spec (span_begin (rewrite_rule r)) prev); [lia|done]. }
  apply orb_false_iff in Ebad as [Ebad Hin%bool_decide_eq_false].
  apply orb_false_iff in Ebad as [Hv%negb_false_iff Hb%Z.ltb_ge].
  assert (rewrite_id r <> 0 /\ rewrite_ok (size input) prev r) as [Hid Hr]
    by (apply IsValidRewrite_spec; [lia|done]).
  destruct (piece_size prev r ltac:(lia) Hr) as (Hps & Hrs & Hsrc & Htgt & Hsmall).
  pose proof Hr as (H0 & H1 & H2 & H3 & H4 & H5 & H6 & H7 & H8).
  rewrite Hrs, u64_small by lia. unfold AddSize.
  destruct (Z.ltb_spec (2 ^ 64 - 1 - (g0 - (span_end (rewrite_rule r) - span_begin (rewrite_rule r))))
    (replacement_size r)); [lia|].
  destruct (_ || _) eqn:Elarge; [by exists r|]. split_tests.
  assert (0 <= span_end (rewrite_rule r) <= size input) as Hp' by lia.
  specialize (IH ({[rewrite_id r]} ∪ ids) (g0 - (span_end (rewrite_rule r) - span_begin (rewrite_rule r))
    + replacement_size r) (span_end (rewrite_rule r)) Hp' ltac:(lia)).
  destruct (check_rewrites source limits _ _ _ rest) as [g|d|]; [|intros [_ Hrest] [Hnd Hf]|done].
  - destruct IH as (Hrest & Hlt & ->). split; [by split|]. split; [done|].
    rewrite desugared_cons, size_app. lia.
  - apply IH; [done|]. apply Forall_cons in Hf as [_ Hf]. cbn in Hnd. apply NoDup_cons in Hnd as [Hnin Hnd].
    split; [done|]. rewrite Forall_forall in Hf |- *. intros x Hx. destruct (Hf x Hx) as [? ?].
    split; [done|]. rewrite elem_of_union, elem_of_singleton. intros [E|]; [|done].
    apply Hnin. rewrite <- E. by apply list_elem_of_fmap_2.
Qed.

Lemma check_segments_ok segs text b :
  0 <= b -> size text < 2 ^ 32 -> tiled b segs (size text) -> Forall (segment_ok input text) segs ->
  check_segments segs (size text) (size input) b = true.
Proof.
  intros Hb Hfit. revert b Hb. induction segs as [|s segs IH]; intros b Hb Ht Hs; cbn in Ht |- *.
  - subst. apply Z.eqb_refl.
  - destruct Ht as (E & Hlt & Ht). apply Forall_cons in Hs as [(Hg & Ho & Hcp) Hs].
    unfold span_within in *. destruct (_ || _) eqn:Ebad; [exfalso|apply IH; [lia|done|done]].
    rewrite !orb_true_iff, negb_true_iff, Z.eqb_neq, !Z.leb_le, !Z.ltb_lt, andb_true_iff in Ebad.
    destruct Ebad as [[[[[?|?]|?]|?]|?]|[Ek%bool_decide_eq_true Hsz%negb_true_iff%Z.eqb_neq]]; try lia.
    specialize (Hcp Ek). apply (f_equal size) in Hcp. rewrite !slice_size in Hcp by lia.
    unfold span_size in Hsz. rewrite !u32_small in Hsz by lia. lia.
Qed.

(** What a successful emission contains. *)
Record desugared_result (rewrites : list ArrowRewrite) (text : bytes) (r : DesugarResult) : Prop := {
  dr_storage : generated_storage r = Some text;
  dr_text : text = desugared input 0 rewrites;
  dr_fits : 0 < size text < 2 ^ 32;
  dr_sizes : generated_size_ (rewrite_map r) = size text /\ original_size_ (rewrite_map r) = size input;
  dr_tiled : tiled 0 (segments_ (rewrite_map r)) (size text);
  dr_segments : Forall (segment_ok input text) (segments_ (rewrite_map r));
  dr_redirects : Forall (redirect_ok (segments_ (rewrite_map r))) (redirects r);
  dr_tables : Forall (table_written text) (redirects r);
  dr_for : Forall2 redirect_for rewrites (redirects r);
  dr_clean : desugar_diagnostics r = [];
}.

Lemma emit_ok rewrites :
  rewrites <> [] ->
  match emit source rewrites limits with
  | Ok r => rewrites_ok (size input) 0 rewrites /\ exists text, desugared_result rewrites text r
  | Err d => rewrites_ok (size input) 0 rewrites -> ids_fresh ∅ rewrites ->
             6 * size rewrites + 1 <= max_rewrite_segments limits ->
             exists r, d = diagnostic kResourceLimit (lit "rules.generated_too_large") (rewrite_rule r) false
  | Oob => False
  end.
Proof.
  intros Hne. unfold emit. rewrite source_size_fits. pose proof (size_nonneg input).
  pose proof (check_rewrites_ok rewrites ∅ (size input) 0 ltac:(lia) ltac:(lia)) as Hc.
  destruct (check_rewrites source limits ∅ (size input) 0 rewrites) as [g|d|];
    cbn [mbind outcome_bind]; [|by intros H1 H2 _; apply Hc|done].
  destruct Hc as (Hok & Hlt & Hg). rewrite Z.sub_0_r, Z.sub_diag, Z.add_0_l in Hg.
  set (e0 := {| output := []; segments := []; emitted := [] |}).
  assert (emission_ok e0) as He0 by (split; [done|constructor..]).
  pose proof (emit_rewrites_ok rewrites 0 e0 He0 ltac:(lia) Hok ltac:(rewrite Hg in Hlt; exact Hlt)) as Hr.
  destruct (emit_rewrites source limits 0 rewrites e0) as [[cursor e]|d|]; cbn [mbind outcome_bind];
    [|destruct Hr as [Hm _]; intros _ _ Hs; change (segments e0) with (@nil RewriteSegment) in Hm;
      rewrite size_nil in Hm; lia|done].
  destruct Hr as (Hcur & Etext & He & Hsegs & gs & Egs & Hfor).
  change (output e0) with (@nil byte) in Etext. cbn [Datatypes.app] in Etext.
  change (segments e0) with (@nil RewriteSegment) in Hsegs. rewrite size_nil in Hsegs.
  pose proof (copied_ok {| span_begin := cursor; span_end := size input |} e He ltac:(cbn; lia) ltac:(cbn; lia)
    ltac:(rewrite <- size_app, <- Etext, <- Hg; exact Hlt)) as Ht.
  destruct (append_copied _ _ _ e) as [e'|]; [|intros _ _ Hs; lia].
  destruct Ht as (Eout & Eem & [Htile Hseg Hred Htab] & _ & _ & _). rewrite <- Etext in Eout.
  assert (size (output e') = g) as Hsize by (by rewrite Eout).
  rewrite Hsize, Z.eqb_refl. cbn [negb].
  assert (position e' = size (output e')) as -> by (apply u32_small; pose proof (size_nonneg (output e')); lia).
  assert (0 < size (output e')) as Hpos.
  { rewrite Eout. destruct rewrites as [|r rest]; [done|]. rewrite desugared_cons, size_app.
    destruct Hok as [Hr _]. destruct (piece_size 0 r ltac:(lia) Hr) as (-> & _ & ? & _ & _).
    unfold rewrite_ok in Hr. pose proof (desugared_size_nonneg (span_end (rewrite_rule r)) rest). lia. }
  unfold CreateMap. rewrite check_segments_ok by (done || lia).
  destruct (segments e') as [|s segs] eqn:Es.
  { cbn in Htile. lia. }
  rewrite <- Es in *. split; [done|]. exists (output e').
  split; cbn; try done; try lia; by rewrite Eem, Egs.
Qed.
End Emission.

(** ** Lemmas: candidates as rewrites, and lookups *)

Lemma candidates_rewrites_ok input index cursor candidates :
  0 <= cursor <= size input -> Forall (candidate_ok input) candidates ->
  StronglySorted precedes candidates ->
  Forall (fun c => cursor <= span_begin (candidate_rule c)) candidates ->
  rewrites_ok (size input) cursor (rewrites_of index candidates)
  /\ size candidates <= size input - cursor.
Proof.
  intros Hc Hok Hs Hb. revert index cursor Hc Hb.
  induction Hs as [|c l Hs IH Hall]; intros index cursor Hc Hb; cbn [rewrites_of rewrites_ok].
  { rewrite size_nil. lia. }
  apply Forall_cons in Hok as [[E1 E2 Hsrc Harr Htgt _ _ _] Hok]. apply Forall_cons in Hb as [Hb _].
  unfold span_within in *. rewrite size_cons.
  destruct (IH Hok (index + 1) (span_end (candidate_rule c)) ltac:(lia)) as [IH1 IH2].
  { eapply Forall_impl; [exact Hall|]. done. }
  split; [split; [|done]|lia]. unfold rewrite_ok. cbn. lia.
Qed.

Lemma rewrites_of_ids candidates index ids :
  0 <= index -> index + size candidates < 2 ^ 32 -> (forall id, id ∈ ids -> id <= index) ->
  ids_fresh ids (rewrites_of index candidates)
  /\ Forall (fun r => index < rewrite_id r) (rewrites_of index candidates).
Proof.
  revert index ids. induction candidates as [|c l IH]; intros index ids Hi Hn Hids; cbn [rewrites_of].
  { split; [|constructor]. split; [|constructor]. apply NoDup_nil_2. }
  rewrite size_cons in Hn. pose proof (size_nonneg l).
  destruct (IH (index + 1) ids ltac:(lia) ltac:(lia)) as [[Hnd Hf] Hgt].
  { intros id Hid. specialize (Hids id Hid). lia. }
  rewrite u32_small by lia. split; [split|].
  - cbn. apply NoDup_cons. split; [|done]. intros (r & E & Hr)%list_elem_of_fmap.
    rewrite Forall_forall in Hgt. specialize (Hgt r Hr). lia.
  - constructor; [|done]. cbn. split; [lia|]. intros Hid. specialize (Hids _ Hid). lia.
  - constructor; [cbn; lia|]. eapply Forall_impl; [exact Hgt|]. cbn. lia.
Qed.

Lemma ScanArrowCandidates_ok source limits :
  size (source_bytes source) < 2 ^ 32 ->
  Forall (candidate_ok (source_bytes source)) (candidates (ScanArrowCandidates source limits))
  /\ StronglySorted precedes (candidates (ScanArrowCandidates source limits))
  /\ size (candidates (ScanArrowCandidates source limits)) <= Z.max (max_rewrites limits) 0.
Proof.
  intros Hfits. destruct (Run_result limits _ Hfits) as (s & offset & Hs & _ & _ & E).
  destruct (FinishAtEof_ok limits _ _ s Hs) as [[Hc Hst Hr _ _] _].
  set (o := FinishAtEof limits (out s) (machine s)) in *.
  assert (candidates (ScanArrowCandidates source limits) = (if has_error o then [] else out_candidates o)) as ->
    by (unfold ScanArrowCandidates; by rewrite E).
  destruct (has_error o); split_and!; try done; try constructor; try lia. rewrite size_nil. lia.
Qed.

Lemma size_rewrites_of index candidates : size (rewrites_of index candidates) = size candidates.
Proof. revert index. induction candidates as [|c l IH]; intros i; [done|]. cbn [rewrites_of]. by rewrite !size_cons, IH. Qed.

Lemma rewrites_of_lookup index candidates i c :
  candidates !! i = Some c -> 0 <= index -> index + size candidates < 2 ^ 32 ->
  exists w, rewrites_of index candidates !! i = Some w /\ rewrite_id w = index + Z.of_nat i + 1
    /\ w = {| rewrite_id := index + Z.of_nat i + 1; rewrite_rule := candidate_rule c;
              rewrite_source := candidate_source c; rewrite_arrow := candidate_arrow c;
              rewrite_target := candidate_target c |}.
Proof.
  revert index i. induction candidates as [|d l IH]; intros index i Hi Hidx Hn; [done|].
  rewrite size_cons in Hn. pose proof (size_nonneg l). destruct i as [|i]; cbn [rewrites_of lookup list_lookup] in *.
  - injection Hi as ->. rewrite u32_small by lia. eexists. split; [done|]. cbn. split; [lia|]. f_equal. lia.
  - destruct (IH (index + 1) i Hi ltac:(lia) ltac:(lia)) as (w & Hw & Eid & Ew). exists w.
    replace (index + Z.of_nat (S i) + 1) with (index + 1 + Z.of_nat i + 1) by lia. done.
Qed.

Lemma rewrite_ids_seq index candidates :
  0 <= index -> index + size candidates < 2 ^ 32 ->
  rewrite_id <$> rewrites_of index candidates = seqZ (index + 1) (size candidates).
Proof.
  revert index. induction candidates as [|c l IH]; intros index Hi Hn; [done|]. rewrite size_cons in *.
  pose proof (size_nonneg l). cbn [rewrites_of fmap list_fmap rewrite_id].
  rewrite (seqZ_cons (index + 1)) by lia. rewrite u32_small by lia. f_equal.
  change (list_fmap _ _ _ (rewrites_of (index + 1) l)) with (rewrite_id <$> rewrites_of (index + 1) l).
  rewrite IH by lia. unfold Z.succ. f_equal. lia.
Qed.

Lemma MapPosition_ok source rewrites text r offset :
  size (source_bytes source) < 2 ^ 32 -> desugared_result source rewrites text r ->
  0 <= offset < size text ->
  exists span, MapGeneratedPosition (rewrite_map r) offset = Some span
    /\ 0 <= span_begin span <= span_end span /\ span_end span <= size (source_bytes source)
    /\ (span_begin span = span_end span ->
        text !! Z.to_nat offset = source_bytes source !! Z.to_nat (span_begin span)).
Proof.
  intros Hfits [_ _ Hfit [Hg Ho] Ht Hs _ _ _] Hoff. unfold MapGeneratedPosition, MapPositionUnchecked.
  rewrite Hg, Ho. destruct (Z.ltb_spec (size text) offset); [lia|].
  destruct (segments_ (rewrite_map r)) as [|s0 segs] eqn:Es; [cbn in Ht; lia|]. rewrite <- Es in *.
  destruct (Z.eqb_spec offset (size text)); [lia|].
  destruct (last_before_tiled 0 _ _ offset None Ht Hoff) as (s & Hin & -> & Hb).
  cbn [mbind option_bind]. destruct (Z.leb_spec (span_end (generated s)) offset); [lia|].
  rewrite Forall_forall in Hs. destruct (Hs s Hin) as (Hgen & Horig & Hcopy). unfold span_within in *.
  destruct (segment_kind s != kCopied) eqn:Ek; split_tests.
  - exists (original s). split_and!; try done; lia.
  - specialize (Hcopy Ek). pose proof (f_equal size Hcopy) as Hsz. rewrite !slice_size in Hsz by lia.
    rewrite !u32_small by (rewrite ?u32_small; lia).
    eexists. split; [done|]. cbn [point span_begin span_end]. split; [lia|]. split; [lia|]. intros _.
    rewrite <- (slice_lookup _ (original s)) by lia. rewrite <- Hcopy, slice_lookup by lia.
    f_equal. lia.
Qed.

Lemma MapSpan_copied source rewrites text r from to :
  size (source_bytes source) < 2 ^ 32 -> desugared_result source rewrites text r ->
  copied_in (segments_ (rewrite_map r)) from to ->
  MapGeneratedSpan (rewrite_map r) from = Some to
  /\ slice text from = slice (source_bytes source) to.
Proof.
  intros Hfits [_ _ Hfit [Hg Ho] Ht Hs _ _ _] (s & Hin & Ek & <- & <-).
  rewrite Forall_forall in Hs. destruct (Hs s Hin) as (Hgen & Horig & Hcopy). specialize (Hcopy Ek).
  split; [|done]. unfold MapGeneratedSpan, span_within in *. rewrite Hg.
  destruct (Z.ltb_spec (span_end (generated s)) (span_begin (generated s))); [lia|].
  destruct (Z.ltb_spec (size text) (span_end (generated s))); [lia|]. cbn [orb].
  destruct (Z.eqb_spec (span_begin (generated s)) (span_end (generated s))); [lia|].
  apply list_elem_of_split in Hin as (l1 & l2 & E). rewrite E in Ht |- *.
  destruct (tiled_middle _ _ _ _ _ Ht) as [H1 H2].
  assert (l1 ++ s :: l2 <> []) as Hne by (by destruct l1).
  destruct (l1 ++ s :: l2) as [|x l] eqn:El; [done|]. rewrite <- El. clear Hne.
  rewrite fold_left_app. cbn [fold_left].
  rewrite (fold_merge_none _ l1), (fold_merge_none _ l2).
  2:{ eapply Forall_impl; [exact H2|]. intros y Hy. apply segment_part_disjoint. cbn in Hy. lia. }
  2:{ eapply Forall_impl; [exact H1|]. intros y Hy. apply segment_part_disjoint. cbn in Hy. lia. }
  unfold segment_part. rewrite Z.max_id, Z.min_id.
  destruct (Z.leb_spec (span_end (generated s)) (span_begin (generated s))); [lia|].
  rewrite bool_decide_eq_true_2 by done. cbn [merge_part]. f_equal.
  pose proof (f_equal size Hcopy) as Hsz. rewrite !slice_size in Hsz by lia.
  rewrite Z.sub_diag. change (u32 0) with 0. rewrite Z.add_0_r, !u32_small by lia.
  destruct (original s) as [ob oe]. cbn [span_begin span_end] in *. f_equal. lia.
Qed.

Lemma EmitDesugaredSource_text source rewrites limits text :
  size (source_bytes source) < 2 ^ 32 ->
  generated_storage (EmitDesugaredSource source rewrites limits) = Some text ->
  desugared_result source rewrites text (EmitDesugaredSource source rewrites limits).
Proof.
  intros Hfits. unfold EmitDesugaredSource. destruct rewrites as [|r0 rest] eqn:Er; [done|].
  rewrite <- Er. destruct (_ <? _); [done|].
  pose proof (emit_ok source limits Hfits rewrites ltac:(by rewrite Er)) as He.
  destruct (emit source rewrites limits) as [r|d|]; [|done|done].
  destruct He as (_ & text' & Hr). intros Et. rewrite (dr_storage _ _ _ _ Hr) in Et.
  injection Et as <-. done.
Qed.

(** ** Properties *)

(** C17. Desugaring is complete and exact. When the scanner finds no error, the text the
    TOML parser gets is the file with each [source -> target] replaced by an inline
    table and every other byte kept; the one way to fail is a text over the size limit,
    and no internal error of the rewriter can be reported. *)
Theorem desugar_rules_exact name input source limits :
  Create name input limits = Ok source ->
  0 <= max_rewrites limits -> 6 * max_rewrites limits + 1 <= max_rewrite_segments limits ->
  let found := (AnalyzeRulesSource source limits).2 in
  let r := DesugarRulesSource source limits in
  parser_allowed found = true ->
  desugar_diagnostics r = []
  /\ parser_input source r = desugared (source_bytes source) 0 (rewrites_of 0 (candidates found))
  \/ exists c, desugar_diagnostics r
       = [diagnostic kResourceLimit (lit "rules.generated_too_large") (rewrite_rule c) false].
Proof.
  intros Hfits%Create_fits Hmax Hsegs. cbv zeta. unfold DesugarRulesSource.
  set (found := (AnalyzeRulesSource source limits).2). intros Hallowed. rewrite Hallowed. cbn [negb].
  assert (found = ScanArrowCandidates source limits) as Efound.
  { unfold found, AnalyzeRulesSource in *. destruct (ProbeRulesFormat source) eqn:Ep; [done|done|].
    exfalso. unfold ProbeRulesFormat in Ep. cbv zeta in Ep.
    repeat (match type of Ep with context [if ?b then _ else _] => destruct b end; try discriminate). }
  destruct (ScanArrowCandidates_ok source limits Hfits) as (Hok & Hsorted & Hsize).
  rewrite <- Efound in Hok, Hsorted, Hsize. rewrite Z.max_l in Hsize by lia.
  pose proof (size_nonneg (source_bytes source)).
  destruct (candidates_rewrites_ok (source_bytes source) 0 0 (candidates found) ltac:(lia) Hok Hsorted)
    as [Hrw Hcount].
  { eapply Forall_impl; [exact Hok|]. intros c [E1 _ [? _] _ _ _ _ _]. cbn beta. rewrite E1. done. }
  pose proof (size_rewrites_of 0 (candidates found)) as Hlen.
  destruct (rewrites_of_ids (candidates found) 0 ∅ ltac:(lia) ltac:(lia)) as [Hids _].
  { intros id Hid. by apply not_elem_of_empty in Hid. }
  unfold EmitDesugaredSource. destruct (rewrites_of 0 (candidates found)) as [|r0 rest] eqn:Er.
  - left. split; [done|]. cbn. unfold slice. cbn [span_begin span_end].
    rewrite drop_0, take_ge; [done|]. unfold size. lia.
  - rewrite <- Er in *. rewrite Hlen. destruct (Z.ltb_spec (max_rewrites limits) (size (candidates found))); [lia|].
    pose proof (emit_ok source limits Hfits (rewrites_of 0 (candidates found)) ltac:(by rewrite Er)) as He.
    destruct (emit source _ limits) as [r|d|]; [left|right|done].
    + destruct He as (_ & text & Hres). split; [apply Hres|]. unfold parser_input.
      rewrite (dr_storage _ _ _ _ Hres). apply Hres.
    + destruct (He Hrw Hids ltac:(lia)) as [c ->]. by exists c.
Qed.

(** C32. The rewrite map is faithful. Every position of the generated text has an origin
    inside the file; a position mapped to a single point shows the same byte there; and
    the source and the target of each generated table map back to exactly the strings
    of its arrow, whose text they repeat. *)
Theorem rewrite_map_faithful name input source rewrites limits text :
  Create name input limits = Ok source ->
  let r := EmitDesugaredSource source rewrites limits in
  generated_storage r = Some text ->
  (forall offset, 0 <= offset < size text ->
     exists span, MapGeneratedPosition (rewrite_map r) offset = Some span
       /\ 0 <= span_begin span <= span_end span /\ span_end span <= size (source_bytes source)
       /\ (span_begin span = span_end span ->
           text !! Z.to_nat offset = source_bytes source !! Z.to_nat (span_begin span)))
  /\ Forall2 (fun w g =>
       original_source g = rewrite_source w /\ original_target g = rewrite_target w
       /\ MapGeneratedSpan (rewrite_map r) (generated_source g) = Some (rewrite_source w)
       /\ MapGeneratedSpan (rewrite_map r) (generated_target g) = Some (rewrite_target w)
       /\ slice text (generated_source g) = slice (source_bytes source) (rewrite_source w)
       /\ slice text (generated_target g) = slice (source_bytes source) (rewrite_target w))
     rewrites (redirects r).
Proof.
  intros Hfits%Create_fits. cbv zeta. intros Hr%EmitDesugaredSource_text; [|done].
  set (r := EmitDesugaredSource source rewrites limits) in *. split.
  - intros offset Hoff. by eapply MapPosition_ok.
  - pose proof (dr_for _ _ _ _ Hr) as Hfor. pose proof (dr_redirects _ _ _ _ Hr) as Hred.
    induction Hfor as [|w g ws gs (_ & _ & Es & _ & Et) Hfor IH] in Hred |- *; [constructor|].
    apply Forall_cons in Hred as [[H1 H2] Hred]. constructor; [|by apply IH].
    destruct (MapSpan_copied _ _ _ _ _ _ Hfits Hr H1) as [M1 T1].
    destruct (MapSpan_copied _ _ _ _ _ _ Hfits Hr H2) as [M2 T2].
    rewrite Es in M1, T1. rewrite Et in M2, T2. by split_and!.
Qed.

Definition sample_file : bytes :=
  lit "format = 1" ++ [x0a] ++ lit "r = [" ++ [x22; x41; x22] ++ lit " -> " ++ [x22; x42; x22] ++ lit "]".

Definition sample : SourceBuffer := {| file_name := lit "r.toml"; source_bytes := sample_file |}.

Lemma desugar_rules_exact_witness :
  parser_input sample (DesugarRulesSource sample default_limits)
  = lit "format = 1" ++ [x0a] ++ lit "r = [{ from = " ++ [x22; x41; x22] ++ lit ", to = "
    ++ [x22; x42; x22] ++ lit " }]".
Proof.
  destruct (desugar_rules_exact (lit "r.toml") sample_file sample default_limits
              ltac:(vm_compute; reflexivity) ltac:(vm_compute; discriminate) ltac:(vm_compute; discriminate)
              ltac:(vm_compute; reflexivity)) as [[_ E]|[c E]].
  - rewrite E. vm_compute. reflexivity.
  - assert (desugar_diagnostics (DesugarRulesSource sample default_limits) = []) as H
      by (vm_compute; reflexivity).
    rewrite H in E. discriminate E.
Defined.

Definition sample_rewrites : list ArrowRewrite :=
  rewrites_of 0 (candidates (ScanArrowCandidates sample default_limits)).

Lemma rewrite_map_faithful_witness :
  exists span, MapGeneratedPosition (rewrite_map (EmitDesugaredSource sample sample_rewrites default_limits)) 27
               = Some span /\ span_begin span <= span_end span.
Proof.
  destruct (rewrite_map_faithful (lit "r.toml") sample_file sample sample_rewrites default_limits
              (lit "format = 1" ++ [x0a] ++ lit "r = [{ from = " ++ [x22; x41; x22] ++ lit ", to = "
               ++ [x22; x42; x22] ++ lit " }]")
              ltac:(vm_compute; reflexivity) ltac:(vm_compute; reflexivity)) as [H _].
  destruct (H 27 ltac:(vm_compute; split; [discriminate|reflexivity])) as (span & E & [_ Hb] & _).
  exact (ex_intro _ span (conj E Hb)).
Defined.
