(* ===== verification/Provider.v ===== *)
(** * Provider redirection and media queries

    zygisk/src/provider_path_mapper.cpp, zygisk/src/media_query_filter.cpp,
    zygisk/include/pathguard/provider_caller_uid.hpp and
    provider_redirect_lifecycle.hpp: the pure parts of the hooks of the media provider.
    C strings are [bytes] without a zero byte; a buffer is its capacity and the text that
    was accepted for it. *)

From S2P Require Import Prelude Path.

Local Open Scope pg_scope.

(** ** provider_path_mapper.cpp *)

Record PathRule : Type := {
  caller_uid : Z;
  user_id : Z;
  visible_path : bytes;
  backing_path : bytes;
}.

Definition kRootCapacity : Z := 128.

(** The roots a user sees the shared storage under, as printed to [candidate]. *)
Definition logical_roots (user : Z) : list bytes :=
  [lit "/storage/emulated/" ++ to_string user ++ lit "/";
   lit "/mnt/user/" ++ to_string user ++ lit "/emulated/" ++ to_string user ++ lit "/";
   lit "/data/media/" ++ to_string user ++ lit "/"].

Fixpoint find_root (path : bytes) (roots : list bytes) (root_size : Z) : option (bytes * bytes) :=
  match roots with
  | [] => None
  | candidate :: rest =>
      if (size candidate <=? 0) || (kRootCapacity <=? size candidate)
      then find_root path rest root_size
      else if negb (starts_with candidate path) then find_root path rest root_size
      else if root_size <? size candidate + 1 then None
      else Some (candidate, drop (length candidate) path)
  end.

(** [LogicalSuffix]: the root and what follows it. *)
Definition LogicalSuffix (path : bytes) (user : Z) (root_size : Z) : option (bytes * bytes) :=
  find_root path (logical_roots user) root_size.

Definition MatchesLogicalPath (suffix visible : bytes) : option bytes :=
  if starts_with visible suffix then
    match drop (length visible) suffix with
    | [] => Some []
    | c :: tail => if c == x2f then Some (c :: tail) else None
    end
  else None.

Fixpoint skip_slashes (s : bytes) : bytes :=
  match s with
  | c :: rest => if c == x2f then skip_slashes rest else s
  | [] => []
  end.

Fixpoint safe_tail (fuel : nat) (component : bytes) : bool :=
  match fuel with
  | O => true
  | S fuel =>
      match skip_slashes component with
      | [] => true
      | component =>
          let '(part, rest) := cut x2f component in
          if (part == lit ".") || (part == lit "..") then false
          else match rest with
               | None => true
               | Some rest => safe_tail fuel rest
               end
      end
  end.

Definition HasSafeTail (tail : bytes) : bool := safe_tail (S (length tail)) tail.

Definition is_absolute (path : bytes) : bool := bool_decide (head path = Some x2f).

Definition MatchesVisiblePath (rules : list PathRule) (path : bytes) : bool :=
  is_absolute path
  && existsb (fun rule =>
       match LogicalSuffix path (user_id rule) kRootCapacity with
       | Some (_, suffix) =>
           match MatchesLogicalPath suffix (visible_path rule) with
           | Some tail => HasSafeTail tail
           | None => false
           end
       | None => false
       end) rules.

Record Selected : Type := {
  selected : PathRule;
  selected_root : bytes;
  selected_tail : bytes;
}.

(** The loop of [RewriteAbsolutePath] and [RestoreAbsolutePath]: [from] is the path of a
    rule that is matched, [better] the test that replaces the selection. [None] is the
    early return. *)
Fixpoint select_rule (from : PathRule -> bytes) (better : PathRule -> PathRule -> bool)
    (caller : Z) (path : bytes) (rules : list PathRule) (found : option Selected)
    : option (option Selected) :=
  match rules with
  | [] => Some found
  | rule :: rest =>
      let continue := select_rule from better caller path rest in
      if negb (caller_uid rule =? caller) then continue found
      else
        match LogicalSuffix path (user_id rule) kRootCapacity with
        | None => continue found
        | Some (root, suffix) =>
            match MatchesLogicalPath suffix (from rule) with
            | None => continue found
            | Some tail =>
                if negb (HasSafeTail tail) then None
                else
                  let replaced := match found with
                                  | None => true
                                  | Some s => better rule (selected s)
                                  end in
                  continue (if replaced then Some {| selected := rule; selected_root := root;
                                                     selected_tail := tail |} else found)
            end
        end
  end.

Definition print_path (path : bytes) (text : bytes) (capacity : Z) : option bytes :=
  if (0 <? size text) && (size text <? capacity) && (path != text) then Some text else None.

Definition map_path (from to : PathRule -> bytes) (better : PathRule -> PathRule -> bool)
    (rules : list PathRule) (caller : Z) (path : bytes) (capacity : Z) : option bytes :=
  if (capacity =? 0) || (caller <? 10000) || negb (is_absolute path) then None
  else
    match select_rule from better caller path rules None with
    | Some (Some s) =>
        print_path path (selected_root s ++ to (selected s) ++ selected_tail s) capacity
    | _ => None
    end.

Definition longer_visible (rule best : PathRule) : bool :=
  size (visible_path best) <? size (visible_path rule).

Definition RewriteAbsolutePath : list PathRule -> Z -> bytes -> Z -> option bytes :=
  map_path visible_path backing_path longer_visible.

Definition longer_backing (rule best : PathRule) : bool :=
  (size (backing_path best) <? size (backing_path rule))
  || (size (backing_path rule) =? size (backing_path best))
     && key_lt (visible_path rule) (visible_path best).

Definition RestoreAbsolutePath : list PathRule -> Z -> bytes -> Z -> option bytes :=
  map_path backing_path visible_path longer_backing.

(** ** media_query_filter.cpp *)

Definition Append (output : bytes) (capacity : Z) (value : bytes) : option bytes :=
  if capacity <? size output + size value + 1 then None else Some (output ++ value).

Definition Copy (capacity : Z) (value : bytes) : option bytes :=
  if capacity <? size value + 1 then None else Some value.

Definition is_special (b : byte) : bool := (b == x25) || (b == x5f) || (b == x5c).

Fixpoint copy_escaped (capacity : Z) (path output : bytes) : option bytes :=
  match path with
  | [] => Some output
  | b :: rest =>
      output ← (if is_special b
                then if capacity <=? size output + 1 then None else Some (output ++ [x5c])
                else Some output);
      if capacity <=? size output + 1 then None else copy_escaped capacity rest (output ++ [b])
  end.

Definition CopyLikePrefix (capacity : Z) (path : bytes) : option bytes :=
  output ← copy_escaped capacity path [];
  if capacity <? size output + 3 then None else Some (output ++ [x2f; x25]).

Definition kClause : bytes :=
  lit "(_data IS NULL OR (_data != ? AND _data NOT LIKE ? ESCAPE '\'))".

Fixpoint deny_clauses (deny_paths : list (option bytes)) (first : bool) (selection_capacity stride : Z)
    (selection : bytes) (arguments : list bytes) : option (bytes * list bytes) :=
  match deny_paths with
  | [] => Some (selection, arguments)
  | path :: rest =>
      path ← path;
      if negb (bool_decide (head path = Some x2f)) then None
      else if (size path =? 1) || bool_decide (List.last path x00 = x2f) then None
      else
        selection ← (if first then Some selection else Append selection selection_capacity (lit " AND "));
        selection ← Append selection selection_capacity kClause;
        exact ← Copy stride path;
        descendants ← CopyLikePrefix stride path;
        deny_clauses rest false selection_capacity stride selection (arguments ++ [exact; descendants])
  end.

(** [BuildDenySelection]: the selection and its arguments. *)
Definition BuildDenySelection (deny_paths : list (option bytes)) (selection_capacity argument_capacity
    stride : Z) : option (bytes * list bytes) :=
  if bool_decide (length deny_paths = 0%nat) || (selection_capacity =? 0) || (stride =? 0)
     || (argument_capacity / 2 <? size deny_paths)
  then None
  else deny_clauses deny_paths true selection_capacity stride [] [].

(** ** provider_caller_uid.hpp

    [fuse_request] is a pointer, [0] for null. *)
Module CallerUid.
Record Context_ : Type := {
  saved_binder_uid : Z;
  binder_clear_depth : Z;
  fuse_uid : Z;
  fuse_request : Z;
}.

Definition initial : Context_ :=
  {| saved_binder_uid := -1; binder_clear_depth := 0; fuse_uid := -1; fuse_request := 0 |}.

Definition IsApplicationCaller (uid process_uid : Z) : bool :=
  (10000 <=? uid) && negb (uid =? process_uid).

Definition caller_or_none (calling_uid process_uid : Z) : Z :=
  if IsApplicationCaller calling_uid process_uid then calling_uid else -1.

Definition BeginBinderIdentityClear (calling_uid process_uid : Z) (c : Context_) : Context_ :=
  {| saved_binder_uid := if binder_clear_depth c =? 0 then caller_or_none calling_uid process_uid
                         else saved_binder_uid c;
     binder_clear_depth := u32 (binder_clear_depth c + 1);
     fuse_uid := fuse_uid c; fuse_request := fuse_request c |}.

Definition EndBinderIdentityClear (c : Context_) : Context_ :=
  if binder_clear_depth c =? 0 then c
  else
    {| saved_binder_uid := if binder_clear_depth c - 1 =? 0 then -1 else saved_binder_uid c;
       binder_clear_depth := binder_clear_depth c - 1;
       fuse_uid := fuse_uid c; fuse_request := fuse_request c |}.

Definition BeginFuseRequest (request calling_uid process_uid : Z) (c : Context_) : Context_ :=
  if request =? 0 then c
  else {| saved_binder_uid := saved_binder_uid c; binder_clear_depth := binder_clear_depth c;
          fuse_uid := caller_or_none calling_uid process_uid; fuse_request := request |}.

Definition EndFuseRequest (request : Z) (c : Context_) : Context_ :=
  if negb (fuse_request c =? request) then c
  else {| saved_binder_uid := saved_binder_uid c; binder_clear_depth := binder_clear_depth c;
          fuse_uid := -1; fuse_request := 0 |}.

Definition EffectiveCallerUid (c : Context_) (current_binder_uid process_uid : Z) : Z :=
  if IsApplicationCaller (fuse_uid c) process_uid then fuse_uid c
  else if IsApplicationCaller current_binder_uid process_uid then current_binder_uid
  else if IsApplicationCaller (saved_binder_uid c) process_uid then saved_binder_uid c else -1.
End CallerUid.

(** ** provider_redirect_lifecycle.hpp *)

Record InstallResult : Type := {
  hook_registration_attempted : bool;
  hooks_committed : bool;
  virtualization_active : bool;
  identity_hook_attempted : bool;
  identity_hooks : bool;
}.

Definition MustRetainModule (r : InstallResult) : bool :=
  hook_registration_attempted r || identity_hook_attempted r.

Definition ShouldEnableHooks (r : InstallResult) : bool := virtualization_active r.

(** ** Reference notions *)

(** The path lies at or below [base] (the visible or backing path of a rule) in one of
    the storage views of the rule's user. *)
Definition covers (base : bytes) (user : Z) (path root tail : bytes) : Prop :=
  root ∈ logical_roots user /\ path = root ++ base ++ tail /\ (tail = [] \/ head tail = Some x2f).

Definition safe_components (tail : bytes) : Prop :=
  Forall (fun p => p <> lit "." /\ p <> lit "..") (split_on x2f tail).

Definition rule_ok (r : PathRule) : Prop := 0 <= user_id r < 2 ^ 32.

(** No rule of a caller keeps its files at or below those of another rule of the same user. *)
Definition backing_apart (rules : list PathRule) : Prop :=
  forall r1 r2 tail, r1 ∈ rules -> r2 ∈ rules -> caller_uid r1 = caller_uid r2 -> user_id r1 = user_id r2 ->
    backing_path r2 = backing_path r1 ++ tail -> tail = [] \/ head tail = Some x2f ->
    tail = [] /\ visible_path r1 = visible_path r2.

(** SQL's LIKE with the escape character [\], for a comparison [same] of characters. *)
Inductive like (same : byte -> byte -> Prop) : bytes -> bytes -> Prop :=
  | like_nil : like same [] []
  | like_any p t k : like same p t -> like same (x25 :: p) (k ++ t)
  | like_one p c t : like same p t -> like same (x5f :: p) (c :: t)
  | like_escape p b c t : same b c -> like same p t -> like same (x5c :: b :: p) (c :: t)
  | like_char p b c t : is_special b = false -> same b c -> like same p t ->
      like same (b :: p) (c :: t).

Definition escaped (path : bytes) : bytes :=
  flat_map (fun b => if is_special b then [x5c; b] else [b]) path.

Definition pattern (path : bytes) : bytes := escaped path ++ [x2f; x25].

(** ** Lemmas: matching *)

Lemma skip_slashes_split s :
  exists n, s = replicate n x2f ++ skip_slashes s /\ head (skip_slashes s) <> Some x2f.
Proof.
  induction s as [|c s (n & E & Hh)]; [by exists 0%nat|]. cbn [skip_slashes]. case_bool_decide as Hc.
  - subst c. exists (S n). by rewrite E at 1.
  - exists 0%nat. split; [done|]. by intros [= ->].
Qed.

Lemma safe_components_slash s : safe_components (x2f :: s) <-> safe_components s.
Proof.
  unfold safe_components. change (x2f :: s) with ([] ++ x2f :: s).
  rewrite split_on_app by apply not_elem_of_nil. rewrite Forall_cons. split; [by intros []|done].
Qed.

Lemma safe_tail_spec fuel s : (length s < fuel)%nat -> safe_tail fuel s = true <-> safe_components s.
Proof.
  revert s. induction fuel as [|fuel IH]; intros s Hf; [lia|]. cbn [safe_tail].
  destruct (skip_slashes_split s) as (n & E & Hh).
  assert (safe_components s <-> safe_components (skip_slashes s)) as ->.
  { rewrite E at 1. clear. induction n as [|n IH]; [done|]. cbn [replicate Datatypes.app].
    by rewrite safe_components_slash. }
  assert (length (skip_slashes s) <= length s)%nat as Hlen
    by (apply (f_equal length) in E; rewrite length_app in E; lia).
  destruct (skip_slashes s) as [|c t] eqn:Es; [split; [intros _; by repeat constructor|done]|].
  rewrite <- Es in *. clear Es c t E Hh. set (u := skip_slashes s) in *. pose proof (cut_spec x2f u) as Hc.
  destruct (cut x2f u) as [part rest].
  assert (forall b : bool, (if (part == lit ".") || (part == lit "..") then false else b) = true
    <-> (part <> lit "." /\ part <> lit "..") /\ b = true) as Hpart.
  { intros b. repeat case_bool_decide; cbn; naive_solver. }
  rewrite Hpart. unfold safe_components. destruct rest as [rest|].
  - destruct Hc as [Hu Hp]. rewrite Hu, split_on_app by done. rewrite Forall_cons.
    rewrite IH; [done|]. rewrite Hu, length_app in Hlen. cbn in Hlen. lia.
  - destruct Hc as [Hu Hp]. rewrite Hu, split_on_single by done. rewrite Forall_cons. naive_solver.
Qed.

Lemma HasSafeTail_spec tail : HasSafeTail tail = true <-> safe_components tail.
Proof. apply safe_tail_spec. lia. Qed.

Lemma MatchesLogicalPath_spec suffix visible tail :
  MatchesLogicalPath suffix visible = Some tail
  <-> suffix = visible ++ tail /\ (tail = [] \/ head tail = Some x2f).
Proof.
  unfold MatchesLogicalPath. destruct (starts_with visible suffix) eqn:E.
  - apply starts_with_spec in E as [t ->]. rewrite drop_app_length. destruct t as [|c t].
    + split; [intros [= <-]; auto|]. intros [Ht _]. apply app_inv_head in Ht. by subst.
    + case_bool_decide as Hc; split.
      * intros [= <-]. subst. auto.
      * intros [Ht _]. apply app_inv_head in Ht. by subst.
      * done.
      * intros [Ht [->|Hh]]; apply app_inv_head in Ht; [done|]. subst tail. by injection Hh.
  - split; [done|]. intros [-> _]. by rewrite starts_with_app in E.
Qed.

Lemma logical_roots_size user root :
  0 <= user < 2 ^ 32 -> root ∈ logical_roots user -> 0 < size root < kRootCapacity - 1.
Proof.
  intros Hu Hr. pose proof (to_string_size 10 (2 ^ 32) user Hu eq_refl). pose proof (size_nonneg (to_string user)).
  unfold kRootCapacity, logical_roots in *. rewrite !elem_of_cons in Hr.
  destruct Hr as [->|[->|[->|Hr%elem_of_nil]]]; [..|done]; rewrite !size_app;
    repeat match goal with |- context [size (lit ?s)] =>
      let v := eval vm_compute in (size (lit s)) in change (size (lit s)) with v end; lia.
Qed.

Lemma to_string_slash_inj u1 u2 s1 s2 :
  0 <= u1 -> 0 <= u2 -> to_string u1 ++ x2f :: s1 = to_string u2 ++ x2f :: s2 -> u1 = u2 /\ s1 = s2.
Proof.
  intros H1 H2 E.
  assert (forall u, 0 <= u -> x2f ∉ to_string u) as Hno.
  { intros u Hu Hin. destruct (to_string_spec u Hu) as (_ & Hv).
    apply digits_value_is_digit in Hv. rewrite forallb_forall in Hv.
    apply list_elem_of_In, Hv in Hin. discriminate. }
  apply (f_equal (cut x2f)) in E. rewrite !cut_app in E by auto. injection E as E ->.
  by apply to_string_inj in E.
Qed.

(** A path determines the user and the root it is seen under. *)
Lemma logical_roots_inj u1 u2 r1 r2 s1 s2 :
  0 <= u1 -> 0 <= u2 -> r1 ∈ logical_roots u1 -> r2 ∈ logical_roots u2 ->
  r1 ++ s1 = r2 ++ s2 -> u1 = u2 /\ r1 = r2.
Proof.
  intros H1 H2. unfold logical_roots. rewrite !elem_of_cons, !elem_of_nil.
  intros [->|[->|[->|[]]]] [->|[->|[->|[]]]] E;
    try (exfalso; apply (f_equal (take 2)) in E; vm_compute in E; discriminate);
    rewrite <- !app_assoc in E; apply app_inv_head in E; cbn [lit] in E;
    apply to_string_slash_inj in E as [-> _]; done.
Qed.

Lemma logical_roots_unique user r1 r2 s1 s2 :
  0 <= user -> r1 ∈ logical_roots user -> r2 ∈ logical_roots user -> r1 ++ s1 = r2 ++ s2 -> r1 = r2.
Proof. intros Hu H1 H2 E. by apply (logical_roots_inj user user r1 r2 s1 s2 Hu Hu H1 H2). Qed.

Lemma find_root_Some path roots root suffix :
  find_root path roots kRootCapacity = Some (root, suffix) -> root ∈ roots /\ path = root ++ suffix.
Proof.
  induction roots as [|c roots IH]; cbn [find_root]; [done|].
  destruct (_ || _); [intros [? ?]%IH; split; [by right|done]|].
  destruct (starts_with c path) eqn:Es; cbn [negb]; [|intros [? ?]%IH; split; [by right|done]].
  destruct (_ <? _); [done|]. intros [= -> <-]. split; [by left|].
  apply starts_with_spec in Es as [t ->]. by rewrite drop_app_length.
Qed.

Lemma LogicalSuffix_spec path user root suffix :
  0 <= user < 2 ^ 32 ->
  LogicalSuffix path user kRootCapacity = Some (root, suffix)
  <-> root ∈ logical_roots user /\ path = root ++ suffix.
Proof.
  intros Hu. split; [apply find_root_Some|]. intros [Hr ->]. unfold LogicalSuffix.
  assert (forall roots, root ∈ roots -> (forall r, r ∈ roots -> r ∈ logical_roots user) ->
    find_root (root ++ suffix) roots kRootCapacity = Some (root, suffix)) as H; [|by apply H].
  induction roots as [|c roots IH]; intros Hin Hsub; [by apply elem_of_nil in Hin|].
  pose proof (logical_roots_size user c Hu (Hsub c ltac:(by left))) as Hsz.
  unfold kRootCapacity in *. cbn [find_root]. destruct (Z.leb_spec (size c) 0); [lia|].
  change kRootCapacity with 128. destruct (Z.leb_spec 128 (size c)); [lia|]. cbn [orb].
  destruct (starts_with c (root ++ suffix)) eqn:Es; cbn [negb].
  - apply starts_with_spec in Es as [t Et].
    assert (root = c) as -> by (eapply logical_roots_unique; [apply Hu|exact Hr|by apply Hsub; left|exact Et]).
    destruct (Z.ltb_spec 128 (size c + 1)); [lia|]. by rewrite drop_app_length.
  - apply IH.
    + apply elem_of_cons in Hin as [->|]; [|done]. by rewrite starts_with_app in Es.
    + intros r Hr'. apply Hsub. by right.
Qed.

(** ** Lemmas: selection *)

Section Select.
Context (from : PathRule -> bytes) (better : PathRule -> PathRule -> bool) (caller : Z) (path : bytes).
Context (better_trans : forall x s y, better x s = true -> better s y = true -> better x y = true).
Context (better_neg : forall x s y, better x s = true -> better y s = false -> better x y = true).

(** The match of one rule, as the loop sees it. *)
Definition match_rule (r : PathRule) : option Selected :=
  if negb (caller_uid r =? caller) then None
  else
    '(root, suffix) ← LogicalSuffix path (user_id r) kRootCapacity;
    tail ← MatchesLogicalPath suffix (from r);
    Some {| selected := r; selected_root := root; selected_tail := tail |}.

Definition applies (r : PathRule) : Prop :=
  caller_uid r = caller /\ exists root tail, covers (from r) (user_id r) path root tail.

Lemma match_rule_spec r s :
  rule_ok r ->
  match_rule r = Some s
  <-> selected s = r /\ caller_uid r = caller
      /\ covers (from r) (user_id r) path (selected_root s) (selected_tail s).
Proof.
  intros Hr. unfold match_rule, covers. destruct (Z.eqb_spec (caller_uid r) caller) as [Hc|Hc]; cbn [negb];
    [|split; [done|by intros (_ & ? & _)]].
  destruct (LogicalSuffix path (user_id r) kRootCapacity) as [[root suffix]|] eqn:El; cbn [mbind option_bind].
  - apply LogicalSuffix_spec in El as [Hroot ->]; [|done].
    destruct (MatchesLogicalPath suffix (from r)) as [tail|] eqn:Em; cbn [mbind option_bind].
    + apply MatchesLogicalPath_spec in Em as [-> Ht]. split; [intros [= <-]; cbn; auto|].
      intros (Es & _ & Hin & E & Ht'). f_equal.
      assert (root = selected_root s) as -> by (eapply logical_roots_unique; [apply Hr|..]; eauto).
      apply app_inv_head, app_inv_head in E. subst tail. destruct s; cbn in *. by subst.
    + split; [done|]. intros (_ & _ & Hin & E & Ht). exfalso.
      assert (root = selected_root s) as -> by (eapply logical_roots_unique; [apply Hr|..]; eauto).
      apply app_inv_head in E. assert (MatchesLogicalPath suffix (from r) = Some (selected_tail s))
        by (by apply MatchesLogicalPath_spec). congruence.
  - split; [done|]. intros (_ & _ & Hin & E & _). exfalso.
    assert (LogicalSuffix path (user_id r) kRootCapacity = Some (selected_root s, from r ++ selected_tail s))
      by (by apply LogicalSuffix_spec). congruence.
Qed.

Lemma match_rule_None r : rule_ok r -> match_rule r = None <-> ~ applies r.
Proof.
  intros Hr. split.
  - intros E (Hc & root & tail & H).
    assert (match_rule r = Some {| selected := r; selected_root := root; selected_tail := tail |})
      by (by apply match_rule_spec). congruence.
  - intros Hn. destruct (match_rule r) as [s|] eqn:E; [|done]. apply match_rule_spec in E as (<- & Hc & H); [|done].
    exfalso. apply Hn. split; [done|eauto].
Qed.

Definition pick (found : option Selected) (r : PathRule) : option Selected :=
  match match_rule r with
  | None => found
  | Some s => match found with
              | None => Some s
              | Some f => if better r (selected f) then Some s else found
              end
  end.

Definition safe_match (r : PathRule) : bool :=
  match match_rule r with
  | None => true
  | Some s => HasSafeTail (selected_tail s)
  end.

Lemma select_rule_fold rules found :
  select_rule from better caller path rules found
  = if forallb safe_match rules then Some (fold_left pick rules found) else None.
Proof.
  revert found. induction rules as [|r rules IH]; intros found; [done|].
  cbn [select_rule forallb fold_left]. unfold safe_match, pick at 2, match_rule. rewrite !IH.
  destruct (caller_uid r =? caller); cbn [negb andb]; [|done].
  destruct (LogicalSuffix path (user_id r) kRootCapacity) as [[root suffix]|]; [|done]. cbn [mbind option_bind].
  destruct (MatchesLogicalPath suffix (from r)) as [tail|]; [|done]. cbn [mbind option_bind selected_tail].
  destruct (HasSafeTail tail); cbn [negb andb]; [|done]. rewrite IH.
  destruct found as [f|]; [|done]. by destruct (better r (selected f)).
Qed.

(** The rule that is selected is the first of the best ones. *)
Definition best_of (before : list PathRule) (r : PathRule) (after : list PathRule) : Prop :=
  Forall (fun r' => applies r' -> better r r' = true) before
  /\ Forall (fun r' => applies r' -> better r' r = false) after.

Lemma pick_none rules :
  Forall rule_ok rules -> fold_left pick rules None = None -> Forall (fun r => ~ applies r) rules.
Proof.
  intros Hok Ef. induction rules as [|x rules IH] using rev_ind; [constructor|].
  apply Forall_app in Hok as [Hok [Hx _]%Forall_cons]. rewrite fold_left_app in Ef. cbn [fold_left] in Ef.
  unfold pick at 1 in Ef. destruct (match_rule x) as [m'|] eqn:Emx.
  - exfalso. destruct (fold_left pick rules None) as [f|]; [|done]. by destruct (better x (selected f)).
  - apply Forall_app. split; [by apply IH|]. constructor; [|constructor]. by apply match_rule_None.
Qed.

Lemma pick_applies rules s :
  Forall rule_ok rules -> fold_left pick rules None = Some s ->
  exists before after, rules = before ++ selected s :: after /\ match_rule (selected s) = Some s
    /\ best_of before (selected s) after.
Proof.
  intros Hok. revert s. induction rules as [|r rules IH] using rev_ind; intros s; [done|].
  apply Forall_app in Hok as [Hok [Hr _]%Forall_cons].
  rewrite fold_left_app. cbn [fold_left]. unfold pick at 1.
  destruct (match_rule r) as [m|] eqn:Em.
  - assert (selected m = r) as Esel by (by apply match_rule_spec in Em as (? & _)).
    destruct (fold_left pick rules None) as [f|] eqn:Ef.
    + destruct (IH Hok f eq_refl) as (before & after & E & Emf & Hb & Ha).
      destruct (better r (selected f)) eqn:Eb.
      * intros [= <-]. exists rules, []. rewrite Esel. split_and!; [done|done|split; [|constructor]].
        rewrite E, Forall_app, Forall_cons. split_and!.
        -- eapply Forall_impl; [exact Hb|]. cbn. intros x Hx Hap. eapply better_trans; [exact Eb|by apply Hx].
        -- done.
        -- eapply Forall_impl; [exact Ha|]. cbn. intros x Hx Hap. eapply better_neg; [exact Eb|by apply Hx].
      * intros [= <-]. exists before, (after ++ [r]). split_and!; [by rewrite E, <- app_assoc|done|split; [done|]].
        apply Forall_app. split; [done|]. by constructor.
    + intros [= <-]. exists rules, []. rewrite Esel. split_and!; [done|done|split; [|constructor]].
      eapply Forall_impl; [by apply pick_none|]. cbn. intros x Hx Hap. done.
  - intros E. destruct (IH Hok s E) as (before & after & -> & Ems & Hb & Ha).
    exists before, (after ++ [r]). rewrite <- app_assoc. split_and!; [done|done|split; [done|]].
    apply Forall_app. split; [done|]. constructor; [|constructor]. intros Hap. exfalso.
    by apply (match_rule_None r Hr) in Em.
Qed.

Lemma pick_best before r after s :
  Forall rule_ok (before ++ r :: after) -> match_rule r = Some s -> best_of before r after ->
  fold_left pick (before ++ r :: after) None = Some s.
Proof.
  intros Hok Em [Hb Ha]. apply Forall_app in Hok as [Hokb [Hr Hoka]%Forall_cons].
  assert (selected s = r) as Esel by (by apply match_rule_spec in Em as (? & _)).
  rewrite fold_left_app. cbn [fold_left]. unfold pick at 2. rewrite Em.
  assert (match fold_left pick before None with
          | None => Some s
          | Some f => if better r (selected f) then Some s else fold_left pick before None end = Some s) as ->.
  { destruct (fold_left pick before None) as [f|] eqn:Ef; [|done].
    apply pick_applies in Ef as (b1 & b2 & -> & Emf & _); [|done].
    apply Forall_app in Hb as [_ [Hf _]%Forall_cons]. rewrite Hf; [done|].
    apply Forall_app in Hokb as [_ [Hokf _]%Forall_cons].
    apply match_rule_spec in Emf as (_ & ? & ?); [|done]. split; [done|eauto]. }
  clear Hb. induction Ha as [|x after Hx Ha IH]; [done|]. apply Forall_cons in Hoka as [Hokx Hoka].
  cbn [fold_left]. unfold pick at 2. destruct (match_rule x) as [m|] eqn:Emx; [|by apply IH].
  rewrite Esel, Hx; [by apply IH|]. apply match_rule_spec in Emx as (_ & ? & ?); [|done]. split; [done|eauto].
Qed.

Lemma safe_match_all rules :
  Forall rule_ok rules ->
  forallb safe_match rules = true
  <-> (forall r root tail, r ∈ rules -> caller_uid r = caller ->
       covers (from r) (user_id r) path root tail -> safe_components tail).
Proof.
  intros Hok. rewrite Forall_forall in Hok. rewrite forallb_forall. split.
  - intros H r root tail Hin Hc Hcov. specialize (H r). rewrite <- list_elem_of_In in H. specialize (H Hin).
    unfold safe_match in H.
    assert (match_rule r = Some {| selected := r; selected_root := root; selected_tail := tail |}) as E
      by (apply match_rule_spec; [by apply Hok|done]). rewrite E in H. by apply HasSafeTail_spec.
  - intros H r Hin%list_elem_of_In. unfold safe_match. destruct (match_rule r) as [s|] eqn:E; [|done].
    apply match_rule_spec in E as (_ & Hc & Hcov); [|by apply Hok]. apply HasSafeTail_spec. by eapply H.
Qed.

(** What [RewriteAbsolutePath] and [RestoreAbsolutePath] share. *)
Lemma map_path_spec to rules capacity out :
  Forall rule_ok rules ->
  map_path from to better rules caller path capacity = Some out
  <-> 10000 <= caller
      /\ (forall r root tail, r ∈ rules -> caller_uid r = caller ->
            covers (from r) (user_id r) path root tail -> safe_components tail)
      /\ exists before r after root tail,
           rules = before ++ r :: after /\ best_of before r after /\ caller_uid r = caller
           /\ covers (from r) (user_id r) path root tail
           /\ out = root ++ to r ++ tail /\ out <> path /\ size out < capacity.
Proof.
  intros Hok. unfold map_path. rewrite select_rule_fold. split.
  - destruct (_ || _) eqn:E0; [done|]. split_tests.
    destruct (forallb safe_match rules) eqn:Es; [|done].
    destruct (fold_left pick rules None) as [s|] eqn:Ef; [|done].
    apply pick_applies in Ef as (before & after & E & Em & Hbest); [|done].
    unfold print_path. destruct (_ && _) eqn:Ep; [|done]. split_tests. intros [= <-].
    split; [lia|]. split; [by apply safe_match_all|].
    assert (rule_ok (selected s)) as Hr
      by (rewrite Forall_forall in Hok; apply Hok; rewrite E; apply elem_of_app; right; by left).
    apply match_rule_spec in Em as (_ & Hc & Hcov); [|done].
    exists before, (selected s), after, (selected_root s), (selected_tail s). split_and!; try done.
  - intros (Hcaller & Hsafe & before & r & after & root & tail & E & Hbest & Hc & Hcov & -> & Hne & Hsz).
    assert (rule_ok r) as Hr
      by (rewrite Forall_forall in Hok; apply Hok; rewrite E; apply elem_of_app; right; by left).
    pose proof Hcov as (Hroot & Epath & _). pose proof (logical_roots_size _ _ Hr Hroot) as Hrs.
    assert (is_absolute path = true) as ->.
    { unfold is_absolute. rewrite Epath. unfold logical_roots in Hroot. rewrite !elem_of_cons, elem_of_nil in Hroot.
      by destruct Hroot as [->|[->|[->|[]]]]. }
    rewrite !size_app in Hsz. pose proof (size_nonneg (to r)). pose proof (size_nonneg tail).
    destruct (Z.eqb_spec capacity 0); [lia|]. destruct (Z.ltb_spec caller 10000); [lia|]. cbn [orb negb].
    apply safe_match_all in Hsafe; [|done]. rewrite Hsafe.
    set (s := {| selected := r; selected_root := root; selected_tail := tail |}).
    rewrite E in Hok |- *. rewrite (pick_best before r after s Hok); [|by apply match_rule_spec|done].
    unfold print_path. cbn [selected selected_root selected_tail s].
    rewrite !size_app. destruct (Z.ltb_spec 0 (size root + (size (to r) + size tail))); [|lia].
    destruct (Z.ltb_spec (size root + (size (to r) + size tail)) capacity); [|lia]. cbn [andb].
    rewrite bool_decide_eq_false_2 by (by apply not_eq_sym). done.
Qed.
End Select.

Lemma longer_visible_trans x s y : longer_visible x s = true -> longer_visible s y = true -> longer_visible x y = true.
Proof. unfold longer_visible. rewrite !Z.ltb_lt. lia. Qed.

Lemma longer_visible_neg x s y : longer_visible x s = true -> longer_visible y s = false -> longer_visible x y = true.
Proof. unfold longer_visible. rewrite !Z.ltb_lt, Z.ltb_ge. lia. Qed.

Lemma longer_backing_trans x s y : longer_backing x s = true -> longer_backing s y = true -> longer_backing x y = true.
Proof.
  unfold longer_backing. rewrite !orb_true_iff, !andb_true_iff, !Z.ltb_lt, !Z.eqb_eq, !key_lt_true.
  intros [?|[? H1]] [?|[? H2]]; [left; lia..|right]. split; [lia|]. by eapply bytes_compare_trans.
Qed.

Lemma longer_backing_neg x s y : longer_backing x s = true -> longer_backing y s = false -> longer_backing x y = true.
Proof.
  unfold longer_backing.
  rewrite !orb_true_iff, orb_false_iff, andb_false_iff, !andb_true_iff, !Z.ltb_lt, Z.ltb_ge, !Z.eqb_eq, Z.eqb_neq,
    !key_lt_true, key_lt_false.
  intros Hx [Hy1 Hy2]. destruct (Z.lt_ge_cases (size (backing_path y)) (size (backing_path x))) as [|Hge]; [by left|].
  destruct Hx as [|[Hx Hlt]]; [lia|]. right. split; [lia|]. destruct Hy2 as [|Hle]; [lia|].
  destruct (cmp (visible_path x) (visible_path y)) eqn:Ec; [exfalso|done|exfalso].
  - apply bytes_compare_eq in Ec. rewrite Ec in Hlt. by apply Hle, cmp_gt_lt.
  - apply cmp_gt_lt in Ec. apply Hle, cmp_gt_lt. exact (bytes_compare_trans _ _ _ Ec Hlt).
Qed.

(** ** Lemmas: SQL patterns *)

Lemma copy_escaped_Some capacity path output out :
  copy_escaped capacity path output = Some out -> out = output ++ escaped path.
Proof.
  revert output. induction path as [|b path IH]; intros output; cbn [copy_escaped escaped flat_map].
  - intros [= <-]. by rewrite app_nil_r.
  - destruct (is_special b); [destruct (_ <=? _); [done|]|]; cbn [mbind option_bind];
      (destruct (_ <=? _); [done|]); intros ->%IH; fold (escaped path); by rewrite <- !app_assoc.
Qed.

Lemma CopyLikePrefix_Some capacity path out :
  CopyLikePrefix capacity path = Some out -> out = pattern path /\ size out < capacity.
Proof.
  unfold CopyLikePrefix. destruct (copy_escaped capacity path []) as [o|] eqn:E; [|done].
  apply copy_escaped_Some in E as ->. cbn [mbind option_bind Datatypes.app].
  destruct (Z.ltb_spec capacity (size (escaped path) + 3)); [done|]. intros [= <-]. split; [done|].
  unfold pattern. rewrite size_app. change (size [x2f; x25]) with 2. lia.
Qed.

Lemma like_escaped same path q t :
  like same (escaped path ++ q) t
  <-> exists p t', t = p ++ t' /\ Forall2 same path p /\ like same q t'.
Proof.
  revert t. induction path as [|b path IH]; intros t; cbn [escaped flat_map Datatypes.app].
  - split; [intros H; by exists [], t|]. intros (p & t' & -> & Hp & H). apply Forall2_nil_inv_l in Hp. by subst p.
  - fold (escaped path).
    assert (like same ((if is_special b then [x5c; b] else [b]) ++ escaped path ++ q) t
            <-> exists c t', t = c :: t' /\ same b c /\ like same (escaped path ++ q) t') as Hstep.
    { destruct (is_special b) eqn:Eb; cbn [Datatypes.app]; split.
      - intros H. inversion H; subst; try discriminate; eauto 6.
      - intros (c & t' & -> & Hs & Hl). by constructor.
      - intros H. inversion H; subst; try (by vm_compute in Eb); eauto 6.
      - intros (c & t' & -> & Hs & Hl). by apply like_char. }
    rewrite <- app_assoc, Hstep. setoid_rewrite IH. split.
    + intros (c & ? & -> & Hs & p & t' & -> & Hp & Hl). exists (c :: p), t'. split_and!; [done|by constructor|done].
    + intros (p & t' & -> & Hp & Hl). inversion Hp as [|? c ? p' Hs Hp']; subst.
      exists c, (p' ++ t'). split_and!; [done|done|]. by exists p', t'.
Qed.

Lemma like_pattern same path t :
  like same (pattern path) t
  <-> exists p c rest, t = p ++ c :: rest /\ Forall2 same path p /\ same x2f c.
Proof.
  unfold pattern. rewrite like_escaped. split.
  - intros (p & t' & -> & Hp & Hl). inversion Hl; subst. eauto 7.
  - intros (p & c & rest & -> & Hp & Hs). exists p, (c :: rest). split_and!; [done|done|].
    apply like_char; [done|done|]. rewrite <- (app_nil_r rest). apply like_any, like_nil.
Qed.

Definition count_holes (s : bytes) : nat := length (filter (fun b => b = x3f) s).

Lemma count_holes_app s t : count_holes (s ++ t) = (count_holes s + count_holes t)%nat.
Proof. unfold count_holes. by rewrite filter_app, length_app. Qed.

Definition more_clauses (n : nat) : bytes := concat (replicate n (lit " AND " ++ kClause)).

Definition arguments_for (paths : list bytes) : list bytes := flat_map (fun p => [p; pattern p]) paths.

Definition deny_path_ok (path : bytes) : Prop :=
  head path = Some x2f /\ size path <> 1 /\ List.last path x00 <> x2f.

Lemma deny_clauses_Some paths first cap stride sel args out_sel out_args :
  deny_clauses paths first cap stride sel args = Some (out_sel, out_args) ->
  Forall (fun a => size a < stride) args -> (size sel < cap \/ sel = [] /\ (0 < length paths)%nat) ->
  exists ps, paths = Some <$> ps /\ Forall deny_path_ok ps /\ out_args = args ++ arguments_for ps
    /\ Forall (fun a => size a < stride) out_args /\ size out_sel < cap
    /\ out_sel = sel ++ match ps with
                        | [] => []
                        | _ :: rest => if first then kClause ++ more_clauses (length rest)
                                       else more_clauses (length ps)
                        end.
Proof.
  revert first sel args. induction paths as [|path paths IH]; intros first sel args; cbn [deny_clauses].
  { intros [= <- <-] Ha Hs. exists []. rewrite !app_nil_r. split_and!; try done.
    destruct Hs as [|[_ Hs]]; [done|cbn in Hs; lia]. }
  destruct path as [path|]; cbn [mbind option_bind]; [|done].
  destruct (negb _) eqn:Eh; [done|]. destruct (_ || _) eqn:El; [done|].
  intros H Ha _.
  assert (exists sel', (if first then Some sel else Append sel cap (lit " AND ")) = Some sel'
    /\ sel' = sel ++ (if first then [] else lit " AND ")) as (sel' & E1 & Esel').
  { destruct first; [exists sel; by rewrite app_nil_r|]. unfold Append in *.
    destruct (cap <? size sel + size (lit " AND ") + 1); [done|by eexists]. }
  rewrite E1 in H. cbn [mbind option_bind] in H. unfold Append at 1 in H.
  destruct (Z.ltb_spec cap (size sel' + size kClause + 1)); cbn [mbind option_bind] in H; [done|].
  unfold Copy in H. destruct (Z.ltb_spec stride (size path + 1)); cbn [mbind option_bind] in H; [done|].
  destruct (CopyLikePrefix stride path) as [like_arg|] eqn:Elike; cbn [mbind option_bind] in H; [|done].
  apply CopyLikePrefix_Some in Elike as [-> Hlike].
  destruct (IH _ _ _ H) as (ps & -> & Hok & -> & Hargs & Hsz & ->).
  { apply Forall_app. split; [done|]. repeat constructor; [lia|done]. }
  { left. rewrite size_app. lia. }
  exists (path :: ps). split_tests. split_and!; [done|by constructor|by rewrite <- app_assoc|done|done|].
  rewrite Esel', <- !app_assoc. f_equal. unfold more_clauses.
  destruct ps as [|p ps]; destruct first; cbn [length replicate concat Datatypes.app]; by rewrite <- ?app_assoc, ?app_nil_r.
Qed.

(** What [BuildDenySelection] returns, apart from what its patterns match. *)
Lemma deny_selection_shape paths selection_capacity argument_capacity stride selection arguments :
  BuildDenySelection paths selection_capacity argument_capacity stride = Some (selection, arguments) ->
  exists ps, paths = Some <$> ps /\ Forall deny_path_ok ps
    /\ arguments = flat_map (fun p => [p; pattern p]) ps
    /\ selection = kClause ++ more_clauses (length ps - 1)
    /\ count_holes selection = length arguments
    /\ size arguments <= argument_capacity
    /\ size selection < selection_capacity /\ Forall (fun a => size a < stride) arguments.
Proof.
  unfold BuildDenySelection. destruct (_ || _) eqn:E0; [done|]. split_tests. intros Hdeny.
  destruct (deny_clauses_Some _ _ _ _ _ _ _ _ Hdeny ltac:(constructor)) as (ps & -> & Hok & -> & Hargs & Hsz & ->);
    [right; split; [done|lia]|].
  exists ps. rewrite length_fmap in *. unfold size in *. rewrite length_fmap in *. fold (size (kClause)) in *.
  destruct ps as [|p ps]; [cbn in *; lia|]. cbn [Datatypes.app length]. rewrite Nat.sub_succ, Nat.sub_0_r.
  assert (forall ps, length (arguments_for ps) = 2 * length ps)%nat as Hlen.
  { clear. induction ps as [|q ps IH]; [done|].
    change (arguments_for (q :: ps)) with ([q; pattern q] ++ arguments_for ps).
    rewrite length_app, IH. cbn [length]. lia. }
  split_and!; try done.
  - rewrite count_holes_app, (Hlen (p :: ps)). change (count_holes kClause) with 2%nat.
    assert (forall n, count_holes (more_clauses n) = 2 * n)%nat as ->; [|cbn; lia].
    clear. induction n as [|n IH]; [done|]. unfold more_clauses in *. cbn [replicate concat].
    rewrite count_holes_app, IH. change (count_holes (lit " AND " ++ kClause)) with 2%nat. lia.
  - rewrite (Hlen (p :: ps)). cbn [length] in *. pose proof (Z.mul_div_le argument_capacity 2 ltac:(lia)). lia.
Qed.

(** ** Properties *)

(** A path is rewritten by the longest rule of the caller that covers it. The result
    is the root, the backing path and the tail of the first longest rule; there is none
    exactly when the caller is no application, no rule covers the path, some covering
    rule would leave a [.] or [..] below it, nothing changes, or the buffer is too
    small. *)
Theorem rewrite_longest_match rules caller path capacity out :
  Forall rule_ok rules ->
  let covering r root tail := caller_uid r = caller /\ covers (visible_path r) (user_id r) path root tail in
  RewriteAbsolutePath rules caller path capacity = Some out
  <-> 10000 <= caller
      /\ (forall r root tail, r ∈ rules -> covering r root tail -> safe_components tail)
      /\ exists before r after root tail,
           rules = before ++ r :: after /\ covering r root tail
           /\ Forall (fun r' => forall root' tail', covering r' root' tail' ->
                        size (visible_path r') < size (visible_path r)) before
           /\ Forall (fun r' => forall root' tail', covering r' root' tail' ->
                        size (visible_path r') <= size (visible_path r)) after
           /\ out = root ++ backing_path r ++ tail /\ out <> path /\ size out < capacity.
Proof.
  intros Hok. cbv zeta. unfold RewriteAbsolutePath.
  rewrite (map_path_spec visible_path longer_visible caller path);
    [|exact longer_visible_trans|exact longer_visible_neg|done].
  - split; intros (Hcaller & Hsafe & before & r & after & root & tail & E & H).
    + destruct H as ([Hb Ha] & Hc & Hcov & Hout & Hne & Hsz).
      split_and!; [done|intros r' root' tail' Hin []; by eapply Hsafe|].
      exists before, r, after, root, tail. split_and!; try done; (eapply Forall_impl; [eassumption|]);
        intros x Hx root' tail' [Hcx Hcovx]; cbn in Hx; (assert (applies visible_path caller path x) as Hap by (split; [done|eauto]));
        specialize (Hx Hap); unfold longer_visible in Hx; split_tests; lia.
    + destruct H as ((Hc & Hcov) & Hb & Ha & Hout & Hne & Hsz).
      split_and!; [done|intros r' root' tail' Hin ? ?; by eapply Hsafe|].
      exists before, r, after, root, tail. split_and!; try done; split; (eapply Forall_impl; [eassumption|]);
        intros x Hx (Hcx & root' & tail' & Hcovx); cbn in Hx; specialize (Hx root' tail' (conj Hcx Hcovx));
        unfold longer_visible; [apply Z.ltb_lt|apply Z.ltb_ge]; lia.
Qed.

Definition sample_rules : list PathRule :=
  [{| caller_uid := 10100; user_id := 0; visible_path := lit "Pictures"; backing_path := lit "Private/P" |};
   {| caller_uid := 10100; user_id := 0; visible_path := lit "Pictures/Cam"; backing_path := lit "Private/C" |}].

Lemma sample_rules_ok : Forall rule_ok sample_rules.
Proof. repeat constructor; cbn; lia. Qed.

Lemma rewrite_longest_match_witness :
  10000 <= 10100.
Proof.
  exact (proj1 (proj1 (rewrite_longest_match sample_rules 10100 (lit "/storage/emulated/0/Pictures/Cam/a.jpg")
    4096 (lit "/storage/emulated/0/Private/C/a.jpg") sample_rules_ok) ltac:(vm_compute; reflexivity))).
Defined.

(** [RestoreAbsolutePath] undoes [RewriteAbsolutePath]: when no rule of the caller
    keeps its files at or below those of another rule of the same user, a path that was
    rewritten is restored. *)
Lemma restore_rewritten_path rules caller path capacity capacity' out :
  Forall rule_ok rules ->
  backing_apart rules ->
  RewriteAbsolutePath rules caller path capacity = Some out ->
  size path < capacity' ->
  RestoreAbsolutePath rules caller out capacity' = Some path.
Proof.
  intros Hok Hapart Hrw Hcap. unfold RewriteAbsolutePath, RestoreAbsolutePath in *.
  apply map_path_spec in Hrw; [|exact longer_visible_trans|exact longer_visible_neg|done].
  destruct Hrw as (Hcaller & Hsafe & before & r & after & root & tail & E & _ & Hc & Hcov & Hout & Hne & _).
  assert (r ∈ rules) as Hin by (rewrite E; apply elem_of_app; right; by left).
  assert (rule_ok r) as Hr by (rewrite Forall_forall in Hok; by apply Hok).
  destruct Hcov as (Hroot & Epath & Htail).
  assert (forall r' root' tail', r' ∈ rules -> caller_uid r' = caller ->
    covers (backing_path r') (user_id r') out root' tail' ->
    root' = root /\ tail' = tail /\ visible_path r' = visible_path r) as Hsame.
  { intros r' root' tail' Hin' Hc' (Hroot' & Eout & Htail'). rewrite Hout in Eout.
    assert (rule_ok r') as Hr' by (rewrite Forall_forall in Hok; by apply Hok).
    destruct (logical_roots_inj (user_id r) (user_id r') root root' _ _ (proj1 Hr) (proj1 Hr') Hroot Hroot' Eout)
      as [Hu <-]. apply app_inv_head in Eout.
    apply app_eq_app in Eout as [k [[Eb Et]|[Eb Et]]].
    - assert (k = [] \/ head k = Some x2f) as Hk.
      { destruct k as [|c k]; [by left|right]. rewrite Et in Htail'. destruct Htail' as [|Hh]; [done|exact Hh]. }
      destruct (Hapart r' r k Hin' Hin ltac:(congruence) ltac:(congruence) Eb Hk) as [-> ?].
      by rewrite Et.
    - assert (k = [] \/ head k = Some x2f) as Hk.
      { destruct k as [|c k]; [by left|right]. rewrite Et in Htail. destruct Htail as [|Hh]; [done|exact Hh]. }
      destruct (Hapart r r' k Hin Hin' ltac:(congruence) ltac:(congruence) Eb Hk) as [-> ?].
      by rewrite Et. }
  assert (covers (backing_path r) (user_id r) out root tail) as Hcov' by (by split_and!).
  destruct (fold_left (pick backing_path longer_backing caller out) rules None) as [s|] eqn:Ef.
  2:{ apply pick_none in Ef; [|done]. rewrite Forall_forall in Ef. exfalso. apply (Ef r Hin). split; [done|eauto]. }
  apply pick_applies in Ef as (b' & a' & E' & Em & Hbest); [|exact longer_backing_trans|exact longer_backing_neg|done].
  assert (selected s ∈ rules) as Hins by (rewrite E'; apply elem_of_app; right; by left).
  apply match_rule_spec in Em as (_ & Hcs & Hcovs); [|rewrite Forall_forall in Hok; by apply Hok].
  destruct (Hsame _ _ _ Hins Hcs Hcovs) as (Er & Et & Ev).
  apply map_path_spec; [exact longer_backing_trans|exact longer_backing_neg|done|]. split_and!; [done| |].
  - intros r' root' tail' Hin' Hc' Hcov''. destruct (Hsame _ _ _ Hin' Hc' Hcov'') as (_ & -> & _).
    exact (Hsafe r root tail Hin Hc (conj Hroot (conj Epath Htail))).
  - exists b', (selected s), a', (selected_root s), (selected_tail s). split_and!; try done.
    rewrite Er, Et, Ev. done.
Qed.

Lemma sample_rules_apart : backing_apart sample_rules.
Proof.
  intros r1 r2 tail H1 H2 _ _ E Ht. unfold sample_rules in H1, H2. rewrite !elem_of_cons, elem_of_nil in H1, H2.
  destruct H1 as [->|[->|[]]], H2 as [->|[->|[]]]; cbn in E; try discriminate E; injection E as <-; done.
Qed.

(** Two visible paths that share a target: a path that was rewritten by the second rule is restored
    to the name it has by the first. *)
Definition shared_rules : list PathRule :=
  [{| caller_uid := 10100; user_id := 0; visible_path := lit "Download/AppA"; backing_path := lit "PathGuard/Shared" |};
   {| caller_uid := 10100; user_id := 0; visible_path := lit "Pictures/AppA"; backing_path := lit "PathGuard/Shared" |}].

Example shared_target_named_by_first_rule :
  RewriteAbsolutePath shared_rules 10100 (lit "/storage/emulated/0/Pictures/AppA/a.jpg") 4096
  = Some (lit "/storage/emulated/0/PathGuard/Shared/a.jpg")
  /\ RestoreAbsolutePath shared_rules 10100 (lit "/storage/emulated/0/PathGuard/Shared/a.jpg") 4096
     = Some (lit "/storage/emulated/0/Download/AppA/a.jpg").
Proof. vm_compute. done. Qed.

(** A deny selection excludes exactly the denied paths and what is below them. Its
    arguments are each path and a pattern that, under any comparison of characters,
    matches the path followed by a slash and anything; it has one place for each
    argument, and the texts fit their buffers. *)
Theorem deny_selection_exact paths selection_capacity argument_capacity stride selection arguments :
  BuildDenySelection paths selection_capacity argument_capacity stride = Some (selection, arguments) ->
  exists ps, paths = Some <$> ps /\ Forall deny_path_ok ps
    /\ arguments = flat_map (fun p => [p; pattern p]) ps
    /\ (forall same p text, p ∈ ps ->
          like same (pattern p) text
          <-> exists q slash rest, text = q ++ slash :: rest /\ Forall2 same p q /\ same x2f slash)
    /\ selection = kClause ++ more_clauses (length ps - 1)
    /\ count_holes selection = length arguments
    /\ size arguments <= argument_capacity
    /\ size selection < selection_capacity /\ Forall (fun a => size a < stride) arguments.
Proof.
  intros (ps & -> & Hok & Ha & Hs & H)%deny_selection_shape. exists ps. split_and!; try done; try apply H.
  intros same p text _. apply like_pattern.
Qed.

Lemma deny_selection_exact_witness :
  exists ps, [Some (lit "/storage/emulated/0/a_b")] = Some <$> ps /\ Forall deny_path_ok ps.
Proof.
  destruct (deny_selection_exact [Some (lit "/storage/emulated/0/a_b")] 256 8 128 kClause
    [lit "/storage/emulated/0/a_b"; lit "/storage/emulated/0/a\_b/%"] ltac:(vm_compute; reflexivity))
    as (ps & E & Hok & _).
  exact (ex_intro _ ps (conj E Hok)).
Defined.

(** *** Caller identity *)

(** The calls a thread makes between the hooks of [clearCallingIdentity] and
    [restoreCallingIdentity], with the identity the binder reports at each. *)
Inductive clear_call : Set := Clear (calling_uid : Z) | Restore_.

Definition run_call (process_uid : Z) (call : clear_call) (c : CallerUid.Context_) : CallerUid.Context_ :=
  match call with
  | Clear uid => CallerUid.BeginBinderIdentityClear uid process_uid c
  | Restore_ => CallerUid.EndBinderIdentityClear c
  end.

Definition run_calls (process_uid : Z) (calls : list clear_call) (c : CallerUid.Context_)
    : CallerUid.Context_ :=
  fold_left (fun c call => run_call process_uid call c) calls c.

Inductive nested : list clear_call -> Prop :=
  | nested_nil : nested []
  | nested_pair uid inner rest :
      nested inner -> nested rest -> nested (Clear uid :: inner ++ Restore_ :: rest).

Lemma run_calls_app process_uid a b c :
  run_calls process_uid (a ++ b) c = run_calls process_uid b (run_calls process_uid a c).
Proof. apply fold_left_app. Qed.

(** The identity of FUSE requests is no business of Binder's. *)
Lemma run_calls_fuse process_uid calls c :
  CallerUid.fuse_uid (run_calls process_uid calls c) = CallerUid.fuse_uid c
  /\ CallerUid.fuse_request (run_calls process_uid calls c) = CallerUid.fuse_request c.
Proof.
  revert c. induction calls as [|call calls IH]; intros c; [done|].
  change (run_calls process_uid (call :: calls) c) with (run_calls process_uid calls (run_call process_uid call c)).
  destruct (IH (run_call process_uid call c)) as [-> ->]. destruct call; [done|].
  cbn [run_call]. unfold CallerUid.EndBinderIdentityClear. by destruct (_ =? 0).
Qed.

Lemma run_nested process_uid calls c :
  nested calls -> 0 < CallerUid.binder_clear_depth c ->
  CallerUid.binder_clear_depth c + size calls < 2 ^ 32 -> run_calls process_uid calls c = c.
Proof.
  intros Hn. revert c. induction Hn as [|uid inner rest Hi IHi Hr IHr]; intros c Hd Hs; [done|].
  rewrite size_cons, size_app, size_cons in Hs. pose proof (size_nonneg inner). pose proof (size_nonneg rest).
  change (Clear uid :: inner ++ Restore_ :: rest) with ([Clear uid] ++ inner ++ [Restore_] ++ rest).
  rewrite !run_calls_app. destruct c as [saved depth fuse request]. cbn in Hd, Hs.
  change (run_calls process_uid [Clear uid] ?x) with (CallerUid.BeginBinderIdentityClear uid process_uid x).
  unfold CallerUid.BeginBinderIdentityClear. cbn [CallerUid.saved_binder_uid CallerUid.binder_clear_depth
    CallerUid.fuse_uid CallerUid.fuse_request]. rewrite u32_small by lia.
  destruct (Z.eqb_spec depth 0); [lia|]. rewrite IHi by (cbn; lia).
  change (run_calls process_uid [Restore_] ?x) with (CallerUid.EndBinderIdentityClear x).
  unfold CallerUid.EndBinderIdentityClear. cbn [CallerUid.saved_binder_uid CallerUid.binder_clear_depth
    CallerUid.fuse_uid CallerUid.fuse_request].
  destruct (Z.eqb_spec (depth + 1) 0); [lia|]. rewrite Z.add_simpl_r.
  destruct (Z.eqb_spec depth 0); [lia|]. by apply IHr; cbn; lia.
Qed.

(** Clearing the binder identity does not lose the caller: at any point of properly
    nested clears the effective caller is the application that was calling when the
    outermost one began, and when that one is restored nothing is remembered. *)
Theorem caller_survives_identity_clear process_uid caller_uid calls c :
  nested calls -> CallerUid.binder_clear_depth c = 0 -> CallerUid.fuse_uid c = -1 ->
  size calls + 1 < 2 ^ 32 ->
  let inside := run_calls process_uid (Clear caller_uid :: calls) c in
  CallerUid.EffectiveCallerUid inside process_uid process_uid
  = CallerUid.caller_or_none caller_uid process_uid
  /\ CallerUid.saved_binder_uid (CallerUid.EndBinderIdentityClear inside) = -1
  /\ CallerUid.binder_clear_depth (CallerUid.EndBinderIdentityClear inside) = 0.
Proof.
  intros Hn Hd Hf Hs. cbv zeta. destruct c as [saved depth fuse request]. cbn in Hd, Hf. subst depth fuse.
  change (Clear caller_uid :: calls) with ([Clear caller_uid] ++ calls). rewrite run_calls_app.
  change (run_calls process_uid [Clear caller_uid] ?x)
    with (CallerUid.BeginBinderIdentityClear caller_uid process_uid x).
  unfold CallerUid.BeginBinderIdentityClear. cbn [CallerUid.saved_binder_uid CallerUid.binder_clear_depth
    CallerUid.fuse_uid CallerUid.fuse_request]. change (u32 (0 + 1)) with 1. change (0 =? 0) with true. cbv iota.
  rewrite run_nested by (done || (cbn; lia)).
  unfold CallerUid.EffectiveCallerUid, CallerUid.EndBinderIdentityClear, CallerUid.caller_or_none,
    CallerUid.IsApplicationCaller. cbn [CallerUid.saved_binder_uid CallerUid.binder_clear_depth
    CallerUid.fuse_uid CallerUid.fuse_request].
  rewrite Z.eqb_refl, andb_false_r. change (10000 <=? -1) with false. cbn [andb].
  destruct ((10000 <=? caller_uid) && negb (caller_uid =? process_uid)) eqn:E; [rewrite E; by split_and!|].
  by split_and!.
Qed.

Lemma caller_survives_identity_clear_witness :
  CallerUid.EffectiveCallerUid
    (run_calls 10050 [Clear 10100; Clear 10050; Restore_] CallerUid.initial) 10050 10050 = 10100.
Proof.
  refine (proj1 (caller_survives_identity_clear 10050 10100 [Clear 10050; Restore_] CallerUid.initial
                   _ eq_refl eq_refl ltac:(vm_compute; reflexivity))).
  apply (nested_pair 10050 [] []); constructor.
Defined.
