(* ===== verification/ProviderRules.v ===== *)
(** * The redirect rules of the media provider

    [LoadProviderRules] (zygisk/src/module_entry.cpp): inside the process of the media or external
    storage provider the module reads from the mapped policy the redirects of every package that
    wants the provider to follow them, for every user it is installed for. What [stat] says of
    the data directory of a package is the argument [owner]; the mapped file is a byte string, as
    in [ProcessPlan]. *)

From S2P Require Import Prelude Path Policy Validation PolicyFormat Binary BinaryProofs BinaryRoundTrip ProcessPlan.
From S2P Require Import ProcessPlanProofs Snapshot Provider.

Local Open Scope pg_scope.

(** The C library's [strtol] in base 10, with 64-bit [long]: [None] when there is no digit;
    a value that does not fit is clamped. *)
Definition strtol (text : bytes) : option (Z * bytes) :=
  let '(negative, s) := c_sign (skip_space text) in
  let '(digits, rest) := span_digits s in
  if digits == [] then None
  else
    value ← digits_value 0 digits;
    Some (if negative then Z.max (- 2 ^ 63) (- value) else Z.min (2 ^ 63 - 1) value, rest).

Definition data_path (user_id : Z) (package_name : bytes) : bytes :=
  lit "/data/user/" ++ print_int user_id ++ lit "/" ++ package_name.

Section Load.
(** The owner of a directory, when [stat] succeeds. *)
Context (owner : bytes -> option Z) (capacity : Z) (data : bytes) (h : Header).

(** The loop over the rules of a package, for one user. *)
Fixpoint provider_mounts (caller user first_mount : Z) (count : nat) (mount_index : Z) (rules : list PathRule)
    : checked (list PathRule) :=
  match count with
  | O => Ok rules
  | S count =>
      if capacity <=? size rules then Ok rules
      else
        let mount := h_mount_offset h + u32 (first_mount + mount_index) * kMountRuleSize in
        let next := provider_mounts caller user first_mount count (mount_index + 1) in
        action ← read_byte data (mount + kMountActionOffset);
        if action != kRedirectAction then next rules
        else
          visible_offset ← ReadLe32 data (mount + kMountVisiblePathOffset);
          visible ← ReadPolicyString data (h_string_offset h) visible_offset;
          backing_offset ← ReadLe32 data (mount + kMountBackingPathOffset);
          backing ← ReadPolicyString data (h_string_offset h) backing_offset;
          match visible, backing with
          | Some visible, Some backing =>
              if (PATH_MAX <=? size visible) || negb (IsAllowedTarget visible) then next rules
              else
                match ExpandRuntimePath backing (u32 user) PATH_MAX with
                | None => next rules
                | Some expanded_backing =>
                    next (rules ++ [{| Provider.caller_uid := caller; Provider.user_id := u32 user;
                                       Provider.visible_path := visible; Provider.backing_path := expanded_backing |}])
                end
          | _, _ => next rules
          end
  end.

(** The loop over the users of a package; [user] points into the list. *)
Fixpoint provider_users (fuel : nat) (package_name : bytes) (first_mount app_mount_count : Z) (user : bytes)
    (rules : list PathRule) : checked (list PathRule) :=
  match fuel, user with
  | O, _ | _, [] => Ok rules
  | S fuel, _ =>
      match strtol user with
      | None => Ok rules
      | Some (user_id, rest) =>
          let at_end := rest == [] in
          if (user_id <? 0) || (99999 <? user_id) || negb (at_end || bool_decide (head rest = Some x2c))
          then Ok rules
          else
            let path := data_path user_id package_name in
            rules ← match (if PATH_MAX <=? size path then None else owner path) with
                    | Some uid =>
                        if uid <? 10000 then Ok rules
                        else provider_mounts (int32 uid) user_id first_mount (Z.to_nat app_mount_count) 0 rules
                    | None => Ok rules
                    end;
            if at_end then Ok rules
            else provider_users fuel package_name first_mount app_mount_count (tail rest) rules
      end
  end.

(** One iteration of the loop over the packages. *)
Definition provider_package (index : Z) (rules : list PathRule) : checked (list PathRule) :=
  let entry := h_package_offset h + index * kPackageSize in
  provider_compat ← read_byte data (entry + kPackageProviderCompatOffset);
  if provider_compat != 1 then Ok rules
  else
    name_offset ← ReadLe32 data (entry + kPackageNameOffset);
    package_name ← ReadPolicyString data (h_string_offset h) name_offset;
    users_offset ← ReadLe32 data (entry + kPackageUsersOffset);
    users ← ReadPolicyString data (h_string_offset h) users_offset;
    first_mount ← ReadLe32 data (entry + kPackageFirstMountOffset);
    app_mount_count ← ReadLe32 data (entry + kPackageMountCountOffset);
    match package_name, users with
    | Some package_name, Some users =>
        if contains x2a users then Ok rules
        else provider_users (S (length users)) package_name first_mount app_mount_count users rules
    | _, _ => Ok rules
    end.

Fixpoint provider_packages (count : nat) (index : Z) (rules : list PathRule) : checked (list PathRule) :=
  match count with
  | O => Ok rules
  | S count => rules ← provider_package index rules; provider_packages count (index + 1) rules
  end.
End Load.

(** The result and the rules. *)
Definition LoadProviderRules (owner : bytes -> option Z) (capacity : Z) (data : bytes)
    : checked (bool * list PathRule) :=
  if size data <? kHeaderSize then Ok (false, [])
  else
    h ← read_header data;
    valid ← valid_header data h;
    if negb valid then Ok (false, [])
    else
      rules ← provider_packages owner capacity data h (Z.to_nat (h_package_count h)) 0 [];
      Ok (0 <? size rules, rules).

(** ** The rules of a decoded document *)

Section Spec.
Context (owner : bytes -> option Z).

Definition provider_rule (caller user : Z) (m : LogicalMountRule) : option PathRule :=
  match m_action m with
  | kRedirect =>
      backing ← ExpandRuntimePath (m_backing_path m) user PATH_MAX;
      Some {| Provider.caller_uid := caller; Provider.user_id := user;
              Provider.visible_path := m_visible_path m; Provider.backing_path := backing |}
  | _ => None
  end.

(** The uid of the application of a user, when it is installed for the user. *)
Definition app_uid (package_name : bytes) (user : Z) : option Z :=
  let path := data_path user package_name in
  if PATH_MAX <=? size path then None
  else uid ← owner path; if uid <? 10000 then None else Some (int32 uid).

Definition user_rules (app : AppPolicy) (user : Z) : list PathRule :=
  match app_uid (package app) user with
  | Some caller => omap (provider_rule caller user) (mounts app)
  | None => []
  end.

(** The users up to the first one that Android does not have. *)
Fixpoint known_users (users : list bytes) : list Z :=
  match users with
  | [] => []
  | user :: rest =>
      match from_chars 32 user with
      | Some value => if 99999 <? value then [] else value :: known_users rest
      | None => []
      end
  end.

Definition provider_rules (app : AppPolicy) (users : list bytes) : list PathRule :=
  match provider_compat app with
  | kVirtualize => known_users users ≫= user_rules app
  | _ => []
  end.
End Spec.

(** ** Lemmas: the list of users *)

Lemma from_chars_digits w u v :
  from_chars w u = Some v -> u <> [] /\ forallb is_digit u = true /\ digits_value 0 u = Some v /\ 0 <= v < 2 ^ w.
Proof.
  intros H. pose proof (from_chars_range _ _ _ H). unfold from_chars in H. destruct u as [|b u]; [done|].
  destruct (digits_value 0 (b :: u)) as [v'|] eqn:Ed; [|done].
  assert (v' = v) as -> by (cbn [mbind option_bind] in H; repeat case_match; congruence).
  split_and!; [done|by eapply digits_value_is_digit|done|lia|lia].
Qed.

Lemma strtol_user w u v rest :
  from_chars w u = Some v -> w <= 63 -> match rest with b :: _ => is_digit b = false | [] => True end ->
  strtol (u ++ rest) = Some (v, rest).
Proof.
  intros (Hne & Hd & Hv & Hr)%from_chars_digits Hw Hrest. unfold strtol.
  assert (2 ^ w <= 2 ^ 63) by (destruct (Z.leb_spec 0 w); [apply Z.pow_le_mono_r; lia|rewrite Z.pow_neg_r by lia; lia]).
  pose proof (span_digits_app u rest Hd Hrest) as Hspan. destruct u as [|b u]; [done|].
  cbn in Hd. apply andb_true_iff in Hd as [Hb Hd]. cbn [app] in *.
  rewrite skip_space_digits, c_sign_digits, Hspan by done. rewrite bool_decide_eq_false_2 by done.
  rewrite Hv. cbn [mbind option_bind]. by rewrite Z.min_r by lia.
Qed.

(** ** Lemmas: the loops on a decoded file *)

(** The rules that fit. *)
Definition capped (capacity : Z) (rules : list PathRule) : list PathRule := take (Z.to_nat capacity) rules.

Lemma capped_app capacity l k : capped capacity (capped capacity l ++ k) = capped capacity (l ++ k).
Proof.
  unfold capped. rewrite !take_app, take_take, length_take. f_equal; [f_equal; lia|].
  destruct (Nat.min_spec (Z.to_nat capacity) (length l)) as [[Hl ->]|[Hl ->]]; [|done].
  rewrite !(proj2 (Nat.sub_0_le _ _)) by lia. done.
Qed.

Lemma size_capped capacity l : 0 <= capacity -> size (capped capacity l) <= capacity.
Proof. intros Hc. unfold capped, size. rewrite length_take. lia. Qed.

Lemma capped_full capacity l k : 0 <= capacity -> capacity <= size (capped capacity l) ->
  capped capacity (l ++ k) = capped capacity l.
Proof.
  unfold capped, size. rewrite length_take. intros Hc Hf. rewrite take_app_le; [done|lia].
Qed.

Lemma capped_room capacity l : 0 <= capacity -> size (capped capacity l) < capacity -> capped capacity l = l.
Proof. unfold capped, size. rewrite length_take. intros Hc Hf. apply take_ge. lia. Qed.

Section Loops.
Context (owner : bytes -> option Z) (capacity : Z) (data : bytes) (h : Header).
Context (Hh : header_ok data h) (Hcapacity : 0 <= capacity).

Lemma provider_mounts_spec caller user first ms index done :
  0 <= user < 2 ^ 32 ->
  (forall j m, ms !! j = Some m -> rule_readable data h first (index + Z.of_nat j) m) ->
  provider_mounts capacity data h caller user first (length ms) index (capped capacity done)
  = Ok (capped capacity (done ++ omap (provider_rule caller user) ms)).
Proof.
  intros Huser. revert index done. induction ms as [|m ms IH]; intros index done Hms; cbn [length provider_mounts].
  { by rewrite app_nil_r. }
  destruct (Z.leb_spec capacity (size (capped capacity done))) as [Hfull|Hroom].
  { by rewrite capped_full. }
  pose proof (Hms 0%nat m eq_refl) as Hm. rewrite Z.add_0_r in Hm.
  assert (forall more, provider_mounts capacity data h caller user first (length ms) (index + 1) (capped capacity (done ++ more))
            = Ok (capped capacity (done ++ more ++ omap (provider_rule caller user) ms))) as Hnext.
  { intros more. rewrite app_assoc. apply IH. intros j m' Hj. specialize (Hms (S j) m' Hj).
    by replace (index + 1 + Z.of_nat j) with (index + Z.of_nat (S j)) by lia. }
  destruct Hm as (package & m' & Hd & He & Hc).
  apply (decode_mount_inv data h) in Hd as (B1 & B2 & B3 & S1 & S2).
  assert (m_action m' = m_action m /\ m_visible_path m' = m_visible_path m
          /\ m_backing_path m' = m_backing_path m) as (E1 & E2 & E3)
    by (unfold erase_mount in He; by injection He as -> -> -> _ _).
  rewrite E1 in B3. rewrite E2 in S1. rewrite E3 in S2.
  unfold kMountRuleSize, kMountActionOffset, kMountVisiblePathOffset, kMountBackingPathOffset, ReadLe32.
  rewrite B3. cbn [mbind outcome_bind].
  rewrite (policy_string_at data h Hh _ _ _ S1), (policy_string_at data h Hh _ _ _ S2).
  change (omap (provider_rule caller user) (m :: ms)) with
    (match provider_rule caller user m with Some r => r :: omap (provider_rule caller user) ms
     | None => omap (provider_rule caller user) ms end).
  specialize (Hnext []) as Hskip. rewrite app_nil_r in Hskip. cbn [app] in Hskip.
  unfold provider_rule at 1. unfold mount_canonical in Hc.
  destruct (m_action m) eqn:Ea; cbn [mount_action_value]; try exact Hskip.
  destruct Hc as (Hv & _ & Hb). rewrite bool_decide_eq_true_2 by done. cbn [negb].
  rewrite IsAllowedTarget_visible by done. pose proof Hv as (_ & _ & [Hs _ _]). unfold kMaxLogicalPathBytes in Hs.
  unfold PATH_MAX. destruct (Z.leb_spec 4096 (size (m_visible_path m))); [lia|]. cbn [negb orb].
  rewrite (u32_small user) by done.
  destruct (ExpandRuntimePath (m_backing_path m) user 4096) as [backing|]; [|exact Hskip]. cbn [mbind option_bind].
  rewrite (capped_room capacity done) by done.
  match goal with |- provider_mounts _ _ _ _ _ _ _ _ (done ++ [?r]) = _ => specialize (Hnext [r]) end.
  cbn [app] in Hnext. rewrite <- Hnext. f_equal. symmetry. unfold capped. apply take_ge. rewrite length_app. cbn.
  rewrite (capped_room capacity done) in Hroom by done. unfold size in Hroom. lia.
Qed.

(** The decoded rules of a package at [first]. *)
Lemma user_step_spec package first ms app user done :
  0 <= user < 2 ^ 32 -> ms = mounts app -> package = Policy.package app ->
  (forall j m, ms !! j = Some m -> rule_readable data h first (Z.of_nat j) m) ->
  match (if PATH_MAX <=? size (data_path user package) then None else owner (data_path user package)) with
  | Some uid =>
      if uid <? 10000 then Ok (capped capacity done)
      else provider_mounts capacity data h (int32 uid) user first (Z.to_nat (size ms)) 0 (capped capacity done)
  | None => Ok (capped capacity done)
  end = Ok (capped capacity (done ++ user_rules owner app user)).
Proof.
  intros Huser -> -> Hms. unfold user_rules, app_uid. cbv zeta.
  destruct (PATH_MAX <=? size (data_path user (Policy.package app))); [by rewrite app_nil_r|].
  destruct (owner _) as [uid|]; cbn [mbind option_bind]; [|by rewrite app_nil_r].
  destruct (uid <? 10000); [by rewrite app_nil_r|]. unfold size. rewrite Nat2Z.id. by apply provider_mounts_spec.
Qed.

Lemma provider_users_spec app first us fuel done :
  us <> [] -> (length (join_with x2c us) < fuel)%nat -> Forall (fun u => is_Some (from_chars 32 u)) us ->
  (forall j m, mounts app !! j = Some m -> rule_readable data h first (Z.of_nat j) m) ->
  provider_users owner capacity data h fuel (package app) first (size (mounts app)) (join_with x2c us)
    (capped capacity done)
  = Ok (capped capacity (done ++ (known_users us ≫= user_rules owner app))).
Proof.
  intros Hne Hfuel Hus Hms. revert us done Hne Hfuel Hus.
  induction fuel as [|fuel IH]; intros us done Hne Hfuel Hus; [lia|].
  destruct us as [|u us]; [done|]. apply Forall_cons in Hus as [[v Hv] Hus].
  pose proof (from_chars_digits _ _ _ Hv) as (Hune & _ & _ & Hrange). cbn [known_users]. rewrite Hv.
  set (rest := match us with [] => [] | _ => x2c :: join_with x2c us end).
  assert (join_with x2c (u :: us) = u ++ rest) as Ejoin by (destruct us; [by rewrite app_nil_r|done]).
  assert (strtol (u ++ rest) = Some (v, rest)) as Estr by (eapply strtol_user; [exact Hv|lia|by destruct us]).
  rewrite Ejoin in *. cbn [provider_users]. destruct (u ++ rest) as [|b s] eqn:Eu; [by destruct u|].
  rewrite Estr. destruct (Z.ltb_spec v 0); [lia|]. cbn [orb].
  destruct (Z.ltb_spec 99999 v) as [|Hsmall]; [by rewrite app_nil_r|]. cbn [orb].
  assert ((rest == []) || bool_decide (head rest = Some x2c) = true) as -> by (by destruct us). cbn [negb].
  rewrite (user_step_spec (package app) first (mounts app) app v done) by done.
  cbn [mbind outcome_bind list_bind].
  destruct us as [|u2 us]; subst rest.
  { rewrite bool_decide_eq_true_2 by done. cbn. by rewrite app_nil_r. }
  rewrite bool_decide_eq_false_2 by done. cbn [tail]. rewrite app_assoc. apply IH; [done| |done].
  rewrite <- Eu, length_app in Hfuel. cbn [length] in Hfuel. lia.
Qed.
End Loops.

Lemma not_in_join c sep us : c <> sep -> Forall (fun u => c ∉ u) us -> c ∉ join_with sep us.
Proof.
  intros Hc Hus. induction Hus as [|u us Hu Hus IH]; [apply not_elem_of_nil|].
  destruct us as [|v us]; [exact Hu|]. change (join_with sep (u :: v :: us)) with (u ++ sep :: join_with sep (v :: us)).
  rewrite elem_of_app, elem_of_cons. tauto.
Qed.

Lemma numbers_no_star us : Forall (fun u => is_Some (from_chars 32 u)) us -> contains x2a (join_with x2c us) = false.
Proof.
  intros Hus. apply contains_false, not_in_join; [done|]. eapply Forall_impl; [exact Hus|]. cbn. intros u [v Hv] Hin.
  apply from_chars_digits in Hv as (_ & Hd & _). rewrite forallb_forall in Hd.
  apply list_elem_of_In, Hd in Hin. discriminate Hin.
Qed.

Section Document.
Context (owner : bytes -> option Z) (capacity : Z) (Hcapacity : 0 <= capacity).
Context (data : bytes) (h : Header) (final : DecodeState) (doc : PolicyDocument) (generation : Z).
Context (Hacc : accepted data h final doc generation).

Lemma provider_package_spec k app :
  apps doc !! k = Some app ->
  exists us, us ≡ₚ users app /\ forall done,
    provider_package owner capacity data h (Z.of_nat k) (capped capacity done)
    = Ok (capped capacity (done ++ provider_rules owner app us)).
Proof.
  intros Hk. pose proof (ac_ok _ _ _ _ _ Hacc) as Hh.
  destruct (app_entry data h final doc generation Hacc k app Hk) as (st1 & st2 & raw & ps & ms & gen & Hd & Hm & _).
  pose proof (entry_rules_readable data h st1 _ st2 app raw ps ms gen Hd Hm) as Hread. destruct Hd.
  destruct de_lists as (us & pl & Hsplit & _ & Hnorm & _). exists us.
  pose proof (NormalizeUsers_perm _ _ Hnorm) as Hperm. split; [done|]. intros done.
  unfold provider_package, kPackageSize, kPackageProviderCompatOffset, kPackageNameOffset, kPackageUsersOffset,
    kPackageFirstMountOffset, kPackageMountCountOffset, ReadLe32.
  destruct de_flags as (_ & _ & -> & _). destruct de_ranges as (Rf & Rc & _). unfold Read32 in Rf, Rc.
  cbn [mbind outcome_bind]. unfold provider_rules.
  rewrite (policy_string_at data h Hh _ _ _ de_name), (policy_string_at data h Hh _ _ _ de_users), Rf, Rc.
  cbn [mbind outcome_bind]. destruct (provider_compat app) eqn:Ep; [by rewrite app_nil_r|].
  pose proof (cp_provider _ de_canonical Ep) as [Hstar _].
  rewrite <- (perm_single _ _ (lit "*") Hperm) in Hstar.
  unfold NormalizeUsers in Hnorm. rewrite bool_decide_eq_false_2 in Hnorm by done.
  destruct (forallb _ us) eqn:Eall; [|done].
  assert (Forall (fun u => is_Some (from_chars 32 u)) us) as Hnum.
  { apply Forall_forall. intros u Hu. rewrite forallb_forall in Eall. apply list_elem_of_In, Eall in Hu.
    apply negb_true_iff, bool_decide_eq_false in Hu. by apply not_eq_None_Some. }
  apply Split_items in Hsplit as [Eus _]. assert (raw = join_with x2c us) as Eraw by (by rewrite Eus, join_split).
  rewrite Eraw. change (provider_compat_value kVirtualize) with 1. rewrite bool_decide_eq_true_2 by done. cbn [negb].
  rewrite numbers_no_star by done. apply provider_users_spec; try done; [|lia].
  intros ->. by apply (split_on_not_nil x2c raw).
Qed.

(** The lists of users, in the order of the file. *)
Lemma provider_packages_spec n k done :
  (k + n = length (apps doc))%nat ->
  exists orders, Forall2 (fun us app => us ≡ₚ users app) orders (drop k (apps doc))
    /\ provider_packages owner capacity data h n (Z.of_nat k) (capped capacity done)
       = Ok (capped capacity (done ++ concat (zip_with (provider_rules owner) (drop k (apps doc)) orders))).
Proof.
  revert k done. induction n as [|n IH]; intros k done Hn; cbn [provider_packages].
  { exists []. rewrite drop_ge by lia. split; [constructor|]. cbn. by rewrite app_nil_r. }
  destruct (lookup_lt_is_Some_2 (apps doc) k ltac:(lia)) as [app Hk].
  destruct (provider_package_spec k app Hk) as (us & Hperm & Hspec).
  destruct (IH (S k) (done ++ provider_rules owner app us) ltac:(lia)) as (orders & Hord & Hrest).
  exists (us :: orders). rewrite (drop_S _ _ _ Hk). split; [by constructor|].
  rewrite Hspec. cbn [mbind outcome_bind]. replace (Z.of_nat k + 1) with (Z.of_nat (S k)) by lia.
  rewrite Hrest. cbn. by rewrite <- app_assoc.
Qed.
End Document.

(** ** Lemmas: arbitrary files *)

(** What the hooks may rely on: the paths are safe and the caller is an application. *)
Definition provider_rule_safe (r : PathRule) : Prop :=
  safe_text (Provider.visible_path r) /\ safe_text (Provider.backing_path r)
  /\ 0 <= Provider.user_id r <= 99999.

Section Arbitrary.
Context (owner : bytes -> option Z) (capacity : Z) (data : bytes) (h : Header) (Hh : header_ok data h).

Definition rules_inv (rules : list PathRule) : Prop :=
  size rules <= Z.max 0 capacity /\ Forall provider_rule_safe rules.

Lemma provider_mounts_ensures caller user first count index rules :
  0 <= user <= 99999 -> 0 <= first -> 0 <= index -> first + index + Z.of_nat count <= h_mount_count h ->
  rules_inv rules -> ensures (provider_mounts capacity data h caller user first count index rules) rules_inv.
Proof.
  intros Huser Hf. revert index rules. pose proof Hh as [].
  induction count as [|count IH]; intros index rules Hi Hle Hinv; [done|]. cbn [provider_mounts].
  destruct (Z.leb_spec capacity (size rules)) as [|Hroom]; [done|].
  rewrite (u32_small (first + index)) by lia.
  unfold kMountRuleSize, kMountActionOffset, kMountVisiblePathOffset, kMountBackingPathOffset, ReadLe32, read_byte.
  load_step. destruct (negb _); [apply IH; done || lia|]. do 4 load_step.
  match goal with |- ensures (match ?v with _ => _ end) _ => destruct v as [visible|] end; [|apply IH; done || lia].
  match goal with |- ensures (match ?v with _ => _ end) _ => destruct v as [backing|] end; [|apply IH; done || lia].
  destruct (_ || _) eqn:Ev; [apply IH; done || lia|]. split_tests. rewrite (u32_small user) by lia.
  destruct (ExpandRuntimePath _ _ _) as [expanded|] eqn:Ee; [|apply IH; done || lia].
  apply IH; [lia|lia|]. destruct Hinv as [Hsz Hall]. split.
  - rewrite size_app. change (size [_]) with 1. lia.
  - apply Forall_app. split; [done|]. constructor; [|done].
    match type of Ee with ExpandRuntimePath ?b _ _ = _ => assert (no_nul b) as Hnul by eauto end.
    apply ExpandRuntimePath_safe in Ee as [Hsafe _]; [|lia|done]. split_and!; cbn; [split; [done|]|done|lia|lia].
    change ProcessPlan.PATH_MAX with PATH_MAX. lia.
Qed.

Lemma provider_users_ensures fuel name first count user rules :
  0 <= first -> 0 <= count -> first + count <= h_mount_count h -> rules_inv rules ->
  ensures (provider_users owner capacity data h fuel name first count user rules) rules_inv.
Proof.
  intros Hf Hc Hle. revert user rules. induction fuel as [|fuel IH]; intros user rules Hinv; cbn [provider_users]; [done|].
  destruct user as [|b user]; [done|]. destruct (strtol _) as [[v rest]|]; [|done]. cbv zeta.
  destruct (_ || _ || _) eqn:Ev; [done|]. split_tests.
  eapply (ensures_bind _ _ rules_inv).
  - destruct (if _ <=? _ then _ else _) as [uid|]; [|done]. destruct (_ <? _); [done|].
    apply provider_mounts_ensures; done || lia.
  - intros rules' Hinv'. destruct (bool_decide (rest = [])); [done|by apply IH].
Qed.
End Arbitrary.

(** The ranges of the packages lie in the table of the rules. *)
Lemma valid_package_ranges_entry data h count index fm fe r i first n :
  valid_package_ranges data h count index fm fe = Ok (Some r) -> header_ok data h -> 0 <= fm <= h_mount_count h ->
  index <= i < index + Z.of_nat count ->
  ReadLe32 (E:=option ParseError) data (h_package_offset h + i * kPackageSize + kPackageFirstMountOffset) = Ok first ->
  ReadLe32 (E:=option ParseError) data (h_package_offset h + i * kPackageSize + kPackageMountCountOffset) = Ok n ->
  0 <= first /\ 0 <= n /\ first + n <= h_mount_count h.
Proof.
  intros H Hh. revert index fm fe H. induction count as [|count IH]; intros index fm fe H Hfm Hi Ef En; [lia|].
  pose proof Hh as []. cbn [valid_package_ranges] in H.
  apply bind_Ok in H as (first' & Ef' & H). apply bind_Ok in H as (n' & En' & H).
  do 7 (apply bind_Ok in H as (? & _ & H)). destruct (_ || _) eqn:Ec; [done|]. split_tests. subst fm.
  pose proof (read_le_range _ _ _ _ Ef'). pose proof (read_le_range _ _ _ _ En').
  rewrite u32_small in * by lia.
  destruct (decide (i = index)) as [->|Hne].
  - rewrite Ef in Ef'. rewrite En in En'. injection Ef' as <-. injection En' as <-. lia.
  - refine (IH (index + 1) _ _ H _ _ Ef En); [|lia]. rewrite u32_small by lia. lia.
Qed.

Lemma valid_header_ranges data h :
  valid_header data h = Ok true -> exists r, valid_package_ranges data h (Z.to_nat (h_package_count h)) 0 0 0 = Ok (Some r).
Proof.
  unfold valid_header. destruct (header_fields_ok data h); [|done]. intros H. apply bind_Ok in H as ([] & _ & H); [|done].
  unfold ValidPolicyTables in H. apply bind_Ok in H as ([[m e]|] & Hr & H); [|done]. eauto.
Qed.

Lemma ensures_self {E A} (m : outcome E A) (P : A -> Prop) : ensures m P -> ensures m (fun a => P a /\ m = Ok a).
Proof. by destruct m. Qed.

Lemma provider_package_ensures owner capacity data h index rules :
  header_ok data h -> valid_header data h = Ok true -> 0 <= index < h_package_count h ->
  rules_inv capacity rules -> ensures (provider_package owner capacity data h index rules) (rules_inv capacity).
Proof.
  intros Hh Hvalid Hi Hinv. destruct (valid_header_ranges data h Hvalid) as [r Hr]. pose proof Hh as [].
  unfold provider_package, kPackageProviderCompatOffset, kPackageNameOffset, kPackageUsersOffset,
    kPackageFirstMountOffset, kPackageMountCountOffset, kPackageSize, ReadLe32, read_byte.
  load_step. destruct (negb _); [done|]. do 4 load_step.
  eapply ensures_bind; [apply ensures_self, ensures_read; [lia..|]|].
  { intros v Hv. exact Hv. }
  intros first [_ Ef]. cbn beta.
  eapply ensures_bind; [apply ensures_self, ensures_read; [lia..|]|].
  { intros v Hv. exact Hv. }
  intros n [_ En].
  destruct (valid_package_ranges_entry data h _ _ _ _ _ index first n Hr Hh ltac:(lia) ltac:(lia) Ef En) as (Hf0 & Hn0 & Hfn).
  match goal with |- ensures (match ?v with _ => _ end) _ => destruct v as [name|] end; [|done].
  match goal with |- ensures (match ?v with _ => _ end) _ => destruct v as [users|] end; [|done].
  destruct (contains _ _); [done|]. by apply provider_users_ensures.
Qed.

Lemma provider_packages_ensures owner capacity data h count index rules :
  header_ok data h -> valid_header data h = Ok true -> 0 <= index -> index + Z.of_nat count <= h_package_count h ->
  rules_inv capacity rules -> ensures (provider_packages owner capacity data h count index rules) (rules_inv capacity).
Proof.
  intros Hh Hvalid. revert index rules. induction count as [|count IH]; intros index rules Hi Hle Hinv; [done|].
  cbn [provider_packages]. eapply ensures_bind; [apply provider_package_ensures; done || lia|].
  intros rules' Hinv'. apply IH; done || lia.
Qed.

(** ** Properties *)

(** C20. The provider process enforces the policy it is given. On every file the decoder accepts,
    [LoadProviderRules] stays in bounds and returns, up to its capacity and in the order of the
    file, exactly the redirects of the decoded packages that virtualize the provider, one for each
    listed user (up to the first that Android does not have) for whom the package is installed
    under an application uid, with the uid of the package as the caller and the backing path
    expanded for that user. *)
Theorem load_provider_rules_agrees owner capacity data doc generation :
  DecodePolicy data = Ok (doc, generation) -> 0 <= capacity ->
  exists orders, Forall2 (fun us app => us ≡ₚ users app) orders (apps doc)
    /\ let rules := capped capacity (concat (zip_with (provider_rules owner) (apps doc) orders)) in
       LoadProviderRules owner capacity data = Ok (0 <? size rules, rules).
Proof.
  intros Hd Hc. destruct (DecodePolicy_accepted _ _ _ Hd) as (h & final & Hacc).
  pose proof (app_count data h final doc generation Hacc) as Hcount. unfold size in Hcount.
  destruct (provider_packages_spec owner capacity Hc data h final doc generation Hacc (length (apps doc)) 0 [])
    as (orders & Hord & Hspec); [lia|]. rewrite drop_0 in Hord, Hspec.
  exists orders. split; [done|]. unfold LoadProviderRules.
  pose proof (valid_header_ok data h final doc generation Hacc) as Hvalid. destruct Hacc.
  destruct (Z.ltb_spec (size data) kHeaderSize); [lia|]. rewrite ac_header. cbn [mbind outcome_bind].
  rewrite Hvalid. cbn [mbind outcome_bind negb].
  replace (Z.to_nat (h_package_count h)) with (length (apps doc)) by lia.
  assert (capped capacity [] = []) as Enil by apply take_nil. rewrite Enil in Hspec.
  change (Z.of_nat 0) with 0 in Hspec. by rewrite Hspec.
Qed.

(** [LoadProviderRules] trusts nothing in the file. On arbitrary bytes, and whatever [stat]
    answers, it stays in bounds and returns at most [capacity] rules, each with safe relative
    paths and a user that Android can have. *)
Theorem load_provider_rules_safe owner capacity data :
  LoadProviderRules owner capacity data <> Oob
  /\ forall found rules, LoadProviderRules owner capacity data = Ok (found, rules) ->
       size rules <= Z.max 0 capacity /\ Forall provider_rule_safe rules /\ found = (0 <? size rules).
Proof.
  assert (ensures (LoadProviderRules owner capacity data)
            (fun r => rules_inv capacity r.2 /\ r.1 = (0 <? size r.2))) as H.
  { assert (rules_inv capacity []) as Hnil by (split; [rewrite size_nil; lia|constructor]).
    unfold LoadProviderRules. destruct (Z.ltb_spec (size data) kHeaderSize); [done|].
    eapply ensures_bind; [by apply read_header_ensures|]. intros h Hr.
    eapply ensures_bind; [apply ensures_self, valid_header_ensures, Hr|]. intros [|] [Hok Hvalid]; [|done]. cbn [negb].
    destruct (Hok eq_refl) as [Hhdr _]. pose proof Hhdr as [].
    eapply ensures_bind; [apply provider_packages_ensures; done || lia|]. by intros rules Hinv. }
  split; [by eapply ensures_not_Oob|]. intros found rules E.
  destruct (ensures_Ok _ _ _ H E) as [[H1 H2] H3]. done.
Qed.

(** ** Witnesses *)

(** An app that redirects a directory for two users, through the media provider. *)
Definition provider_document : PolicyDocument := {|
  schema := 2; failure_mode := FailureMode_kOpen; allow_legacy_string_bind := false;
  apps := [{|
    package := lit "com.a"; media_compat := MediaCompat_kOff; provider_compat := kVirtualize;
    users := [lit "0"; lit "10"]; processes := [lit "*"];
    mounts := [{| m_action := kRedirect; m_visible_path := lit "DCIM";
                  m_backing_path := lit "Android/data/com.a/{user}/DCIM";
                  m_depth := 0; m_flags := 0; m_line := 1 |}];
    events := [] |}];
|}.

Definition provider_file : bytes := match EncodePolicy provider_document with Ok file => file | _ => [] end.

(** The package is installed for user 10 only. *)
Definition provider_owner (path : bytes) : option Z :=
  if path == lit "/data/user/10/com.a" then Some 1010123 else None.
Definition provider_decoded : PolicyDocument * Z :=
  match DecodePolicy provider_file with Ok r => r | _ => (provider_document, 0) end.

Lemma load_provider_rules_agrees_witness :
  DecodePolicy provider_file = Ok (provider_decoded.1, provider_decoded.2)
  /\ exists orders, Forall2 (fun us app => us ≡ₚ users app) orders (apps provider_decoded.1)
      /\ LoadProviderRules provider_owner 64 provider_file
         = Ok (true, capped 64 (concat (zip_with (provider_rules provider_owner) (apps provider_decoded.1) orders))).
Proof.
  assert (DecodePolicy provider_file = Ok (provider_decoded.1, provider_decoded.2)) as E by (vm_compute; reflexivity).
  split; [exact E|].
  destruct (load_provider_rules_agrees provider_owner 64 provider_file _ _ E ltac:(lia)) as (orders & Hord & Hload).
  exists orders. split; [exact Hord|]. cbv zeta in Hload.
  assert (exists rules, LoadProviderRules provider_owner 64 provider_file = Ok (true, rules)) as [rules Htrue]
    by (eexists; vm_compute; reflexivity).
  assert (forall (b : bool) (l k : list PathRule), Ok (E := option ParseError) (b, l) = Ok (true, k) -> b = true) as Hb
    by (intros b l k Heq; injection Heq; auto).
  pose proof (Hb _ _ _ (eq_trans (eq_sym Hload) Htrue)) as Hfound. rewrite Hfound in Hload. exact Hload.
Defined.

(** One rule: the package is installed for the second user only. *)
Example provider_rules_sample :
  LoadProviderRules provider_owner 64 provider_file
  = Ok (true, [{| Provider.caller_uid := 1010123; Provider.user_id := 10; Provider.visible_path := lit "DCIM";
                  Provider.backing_path := lit "Android/data/com.a/10/DCIM" |}]).
Proof. vm_compute. reflexivity. Qed.
