(* ===== verification/ProviderHook.v ===== *)
(** * The replacements of the file functions of the media provider

    zygisk/src/provider_redirect_hook.cpp, the part that runs in the calls of the provider:
    the state of a thread, the identity of the caller, and a replacement for each function of
    libc that takes a path, for the identity methods of Binder and for the requests of FUSE.
    The originals are arguments ([Libc], [Fuse]); they may change everything, and may call the
    replacements again. A replacement runs only where the original was stored before, so the
    pointers are not null, except in the open family, which tests them.

    A [World] is what one thread sees: its state, [errno], the log, and [outside], whatever else
    the originals act on. What the kernel, the allocator and Binder answer is a [System], a
    function of a clock that advances with every question. A [char*] is an [option bytes]
    without a zero byte, [None] for null. *)

From S2P Require Import Prelude Path Snapshot Resolver Provider.

Local Open Scope pg_scope.

Definition AT_FDCWD : Z := -100.
Definition O_CREAT : Z := 64.
Definition ERANGE : Z := 34.

Abbreviation cpath := (option bytes).

(** [CallerUidContext]: the fields of the identity are in [CallerUid.Context_]. *)
Record ThreadState : Type := {
  in_path_hook : bool;
  identity : CallerUid.Context_;
}.

(** After [calloc], as [GetThreadState] sets it. *)
Definition fresh : ThreadState := {| in_path_hook := false; identity := CallerUid.initial |}.

(** The globals: [g_rules] up to [g_rule_count], the flags, the pointers that are only tested
    against null, and the symbols whose original is not null. *)
Record Globals : Type := {
  g_rules : list PathRule;
  g_hooks_enabled : bool;
  g_thread_state_key_ready : bool;
  g_fuse_install_state : Z;
  g_api : bool;
  g_binder_get_calling_uid : bool;
  g_binder_clear_identity : bool;
  g_binder_restore_identity : bool;
  g_originals : gset bytes;
}.

Record System : Type := {
  getuid : Z;
  binder_uid : nat -> Z;
  getcwd : nat -> bytes + Z;
  fd_path : nat -> Z -> bytes + Z;
  calloc_ok : nat -> bool;
  setspecific_ok : nat -> bool;
  malloc_ok : nat -> bool;
}.

Record Line : Type := {
  l_operation : bytes;
  l_uid : Z;
  l_from : bytes;
  l_to : bytes;
}.

Section Hook.
Context {R : Type}.

Record World : Type := {
  state : option ThreadState;
  clock : nat;
  world_errno : Z;
  g_rewrite_log_count : Z;
  lines : list Line;
  outside : R;
}.

Definition hook (A : Type) : Type := World -> A * World.

#[export] Instance hook_ret : MRet hook := fun A x w => (x, w).

#[export] Instance hook_bind : MBind hook := fun A B f m w => let '(x, w) := m w in f x w.

Definition get_state : hook (option ThreadState) := fun w => (state w, w).

Definition set_state (s : option ThreadState) : hook unit := fun w =>
  (tt, {| state := s; clock := clock w; world_errno := world_errno w;
          g_rewrite_log_count := g_rewrite_log_count w; lines := lines w; outside := outside w |}).

Definition set_errno (e : Z) : hook unit := fun w =>
  (tt, {| state := state w; clock := clock w; world_errno := e;
          g_rewrite_log_count := g_rewrite_log_count w; lines := lines w; outside := outside w |}).

(** Asks the system something. *)
Definition ask {A} (answer : nat -> A) : hook A := fun w =>
  (answer (clock w),
   {| state := state w; clock := S (clock w); world_errno := world_errno w;
      g_rewrite_log_count := g_rewrite_log_count w; lines := lines w; outside := outside w |}).

Context (g : Globals) (sys : System).

(** ** The thread and its caller *)

(** Whether there is a state for the thread; it is allocated at the first use. *)
Definition GetThreadState : hook bool :=
  if negb (g_thread_state_key_ready g) then mret false
  else
    present ← get_state;
    match present with
    | Some _ => mret true
    | None =>
        allocated ← ask (calloc_ok sys);
        if negb allocated then set_errno ENOMEM;; mret false
        else
          stored ← ask (setspecific_ok sys);
          if negb stored then mret false else set_state (Some fresh);; mret true
    end.

(** A change through the pointer [GetThreadState] returns, which does nothing when it is null. *)
Definition update (f : ThreadState -> ThreadState) : hook unit :=
  s ← get_state; set_state (f <$> s).

Definition on_identity (f : CallerUid.Context_ -> CallerUid.Context_) : hook unit :=
  present ← GetThreadState;
  if (present : bool) then update (fun t => {| in_path_hook := in_path_hook t; identity := f (identity t) |})
  else mret tt.

Definition RawCallingUid : hook Z :=
  if g_binder_get_calling_uid g then ask (binder_uid sys) else mret (-1).

Definition EffectiveCallingUid : hook Z :=
  present ← GetThreadState;
  raw ← RawCallingUid;
  s ← get_state;
  mret match (if (present : bool) then s else None) with
       | Some t => CallerUid.EffectiveCallerUid (identity t) raw (getuid sys)
       | None => CallerUid.caller_or_none raw (getuid sys)
       end.

Definition HookedClearCallingIdentity (original : hook Z) : hook Z :=
  present ← GetThreadState;
  raw ← RawCallingUid;
  (if (present : bool)
   then update (fun t => {| in_path_hook := in_path_hook t;
                            identity := CallerUid.BeginBinderIdentityClear raw (getuid sys) (identity t) |})
   else mret tt);;
  original.

Definition HookedRestoreCallingIdentity (original : Z -> hook unit) (token : Z) : hook unit :=
  original token;;
  on_identity CallerUid.EndBinderIdentityClear.

(** ** Paths *)

Definition set_in_path_hook (b : bool) : hook unit :=
  update (fun t => {| in_path_hook := b; identity := identity t |}).

(** The constructor of [HookGuard]: its [outer_]. *)
Definition enter : hook bool :=
  present ← GetThreadState;
  s ← get_state;
  let outer := present && negb (match s with Some t => in_path_hook t | None => false end) in
  (if outer then set_in_path_hook true else mret tt);;
  mret outer.

(** The scope of a [HookGuard], to its destructor. *)
Definition guarded {A} (body : bool -> hook A) : hook A :=
  outer ← enter;
  result ← body outer;
  (if (outer : bool) then set_in_path_hook false else mret tt);;
  mret result.

(** The directory a relative path starts from. [getcwd] and [readlink] are given [PATH_MAX]
    bytes; [readlink] cuts what does not fit. *)
Definition directory_of (dirfd : Z) : hook (option bytes) :=
  if dirfd =? AT_FDCWD then
    answer ← ask (getcwd sys);
    match answer with
    | inl d => if PATH_MAX <? size d + 1 then set_errno ERANGE;; mret None else mret (Some d)
    | inr e => set_errno e;; mret None
    end
  else
    answer ← ask (fun t => fd_path sys t dirfd);
    match answer with
    | inl d =>
        let directory := take (Z.to_nat (PATH_MAX - 1)) d in
        mret (if size directory <=? 0 then None else Some directory)
    | inr e => set_errno e;; mret None
    end.

Definition ResolveAtPath (dirfd : Z) (path : cpath) (capacity : Z) : hook (option bytes) :=
  match path with
  | None | Some [] => mret None
  | Some path =>
      if is_absolute path then mret (if capacity <? size path + 1 then None else Some path)
      else
        directory ← directory_of dirfd;
        mret (match directory with
              | None => None
              | Some directory =>
                  let output := directory ++ [x2f] ++ path in
                  if (0 <? size output) && (size output <? capacity) then Some output else None
              end)
  end.

(** The absolute path, the rewritten path and the uid of the caller. *)
Definition RewriteAtPath (dirfd : Z) (path : cpath) : hook (option (bytes * bytes * Z)) :=
  absolute ← ResolveAtPath dirfd path PATH_MAX;
  match absolute with
  | None => mret None
  | Some absolute =>
      if negb (MatchesVisiblePath (g_rules g) absolute) then mret None
      else
        uid ← EffectiveCallingUid;
        mret (match RewriteAbsolutePath (g_rules g) uid absolute PATH_MAX with
              | None => None
              | Some output => Some (absolute, output, uid)
              end)
  end.

Definition LogRewrite (operation : bytes) (uid : Z) (from to : bytes) : hook unit := fun w =>
  (tt, {| state := state w; clock := clock w; world_errno := world_errno w;
          g_rewrite_log_count := u32 (g_rewrite_log_count w + 1);
          lines := if 64 <=? g_rewrite_log_count w then lines w
                   else lines w ++ [{| l_operation := operation; l_uid := uid; l_from := from; l_to := to |}];
          outside := outside w |}).

Definition WithPath {A} (operation : bytes) (dirfd : Z) (path : cpath) (function : Z -> cpath -> hook A)
    : hook A :=
  if negb (g_hooks_enabled g) then function dirfd path
  else
    guarded (fun outer =>
      if negb outer || (path == None) then function dirfd path
      else
        found ← RewriteAtPath dirfd path;
        match found with
        | None => function dirfd path
        | Some (absolute, rewritten, uid) =>
            LogRewrite operation uid absolute rewritten;;
            function AT_FDCWD (Some rewritten)
        end).

(** What one of two paths becomes, and the line for it. *)
Definition changed_path (dirfd : Z) (path : cpath) (found : option (bytes * bytes * Z)) : Z * cpath :=
  match found with
  | Some (_, rewritten, _) => (AT_FDCWD, Some rewritten)
  | None => (dirfd, path)
  end.

Definition log_changed (operation : bytes) (uid : Z) (found : option (bytes * bytes * Z)) : hook unit :=
  match found with
  | Some (absolute, rewritten, _) => LogRewrite operation uid absolute rewritten
  | None => mret tt
  end.

Definition WithTwoPaths {A} (operation : bytes) (old_dirfd : Z) (old_path : cpath) (new_dirfd : Z)
    (new_path : cpath) (function : Z -> cpath -> Z -> cpath -> hook A) : hook A :=
  if negb (g_hooks_enabled g) then function old_dirfd old_path new_dirfd new_path
  else
    guarded (fun outer =>
      if negb outer || (old_path == None) || (new_path == None)
      then function old_dirfd old_path new_dirfd new_path
      else
        old ← RewriteAtPath old_dirfd old_path;
        new ← RewriteAtPath new_dirfd new_path;
        let uid := match old, new with
                   | Some (_, _, uid), _ | None, Some (_, _, uid) => uid
                   | None, None => -1
                   end in
        log_changed operation uid old;;
        log_changed operation uid new;;
        let '(final_old_dirfd, final_old) := changed_path old_dirfd old_path old in
        let '(final_new_dirfd, final_new) := changed_path new_dirfd new_path new in
        function final_old_dirfd final_old final_new_dirfd final_new).

(** ** The functions of libc

    Arguments other than the paths are numbers, addresses included. [realpath] gives the text
    at the pointer it returns; its second argument tells whether the caller passed a buffer. *)
Record Libc : Type := {
  g_open : cpath -> Z -> Z -> hook Z;
  g_open64 : cpath -> Z -> Z -> hook Z;
  g_openat : Z -> cpath -> Z -> Z -> hook Z;
  g_openat64 : Z -> cpath -> Z -> Z -> hook Z;
  g_stat : cpath -> Z -> hook Z;
  g_lstat : cpath -> Z -> hook Z;
  g_fstatat : Z -> cpath -> Z -> Z -> hook Z;
  g_stat64 : cpath -> Z -> hook Z;
  g_lstat64 : cpath -> Z -> hook Z;
  g_fstatat64 : Z -> cpath -> Z -> Z -> hook Z;
  g_access : cpath -> Z -> hook Z;
  g_faccessat : Z -> cpath -> Z -> Z -> hook Z;
  g_opendir : cpath -> hook Z;
  g_mkdir : cpath -> Z -> hook Z;
  g_mkdirat : Z -> cpath -> Z -> hook Z;
  g_unlink : cpath -> hook Z;
  g_unlinkat : Z -> cpath -> Z -> hook Z;
  g_remove : cpath -> hook Z;
  g_rmdir : cpath -> hook Z;
  g_rename : cpath -> cpath -> hook Z;
  g_renameat : Z -> cpath -> Z -> cpath -> hook Z;
  g_renameat2 : Z -> cpath -> Z -> cpath -> Z -> hook Z;
  g_readlink : cpath -> Z -> Z -> hook Z;
  g_realpath : cpath -> bool -> hook (option bytes);
  g_chmod : cpath -> Z -> hook Z;
  g_fchmodat : Z -> cpath -> Z -> Z -> hook Z;
  g_chown : cpath -> Z -> Z -> hook Z;
  g_lchown : cpath -> Z -> Z -> hook Z;
  g_fchownat : Z -> cpath -> Z -> Z -> Z -> hook Z;
  g_truncate : cpath -> Z -> hook Z;
  g_truncate64 : cpath -> Z -> hook Z;
  g_utimensat : Z -> cpath -> Z -> Z -> hook Z;
  g_statvfs : cpath -> Z -> hook Z;
  g_statvfs64 : cpath -> Z -> hook Z;
  g_inotify_add_watch : Z -> cpath -> Z -> hook Z;
}.

Context (libc : Libc).

Definition is_set (symbol : bytes) : bool := bool_decide (symbol ∈ g_originals g).

Definition HookedOpenCommon (original : option (cpath -> Z -> Z -> hook Z)) (operation : bytes) (path : cpath)
    (flags mode : Z) : hook Z :=
  match original with
  | None => set_errno ENOSYS;; mret (-1)
  | Some original => WithPath operation AT_FDCWD path (fun _ final_path => original final_path flags mode)
  end.

(** The optional argument, read only with [O_CREAT]. *)
Definition read_mode (flags argument : Z) : Z :=
  if negb (Z.land flags O_CREAT =? 0) then u32 argument else 0.

Definition HookedOpen (path : cpath) (flags argument : Z) : hook Z :=
  HookedOpenCommon (if is_set (lit "open") then Some (g_open libc) else None)
    (lit "open") path flags (read_mode flags argument).

Definition HookedOpen64 (path : cpath) (flags argument : Z) : hook Z :=
  HookedOpenCommon
    (if is_set (lit "open64") then Some (g_open64 libc)
     else if is_set (lit "open") then Some (g_open libc) else None)
    (lit "open64") path flags (read_mode flags argument).

Definition HookedOpenAtCommon (original : option (Z -> cpath -> Z -> Z -> hook Z)) (operation : bytes)
    (dirfd : Z) (path : cpath) (flags mode : Z) : hook Z :=
  match original with
  | None => set_errno ENOSYS;; mret (-1)
  | Some original =>
      WithPath operation dirfd path (fun final_dirfd final_path => original final_dirfd final_path flags mode)
  end.

Definition HookedOpenAt (dirfd : Z) (path : cpath) (flags argument : Z) : hook Z :=
  HookedOpenAtCommon (if is_set (lit "openat") then Some (g_openat libc) else None)
    (lit "openat") dirfd path flags (read_mode flags argument).

Definition HookedOpenAt64 (dirfd : Z) (path : cpath) (flags argument : Z) : hook Z :=
  HookedOpenAtCommon
    (if is_set (lit "openat64") then Some (g_openat64 libc)
     else if is_set (lit "openat") then Some (g_openat libc) else None)
    (lit "openat64") dirfd path flags (read_mode flags argument).

Definition HookedStat (path : cpath) (value : Z) : hook Z :=
  WithPath (lit "stat") AT_FDCWD path (fun _ final_path => g_stat libc final_path value).

Definition HookedLstat (path : cpath) (value : Z) : hook Z :=
  WithPath (lit "lstat") AT_FDCWD path (fun _ final_path => g_lstat libc final_path value).

Definition HookedFstatAt (dirfd : Z) (path : cpath) (value flags : Z) : hook Z :=
  WithPath (lit "fstatat") dirfd path
    (fun final_dirfd final_path => g_fstatat libc final_dirfd final_path value flags).

Definition HookedStat64 (path : cpath) (value : Z) : hook Z :=
  WithPath (lit "stat64") AT_FDCWD path (fun _ final_path => g_stat64 libc final_path value).

Definition HookedLstat64 (path : cpath) (value : Z) : hook Z :=
  WithPath (lit "lstat64") AT_FDCWD path (fun _ final_path => g_lstat64 libc final_path value).

Definition HookedFstatAt64 (dirfd : Z) (path : cpath) (value flags : Z) : hook Z :=
  WithPath (lit "fstatat64") dirfd path
    (fun final_dirfd final_path => g_fstatat64 libc final_dirfd final_path value flags).

Definition HookedAccess (path : cpath) (mode : Z) : hook Z :=
  WithPath (lit "access") AT_FDCWD path (fun _ final_path => g_access libc final_path mode).

Definition HookedFaccessAt (dirfd : Z) (path : cpath) (mode flags : Z) : hook Z :=
  WithPath (lit "faccessat") dirfd path
    (fun final_dirfd final_path => g_faccessat libc final_dirfd final_path mode flags).

Definition HookedOpenDir (path : cpath) : hook Z :=
  WithPath (lit "opendir") AT_FDCWD path (fun _ final_path => g_opendir libc final_path).

Definition HookedMkdir (path : cpath) (mode : Z) : hook Z :=
  WithPath (lit "mkdir") AT_FDCWD path (fun _ final_path => g_mkdir libc final_path mode).

Definition HookedMkdirAt (dirfd : Z) (path : cpath) (mode : Z) : hook Z :=
  WithPath (lit "mkdirat") dirfd path
    (fun final_dirfd final_path => g_mkdirat libc final_dirfd final_path mode).

Definition HookedUnlink (path : cpath) : hook Z :=
  WithPath (lit "unlink") AT_FDCWD path (fun _ final_path => g_unlink libc final_path).

Definition HookedUnlinkAt (dirfd : Z) (path : cpath) (flags : Z) : hook Z :=
  WithPath (lit "unlinkat") dirfd path
    (fun final_dirfd final_path => g_unlinkat libc final_dirfd final_path flags).

Definition HookedRemove (path : cpath) : hook Z :=
  WithPath (lit "remove") AT_FDCWD path (fun _ final_path => g_remove libc final_path).

Definition HookedRmdir (path : cpath) : hook Z :=
  WithPath (lit "rmdir") AT_FDCWD path (fun _ final_path => g_rmdir libc final_path).

Definition HookedRename (old_path new_path : cpath) : hook Z :=
  WithTwoPaths (lit "rename") AT_FDCWD old_path AT_FDCWD new_path
    (fun _ final_old _ final_new => g_rename libc final_old final_new).

Definition HookedRenameAt (old_dirfd : Z) (old_path : cpath) (new_dirfd : Z) (new_path : cpath) : hook Z :=
  WithTwoPaths (lit "renameat") old_dirfd old_path new_dirfd new_path (g_renameat libc).

Definition HookedRenameAt2 (old_dirfd : Z) (old_path : cpath) (new_dirfd : Z) (new_path : cpath) (flags : Z)
    : hook Z :=
  WithTwoPaths (lit "renameat2") old_dirfd old_path new_dirfd new_path
    (fun final_old_dirfd final_old final_new_dirfd final_new =>
       g_renameat2 libc final_old_dirfd final_old final_new_dirfd final_new flags).

Definition HookedReadlink (path : cpath) (buffer size : Z) : hook Z :=
  WithPath (lit "readlink") AT_FDCWD path (fun _ final_path => g_readlink libc final_path buffer size).

(** [HookedRealpath], from what [g_realpath] left in [canonical] on. *)
Definition restore_realpath (uid : Z) (absolute rewritten : bytes) (resolved : bool) (canonical : cpath)
    : hook (option bytes) :=
  match canonical with
  | None => mret None
  | Some canonical =>
      match RestoreAbsolutePath (g_rules g) uid canonical PATH_MAX with
      | None => set_errno EXDEV;; mret None
      | Some restored =>
          target ← (if resolved then mret true
                    else
                      allocated ← ask (malloc_ok sys);
                      (if (allocated : bool) then mret tt else set_errno ENOMEM);;
                      mret allocated);
          if negb target then mret None
          else LogRewrite (lit "realpath") uid absolute rewritten;; mret (Some restored)
      end
  end.

Definition HookedRealpath (path : cpath) (resolved : bool) : hook (option bytes) :=
  if negb (g_hooks_enabled g) then g_realpath libc path resolved
  else
    guarded (fun outer =>
      if negb outer || (path == None) then g_realpath libc path resolved
      else
        found ← RewriteAtPath AT_FDCWD path;
        match found with
        | None => g_realpath libc path resolved
        | Some (absolute, rewritten, uid) =>
            canonical ← g_realpath libc (Some rewritten) true;
            restore_realpath uid absolute rewritten resolved canonical
        end).

Definition HookedChmod (path : cpath) (mode : Z) : hook Z :=
  WithPath (lit "chmod") AT_FDCWD path (fun _ final_path => g_chmod libc final_path mode).

Definition HookedFchmodAt (dirfd : Z) (path : cpath) (mode flags : Z) : hook Z :=
  WithPath (lit "fchmodat") dirfd path
    (fun final_dirfd final_path => g_fchmodat libc final_dirfd final_path mode flags).

Definition HookedChown (path : cpath) (owner group : Z) : hook Z :=
  WithPath (lit "chown") AT_FDCWD path (fun _ final_path => g_chown libc final_path owner group).

Definition HookedLchown (path : cpath) (owner group : Z) : hook Z :=
  WithPath (lit "lchown") AT_FDCWD path (fun _ final_path => g_lchown libc final_path owner group).

Definition HookedFchownAt (dirfd : Z) (path : cpath) (owner group flags : Z) : hook Z :=
  WithPath (lit "fchownat") dirfd path
    (fun final_dirfd final_path => g_fchownat libc final_dirfd final_path owner group flags).

Definition HookedTruncate (path : cpath) (length : Z) : hook Z :=
  WithPath (lit "truncate") AT_FDCWD path (fun _ final_path => g_truncate libc final_path length).

Definition HookedTruncate64 (path : cpath) (length : Z) : hook Z :=
  WithPath (lit "truncate64") AT_FDCWD path (fun _ final_path => g_truncate64 libc final_path length).

Definition HookedUtimensAt (dirfd : Z) (path : cpath) (times flags : Z) : hook Z :=
  WithPath (lit "utimensat") dirfd path
    (fun final_dirfd final_path => g_utimensat libc final_dirfd final_path times flags).

Definition HookedStatVfs (path : cpath) (value : Z) : hook Z :=
  WithPath (lit "statvfs") AT_FDCWD path (fun _ final_path => g_statvfs libc final_path value).

Definition HookedStatVfs64 (path : cpath) (value : Z) : hook Z :=
  WithPath (lit "statvfs64") AT_FDCWD path (fun _ final_path => g_statvfs64 libc final_path value).

Definition HookedInotifyAddWatch (fd : Z) (path : cpath) (mask : Z) : hook Z :=
  WithPath (lit "inotify_add_watch") AT_FDCWD path
    (fun _ final_path => g_inotify_add_watch libc fd final_path mask).

(** ** Requests of FUSE

    A request is its address; the context of a request is the uid in it, [None] for null. *)
Record Fuse : Type := {
  g_fuse_req_userdata : Z -> hook Z;
  g_fuse_req_context : option (Z -> hook (option Z));
  g_fuse_reply_err : Z -> Z -> hook Z;
  g_fuse_reply_entry : Z -> Z -> hook Z;
  g_fuse_reply_attr : Z -> Z -> Z -> hook Z;
  g_fuse_reply_open : Z -> Z -> hook Z;
  g_fuse_reply_write : Z -> Z -> hook Z;
  g_fuse_reply_buffer : Z -> Z -> Z -> hook Z;
  g_fuse_reply_data : Z -> Z -> Z -> hook Z;
  g_fuse_reply_statvfs : Z -> Z -> hook Z;
  g_fuse_reply_create : Z -> Z -> Z -> hook Z;
  g_fuse_reply_none : Z -> hook unit;
}.

Context (fuse : Fuse).

Definition CaptureFuseRequest (request : Z) (context : option Z) : hook unit :=
  match context with
  | None => mret tt
  | Some uid => on_identity (CallerUid.BeginFuseRequest request (int32 uid) (getuid sys))
  end.

Definition HookedFuseReqUserdata (request : Z) : hook Z :=
  userdata ← g_fuse_req_userdata fuse request;
  (match g_fuse_req_context fuse with
   | None => mret tt
   | Some original => context ← original request; CaptureFuseRequest request context
   end);;
  mret userdata.

Definition HookedFuseReqContext (original : Z -> hook (option Z)) (request : Z) : hook (option Z) :=
  context ← original request;
  CaptureFuseRequest request context;;
  mret context.

Definition FinishFuseRequest (request : Z) : hook unit := on_identity (CallerUid.EndFuseRequest request).

Definition HookedFuseReplyErr (request error : Z) : hook Z :=
  result ← g_fuse_reply_err fuse request error;
  FinishFuseRequest request;;
  mret result.

Definition HookedFuseReplyEntry (request entry : Z) : hook Z :=
  result ← g_fuse_reply_entry fuse request entry;
  FinishFuseRequest request;;
  mret result.

Definition HookedFuseReplyAttr (request value timeout : Z) : hook Z :=
  result ← g_fuse_reply_attr fuse request value timeout;
  FinishFuseRequest request;;
  mret result.

Definition HookedFuseReplyOpen (request file_info : Z) : hook Z :=
  result ← g_fuse_reply_open fuse request file_info;
  FinishFuseRequest request;;
  mret result.

Definition HookedFuseReplyWrite (request count : Z) : hook Z :=
  result ← g_fuse_reply_write fuse request count;
  FinishFuseRequest request;;
  mret result.

Definition HookedFuseReplyBuffer (request buffer size : Z) : hook Z :=
  result ← g_fuse_reply_buffer fuse request buffer size;
  FinishFuseRequest request;;
  mret result.

Definition HookedFuseReplyData (request buffer flags : Z) : hook Z :=
  result ← g_fuse_reply_data fuse request buffer flags;
  FinishFuseRequest request;;
  mret result.

Definition HookedFuseReplyStatVfs (request value : Z) : hook Z :=
  result ← g_fuse_reply_statvfs fuse request value;
  FinishFuseRequest request;;
  mret result.

Definition HookedFuseReplyCreate (request entry file_info : Z) : hook Z :=
  result ← g_fuse_reply_create fuse request entry file_info;
  FinishFuseRequest request;;
  mret result.

Definition HookedFuseReplyNone (request : Z) : hook unit :=
  g_fuse_reply_none fuse request;;
  FinishFuseRequest request.
End Hook.

Arguments World : clear implicits.
Arguments hook : clear implicits.
Arguments Libc : clear implicits.
Arguments Fuse : clear implicits.

(** ** Reference notions *)

Section Reference.
Context {R : Type} (g : Globals) (sys : System).

(** The state of the thread, from its first use. *)
Definition current (w : World R) : option ThreadState :=
  if g_thread_state_key_ready g then
    match state w with
    | Some t => Some t
    | None => if calloc_ok sys (clock w) && setspecific_ok sys (S (clock w)) then Some fresh else None
    end
  else None.

(** Where a relative path starts. *)
Definition place (moment : nat) (dirfd : Z) : bytes + Z :=
  if dirfd =? AT_FDCWD then getcwd sys moment else fd_path sys moment dirfd.

(** The absolute path a call means by [path]. *)
Inductive denotes (moment : nat) (dirfd : Z) : bytes -> bytes -> Prop :=
  | denotes_absolute path : is_absolute path = true -> size path < PATH_MAX -> denotes moment dirfd path path
  | denotes_relative directory path :
      path <> [] -> is_absolute path = false -> place moment dirfd = inl directory ->
      (directory = [] -> dirfd = AT_FDCWD) -> size (directory ++ [x2f] ++ path) < PATH_MAX ->
      denotes moment dirfd path (directory ++ [x2f] ++ path).

(** The caller of the thread, when Binder is asked at a moment. *)
Definition caller_at (t : ThreadState) (moment : nat) : Z :=
  CallerUid.EffectiveCallerUid (identity t)
    (if g_binder_get_calling_uid g then binder_uid sys moment else -1) (getuid sys).

(** What the kernel may have changed and the thread not noticed: the clock and [errno]. *)
Definition quiet (w w' : World R) : Prop := state w' = state w /\ outside w' = outside w.

Definition release (w : World R) : World R := snd (set_in_path_hook false w).
End Reference.

(** The longest rule of the caller that covers the path moves it. *)
Definition redirected (rules : list PathRule) (caller : Z) (path out : bytes) : Prop :=
  let covering r root tail := caller_uid r = caller /\ covers (visible_path r) (user_id r) path root tail in
  10000 <= caller
  /\ (forall r root tail, r ∈ rules -> covering r root tail -> safe_components tail)
  /\ exists before r after root tail,
       rules = before ++ r :: after /\ covering r root tail
       /\ Forall (fun r' => forall root' tail', covering r' root' tail' ->
                    size (visible_path r') < size (visible_path r)) before
       /\ Forall (fun r' => forall root' tail', covering r' root' tail' ->
                    size (visible_path r') <= size (visible_path r)) after
       /\ out = root ++ backing_path r ++ tail /\ out <> path /\ size out < PATH_MAX.

(** ** Lemmas *)

Lemma redirected_iff rules caller path out :
  Forall rule_ok rules ->
  RewriteAbsolutePath rules caller path PATH_MAX = Some out <-> redirected rules caller path out.
Proof. intros Hok. by apply rewrite_longest_match. Qed.

Lemma redirected_covers rules caller path out :
  redirected rules caller path out ->
  exists r root tail, r ∈ rules /\ covers (visible_path r) (user_id r) path root tail /\ safe_components tail.
Proof.
  intros (_ & Hsafe & before & r & after & root & tail & -> & Hcov & _).
  exists r, root, tail. assert (r ∈ before ++ r :: after) as Hin by (apply elem_of_app; right; by left).
  split_and!; [done|apply Hcov|by eapply Hsafe].
Qed.

(** The test of the visible paths loses no rewriting. *)
Lemma redirected_visible rules caller path out :
  Forall rule_ok rules -> redirected rules caller path out -> MatchesVisiblePath rules path = true.
Proof.
  intros Hok (r & root & tail & Hin & (Hroot & -> & Ht) & Hsafe)%redirected_covers.
  rewrite Forall_forall in Hok. specialize (Hok r Hin). unfold MatchesVisiblePath. apply andb_true_iff. split.
  - unfold is_absolute. unfold logical_roots in Hroot. rewrite !elem_of_cons, elem_of_nil in Hroot.
    by destruct Hroot as [->|[->|[->|[]]]].
  - apply existsb_exists. exists r. split; [by apply list_elem_of_In|].
    assert (LogicalSuffix (root ++ visible_path r ++ tail) (user_id r) kRootCapacity
            = Some (root, visible_path r ++ tail)) as -> by (by apply LogicalSuffix_spec).
    assert (MatchesLogicalPath (visible_path r ++ tail) (visible_path r) = Some tail) as ->
      by (by apply MatchesLogicalPath_spec).
    by apply HasSafeTail_spec.
Qed.

Section Calls.
Context {R : Type} (g : Globals) (sys : System).
Implicit Types (w : World R) (t : ThreadState).

Lemma GetThreadState_current w t :
  current g sys w = Some t ->
  exists w1, GetThreadState g sys w = (true, w1) /\ state w1 = Some t /\ outside w1 = outside w
    /\ g_thread_state_key_ready g = true.
Proof.
  unfold current, GetThreadState. destruct (g_thread_state_key_ready g); [|done]. cbn [negb].
  unfold mbind, hook_bind, get_state, ask, set_state, mret, hook_ret.
  destruct (state w) as [t0|] eqn:E; [intros [= ->]; by exists w|].
  destruct (calloc_ok sys (clock w)); [|done]. cbn [andb negb clock].
  destruct (setspecific_ok sys (S (clock w))); [|done]. cbn [negb]. intros [= <-]. by eexists.
Qed.

Lemma GetThreadState_ready w t :
  g_thread_state_key_ready g = true -> state w = Some t -> GetThreadState g sys w = (true, w).
Proof.
  intros Hk E. unfold GetThreadState. rewrite Hk. cbn [negb].
  unfold mbind, hook_bind, get_state, mret, hook_ret. by rewrite E.
Qed.

Lemma enter_outer w t :
  current g sys w = Some t -> in_path_hook t = false ->
  exists w1, enter g sys w = (true, w1) /\ outside w1 = outside w /\ g_thread_state_key_ready g = true
    /\ state w1 = Some {| in_path_hook := true; identity := identity t |}.
Proof.
  intros (w1 & E & Es & Eo & Hk)%GetThreadState_current Hn. unfold enter.
  unfold mbind, hook_bind, get_state, mret, hook_ret. rewrite E, Es, Hn. cbn [andb negb].
  unfold set_in_path_hook, update, mbind, hook_bind, get_state, set_state. rewrite Es. cbn. by eexists.
Qed.

Lemma enter_inner w t :
  g_thread_state_key_ready g = true -> state w = Some t -> in_path_hook t = true -> enter g sys w = (false, w).
Proof.
  intros Hk E Hn. unfold enter. unfold mbind, hook_bind, get_state, mret, hook_ret.
  rewrite (GetThreadState_ready w t Hk E), E, Hn. done.
Qed.

Lemma directory_of_spec dirfd w :
  exists found w1, directory_of sys dirfd w = (found, w1) /\ quiet w w1
    /\ forall path abs, path <> [] -> is_absolute path = false ->
         denotes sys (clock w) dirfd path abs
         <-> exists d, found = Some d /\ abs = d ++ [x2f] ++ path /\ size abs < PATH_MAX.
Proof.
  assert (forall path abs, path <> [] -> is_absolute path = false ->
            denotes sys (clock w) dirfd path abs
            <-> exists d, place sys (clock w) dirfd = inl d /\ (d = [] -> dirfd = AT_FDCWD)
                          /\ abs = d ++ [x2f] ++ path /\ size abs < PATH_MAX) as Hden.
  { intros path abs Hp Ha. split.
    - inversion 1; simplify_eq; [congruence|by eexists].
    - intros (d & E & Hd & -> & Hs). by constructor. }
  assert (forall d path, size (d ++ [x2f] ++ path) = size d + 1 + size path) as Hsz
    by (intros; rewrite !size_app; unfold size; cbn [length]; lia).
  unfold directory_of, place in *. unfold mbind, hook_bind, ask, mret, hook_ret.
  destruct (Z.eqb_spec dirfd AT_FDCWD) as [->|Hfd].
  - destruct (getcwd sys (clock w)) as [d|e].
    + destruct (Z.ltb_spec PATH_MAX (size d + 1)) as [Hl|Hl]; (eexists _, _; split; [reflexivity|split; [done|]]);
        intros path abs Hp Ha; rewrite Hden by done; split.
      * intros (d' & [= <-] & _ & -> & Hs). rewrite Hsz in Hs. pose proof (size_nonneg path). lia.
      * by intros (? & ? & _).
      * intros (d' & [= <-] & _ & -> & Hs). by exists d.
      * intros (d' & [= <-] & -> & Hs). by exists d.
    + eexists _, _. split; [reflexivity|split; [done|]]. intros path abs Hp Ha. rewrite Hden by done. split.
      * by intros (? & ? & _).
      * by intros (? & ? & _).
  - destruct (fd_path sys (clock w) dirfd) as [d|e].
    + eexists _, _. split; [reflexivity|split; [done|]]. intros path abs Hp Ha. rewrite Hden by done. split.
      * intros (d' & [= <-] & Hd & -> & Hs). rewrite Hsz in Hs. pose proof (size_nonneg path).
        rewrite take_ge by (unfold size, PATH_MAX in *; lia).
        destruct (Z.leb_spec (size d) 0) as [H0|H0]; [|exists d; by rewrite Hsz].
        exfalso. apply Hfd, Hd. destruct d; [done|]. unfold size in H0. cbn [length] in H0. lia.
      * destruct (Z.leb_spec (size (take (Z.to_nat (PATH_MAX - 1)) d)) 0) as [H0|H0]; [by intros (? & ? & _)|].
        intros (d' & [= <-] & -> & Hs). rewrite Hsz in Hs.
        assert (size path <> 0) by (destruct path; [done|]; unfold size; cbn [length]; lia).
        assert (length d < Z.to_nat (PATH_MAX - 1))%nat as Hlen.
        { unfold size in Hs. rewrite length_take in Hs. unfold PATH_MAX in *. lia. }
        rewrite take_ge in * by lia. exists d. split_and!; try done; [|by rewrite Hsz].
        intros ->. unfold size in H0. cbn in H0. lia.
    + eexists _, _. split; [reflexivity|split; [done|]]. intros path abs Hp Ha. rewrite Hden by done. split.
      * by intros (? & ? & _).
      * by intros (? & ? & _).
Qed.

Lemma ResolveAtPath_spec dirfd path w :
  exists found w1, ResolveAtPath sys dirfd (Some path) PATH_MAX w = (found, w1) /\ quiet w w1
    /\ forall abs, found = Some abs <-> denotes sys (clock w) dirfd path abs.
Proof.
  destruct path as [|b path'].
  { eexists _, _. split; [reflexivity|split; [done|]]. intros abs. split; [done|]. by inversion 1. }
  set (path := b :: path'). unfold ResolveAtPath. fold path. cbv beta iota. unfold path at 1.
  destruct (is_absolute path) eqn:Ea.
  - unfold mret, hook_ret. eexists _, _. split; [reflexivity|split; [done|]]. intros abs.
    assert (denotes sys (clock w) dirfd path abs <-> abs = path /\ size path < PATH_MAX) as ->.
    { split; [subst path; inversion 1; simplify_eq; [done|congruence]|intros [-> ?]; by constructor]. }
    destruct (Z.ltb_spec PATH_MAX (size path + 1)) as [Hl|Hl]; split.
    + done.
    + intros [_ ?]. lia.
    + intros [= <-]. split; [done|lia].
    + by intros [-> _].
  - destruct (directory_of_spec dirfd w) as (found & w1 & E & Hq & Hd).
    unfold mbind, hook_bind. rewrite E. unfold mret, hook_ret. eexists _, _. split; [reflexivity|split; [done|]].
    intros abs. rewrite (Hd path abs) by done. destruct found as [d|]; [|by split; [|intros (? & ? & _)]].
    assert (0 < size (d ++ [x2f] ++ path)) as Hpos by (rewrite !size_app; unfold size; cbn [length]; lia).
    destruct (Z.ltb_spec 0 (size (d ++ [x2f] ++ path))); [|lia]. cbn [andb].
    destruct (Z.ltb_spec (size (d ++ [x2f] ++ path)) PATH_MAX); split.
    + intros [= <-]. by exists d.
    + by intros (? & [= <-] & -> & _).
    + done.
    + intros (? & [= <-] & -> & ?). lia.
Qed.

Lemma quiet_trans w1 w2 w3 : quiet w1 w2 -> quiet w2 w3 -> quiet w1 w3.
Proof. unfold quiet. intros [-> ->] [-> ->]. done. Qed.

Lemma EffectiveCallingUid_spec w t :
  g_thread_state_key_ready g = true -> state w = Some t ->
  exists moment w1, EffectiveCallingUid g sys w = (caller_at g sys t moment, w1) /\ quiet w w1.
Proof.
  intros Hk Hs. unfold EffectiveCallingUid. unfold mbind, hook_bind, mret, hook_ret.
  rewrite (GetThreadState_ready w t Hk Hs). unfold RawCallingUid, caller_at, ask, get_state.
  exists (clock w). destruct (g_binder_get_calling_uid g); cbn; rewrite Hs; by eexists.
Qed.

(** [RewriteAtPath] finds the redirected path of the caller, and asks Binder at some moment. *)
Lemma RewriteAtPath_spec dirfd path w t :
  g_thread_state_key_ready g = true -> Forall rule_ok (g_rules g) -> state w = Some t ->
  exists moment found w1, RewriteAtPath g sys dirfd (Some path) w = (found, w1) /\ quiet w w1
    /\ forall abs out uid, found = Some (abs, out, uid)
         <-> denotes sys (clock w) dirfd path abs /\ redirected (g_rules g) (caller_at g sys t moment) abs out
             /\ uid = caller_at g sys t moment.
Proof.
  intros Hk Hok Hs. destruct (ResolveAtPath_spec dirfd path w) as (abs & w1 & E & Hq & Habs).
  unfold RewriteAtPath. unfold mbind, hook_bind, mret, hook_ret. rewrite E.
  destruct abs as [abs|].
  2:{ exists 0%nat, None, w1. split_and!; [done..|]. intros a o u. split; [done|].
      intros (Hd & _). by apply Habs in Hd. }
  assert (denotes sys (clock w) dirfd path abs) as Hden by (by apply Habs).
  assert (forall a, denotes sys (clock w) dirfd path a -> a = abs) as Huniq
    by (intros a Ha; apply Habs in Ha; congruence).
  destruct (MatchesVisiblePath (g_rules g) abs) eqn:Em; cbn [negb].
  2:{ exists 0%nat, None, w1. split_and!; [done..|]. intros a o u. split; [done|].
      intros (Hd & Hr & _). apply Huniq in Hd as ->. by rewrite (redirected_visible _ _ _ _ Hok Hr) in Em. }
  assert (state w1 = Some t) as Hs1 by (rewrite (proj1 Hq); done).
  destruct (EffectiveCallingUid_spec w1 t Hk Hs1) as (moment & w2 & E2 & Hq2). rewrite E2.
  exists moment. eexists _, w2. split; [reflexivity|]. split; [by eapply quiet_trans|].
  intros a o u. split.
  - destruct (RewriteAbsolutePath _ _ _ _) as [out|] eqn:Er; [|done]. intros [= <- <- <-].
    apply redirected_iff in Er; [|done]. by split_and!.
  - intros (Hd & Hr & ->). apply Huniq in Hd as ->. apply redirected_iff in Hr; [|done]. by rewrite Hr.
Qed.

(** A replacement that runs outside of any other: the body runs in the guarded state. *)
Lemma guarded_outer {A} (body : bool -> hook R A) w t :
  current g sys w = Some t -> in_path_hook t = false ->
  exists w1, state w1 = Some {| in_path_hook := true; identity := identity t |} /\ outside w1 = outside w
    /\ g_thread_state_key_ready g = true
    /\ guarded g sys body w = let '(r, w2) := body true w1 in (r, release w2).
Proof.
  intros Hc Hn. destruct (enter_outer w t Hc Hn) as (w1 & E & Eo & Hk & Es).
  exists w1. split_and!; [done..|]. unfold guarded. unfold mbind, hook_bind, mret, hook_ret. rewrite E.
  destruct (body true w1) as [r w2]. unfold release. by destruct (set_in_path_hook false w2).
Qed.

Lemma guarded_inner {A} (body : bool -> hook R A) w t :
  g_thread_state_key_ready g = true -> state w = Some t -> in_path_hook t = true ->
  guarded g sys body w = body false w.
Proof.
  intros Hk Hs Hn. unfold guarded. unfold mbind, hook_bind, mret, hook_ret.
  rewrite (enter_inner w t Hk Hs Hn). by destruct (body false w).
Qed.

(** The calls that are left alone: hooks that are not enabled, or that run inside another. *)
Definition passive (w : World R) : Prop :=
  g_hooks_enabled g = false
  \/ g_thread_state_key_ready g = true /\ exists t, state w = Some t /\ in_path_hook t = true.

Lemma WithPath_passive {A} operation dirfd path (function : Z -> cpath -> hook R A) w :
  passive w -> WithPath g sys operation dirfd path function w = function dirfd path w.
Proof.
  intros [Hd|(Hk & t & Hs & Hn)]; unfold WithPath; [by rewrite Hd|].
  destruct (g_hooks_enabled g); [|done]. cbn [negb]. by rewrite (guarded_inner _ w t Hk Hs Hn).
Qed.

Lemma WithTwoPaths_passive {A} operation old_dirfd old_path new_dirfd new_path
    (function : Z -> cpath -> Z -> cpath -> hook R A) w :
  passive w ->
  WithTwoPaths g sys operation old_dirfd old_path new_dirfd new_path function w
  = function old_dirfd old_path new_dirfd new_path w.
Proof.
  intros [Hd|(Hk & t & Hs & Hn)]; unfold WithTwoPaths; [by rewrite Hd|].
  destruct (g_hooks_enabled g); [|done]. cbn [negb]. by rewrite (guarded_inner _ w t Hk Hs Hn).
Qed.

(** What a path argument becomes: moved when it is redirected for the caller, else left. *)
Definition argument_becomes (asked heard : nat) (t : ThreadState) (dirfd : Z) (path : cpath)
    (dirfd' : Z) (path' : cpath) : Prop :=
  let moves abs out := exists p, path = Some p /\ denotes sys asked dirfd p abs
                       /\ redirected (g_rules g) (caller_at g sys t heard) abs out in
  (forall abs out, moves abs out -> dirfd' = AT_FDCWD /\ path' = Some out)
  /\ ((forall abs out, ~ moves abs out) -> dirfd' = dirfd /\ path' = path).

Lemma argument_null asked heard t dirfd : argument_becomes asked heard t dirfd None dirfd None.
Proof. split; [|done]. by intros abs out (? & ? & _). Qed.

Lemma changed_path_becomes dirfd path asked heard t found :
  (forall abs out uid, found = Some (abs, out, uid)
     <-> denotes sys asked dirfd path abs /\ redirected (g_rules g) (caller_at g sys t heard) abs out
         /\ uid = caller_at g sys t heard) ->
  let '(dirfd', path') := changed_path dirfd (Some path) found in
  argument_becomes asked heard t dirfd (Some path) dirfd' path'.
Proof.
  intros H. unfold changed_path, argument_becomes. destruct found as [[[abs out] uid]|]; split.
  - intros abs' out' (p & [= <-] & Hd & Hr). assert (Some (abs, out, uid) = Some (abs', out', caller_at g sys t heard)) as E
      by (by apply H). by injection E as -> -> ->.
  - intros Hn. exfalso. apply (Hn abs out). exists path.
    by destruct (proj1 (H abs out uid) eq_refl) as (? & ? & _).
  - intros abs out (p & [= <-] & Hd & Hr).
    assert (None = Some (abs, out, caller_at g sys t heard)) as E by (by apply H). done.
  - done.
Qed.

Lemma log_changed_quiet operation uid found w : exists w', log_changed operation uid found w = (tt, w') /\ quiet w w'.
Proof. destruct found as [[[abs out] u]|]; by eexists. Qed.

Lemma on_identity_ready f w t :
  g_thread_state_key_ready g = true -> state w = Some t ->
  on_identity g sys f w
  = (tt, snd (set_state (Some {| in_path_hook := in_path_hook t; identity := f (identity t) |}) w)).
Proof.
  intros Hk Hs. unfold on_identity. unfold mbind, hook_bind. rewrite (GetThreadState_ready w t Hk Hs).
  unfold update, mbind, hook_bind, get_state. by rewrite Hs.
Qed.
End Calls.

Section Realpath.
Context {R : Type} (g : Globals) (sys : System) (libc : Libc R).
Implicit Types (w : World R) (t : ThreadState).

Lemma restore_realpath_Some caller absolute rewritten resolved canonical w v :
  fst (restore_realpath g sys caller absolute rewritten resolved canonical w) = Some v ->
  exists c, canonical = Some c /\ RestoreAbsolutePath (g_rules g) caller c PATH_MAX = Some v.
Proof.
  destruct canonical as [c|]; [|done]. cbn [restore_realpath].
  destruct (RestoreAbsolutePath _ _ _ _) as [v'|] eqn:Er; [|done]. intros E. exists c. split; [done|].
  unfold mbind, hook_bind, mret, hook_ret, ask, LogRewrite, set_errno in E. destruct resolved; cbn in E; [congruence|].
  by destruct (malloc_ok sys (clock w)); cbn in E; [congruence|].
Qed.

Lemma restore_realpath_ok caller absolute rewritten resolved c v w :
  RestoreAbsolutePath (g_rules g) caller c PATH_MAX = Some v ->
  resolved = true \/ (forall moment, malloc_ok sys moment = true) ->
  fst (restore_realpath g sys caller absolute rewritten resolved (Some c) w) = Some v.
Proof.
  intros E Hm. cbn [restore_realpath]. rewrite E. unfold mbind, hook_bind, mret, hook_ret, ask, LogRewrite, set_errno.
  destruct resolved; [done|]. destruct Hm as [|Hm]; [done|]. by rewrite Hm.
Qed.

Context (caller : Z) (t : ThreadState) (path absolute out : bytes).
Context (Henabled : g_hooks_enabled g = true) (Hrules : Forall rule_ok (g_rules g)).
Context (Hcaller : forall moment, caller_at g sys t moment = caller).
Context (Hpath : forall moment, denotes sys moment AT_FDCWD path absolute).
Context (Hout : redirected (g_rules g) caller absolute out).

(** [realpath] of a redirected path asks libc about where it is, and translates the answer. *)
Lemma HookedRealpath_redirected resolved w :
  current g sys w = Some t -> in_path_hook t = false ->
  exists w1, state w1 = Some {| in_path_hook := true; identity := identity t |} /\ outside w1 = outside w
    /\ fst (HookedRealpath g sys libc (Some path) resolved w)
       = let '(canonical, w2) := g_realpath libc (Some out) true w1 in
         fst (restore_realpath g sys caller absolute out resolved canonical w2).
Proof.
  intros Hc Hn. unfold HookedRealpath. rewrite Henabled. cbn [negb].
  set (body := fun outer : bool => _). destruct (guarded_outer g sys body w t Hc Hn) as (w1 & Hs1 & Ho1 & Hk & ->).
  subst body. cbn [negb orb]. rewrite bool_decide_eq_false_2 by done.
  destruct (RewriteAtPath_spec g sys AT_FDCWD path w1 _ Hk Hrules Hs1) as (moment & found & w2 & E & [Hs2 Ho2] & Hf).
  assert (found = Some (absolute, out, caller)) as ->.
  { apply Hf. unfold caller_at in *. cbn [identity] in *. rewrite Hcaller. by split_and!. }
  unfold mbind, hook_bind. rewrite E. exists w2. split_and!; [congruence|congruence|].
  destruct (g_realpath libc (Some out) true w2) as [canonical w3].
  by destruct (restore_realpath _ _ _ _ _ _ _ w3).
Qed.
End Realpath.

(** ** Properties *)

(** C22. A replacement calls libc once, with the path the caller means by it: the rule that
    the mapper selects for the caller moves the absolute path the arguments denote, and
    arguments that no rule moves are passed as they came. While libc runs the thread is marked,
    and the mark is gone afterwards. *)
Theorem hooked_call_exact {R A} (g : Globals) (sys : System) operation dirfd path
    (function : Z -> cpath -> hook R A) (w : World R) t :
  g_hooks_enabled g = true -> Forall rule_ok (g_rules g) ->
  current g sys w = Some t -> in_path_hook t = false ->
  exists asked heard dirfd' path' w1,
    argument_becomes g sys asked heard t dirfd path dirfd' path'
    /\ state w1 = Some {| in_path_hook := true; identity := identity t |} /\ outside w1 = outside w
    /\ WithPath g sys operation dirfd path function w
       = let '(result, w2) := function dirfd' path' w1 in (result, release w2).
Proof.
  intros He Hr Hc Hn. unfold WithPath. rewrite He. cbn [negb].
  set (body := fun outer : bool => _). destruct (guarded_outer g sys body w t Hc Hn) as (w1 & Hs1 & Ho1 & Hk & ->).
  subst body. cbn [negb orb]. destruct path as [path|].
  2:{ rewrite bool_decide_eq_true_2 by done. exists 0%nat, 0%nat, dirfd, None, w1. split_and!; try done.
      apply argument_null. }
  rewrite bool_decide_eq_false_2 by done.
  destruct (RewriteAtPath_spec g sys dirfd path w1 _ Hk Hr Hs1) as (heard & found & w2 & E & [Hs2 Ho2] & Hf).
  unfold mbind, hook_bind. rewrite E. pose proof (changed_path_becomes g sys dirfd path (clock w1) heard t found Hf) as Hb.
  destruct found as [[[absolute rewritten] uid]|]; cbn [changed_path] in Hb.
  - exists (clock w1), heard. eexists _, _, (snd (LogRewrite operation uid absolute rewritten w2)).
    split; [exact Hb|]. cbn [snd LogRewrite state outside]. split_and!; [congruence|congruence|done].
  - exists (clock w1), heard, dirfd, (Some path), w2. split_and!; [exact Hb|congruence|congruence|done].
Qed.

(** Renaming moves each of the two paths as a call with one path would. *)
Theorem hooked_rename_exact {R A} (g : Globals) (sys : System) operation old_dirfd old_path new_dirfd new_path
    (function : Z -> cpath -> Z -> cpath -> hook R A) (w : World R) t :
  g_hooks_enabled g = true -> Forall rule_ok (g_rules g) ->
  current g sys w = Some t -> in_path_hook t = false -> old_path <> None -> new_path <> None ->
  exists asked heard asked' heard' old_dirfd' old_path' new_dirfd' new_path' w1,
    argument_becomes g sys asked heard t old_dirfd old_path old_dirfd' old_path'
    /\ argument_becomes g sys asked' heard' t new_dirfd new_path new_dirfd' new_path'
    /\ state w1 = Some {| in_path_hook := true; identity := identity t |} /\ outside w1 = outside w
    /\ WithTwoPaths g sys operation old_dirfd old_path new_dirfd new_path function w
       = let '(result, w2) := function old_dirfd' old_path' new_dirfd' new_path' w1 in (result, release w2).
Proof.
  intros He Hr Hc Hn Hold Hnew. destruct old_path as [old|]; [|done]. destruct new_path as [new|]; [|done].
  unfold WithTwoPaths. rewrite He. cbn [negb].
  set (body := fun outer : bool => _). destruct (guarded_outer g sys body w t Hc Hn) as (w1 & Hs1 & Ho1 & Hk & ->).
  subst body. cbn [negb orb]. rewrite !bool_decide_eq_false_2 by done. cbn [orb].
  destruct (RewriteAtPath_spec g sys old_dirfd old w1 _ Hk Hr Hs1) as (heard & f1 & w2 & E & [Hs2 Ho2] & Hf).
  assert (state w2 = Some {| in_path_hook := true; identity := identity t |}) as Hs2' by congruence.
  destruct (RewriteAtPath_spec g sys new_dirfd new w2 _ Hk Hr Hs2') as (heard' & f2 & w3 & E' & [Hs3 Ho3] & Hf').
  unfold mbind, hook_bind. rewrite E, E'.
  pose proof (changed_path_becomes g sys old_dirfd old (clock w1) heard t f1 Hf) as Hb.
  pose proof (changed_path_becomes g sys new_dirfd new (clock w2) heard' t f2 Hf') as Hb'.
  match goal with |- context [log_changed operation ?u f1] => set (uid := u) end.
  destruct (log_changed_quiet operation uid f1 w3) as (w4 & E4 & Hs4 & Ho4).
  destruct (log_changed_quiet operation uid f2 w4) as (w5 & E5 & Hs5 & Ho5).
  rewrite E4, E5. destruct (changed_path old_dirfd (Some old) f1) as [d1 p1], (changed_path new_dirfd (Some new) f2) as [d2 p2].
  exists (clock w1), heard, (clock w2), heard', d1, p1, d2, p2, w5. split_and!; [done|done|congruence|congruence|done].
Qed.

(** What libc does inside a replacement, or before the hooks are enabled, is left alone:
    every replacement then is the original. *)
Theorem nested_calls_are_transparent {R A} (g : Globals) (sys : System) (libc : Libc R) operation dirfd path
    new_dirfd new_path (one : Z -> cpath -> hook R A) (two : Z -> cpath -> Z -> cpath -> hook R A) resolved w :
  passive g w ->
  WithPath g sys operation dirfd path one w = one dirfd path w
  /\ WithTwoPaths g sys operation dirfd path new_dirfd new_path two w = two dirfd path new_dirfd new_path w
  /\ HookedRealpath g sys libc path resolved w = g_realpath libc path resolved w.
Proof.
  intros Hp. split_and!; [by apply WithPath_passive|by apply WithTwoPaths_passive|].
  unfold HookedRealpath. destruct Hp as [Hd|(Hk & t & Hs & Hn)]; [by rewrite Hd|].
  destruct (g_hooks_enabled g); [|done]. cbn [negb]. by rewrite (guarded_inner _ _ _ w t Hk Hs Hn).
Qed.

(** [realpath] of a redirected path never tells where the files are kept: what it
    returns is the translation of libc's answer to the visible path of a rule of the caller. *)
Theorem realpath_hides_backing {R} (g : Globals) (sys : System) (libc : Libc R) caller t path absolute out
    resolved (w : World R) answer :
  g_hooks_enabled g = true -> Forall rule_ok (g_rules g) ->
  (forall moment, caller_at g sys t moment = caller) ->
  (forall moment, denotes sys moment AT_FDCWD path absolute) ->
  redirected (g_rules g) caller absolute out ->
  current g sys w = Some t -> in_path_hook t = false ->
  fst (HookedRealpath g sys libc (Some path) resolved w) = Some answer ->
  exists w1 w2 canonical r root tail,
    g_realpath libc (Some out) true w1 = (Some canonical, w2)
    /\ r ∈ g_rules g /\ caller_uid r = caller /\ covers (backing_path r) (user_id r) canonical root tail
    /\ safe_components tail /\ answer = root ++ visible_path r ++ tail /\ answer <> canonical
    /\ size answer < PATH_MAX.
Proof.
  intros He Hr Hca Hp Ho Hc Hn H.
  destruct (HookedRealpath_redirected g sys libc caller t path absolute out He Hr Hca Hp Ho resolved w Hc Hn)
    as (w1 & _ & _ & E).
  rewrite E in H. destruct (g_realpath libc (Some out) true w1) as [c w2] eqn:El.
  apply restore_realpath_Some in H as (canonical & -> & Hres). unfold RestoreAbsolutePath in Hres.
  apply map_path_spec in Hres; [|exact longer_backing_trans|exact longer_backing_neg|done].
  destruct Hres as (_ & Hsafe & before & r & after & root & tail & Er & _ & Hcr & Hcov & Hout & Hne & Hsz).
  assert (r ∈ g_rules g) as Hin by (rewrite Er; apply elem_of_app; right; by left).
  exists w1, w2, canonical, r, root, tail. split_and!; try done. by eapply Hsafe.
Qed.

(** C24. A file that is where it was created has the path it was created with: [realpath] of a
    redirected path is the absolute path that the caller means, on these conditions: libc finds no
    link in the rewritten path; the rules keep their files apart, no rule of a caller having its
    backing path at or below that of another of the same user, so that no two share a target; the
    caller, and what the path denotes, are the same at every moment of the call; the buffer is
    given or malloc works; and the thread is not inside a hook already. With a shared target the
    answer is another of its names (see [shared_target_named_by_first_rule]). *)
Theorem realpath_roundtrip {R} (g : Globals) (sys : System) (libc : Libc R) caller t path absolute out
    resolved (w : World R) :
  g_hooks_enabled g = true -> Forall rule_ok (g_rules g) -> backing_apart (g_rules g) ->
  (forall moment, caller_at g sys t moment = caller) ->
  (forall moment, denotes sys moment AT_FDCWD path absolute) ->
  redirected (g_rules g) caller absolute out ->
  (forall w1, fst (g_realpath libc (Some out) true w1) = Some out) ->
  resolved = true \/ (forall moment, malloc_ok sys moment = true) ->
  current g sys w = Some t -> in_path_hook t = false ->
  fst (HookedRealpath g sys libc (Some path) resolved w) = Some absolute.
Proof.
  intros He Hr Hap Hca Hp Ho Hl Hm Hc Hn.
  destruct (HookedRealpath_redirected g sys libc caller t path absolute out He Hr Hca Hp Ho resolved w Hc Hn)
    as (w1 & _ & _ & ->).
  specialize (Hl w1). destruct (g_realpath libc (Some out) true w1) as [c w2]. cbn [fst] in Hl. subst c.
  apply restore_realpath_ok; [|done]. apply (restore_rewritten_path (g_rules g) caller absolute PATH_MAX); [done|done| |].
  - by apply redirected_iff.
  - by destruct (Hp 0%nat).
Qed.

(** A request of FUSE acts for the application that made it: from the moment its context
    is read the thread's file calls have the uid of the request, whatever Binder says and
    whatever identities are cleared and restored meanwhile, and until the reply to this very
    request; then nothing is left of it. *)
Theorem fuse_request_acts_for_caller {R} (g : Globals) (sys : System) (fuse : Fuse R) original request uid
    userdata (w w1 w2 : World R) t :
  g_thread_state_key_ready g = true -> request <> 0 ->
  CallerUid.IsApplicationCaller (int32 uid) (getuid sys) = true ->
  g_fuse_req_context fuse = Some original ->
  g_fuse_req_userdata fuse request w = (userdata, w1) -> original request w1 = (Some uid, w2) ->
  state w2 = Some t ->
  exists w3 t3,
    HookedFuseReqUserdata g sys fuse request w = (userdata, w3) /\ state w3 = Some t3
    /\ in_path_hook t3 = in_path_hook t
    /\ (forall calls moment,
          caller_at g sys {| in_path_hook := in_path_hook t3;
                             identity := run_calls (getuid sys) calls (identity t3) |} moment = int32 uid)
    /\ (forall other, other <> request -> CallerUid.EndFuseRequest other (identity t3) = identity t3)
    /\ (exists w4 t4, FinishFuseRequest g sys request w3 = (tt, w4) /\ state w4 = Some t4
          /\ CallerUid.fuse_uid (identity t4) = -1 /\ CallerUid.fuse_request (identity t4) = 0
          /\ CallerUid.saved_binder_uid (identity t4) = CallerUid.saved_binder_uid (identity t)
          /\ CallerUid.binder_clear_depth (identity t4) = CallerUid.binder_clear_depth (identity t)).
Proof.
  intros Hk Hreq Happ Hctx Eu Eo Hs. apply Z.eqb_neq in Hreq.
  unfold HookedFuseReqUserdata. rewrite Hctx. unfold mbind, hook_bind, mret, hook_ret. rewrite Eu, Eo.
  cbn [CaptureFuseRequest]. rewrite (on_identity_ready g sys _ w2 t Hk Hs).
  unfold CallerUid.BeginFuseRequest, CallerUid.caller_or_none. rewrite Hreq, Happ.
  eexists _, _. split_and!; [reflexivity..| | |].
  - intros calls moment. unfold caller_at, CallerUid.EffectiveCallerUid. cbn [identity].
    destruct (run_calls_fuse (getuid sys) calls
      {| CallerUid.saved_binder_uid := CallerUid.saved_binder_uid (identity t);
         CallerUid.binder_clear_depth := CallerUid.binder_clear_depth (identity t);
         CallerUid.fuse_uid := int32 uid; CallerUid.fuse_request := request |}) as [Ef _].
    cbn [CallerUid.fuse_uid] in Ef. by rewrite Ef, Happ.
  - intros other Ho. unfold CallerUid.EndFuseRequest. cbn [identity CallerUid.fuse_request].
    destruct (Z.eqb_spec request other); [by subst|done].
  - unfold FinishFuseRequest. erewrite on_identity_ready by done. cbn [identity].
    unfold CallerUid.EndFuseRequest. cbn [CallerUid.fuse_request]. rewrite Z.eqb_refl. eexists _, _. by split_and!.
Qed.

(** ** Witnesses *)

(** A provider with two rules and the calls that reach libc, newest first. *)
Definition globals_with (enabled : bool) : Globals :=
  {| g_rules := sample_rules; g_hooks_enabled := enabled; g_thread_state_key_ready := true;
     g_fuse_install_state := 0; g_api := true; g_binder_get_calling_uid := true;
     g_binder_clear_identity := true; g_binder_restore_identity := true; g_originals := ∅ |}.

Definition sample_globals : Globals := globals_with true.

Definition sample_system : System :=
  {| getuid := 10050; binder_uid := fun _ => 10100; getcwd := fun _ => inl (lit "/storage/emulated/0");
     fd_path := fun _ _ => inr EBADF; calloc_ok := fun _ => true; setspecific_ok := fun _ => true;
     malloc_ok := fun _ => true |}.

Definition sample_world : World (list (Z * cpath)) :=
  {| state := None; clock := 0; world_errno := 0; g_rewrite_log_count := 0; lines := []; outside := [] |}.

Definition recorded (dirfd : Z) (path : cpath) : hook (list (Z * cpath)) Z := fun w =>
  (0, {| state := state w; clock := clock w; world_errno := world_errno w;
         g_rewrite_log_count := g_rewrite_log_count w; lines := lines w; outside := (dirfd, path) :: outside w |}).

Definition sample_libc : Libc (list (Z * cpath)) :=
  {| g_open := fun p _ _ => recorded 0 p; g_open64 := fun p _ _ => recorded 0 p;
     g_openat := fun d p _ _ => recorded d p; g_openat64 := fun d p _ _ => recorded d p;
     g_stat := fun p _ => recorded 0 p; g_lstat := fun p _ => recorded 0 p;
     g_fstatat := fun d p _ _ => recorded d p; g_stat64 := fun p _ => recorded 0 p;
     g_lstat64 := fun p _ => recorded 0 p; g_fstatat64 := fun d p _ _ => recorded d p;
     g_access := fun p _ => recorded 0 p; g_faccessat := fun d p _ _ => recorded d p;
     g_opendir := recorded 0; g_mkdir := fun p _ => recorded 0 p; g_mkdirat := fun d p _ => recorded d p;
     g_unlink := recorded 0; g_unlinkat := fun d p _ => recorded d p; g_remove := recorded 0;
     g_rmdir := recorded 0; g_rename := fun p _ => recorded 0 p; g_renameat := fun d p _ _ => recorded d p;
     g_renameat2 := fun d p _ _ _ => recorded d p; g_readlink := fun p _ _ => recorded 0 p;
     g_realpath := fun p _ => mret p; g_chmod := fun p _ => recorded 0 p;
     g_fchmodat := fun d p _ _ => recorded d p; g_chown := fun p _ _ => recorded 0 p;
     g_lchown := fun p _ _ => recorded 0 p; g_fchownat := fun d p _ _ _ => recorded d p;
     g_truncate := fun p _ => recorded 0 p; g_truncate64 := fun p _ => recorded 0 p;
     g_utimensat := fun d p _ _ => recorded d p; g_statvfs := fun p _ => recorded 0 p;
     g_statvfs64 := fun p _ => recorded 0 p; g_inotify_add_watch := fun _ p _ => recorded 0 p |}.

Example recorded_calls_move :
  outside (snd (WithPath sample_globals sample_system (lit "mkdirat") 7 (Some (lit "/data/media/0/Pictures/Cam/x"))
                  recorded sample_world))
  = [(AT_FDCWD, Some (lit "/data/media/0/Private/C/x"))]
  /\ outside (snd (WithPath sample_globals sample_system (lit "mkdirat") 7 (Some (lit "Pictures/x"))
                  recorded sample_world))
  = [(7, Some (lit "Pictures/x"))]
  /\ outside (snd (WithPath sample_globals sample_system (lit "mkdir") AT_FDCWD (Some (lit "Pictures/x"))
                  recorded sample_world))
  = [(AT_FDCWD, Some (lit "/storage/emulated/0/Private/P/x"))].
Proof. vm_compute. done. Qed.

Lemma hooked_call_exact_witness :
  exists dirfd' path' (w1 : World (list (Z * cpath))),
    state w1 = Some {| in_path_hook := true; identity := CallerUid.initial |}
    /\ WithPath sample_globals sample_system (lit "mkdir") AT_FDCWD (Some (lit "Pictures/x")) recorded sample_world
       = (0, release (snd (recorded dirfd' path' w1))).
Proof.
  destruct (hooked_call_exact sample_globals sample_system (lit "mkdir") AT_FDCWD (Some (lit "Pictures/x"))
    recorded sample_world fresh eq_refl sample_rules_ok eq_refl eq_refl)
    as (asked & heard & dirfd' & path' & w1 & _ & Hs & _ & E).
  exists dirfd', path', w1. split; [exact Hs|exact E].
Defined.

Lemma hooked_rename_exact_witness :
  exists d1 p1 d2 p2 (w1 : World (list (Z * cpath))),
    WithTwoPaths sample_globals sample_system (lit "rename") AT_FDCWD (Some (lit "Pictures/x")) AT_FDCWD
      (Some (lit "/tmp/x")) (fun a b c d => recorded a b) sample_world
    = (0, release (snd (recorded d1 p1 w1))) /\ argument_becomes sample_globals sample_system 0 0 fresh d2 None d2 p2.
Proof.
  destruct (hooked_rename_exact sample_globals sample_system (lit "rename") AT_FDCWD (Some (lit "Pictures/x"))
    AT_FDCWD (Some (lit "/tmp/x")) (fun a b c d => recorded a b) sample_world fresh eq_refl sample_rules_ok eq_refl
    eq_refl ltac:(discriminate) ltac:(discriminate))
    as (? & ? & ? & ? & d1 & p1 & d2 & p2 & w1 & _ & _ & _ & _ & E).
  exists d1, p1, d2, None, w1. split; [exact E|apply argument_null].
Defined.

Lemma nested_calls_are_transparent_witness :
  passive (globals_with false) sample_world
  /\ WithPath (globals_with false)
       sample_system (lit "mkdir") AT_FDCWD (Some (lit "Pictures/x")) recorded sample_world
     = recorded AT_FDCWD (Some (lit "Pictures/x")) sample_world.
Proof.
  split; [by left|].
  refine (proj1 (nested_calls_are_transparent _ sample_system sample_libc (lit "mkdir") AT_FDCWD
    (Some (lit "Pictures/x")) 0 None recorded (fun a b c d => recorded a b) true sample_world _)). by left.
Defined.

Lemma sample_redirected :
  redirected sample_rules 10100 (lit "/storage/emulated/0/Pictures/x") (lit "/storage/emulated/0/Private/P/x").
Proof. apply (redirected_iff _ _ _ _ sample_rules_ok). vm_compute. reflexivity. Qed.

Lemma sample_denotes moment :
  denotes sample_system moment AT_FDCWD (lit "Pictures/x") (lit "/storage/emulated/0/Pictures/x").
Proof. by apply (denotes_relative _ _ _ (lit "/storage/emulated/0")). Qed.

Lemma realpath_roundtrip_witness :
  fst (HookedRealpath sample_globals sample_system sample_libc (Some (lit "Pictures/x")) false sample_world)
  = Some (lit "/storage/emulated/0/Pictures/x").
Proof.
  refine (realpath_roundtrip sample_globals sample_system sample_libc 10100 fresh _ _
    (lit "/storage/emulated/0/Private/P/x") false sample_world eq_refl sample_rules_ok sample_rules_apart
    (fun _ => eq_refl) sample_denotes sample_redirected (fun _ => eq_refl) (or_intror (fun _ => eq_refl))
    eq_refl eq_refl).
Defined.

Lemma realpath_hides_backing_witness :
  exists r, r ∈ sample_rules /\ caller_uid r = 10100.
Proof.
  destruct (realpath_hides_backing sample_globals sample_system sample_libc 10100 fresh _ _
    (lit "/storage/emulated/0/Private/P/x") false sample_world (lit "/storage/emulated/0/Pictures/x")
    eq_refl sample_rules_ok (fun _ => eq_refl) sample_denotes sample_redirected eq_refl eq_refl
    ltac:(vm_compute; reflexivity)) as (? & ? & ? & r & ? & ? & _ & Hin & Hc & _).
  exists r. split; [exact Hin|exact Hc].
Defined.

Definition sample_fuse : Fuse (list (Z * cpath)) :=
  {| g_fuse_req_userdata := fun _ => mret 7; g_fuse_req_context := Some (fun _ => mret (Some 10100));
     g_fuse_reply_err := fun _ _ => mret 0; g_fuse_reply_entry := fun _ _ => mret 0;
     g_fuse_reply_attr := fun _ _ _ => mret 0; g_fuse_reply_open := fun _ _ => mret 0;
     g_fuse_reply_write := fun _ _ => mret 0; g_fuse_reply_buffer := fun _ _ _ => mret 0;
     g_fuse_reply_data := fun _ _ _ => mret 0; g_fuse_reply_statvfs := fun _ _ => mret 0;
     g_fuse_reply_create := fun _ _ _ => mret 0; g_fuse_reply_none := fun _ => mret tt |}.

Definition sample_thread : World (list (Z * cpath)) := snd (set_state (Some fresh) sample_world).

Lemma fuse_request_acts_for_caller_witness :
  exists w3 t3, HookedFuseReqUserdata sample_globals sample_system sample_fuse 5 sample_thread = (7, w3)
    /\ state w3 = Some t3
    /\ forall moment, caller_at sample_globals sample_system
         {| in_path_hook := in_path_hook t3;
            identity := run_calls 10050 [Clear 10100; Clear 0; Restore_] (identity t3) |} moment = 10100.
Proof.
  destruct (fuse_request_acts_for_caller sample_globals sample_system sample_fuse (fun _ => mret (Some 10100)) 5 10100
    7 sample_thread sample_thread sample_thread fresh eq_refl ltac:(discriminate) eq_refl eq_refl eq_refl eq_refl
    eq_refl) as (w3 & t3 & E & Hs & _ & Hc & _).
  exists w3, t3. split; [exact E|split; [exact Hs|exact (Hc [Clear 10100; Clear 0; Restore_])]].
Defined.
