(* ===== verification/ProviderInstall.v ===== *)
(** * Installing the hooks of the media provider

    zygisk/src/provider_redirect_hook.cpp, the part that runs once: which functions an image
    imports, what is registered for them, and when the replacements begin to act. The images
    are 64-bit ([__LP64__]); their memory is a [Memory], read only where the code reads it. What
    the loader, Zygisk and the allocator of thread keys answer is a [Loader]. *)

From S2P Require Import Prelude Path Snapshot Resolver Provider ProviderHook.

Local Open Scope pg_scope.

(** ** The images that are hooked *)

Definition kHookTargetBasenames : list bytes :=
  [lit "libjavacore.so"; lit "libopenjdk.so"; lit "libnativehelper.so"; lit "libandroid_runtime.so";
   lit "libnativeloader.so"].

Definition PathBasename (path : bytes) : bytes := List.last (split_on x2f path) [].

Definition IsPermanentHookTarget (path : bytes) : bool :=
  existsb (fun candidate => PathBasename path == candidate) kHookTargetBasenames.

Definition IsFuseHookTarget (path : cpath) : bool :=
  match path with Some path => PathBasename path == lit "libfuse_jni.so" | None => false end.

(** [kHookSpecs]: the symbols, in order. *)
Definition kHookSpecs : list bytes :=
  [lit "open"; lit "open64"; lit "openat"; lit "openat64"; lit "stat"; lit "lstat"; lit "fstatat";
   lit "stat64"; lit "lstat64"; lit "fstatat64"; lit "access"; lit "faccessat"; lit "opendir"; lit "mkdir";
   lit "mkdirat"; lit "unlink"; lit "unlinkat"; lit "remove"; lit "rmdir"; lit "rename"; lit "renameat";
   lit "renameat2"; lit "readlink"; lit "realpath"; lit "chmod"; lit "fchmodat"; lit "chown"; lit "lchown";
   lit "fchownat"; lit "truncate"; lit "truncate64"; lit "utimensat"; lit "statvfs"; lit "statvfs64";
   lit "inotify_add_watch"; lit "dlopen"; lit "android_dlopen_ext"; lit "fuse_req_userdata";
   lit "fuse_req_ctx"; lit "fuse_reply_err"; lit "fuse_reply_entry"; lit "fuse_reply_attr";
   lit "fuse_reply_open"; lit "fuse_reply_write"; lit "fuse_reply_buf"; lit "fuse_reply_data";
   lit "fuse_reply_statfs"; lit "fuse_reply_create"; lit "fuse_reply_none"].

(** One call of [pltHookRegister]; the replacement and the place of the original go with the
    symbol. *)
Record Registration : Type := {
  reg_device : Z;
  reg_inode : Z;
  reg_symbol : bytes;
}.

Record RegistrationContext : Type := {
  image_count : Z;
  registration_count : Z;
  made : list Registration;
}.

(** ** The imports of an image *)

Definition PT_LOAD : Z := 1.
Definition PT_DYNAMIC : Z := 2.
Definition DT_NULL : Z := 0.
Definition DT_PLTRELSZ : Z := 2.
Definition DT_STRTAB : Z := 5.
Definition DT_SYMTAB : Z := 6.
Definition DT_RELA : Z := 7.
Definition DT_STRSZ : Z := 10.
Definition DT_REL : Z := 17.
Definition DT_PLTREL : Z := 20.
Definition DT_JMPREL : Z := 23.

Record Phdr : Type := {
  p_type : Z;
  p_vaddr : Z;
  p_memsz : Z;
}.

(** [dl_phdr_info] *)
Record Image : Type := {
  dlpi_addr : Z;
  dlpi_name : cpath;
  dlpi_phdr : list Phdr;
}.

(** What is in memory: the entries of the tables at an address ([d_tag] and [d_un],
    [r_info] of a [Rela] or [Rel] entry, [st_name]) and the text at an address. *)
Record Memory : Type := {
  dyn_at : Z -> nat -> Z * Z;
  r_info_at : bool -> Z -> nat -> Z;
  st_name_at : Z -> Z -> Z;
  text_at : Z -> bytes;
}.

Definition AddressInImage (info : Image) (address : Z) : bool :=
  existsb (fun header =>
    if negb (p_type header =? PT_LOAD) then false
    else
      let begin := u64 (dlpi_addr info + p_vaddr header) in
      (begin <=? address) && (address <? u64 (begin + p_memsz header))) (dlpi_phdr info).

Definition ResolveDynamicAddress (info : Image) (value : Z) : Z :=
  let absolute := u64 value in
  if AddressInImage info absolute then absolute
  else
    let relative := u64 (dlpi_addr info + absolute) in
    if AddressInImage info relative then relative else 0.

Definition RelocationSymbolIndex (info : Z) : Z := Z.shiftr info 32.

(** [stat], as the device and inode it finds. *)
Definition StatMappedImage (stat : bytes -> option (Z * Z)) (path : cpath) : option (Z * Z) :=
  match path with
  | None => None
  | Some path =>
      match stat path with
      | Some identity => Some identity
      | None =>
          match cut x21 path with
          | (_, None) => None
          | (container, Some _) =>
              if (size container =? 0) || (PATH_MAX <=? size container) then None else stat container
          end
      end
  end.

(** The loop of [RegisterImportedSymbol]: the mask after a registration, when it makes one. *)
Fixpoint register_spec (specs : list bytes) (index : Z) (symbol : bytes) (registered : Z) : option Z :=
  match specs with
  | [] => None
  | spec :: rest =>
      if negb (spec == symbol) then register_spec rest (index + 1) symbol registered
      else
        let bit := Z.shiftl 1 index in
        if negb (Z.land registered bit =? 0) then None else Some (Z.lor registered bit)
  end.

Definition RegisterImportedSymbol (device inode : Z) (symbol : bytes) (s : RegistrationContext * Z)
    : RegistrationContext * Z :=
  let '(context, registered) := s in
  match register_spec kHookSpecs 0 symbol registered with
  | None => s
  | Some registered =>
      ({| image_count := image_count context;
          registration_count := u32 (registration_count context + 1);
          made := made context ++ [{| reg_device := device; reg_inode := inode; reg_symbol := symbol |}] |},
       registered)
  end.

Record Tables : Type := {
  string_table : Z;
  symbol_table : Z;
  relocations : Z;
  string_size : Z;
  relocation_size : Z;
  relocation_type : Z;
}.

Definition no_tables : Tables :=
  {| string_table := 0; symbol_table := 0; relocations := 0; string_size := 0; relocation_size := 0;
     relocation_type := 0 |}.

(** The [switch] on one entry. *)
Definition dynamic_entry (info : Image) (tag value : Z) (t : Tables) : Tables :=
  let at_ := ResolveDynamicAddress info value in
  let with_ a b c d e f :=
    {| string_table := a; symbol_table := b; relocations := c; string_size := d; relocation_size := e;
       relocation_type := f |} in
  let '(a, b, c, d, e, f) := (string_table t, symbol_table t, relocations t, string_size t,
                              relocation_size t, relocation_type t) in
  if tag =? DT_STRTAB then with_ at_ b c d e f
  else if tag =? DT_STRSZ then with_ a b c value e f
  else if tag =? DT_SYMTAB then with_ a at_ c d e f
  else if tag =? DT_JMPREL then with_ a b at_ d e f
  else if tag =? DT_PLTRELSZ then with_ a b c d value f
  else if tag =? DT_PLTREL then with_ a b c d e value
  else t.

Section Imports.
Context (memory : Memory).

Fixpoint read_dynamic (info : Image) (dynamic : Z) (count index : nat) (t : Tables) : Tables :=
  match count with
  | O => t
  | S count =>
      let '(tag, value) := dyn_at memory dynamic index in
      if tag =? DT_NULL then t
      else read_dynamic info dynamic count (S index) (dynamic_entry info tag value t)
  end.

(** The first [PT_DYNAMIC] header. *)
Fixpoint find_dynamic (info : Image) (headers : list Phdr) : Z * Z :=
  match headers with
  | [] => (0, 0)
  | header :: rest =>
      if negb (p_type header =? PT_DYNAMIC) then find_dynamic info rest
      else (u64 (dlpi_addr info + p_vaddr header), p_memsz header / 16)
  end.

(** The tables of an image, when all of them are there. *)
Definition image_tables (info : Image) : option Tables :=
  let '(dynamic, dynamic_count) := find_dynamic info (dlpi_phdr info) in
  if (dynamic =? 0) || (dynamic_count =? 0) then None
  else
    let t := read_dynamic info dynamic (Z.to_nat dynamic_count) 0 no_tables in
    if (string_table t =? 0) || (symbol_table t =? 0) || (relocations t =? 0) || (string_size t =? 0)
       || (relocation_size t =? 0) || negb ((relocation_type t =? DT_REL) || (relocation_type t =? DT_RELA))
    then None else Some t.

Definition relocation_count (t : Tables) : nat :=
  Z.to_nat (relocation_size t / (if relocation_type t =? DT_RELA then 24 else 16)).

(** The name a relocation asks for, when it lies in the string table. *)
Definition imported_symbol (t : Tables) (index : nat) : option bytes :=
  let info := r_info_at memory (relocation_type t =? DT_RELA) (relocations t) index in
  let st_name := st_name_at memory (symbol_table t) (RelocationSymbolIndex info) in
  if string_size t <=? st_name then None else Some (text_at memory (string_table t + st_name)).

Definition RegisterImageImports (stat : bytes -> option (Z * Z)) (target : bytes -> bool)
    (context : RegistrationContext) (info : Image) : RegistrationContext :=
  match dlpi_name info with
  | None => context
  | Some name =>
      if negb (target name) then context
      else
        match StatMappedImage stat (Some name) with
        | None => context
        | Some (device, inode) =>
            if (device =? 0) || (inode =? 0) then context
            else
              match image_tables info with
              | None => context
              | Some t =>
                  fst (fold_left (fun s index =>
                         match imported_symbol t index with
                         | None => s
                         | Some symbol => RegisterImportedSymbol device inode symbol s
                         end) (seq 0 (relocation_count t))
                       ({| image_count := u32 (image_count context + 1);
                           registration_count := registration_count context; made := made context |}, 0))
              end
        end
  end.
End Imports.

(** ** Registration and commit *)

(** What [dl_iterate_phdr], [stat], [pltHookCommit], [pthread_key_create], [dlsym] and
    [hookJniNativeMethods] answer. A commit says whether it succeeded and which places of
    originals it has filled. *)
Record Loader : Type := {
  images : list Image;
  memory : Memory;
  stat : bytes -> option (Z * Z);
  pltHookCommit : list Registration -> bool * gset bytes;
  key_create_ok : bool;
  dlsym_fuse_req_ctx : bool;
  jni_methods : bool * bool * bool;
}.

Definition RegisterMappedHooks (l : Loader) (target : bytes -> bool) : RegistrationContext :=
  fold_left (RegisterImageImports (memory l) (stat l) target) (images l)
    {| image_count := 0; registration_count := 0; made := [] |}.

Definition with_originals (found : gset bytes) (g : Globals) : Globals :=
  {| g_rules := g_rules g; g_hooks_enabled := g_hooks_enabled g;
     g_thread_state_key_ready := g_thread_state_key_ready g;
     g_fuse_install_state := g_fuse_install_state g; g_api := g_api g;
     g_binder_get_calling_uid := g_binder_get_calling_uid g;
     g_binder_clear_identity := g_binder_clear_identity g;
     g_binder_restore_identity := g_binder_restore_identity g; g_originals := g_originals g ∪ found |}.

Definition filesystem_complete (g : Globals) : bool :=
  (is_set g (lit "open") || is_set g (lit "openat"))
  && (is_set g (lit "stat") || is_set g (lit "stat64") || is_set g (lit "fstatat") || is_set g (lit "fstatat64"))
  && forallb (is_set g)
       [lit "access"; lit "opendir"; lit "mkdir"; lit "remove"; lit "rename"; lit "realpath"; lit "readlink";
        lit "chmod"; lit "chown"; lit "statvfs"; lit "inotify_add_watch"].

Definition RegisterHooks (l : Loader) (binder_identity_hooks : bool) (g : Globals) : InstallResult * Globals :=
  let context := RegisterMappedHooks l IsPermanentHookTarget in
  let '(committed, found) := pltHookCommit l (made context) in
  let g := with_originals found g in
  ({| hook_registration_attempted := negb (registration_count context =? 0);
      hooks_committed := committed;
      virtualization_active := committed && filesystem_complete g && binder_identity_hooks;
      identity_hook_attempted := binder_identity_hooks;
      identity_hooks := binder_identity_hooks |}, g).

Definition with_fuse_state (s : Z) (g : Globals) : Globals :=
  {| g_rules := g_rules g; g_hooks_enabled := g_hooks_enabled g;
     g_thread_state_key_ready := g_thread_state_key_ready g;
     g_fuse_install_state := s; g_api := g_api g;
     g_binder_get_calling_uid := g_binder_get_calling_uid g;
     g_binder_clear_identity := g_binder_clear_identity g;
     g_binder_restore_identity := g_binder_restore_identity g; g_originals := g_originals g |}.

(** [handle] tells whether the library was loaded. *)
Definition MaybeInstallFuseHooks (l : Loader) (path : cpath) (handle : bool) (g : Globals) : Globals :=
  if negb (IsFuseHookTarget path) || negb (g_api g) then g
  else if negb (g_fuse_install_state g =? 0) then g
  else
    let g := with_fuse_state 1 g in
    let g := if handle && negb (is_set g (lit "fuse_req_ctx")) && dlsym_fuse_req_ctx l
             then with_originals {[lit "fuse_req_ctx"]} g else g in
    let context := RegisterMappedHooks l (fun name => IsFuseHookTarget (Some name)) in
    let '(committed, g) :=
      if registration_count context =? 0 then (false, g)
      else let '(committed, found) := pltHookCommit l (made context) in (committed, with_originals found g) in
    let request_scope := forallb (is_set g)
      [lit "fuse_req_userdata"; lit "fuse_req_ctx"; lit "fuse_reply_err"; lit "fuse_reply_create"] in
    with_fuse_state (if committed && request_scope then 2 else 3) g.

(** The replacements of [dlopen] and [android_dlopen_ext]: the handle is [None] for null. *)
Definition HookedDlopen (l : Loader) (g_dlopen : cpath -> Z -> option Z) (path : cpath) (flags : Z) (g : Globals)
    : option Z * Globals :=
  if negb (is_set g (lit "dlopen")) then (None, g)
  else let handle := g_dlopen path flags in
       (handle, MaybeInstallFuseHooks l path (bool_decide (handle <> None)) g).

Definition HookedAndroidDlopenExt (l : Loader) (g_android_dlopen_ext : cpath -> Z -> Z -> option Z) (path : cpath)
    (flags info : Z) (g : Globals) : option Z * Globals :=
  if negb (is_set g (lit "android_dlopen_ext")) then (None, g)
  else let handle := g_android_dlopen_ext path flags info in
       (handle, MaybeInstallFuseHooks l path (bool_decide (handle <> None)) g).

(** ** Install *)

Definition kMaxRules : Z := 64.

Definition ValidLogicalRulePath (path : bytes) : bool :=
  if (path == []) || is_absolute path || (PATH_MAX <=? size path) || contains x7b path || contains x7d path
  then false
  else valid_components (split_on x2f path).

Definition same_scope (current input : PathRule) : bool :=
  (caller_uid current =? caller_uid input) && (user_id current =? user_id input).

Definition ambiguous (current input : PathRule) : bool :=
  same_scope current input && (visible_path current == visible_path input)
  && (backing_path current != backing_path input).

(** The loop over the input: the rules that were accepted, and whether all were. *)
Fixpoint install_rules (rules accepted : list PathRule) : list PathRule * bool :=
  match rules with
  | [] => (accepted, true)
  | input :: rest =>
      if (caller_uid input <? 10000) || negb (ValidLogicalRulePath (visible_path input))
         || negb (ValidLogicalRulePath (backing_path input))
      then (accepted, false)
      else if existsb (fun current => ambiguous current input) accepted then (accepted, false)
      else install_rules rest (accepted ++ [input])
  end.

Definition nothing_installed : InstallResult :=
  {| hook_registration_attempted := false; hooks_committed := false; virtualization_active := false;
     identity_hook_attempted := false; identity_hooks := false |}.

(** [InstallBinderIdentityHooks]: whether all methods were found, whether any was, and the
    globals with their pointers. *)
Definition InstallBinderIdentityHooks (l : Loader) (g : Globals) : bool * bool * Globals :=
  let '(get_calling_uid, clear_identity, restore_identity) := jni_methods l in
  (get_calling_uid && clear_identity && restore_identity,
   get_calling_uid || clear_identity || restore_identity,
   {| g_rules := g_rules g; g_hooks_enabled := g_hooks_enabled g;
      g_thread_state_key_ready := g_thread_state_key_ready g;
      g_fuse_install_state := g_fuse_install_state g; g_api := g_api g;
      g_binder_get_calling_uid := get_calling_uid; g_binder_clear_identity := clear_identity;
      g_binder_restore_identity := restore_identity; g_originals := g_originals g |}).

Definition with_rules (rules : list PathRule) (enabled : bool) (g : Globals) : Globals :=
  {| g_rules := rules; g_hooks_enabled := enabled;
     g_thread_state_key_ready := g_thread_state_key_ready g;
     g_fuse_install_state := g_fuse_install_state g; g_api := g_api g;
     g_binder_get_calling_uid := g_binder_get_calling_uid g;
     g_binder_clear_identity := g_binder_clear_identity g;
     g_binder_restore_identity := g_binder_restore_identity g; g_originals := g_originals g |}.

(** What [Install] resets once the thread key is there. *)
Definition begin_install (g : Globals) : Globals :=
  {| g_rules := []; g_hooks_enabled := false; g_thread_state_key_ready := true; g_fuse_install_state := 0;
     g_api := true; g_binder_get_calling_uid := g_binder_get_calling_uid g;
     g_binder_clear_identity := g_binder_clear_identity g;
     g_binder_restore_identity := g_binder_restore_identity g; g_originals := g_originals g |}.

(** [api] and [env] tell whether these are given; [rules] is [None] for null. *)
Definition Install (l : Loader) (api env : bool) (rules : option (list PathRule)) (g : Globals)
    : InstallResult * Globals :=
  match rules with
  | None => (nothing_installed, g)
  | Some rules =>
      if negb api || negb env || (size rules =? 0) || (kMaxRules <? size rules) then (nothing_installed, g)
      else if negb (g_thread_state_key_ready g || key_create_ok l) then (nothing_installed, g)
      else
        let '(accepted, all) := install_rules rules [] in
        let g := with_rules accepted false (begin_install g) in
        if negb all then (nothing_installed, g)
        else
          let '(binder_identity_hooks, attempted, g) := InstallBinderIdentityHooks l g in
          if negb binder_identity_hooks then
            ({| hook_registration_attempted := false; hooks_committed := false; virtualization_active := false;
                identity_hook_attempted := attempted; identity_hooks := false |}, g)
          else
            let '(result, g) := RegisterHooks l binder_identity_hooks g in
            let g := if ShouldEnableHooks result then with_rules (g_rules g) true g else g in
            let g := if negb (virtualization_active result) then with_rules [] (g_hooks_enabled g) g else g in
            (result, g)
  end.

(** ** Lemmas: the imports of an image *)

(** The index of the bit that stands for a symbol, in a mask of [uint64_t]. *)
Definition mask_ok (registered : Z) (symbols : list bytes) : Prop :=
  forall k s, kHookSpecs !! k = Some s -> Z.testbit registered (Z.of_nat k) = bool_decide (s ∈ symbols).

Lemma kHookSpecs_NoDup : NoDup kHookSpecs.
Proof. apply (bool_decide_unpack _). vm_compute. exact I. Qed.

Lemma land_shiftl_bit m i : 0 <= i -> (Z.land m (Z.shiftl 1 i) =? 0) = negb (Z.testbit m i).
Proof.
  intros Hi. destruct (Z.testbit m i) eqn:E; cbn [negb].
  - apply Z.eqb_neq. intros H. apply (f_equal (fun z => Z.testbit z i)) in H.
    by rewrite Z.land_spec, E, Z.shiftl_1_l, Z.pow2_bits_true, Z.bits_0 in H by done.
  - apply Z.eqb_eq, Z.bits_inj'. intros n Hn. rewrite Z.land_spec, Z.shiftl_1_l, Z.bits_0, Z.pow2_bits_eqb by done.
    destruct (Z.eqb_spec i n) as [->|]; [by rewrite E|apply andb_false_r].
Qed.

Lemma register_spec_miss specs index symbol registered :
  symbol ∉ specs -> register_spec specs index symbol registered = None.
Proof.
  revert index. induction specs as [|spec specs IH]; intros index Hn; [done|].
  apply not_elem_of_cons in Hn as [H1 H2]. cbn [register_spec].
  rewrite bool_decide_eq_false_2 by congruence. by apply IH.
Qed.

Lemma register_spec_hit specs k index symbol registered :
  NoDup specs -> specs !! k = Some symbol -> 0 <= index ->
  register_spec specs index symbol registered
  = if Z.testbit registered (index + Z.of_nat k) then None
    else Some (Z.lor registered (Z.shiftl 1 (index + Z.of_nat k))).
Proof.
  revert index k. induction specs as [|spec specs IH]; intros index k Hnd Hk Hi; [done|].
  apply NoDup_cons in Hnd as [Hnin Hnd]. cbn [register_spec]. destruct k as [|k].
  - injection Hk as ->. rewrite bool_decide_eq_true_2, Z.add_0_r by done. cbn [negb].
    rewrite land_shiftl_bit by done. by destruct (Z.testbit registered index).
  - cbn in Hk. rewrite bool_decide_eq_false_2; [cbn [negb]|].
    + rewrite (IH (index + 1) k) by (done || lia). by replace (index + 1 + Z.of_nat k) with (index + Z.of_nat (S k)) by lia.
    + intros ->. apply Hnin. by eapply list_elem_of_lookup_2.
Qed.

(** A symbol that is to be hooked and was not seen in this image. *)
Definition add_symbol (symbols : list bytes) (s : bytes) : list bytes :=
  if bool_decide (s ∈ kHookSpecs /\ s ∉ symbols) then symbols ++ [s] else symbols.

Definition registration (device inode : Z) (s : bytes) : Registration :=
  {| reg_device := device; reg_inode := inode; reg_symbol := s |}.

(** The context after the symbols of an image were registered. *)
Definition registered_in (device inode : Z) (context : RegistrationContext) (symbols : list bytes)
    : RegistrationContext :=
  {| image_count := image_count context;
     registration_count := u32 (registration_count context + size symbols);
     made := made context ++ map (registration device inode) symbols |}.

Lemma u32_succ z : u32 (u32 z + 1) = u32 (z + 1).
Proof. unfold u32. by rewrite Zplus_mod_idemp_l. Qed.

Lemma RegisterImportedSymbol_step device inode symbol context symbols registered :
  mask_ok registered symbols ->
  exists registered',
    RegisterImportedSymbol device inode symbol (registered_in device inode context symbols, registered)
    = (registered_in device inode context (add_symbol symbols symbol), registered')
    /\ mask_ok registered' (add_symbol symbols symbol).
Proof.
  intros Hm. unfold RegisterImportedSymbol, add_symbol.
  destruct (decide (symbol ∈ kHookSpecs)) as [[k Hk]%list_elem_of_lookup_1|Hno].
  2:{ rewrite register_spec_miss by done. rewrite bool_decide_eq_false_2 by naive_solver. by exists registered. }
  rewrite (register_spec_hit _ k 0 symbol registered kHookSpecs_NoDup Hk) by done. rewrite Z.add_0_l, (Hm k symbol Hk).
  assert (symbol ∈ kHookSpecs) as Hin by (by eapply list_elem_of_lookup_2).
  destruct (decide (symbol ∈ symbols)) as [Hs|Hs].
  { rewrite (bool_decide_eq_true_2 (symbol ∈ symbols)), bool_decide_eq_false_2 by naive_solver. by exists registered. }
  rewrite (bool_decide_eq_false_2 (symbol ∈ symbols)), bool_decide_eq_true_2 by done. eexists. split.
  - unfold registered_in. cbn [image_count registration_count made]. f_equal. f_equal.
    + rewrite u32_succ, size_app. f_equal. unfold size. cbn [length]. lia.
    + by rewrite map_app, app_assoc.
  - intros j s Hj. rewrite Z.lor_spec, Z.shiftl_1_l, Z.pow2_bits_eqb, (Hm j s Hj) by lia.
    destruct (Z.eqb_spec (Z.of_nat k) (Z.of_nat j)) as [Ekj|Ekj].
    + apply Nat2Z.inj in Ekj as <-. rewrite Hk in Hj. injection Hj as <-.
      rewrite orb_true_r, bool_decide_eq_true_2; [done|]. apply elem_of_app. right. by left.
    + rewrite orb_false_r. apply bool_decide_ext. rewrite elem_of_app, list_elem_of_singleton. split; [by left|].
      intros [| ->]; [done|]. exfalso. apply Ekj. f_equal. by eapply (NoDup_lookup kHookSpecs); [apply kHookSpecs_NoDup|..].
Qed.

Lemma add_symbols_spec imported symbols :
  NoDup symbols ->
  NoDup (fold_left add_symbol imported symbols)
  /\ forall s, s ∈ fold_left add_symbol imported symbols <-> s ∈ symbols \/ s ∈ kHookSpecs /\ s ∈ imported.
Proof.
  revert symbols. induction imported as [|x imported IH]; intros symbols Hnd.
  { split; [done|]. intros s. rewrite elem_of_nil. naive_solver. }
  cbn [fold_left].
  assert (NoDup (add_symbol symbols x)
          /\ forall s, s ∈ add_symbol symbols x <-> s ∈ symbols \/ s ∈ kHookSpecs /\ s = x) as [Hnd' Hin].
  { unfold add_symbol. case_bool_decide as Hx.
    - split; [apply NoDup_app; split_and!; [done| |apply NoDup_singleton]; intros y Hy ->%list_elem_of_singleton; naive_solver|].
      intros s. rewrite elem_of_app, list_elem_of_singleton. naive_solver.
    - split; [done|]. intros s. split; [by left|]. intros [|[Hs ->]]; [done|].
      destruct (decide (x ∈ symbols)); [done|]. naive_solver. }
  destruct (IH _ Hnd') as [H1 H2]. split; [done|]. intros s. rewrite H2, Hin, elem_of_cons. naive_solver.
Qed.

Lemma register_all memory device inode t indexes context symbols registered :
  mask_ok registered symbols ->
  exists registered',
    fold_left (fun s index =>
      match imported_symbol memory t index with
      | None => s
      | Some symbol => RegisterImportedSymbol device inode symbol s
      end) indexes (registered_in device inode context symbols, registered)
    = (registered_in device inode context (fold_left add_symbol (omap (imported_symbol memory t) indexes) symbols),
       registered').
Proof.
  revert symbols registered. induction indexes as [|index indexes IH]; intros symbols registered Hm; [by exists registered|].
  cbn [fold_left omap list_omap]. destruct (imported_symbol memory t index) as [symbol|]; [|by apply IH].
  destruct (RegisterImportedSymbol_step device inode symbol context symbols registered Hm) as (r' & -> & Hm').
  by apply IH.
Qed.

(** The imports of an image that are hooked, with its identity. *)
Definition hookable_import (memory : Memory) (stat : bytes -> option (Z * Z)) (target : bytes -> bool)
    (info : Image) (device inode : Z) (symbol : bytes) : Prop :=
  exists name t index,
    dlpi_name info = Some name /\ target name = true
    /\ StatMappedImage stat (Some name) = Some (device, inode) /\ device <> 0 /\ inode <> 0
    /\ image_tables memory info = Some t /\ (index < relocation_count t)%nat
    /\ imported_symbol memory t index = Some symbol.

Lemma RegisterImageImports_spec memory stat target context info :
  0 <= registration_count context < 2 ^ 32 ->
  exists new,
    made (RegisterImageImports memory stat target context info) = made context ++ new
    /\ registration_count (RegisterImageImports memory stat target context info)
       = u32 (registration_count context + size new)
    /\ NoDup new
    /\ forall device inode s, registration device inode s ∈ new
         <-> s ∈ kHookSpecs /\ hookable_import memory stat target info device inode s.
Proof.
  intros Hc.
  assert (Hnone : forall context',
    (forall device inode s, ~ hookable_import memory stat target info device inode s) -> context' = context ->
    exists new, made context' = made context ++ new
      /\ registration_count context' = u32 (registration_count context + size new) /\ NoDup new
      /\ forall device inode s, registration device inode s ∈ new
           <-> s ∈ kHookSpecs /\ hookable_import memory stat target info device inode s).
  { intros ? Hno ->. exists []. rewrite app_nil_r. split_and!; [done| |constructor|].
    - unfold size, u32. cbn [length]. rewrite Z.add_0_r, Z.mod_small; done.
    - intros device inode s. rewrite elem_of_nil. naive_solver. }
  unfold hookable_import in *. unfold RegisterImageImports.
  destruct (dlpi_name info) as [name|] eqn:En; [|apply Hnone; [intros ? ? ? (? & ? & ? & ? & ? & ? & _ & _ & ? & _); congruence|done]].
  destruct (target name) eqn:Et; cbn [negb]; [|apply Hnone; [intros ? ? ? (? & ? & ? & ? & ? & ? & _ & _ & ? & _); congruence|done]].
  destruct (StatMappedImage stat (Some name)) as [[d i]|] eqn:Es; [|apply Hnone; [intros ? ? ? (? & ? & ? & ? & ? & ? & _ & _ & ? & _); congruence|done]].
  destruct ((d =? 0) || (i =? 0)) eqn:Ez.
  { apply Hnone; [|done]. intros device inode s (n & ? & ? & E1 & _ & E & Hd & Hi & _).
    assert (n = name) as -> by congruence. rewrite Es in E. injection E as -> ->. by apply orb_true_iff in Ez as [->%Z.eqb_eq| ->%Z.eqb_eq]. }
  destruct (image_tables memory info) as [t|] eqn:Eti; [|apply Hnone; [intros ? ? ? (? & ? & ? & ? & ? & ? & _ & _ & ? & _); congruence|done]].
  clear Hnone. apply orb_false_iff in Ez as [Hd%Z.eqb_neq Hi%Z.eqb_neq].
  set (context' := {| image_count := u32 (image_count context + 1);
                      registration_count := registration_count context; made := made context |}).
  assert (context' = registered_in d i context' []) as Ec.
  { unfold registered_in, context'. cbn [image_count registration_count made map]. rewrite app_nil_r.
    unfold size, u32. cbn [length]. rewrite Z.add_0_r, (Z.mod_small (registration_count context)) by done. done. }
  rewrite Ec. destruct (register_all memory d i t (seq 0 (relocation_count t)) context' [] 0) as (m' & ->).
  { intros k s _. rewrite Z.bits_0. symmetry. apply bool_decide_eq_false_2, not_elem_of_nil. }
  destruct (add_symbols_spec (omap (imported_symbol memory t) (seq 0 (relocation_count t))) [] ltac:(constructor)) as [Hnd Hin].
  eexists. cbn [fst registered_in made registration_count context']. split; [done|]. split; [|split].
  - unfold size. by rewrite length_map.
  - apply NoDup_fmap; [by intros ? ? [= ->]|done].
  - intros device inode s. rewrite list_elem_of_fmap. setoid_rewrite Hin. setoid_rewrite elem_of_nil.
    setoid_rewrite list_elem_of_omap. setoid_rewrite elem_of_seq. split.
    + intros (s' & [= -> -> ->] & [|[Hk (j & Hj & E)]]); [done|]. split; [done|]. exists name, t, j. split_and!; try done; lia.
    + intros [Hk (name' & t' & j & E1 & _ & E & _ & _ & E2 & Hj & Ej)].
      assert (name' = name) as -> by congruence. assert (t' = t) as -> by congruence.
      rewrite Es in E. injection E as <- <-.
      exists s. split; [done|]. right. split; [done|]. exists j. split; [lia|done].
Qed.

(** ** Lemmas: the rules *)

(** A path below the storage of a user, without [.] and [..]. *)
Definition relative_path (path : bytes) : Prop :=
  path <> [] /\ is_absolute path = false /\ size path < PATH_MAX /\ safe_components path.

Definition rule_installed (r : PathRule) : Prop :=
  10000 <= caller_uid r /\ relative_path (visible_path r) /\ relative_path (backing_path r).

(** No two rules of a caller and user move the same path to different places. *)
Definition unambiguous (rules : list PathRule) : Prop :=
  forall r1 r2, r1 ∈ rules -> r2 ∈ rules -> caller_uid r1 = caller_uid r2 -> user_id r1 = user_id r2 ->
    visible_path r1 = visible_path r2 -> backing_path r1 = backing_path r2.

Lemma valid_components_safe parts :
  valid_components parts = true -> Forall (fun p => p <> lit "." /\ p <> lit "..") parts.
Proof.
  induction parts as [|p parts IH]; [done|]. intros H.
  assert (p = [] /\ parts = [] \/ valid_component p = true /\ valid_components parts = true) as [[-> ->]|[Hp Hr]].
  { destruct p as [|b p], parts as [|q parts]; cbn [valid_components] in H; [by left|apply andb_true_iff in H..]; by right. }
  - repeat constructor; done.
  - constructor; [|by apply IH]. unfold valid_component in Hp. split_tests. done.
Qed.

Lemma ValidLogicalRulePath_relative path : ValidLogicalRulePath path = true -> relative_path path.
Proof.
  unfold ValidLogicalRulePath. destruct (_ || _ || _ || _ || _) eqn:E; [done|]. intros H%valid_components_safe.
  split_tests. by split_and!.
Qed.

Lemma install_rules_spec rules accepted :
  Forall rule_installed accepted -> unambiguous accepted ->
  let '(installed, all) := install_rules rules accepted in
  Forall rule_installed installed /\ unambiguous installed /\ (all = true -> installed = accepted ++ rules).
Proof.
  revert accepted. induction rules as [|r rules IH]; intros accepted Hok Hun; cbn [install_rules].
  { split_and!; [done..|]. by rewrite app_nil_r. }
  destruct (_ || _ || _) eqn:E; [by split_and!|].
  destruct (existsb _ accepted) eqn:Ea; [by split_and!|].
  assert (rule_installed r) as Hr.
  { apply orb_false_iff in E as [[E1 E2%negb_false_iff]%orb_false_iff E3%negb_false_iff].
    apply Z.ltb_ge in E1. split_and!; [done|by apply ValidLogicalRulePath_relative..]. }
  assert (forall x, x ∈ accepted -> caller_uid x = caller_uid r -> user_id x = user_id r ->
            visible_path x = visible_path r -> backing_path x = backing_path r) as Hx.
  { intros x Hx Hc Hu Hv. apply not_true_iff_false in Ea. rewrite existsb_exists in Ea.
    destruct (decide (backing_path x = backing_path r)) as [|Hne]; [done|]. exfalso. apply Ea. exists x.
    split; [by apply list_elem_of_In|]. unfold ambiguous, same_scope.
    rewrite Hc, Hu, !Z.eqb_refl, bool_decide_eq_true_2, bool_decide_eq_false_2; done. }
  specialize (IH (accepted ++ [r])). destruct (install_rules rules (accepted ++ [r])) as [installed all].
  destruct IH as (H1 & H2 & H3).
  - apply Forall_app. by split; [|constructor].
  - intros r1 r2. rewrite !elem_of_app, !list_elem_of_singleton. intros [H1| ->] [H2| ->] Hc Hu Hv.
    + by apply Hun.
    + by apply Hx.
    + symmetry. by apply Hx.
    + done.
  - split_and!; [done..|]. intros Ha. by rewrite (H3 Ha), <- app_assoc.
Qed.

(** ** The globals of the process *)

(** Before the first [Install]. *)
Definition initial_globals : Globals :=
  {| g_rules := []; g_hooks_enabled := false; g_thread_state_key_ready := false; g_fuse_install_state := 0;
     g_api := false; g_binder_get_calling_uid := false; g_binder_clear_identity := false;
     g_binder_restore_identity := false; g_originals := ∅ |}.

(** The globals that the process may come to, whatever is loaded and however often [Install] is
    called; the user of a rule is a [uint32_t]. *)
Inductive reachable : Globals -> Prop :=
  | reachable_initial : reachable initial_globals
  | reachable_install l api env rules g :
      reachable g -> (forall rs, rules = Some rs -> Forall rule_ok rs) -> reachable (snd (Install l api env rules g))
  | reachable_dlopen l g_dlopen path flags g :
      reachable g -> reachable (snd (HookedDlopen l g_dlopen path flags g))
  | reachable_dlopen_ext l g_dlopen_ext path flags info g :
      reachable g -> reachable (snd (HookedAndroidDlopenExt l g_dlopen_ext path flags info g)).

(** What the replacements rely on when they act. *)
Definition operational (g : Globals) : Prop :=
  g_thread_state_key_ready g = true /\ g_rules g <> [] /\ size (g_rules g) <= kMaxRules
  /\ Forall rule_ok (g_rules g) /\ Forall rule_installed (g_rules g) /\ unambiguous (g_rules g)
  /\ g_binder_get_calling_uid g = true /\ g_binder_clear_identity g = true /\ g_binder_restore_identity g = true
  /\ filesystem_complete g = true.

Lemma is_set_more g found symbol : is_set g symbol = true -> is_set (with_originals found g) symbol = true.
Proof. unfold is_set. cbn [with_originals g_originals]. rewrite !bool_decide_eq_true. set_solver. Qed.

Lemma filesystem_complete_more g found :
  filesystem_complete g = true -> filesystem_complete (with_originals found g) = true.
Proof.
  unfold filesystem_complete. rewrite !andb_true_iff, !orb_true_iff, !forallb_forall.
  intros [[Ho Hs] Ha]. split_and!.
  - destruct Ho; [left|right]; by apply is_set_more.
  - destruct Hs as [[[?|?]|?]|?]; [left; left; left|left; left; right|left; right|right]; by apply is_set_more.
  - intros s Hs'. by apply is_set_more, Ha.
Qed.

Lemma operational_more found g : operational g -> operational (with_originals found g).
Proof.
  unfold operational. cbn [with_originals g_rules g_thread_state_key_ready g_binder_get_calling_uid
    g_binder_clear_identity g_binder_restore_identity]. intros H. split_and!; try apply H.
  apply filesystem_complete_more, H.
Qed.

(** A library that is loaded later changes the originals and the state of its own hooks. *)
Lemma MaybeInstallFuseHooks_spec l path handle g :
  exists found s, MaybeInstallFuseHooks l path handle g = with_fuse_state s (with_originals found g)
    /\ (g_fuse_install_state g <> 0 -> s = g_fuse_install_state g /\ found = ∅).
Proof.
  assert (with_fuse_state (g_fuse_install_state g) (with_originals ∅ g) = g) as Hid.
  { destruct g. unfold with_fuse_state, with_originals. cbn. f_equal. set_solver. }
  assert (forall a b, with_originals a (with_originals b g) = with_originals (b ∪ a) g) as Hoo.
  { intros a b. unfold with_originals. cbn. f_equal. set_solver. }
  assert (forall a s, with_originals a (with_fuse_state s g) = with_fuse_state s (with_originals a g)) as Hof by done.
  unfold MaybeInstallFuseHooks.
  destruct (_ || _); [by exists ∅, (g_fuse_install_state g)|].
  destruct (g_fuse_install_state g =? 0) eqn:E; cbn [negb]; [|by exists ∅, (g_fuse_install_state g)].
  apply Z.eqb_eq in E. rewrite E in *.
  set (g1 := if handle && _ && _ then _ else _).
  assert (exists found, g1 = with_fuse_state 1 (with_originals found g)) as (f1 & ->).
  { unfold g1. destruct (_ && _); [by eexists|]. exists ∅. by rewrite <- Hof, <- Hid at 1. }
  destruct (registration_count _ =? 0).
  - eexists f1, _. by split.
  - destruct (pltHookCommit l _) as [committed found]. eexists (f1 ∪ found), _. split; [|done].
    unfold with_fuse_state, with_originals. cbn. f_equal. set_solver.
Qed.

Lemma RegisterMappedHooks_fold memory stat target images context :
  registration_count context = u32 (size (made context)) ->
  let context' := fold_left (RegisterImageImports memory stat target) images context in
  registration_count context' = u32 (size (made context'))
  /\ forall device inode s, registration device inode s ∈ made context'
       <-> registration device inode s ∈ made context
           \/ s ∈ kHookSpecs /\ exists info, info ∈ images /\ hookable_import memory stat target info device inode s.
Proof.
  revert context. induction images as [|info images IH]; intros context Hc; cbn [fold_left].
  { split; [done|]. intros device inode s. split; [by left|]. intros [|(_ & info & Hi & _)]; [done|]. by apply elem_of_nil in Hi. }
  destruct (RegisterImageImports_spec memory stat target context info) as (new & Em & Ec & _ & Hs).
  { rewrite Hc. unfold u32. apply Z.mod_pos_bound. lia. }
  destruct (IH (RegisterImageImports memory stat target context info)) as [IH1 IH2].
  { rewrite Ec, Em, Hc, size_app. unfold u32. by rewrite Zplus_mod_idemp_l. }
  split; [exact IH1|]. intros device inode s. rewrite IH2, Em, elem_of_app, Hs.
  setoid_rewrite elem_of_cons. naive_solver.
Qed.

Lemma RegisterMappedHooks_count l target :
  registration_count (RegisterMappedHooks l target) = u32 (size (made (RegisterMappedHooks l target))).
Proof. by apply RegisterMappedHooks_fold. Qed.

(** What [Install] leaves, when it comes to the hooks: the rules that were accepted and the
    methods of Binder are in place, and what is missing is decided by the registration. *)
Lemma Install_cases l api env rules g :
  let '(result, g') := Install l api env rules g in
  g' = g /\ result = nothing_installed
  \/ g_hooks_enabled g' = false /\ virtualization_active result = false
  \/ exists input, rules = Some input /\ g_hooks_enabled g' = true /\ virtualization_active result = true
       /\ g_rules g' = input /\ input <> [] /\ size input <= kMaxRules
       /\ Forall rule_installed input /\ unambiguous input /\ g_thread_state_key_ready g' = true
       /\ g_binder_get_calling_uid g' = true /\ g_binder_clear_identity g' = true
       /\ g_binder_restore_identity g' = true /\ filesystem_complete g' = true.
Proof.
  unfold Install. destruct rules as [input|]; [|by left].
  destruct (negb api || negb env || (size input =? 0) || (kMaxRules <? size input)) eqn:Eargs; [by left|].
  destruct (negb (g_thread_state_key_ready g || key_create_ok l)); [by left|].
  pose proof (install_rules_spec input [] ltac:(constructor) ltac:(by intros ? ? ?%elem_of_nil)) as Hi.
  destruct (install_rules input []) as [accepted all]. destruct Hi as (Hok & Hun & Hall).
  destruct all; cbn [negb]; [|right; by left]. specialize (Hall eq_refl). cbn [app] in Hall. subst accepted.
  unfold InstallBinderIdentityHooks. destruct (jni_methods l) as [[a b] c].
  destruct (a && b && c) eqn:Ej; cbn [negb]; [|right; by left].
  apply andb_true_iff in Ej as [[-> ->]%andb_true_iff ->].
  unfold RegisterHooks, ShouldEnableHooks. destruct (pltHookCommit l _) as [committed found].
  cbn [virtualization_active]. destruct (committed && _ && true) eqn:Ea; cbn [negb virtualization_active];
    [|right; by left].
  right. right. exists input. apply andb_true_iff in Ea as [[_ Hf]%andb_true_iff _].
  apply orb_false_iff in Eargs as [[_ Hs%Z.eqb_neq]%orb_false_iff Hm%Z.ltb_ge].
  split_and!; try done. by intros ->.
Qed.

(** Nothing is left behind unless [MustRetainModule] says so. *)
Lemma Install_retained l api env rules g :
  MustRetainModule (fst (Install l api env rules g)) = false ->
  let g' := snd (Install l api env rules g) in
  g_originals g' = g_originals g
  /\ (g_binder_get_calling_uid g' = true -> g_binder_get_calling_uid g = true)
  /\ (g_binder_clear_identity g' = true -> g_binder_clear_identity g = true)
  /\ (g_binder_restore_identity g' = true -> g_binder_restore_identity g = true).
Proof.
  unfold Install. destruct rules as [input|]; [|done]. destruct (_ || _ || _ || _); [done|].
  destruct (negb _); [done|]. destruct (install_rules input []) as [accepted all]. destruct all; cbn [negb]; [|done].
  unfold InstallBinderIdentityHooks. destruct (jni_methods l) as [[a b] c].
  destruct (a && b && c) eqn:Ej; cbn [negb].
  - unfold RegisterHooks. destruct (pltHookCommit l _) as [committed found]. unfold MustRetainModule.
    cbn [fst hook_registration_attempted identity_hook_attempted]. by rewrite orb_true_r.
  - unfold MustRetainModule. cbn [fst hook_registration_attempted identity_hook_attempted orb].
    intros [[-> ->]%orb_false_iff ->]%orb_false_iff. done.
Qed.

(** The converse: something is left behind whenever the module has to stay, or is active. *)
Lemma Install_hooked l api env rules g :
  let '(result, g') := Install l api env rules g in
  virtualization_active result = true \/ MustRetainModule result = true ->
  g_binder_get_calling_uid g' = true \/ g_binder_clear_identity g' = true \/ g_binder_restore_identity g' = true.
Proof.
  unfold Install, MustRetainModule. destruct rules as [input|]; [|by intros [?|?]].
  destruct (_ || _ || _ || _); [by intros [?|?]|]. destruct (negb _); [by intros [?|?]|].
  destruct (install_rules input []) as [accepted all]. destruct all; cbn [negb]; [|by intros [?|?]].
  unfold InstallBinderIdentityHooks. destruct (jni_methods l) as [[a b] c]. destruct (a && b && c) eqn:Ej; cbn [negb].
  - apply andb_true_iff in Ej as [[-> ->]%andb_true_iff ->].
    unfold RegisterHooks. destruct (pltHookCommit l _) as [committed found]. intros _. left.
    by destruct (negb _), (ShouldEnableHooks _).
  - cbn. intros [?|H]; [done|]. destruct a, b, c; cbn in *; auto; done.
Qed.

Lemma reachable_operational g : reachable g -> g_hooks_enabled g = true -> operational g.
Proof.
  intros H. induction H as [|l api env rules g Hg IH Hr|l f path flags g Hg IH|l f path flags info g Hg IH]; [done|..].
  - pose proof (Install_cases l api env rules g) as Hc. destruct (Install l api env rules g) as [result g']. cbn [snd].
    destruct Hc as [[-> _]|[[? _]|(input & -> & He & _ & <- & Hn & Hm & Hi & Hu & Hrest)]]; [done|congruence|].
    intros _. split_and!; try done; try apply Hrest. by apply Hr.
  - unfold HookedDlopen. destruct (is_set g _); [|done]. cbn [negb snd].
    destruct (MaybeInstallFuseHooks_spec l path (bool_decide (f path flags <> None)) g) as (found & s & -> & _).
    intros He. by apply (operational_more found g), IH.
  - unfold HookedAndroidDlopenExt. destruct (is_set g _); [|done]. cbn [negb snd].
    destruct (MaybeInstallFuseHooks_spec l path (bool_decide (f path flags info <> None)) g) as (found & s & -> & _).
    intros He. by apply (operational_more found g), IH.
Qed.

(** ** Properties *)

(** C23. The replacements act only when everything they rely on is in place: whatever is
    loaded and however often [Install] is called, while the hooks are enabled there are between
    one and 64 rules, each of an application and between two paths without [.] and [..], no two
    of them contradict each other, the methods of Binder are hooked, and so is every group of
    file functions that [Install] requires. *)
Theorem enabled_hooks_are_complete g : reachable g -> g_hooks_enabled g = true -> operational g.
Proof. apply reachable_operational. Qed.

(** The hooks that are registered are exactly the imports, by a loaded image that is to
    be hooked, of the functions there is a replacement for. *)
Theorem registered_hooks_are_imports l target device inode symbol :
  registration device inode symbol ∈ made (RegisterMappedHooks l target)
  <-> symbol ∈ kHookSpecs
      /\ exists info, info ∈ images l /\ hookable_import (memory l) (stat l) target info device inode symbol.
Proof.
  destruct (RegisterMappedHooks_fold (memory l) (stat l) target (images l)
    {| image_count := 0; registration_count := 0; made := [] |} eq_refl) as [_ H].
  rewrite (H device inode symbol). cbn [made]. rewrite elem_of_nil. naive_solver.
Qed.

(** What [Install] reports is what it did: the hooks of a successful installation are
    enabled with all the rules it was given; after any other the hooks are disabled, or nothing
    was done at all; and when the module need not stay loaded, no method of Binder and no import
    of an image was replaced. *)
Theorem install_result_honest l api env rules g :
  let '(result, g') := Install l api env rules g in
  (virtualization_active result = true -> g_hooks_enabled g' = true /\ rules = Some (g_rules g'))
  /\ (virtualization_active result = false -> g_hooks_enabled g' = false \/ g' = g)
  /\ (MustRetainModule result = false ->
       g_originals g' = g_originals g
       /\ (g_binder_get_calling_uid g' = true -> g_binder_get_calling_uid g = true)
       /\ (g_binder_clear_identity g' = true -> g_binder_clear_identity g = true)
       /\ (g_binder_restore_identity g' = true -> g_binder_restore_identity g = true)).
Proof.
  pose proof (Install_cases l api env rules g) as Hc. pose proof (Install_retained l api env rules g) as Hr.
  destruct (Install l api env rules g) as [result g']. cbn [fst snd] in Hr. split_and!; [| |exact Hr].
  - intros Ha. destruct Hc as [[_ ->]|[[_ ?]|(input & -> & He & _ & -> & _)]]; [done|congruence|done].
  - intros Ha. destruct Hc as [[-> _]|[[? _]|(input & _ & _ & ? & _)]]; [by right|by left|congruence].
Qed.

(** ** Witnesses *)

(** An image with one segment, whose tables are at 1000 and whose second relocation imports
    [mkdir]. *)
Definition sample_image : Image :=
  {| dlpi_addr := 0; dlpi_name := Some (lit "/system/lib64/libjavacore.so");
     dlpi_phdr := [{| p_type := PT_LOAD; p_vaddr := 4096; p_memsz := 65536 |};
                   {| p_type := PT_DYNAMIC; p_vaddr := 4096; p_memsz := 128 |}] |}.

Definition sample_memory : Memory :=
  {| dyn_at := fun _ i => nth i [(DT_STRTAB, 5000); (DT_STRSZ, 100); (DT_SYMTAB, 6000); (DT_JMPREL, 7000);
                                 (DT_PLTRELSZ, 72); (DT_PLTREL, DT_RELA); (DT_NULL, 0)] (DT_NULL, 0);
     r_info_at := fun _ _ i => Z.shiftl (Z.of_nat i) 32;
     st_name_at := fun _ i => i * 60;
     text_at := fun a => if a =? 5060 then lit "mkdir" else lit "memcpy" |}.

(** The 13 originals without which [Install] does not enable the hooks. *)
Definition required : list bytes :=
  [lit "open"; lit "stat"; lit "access"; lit "opendir"; lit "mkdir"; lit "remove"; lit "rename"; lit "realpath";
   lit "readlink"; lit "chmod"; lit "chown"; lit "statvfs"; lit "inotify_add_watch"].

Definition sample_loader : Loader :=
  {| images := [sample_image]; memory := sample_memory; stat := fun _ => Some (5, 77);
     pltHookCommit := fun _ => (true, list_to_set required); key_create_ok := true; dlsym_fuse_req_ctx := false;
     jni_methods := (true, true, true) |}.

Example mkdir_registered :
  made (RegisterMappedHooks sample_loader IsPermanentHookTarget) = [registration 5 77 (lit "mkdir")].
Proof. vm_compute. done. Qed.

Lemma enabled_hooks_are_complete_witness :
  operational (snd (Install sample_loader true true (Some sample_rules) initial_globals)).
Proof.
  apply enabled_hooks_are_complete; [|vm_compute; reflexivity].
  apply reachable_install; [exact reachable_initial|]. intros rs [= <-]. exact sample_rules_ok.
Defined.
