(* ===== verification/MediaQueryHook.v ===== *)
(** * The query hook of the media provider's clients

    zygisk/src/media_query_hook.cpp: [BinderProxy.transactNative] is replaced in the
    application, and a query of the media provider is sent on with the denied paths excluded.

    The hook is calls of Java through JNI. What Java answers is a [Jvm], a function of a clock,
    and so is whether a call throws; JNI leaves a call while an exception is pending undefined,
    which is [Oob] here. [dataPosition], [dataSize] and [setDataPosition] of a parcel do not
    throw. References are not represented: an object is its value or an identity, 0 for null. *)

From S2P Require Import Prelude Path Snapshot Provider.

Local Open Scope pg_scope.

Definition kProviderDescriptor : bytes := lit "android.content.IContentProvider".
Definition kMediaAuthority : bytes := lit "media".
Definition kMaxDenyPaths : Z := 8.
Definition kMaxDenyArguments : Z := kMaxDenyPaths * 2.
Definition kMaxSelectionSize : Z := 8192.
Definition kQueryTransaction : Z := 1.

(** A [Bundle]: the selection, its arguments, and the identity of everything else. *)
Record Bundle : Type := {
  b_selection : option bytes;
  b_arguments : option (list (option bytes));
  b_rest : Z;
}.

(** What is written to a parcel. *)
Inductive Write : Type :=
  | WriteInterfaceToken (descriptor : bytes)
  | WriteAttribution (attribution : Z)
  | WriteUri (uri : Z)
  | WriteStringArray (strings : Z)
  | WriteBundle (bundle : Bundle)
  | WriteStrongBinder (binder : Z).

(** The parcel of a transaction: the one that was given, at its position, or a new one. *)
Inductive Parcel : Type :=
  | Given (position : Z)
  | Rewritten (writes : list Write).

Record Transaction : Type := {
  t_code : Z;
  t_flags : Z;
  t_data : Parcel;
}.

Inductive QueryOutcome : Set := kNonMedia | kMediaFallback | kMediaRewrite | kFallback.

Record Counters : Type := {
  g_query_total : Z;
  g_query_non_media : Z;
  g_query_media : Z;
  g_query_rewrite : Z;
  g_query_fallback : Z;
  g_query_cpu_ns : Z;
}.

(** The thread and the globals: the exception, the position of the parcel that was given, the
    transactions that reached the original, newest last, the provider that was recognized. *)
Record Jni : Type := {
  pending : bool;
  moment : nat;
  position : Z;
  sent : list Transaction;
  g_cached_descriptor_binder : Z;
  counters : Counters;
  g_rewrite_log_count : Z;
}.

Record Jvm : Type := {
  throws : nat -> bool;
  elapsed_ns : nat -> Z;
  same_object : nat -> Z -> Z -> bool;
  interface_descriptor : nat -> option bytes;
  utf_chars_ok : nat -> bool;
  global_ref_ok : nat -> bool;
  position_after : nat -> Z;
  data_size : nat -> Z;
  attribution_of : nat -> Z;
  uri_of : nat -> Z;
  authority_of : nat -> Z -> option bytes;
  projection_of : nat -> Z;
  bundle_of : nat -> option Bundle;
  binder_of : nat -> Z;
  new_object_ok : nat -> bool;
  original_answer : nat -> Z;
  found : nat -> bool;
}.

(** What [Install] leaves. *)
Record Config : Type := {
  g_original_transact : bool;
  g_deny_paths : list bytes;
  g_deny_filter : bytes;
  g_deny_arguments : list bytes;
  g_cached_deny_filter : option bytes;
  g_cached_deny_arguments : option (list bytes);
}.

Definition jni (A : Type) : Type := Jni -> outcome Empty_set (A * Jni).

#[export] Instance jni_ret : MRet jni := fun A x s => Ok (x, s).

#[export] Instance jni_bind : MBind jni := fun A B f m s => '(x, s) ← m s; f x s.

Definition with_state (p : bool) (pos : Z) (s : Jni) : Jni :=
  {| pending := p; moment := S (moment s); position := pos; sent := sent s;
     g_cached_descriptor_binder := g_cached_descriptor_binder s; counters := counters s;
     g_rewrite_log_count := g_rewrite_log_count s |}.

Section Jni.
Context (vm : Jvm).

(** ** Calls of Java *)

(** A call that returns [null] when it throws. *)
Definition invoke {A} (null : A) (answer : nat -> A) : jni A := fun s =>
  if pending s then Oob
  else if throws vm (moment s) then Ok (null, with_state true (position s) s)
  else Ok (answer (moment s), with_state false (position s) s).

(** A method that reads from the parcel that was given: it moves the position. *)
Definition read_parcel {A} (null : A) (answer : nat -> A) : jni A := fun s =>
  if pending s then Oob
  else
    let pos := position_after vm (moment s) in
    if throws vm (moment s) then Ok (null, with_state true pos s)
    else Ok (answer (moment s), with_state false pos s).

Definition data_position : jni Z := fun s =>
  if pending s then Oob else Ok (position s, with_state false (position s) s).

Definition set_data_position (pos : Z) : jni unit := fun s =>
  if pending s then Oob else Ok (tt, with_state false pos s).

Definition data_size_of : jni Z := fun s =>
  if pending s then Oob else Ok (data_size vm (moment s), with_state false (position s) s).

(** Whether there was an exception; there is none afterwards. *)
Definition ClearException : jni bool := fun s => Ok (pending s, with_state false (position s) s).

(** [GetStringUTFChars] *)
Definition utf_chars (text : bytes) : jni (option bytes) :=
  invoke None (fun t => if utf_chars_ok vm t then Some text else None).

(** An object that is created, or a reference to one: null when there is no memory. *)
Definition new_object {A} (value : A) : jni (option A) :=
  invoke None (fun t => if new_object_ok vm t then Some value else None).

(** ** Counting *)

Definition bump (b : bool) (z : Z) : Z := if b then u64 (z + 1) else z.

Definition RecordQueryPerf (outcome : QueryOutcome) (elapsed : Z) (c : Counters) : Counters :=
  let is_media := match outcome with kMediaFallback | kMediaRewrite => true | _ => false end in
  {| g_query_total := u64 (g_query_total c + 1);
     g_query_non_media := bump (match outcome with kNonMedia => true | _ => false end) (g_query_non_media c);
     g_query_media := bump is_media (g_query_media c);
     g_query_rewrite := bump (match outcome with kMediaRewrite => true | _ => false end) (g_query_rewrite c);
     g_query_fallback :=
       bump (match outcome with kMediaFallback | kFallback => true | _ => false end) (g_query_fallback c);
     g_query_cpu_ns := u64 (g_query_cpu_ns c + elapsed) |}.

(** [QueryPerfScope::Finish], which every way through the hook comes to once. *)
Definition Finish (outcome : QueryOutcome) : jni unit := fun s =>
  Ok (tt, {| pending := pending s; moment := S (moment s); position := position s; sent := sent s;
             g_cached_descriptor_binder := g_cached_descriptor_binder s;
             counters := RecordQueryPerf outcome (elapsed_ns vm (moment s)) (counters s);
             g_rewrite_log_count := g_rewrite_log_count s |}).

(** ** The filter *)

Definition IsMediaUri (uri : Z) : jni bool :=
  if uri =? 0 then mret false
  else
    authority ← invoke None (fun t => authority_of vm t uri);
    cleared ← ClearException;
    match (if (cleared : bool) then None else authority) with
    | None => mret false
    | Some authority =>
        value ← utf_chars authority;
        mret (match value with Some value => value == kMediaAuthority | None => false end)
    end.

(** The elements of an array, one by one, appended to the new array. *)
Fixpoint copy_elements (values merged : list (option bytes)) : jni (list (option bytes)) :=
  match values with
  | [] => mret merged
  | value :: rest =>
      value ← invoke None (fun _ => value);
      invoke tt (fun _ => tt);;
      copy_elements rest (merged ++ [value])
  end.

(** The same for the arguments of the filter; a null element ends it. *)
Fixpoint copy_deny_elements (values : list bytes) (merged : list (option bytes))
    : jni (option (list (option bytes))) :=
  match values with
  | [] => mret (Some merged)
  | value :: rest =>
      value ← invoke None (fun _ => Some value);
      match value with
      | None => mret None
      | Some value =>
          cleared ← ClearException;
          if (cleared : bool) then mret None
          else invoke tt (fun _ => tt);; copy_deny_elements rest (merged ++ [Some value])
      end
  end.

Context (cfg : Config).

Definition MergeArguments (original : option (list (option bytes))) : jni (option (list (option bytes))) :=
  match g_cached_deny_arguments cfg with
  | None => mret None
  | Some deny =>
      original_count ← (match original with
                        | None => mret 0
                        | Some original => invoke 0 (fun _ => size original)
                        end);
      if original_count =? 0 then new_object (Some <$> deny)
      else
        array ← new_object [];
        match array with
        | None => mret None
        | Some array =>
            cleared ← ClearException;
            if (cleared : bool) then mret None
            else
              merged ← copy_elements (default [] original) array;
              merged ← copy_deny_elements deny merged;
              match merged with
              | None => mret None
              | Some merged =>
                  cleared ← ClearException;
                  mret (if (cleared : bool) then None else Some merged)
              end
        end
  end.

(** [snprintf] of the two selections, when it fits. *)
Definition merge_selection (original : bytes) : option bytes :=
  let merged := lit "(" ++ original ++ lit ") AND (" ++ g_deny_filter cfg ++ lit ")" in
  if (size merged <=? 0) || (kMaxSelectionSize <=? size merged) then None else Some merged.

(** [ApplyFilterToBundle], from the merged selection on. *)
Definition put_filter (bundle : Bundle) (original_arguments : option (list (option bytes)))
    (merged_selection : option bytes) : jni (bool * Bundle) :=
  merged_arguments ← MergeArguments original_arguments;
  match merged_arguments, merged_selection with
  | Some merged_arguments, Some merged_selection =>
      cleared ← ClearException;
      if (cleared : bool) then mret (false, bundle)
      else
        invoke tt (fun _ => tt);;
        invoke tt (fun _ => tt);;
        cleared ← ClearException;
        mret (negb cleared, {| b_selection := Some merged_selection; b_arguments := Some merged_arguments;
                               b_rest := b_rest bundle |})
  | _, _ => mret (false, bundle)
  end.

(** Whether the filter was applied, and the bundle. *)
Definition ApplyFilterToBundle (bundle : Bundle) : jni (bool * Bundle) :=
  original_selection ← invoke None (fun _ => b_selection bundle);
  original_arguments ← invoke None (fun _ => b_arguments bundle);
  cleared ← ClearException;
  if (cleared : bool) then mret (false, bundle)
  else
    original_text ← (match original_selection with
                     | None => mret None
                     | Some text => utf_chars text
                     end);
    match original_selection, original_text with
    | Some _, None => ClearException;; mret (false, bundle)
    | _, _ =>
        match original_text with
        | None | Some [] =>
            merged_selection ← (match g_cached_deny_filter cfg with
                                | None => mret None
                                | Some filter => new_object filter
                                end);
            put_filter bundle original_arguments merged_selection
        | Some text =>
            match merge_selection text with
            | None => mret (false, bundle)
            | Some merged => merged_selection ← new_object merged; put_filter bundle original_arguments merged_selection
            end
        end
    end.

(** ** The hook *)

(** The original, which may throw as any call of Java. *)
Definition transact (code flags : Z) (data : Parcel) : jni Z := fun s =>
  if pending s then Oob
  else
    Ok (original_answer vm (moment s),
        {| pending := throws vm (moment s); moment := S (moment s); position := position s;
           sent := sent s ++ [{| t_code := code; t_flags := flags; t_data := data |}];
           g_cached_descriptor_binder := g_cached_descriptor_binder s; counters := counters s;
           g_rewrite_log_count := g_rewrite_log_count s |}).

Definition CallOriginal (code flags : Z) (data : jni Parcel) : jni Z :=
  if negb (g_original_transact cfg) then mret 0
  else data ← data; transact code flags data.

Definition given : jni Parcel := fun s => Ok (Given (position s), s).

Definition cache_binder (binder : Z) : jni unit := fun s =>
  Ok (tt, {| pending := pending s; moment := moment s; position := position s; sent := sent s;
             g_cached_descriptor_binder :=
               if g_cached_descriptor_binder s =? 0 then binder else g_cached_descriptor_binder s;
             counters := counters s; g_rewrite_log_count := g_rewrite_log_count s |}).

Definition cached_binder : jni Z := fun s => Ok (g_cached_descriptor_binder s, s).

(** From [getInterfaceDescriptor] on. *)
Definition asks_descriptor (binder : Z) : jni bool :=
  descriptor ← invoke None (interface_descriptor vm);
  cleared ← ClearException;
  match (if (cleared : bool) then None else descriptor) with
  | None => mret false
  | Some descriptor =>
      text ← utf_chars descriptor;
      let is_provider := match text with Some text => text == kProviderDescriptor | None => false end in
      if negb is_provider then mret false
      else
        global_binder ← invoke false (global_ref_ok vm);
        if negb global_binder then mret true
        else
          cleared ← ClearException;
          (if (cleared : bool) then mret tt else cache_binder binder);;
          mret true
  end.

Definition IsProviderBinder (binder : Z) : jni bool :=
  cached ← cached_binder;
  if cached =? 0 then asks_descriptor binder
  else
    same ← invoke false (fun t => same_object vm t binder cached);
    cleared ← ClearException;
    if (cleared : bool) then mret false
    else if (same : bool) then mret true
    else asks_descriptor binder.

Definition log_rewrite : jni unit := fun s =>
  Ok (tt, {| pending := pending s; moment := moment s; position := position s; sent := sent s;
             g_cached_descriptor_binder := g_cached_descriptor_binder s; counters := counters s;
             g_rewrite_log_count := u32 (g_rewrite_log_count s + 1) |}).

(** The writes to the new parcel, each a call. *)
Fixpoint write_all (writes : list Write) : jni unit :=
  match writes with
  | [] => mret tt
  | _ :: rest => invoke tt (fun _ => tt);; write_all rest
  end.

(** [TransactHook], from the parcel [obtain] gives on: the transaction that is sent. *)
Definition send_rewritten (code flags : Z) (writes : list Write) : jni Z :=
  let fall_back := Finish kMediaFallback;; CallOriginal code flags given in
  rewritten ← new_object tt;
  match rewritten with
  | None => fall_back
  | Some _ =>
      cleared ← ClearException;
      if (cleared : bool) then fall_back
      else
        write_all writes;;
        cleared ← ClearException;
        if (cleared : bool) then invoke tt (fun _ => tt);; fall_back
        else
          log_rewrite;;
          Finish kMediaRewrite;;
          result ← CallOriginal code flags (mret (Rewritten writes));
          invoke tt (fun _ => tt);;
          ClearException;;
          mret result
  end.

(** [TransactHook], from the projection of a query of the media provider on. *)
Definition query_media (code flags original_position attribution uri : Z) : jni Z :=
  projection ← read_parcel 0 (projection_of vm);
  query_args ← read_parcel None (bundle_of vm);
  observer ← read_parcel 0 (binder_of vm);
  cancellation ← read_parcel 0 (binder_of vm);
  consumed ← data_position;
  data_size ← data_size_of;
  set_data_position original_position;;
  cleared ← ClearException;
  if cleared || negb (consumed =? data_size) then
    Finish kFallback;; CallOriginal code flags given
  else
    query_args ← (match query_args with
                  | Some query_args => mret (Some query_args)
                  | None => new_object {| b_selection := None; b_arguments := None; b_rest := 0 |}
                  end);
    match query_args with
    | None => Finish kMediaFallback;; CallOriginal code flags given
    | Some query_args =>
        cleared ← ClearException;
        applied ← (if (cleared : bool) then mret (false, query_args) else ApplyFilterToBundle query_args);
        if negb (fst applied) then Finish kMediaFallback;; CallOriginal code flags given
        else
          send_rewritten code flags
            [WriteInterfaceToken kProviderDescriptor; WriteAttribution attribution; WriteUri uri;
             WriteStringArray projection; WriteBundle (snd applied); WriteStrongBinder observer;
             WriteStrongBinder cancellation]
    end.

(** [data] tells whether there is a parcel. *)
Definition TransactHook (binder code : Z) (data : bool) (flags : Z) : jni Z :=
  if negb (g_original_transact cfg) || negb (code =? kQueryTransaction) || negb data
  then CallOriginal code flags given
  else
    provider ← IsProviderBinder binder;
    if negb provider then Finish kNonMedia;; CallOriginal code flags given
    else
      original_position ← data_position;
      set_data_position 0;;
      read_parcel tt (fun _ => tt);;
      attribution ← read_parcel 0 (attribution_of vm);
      uri ← read_parcel 0 (uri_of vm);
      cleared ← ClearException;
      if (cleared : bool) then
        set_data_position original_position;;
        Finish kFallback;;
        CallOriginal code flags given
      else
        media ← IsMediaUri uri;
        if negb media then
          set_data_position original_position;;
          Finish kNonMedia;;
          CallOriginal code flags given
        else
          query_media code flags original_position attribution uri.
End Jni.

Section Installation.
Context (vm : Jvm).

(** ** Install *)

(** The classes, methods and fields that are looked up, in order. *)
Definition kClasses : list bytes :=
  [lit "android/os/BinderProxy"; lit "android/os/Parcel"; lit "android/net/Uri"; lit "android/os/Bundle";
   lit "android/content/AttributionSource"; lit "java/lang/String"; lit "android/os/Parcelable$Creator"].

Definition kMethods : list bytes :=
  [lit "getInterfaceDescriptor"; lit "obtain"; lit "recycle"; lit "dataPosition"; lit "dataSize";
   lit "setDataPosition"; lit "enforceInterface"; lit "writeInterfaceToken"; lit "createStringArray";
   lit "writeStringArray"; lit "readBundle"; lit "writeBundle"; lit "readStrongBinder"; lit "writeStrongBinder";
   lit "createFromParcel"; lit "AttributionSource.writeToParcel"; lit "Uri.writeToParcel"; lit "getAuthority";
   lit "<init>"; lit "getString"; lit "putString"; lit "getStringArray"; lit "putStringArray"].

Definition kCreators : list bytes := [lit "Uri.CREATOR"; lit "AttributionSource.CREATOR"].

(** Whether each was found; a look-up that fails throws. *)
Fixpoint look_up (names : list bytes) : jni bool :=
  match names with
  | [] => mret true
  | _ :: rest => here ← invoke vm false (found vm); others ← look_up rest; mret (here && others)
  end.

(** [GlobalRef] *)
Definition GlobalRef {A} (value : option A) : jni (option A) :=
  match value with
  | None => mret None
  | Some value => new_object vm value
  end.

(** The objects that are created and kept: whether there are all of them. *)
Fixpoint keep_objects (objects : list (jni (option unit))) : jni bool :=
  match objects with
  | [] => mret true
  | object :: rest =>
      value ← object;
      others ← keep_objects rest;
      mret (bool_decide (value <> None) && others)
  end.

Definition InitializeJni : jni bool :=
  classes ← look_up kClasses;
  cleared ← ClearException;
  if cleared || negb classes then mret false
  else
    methods ← look_up kMethods;
    creators ← look_up kCreators;
    cleared ← ClearException;
    if cleared || negb creators then mret false
    else
      let created := value ← new_object vm tt; GlobalRef value in
      kept ← keep_objects
        [created; created; new_object vm tt; new_object vm tt; new_object vm tt; created; created; created];
      cleared ← ClearException;
      mret (negb cleared && kept && methods).

(** The loop that fills the cached array. *)
Fixpoint fill_arguments (arguments : list bytes) : jni bool :=
  match arguments with
  | [] => mret true
  | argument :: rest =>
      value ← new_object vm argument;
      match value with
      | None => mret false
      | Some _ =>
          cleared ← ClearException;
          if (cleared : bool) then mret false
          else
            invoke vm tt (fun _ => tt);;
            cleared ← ClearException;
            if (cleared : bool) then mret false else fill_arguments rest
      end
  end.

(** The filter and its arguments, once Java has both. *)
Definition InitializeDenyFilter (paths : list bytes) : jni (option (bytes * list bytes)) :=
  match BuildDenySelection (Some <$> paths) kMaxSelectionSize kMaxDenyArguments (PATH_MAX + 4) with
  | None => mret None
  | Some (deny_filter, deny_arguments) =>
      filter ← new_object vm deny_filter;
      arguments ← new_object vm deny_arguments;
      match filter, arguments with
      | Some _, Some _ =>
          cleared ← ClearException;
          if (cleared : bool) then mret None
          else
            filled ← fill_arguments deny_arguments;
            if negb filled then mret None
            else
              filter ← GlobalRef filter;
              arguments ← GlobalRef arguments;
              match filter, arguments with
              | Some _, Some _ =>
                  cleared ← ClearException;
                  mret (if (cleared : bool) then None else Some (deny_filter, deny_arguments))
              | _, _ => mret None
              end
      | _, _ => mret None
      end
  end.

(** The loop over the input: each path must lie in the storage of the user. *)
Fixpoint take_deny_paths (prefix : bytes) (paths : list (option bytes)) (taken : list bytes) : option (list bytes) :=
  match paths with
  | [] => Some taken
  | None :: _ => None
  | Some path :: rest =>
      if (PATH_MAX <=? size path) || negb (starts_with prefix path) then None
      else if size path <=? 0 then None
      else take_deny_paths prefix rest (taken ++ [path])
  end.

(** [hooked] tells whether Zygisk found the method; [None] is [false]. *)
Definition Install (api env : bool) (deny_paths : option (list (option bytes))) (uid : Z) (hooked : bool)
    : jni (option Config) :=
  match deny_paths with
  | None => mret None
  | Some deny_paths =>
      if negb api || negb env || (size deny_paths =? 0) || (kMaxDenyPaths <? size deny_paths) || (uid <? 0)
      then mret None
      else
        let user_id := uid / 100000 in
        let prefix := lit "/storage/emulated/" ++ to_string user_id ++ lit "/" in
        if (size prefix <=? 0) || (64 <=? size prefix) then mret None
        else
          match take_deny_paths prefix deny_paths [] with
          | None => mret None
          | Some taken =>
              jni_ready ← InitializeJni;
              if negb jni_ready then mret None
              else
                found ← InitializeDenyFilter taken;
                match found with
                | None => mret None
                | Some (filter, arguments) =>
                    if negb hooked then mret None
                    else
                      mret (Some
                        {| g_original_transact := true; g_deny_paths := taken; g_deny_filter := filter;
                           g_deny_arguments := arguments; g_cached_deny_filter := Some filter;
                           g_cached_deny_arguments := Some arguments |})
                end
          end
  end.
End Installation.

(** ** Reference notions *)

(** The query with the filter conjoined and the arguments of the filter behind its own. *)
Definition constrained (cfg : Config) (bundle bundle' : Bundle) : Prop :=
  b_rest bundle' = b_rest bundle
  /\ exists deny, g_cached_deny_arguments cfg = Some deny
       /\ b_arguments bundle' = Some (default [] (b_arguments bundle) ++ (Some <$> deny))
       /\ match b_selection bundle with
          | None | Some [] => b_selection bundle' = g_cached_deny_filter cfg
          | Some text => b_selection bundle' = merge_selection cfg text
          end
       /\ b_selection bundle' <> None.

(** Every query is counted once, as one for another provider, as rewritten or as left alone. *)
Definition tallied (c : Counters) : Prop :=
  g_query_total c = u64 (g_query_non_media c + g_query_rewrite c + g_query_fallback c).

(** Partial correctness: what holds of the result when no call was undefined. *)
Definition runs {A} (m : jni A) (s : Jni) (Q : A -> Jni -> Prop) : Prop :=
  match m s with Ok (x, s') => Q x s' | Err _ => True | Oob => True end.

(** Nothing was sent and nothing counted, and the clock does not go back. *)
Definition quiet (s s' : Jni) : Prop :=
  (sent s' = sent s /\ (moment s <= moment s')%nat) /\ counters s' = counters s.

Definition at_place (s s' : Jni) : Prop := quiet s s' /\ position s' = position s.

Lemma runs_ret {A} (x : A) s (Q : A -> Jni -> Prop) : Q x s -> runs (mret x) s Q.
Proof. done. Qed.

Lemma runs_bind {A B} (m : jni A) (f : A -> jni B) s Q :
  runs m s (fun x s' => runs (f x) s' Q) -> runs (m ≫= f) s Q.
Proof.
  unfold runs, mbind, jni_bind. destruct (m s) as [[x s']|e|]; cbn [mbind outcome_bind]; done.
Qed.

Lemma runs_mono {A} (m : jni A) s (P Q : A -> Jni -> Prop) :
  runs m s P -> (forall x s', P x s' -> Q x s') -> runs m s Q.
Proof. unfold runs. destruct (m s) as [[x s']|e|]; auto. Qed.

Lemma undelivered_trans s1 s2 s3 : quiet s1 s2 -> quiet s2 s3 -> quiet s1 s3.
Proof. unfold quiet. intros [[-> ?] ->] [[-> ?] ->]. split_and!; [done|lia|done]. Qed.

Lemma at_place_quiet s s' : at_place s s' -> quiet s s'.
Proof. by intros [? _]. Qed.

Lemma at_place_refl s : at_place s s.
Proof. by split_and!. Qed.

Lemma at_place_with_state p s : at_place s (with_state p (position s) s).
Proof. unfold at_place, quiet. cbn. split_and!; (done || lia). Qed.

Lemma quiet_with_state p pos s : quiet s (with_state p pos s).
Proof. unfold at_place, quiet. cbn. split_and!; (done || lia). Qed.

Lemma at_place_moment s s' : at_place s s' -> (moment s <= moment s')%nat.
Proof. by intros [[[_ ?] _] _]. Qed.

Lemma quiet_moment s s' : quiet s s' -> (moment s <= moment s')%nat.
Proof. by intros [[_ ?] _]. Qed.

Lemma at_place_trans s1 s2 s3 : at_place s1 s2 -> at_place s2 s3 -> at_place s1 s3.
Proof.
  intros [H1 E1] [H2 E2]. split; [by eapply undelivered_trans|congruence].
Qed.

Section Runs.
Context (vm : Jvm) (cfg : Config).

(** A call that throws returns null and leaves the exception. *)
Lemma runs_invoke {A} (null : A) answer s (Q : A -> Jni -> Prop) :
  (forall x s', at_place s s' /\ moment s' = S (moment s) -> pending s = false ->
     (pending s' = true /\ x = null \/ pending s' = false /\ x = answer (moment s)) -> Q x s') ->
  runs (invoke vm null answer) s Q.
Proof.
  intros H. unfold runs, invoke. destruct (pending s) eqn:Ep; [done|].
  destruct (throws vm (moment s)); apply H; auto using at_place_with_state.
Qed.

Lemma runs_ClearException s (Q : bool -> Jni -> Prop) :
  (forall s', at_place s s' -> pending s' = false -> Q (pending s) s') -> runs ClearException s Q.
Proof. intros H. apply H; [apply at_place_with_state|done]. Qed.

Lemma runs_read_parcel {A} (null : A) answer s (Q : A -> Jni -> Prop) :
  (forall x s', quiet s s' /\ moment s' = S (moment s) -> pending s = false ->
     (pending s' = true /\ x = null \/ pending s' = false /\ x = answer (moment s)) -> Q x s') ->
  runs (read_parcel vm null answer) s Q.
Proof.
  intros H. unfold runs, read_parcel. destruct (pending s) eqn:Ep; [done|].
  destruct (throws vm (moment s)); apply H; auto using quiet_with_state.
Qed.

Lemma runs_data_position s (Q : Z -> Jni -> Prop) :
  (forall s', at_place s s' -> pending s = false -> pending s' = false -> Q (position s) s') ->
  runs data_position s Q.
Proof. intros H. unfold runs, data_position. destruct (pending s) eqn:Ep; [done|]. apply H; auto using at_place_with_state. Qed.

Lemma runs_data_size s (Q : Z -> Jni -> Prop) :
  (forall x s', at_place s s' -> pending s' = false -> Q x s') -> runs (data_size_of vm) s Q.
Proof. intros H. unfold runs, data_size_of. destruct (pending s) eqn:Ep; [done|]. apply H; auto using at_place_with_state. Qed.

Lemma runs_set_data_position pos s (Q : unit -> Jni -> Prop) :
  (forall s', quiet s s' -> position s' = pos -> pending s' = false -> Q tt s') ->
  runs (set_data_position pos) s Q.
Proof. intros H. unfold runs, set_data_position. destruct (pending s) eqn:Ep; [done|]. apply H; auto using quiet_with_state. Qed.
End Runs.

Ltac jni_step :=
  match goal with
  | |- runs (mbind _ _) _ _ => apply runs_bind
  | |- runs (invoke _ _ _) _ _ => apply runs_invoke; let Hm := fresh "Hmoment" in intros ? ? [? Hm]; intros
  | |- runs (new_object _ _) _ _ => unfold new_object; apply runs_invoke; let Hm := fresh "Hmoment" in intros ? ? [? Hm]; intros
  | |- runs (utf_chars _ _) _ _ => unfold utf_chars; apply runs_invoke; let Hm := fresh "Hmoment" in intros ? ? [? Hm]; intros
  | |- runs ClearException _ _ => apply runs_ClearException; intros
  | |- runs (mret _) _ _ => apply runs_ret
  | |- runs (if pending ?s then _ else _) _ _ => destruct (pending s) eqn:?
  end.

Section Steps.
Context (vm : Jvm) (cfg : Config).

(** What is known of a URI, or a binder, that was recognized between two moments. *)
Definition media_uri (s s' : Jni) (uri : Z) : Prop :=
  uri <> 0 /\ exists t, (moment s <= t < moment s')%nat /\ authority_of vm t uri = Some kMediaAuthority.

Definition provider_binder (s s' : Jni) (binder : Z) : Prop :=
  exists t, (moment s <= t < moment s')%nat
    /\ (interface_descriptor vm t = Some kProviderDescriptor
        \/ g_cached_descriptor_binder s <> 0 /\ same_object vm t binder (g_cached_descriptor_binder s) = true).

Lemma runs_IsMediaUri uri s (Q : bool -> Jni -> Prop) :
  (forall x s', at_place s s' -> (x = true -> media_uri s s' uri) -> Q x s') -> runs (IsMediaUri vm uri) s Q.
Proof.
  intros H. unfold IsMediaUri. destruct (Z.eqb_spec uri 0) as [|Hn]; [by apply runs_ret, H|]. repeat jni_step.
  destruct (if pending s' then None else x) as [a|] eqn:Ea; repeat jni_step; apply H; eauto using at_place_trans; [|done].
  assert (x = Some a /\ x = authority_of vm (moment s) uri) as [-> Ex].
  { destruct (pending s'); [done|]. split; [done|]. by destruct H2 as [[? _]|[_ ?]]. }
  destruct x0 as [v|]; [|done]. intros ->%bool_decide_eq_true. split; [done|]. exists (moment s).
  split; [repeat match goal with H : at_place _ _ |- _ => apply at_place_moment in H end; lia|].
  rewrite <- Ex. destruct H7 as [[_ ?]|[_ E]]; [done|]. destruct (utf_chars_ok _ _); [|done]. by injection E as ->.
Qed.

Lemma runs_IsProviderBinder binder s (Q : bool -> Jni -> Prop) :
  (forall x s', at_place s s' -> (x = true -> provider_binder s s' binder) -> Q x s') ->
  runs (IsProviderBinder vm binder) s Q.
Proof.
  assert (Hask : forall s (Q : bool -> Jni -> Prop),
            (forall x s', at_place s s' -> (x = true -> exists t, (moment s <= t < moment s')%nat
               /\ interface_descriptor vm t = Some kProviderDescriptor) -> Q x s') ->
            runs (asks_descriptor vm binder) s Q).
  { clear. intros s Q H. unfold asks_descriptor. repeat jni_step.
    destruct (if pending s' then None else x) as [d|] eqn:Ed; repeat jni_step; [|by apply H; eauto using at_place_trans].
    assert (x = Some d /\ x = interface_descriptor vm (moment s)) as [-> Ex].
    { destruct (pending s'); [done|]. split; [done|]. by destruct H2 as [[? _]|[_ ?]]. }
    destruct (negb _) eqn:En; repeat jni_step; [by apply H; eauto using at_place_trans|].
    assert (forall s3, at_place s'1 s3 -> exists t, (moment s <= t < moment s3)%nat
               /\ interface_descriptor vm t = Some kProviderDescriptor) as Hfound.
    { intros s3 Hs3. exists (moment s).
      split; [repeat match goal with H : at_place _ _ |- _ => apply at_place_moment in H end; lia|].
      rewrite <- Ex. apply negb_false_iff in En. destruct x0 as [v|]; [|done]. apply bool_decide_eq_true in En as ->.
      destruct H7 as [[_ ?]|[_ E]]; [done|]. destruct (utf_chars_ok _ _); [|done]. by injection E as ->. }
    destruct x; cbn [negb]; repeat jni_step; [| |by apply H; eauto using at_place_trans].
    - apply H; eauto using at_place_trans.
    - unfold runs at 1, cache_binder. apply runs_ret, H; [|intros _; apply (Hfound s'3); eauto using at_place_trans].
      assert (at_place s s'3) as Hs by eauto using at_place_trans. exact Hs. }
  intros H. unfold IsProviderBinder. jni_step. unfold runs at 1, cached_binder.
  destruct (Z.eqb_spec (g_cached_descriptor_binder s) 0) as [|Hcached].
  { apply Hask. intros x s1 Hs Hx. apply H; [done|]. intros (t & ? & ?)%Hx. exists t. auto. }
  repeat jni_step; [by apply H; eauto using at_place_trans|].
  destruct x; repeat jni_step.
  { apply H; [eauto using at_place_trans|]. intros _. exists (moment s).
    split; [repeat match goal with H : at_place _ _ |- _ => apply at_place_moment in H end; lia|].
    right. split; [done|]. by destruct H2 as [[? ?]|[_ <-]]. }
  apply Hask. intros y s1 Hs Hy. apply H; [eauto using at_place_trans|]. intros (t & ? & ?)%Hy. exists t.
  split; [repeat match goal with H : at_place _ _ |- _ => apply at_place_moment in H end; lia|auto].
Qed.

Lemma runs_copy_elements values merged s (Q : list (option bytes) -> Jni -> Prop) :
  (forall x s', at_place s s' -> (pending s' = false -> x = merged ++ values) -> Q x s') ->
  runs (copy_elements vm values merged) s Q.
Proof.
  revert merged s. induction values as [|value values IH]; intros merged s H; cbn [copy_elements].
  { apply runs_ret, H; [done|]. by rewrite app_nil_r. }
  repeat jni_step. apply IH. intros y s3 Hs Hy. apply H; [eauto using at_place_trans|].
  intros Hp. rewrite (Hy Hp), <- app_assoc. cbn [app]. destruct H2 as [[H2 _]|[_ ->]]; [|done].
  congruence.
Qed.

Lemma runs_copy_deny values merged s (Q : option (list (option bytes)) -> Jni -> Prop) :
  (forall x s', at_place s s' -> (pending s' = false -> pending s = false) ->
     (forall m, x = Some m -> m = merged ++ (Some <$> values)) -> Q x s') ->
  runs (copy_deny_elements vm values merged) s Q.
Proof.
  revert merged s. induction values as [|value values IH]; intros merged s H; cbn [copy_deny_elements].
  { apply runs_ret, H; [done|done|]. intros m [= <-]. by rewrite app_nil_r. }
  repeat jni_step. destruct x as [v|]; [|apply runs_ret; by apply H]. repeat jni_step.
  { apply H; eauto using at_place_trans; done. }
  apply IH. intros y s4 Hs _ Hy. apply H; [eauto using at_place_trans|done|].
  intros m Em. rewrite (Hy m Em), <- app_assoc. destruct H2 as [[? _]|[_ [= ->]]]; [congruence|done].
Qed.
End Steps.

Section Hook.
Context (vm : Jvm) (cfg : Config).

Lemma runs_MergeArguments original s (Q : option (list (option bytes)) -> Jni -> Prop) :
  (forall x s', at_place s s' ->
     (forall m, x = Some m -> exists deny, g_cached_deny_arguments cfg = Some deny
        /\ m = default [] original ++ (Some <$> deny)) -> Q x s') ->
  runs (MergeArguments vm cfg original) s Q.
Proof.
  intros H. unfold MergeArguments. destruct (g_cached_deny_arguments cfg) as [deny|]; [|by apply runs_ret, H].
  jni_step.
  assert (runs (match original with None => mret 0 | Some original => invoke vm 0 (fun _ => size original) end) s
            (fun count s' => at_place s s' /\ (pending s' = false -> count = size (default [] original)))) as Hcount.
  { destruct original as [original|]; [|by apply runs_ret]. jni_step. split; [done|]. cbn [default].
    destruct H2 as [[-> _]|[_ ->]]; done. }
  eapply runs_mono; [exact Hcount|]. cbv beta. intros count s1 [Hs1 Hc]. clear Hcount.
  destruct (Z.eqb_spec count 0) as [->|Hne].
  - jni_step. apply H; [eauto using at_place_trans|]. intros m ->. exists deny. split; [done|].
    destruct H2 as [[_ ?]|[_ E]]; [done|]. destruct (new_object_ok _ _); [|done]. injection E as <-.
    specialize (Hc H1). destruct original as [[|b l]|]; cbn [default id] in *; try done.
  - repeat jni_step. destruct x as [array|]; [|apply runs_ret, H; [eauto using at_place_trans|done]].
    repeat jni_step; [apply H; [eauto using at_place_trans|done]|].
    destruct H2 as [[? _]|[_ E]]; [congruence|]. destruct (new_object_ok _ _); [|done]. injection E as ->.
    apply runs_copy_elements. intros merged s4 Hs4 Hm. jni_step.
    apply runs_copy_deny. intros m s5 Hs5 Hp Hd. destruct m as [m|]; repeat jni_step;
      (apply H; [eauto 8 using at_place_trans|]); [|done].
    intros m' E. destruct (pending s5); [done|]. injection E as <-. exists deny. split; [done|].
    by rewrite (Hd m eq_refl), (Hm (Hp eq_refl)).
Qed.

Lemma runs_put_filter bundle selection s (Q : bool * Bundle -> Jni -> Prop) :
  (forall m, selection = Some m -> match b_selection bundle with
                                   | None | Some [] => g_cached_deny_filter cfg = Some m
                                   | Some text => merge_selection cfg text = Some m
                                   end) ->
  (forall r s', at_place s s' -> (fst r = true -> constrained cfg bundle (snd r)) -> Q r s') ->
  runs (put_filter vm cfg bundle (b_arguments bundle) selection) s Q.
Proof.
  intros Hsel H. unfold put_filter. jni_step. apply runs_MergeArguments. intros m s2 Hs2 Hm.
  destruct m as [m|]; [|by apply runs_ret, H]. destruct selection as [sel|]; [|by apply runs_ret, H].
  repeat jni_step; (apply H; [eauto 8 using at_place_trans|]); [done|]. intros _. cbn [snd].
  destruct (Hm m eq_refl) as (deny & Ed & ->). split; [done|]. exists deny. cbn [b_selection b_arguments].
  split_and!; try done. specialize (Hsel sel eq_refl). by destruct (b_selection bundle) as [[|]|].
Qed.

(** The filter is applied to the whole bundle or not at all. *)
Lemma runs_ApplyFilterToBundle bundle s (Q : bool * Bundle -> Jni -> Prop) :
  (forall r s', at_place s s' -> (fst r = true -> constrained cfg bundle (snd r)) -> Q r s') ->
  runs (ApplyFilterToBundle vm cfg bundle) s Q.
Proof.
  intros H. unfold ApplyFilterToBundle. repeat jni_step; [apply H; [eauto using at_place_trans|done]|].
  rename x into selection, x0 into arguments.
  assert (selection = b_selection bundle) as -> by (destruct H2 as [[? _]|[_ ->]]; [congruence|done]).
  assert (arguments = b_arguments bundle) as -> by (destruct H5 as [[? _]|[_ ->]]; [congruence|done]).
  assert (Hs : at_place s s'1) by eauto using at_place_trans. clear H0 H1 H2 H3 H4 H5 H6 H7.
  assert (Hcon : forall selection s1, at_place s s1 ->
    (forall m, selection = Some m -> match b_selection bundle with
                                     | None | Some [] => g_cached_deny_filter cfg = Some m
                                     | Some text => merge_selection cfg text = Some m
                                     end) -> runs (put_filter vm cfg bundle (b_arguments bundle) selection) s1 Q).
  { intros selection s1 Hs1 Hsel. apply runs_put_filter; [done|]. intros r s2 Hs2 Hr.
    apply H; [eauto using at_place_trans|done]. }
  assert (forall ch s2, at_place s s2 -> b_selection bundle = None \/ b_selection bundle = Some [] ->
            ch = g_cached_deny_filter cfg ->
            runs (merged_selection ← match ch with None => mret None | Some filter => new_object vm filter end;
                  put_filter vm cfg bundle (b_arguments bundle) merged_selection) s2 Q) as Hempty.
  { intros ch s2 Hs2 Hb ->. jni_step. destruct (g_cached_deny_filter cfg) as [filter|] eqn:Ef.
    - jni_step. apply Hcon; [eauto using at_place_trans|]. intros m ->.
      assert (Some m = Some filter) as [= ->].
      { destruct H2 as [[_ ?]|[_ E]]; [done|]. by destruct (new_object_ok _ _). }
      by destruct Hb as [->| ->].
    - jni_step. by apply Hcon. }
  destruct (b_selection bundle) as [text|] eqn:Eb.
  - jni_step. destruct x as [t|].
    2:{ repeat jni_step. apply H; [eauto using at_place_trans|done]. }
    assert (t = text) as -> by (destruct H2 as [[_ ?]|[_ E]]; [done|]; destruct (utf_chars_ok _ _); [congruence|done]).
    destruct text as [|b text]; [apply Hempty; [eauto using at_place_trans|by right|done]|].
    destruct (merge_selection cfg (b :: text)) as [merged|] eqn:Em.
    + repeat jni_step. apply Hcon; [eauto using at_place_trans|]. intros m ->.
      destruct H5 as [[_ ?]|[_ E]]; [done|]. destruct (new_object_ok _ _); [|done]. by injection E as ->.
    + jni_step. apply H; [eauto using at_place_trans|done].
  - jni_step. apply Hempty; [done|by left|done].
Qed.

Lemma tallied_record outcome e c : tallied c -> tallied (RecordQueryPerf outcome e c).
Proof.
  unfold tallied, RecordQueryPerf. intros ->.
  cbn [g_query_total g_query_non_media g_query_rewrite g_query_fallback]. unfold bump, u64.
  rewrite Zplus_mod_idemp_l. destruct outcome.
  - rewrite <- !Z.add_assoc, Zplus_mod_idemp_l. f_equal. lia.
  - rewrite Zplus_mod_idemp_r. f_equal. lia.
  - match goal with |- _ = (?n + ?x + ?f) mod _ => replace (n + x + f) with (x + (n + f)) by lia end.
    rewrite Zplus_mod_idemp_l. f_equal. lia.
  - rewrite Zplus_mod_idemp_r. f_equal. lia.
Qed.

(** What one transaction adds to those that were sent. *)
Definition adds (code flags : Z) (parcel : Parcel) (s s' : Jni) : Prop :=
  sent s' = sent s ++ [{| t_code := code; t_flags := flags; t_data := parcel |}].

Definition books_kept (s s' : Jni) : Prop := tallied (counters s) -> tallied (counters s').

Lemma runs_transact code flags parcel s (Q : Z -> Jni -> Prop) :
  (forall r s', adds code flags parcel s s' -> position s' = position s -> counters s' = counters s -> Q r s') ->
  runs (transact vm code flags parcel) s Q.
Proof. intros H. unfold runs, transact. destruct (pending s); [done|]. by apply H. Qed.

Context (Horiginal : g_original_transact cfg = true).

Lemma runs_CallOriginal_given code flags s (Q : Z -> Jni -> Prop) :
  (forall r s', adds code flags (Given (position s)) s s' -> position s' = position s ->
     counters s' = counters s -> Q r s') ->
  runs (CallOriginal vm cfg code flags given) s Q.
Proof.
  intros H. unfold CallOriginal. rewrite Horiginal. cbn [negb]. jni_step. unfold runs at 1, given.
  by apply runs_transact.
Qed.

Lemma runs_Finish outcome s (Q : unit -> Jni -> Prop) :
  (forall s', sent s' = sent s -> position s' = position s -> books_kept s s' -> Q tt s') ->
  runs (Finish vm outcome) s Q.
Proof. intros H. unfold runs, Finish. apply H; [done|done|]. intros Ht. by apply tallied_record. Qed.

(** The query goes on as it came. *)
Lemma runs_fall_back outcome code flags s (Q : Z -> Jni -> Prop) :
  (forall r s', adds code flags (Given (position s)) s s' -> position s' = position s -> books_kept s s' -> Q r s') ->
  runs (Finish vm outcome;; CallOriginal vm cfg code flags given) s Q.
Proof.
  intros H. jni_step. apply runs_Finish. intros s1 Hs Hp Hb. apply runs_CallOriginal_given. intros r s2 Ha Hp2 Hc.
  apply H; [|congruence|unfold books_kept; by rewrite Hc]. unfold adds in *. by rewrite Ha, Hs, Hp.
Qed.

Lemma runs_write_all writes s (Q : unit -> Jni -> Prop) :
  (forall s', at_place s s' -> Q tt s') -> runs (write_all vm writes) s Q.
Proof.
  revert s. induction writes as [|w writes IH]; intros s H; cbn [write_all]; [by apply runs_ret, H|].
  repeat jni_step. apply IH. intros s2 Hs2. apply H. eauto using at_place_trans.
Qed.

Lemma runs_send_rewritten code flags writes s (Q : Z -> Jni -> Prop) :
  (forall r s' parcel, adds code flags parcel s s' -> position s' = position s -> books_kept s s' ->
     parcel = Given (position s) \/ parcel = Rewritten writes -> Q r s') ->
  runs (send_rewritten vm cfg code flags writes) s Q.
Proof.
  intros H.
  assert (Hback : forall s1, at_place s s1 ->
            runs (Finish vm kMediaFallback;; CallOriginal vm cfg code flags given) s1 Q).
  { intros s1 [[[Hs _] Hc] Hp]. apply runs_fall_back. intros r s2 Ha Hp2 Hb.
    apply (H r s2 (Given (position s))); [|congruence|unfold books_kept in *; by rewrite <- Hc|by left].
    unfold adds in *. by rewrite Ha, Hs, Hp. }
  unfold send_rewritten. repeat jni_step. destruct x as [[]|]; [|by apply Hback].
  repeat jni_step; [apply Hback; eauto using at_place_trans|]. apply runs_write_all. intros s3 Hs3. repeat jni_step.
  { apply Hback. eauto 8 using at_place_trans. }
  assert (at_place s s'1) as [[[Hs _] Hc] Hp] by eauto 8 using at_place_trans.
  unfold runs at 1, log_rewrite. jni_step. apply runs_Finish. intros s4 Hs4 Hp4 Hb4. cbn [sent position] in Hs4, Hp4.
  unfold books_kept in Hb4. cbn [counters] in Hb4.
  jni_step. unfold CallOriginal. rewrite Horiginal. cbn [negb]. jni_step. apply runs_ret. apply runs_transact.
  intros r s5 Ha5 Hp5 Hc5. repeat jni_step.
  match goal with |- Q _ ?s6 => assert (at_place s5 s6) as [[[Hs6 _] Hc6] Hp6] by eauto using at_place_trans end.
  eapply (H _ _ (Rewritten writes)); [|congruence| |by right].
  - unfold adds in *. by rewrite Hs6, Ha5, Hs4, Hs.
  - unfold books_kept. rewrite Hc6, Hc5, <- Hc. exact Hb4.
Qed.

(** What the parcel of a rewritten query holds: what was read from the one that was given, in
    the order in which it was read, with the filter in its arguments. The binder was recognized as
    the one of a provider before the parcel was read (at [t0], by the descriptor or as the binder
    that is cached), and its URI as one of the media provider after that (at [t2]); attribution and
    URI are read one after the other, and projection, arguments, observer and cancellation signal. *)
Definition rewritten_query (s : Jni) (binder : Z) (writes : list Write) : Prop :=
  exists t0 t1 t2 t3 bundle bundle',
    (moment s <= t0 < t1)%nat /\ (S t1 < t2 < t3)%nat
    /\ (interface_descriptor vm t0 = Some kProviderDescriptor
        \/ g_cached_descriptor_binder s <> 0 /\ same_object vm t0 binder (g_cached_descriptor_binder s) = true)
    /\ uri_of vm (S t1) <> 0 /\ authority_of vm t2 (uri_of vm (S t1)) = Some kMediaAuthority
    /\ bundle = default {| b_selection := None; b_arguments := None; b_rest := 0 |} (bundle_of vm (S t3))
    /\ constrained cfg bundle bundle'
    /\ writes = [WriteInterfaceToken kProviderDescriptor; WriteAttribution (attribution_of vm t1);
                 WriteUri (uri_of vm (S t1)); WriteStringArray (projection_of vm t3); WriteBundle bundle';
                 WriteStrongBinder (binder_of vm (S (S t3))); WriteStrongBinder (binder_of vm (S (S (S t3))))].

(** From a state in which only the parcel was moved, the query goes on as it came. *)
Lemma runs_back_from s code flags outcome s1 (Q : Z -> Jni -> Prop) :
  quiet s s1 -> position s1 = position s ->
  (forall r s', adds code flags (Given (position s)) s s' -> position s' = position s -> books_kept s s' -> Q r s') ->
  runs (Finish vm outcome;; CallOriginal vm cfg code flags given) s1 Q.
Proof.
  intros [[Hs _] Hc] Hp H. apply runs_fall_back. intros r s2 Ha Hp2 Hb.
  apply H; [|congruence|unfold books_kept in *; by rewrite <- Hc]. unfold adds in *. by rewrite Ha, Hs, Hp.
Qed.

Definition sends (code flags : Z) (allowed : list Write -> Prop) (s s' : Jni) : Prop :=
  exists parcel, adds code flags parcel s s' /\ position s' = position s /\ books_kept s s'
    /\ (parcel = Given (position s) \/ exists writes, parcel = Rewritten writes /\ allowed writes).

Lemma runs_query_media code flags attribution uri s s1 (Q : Z -> Jni -> Prop) :
  quiet s s1 ->
  (forall r s', sends code flags (fun writes => exists bundle bundle',
       bundle = default {| b_selection := None; b_arguments := None; b_rest := 0 |} (bundle_of vm (S (moment s1)))
       /\ constrained cfg bundle bundle'
       /\ writes = [WriteInterfaceToken kProviderDescriptor; WriteAttribution attribution; WriteUri uri;
                    WriteStringArray (projection_of vm (moment s1)); WriteBundle bundle';
                    WriteStrongBinder (binder_of vm (S (S (moment s1))));
                    WriteStrongBinder (binder_of vm (S (S (S (moment s1)))))]) s s' -> Q r s') ->
  runs (query_media vm cfg code flags (position s) attribution uri) s1 Q.
Proof.
  intros Hq1 H. unfold query_media.
  assert (Hback : forall outcome s2, quiet s s2 -> position s2 = position s ->
            runs (Finish vm outcome;; CallOriginal vm cfg code flags given) s2 Q).
  { intros outcome s2 Hq Hp. apply (runs_back_from s); [done..|]. intros r s' Ha Hp' Hb. apply H.
    exists (Given (position s)). split_and!; [done..|by left]. }
  jni_step. apply runs_read_parcel. intros projection s2 [Hq2 T2] _ Hprojection.
  jni_step. apply runs_read_parcel. intros bundle s3 [Hq3 T3] Hn2 Hbundle.
  jni_step. apply runs_read_parcel. intros observer s4 [Hq4 T4] Hn3 Hobserver.
  jni_step. apply runs_read_parcel. intros cancellation s5 [Hq5 _] Hn4 Hcancellation.
  jni_step. apply runs_data_position. intros s6 Hq6 Hn5 _.
  jni_step. apply runs_data_size. intros size s7 Hq7 _.
  jni_step. apply runs_set_data_position. intros s8 Hq8 Hp8 _.
  jni_step. apply runs_ClearException. intros s9 [Hq9 Hp9] _.
  assert (quiet s s9) as Hq by eauto 12 using undelivered_trans, at_place_quiet. rewrite Hp8 in Hp9.
  destruct Hprojection as [[? _]|[_ ->]]; [congruence|]. destruct Hbundle as [[? _]|[_ ->]]; [congruence|].
  destruct Hobserver as [[? _]|[_ ->]]; [congruence|]. destruct Hcancellation as [[? _]|[_ ->]]; [congruence|].
  clear Hq1 Hq2 Hq3 Hq4 Hq5 Hq6 Hq7 Hq8 Hq9.
  destruct (_ || _); [by apply Hback|]. jni_step.
  apply (runs_mono _ _ (fun x s' => at_place s9 s' /\ forall b, x = Some b ->
    b = default {| b_selection := None; b_arguments := None; b_rest := 0 |} (bundle_of vm (moment s2)))).
  { destruct (bundle_of vm (moment s2)) as [b|]; jni_step; [by split; [|intros ? [= ->]]|].
    split; [done|]. intros b ->. destruct H2 as [[_ ?]|[_ E]]; [done|]. destruct (new_object_ok _ _); [by injection E as ->|done]. }
  intros query s10 [[Hq10 Hp10] Hquery]. assert (quiet s s10) by eauto using undelivered_trans. rewrite Hp9 in Hp10.
  destruct query as [query|]; [|by apply Hback]. specialize (Hquery query eq_refl). subst query.
  jni_step. apply runs_ClearException. intros s11 [Hq11 Hp11] _. rewrite Hp10 in Hp11.
  assert (quiet s s11) by eauto using undelivered_trans. jni_step.
  set (bundle := default _ _).
  apply (runs_mono _ _ (fun r s' => at_place s11 s' /\ (fst r = true -> constrained cfg bundle (snd r)))).
  { destruct (pending s10); [by apply runs_ret|]. apply runs_ApplyFilterToBundle. intros r s' ? ?. by split. }
  intros [applied bundle'] s12 [[Hq12 Hp12] Hc]. cbn [fst snd] in *. rewrite Hp11 in Hp12.
  assert (quiet s s12) as Hquiet by eauto using undelivered_trans. pose proof Hquiet as [[Hs12 _] Hc12].
  destruct applied; cbn [negb]; [|by apply Hback]. apply runs_send_rewritten. intros r s' parcel Ha Hp Hb Hparcel.
  apply H. exists parcel. unfold adds, books_kept in *. rewrite Hs12, Hc12, Hp12 in *. split_and!; [done..|].
  destruct Hparcel as [->| ->]; [by left|right]. eexists. split; [reflexivity|].
  rewrite T4, T3, T2. exists bundle, bundle'. split_and!; [unfold bundle; by rewrite T2|by apply Hc|reflexivity].
Qed.

Lemma runs_TransactHook binder code data flags s (Q : Z -> Jni -> Prop) :
  (forall r s', sends code flags (fun writes => code = kQueryTransaction /\ data = true
       /\ rewritten_query s binder writes) s s' -> Q r s') ->
  runs (TransactHook vm cfg binder code data flags) s Q.
Proof.
  intros H.
  assert (Hgiven : forall r s', adds code flags (Given (position s)) s s' -> position s' = position s ->
            books_kept s s' -> Q r s').
  { intros r s' Ha Hp Hb. apply H. exists (Given (position s)). split_and!; [done..|by left]. }
  unfold TransactHook. rewrite Horiginal. cbn [negb orb]. destruct (Z.eqb_spec code kQueryTransaction) as [Hcode|];
    cbn [negb orb]; [destruct data; cbn [negb]|].
  2,3: apply runs_CallOriginal_given; intros r s2 Ha Hp Hc; apply Hgiven; [done|done|unfold books_kept; by rewrite Hc].
  jni_step. apply runs_IsProviderBinder. intros provider s1 Hs1 Hprovider.
  destruct provider; cbn [negb]; [|by apply (runs_back_from s); [apply Hs1..|]].
  jni_step. apply runs_data_position. intros s2 Hs2 _ _.
  assert (position s1 = position s) as -> by apply Hs1.
  jni_step. apply runs_set_data_position. intros s3 Hq3 _ _.
  jni_step. apply runs_read_parcel. intros token s4 [Hq4 _] _ _.
  jni_step. apply runs_read_parcel. intros attribution s5 [Hq5 T5] _ Hattribution.
  jni_step. apply runs_read_parcel. intros uri s6 [Hq6 T6] Hn5 Huri.
  jni_step. apply runs_ClearException. intros s7 Hq7 _.
  assert (quiet s s7) as Hq by eauto 12 using undelivered_trans, at_place_quiet.
  destruct Hattribution as [[? _]|[_ ->]]; [congruence|].
  destruct (pending s6) eqn:Ep6.
  { jni_step. apply runs_set_data_position. intros s8 Hq8 Hp8 _. apply (runs_back_from s); eauto using undelivered_trans. }
  destruct Huri as [[? _]|[_ ->]]; [congruence|]. jni_step.
  apply (runs_mono _ _ (fun media s' => at_place s7 s' /\ (media = true -> media_uri vm s7 s' (uri_of vm (moment s5))))).
  { apply runs_IsMediaUri. intros x s' ? ?. by split. }
  intros media s8 [Hs8 Hmedia]. assert (quiet s s8) as Hq8 by eauto using undelivered_trans, at_place_quiet.
  destruct media; cbn [negb].
  2:{ jni_step. apply runs_set_data_position. intros s9 Hq9 Hp9 _. apply (runs_back_from s); eauto using undelivered_trans. }
  apply (runs_query_media _ _ _ _ s); [done|]. intros r s' (parcel & Ha & Hp & Hb & Hparcel). apply H.
  exists parcel. split_and!; [done..|]. destruct Hparcel as [->|(writes & -> & Hw)]; [by left|right].
  destruct Hw as (bundle & bundle' & Hb' & Hc & ->).
  eexists. split; [reflexivity|]. split_and!; [done|done|].
  destruct (Hprovider eq_refl) as (t0 & Ht0 & Hknown). destruct (Hmedia eq_refl) as (Hn & t2 & Ht2 & Hauthority).
  exists t0, (moment s4), t2, (moment s8), bundle, bundle'. rewrite <- T5.
  assert ((moment s1 <= moment s4)%nat) by (apply quiet_moment; eauto using undelivered_trans, at_place_quiet).
  assert ((moment s6 <= moment s7)%nat) by (apply quiet_moment; eauto using undelivered_trans, at_place_quiet).
  split_and!; try done; lia.
Qed.
End Hook.

(** ** Lemmas: the filter of an installed hook *)

Lemma take_deny_paths_spec prefix paths taken out :
  Forall (fun p => starts_with prefix p = true /\ size p < PATH_MAX) taken ->
  take_deny_paths prefix paths taken = Some out ->
  Forall (fun p => starts_with prefix p = true /\ size p < PATH_MAX) out
  /\ exists ps, paths = Some <$> ps /\ out = taken ++ ps.
Proof.
  revert taken. induction paths as [|[path|] paths IH]; intros taken Ht; cbn [take_deny_paths]; [|..|done].
  { intros [= <-]. split; [done|]. exists []. by rewrite app_nil_r. }
  destruct (_ || _) eqn:E; [done|]. destruct (size path <=? 0); [done|].
  apply orb_false_iff in E as [E1%Z.leb_gt E2%negb_false_iff]. intros H.
  apply IH in H as [Ho (ps & -> & ->)]; [|by apply Forall_app; split; [|constructor]].
  split; [done|]. exists (path :: ps). split; [done|]. by rewrite <- app_assoc.
Qed.

(** What a hook that was installed holds. *)
Definition installed_for (uid : Z) (deny_paths : option (list (option bytes))) (cfg : Config) : Prop :=
  0 <= uid /\ g_original_transact cfg = true
  /\ deny_paths = Some (Some <$> g_deny_paths cfg)
  /\ Forall (fun p => starts_with (lit "/storage/emulated/" ++ to_string (uid / 100000) ++ lit "/") p = true)
       (g_deny_paths cfg)
  /\ g_cached_deny_filter cfg = Some (g_deny_filter cfg)
  /\ g_cached_deny_arguments cfg = Some (arguments_for (g_deny_paths cfg))
  /\ count_holes (g_deny_filter cfg) = length (arguments_for (g_deny_paths cfg))
  /\ g_deny_filter cfg = kClause ++ more_clauses (length (g_deny_paths cfg) - 1).

Lemma runs_any {A} (m : jni A) s : runs m s (fun _ _ => True).
Proof. unfold runs. by destruct (m s) as [[]| |]. Qed.

Lemma runs_InitializeDenyFilter vm paths s :
  runs (InitializeDenyFilter vm paths) s (fun r _ => forall found, r = Some found ->
    BuildDenySelection (Some <$> paths) kMaxSelectionSize kMaxDenyArguments (PATH_MAX + 4) = Some found).
Proof.
  unfold InitializeDenyFilter. destruct (BuildDenySelection _ _ _ _) as [[filter arguments]|]; [|by apply runs_ret].
  repeat jni_step. destruct x as [filter'|]; [|by apply runs_ret]. destruct x0 as [arguments'|]; [|by apply runs_ret].
  repeat jni_step; [done|]. eapply runs_mono; [apply runs_any|]. intros filled s2 _.
  destruct filled; cbn [negb]; [|by apply runs_ret]. jni_step. eapply runs_mono; [apply runs_any|]. intros f s3 _.
  jni_step. eapply runs_mono; [apply runs_any|]. intros a s4 _. destruct f, a; repeat jni_step; try done.
  by destruct (pending s4); intros ? [= <-].
Qed.

Lemma Install_spec vm api env deny_paths uid hooked s cfg s' :
  Install vm api env deny_paths uid hooked s = Ok (Some cfg, s') -> installed_for uid deny_paths cfg.
Proof.
  intros E.
  assert (runs (Install vm api env deny_paths uid hooked) s
            (fun r _ => forall cfg, r = Some cfg -> installed_for uid deny_paths cfg)) as H.
  2:{ unfold runs in H. rewrite E in H. by apply H. }
  clear E. unfold Install. destruct deny_paths as [paths|]; [|by apply runs_ret].
  destruct (_ || _ || _ || _ || _) eqn:E; [by apply runs_ret|].
  apply orb_false_iff in E as [_ Hu%Z.ltb_ge]. destruct (_ || _); [by apply runs_ret|].
  destruct (take_deny_paths _ paths []) as [taken|] eqn:Et; [|by apply runs_ret].
  apply take_deny_paths_spec in Et as [Hf (ps & -> & ->)]; [|constructor]. cbn [app] in *.
  jni_step. eapply runs_mono; [apply runs_any|]. intros ready s1 _. destruct ready; cbn [negb]; [|by apply runs_ret].
  jni_step. eapply runs_mono; [apply runs_InitializeDenyFilter|]. intros [[filter arguments]|] s2 Hfound; [|by apply runs_ret].
  destruct hooked; cbn [negb]; [|by apply runs_ret]. apply runs_ret. intros cfg' [= <-].
  specialize (Hfound _ eq_refl).
  apply deny_selection_shape in Hfound as (ps' & Eps & _ & -> & Efilter & Hholes & _).
  apply (inj (fmap Some)) in Eps as <-. unfold installed_for.
  cbn [g_original_transact g_deny_paths g_deny_filter g_cached_deny_filter g_cached_deny_arguments].
  split_and!; try done. eapply Forall_impl; [exact Hf|]. by intros p [? _].
Qed.

(** What is counted in the merged selection: the original's part, then the filter's. *)
Lemma merge_selection_parts cfg text merged :
  merge_selection cfg text = Some merged ->
  merged = (lit "(" ++ text ++ lit ") AND (") ++ g_deny_filter cfg ++ lit ")" /\ size merged < kMaxSelectionSize.
Proof.
  unfold merge_selection. destruct (_ || _) eqn:E; [done|]. intros [= <-]. rewrite <- !app_assoc.
  apply orb_false_iff in E as [_ E%Z.leb_gt]. split; [done|]. by rewrite <- ?app_assoc in E.
Qed.

(** ** Lemmas: nothing is undefined when nothing throws *)

Definition calm {A} (m : jni A) : Prop :=
  forall s, pending s = false -> exists x s', m s = Ok (x, s') /\ pending s' = false.

Lemma calm_ret {A} (x : A) : calm (mret x).
Proof. intros s Hs. by exists x, s. Qed.

Lemma calm_bind {A B} (m : jni A) (f : A -> jni B) : calm m -> (forall x, calm (f x)) -> calm (m ≫= f).
Proof.
  intros Hm Hf s Hs. destruct (Hm s Hs) as (x & s' & E & Hs'). destruct (Hf x s' Hs') as (y & s'' & E' & Hs'').
  exists y, s''. split; [|done]. unfold mbind, jni_bind. rewrite E. exact E'.
Qed.

Section Calm.
Context (vm : Jvm) (cfg : Config) (Hcalm : forall t, throws vm t = false).

Lemma calm_invoke {A} (null : A) answer : calm (invoke vm null answer).
Proof. intros s Hs. unfold invoke. rewrite Hs, Hcalm. by eexists _, _. Qed.

Lemma calm_read_parcel {A} (null : A) answer : calm (read_parcel vm null answer).
Proof. intros s Hs. unfold read_parcel. rewrite Hs, Hcalm. by eexists _, _. Qed.

Lemma calm_data_position : calm data_position.
Proof. intros s Hs. unfold data_position. rewrite Hs. by eexists _, _. Qed.

Lemma calm_set_data_position pos : calm (set_data_position pos).
Proof. intros s Hs. unfold set_data_position. rewrite Hs. by eexists _, _. Qed.

Lemma calm_data_size : calm (data_size_of vm).
Proof. intros s Hs. unfold data_size_of. rewrite Hs. by eexists _, _. Qed.

Lemma calm_ClearException : calm ClearException.
Proof. intros s Hs. by eexists _, _. Qed.

Lemma calm_Finish outcome : calm (Finish vm outcome).
Proof. intros s Hs. by eexists _, _. Qed.

Lemma calm_transact code flags parcel : calm (transact vm code flags parcel).
Proof. intros s Hs. unfold transact. rewrite Hs. eexists _, _. split; [done|]. apply Hcalm. Qed.

Lemma calm_given : calm given.
Proof. intros s Hs. by eexists _, _. Qed.

Lemma calm_cached_binder : calm cached_binder.
Proof. intros s Hs. by eexists _, _. Qed.

Lemma calm_cache_binder binder : calm (cache_binder binder).
Proof. intros s Hs. by eexists _, _. Qed.

Lemma calm_log_rewrite : calm log_rewrite.
Proof. intros s Hs. by eexists _, _. Qed.
End Calm.

Create HintDb calm.
#[export] Hint Resolve calm_ret calm_bind calm_invoke calm_read_parcel calm_data_position calm_set_data_position
  calm_data_size calm_ClearException calm_Finish calm_transact calm_given calm_cached_binder calm_cache_binder
  calm_log_rewrite : calm.

Ltac calm_step :=
  match goal with
  | |- forall _, _ => intros ?
  | |- calm (mbind _ _) => apply calm_bind
  | |- calm (match ?x with _ => _ end) => destruct x
  | |- calm (match ?x with _ => _ end _) => destruct x
  | |- calm _ => solve [eauto with calm]
  end.

Section Undisturbed.
Context (vm : Jvm) (cfg : Config) (Hcalm : forall t, throws vm t = false).

Lemma calm_CallOriginal code flags data : calm data -> calm (CallOriginal vm cfg code flags data).
Proof. intros Hd. unfold CallOriginal. repeat calm_step. Qed.

Lemma calm_copy_elements values merged : calm (copy_elements vm values merged).
Proof.
  revert merged. induction values as [|v values IH]; intros merged; cbn [copy_elements]; repeat calm_step; apply IH.
Qed.

Lemma calm_copy_deny values merged : calm (copy_deny_elements vm values merged).
Proof.
  revert merged. induction values as [|v values IH]; intros merged; cbn [copy_deny_elements]; repeat calm_step; apply IH.
Qed.

Lemma calm_write_all writes : calm (write_all vm writes).
Proof. induction writes as [|w writes IH]; cbn [write_all]; repeat calm_step; apply IH. Qed.

Lemma calm_TransactHook binder code data flags : calm (TransactHook vm cfg binder code data flags).
Proof.
  assert (Hback : forall outcome, calm (Finish vm outcome;; CallOriginal vm cfg code flags given))
    by (intros; calm_step; [calm_step|intros; apply calm_CallOriginal; calm_step]).
  assert (calm (CallOriginal vm cfg code flags given)) by (apply calm_CallOriginal; calm_step).
  assert (calm (asks_descriptor vm binder)) by (unfold asks_descriptor, utf_chars; repeat calm_step).
  assert (forall o, calm (MergeArguments vm cfg o)).
  { intros o. unfold MergeArguments, new_object.
    repeat first [apply calm_copy_elements|apply calm_copy_deny|calm_step]. }
  assert (forall b a m, calm (put_filter vm cfg b a m)) by (intros; unfold put_filter; repeat first [done|calm_step]).
  assert (forall b, calm (ApplyFilterToBundle vm cfg b)).
  { intros b. unfold ApplyFilterToBundle, utf_chars, new_object. repeat first [done|calm_step]. }
  assert (forall writes, calm (send_rewritten vm cfg code flags writes)).
  { intros writes. unfold send_rewritten, new_object.
    repeat first [apply Hback|apply calm_write_all|apply calm_CallOriginal|calm_step]. }
  unfold TransactHook, IsProviderBinder, IsMediaUri, query_media, utf_chars, new_object.
  repeat first [done|apply Hback|calm_step].
Qed.

Lemma calm_look_up names : calm (look_up vm names).
Proof. induction names as [|name names IH]; cbn [look_up]; repeat first [done|calm_step]. Qed.

Lemma calm_GlobalRef {A} (value : option A) : calm (GlobalRef vm value).
Proof. unfold GlobalRef, new_object. repeat calm_step. Qed.

Lemma calm_keep_objects objects : Forall calm objects -> calm (keep_objects objects).
Proof. induction 1 as [|object objects Ho _ IH]; cbn [keep_objects]; repeat first [done|calm_step]. Qed.

Lemma calm_fill_arguments arguments : calm (fill_arguments vm arguments).
Proof. induction arguments as [|x xs IH]; cbn [fill_arguments]; unfold new_object; repeat first [done|calm_step]. Qed.

Lemma calm_Install api env deny_paths uid hooked : calm (Install vm api env deny_paths uid hooked).
Proof.
  assert (calm (value ← new_object vm tt; GlobalRef vm value))
    by (unfold new_object; repeat first [apply calm_GlobalRef|calm_step]).
  assert (calm (new_object vm tt)) by (unfold new_object; calm_step).
  assert (calm (InitializeJni vm)).
  { unfold InitializeJni.
    repeat first [apply calm_look_up|apply calm_keep_objects|apply Forall_cons_2|apply Forall_nil_2|assumption|calm_step]. }
  assert (forall paths, calm (InitializeDenyFilter vm paths)).
  { intros paths. unfold InitializeDenyFilter, new_object.
    repeat first [assumption|apply calm_fill_arguments|apply calm_GlobalRef|calm_step]. }
  unfold Install. repeat first [done|calm_step].
Qed.
End Undisturbed.

(** ** Properties *)

(** C25. A transaction of the application is sent once, with the code and flags it has, and
    the parcel it came with is where it was: either that very parcel, or a new one. A new one is sent
    only for a query whose binder has just been recognized as the one of a provider and whose URI as
    one of the media provider. It has everything that was read from the parcel, each field as it was
    read and in its place, except for the arguments of the query: there the selection has the filter
    conjoined, the arguments are followed by those of the filter, and the rest is kept. Every query
    is counted once. *)
Theorem media_query_constrained vm cfg binder code data flags s answer s' :
  g_original_transact cfg = true ->
  TransactHook vm cfg binder code data flags s = Ok (answer, s') ->
  exists parcel,
    sent s' = sent s ++ [{| t_code := code; t_flags := flags; t_data := parcel |}]
    /\ position s' = position s /\ (tallied (counters s) -> tallied (counters s'))
    /\ (parcel = Given (position s)
        \/ exists writes, parcel = Rewritten writes /\ code = kQueryTransaction /\ data = true
             /\ rewritten_query vm cfg s binder writes).
Proof.
  intros Horig E. pose proof (runs_TransactHook vm cfg Horig binder code data flags s
    (fun r s' => sends code flags (fun writes => code = kQueryTransaction /\ data = true /\ rewritten_query vm cfg s binder writes) s s')
    (fun _ _ H => H)) as H.
  unfold runs in H. by rewrite E in H.
Qed.

(** As long as Java throws nothing the hook makes no undefined call: it comes to an end,
    with no exception left. *)
Theorem undisturbed_query_defined vm cfg binder code data flags s :
  (forall t, throws vm t = false) -> pending s = false ->
  exists answer s', TransactHook vm cfg binder code data flags s = Ok (answer, s') /\ pending s' = false.
Proof. intros Hv. by apply calm_TransactHook. Qed.

(** The filter of an installed hook excludes what it was given, in any query: its text
    follows the selection of the query, and if that has a placeholder for each of its arguments,
    the placeholders of the filter are met by the denied paths and their patterns. All the
    denied paths lie in the storage of the user. *)
Theorem filter_arguments_aligned vm api env deny_paths uid hooked s s' cfg bundle bundle' :
  Install vm api env deny_paths uid hooked s = Ok (Some cfg, s') ->
  constrained cfg bundle bundle' ->
  let text := default [] (b_selection bundle) in
  let arguments := default [] (b_arguments bundle) in
  count_holes text = length arguments ->
  deny_paths = Some (Some <$> g_deny_paths cfg)
  /\ Forall (fun p => starts_with (lit "/storage/emulated/" ++ to_string (uid / 100000) ++ lit "/") p = true)
       (g_deny_paths cfg)
  /\ exists before after,
       b_selection bundle' = Some (before ++ g_deny_filter cfg ++ after)
       /\ count_holes before = length arguments /\ count_holes after = 0%nat
       /\ b_arguments bundle' = Some (arguments ++ (Some <$> arguments_for (g_deny_paths cfg)))
       /\ count_holes (g_deny_filter cfg) = length (arguments_for (g_deny_paths cfg))
       /\ g_deny_filter cfg = kClause ++ more_clauses (length (g_deny_paths cfg) - 1).
Proof.
  intros (Hu & _ & Hdeny & Hpaths & Hfilter & Hargs & Hholes & Htext)%Install_spec (_ & deny & Ed & Ea & Es & Hn).
  cbv zeta. intros Hcount. rewrite Hargs in Ed. injection Ed as <-. split; [done|]. split; [done|].
  destruct (b_selection bundle) as [[|b text]|]; cbn [default id] in *.
  1,3: exists [], []; rewrite app_nil_r; cbn [app]; split_and!; try done; congruence.
  destruct (merge_selection cfg (b :: text)) as [merged|] eqn:Em; [|congruence].
  apply merge_selection_parts in Em as [-> _].
  exists (lit "(" ++ (b :: text) ++ lit ") AND ("), (lit ")"). split_and!; try done.
  rewrite !count_holes_app, Hcount. change (count_holes (lit "(")) with 0%nat.
  change (count_holes (lit ") AND (")) with 0%nat. lia.
Qed.

(** A selection with unbalanced parentheses is taken as it is: the filter then does not
    constrain all of it. *)
Example unbalanced_selection_escapes cfg :
  size (g_deny_filter cfg) < 8000 ->
  merge_selection cfg (lit "1) OR (1") = Some (lit "(1) OR (1) AND (" ++ g_deny_filter cfg ++ lit ")").
Proof.
  intros Hs. unfold merge_selection. rewrite !size_app. unfold kMaxSelectionSize.
  pose proof (size_nonneg (g_deny_filter cfg)).
  change (size (lit "(")) with 1. change (size (lit ")")) with 1. change (size (lit ") AND (")) with 7.
  change (size (lit "1) OR (1")) with 8.
  destruct (Z.leb_spec (1 + (8 + (7 + (size (g_deny_filter cfg) + 1)))) 0); [lia|].
  destruct (Z.leb_spec 8192 (1 + (8 + (7 + (size (g_deny_filter cfg) + 1))))); [lia|done].
Qed.

(** ** Witnesses *)

(** A client that queries the provider, with a call that throws at one moment. *)
Definition client (bad : option nat) : Jvm :=
  {| throws := fun t => bool_decide (Some t = bad); elapsed_ns := fun _ => 5; same_object := fun _ _ _ => false;
     interface_descriptor := fun _ => Some kProviderDescriptor; utf_chars_ok := fun _ => true;
     global_ref_ok := fun _ => true; position_after := fun _ => 120; data_size := fun _ => 120;
     attribution_of := fun _ => 11; uri_of := fun _ => 12; authority_of := fun _ _ => Some kMediaAuthority;
     projection_of := fun _ => 13;
     bundle_of := fun _ => Some {| b_selection := Some (lit "a=?"); b_arguments := Some [Some (lit "x")]; b_rest := 14 |};
     binder_of := fun _ => 15; new_object_ok := fun _ => true; original_answer := fun _ => 1; found := fun _ => true |}.

Definition start : Jni :=
  {| pending := false; moment := 0; position := 4; sent := []; g_cached_descriptor_binder := 0;
     counters := {| g_query_total := 0; g_query_non_media := 0; g_query_media := 0; g_query_rewrite := 0;
                    g_query_fallback := 0; g_query_cpu_ns := 0 |};
     g_rewrite_log_count := 0 |}.

Definition sample_config : Config :=
  {| g_original_transact := true; g_deny_paths := [lit "/storage/emulated/0/Secret"]; g_deny_filter := kClause;
     g_deny_arguments := [lit "/storage/emulated/0/Secret"; lit "/storage/emulated/0/Secret/%"];
     g_cached_deny_filter := Some kClause;
     g_cached_deny_arguments := Some [lit "/storage/emulated/0/Secret"; lit "/storage/emulated/0/Secret/%"] |}.

Definition sample_install (bad : option nat) : outcome Empty_set (option Config * Jni) :=
  Install (client bad) true true (Some [Some (lit "/storage/emulated/0/Secret")]) 10123 true start.

Definition after_install : Jni := match sample_install None with Ok (_, s) => s | _ => start end.

Lemma sample_installed : sample_install None = Ok (Some sample_config, after_install).
Proof. vm_compute. reflexivity. Qed.

(** When a class is missing, the next look-up is made with its exception pending. *)
Example missing_class_undefined : sample_install (Some 4%nat) = Oob.
Proof. vm_compute. reflexivity. Qed.

Definition sample_writes : list Write :=
  [WriteInterfaceToken kProviderDescriptor; WriteAttribution 11; WriteUri 12; WriteStringArray 13;
   WriteBundle {| b_selection := Some (lit "(a=?) AND (" ++ kClause ++ lit ")");
                  b_arguments := Some [Some (lit "x"); Some (lit "/storage/emulated/0/Secret");
                                       Some (lit "/storage/emulated/0/Secret/%")];
                  b_rest := 14 |};
   WriteStrongBinder 15; WriteStrongBinder 15].

Example query_is_rewritten :
  sent <$> (match TransactHook (client None) sample_config 9 1 true 0 start with Ok (_, s) => Some s | _ => None end)
  = Some [{| t_code := 1; t_flags := 0; t_data := Rewritten sample_writes |}].
Proof. vm_compute. reflexivity. Qed.

(** When [enforceInterface] refuses the parcel the next call is made with its exception
    pending. *)
Example refused_interface_undefined :
  TransactHook (client (Some 7%nat)) sample_config 9 1 true 0 start = Oob.
Proof. vm_compute. reflexivity. Qed.

(** The same when the original throws at a rewritten query, the twelfth thing that happens from
    [obtain] on: the parcel is recycled with the exception pending, which is cleared next. *)
Example provider_exception_undefined :
  throws (client (Some 11%nat)) 11 = true
  /\ send_rewritten (client (Some 11%nat)) sample_config 1 0 sample_writes start = Oob
  /\ send_rewritten (client (Some 12%nat)) sample_config 1 0 sample_writes start <> Oob.
Proof. vm_compute. done. Qed.

Lemma media_query_constrained_witness :
  exists answer s' parcel,
    TransactHook (client None) sample_config 9 1 true 0 start = Ok (answer, s')
    /\ sent s' = [{| t_code := 1; t_flags := 0; t_data := parcel |}].
Proof.
  destruct (TransactHook (client None) sample_config 9 1 true 0 start) as [[answer s']|e|] eqn:E.
  - destruct (media_query_constrained (client None) sample_config 9 1 true 0 start answer s' eq_refl E)
      as (parcel & Hs & _).
    exists answer, s', parcel. split; [reflexivity|exact Hs].
  - destruct e.
  - exfalso. vm_compute in E. discriminate E.
Defined.

Lemma undisturbed_query_defined_witness :
  exists answer s', TransactHook (client None) sample_config 9 1 true 0 start = Ok (answer, s') /\ pending s' = false.
Proof.
  apply undisturbed_query_defined; [intros t; reflexivity|reflexivity].
Defined.

Lemma filter_arguments_aligned_witness :
  exists before after,
    Some (lit "(a=?) AND (" ++ kClause ++ lit ")") = Some (before ++ kClause ++ after) /\ count_holes before = 1%nat.
Proof.
  destruct (filter_arguments_aligned (client None) true true (Some [Some (lit "/storage/emulated/0/Secret")]) 10123
    true start after_install sample_config {| b_selection := Some (lit "a=?"); b_arguments := Some [Some (lit "x")]; b_rest := 14 |}
    {| b_selection := Some (lit "(a=?) AND (" ++ kClause ++ lit ")");
       b_arguments := Some [Some (lit "x"); Some (lit "/storage/emulated/0/Secret");
                            Some (lit "/storage/emulated/0/Secret/%")];
       b_rest := 14 |})
    as (_ & _ & before & after & E & Hb & _).
  - exact sample_installed.
  - split; [reflexivity|]. eexists. split; [reflexivity|].
    split; [reflexivity|]. split; [vm_compute; reflexivity|discriminate].
  - reflexivity.
  - exists before, after. split; [exact E|exact Hb].
Defined.
