(* ===== verification/Module.v ===== *)
(** * The module in a starting process (zygisk/src/module_entry.cpp, PathGuardModule)

    [preAppSpecialize] and [postAppSpecialize] put the parts together: in the processes of the
    storage providers they load the rules of the provider hooks and install them; in any other
    they load the plan of the process, ask the companion for its mounts, wait for the result and
    install the hook of the media queries; and when nothing of the module is in use they ask
    Zygisk to unload it. What the system, Zygisk, Java and the companion answer is [Answers].
    Descriptors and mappings are tracked, those through which the loaders read the policy among
    them: closing or unmapping what is not there is [Oob]. Logs and timings are left out. *)

From S2P Require Import Prelude Stateful Path Policy PolicyFormat Binary BinaryProofs MountBackend ProcessPlan ProcessPlanProofs Bootstrap Provider ProviderRules ProviderHook ProviderInstall MediaQueryHook.

Local Open Scope pg_scope.

Definition kExternalStorageProviderProcess : bytes := lit "com.android.externalstorage".
Definition kMainlineMediaProviderProcess : bytes := lit "com.android.providers.media.module".

(** What [WaitForSharedResult] and the shared memory say: whether there is a result, whether its
    magic and version are right, its error, and the state. *)
Record SharedOutcome : Type := {
  so_received : bool;
  so_valid : bool;
  so_result : Z;
  so_final_state : MountTransactionState;
}.

Record Answers : Type := {
  nice_name : option bytes;
  uid : Z;
  pid : Z;
  (** [getModuleDir], negative when there is none; the policy file, as [openat], [fstat] and [mmap]
      of it answer, with what it holds *)
  module_dir : Z;
  policy_file : Z;
  policy_stats : bool;
  policy_maps : bool;
  policy_content : bytes;
  data_owner : bytes -> option Z;
  loader : Loader;
  (** [connectCompanion], and the descriptor of [memfd_create] with what comes after it *)
  companion : Z;
  shared_file : Z;
  shared_truncated : bool;
  shared_mapped : bool;
  header_sent : bool;
  sends : list io_answer;
  outcome_of_mounts : SharedOutcome;
  java : Jvm;
  transact_hooked : bool;
}.

(** What the process has mapped. *)
Inductive Mapping : Set := kPolicyMapping | kSharedMapping.

#[export] Instance mapping_eq_dec : EqDecision Mapping.
Proof. solve_decision. Defined.

(** The members of [PathGuardModule], the globals of its hooks, and the descriptors and mappings
    that the process owes it. *)
Record PathGuardModule : Type := {
  provider_redirect_required : bool;
  provider_redirect_installed : bool;
  provider_redirect_module_retained : bool;
  media_query_hook_installed : bool;
  media_query_hook_required : bool;
  mount_request_sent : bool;
  mount_shared_state : bool;
  media_plan : option ProcessPlan;
  media_uid : Z;
  unload : bool;
  open_fds : list Z;
  mapped : list Mapping;
  provider_globals : Globals;
  media_config : option Config;
  jni_state : Jni;
}.

Abbreviation module := (stateful PathGuardModule (option ParseError)).

(** ** Updates *)

Definition resources (fds : list Z) (map_ : list Mapping) (m : PathGuardModule) : PathGuardModule :=
  {| provider_redirect_required := provider_redirect_required m;
     provider_redirect_installed := provider_redirect_installed m;
     provider_redirect_module_retained := provider_redirect_module_retained m;
     media_query_hook_installed := media_query_hook_installed m;
     media_query_hook_required := media_query_hook_required m; mount_request_sent := mount_request_sent m;
     mount_shared_state := mount_shared_state m; media_plan := media_plan m; media_uid := media_uid m;
     unload := unload m; open_fds := fds; mapped := map_; provider_globals := provider_globals m;
     media_config := media_config m; jni_state := jni_state m |}.

(** A call that returns a descriptor, negative when it fails. *)
Definition take_fd (fd : Z) : module Z := fun m =>
  Ok (fd, if fd <? 0 then m else resources (fd :: open_fds m) (mapped m) m).

Definition close_fd (fd : Z) : module unit := fun m =>
  match remove_fd fd (open_fds m) with
  | None => Oob
  | Some fds => Ok (tt, resources fds (mapped m) m)
  end.

Definition map_memory (k : Mapping) : module unit := fun m => Ok (tt, resources (open_fds m) (k :: mapped m) m).

Fixpoint remove_mapping (k : Mapping) (maps : list Mapping) : option (list Mapping) :=
  match maps with
  | [] => None
  | x :: rest => if x == k then Some rest else rest ← remove_mapping k rest; Some (x :: rest)
  end.

Definition munmap (k : Mapping) : module unit := fun m =>
  match remove_mapping k (mapped m) with
  | None => Oob
  | Some maps => Ok (tt, resources (open_fds m) maps m)
  end.

(** [Unload] *)
Definition Unload : module unit := fun m =>
  Ok (tt, {| provider_redirect_required := provider_redirect_required m;
             provider_redirect_installed := provider_redirect_installed m;
             provider_redirect_module_retained := provider_redirect_module_retained m;
             media_query_hook_installed := media_query_hook_installed m;
             media_query_hook_required := media_query_hook_required m;
             mount_request_sent := mount_request_sent m; mount_shared_state := mount_shared_state m;
             media_plan := media_plan m; media_uid := media_uid m; unload := true; open_fds := open_fds m;
             mapped := mapped m; provider_globals := provider_globals m; media_config := media_config m;
             jni_state := jni_state m |}).

Definition require_provider (required : bool) : module unit := fun m =>
  Ok (tt, {| provider_redirect_required := required;
             provider_redirect_installed := provider_redirect_installed m;
             provider_redirect_module_retained := provider_redirect_module_retained m;
             media_query_hook_installed := media_query_hook_installed m;
             media_query_hook_required := media_query_hook_required m;
             mount_request_sent := mount_request_sent m; mount_shared_state := mount_shared_state m;
             media_plan := media_plan m; media_uid := media_uid m; unload := unload m; open_fds := open_fds m;
             mapped := mapped m; provider_globals := provider_globals m; media_config := media_config m;
             jni_state := jni_state m |}).

(** [provider_redirect::Install], and what the module keeps of its result. *)
Definition install_provider (l : Loader) (rules : list PathRule) : module InstallResult := fun m =>
  let '(result, g) := ProviderInstall.Install l true true (Some rules) (provider_globals m) in
  Ok (result,
      {| provider_redirect_required := provider_redirect_required m;
         provider_redirect_installed := virtualization_active result;
         provider_redirect_module_retained := MustRetainModule result;
         media_query_hook_installed := media_query_hook_installed m;
         media_query_hook_required := media_query_hook_required m;
         mount_request_sent := mount_request_sent m; mount_shared_state := mount_shared_state m;
         media_plan := media_plan m; media_uid := media_uid m; unload := unload m; open_fds := open_fds m;
         mapped := mapped m; provider_globals := g; media_config := media_config m; jni_state := jni_state m |}).

Definition require_media (required : bool) (plan : option ProcessPlan) (uid : Z) : module unit := fun m =>
  Ok (tt, {| provider_redirect_required := provider_redirect_required m;
             provider_redirect_installed := provider_redirect_installed m;
             provider_redirect_module_retained := provider_redirect_module_retained m;
             media_query_hook_installed := media_query_hook_installed m;
             media_query_hook_required := required;
             mount_request_sent := mount_request_sent m; mount_shared_state := mount_shared_state m;
             media_plan := if required then plan else media_plan m;
             media_uid := if required then uid else media_uid m; unload := unload m; open_fds := open_fds m;
             mapped := mapped m; provider_globals := provider_globals m; media_config := media_config m;
             jni_state := jni_state m |}).

Definition set_request (sent shared : bool) : module unit := fun m =>
  Ok (tt, {| provider_redirect_required := provider_redirect_required m;
             provider_redirect_installed := provider_redirect_installed m;
             provider_redirect_module_retained := provider_redirect_module_retained m;
             media_query_hook_installed := media_query_hook_installed m;
             media_query_hook_required := media_query_hook_required m;
             mount_request_sent := sent; mount_shared_state := shared;
             media_plan := media_plan m; media_uid := media_uid m; unload := unload m; open_fds := open_fds m;
             mapped := mapped m; provider_globals := provider_globals m; media_config := media_config m;
             jni_state := jni_state m |}).

(** A computation with Java has no errors of its own. *)
Definition of_jni {A} (c : outcome Empty_set A) : checked A :=
  match c with Ok x => Ok x | Err e => match e with end | Oob => Oob end.

(** [media_query::Install], and whether it succeeded. *)
Definition install_media (a : Answers) (deny_paths : list bytes) : module unit := fun m =>
  '(installed, s) ← of_jni (MediaQueryHook.Install (java a) true true (Some (Some <$> deny_paths)) (media_uid m)
                              (transact_hooked a) (jni_state m));
  Ok (tt, {| provider_redirect_required := provider_redirect_required m;
             provider_redirect_installed := provider_redirect_installed m;
             provider_redirect_module_retained := provider_redirect_module_retained m;
             media_query_hook_installed := bool_decide (is_Some installed);
             media_query_hook_required := media_query_hook_required m;
             mount_request_sent := mount_request_sent m; mount_shared_state := mount_shared_state m;
             media_plan := media_plan m; media_uid := media_uid m; unload := unload m; open_fds := open_fds m;
             mapped := mapped m; provider_globals := provider_globals m; media_config := installed;
             jni_state := s |}).

(** ** The callbacks *)

Section Callbacks.
Context (a : Answers).

(** The beginning of both loaders: the policy is opened, measured, mapped and closed again. *)
Definition open_policy : module (option bytes) :=
  policy_fd ← take_fd (policy_file a);
  if policy_fd <? 0 then mret None
  else if negb (policy_stats a) || (size (policy_content a) <? kHeaderSize) then close_fd policy_fd;; mret None
  else
    (if policy_maps a then map_memory kPolicyMapping else mret tt);;
    close_fd policy_fd;;
    mret (if policy_maps a then Some (policy_content a) else None).

(** A loader: each of its returns, once the policy is mapped, unmaps it. *)
Definition with_policy {A} (none : A) (read : bytes -> checked A) : module A :=
  data ← open_policy;
  match data with
  | None => mret none
  | Some data => result ← lift (read data); munmap kPolicyMapping;; mret result
  end.

Definition load_process_plan (process_name : bytes) : module (option ProcessPlan) :=
  if kMaxProcessNameBytes <=? size process_name then mret None
  else with_policy None (fun data => LoadProcessPlan data process_name (uid a)).

Definition load_provider_rules : module (bool * list PathRule) :=
  with_policy (false, []) (LoadProviderRules (data_owner a) kMaxMountRules).

(** The branch of the storage providers. *)
Definition specialize_provider (module_dir_fd : Z) : module unit :=
  loaded ← (if module_dir_fd <? 0 then mret (false, []) else load_provider_rules);
  (if 0 <=? module_dir_fd then close_fd module_dir_fd else mret tt);;
  require_provider (fst loaded);;
  if negb (fst loaded) then Unload
  else
    result ← install_provider (loader a) (snd loaded);
    if negb (virtualization_active result) && negb (MustRetainModule result) then Unload else mret tt.

(** [CreateSharedState]: its descriptor, when the memory was made and mapped. *)
Definition create_shared : module (option Z) :=
  fd ← take_fd (shared_file a);
  if fd <? 0 then mret None
  else if negb (shared_truncated a) then close_fd fd;; mret None
  else if negb (shared_mapped a) then close_fd fd;; mret None
  else map_memory kSharedMapping;; mret (Some fd).

Definition has_deny (plan : ProcessPlan) : bool :=
  existsb (fun mount => pm_action mount == kDenyAction) (plan_mounts plan).

(** From the plan of the process on. *)
Definition request_mounts (plan : ProcessPlan) (module_dir_fd : Z) : module unit :=
  require_media (plan_provider_compat plan && has_deny plan) (Some plan) (uid a);;
  companion_fd ← take_fd (companion a);
  if companion_fd <? 0 then close_fd module_dir_fd;; Unload
  else
    shared ← create_shared;
    match shared with
    | None => close_fd companion_fd;; close_fd module_dir_fd;; Unload
    | Some shared_fd =>
        (if negb (SendPlanWithSharedFd (pid a) (uid a) plan module_dir_fd (header_sent a) (sends a)).1.1 then
           munmap kSharedMapping;; close_fd shared_fd;; Unload
         else set_request true true;; close_fd shared_fd);;
        close_fd module_dir_fd;;
        close_fd companion_fd
    end.

Definition preAppSpecialize : module unit :=
  match nice_name a with
  | None => Unload
  | Some process_name =>
      module_dir_fd ← take_fd (module_dir a);
      if (process_name == kExternalStorageProviderProcess) || (process_name == kMainlineMediaProviderProcess)
      then specialize_provider module_dir_fd
      else
        plan ← (if module_dir_fd <? 0 then mret None else load_process_plan process_name);
        match plan with
        | None => (if 0 <=? module_dir_fd then close_fd module_dir_fd else mret tt);; Unload
        | Some plan => request_mounts plan module_dir_fd
        end
  end.

(** The loop that lists the denied paths: [None] when one of them cannot be built. *)
Fixpoint deny_paths_of (plan : ProcessPlan) (root : bytes) (mounts : list PlannedMount) : option (list bytes) :=
  match mounts with
  | [] => Some []
  | mount :: rest =>
      if pm_action mount != kDenyAction then deny_paths_of plan root rest
      else
        visible ← PlanPath plan (pm_visible_path mount);
        path ← BuildPathUnderRoot root visible PATH_MAX;
        paths ← deny_paths_of plan root rest;
        Some (path :: paths)
  end.

Definition install_media_query : module unit :=
  m ← gets id;
  match media_plan m with
  | None => mret tt
  | Some plan =>
      let storage_root := lit "/storage/emulated/" ++ to_string (u32 (media_uid m) / 100000) in
      let paths := if (size storage_root <=? 0) || (64 <=? size storage_root) then None
                   else deny_paths_of plan storage_root (plan_mounts plan) in
      match paths with
      | None => require_media false None 0
      | Some paths => if 0 <? size paths then install_media a paths else mret tt
      end
  end.

Definition postAppSpecialize : module unit :=
  m ← gets id;
  if provider_redirect_required m then
    if negb (provider_redirect_installed m) && negb (provider_redirect_module_retained m) then Unload else mret tt
  else
    (if mount_request_sent m && mount_shared_state m then
       let o := outcome_of_mounts a in
       munmap kSharedMapping;;
       set_request (mount_request_sent m) false;;
       if so_received o && so_valid o && (so_result o =? 0) && (so_final_state o == kComplete)
          && media_query_hook_required m
       then install_media_query else mret tt
     else mret tt);;
    m ← gets id;
    if negb (media_query_hook_installed m) then Unload else mret tt.

Definition preServerSpecialize : module unit := Unload.
End Callbacks.

(** [onLoad] *)
Definition onLoad (s : Jni) : PathGuardModule :=
  {| provider_redirect_required := false; provider_redirect_installed := false;
     provider_redirect_module_retained := false; media_query_hook_installed := false;
     media_query_hook_required := false; mount_request_sent := false; mount_shared_state := false;
     media_plan := None; media_uid := 0; unload := false; open_fds := []; mapped := [];
     provider_globals := initial_globals; media_config := None; jni_state := s |}.
(** ** Lemmas: the loaders report no error *)

Lemma errorless_read {E} width data offset : errorless (E:=E) (read_le width data offset).
Proof. unfold read_le. by destruct (_ && _). Qed.

Lemma errorless_mem_equal {E} data offset expected : errorless (E:=E) (mem_equal data offset expected).
Proof. unfold mem_equal. by destruct (_ && _). Qed.

Lemma errorless_string {E} data base offset : errorless (E:=E) (ReadPolicyString data base offset).
Proof. unfold ReadPolicyString. destruct (_ || _); [done|]. by destruct (cut _ _) as [? []]. Qed.

#[export] Hint Resolve errorless_read errorless_mem_equal errorless_string : errorless.

Section Errorless.
Context (data : bytes) (h : Header).

Lemma errorless_package_index po so count index hash name :
  errorless (valid_package_index data po so count index hash name).
Proof.
  revert index hash name. induction count as [|count IH]; intros; cbn [valid_package_index]; cbv zeta; errorless.
Qed.

Lemma errorless_package_ranges count index m e : errorless (valid_package_ranges data h count index m e).
Proof. revert index m e. induction count as [|count IH]; intros; cbn [valid_package_ranges]; cbv zeta; errorless. Qed.

Lemma errorless_valid_rules act res s1 s2 rsize off count index :
  errorless (valid_rules data h act res s1 s2 rsize off count index).
Proof. revert index. induction count as [|count IH]; intros; cbn [valid_rules]; cbv zeta; errorless. Qed.
#[local] Hint Resolve errorless_package_index errorless_package_ranges errorless_valid_rules : errorless.

Lemma errorless_header : errorless (read_header data).
Proof. unfold read_header, Read32, Read16. errorless. Qed.

Lemma errorless_valid_header : errorless (valid_header data h).
Proof. unfold valid_header, ValidPackageIndex, ValidPolicyTables. errorless. Qed.

Lemma errorless_load_rules uid first count index state :
  errorless (load_rules data h uid first count index state).
Proof.
  revert index state. induction count as [|count IH]; intros; cbn [load_rules]; [done|].
  unfold load_rule. cbv zeta. errorless.
Qed.

Lemma errorless_find view name : errorless (E:=option ParseError) (FindPackageEntry view name).
Proof.
  assert (forall d fuel hash lo up, errorless (E:=option ParseError) (hash_lower_bound view d fuel hash lo up)).
  { intros d fuel. induction fuel as [|fuel IH]; intros; cbn [hash_lower_bound]; [done|].
    unfold entry_hash. cbv zeta. errorless. }
  assert (forall d count index hash, errorless (E:=option ParseError) (scan_equal_hashes view d count index hash name)).
  { intros d count. induction count as [|count IH]; intros; cbn [scan_equal_hashes]; [done|].
    unfold entry_hash, entry_name_matches. cbv zeta. errorless. }
  unfold FindPackageEntry. cbv zeta. errorless.
Qed.
#[local] Hint Resolve errorless_header errorless_valid_header errorless_load_rules errorless_find : errorless.

Lemma errorless_load_entry entry uid process : errorless (load_entry data h entry uid process).
Proof. unfold load_entry. cbv zeta. errorless. Qed.

Lemma errorless_provider_mounts capacity caller user first count index rules :
  errorless (provider_mounts capacity data h caller user first count index rules).
Proof.
  revert index rules. induction count as [|count IH]; intros; cbn [provider_mounts]; [done|]. cbv zeta. errorless.
Qed.
#[local] Hint Resolve errorless_provider_mounts : errorless.

Lemma errorless_provider_users owner capacity fuel name first count user rules :
  errorless (provider_users owner capacity data h fuel name first count user rules).
Proof.
  revert user rules. induction fuel as [|fuel IH]; intros; cbn [provider_users]; [done|]. cbv zeta. errorless.
Qed.
#[local] Hint Resolve errorless_provider_users : errorless.

Lemma errorless_provider_packages owner capacity count index rules :
  errorless (provider_packages owner capacity data h count index rules).
Proof.
  revert index rules. induction count as [|count IH]; intros; cbn [provider_packages]; [done|].
  unfold provider_package. cbv zeta. errorless.
Qed.
End Errorless.
#[export] Hint Resolve errorless_header errorless_valid_header errorless_find errorless_load_entry
  errorless_provider_packages : errorless.

Lemma LoadProcessPlan_returns data process uid : exists r, LoadProcessPlan data process uid = Ok r.
Proof.
  apply returns; [apply LoadProcessPlan_laid_out|]. unfold LoadProcessPlan. cbv zeta. errorless.
Qed.

Lemma LoadProviderRules_returns owner data :
  exists found rules, LoadProviderRules owner kMaxMountRules data = Ok (found, rules).
Proof.
  destruct (returns (LoadProviderRules owner kMaxMountRules data)) as [[found rules] E]; [| |by eauto].
  - apply load_provider_rules_safe.
  - unfold LoadProviderRules. cbv zeta. errorless.
Qed.

(** ** Lemmas: computations of the module *)

Lemma ends_take_fd fd m (Q : Z -> PathGuardModule -> Prop) :
  Q fd (if fd <? 0 then m else resources (fd :: open_fds m) (mapped m) m) -> ends (take_fd fd) m Q.
Proof. intros H. by eexists _, _. Qed.

Lemma ends_close fd fds m (Q : unit -> PathGuardModule -> Prop) :
  remove_fd fd (open_fds m) = Some fds -> Q tt (resources fds (mapped m) m) -> ends (close_fd fd) m Q.
Proof. intros E H. unfold ends, close_fd. rewrite E. by eexists _, _. Qed.

Lemma ends_munmap k maps m (Q : unit -> PathGuardModule -> Prop) :
  mapped m = k :: maps -> Q tt (resources (open_fds m) maps m) -> ends (munmap k) m Q.
Proof. intros E H. unfold ends, munmap. rewrite E. cbn. rewrite bool_decide_eq_true_2 by done. by eexists _, _. Qed.

Ltac ends_step :=
  match goal with
  | |- ends (_ ≫= _) _ _ => apply ends_bind
  | |- ends (mret _) _ _ => apply ends_ret
  | |- ends (take_fd _) _ _ => apply ends_take_fd
  | |- ends (close_fd _) _ _ =>
      eapply ends_close; [first [apply remove_fd_head|apply remove_fd_second]|]
  | |- ends (gets _) _ _ => apply ends_gets
  | |- ends (munmap _) _ _ => eapply ends_munmap; [reflexivity|]
  | |- ends Unload _ _ => eapply ends_call; [reflexivity|]
  | |- ends (map_memory _) _ _ => eapply ends_call; [reflexivity|]
  | |- ends (set_request _ _) _ _ => eapply ends_call; [reflexivity|]
  | |- ends (require_provider _) _ _ => eapply ends_call; [reflexivity|]
  | |- ends (require_media _ _ _) _ _ => eapply ends_call; [reflexivity|]
  end; cbn [open_fds mapped resources id].

(** ** Lemmas: the callbacks *)

(** The policy file, when it can be opened and mapped and has a header. *)
Definition policy (a : Answers) : option bytes :=
  if (policy_file a <? 0) || negb (policy_stats a) || (size (policy_content a) <? kHeaderSize) || negb (policy_maps a)
  then None else Some (policy_content a).

(** Nothing outside of the module points into it. *)
Definition detached (m : PathGuardModule) : Prop :=
  g_originals (provider_globals m) = ∅
  /\ g_binder_get_calling_uid (provider_globals m) = false
  /\ g_binder_clear_identity (provider_globals m) = false
  /\ g_binder_restore_identity (provider_globals m) = false
  /\ media_query_hook_installed m = false.

(** The hooks of the provider are in use, or may be. *)
Definition provider_hooked (m : PathGuardModule) : bool :=
  provider_redirect_installed m || provider_redirect_module_retained m.

Section Callbacks.
Context (a : Answers).

(** A loader leaves the descriptors and the mappings as they were. *)
Lemma with_policy_ends {A} (none : A) read m (Q : A -> PathGuardModule -> Prop) :
  match policy a with
  | None => Q none m
  | Some data => exists x, read data = Ok x /\ Q x m
  end -> ends (with_policy a none read) m Q.
Proof.
  destruct m. intros H. unfold with_policy, open_policy, policy in *. repeat ends_step.
  destruct (policy_file a <? 0); cbn [orb] in H; [by repeat ends_step|].
  destruct (negb (policy_stats a) || _); cbn [orb] in H; [repeat ends_step; exact H|].
  destruct (policy_maps a); cbn [negb] in H; repeat ends_step; [|exact H].
  destruct H as (x & E & HQ). apply ends_lift. exists x. split; [done|]. repeat ends_step. exact HQ.
Qed.

(** What the plan and the answers of the system say about the module that waits for its mounts. *)
Definition planned (m : PathGuardModule) : Prop :=
  exists name data plan,
    nice_name a = Some name /\ policy a = Some data /\ LoadProcessPlan data name (uid a) = Ok (Some plan)
    /\ media_query_hook_required m = plan_provider_compat plan && has_deny plan
    /\ (media_query_hook_required m = true -> media_plan m = Some plan /\ media_uid m = uid a).

(** The module after [preAppSpecialize], started with the state [s] of Java. *)
Inductive specialized (s : Jni) (m : PathGuardModule) : Prop :=
  | specialized_idle :
      detached m -> unload m = true -> mapped m = [] -> mount_request_sent m = false -> mount_shared_state m = false ->
      (provider_redirect_required m = true -> provider_hooked m = false) -> specialized s m
  | specialized_provider :
      provider_redirect_required m = true -> provider_hooked m = true -> unload m = false ->
      mapped m = [] -> mount_shared_state m = false -> media_query_hook_installed m = false -> ~ detached m ->
      specialized s m
  | specialized_waiting :
      detached m -> unload m = false -> mapped m = [kSharedMapping] -> mount_request_sent m = true ->
      mount_shared_state m = true -> provider_redirect_required m = false -> media_config m = None ->
      jni_state m = s -> planned m -> specialized s m.

Lemma specialize_provider_ends s fd :
  let m := if fd <? 0 then onLoad s else resources [fd] [] (onLoad s) in
  ends (specialize_provider a fd) m (fun _ m' => open_fds m' = [] /\ specialized s m').
Proof.
  cbv zeta. unfold specialize_provider. ends_step.
  set (m := if fd <? 0 then onLoad s else _).
  assert (exists found rules,
    ends (if fd <? 0 then mret (false, []) else load_provider_rules a) m
      (fun r m' => r = (found, rules) /\ m' = m)) as (found & rules & Hl).
  { destruct (fd <? 0); [by exists false, []; ends_step|]. destruct (policy a) as [data|] eqn:Ep.
    - destruct (LoadProviderRules_returns (data_owner a) data) as (found & rules & E).
      exists found, rules. apply with_policy_ends. rewrite Ep. eauto.
    - exists false, []. apply with_policy_ends. by rewrite Ep. }
  eapply ends_mono; [exact Hl|]. clear Hl. intros ? ? [-> ->]. cbn [fst snd]. ends_step.
  apply (ends_mono _ _ (fun _ m' => m' = onLoad s)).
  { subst m. destruct (Z.ltb_spec fd 0).
    - rewrite (proj2 (Z.leb_gt _ _)) by lia. by ends_step.
    - rewrite (proj2 (Z.leb_le _ _)) by lia. by ends_step. }
  intros [] ? ->. clear m. ends_step. ends_step.
  destruct found; cbn [negb]; [|ends_step; split; [done|by apply specialized_idle]].
  ends_step.
  pose proof (Install_retained (loader a) true true (Some rules) initial_globals) as Hr.
  pose proof (Install_hooked (loader a) true true (Some rules) initial_globals) as Hh.
  destruct (ProviderInstall.Install (loader a) true true (Some rules) initial_globals) as [result g'] eqn:Ei.
  eapply ends_call; [unfold install_provider; cbn [onLoad provider_globals]; by rewrite Ei|].
  cbn [fst snd] in Hr. cbv zeta in Hr.
  destruct (virtualization_active result) eqn:Ev, (MustRetainModule result) eqn:Em; cbn [negb andb].
  1-3: ends_step; split; [done|]; apply specialized_provider; unfold provider_hooked; cbn; rewrite ?Ev, ?Em; try done;
    intros (_ & H1 & H2 & H3 & _); cbn in H1, H2, H3; rewrite H1, H2, H3 in Hh; naive_solver.
  destruct (Hr eq_refl) as (Ho & H1 & H2 & H3). ends_step. split; [done|]. apply specialized_idle; try done.
  unfold detached. cbn. split_and!; try done; apply not_true_is_false; [intros H%H1|intros H%H2|intros H%H3]; done.
Qed.

Lemma create_shared_ends m :
  ends (create_shared a) m (fun r m' =>
    match r with
    | None => m' = m
    | Some fd => m' = resources (fd :: open_fds m) (kSharedMapping :: mapped m) m
    end).
Proof.
  assert (resources (open_fds m) (mapped m) m = m) as Em by by destruct m.
  unfold create_shared. repeat ends_step. destruct (shared_file a <? 0); [by ends_step|].
  destruct (shared_truncated a); cbn [negb]; [|by repeat ends_step].
  destruct (shared_mapped a); cbn [negb]; by repeat ends_step.
Qed.

Lemma request_mounts_ends s plan name data fd :
  0 <= fd -> nice_name a = Some name -> policy a = Some data ->
  LoadProcessPlan data name (uid a) = Ok (Some plan) ->
  ends (request_mounts a plan fd) (resources [fd] [] (onLoad s)) (fun _ m => open_fds m = [] /\ specialized s m).
Proof.
  intros Hfd En Ep El. unfold request_mounts. repeat ends_step.
  set (required := plan_provider_compat plan && has_deny plan).
  destruct (companion a <? 0).
  { repeat ends_step. split; [done|]. by apply specialized_idle. }
  ends_step. eapply ends_mono; [apply create_shared_ends|]. intros [shared_fd|] m ->.
  2:{ repeat ends_step. split; [done|]. by apply specialized_idle. }
  ends_step. destruct (SendPlanWithSharedFd _ _ _ _ _ _).1.1; cbn [negb]; repeat ends_step.
  - split; [done|]. apply specialized_waiting; try done. exists name, data, plan. split_and!; try done.
    cbn. fold required. by destruct required.
  - split; [done|]. by apply specialized_idle.
Qed.

Lemma preAppSpecialize_ends s :
  ends (preAppSpecialize a) (onLoad s) (fun _ m => open_fds m = [] /\ specialized s m).
Proof.
  unfold preAppSpecialize. destruct (nice_name a) as [name|] eqn:En.
  2:{ ends_step. split; [done|]. by apply specialized_idle. }
  repeat ends_step. cbn [onLoad open_fds mapped]. destruct (_ || _); [apply specialize_provider_ends|].
  ends_step. destruct (Z.ltb_spec (module_dir a) 0) as [Hneg|Hpos].
  { rewrite (proj2 (Z.leb_gt _ _)) by lia. repeat ends_step. split; [done|]. by apply specialized_idle. }
  rewrite (proj2 (Z.leb_le _ _)) by lia.
  unfold load_process_plan. destruct (kMaxProcessNameBytes <=? size name).
  { repeat ends_step. split; [done|]. by apply specialized_idle. }
  apply with_policy_ends. destruct (policy a) as [data|] eqn:Ep.
  2:{ repeat ends_step. split; [done|]. by apply specialized_idle. }
  destruct (LoadProcessPlan_returns data name (uid a)) as [[plan|] El].
  - exists (Some plan). split; [done|]. by eapply request_mounts_ends.
  - exists None. split; [done|]. repeat ends_step. split; [done|]. by apply specialized_idle.
Qed.

(** ** Lemmas: the denied paths *)

(** The visible paths of the rules that deny. *)
Definition denied (plan : ProcessPlan) (mounts : list PlannedMount) : list bytes :=
  omap (fun mount => if pm_action mount != kDenyAction then None else PlanPath plan (pm_visible_path mount)) mounts.

Lemma BuildPathUnderRoot_eq root path capacity output :
  BuildPathUnderRoot root path capacity = Some output -> output = root ++ x2f :: path.
Proof.
  unfold BuildPathUnderRoot. destruct (_ || _); [done|]. by destruct (_ <? _); intros [= <-].
Qed.

Lemma deny_paths_of_denied plan root mounts output :
  deny_paths_of plan root mounts = Some output ->
  output = (fun path => root ++ x2f :: path) <$> denied plan mounts.
Proof.
  revert output. unfold denied. induction mounts as [|mount rest IH]; intros output; cbn [deny_paths_of omap list_omap].
  { by intros [= <-]. }
  destruct (pm_action mount != kDenyAction); [by apply IH|]. intros E.
  destruct (PlanPath plan (pm_visible_path mount)) as [visible|]; [|done]. cbn [mbind option_bind] in E.
  destruct (BuildPathUnderRoot root visible PATH_MAX) as [path|] eqn:Ep; [|done]. cbn [mbind option_bind] in E.
  destruct (deny_paths_of plan root rest) as [paths|]; [|done]. cbn [mbind option_bind] in E.
  injection E as <-. rewrite (BuildPathUnderRoot_eq _ _ _ _ Ep), (IH paths eq_refl). done.
Qed.

Definition storage_root (uid : Z) : bytes := lit "/storage/emulated/" ++ to_string (u32 uid / 100000).

(** What the installed hook of the media queries goes back to. *)
Definition media_hooked (m : PathGuardModule) : Prop :=
  exists name data plan cfg,
    nice_name a = Some name /\ policy a = Some data /\ LoadProcessPlan data name (uid a) = Ok (Some plan)
    /\ plan_provider_compat plan = true
    /\ so_received (outcome_of_mounts a) = true /\ so_valid (outcome_of_mounts a) = true
    /\ so_result (outcome_of_mounts a) = 0 /\ so_final_state (outcome_of_mounts a) = kComplete
    /\ media_config m = Some cfg /\ g_original_transact cfg = true /\ 0 <= uid a
    /\ g_deny_paths cfg <> []
    /\ g_deny_paths cfg = (fun path => storage_root (uid a) ++ x2f :: path) <$> denied plan (plan_mounts plan).

Lemma install_media_query_ends m :
  (forall t, throws (java a) t = false) -> pending (jni_state m) = false ->
  planned m -> media_query_hook_required m = true ->
  media_query_hook_installed m = false -> open_fds m = [] -> mapped m = [] ->
  so_received (outcome_of_mounts a) = true -> so_valid (outcome_of_mounts a) = true ->
  so_result (outcome_of_mounts a) = 0 -> so_final_state (outcome_of_mounts a) = kComplete ->
  ends (install_media_query a) m (fun _ m' =>
    open_fds m' = [] /\ mapped m' = [] /\ provider_globals m' = provider_globals m /\ unload m' = unload m
    /\ (media_query_hook_installed m' = true -> media_hooked m')).
Proof.
  intros Hcalm Hjni (name & data & plan & En & Ep & El & Hreq & Hplan) Hrequired Hoff Hfds Hmap H1 H2 H3 H4.
  destruct (Hplan Hrequired) as [Hp Hu]. rewrite Hrequired in Hreq. symmetry in Hreq.
  apply andb_true_iff in Hreq as [Hcompat _].
  unfold install_media_query. ends_step. apply ends_gets; unfold id. rewrite Hp, Hu. cbv zeta.
  fold (storage_root (uid a)).
  assert (forall c, exists m', require_media false c 0 m = Ok (tt, m')) as _ by (intros; by eexists).
  destruct (_ || _).
  { ends_step. split_and!; try done. cbn. congruence. }
  destruct (deny_paths_of plan (storage_root (uid a)) (plan_mounts plan)) as [paths|] eqn:Ed.
  2:{ ends_step. split_and!; try done. cbn. congruence. }
  destruct (Z.ltb_spec 0 (size paths)) as [Hn|]; [|ends_step; split_and!; [done..|congruence]].
  destruct (calm_Install (java a) Hcalm true true (Some (Some <$> paths)) (uid a) (transact_hooked a)
              (jni_state m) Hjni) as (installed & s' & Ei & _).
  eapply ends_call; [unfold install_media; rewrite Hu, Ei; reflexivity|]. split_and!; try done.
  intros [cfg ->]%bool_decide_eq_true. apply Install_spec in Ei as (Hpos & Ho & Hpaths & _).
  injection Hpaths as Hpaths. apply list_fmap_eq_inj in Hpaths; [|by intros ? ? [= ->]]. subst paths.
  exists name, data, plan, cfg. split_and!; try done; [|by apply deny_paths_of_denied].
  intros E. rewrite E in Hn. done.
Qed.

Lemma postAppSpecialize_ends s m :
  (forall t, throws (java a) t = false) -> pending s = false -> open_fds m = [] -> specialized s m ->
  ends (postAppSpecialize a) m (fun _ m' =>
    open_fds m' = [] /\ mapped m' = []
    /\ (unload m' = true <-> detached m')
    /\ (media_query_hook_installed m' = true -> media_hooked m')).
Proof.
  intros Hcalm Hs Hfds Hm. unfold postAppSpecialize. ends_step. apply ends_gets; unfold id.
  destruct Hm as [Hd Hu Hmap Hsent _ Hoff|Hreq Hon Hu Hmap _ Hmedia Hnd|Hd Hu Hmap Hsent Hshared Hreq Hcfg Hj Hplan].
  - destruct (provider_redirect_required m) eqn:Ereq.
    + specialize (Hoff eq_refl). unfold provider_hooked in Hoff. apply orb_false_iff in Hoff as [-> ->].
      cbn [negb andb]. ends_step. split_and!; [done|done|by split|]. cbn. by destruct Hd as (_ & _ & _ & _ & ->).
    + rewrite Hsent. cbn [andb]. repeat ends_step.
      pose proof Hd as (_ & _ & _ & _ & Hmedia). rewrite Hmedia. cbn [negb]. ends_step.
      split_and!; [done|done|by split|cbn; congruence].
  - rewrite Hreq. unfold provider_hooked in Hon.
    rewrite <- negb_orb, Hon. cbn [negb]. ends_step. split_and!; [done|done| |congruence].
    split; [congruence|done].
  - rewrite Hreq, Hsent, Hshared. cbn [andb]. pose proof Hd as (Ho & G1 & G2 & G3 & Hmedia).
    eapply ends_bind, ends_bind, ends_munmap; [done|]. repeat ends_step. cbn [mount_request_sent].
    set (m1 := {| provider_redirect_required := _ |}).
    apply (ends_mono _ m1 (fun _ m' =>
      open_fds m' = [] /\ mapped m' = [] /\ provider_globals m' = provider_globals m /\ unload m' = false
      /\ (media_query_hook_installed m' = true -> media_hooked m'))).
    { destruct (_ && _) eqn:Eo.
      - split_tests. eapply ends_mono; [eapply (install_media_query_ends m1); subst m1; cbn; try done; congruence|].
        cbv beta. intros _ m' (F1 & F2 & F3 & F4 & F5). split_and!; try done. by rewrite F4.
      - ends_step. subst m1. cbn. split_and!; try done. congruence. }
    intros _ m' (F1 & F2 & F3 & F4 & F5). ends_step. apply ends_gets; unfold id.
    destruct (media_query_hook_installed m') eqn:Ei; cbn [negb]; ends_step.
    + split_and!; [done|done| |by intros _; apply F5]. split; [congruence|]. intros (_ & _ & _ & _ & ?). congruence.
    + split_and!; [done|done| |cbn; congruence]. split; [|done]. intros _. unfold detached. cbn. by rewrite F3.
Qed.
End Callbacks.

(** ** Properties *)

(** C11. What the module owes when it is done with an application. Whatever the system, Zygisk and
    the companion answer, as long as Java throws nothing: both callbacks return; each descriptor they
    were given or made, that of the policy file included, is closed exactly once and none stays open;
    the policy and the shared memory are unmapped, but for the shared memory between the callbacks
    while the mounts are awaited; and in the end the module asks to be unloaded if and only if nothing
    of the process points into it: no import was redirected, no identity function of Binder was
    replaced and the hook of the media queries is not installed. *)
Theorem module_lifecycle (a : Answers) (s : Jni) :
  (forall t, throws (java a) t = false) -> pending s = false ->
  exists m m',
    preAppSpecialize a (onLoad s) = Ok (tt, m) /\ postAppSpecialize a m = Ok (tt, m')
    /\ open_fds m = [] /\ mapped m = (if mount_shared_state m then [kSharedMapping] else [])
    /\ open_fds m' = [] /\ mapped m' = [] /\ (unload m' = true <-> detached m').
Proof.
  intros Hcalm Hs. destruct (preAppSpecialize_ends a s) as ([] & m & E & Hfds & Hm).
  destruct (postAppSpecialize_ends a s m Hcalm Hs Hfds Hm) as ([] & m' & E' & Hfds' & Hmap & Hcase & _).
  exists m, m'. split_and!; try done. by destruct Hm as [?? -> ? ->|??? -> ->|?? -> ? ->].
Qed.

(** C26. The hook of the media queries is installed in an application only when the companion has
    reported, in a valid result, that the mounts of its plan are complete without error, and the plan
    that was loaded for the process from the policy asks for the compatibility with the provider. Then
    the paths that it filters are those of the rules of the plan that deny, all of them and in their
    order, under the storage of the user of the application, and there is at least one. *)
Theorem media_hook_after_commit (a : Answers) (s : Jni) (m m' : PathGuardModule) :
  (forall t, throws (java a) t = false) -> pending s = false ->
  preAppSpecialize a (onLoad s) = Ok (tt, m) -> postAppSpecialize a m = Ok (tt, m') ->
  media_query_hook_installed m' = true -> media_hooked a m'.
Proof.
  intros Hcalm Hs E E' Hon. destruct (preAppSpecialize_ends a s) as (? & ? & F & Hfds & Hm).
  rewrite E in F. injection F as <- <-.
  destruct (postAppSpecialize_ends a s m Hcalm Hs Hfds Hm) as (? & ? & F & _ & _ & _ & Hhook).
  rewrite E' in F. injection F as <- <-. by apply Hhook.
Qed.

(** The array of the hook is shorter than a plan: with more than [kMaxDenyPaths] denied paths it is
    not installed, whatever else holds. *)
Lemma too_many_denied_paths (a : Answers) (paths : list bytes) (m : PathGuardModule) :
  kMaxDenyPaths < size paths ->
  exists m', install_media a paths m = Ok (tt, m') /\ media_query_hook_installed m' = false.
Proof.
  intros Hn. unfold install_media, Install. cbn [negb orb].
  replace (size (Some <$> paths)) with (size paths) by (unfold size; by rewrite length_fmap).
  rewrite (proj2 (Z.ltb_lt _ _) Hn), orb_true_r. cbn [orb of_jni mret jni_ret mbind outcome_bind]. by eexists.
Qed.

(** ** Witnesses *)

Definition media_document : PolicyDocument :=
  {| schema := 2; failure_mode := FailureMode_kOpen; allow_legacy_string_bind := false;
     apps := [{| package := lit "a"; media_compat := MediaCompat_kOff; provider_compat := kVirtualize;
                 users := [lit "0"]; processes := [lit "*"];
                 mounts := [{| m_action := kDeny; m_visible_path := lit "Secret"; m_backing_path := [];
                               m_depth := 0; m_flags := 0; m_line := 1 |};
                            {| m_action := kRedirect; m_visible_path := lit "DCIM"; m_backing_path := lit "Download/a";
                               m_depth := 0; m_flags := 0; m_line := 2 |}];
                 events := [] |}] |}.

Definition media_file : bytes := match EncodePolicy media_document with Ok file => file | _ => [] end.

(** A process called [name], whose companion completes the mounts when [result] is 0. *)
Definition application (name : bytes) (result : Z) : Answers :=
  {| nice_name := Some name; uid := 10123; pid := 7; module_dir := 3; policy_file := 9; policy_stats := true;
     policy_maps := true; policy_content := media_file;
     data_owner := fun _ => Some 10123; loader := sample_loader; companion := 4; shared_file := 5;
     shared_truncated := true; shared_mapped := true; header_sent := true; sends := slow_kernel;
     outcome_of_mounts := {| so_received := true; so_valid := true; so_result := result;
                             so_final_state := kComplete |};
     java := client None; transact_hooked := true |}.

Definition before_mounts : PathGuardModule :=
  match preAppSpecialize (application (lit "a") 0) (onLoad start) with Ok (_, m) => m | _ => onLoad start end.

Definition after_mounts (result : Z) : PathGuardModule :=
  match postAppSpecialize (application (lit "a") result) before_mounts with Ok (_, m) => m | _ => onLoad start end.

(** The module stays for its hook, and goes when the mounts have failed or the process is not in
    the policy. *)
Example module_stays :
  (fun m => (g_deny_paths <$> media_config m, unload m)) <$> [after_mounts 0; after_mounts 5]
  = [(Some [lit "/storage/emulated/0/Secret"], false); (None, true)].
Proof. vm_compute. reflexivity. Qed.

Example other_process_unloads :
  match preAppSpecialize (application (lit "b") 0) (onLoad start) with
  | Ok (_, m) => (open_fds m, mount_request_sent m, unload m)
  | _ => ([], true, false)
  end = ([], false, true).
Proof. vm_compute. reflexivity. Qed.

(** In the process of the media provider the rule that redirects is put in place of the mounts. *)
Example provider_is_hooked :
  match preAppSpecialize (application kMainlineMediaProviderProcess 0) (onLoad start) with
  | Ok (_, m) => (open_fds m, unload m, provider_redirect_installed m, mount_request_sent m,
                  Provider.backing_path <$> g_rules (provider_globals m))
  | _ => ([], true, false, true, [])
  end = ([], false, true, false, [lit "Download/a"]).
Proof. vm_compute. reflexivity. Qed.

Lemma module_lifecycle_witness :
  exists m m', preAppSpecialize (application (lit "a") 0) (onLoad start) = Ok (tt, m)
    /\ postAppSpecialize (application (lit "a") 0) m = Ok (tt, m') /\ open_fds m' = [] /\ mapped m' = [].
Proof.
  destruct (module_lifecycle (application (lit "a") 0) start) as (m & m' & E & E' & _ & _ & F & G & _);
    [intros t; reflexivity|reflexivity|].
  exists m, m'. exact (conj E (conj E' (conj F G))).
Defined.

Lemma media_hook_after_commit_witness : media_hooked (application (lit "a") 0) (after_mounts 0).
Proof.
  apply (media_hook_after_commit (application (lit "a") 0) start before_mounts);
    [intros t; reflexivity|reflexivity|vm_compute; reflexivity..].
Defined.
