(* ===== verification/Semantic.v ===== *)
(** * Semantic analysis of rules

    rules/src/semantic.cpp: from the rules a parser found to a canonical policy and its
    binary form. The parser (rules/src/compiler.cpp, over a TOML library) is an argument:
    the document, the origins of the rules and the diagnostics it reports. The timings of
    [CompileStatistics] are not represented. *)

From S2P Require Import Prelude Source Policy Binary MountBackend.

Local Open Scope pg_scope.

(** ** document.h *)

Record DenyRule : Type := { deny_id : Z; deny_path : bytes }.

Record RedirectRule : Type := {
  redirect_id : Z;
  redirect_source : bytes;
  redirect_target : bytes;
}.

Record AppRules : Type := {
  rules_package : bytes;
  rules_enabled : bool;
  rules_users : list Z;
  rules_processes : list bytes;
  rules_file_picker : bool;
  rules_deny : list DenyRule;
  rules_redirects : list RedirectRule;
}.

Record RulesDocument : Type := { rules_allow_legacy_mount : bool; rules_apps : list AppRules }.

Record RuleOrigin : Type := {
  origin_primary : ByteSpan;
  origin_source : ByteSpan;
  origin_arrow : ByteSpan;
  origin_target : ByteSpan;
  has_redirect_operands : bool;
}.

Abbreviation OriginMap := (gmap Z RuleOrigin).

(** [OriginMap::Add]: the first origin of a rule is kept. *)
Definition AddOrigin (id : Z) (origin : RuleOrigin) (origins : OriginMap) : bool * OriginMap :=
  match origins !! id with
  | Some _ => (false, origins)
  | None => (true, <[id := origin]> origins)
  end.

(** ** semantic.h *)

Record NormalizedPath : Type := { path_bytes : bytes; component_offsets : list Z }.

Record ResolvedDenyRule : Type := { resolved_deny_id : Z; resolved_deny_path : NormalizedPath }.

Record ResolvedRedirectRule : Type := {
  resolved_id : Z;
  resolved_source : NormalizedPath;
  resolved_target : NormalizedPath;
}.

Record ResolvedAppPolicy : Type := {
  resolved_package : bytes;
  resolved_enabled : bool;
  resolved_users : list Z;
  resolved_processes : list bytes;
  resolved_file_picker : bool;
  resolved_deny : list ResolvedDenyRule;
  resolved_redirects : list ResolvedRedirectRule;
}.

Record ResolvedPolicy : Type := {
  resolved_allow_legacy_mount : bool;
  resolved_apps : list ResolvedAppPolicy;
}.

Record CanonicalRedirectRule : Type := {
  canonical_source : NormalizedPath;
  canonical_target : NormalizedPath;
}.

Record CanonicalAppPolicy : Type := {
  canonical_package : bytes;
  canonical_users : list Z;
  canonical_processes : list bytes;
  canonical_file_picker : bool;
  canonical_deny : list NormalizedPath;
  canonical_redirects : list CanonicalRedirectRule;
}.

Record CanonicalPolicy : Type := {
  canonical_allow_legacy_mount : bool;
  canonical_apps : list CanonicalAppPolicy;
}.

Record PolicyRequirements : Type := {
  mount_actions : Z;
  required_provider : bool;
  required_topology : bool;
}.

Record PolicyBlob : Type := { blob_bytes : bytes; blob_generation : Z }.

Record DeviceSnapshot : Type := {
  snapshot_mount : MountBackendCapabilities;
  provider_supported : bool;
  topology_supported : bool;
  capability_generation : Z;
  topology_generation : Z;
}.

Record AdmissionResult : Type := {
  admitted : bool;
  admitted_backend : MountBackendKind;
  admitted_reason : MountBackendReason;
  admitted_content_generation : Z;
  admitted_capability_generation : Z;
  admitted_topology_generation : Z;
}.

Record RulesBuildResult : Type := {
  build_resolved : option ResolvedPolicy;
  build_canonical : option CanonicalPolicy;
  build_requirements : PolicyRequirements;
  build_blob : option PolicyBlob;
  build_diagnostics : list Diagnostic;
}.

(** ** Diagnostics *)

Definition HasErrors (diagnostics : list Diagnostic) : bool :=
  existsb (fun d => severity d == kError) diagnostics.

Definition OriginSpan (origins : OriginMap) (id : Z) : ByteSpan :=
  match origins !! id with
  | Some origin => origin_primary origin
  | None => no_span
  end.

Definition AddDiagnostic (limits : RulesLimits) (diagnostics : list Diagnostic) (c message : bytes)
    (span : ByteSpan) (s : DiagnosticSeverity) (related_to : option ByteSpan) : list Diagnostic :=
  if max_diagnostics limits <=? size diagnostics then diagnostics
  else diagnostics ++
    [{| code := c; message_key := message; primary := span; omitted := false; severity := s;
        phase := kSemantic;
        related := match related_to with
                   | Some r => if max_related_spans limits =? 0 then []
                               else [{| related_span := r; related_message_key := lit "related_rule" |}]
                   | None => []
                   end;
        field_path := []; arguments := [] |}].

(** ** Limits *)

Definition AddExpanded (value limit total : Z) : option Z :=
  if (limit <? value) || (limit - value <? total) then None else Some (total + value).

(** The loop of [ValidateExpandedRuleLimit]: the first rule of the app that goes over, if
    one does. [size_t] products that the tests bound are not wrapped. *)
Fixpoint expand_rules (limits : RulesLimits) (apps : list AppRules) (expanded : Z) : option Z :=
  match apps with
  | [] => None
  | app :: rest =>
      if negb (rules_enabled app) then expand_rules limits rest expanded
      else
        let users := Z.max (size (rules_users app)) 1 in
        let processes := Z.max (size (rules_processes app)) 1 in
        let rules := size (rules_deny app) + size (rules_redirects app) in
        let limit := max_expanded_rules limits in
        if rules =? 0 then expand_rules limits rest expanded
        else
          let first := match rules_redirects app with
                       | r :: _ => redirect_id r
                       | [] => match rules_deny app with d :: _ => deny_id d | [] => 0 end
                       end in
          if (limit / rules <? users) || (limit / processes <? users * rules) then Some first
          else
            match AddExpanded (users * rules * processes) limit expanded with
            | None => Some first
            | Some expanded => expand_rules limits rest expanded
            end
  end.

Definition ValidateExpandedRuleLimit (limits : RulesLimits) (origins : OriginMap)
    (document : RulesDocument) (diagnostics : list Diagnostic) : bool * list Diagnostic :=
  match expand_rules limits (rules_apps document) 0 with
  | None => (true, diagnostics)
  | Some first => (false, AddDiagnostic limits diagnostics kResourceLimit (lit "expanded_rule_limit")
                            (OriginSpan origins first) kError None)
  end.

Definition count_slashes (s : bytes) : Z := size (filter (fun b => b = x2f) s).

Definition ExceedsPathLimits (limits : RulesLimits) (input : bytes) : bool :=
  (max_path_bytes limits <? size input)
  || (max_path_components limits <? (if input == [] then 0 else 1) + count_slashes input).

(** ** Paths *)

Definition bad_path_byte (b : byte) : bool := (byte_val b <? 32) || (b == x7f).

(** The loop of [NormalizeRulePath] over what follows [component_begin]. *)
Fixpoint normalize_components (limits : RulesLimits) (fuel : nat) (rest : bytes)
    (component_begin : Z) (offsets : list Z) : option (list Z) :=
  match fuel, rest with
  | S fuel, _ :: _ =>
      let '(component, more) := cut x2f rest in
      if (component == []) || (component == lit ".") || (component == lit "..")
         || (max_path_components limits <=? size offsets) || (2 ^ 16 - 1 <? component_begin)
      then None
      else if existsb bad_path_byte component then None
      else
        let offsets := offsets ++ [u16 component_begin] in
        match more with
        | None => Some offsets
        | Some more =>
            normalize_components limits fuel more (component_begin + size component + 1) offsets
        end
  | _, _ => Some offsets
  end.

Definition NormalizeRulePath (limits : RulesLimits) (input : bytes) : option NormalizedPath :=
  if (input == []) || (max_path_bytes limits <? size input) || bool_decide (head input = Some x2f)
  then None
  else
    offsets ← normalize_components limits (length input) input 0 [];
    Some {| path_bytes := input; component_offsets := offsets |}.

Definition IsSameOrAncestor (ancestor path : NormalizedPath) : bool :=
  (path_bytes path == path_bytes ancestor)
  || ((size (path_bytes ancestor) <? size (path_bytes path))
      && starts_with (path_bytes ancestor) (path_bytes path)
      && (path_bytes path !! length (path_bytes ancestor) == Some x2f)).

Definition SamePath (lhs rhs : NormalizedPath) : bool := path_bytes lhs == path_bytes rhs.

Definition PathsOverlap (lhs rhs : NormalizedPath) : bool :=
  IsSameOrAncestor lhs rhs || IsSameOrAncestor rhs lhs.

Definition PathDepth (path : NormalizedPath) : Z := u16 (size (component_offsets path)).

(** ** [ValidateRedirects] *)

Definition redirect_key (r : ResolvedRedirectRule) : bytes * (bytes * Z) :=
  (path_bytes (resolved_source r), (path_bytes (resolved_target r), resolved_id r)).

Section Validate.
Context (limits : RulesLimits) (origins : OriginMap).

Definition warn (diagnostics : list Diagnostic) (message : bytes) (id related_id : Z) : list Diagnostic :=
  AddDiagnostic limits diagnostics kRuleRedundant message (OriginSpan origins id) kWarning
    (Some (OriginSpan origins related_id)).

(** The loop that drops duplicates; [back] is [unique.back()]. *)
Fixpoint unique_redirects (back : option ResolvedRedirectRule) (rules : list ResolvedRedirectRule)
    (diagnostics : list Diagnostic) : list ResolvedRedirectRule * list Diagnostic :=
  match rules with
  | [] => ([], diagnostics)
  | rule :: rest =>
      match back with
      | Some last =>
          if SamePath (resolved_source last) (resolved_source rule)
             && SamePath (resolved_target last) (resolved_target rule)
          then unique_redirects back rest
                 (warn diagnostics (lit "duplicate_redirect") (resolved_id rule) (resolved_id last))
          else
            let '(unique, diagnostics) := unique_redirects (Some rule) rest diagnostics in
            (rule :: unique, diagnostics)
      | None =>
          let '(unique, diagnostics) := unique_redirects (Some rule) rest diagnostics in
          (rule :: unique, diagnostics)
      end
  end.

(** The loop that compares each redirect with itself and with the one before. *)
Fixpoint check_redirects (before : option ResolvedRedirectRule) (rules : list ResolvedRedirectRule)
    (diagnostics : list Diagnostic) : list Diagnostic :=
  match rules with
  | [] => diagnostics
  | current :: rest =>
      let span := OriginSpan origins (resolved_id current) in
      let diagnostics :=
        if PathsOverlap (resolved_source current) (resolved_target current)
        then AddDiagnostic limits diagnostics kRuleConflict (lit "redirect_source_target_overlap")
               span kError None
        else diagnostics in
      let diagnostics :=
        match before with
        | Some before =>
            if PathsOverlap (resolved_source before) (resolved_source current)
            then AddDiagnostic limits diagnostics kRuleConflict (lit "redirect_source_conflict")
                   span kError (Some (OriginSpan origins (resolved_id before)))
            else diagnostics
        | None => diagnostics
        end in
      check_redirects (Some current) rest diagnostics
  end.

(** [source_index.find]: the first redirect whose source is the path. *)
Fixpoint find_source (path : bytes) (rules : list ResolvedRedirectRule) (index : nat) : option nat :=
  match rules with
  | [] => None
  | r :: rest => if path_bytes (resolved_source r) == path then Some index
                 else find_source path rest (S index)
  end.

Definition next_redirect (rules : list ResolvedRedirectRule) (index : nat) : option nat :=
  rule ← rules !! index;
  find_source (path_bytes (resolved_target rule)) rules 0.

(** [visit], with the colors it leaves; [None] when it runs out of fuel. *)
Fixpoint visit (fuel : nat) (rules : list ResolvedRedirectRule) (index : nat) (colors : list Z)
    : option (bool * list Z) :=
  match fuel with
  | O => None
  | S fuel =>
      if colors !! index == Some 1 then Some (true, colors)
      else if colors !! index == Some 2 then Some (false, colors)
      else
        let colors := <[index := 1]> colors in
        match next_redirect rules index with
        | None => Some (false, <[index := 2]> colors)
        | Some next =>
            match visit fuel rules next colors with
            | None => None
            | Some (true, colors) => Some (true, colors)
            | Some (false, colors) => Some (false, <[index := 2]> colors)
            end
        end
  end.

(** The loop over the redirects: the first from which a cycle is found. *)
Fixpoint find_cycle (rules : list ResolvedRedirectRule) (indexes : list nat) (colors : list Z)
    : option (option nat) :=
  match indexes with
  | [] => Some None
  | index :: rest =>
      match visit (S (length rules)) rules index colors with
      | None => None
      | Some (true, _) => Some (Some index)
      | Some (false, colors) => find_cycle rules rest colors
      end
  end.

Definition redirect_cycle (rules : list ResolvedRedirectRule) : option (option nat) :=
  find_cycle rules (seq 0 (length rules)) (replicate (length rules) 0).

Definition ValidateRedirects (app : ResolvedAppPolicy) (diagnostics : list Diagnostic)
    : ResolvedAppPolicy * list Diagnostic :=
  let '(unique, diagnostics) :=
    unique_redirects None (sort_by redirect_key (resolved_redirects app)) diagnostics in
  let diagnostics := check_redirects None unique diagnostics in
  let diagnostics :=
    match redirect_cycle unique with
    | Some (Some index) =>
        AddDiagnostic limits diagnostics kRedirectCycle (lit "redirect_cycle")
          (OriginSpan origins (match unique !! index with Some r => resolved_id r | None => 0 end))
          kError None
    | _ => diagnostics
    end in
  let diagnostics :=
    if resolved_file_picker app && bool_decide (length unique = 0%nat)
    then AddDiagnostic limits diagnostics kInvalidValue (lit "file_picker_requires_redirect") no_span
           kError None
    else diagnostics in
  ({| resolved_package := resolved_package app; resolved_enabled := resolved_enabled app;
      resolved_users := resolved_users app; resolved_processes := resolved_processes app;
      resolved_file_picker := resolved_file_picker app; resolved_deny := resolved_deny app;
      resolved_redirects := unique |}, diagnostics).

(** ** [ValidateDeny] *)

Definition deny_key (d : ResolvedDenyRule) : bytes * Z :=
  (path_bytes (resolved_deny_path d), resolved_deny_id d).

Fixpoint unique_denies (back : option ResolvedDenyRule) (rules : list ResolvedDenyRule)
    (diagnostics : list Diagnostic) : list ResolvedDenyRule * list Diagnostic :=
  match rules with
  | [] => ([], diagnostics)
  | rule :: rest =>
      match back with
      | Some last =>
          if IsSameOrAncestor (resolved_deny_path last) (resolved_deny_path rule)
          then unique_denies back rest
                 (warn diagnostics (lit "deny_redundant") (resolved_deny_id rule) (resolved_deny_id last))
          else
            let '(unique, diagnostics) := unique_denies (Some rule) rest diagnostics in
            (rule :: unique, diagnostics)
      | None =>
          let '(unique, diagnostics) := unique_denies (Some rule) rest diagnostics in
          (rule :: unique, diagnostics)
      end
  end.

(** [std::lower_bound] on the denied paths: the last before the source and the first
    that is not. *)
Fixpoint deny_neighbours (source : bytes) (deny : list ResolvedDenyRule) (before : option ResolvedDenyRule)
    : option ResolvedDenyRule * option ResolvedDenyRule :=
  match deny with
  | [] => (before, None)
  | d :: rest =>
      if key_lt (path_bytes (resolved_deny_path d)) source then deny_neighbours source rest (Some d)
      else (before, Some d)
  end.

Definition deny_conflict (deny : list ResolvedDenyRule) (redirect : ResolvedRedirectRule)
    : option ResolvedDenyRule :=
  let '(before, next) := deny_neighbours (path_bytes (resolved_source redirect)) deny None in
  let conflict :=
    match next with
    | Some d => if SamePath (resolved_source redirect) (resolved_deny_path d) then Some d else None
    | None => None
    end in
  match before with
  | Some d => if IsSameOrAncestor (resolved_deny_path d) (resolved_source redirect) then Some d
              else conflict
  | None => conflict
  end.

Fixpoint check_denies (deny : list ResolvedDenyRule) (redirects : list ResolvedRedirectRule)
    (diagnostics : list Diagnostic) : list Diagnostic :=
  match redirects with
  | [] => diagnostics
  | redirect :: rest =>
      check_denies deny rest
        (match deny_conflict deny redirect with
         | Some d => AddDiagnostic limits diagnostics kRuleConflict (lit "deny_redirect_conflict")
                       (OriginSpan origins (resolved_id redirect)) kError
                       (Some (OriginSpan origins (resolved_deny_id d)))
         | None => diagnostics
         end)
  end.

Definition ValidateDeny (app : ResolvedAppPolicy) (diagnostics : list Diagnostic)
    : ResolvedAppPolicy * list Diagnostic :=
  let '(unique, diagnostics) :=
    unique_denies None (sort_by deny_key (resolved_deny app)) diagnostics in
  ({| resolved_package := resolved_package app; resolved_enabled := resolved_enabled app;
      resolved_users := resolved_users app; resolved_processes := resolved_processes app;
      resolved_file_picker := resolved_file_picker app; resolved_deny := unique;
      resolved_redirects := resolved_redirects app |},
   check_denies unique (resolved_redirects app) diagnostics).

(** ** [CompileRules]: resolution *)

Definition error_at (diagnostics : list Diagnostic) (c message : bytes) (id : Z) : list Diagnostic :=
  AddDiagnostic limits diagnostics c message (OriginSpan origins id) kError None.

Fixpoint resolve_denies (rules : list DenyRule) (diagnostics : list Diagnostic)
    : list ResolvedDenyRule * list Diagnostic :=
  match rules with
  | [] => ([], diagnostics)
  | rule :: rest =>
      if ExceedsPathLimits limits (deny_path rule) then
        resolve_denies rest (error_at diagnostics kResourceLimit (lit "path_resource_limit") (deny_id rule))
      else
        match NormalizeRulePath limits (deny_path rule) with
        | None => resolve_denies rest (error_at diagnostics kPathInvalid (lit "invalid_path") (deny_id rule))
        | Some path =>
            let '(denies, diagnostics) := resolve_denies rest diagnostics in
            ({| resolved_deny_id := deny_id rule; resolved_deny_path := path |} :: denies, diagnostics)
        end
  end.

Fixpoint resolve_redirects (rules : list RedirectRule) (diagnostics : list Diagnostic)
    : list ResolvedRedirectRule * list Diagnostic :=
  match rules with
  | [] => ([], diagnostics)
  | rule :: rest =>
      if ExceedsPathLimits limits (redirect_source rule) || ExceedsPathLimits limits (redirect_target rule)
      then
        resolve_redirects rest
          (error_at diagnostics kResourceLimit (lit "path_resource_limit") (redirect_id rule))
      else
        match NormalizeRulePath limits (redirect_source rule),
              NormalizeRulePath limits (redirect_target rule) with
        | Some from, Some to =>
            let '(redirects, diagnostics) := resolve_redirects rest diagnostics in
            ({| resolved_id := redirect_id rule; resolved_source := from; resolved_target := to |}
               :: redirects, diagnostics)
        | _, _ =>
            resolve_redirects rest
              (error_at diagnostics kPathInvalid (lit "invalid_path") (redirect_id rule))
        end
  end.

Definition resolve_app (source : AppRules) (diagnostics : list Diagnostic)
    : ResolvedAppPolicy * list Diagnostic :=
  let '(deny, diagnostics) := resolve_denies (rules_deny source) diagnostics in
  let '(redirects, diagnostics) := resolve_redirects (rules_redirects source) diagnostics in
  let app := {| resolved_package := rules_package source; resolved_enabled := rules_enabled source;
                resolved_users := rules_users source; resolved_processes := rules_processes source;
                resolved_file_picker := rules_file_picker source; resolved_deny := deny;
                resolved_redirects := redirects |} in
  let '(app, diagnostics) := ValidateRedirects app diagnostics in
  ValidateDeny app diagnostics.

Fixpoint resolve_apps (apps : list AppRules) (diagnostics : list Diagnostic)
    : list ResolvedAppPolicy * list Diagnostic :=
  match apps with
  | [] => ([], diagnostics)
  | source :: rest =>
      let '(app, diagnostics) := resolve_app source diagnostics in
      let '(resolved, diagnostics) := resolve_apps rest diagnostics in
      (app :: resolved, diagnostics)
  end.
End Validate.

(** ** [CompileRules]: canonical form *)

(** [std::unique] *)
Fixpoint unique {A} `{EqDecision A} (l : list A) : list A :=
  match l with
  | x :: ((y :: _) as rest) => if x == y then unique rest else x :: unique rest
  | _ => l
  end.

Definition canonical_key (r : CanonicalRedirectRule) : bytes * bytes :=
  (path_bytes (canonical_source r), path_bytes (canonical_target r)).

Definition canonicalize (source : ResolvedAppPolicy) : CanonicalAppPolicy :=
  {| canonical_package := resolved_package source;
     canonical_users := unique (sort_by id (resolved_users source));
     canonical_processes := unique (sort_by id (resolved_processes source));
     canonical_file_picker := resolved_file_picker source;
     canonical_deny := sort_by path_bytes (resolved_deny_path <$> resolved_deny source);
     canonical_redirects :=
       sort_by canonical_key
         ((fun r => {| canonical_source := resolved_source r; canonical_target := resolved_target r |})
            <$> resolved_redirects source) |}.

Definition canonicalize_policy (resolved : ResolvedPolicy) : CanonicalPolicy :=
  {| canonical_allow_legacy_mount := resolved_allow_legacy_mount resolved;
     canonical_apps :=
       sort_by canonical_package
         (canonicalize <$> filter (fun a => resolved_enabled a = true) (resolved_apps resolved)) |}.

Definition requirements_of (canonical : CanonicalPolicy) : PolicyRequirements :=
  {| mount_actions :=
       fold_left (fun mask app =>
         let mask := if bool_decide (length (canonical_redirects app) = 0%nat) then mask
                     else Z.lor mask kMountActionRedirect in
         if bool_decide (length (canonical_deny app) = 0%nat) then mask
         else Z.lor mask kMountActionDenyAnchor) (canonical_apps canonical) 0;
     required_provider := existsb canonical_file_picker (canonical_apps canonical);
     required_topology := negb (bool_decide (length (canonical_apps canonical) = 0%nat)) |}.

Definition deny_mount (path : NormalizedPath) : LogicalMountRule :=
  {| m_action := kDeny; m_visible_path := path_bytes path; m_backing_path := []; m_depth := 0;
     m_flags := 0; m_line := 0 |}.

Definition redirect_mount (r : CanonicalRedirectRule) : LogicalMountRule :=
  {| m_action := kRedirect; m_visible_path := path_bytes (canonical_source r);
     m_backing_path := path_bytes (canonical_target r); m_depth := PathDepth (canonical_source r);
     m_flags := 0; m_line := 0 |}.

Definition or_any (l : list bytes) : list bytes :=
  match l with
  | [] => [lit "*"]
  | _ => l
  end.

Definition ToPolicyDocument (canonical : CanonicalPolicy) : PolicyDocument :=
  {| schema := 2; failure_mode := FailureMode_kOpen;
     allow_legacy_string_bind := canonical_allow_legacy_mount canonical;
     apps := (fun source =>
       {| package := canonical_package source; media_compat := MediaCompat_kOff;
          provider_compat := if canonical_file_picker source then kVirtualize else ProviderCompat_kOff;
          users := or_any (print_int <$> canonical_users source);
          processes := or_any (canonical_processes source);
          mounts := (deny_mount <$> canonical_deny source)
                    ++ (redirect_mount <$> canonical_redirects source);
          events := [] |}) <$> canonical_apps canonical |}.

(** ** Encoding, verification and admission *)

Definition VerifyPolicyBytes (input : bytes) (expected_content_generation : Z) : bool :=
  match DecodePolicy input with
  | Ok (decoded, decoded_generation) =>
      (decoded_generation =? expected_content_generation)
      && (ComputeContentGeneration decoded =? expected_content_generation)
  | _ => false
  end.

Definition VerifyPolicyBlob (policy : CanonicalPolicy) (blob : PolicyBlob) : bool :=
  (ComputeContentGeneration (ToPolicyDocument policy) =? blob_generation blob)
  && VerifyPolicyBytes (blob_bytes blob) (blob_generation blob).

Definition EncodeAndVerify (canonical : CanonicalPolicy) : option PolicyBlob :=
  let document := ToPolicyDocument canonical in
  match EncodePolicy document with
  | Ok encoded =>
      let blob := {| blob_bytes := encoded; blob_generation := ComputeContentGeneration document |} in
      if negb (blob_generation blob =? 0) && VerifyPolicyBlob canonical blob then Some blob else None
  | _ => None
  end.

Definition no_requirements : PolicyRequirements :=
  {| mount_actions := 0; required_provider := false; required_topology := false |}.

(** [CompileRules] after [ParseRulesDocument]. *)
Definition CompileRules (limits : RulesLimits) (document : option RulesDocument) (origins : OriginMap)
    (diagnostics : list Diagnostic) : RulesBuildResult :=
  let failed resolved diagnostics :=
    {| build_resolved := resolved; build_canonical := None; build_requirements := no_requirements;
       build_blob := None; build_diagnostics := diagnostics |} in
  match document with
  | None => failed None diagnostics
  | Some document =>
      if HasErrors diagnostics then failed None diagnostics
      else
        let '(within, diagnostics) := ValidateExpandedRuleLimit limits origins document diagnostics in
        if negb within then failed None diagnostics
        else
          let '(apps, diagnostics) := resolve_apps limits origins (rules_apps document) diagnostics in
          let resolved := {| resolved_allow_legacy_mount := rules_allow_legacy_mount document;
                             resolved_apps := apps |} in
          if HasErrors diagnostics then failed (Some resolved) diagnostics
          else
            let canonical := canonicalize_policy resolved in
            let blob := EncodeAndVerify canonical in
            {| build_resolved := Some resolved;
               build_canonical := match blob with Some _ => Some canonical | None => None end;
               build_requirements := requirements_of canonical;
               build_blob := blob;
               build_diagnostics :=
                 match blob with
                 | Some _ => diagnostics
                 | None => AddDiagnostic limits diagnostics kPolicyEncode (lit "policy_encode_failed")
                             no_span kError None
                 end |}
  end.

Definition ok (r : RulesBuildResult) : bool :=
  match build_resolved r, build_canonical r, build_blob r with
  | Some _, Some _, Some _ => negb (HasErrors (build_diagnostics r))
  | _, _, _ => false
  end.

Definition AdmitPolicy (policy : CanonicalPolicy) (requirements : PolicyRequirements)
    (snapshot : DeviceSnapshot) : AdmissionResult :=
  let '(backend, reason) :=
    SelectMountBackend (mount_actions requirements) (snapshot_mount snapshot)
      (canonical_allow_legacy_mount policy) in
  {| admitted := (backend != kUnsupported)
                 && (negb (required_provider requirements) || provider_supported snapshot)
                 && (negb (required_topology requirements) || topology_supported snapshot);
     admitted_backend := backend; admitted_reason := reason;
     admitted_content_generation := ComputeContentGeneration (ToPolicyDocument policy);
     admitted_capability_generation := capability_generation snapshot;
     admitted_topology_generation := topology_generation snapshot |}.

(** ** Reference notions *)

(** Following the redirects [k] times. *)
Fixpoint follow (rules : list ResolvedRedirectRule) (k index : nat) : option nat :=
  match k with
  | O => Some index
  | S k => next ← next_redirect rules index; follow rules k next
  end.

Definition has_cycle (rules : list ResolvedRedirectRule) : Prop :=
  exists index k, (0 < k)%nat /\ follow rules k index = Some index.

(** How many rules an app stands for, for each user and process. *)
Definition expansion (app : AppRules) : Z :=
  Z.max (size (rules_users app)) 1 * Z.max (size (rules_processes app)) 1
  * (size (rules_deny app) + size (rules_redirects app)).

Definition total_expansion (apps : list AppRules) : Z :=
  foldr (fun app total => (if rules_enabled app then expansion app else 0) + total) 0 apps.

Definition good_component (c : bytes) : Prop :=
  c <> [] /\ c <> lit "." /\ c <> lit ".." /\ Forall (fun b => 32 <= byte_val b /\ b <> x7f) c
  /\ x2f ∉ c.

(** Where the components of a path begin. *)
Fixpoint component_starts (position : Z) (components : list bytes) : list Z :=
  match components with
  | [] => []
  | c :: rest => position :: component_starts (position + size c + 1) rest
  end.

(** ** Lemmas: cycles *)

Section Cycle.
Context (rules : list ResolvedRedirectRule).

Definition ends (index : nat) : Prop := exists k, follow rules k index = None.

Lemma follow_add k m index :
  follow rules (k + m) index = (next ← follow rules k index; follow rules m next).
Proof.
  revert index. induction k as [|k IH]; intros index; [done|]. cbn [Nat.add follow].
  destruct (next_redirect rules index) as [next|]; cbn [mbind option_bind]; [apply IH|done].
Qed.

Lemma ends_no_cycle index k : ends index -> (0 < k)%nat -> follow rules k index <> Some index.
Proof.
  intros [t Ht] Hk Hcycle.
  assert (forall m, follow rules (m * k) index = Some index) as Hm.
  { induction m as [|m IH]; [done|]. change (S m * k)%nat with (k + m * k)%nat.
    by rewrite follow_add, Hcycle. }
  assert (exists d, t * k = t + d)%nat as [d Hd] by (exists (t * k - t)%nat; nia).
  specialize (Hm t). rewrite Hd, follow_add, Ht in Hm. done.
Qed.

Lemma find_source_bound path l index j :
  find_source path l index = Some j -> (index <= j < index + length l)%nat.
Proof.
  revert index. induction l as [|r l IH]; intros index; cbn [find_source]; [done|].
  destruct (_ == _); [intros [= <-]; cbn; lia|]. intros H%IH. cbn. lia.
Qed.

Lemma next_redirect_bound index j : next_redirect rules index = Some j -> (j < length rules)%nat.
Proof.
  unfold next_redirect. destruct (rules !! index); cbn [mbind option_bind]; [|done].
  intros H%find_source_bound. lia.
Qed.

(** The colors of a depth-first search: 0 not seen, 1 on the path, 2 done. *)
Definition white (colors : list Z) : nat := length (filter (fun c => c <> 1 /\ c <> 2) colors).

Record search_ok (index : nat) (colors : list Z) : Prop := {
  so_length : length colors = length rules;
  so_path : forall g, colors !! g = Some 1 -> exists k, (0 < k)%nat /\ follow rules k g = Some index;
  so_done : forall d, colors !! d = Some 2 -> ends d;
}.

Lemma white_insert (index : nat) v c colors :
  colors !! index = Some c -> c <> 1 -> c <> 2 -> (v = 1 \/ v = 2) ->
  white colors = S (white (<[index := v]> colors)).
Proof.
  intros Hc H1 H2 Hv. rewrite (insert_take_drop _ _ _ ltac:(by eapply lookup_lt_Some)).
  rewrite <- (take_drop_middle colors index c Hc) at 1. unfold white.
  rewrite !filter_app, !length_app, !filter_cons, decide_True, decide_False by tauto. cbn. lia.
Qed.

Lemma white_blacken (index : nat) colors :
  (white (<[index := 2%Z]> colors) <= white colors)%nat.
Proof.
  destruct (colors !! index) as [c|] eqn:Hc.
  - rewrite (insert_take_drop _ _ _ ltac:(by eapply lookup_lt_Some)).
    rewrite <- (take_drop_middle colors index c Hc) at 3. unfold white.
    rewrite !filter_app, !length_app, !filter_cons, (decide_False (P := 2 <> 1 /\ _)) by tauto.
    destruct (decide _); cbn; lia.
  - by rewrite list_insert_ge by (by apply lookup_ge_None).
Qed.

Lemma visit_spec fuel index colors :
  (index < length rules)%nat -> search_ok index colors -> (white colors < fuel)%nat ->
  match visit fuel rules index colors with
  | None => False
  | Some (true, _) => has_cycle rules
  | Some (false, colors') =>
      ends index /\ length colors' = length rules
      /\ (forall d, colors' !! d = Some 2 -> ends d)
      /\ (forall g, colors' !! g = Some 1 -> colors !! g = Some 1)
      /\ colors' !! index = Some 2 /\ (white colors' <= white colors)%nat
      /\ (forall d, colors !! d = Some 2 -> colors' !! d = Some 2)
  end.
Proof.
  revert index colors. induction fuel as [|fuel IH]; intros index colors Hi [Hlen Hpath Hdone] Hf; [lia|].
  cbn [visit]. case_bool_decide as H1.
  { destruct (Hpath index H1) as (k & Hk & E). by exists index, k. }
  case_bool_decide as H2.
  { split_and!; try done. by apply Hdone. }
  destruct (lookup_lt_is_Some_2 colors index ltac:(lia)) as [c Hc].
  assert (c <> 1 /\ c <> 2) as [Hc1 Hc2] by (split; intros ->; by (apply H1 || apply H2)).
  set (colors1 := <[index := 1]> colors).
  assert (colors1 !! index = Some 1) as Hi1 by (apply list_lookup_insert_eq; lia).
  assert (forall j, j <> index -> colors1 !! j = colors !! j) as Hother
    by (intros j Hj; by apply list_lookup_insert_ne).
  pose proof (white_insert index 1 c colors Hc Hc1 Hc2 ltac:(by left)) as Hw. fold colors1 in Hw.
  assert (length colors1 = length rules) as Hlen1 by (unfold colors1; by rewrite length_insert).
  destruct (next_redirect rules index) as [next|] eqn:En.
  - assert (search_ok next colors1) as Hs1.
    { split; [done| |].
      - intros g Hg. destruct (decide (g = index)) as [->|Hne].
        + exists 1%nat. split; [lia|]. cbn. by rewrite En.
        + rewrite Hother in Hg by done. destruct (Hpath g Hg) as (k & Hk & E). exists (k + 1)%nat.
          split; [lia|]. rewrite follow_add, E. cbn. by rewrite En.
      - intros d Hd. destruct (decide (d = index)) as [->|Hne]; [congruence|]. apply Hdone.
        by rewrite <- Hother. }
    pose proof (IH next colors1 (next_redirect_bound _ _ En) Hs1 ltac:(lia)) as Hv.
    destruct (visit fuel rules next colors1) as [[[] colors2]|]; [done| |done].
    destruct Hv as ([k Hk] & Hlen2 & Hdone2 & Hgray2 & Hnext2 & Hw2 & Hkeep2).
    assert (ends index) as Hends by (exists (S k); cbn; by rewrite En).
    split_and!; [done|by rewrite length_insert| | | | |].
    + intros d Hd. destruct (decide (d = index)) as [->|Hne]; [done|].
      rewrite list_lookup_insert_ne in Hd by done. by apply Hdone2.
    + intros g Hg. destruct (decide (g = index)) as [->|Hne].
      { rewrite list_lookup_insert_eq in Hg by lia. done. }
      rewrite list_lookup_insert_ne in Hg by done. rewrite <- Hother by done. by apply Hgray2.
    + apply list_lookup_insert_eq. lia.
    + pose proof (white_blacken index colors2). lia.
    + intros d Hd. destruct (decide (d = index)) as [->|Hne]; [apply list_lookup_insert_eq; lia|].
      rewrite list_lookup_insert_ne by done. apply Hkeep2. by rewrite Hother.
  - assert (ends index) as Hends by (exists 1%nat; cbn; by rewrite En).
    split_and!; [done|by rewrite length_insert| | | | |].
    + intros d Hd. destruct (decide (d = index)) as [->|Hne]; [done|].
      rewrite list_lookup_insert_ne, Hother in Hd by done. by apply Hdone.
    + intros g Hg. destruct (decide (g = index)) as [->|Hne].
      { rewrite list_lookup_insert_eq in Hg by lia. done. }
      by rewrite list_lookup_insert_ne, Hother in Hg by done.
    + apply list_lookup_insert_eq. lia.
    + pose proof (white_blacken index colors1). lia.
    + intros d Hd. destruct (decide (d = index)) as [->|Hne]; [apply list_lookup_insert_eq; lia|].
      by rewrite list_lookup_insert_ne, Hother by done.
Qed.

Lemma white_bound colors : (white colors <= length colors)%nat.
Proof. apply length_filter. Qed.

Lemma find_cycle_spec indexes colors :
  Forall (fun i => i < length rules)%nat indexes -> length colors = length rules ->
  (forall g, colors !! g <> Some 1) -> (forall d, colors !! d = Some 2 -> ends d) ->
  match find_cycle rules indexes colors with
  | None => False
  | Some (Some _) => has_cycle rules
  | Some None => Forall ends indexes
  end.
Proof.
  intros Hi. revert colors. induction Hi as [|index indexes Hlt Hi IH]; intros colors Hlen Hgray Hdone;
    cbn [find_cycle]; [constructor|].
  pose proof (visit_spec (S (length rules)) index colors Hlt) as Hv.
  destruct (visit (S (length rules)) rules index colors) as [[[] colors']|].
  - apply Hv; [|pose proof (white_bound colors); lia]. split; [done| |done]. intros g Hg. by apply Hgray in Hg.
  - destruct Hv as (Hends & Hlen' & Hdone' & Hgray' & _).
    { split; [done| |done]. intros g Hg. by apply Hgray in Hg. }
    { pose proof (white_bound colors). lia. }
    specialize (IH colors' Hlen' ltac:(intros g Hg; by apply Hgray', Hgray in Hg) Hdone').
    destruct (find_cycle rules indexes colors') as [[]|]; [done|by constructor|done].
  - apply Hv; [|pose proof (white_bound colors); lia]. split; [done| |done]. intros g Hg. by apply Hgray in Hg.
Qed.
End Cycle.

Lemma redirect_cycle_ends rules :
  match redirect_cycle rules with
  | None => False
  | Some (Some _) => has_cycle rules
  | Some None => ~ has_cycle rules
  end.
Proof.
  unfold redirect_cycle.
  pose proof (find_cycle_spec rules (seq 0 (length rules)) (replicate (length rules) 0)) as H.
  assert (forall g v, replicate (length rules) 0 !! g = Some v -> v = 0) as Hzero
    by (intros g v [-> _]%lookup_replicate; done).
  assert (Forall (fun i => i < length rules)%nat (seq 0 (length rules))) as Hseq
    by (apply Forall_forall; intros i Hi%elem_of_seq; lia).
  specialize (H Hseq ltac:(by rewrite length_replicate) ltac:(intros g Hg; by apply Hzero in Hg)
    ltac:(intros g Hg; by apply Hzero in Hg)).
  destruct (find_cycle _ _ _) as [[i|]|]; [done| |done].
  intros (index & k & Hk & Hf). assert (index < length rules)%nat as Hlt.
  { destruct k as [|k]; [lia|]. cbn in Hf. unfold next_redirect in Hf.
    destruct (rules !! index) eqn:E; [by eapply lookup_lt_Some|done]. }
  rewrite Forall_forall in H. eapply ends_no_cycle; [apply H, elem_of_seq|exact Hk|exact Hf]. lia.
Qed.

(** ** Lemmas: limits and paths *)

Lemma expansion_nonneg app : 0 <= expansion app.
Proof.
  unfold expansion. pose proof (size_nonneg (rules_deny app)). pose proof (size_nonneg (rules_redirects app)).
  apply Z.mul_nonneg_nonneg; [|lia]. apply Z.mul_nonneg_nonneg; lia.
Qed.

Lemma total_expansion_nonneg apps : 0 <= total_expansion apps.
Proof.
  induction apps as [|app apps IH]; cbn; [lia|]. pose proof (expansion_nonneg app).
  change (foldr _ 0 apps) with (total_expansion apps). destruct (rules_enabled app); lia.
Qed.

Lemma div_lt_iff limit d n : 0 < d -> limit / d < n <-> limit < n * d.
Proof.
  intros Hd. split; intros H.
  - pose proof (Z.mul_succ_div_gt limit d Hd). nia.
  - apply Z.div_lt_upper_bound; lia.
Qed.

Lemma expand_rules_spec limits apps expanded :
  0 <= expanded <= max_expanded_rules limits ->
  expand_rules limits apps expanded = None <-> expanded + total_expansion apps <= max_expanded_rules limits.
Proof.
  revert expanded. induction apps as [|app apps IH]; intros expanded He; cbn [expand_rules].
  { cbn. split; [lia|done]. }
  change (total_expansion (app :: apps))
    with ((if rules_enabled app then expansion app else 0) + total_expansion apps).
  destruct (rules_enabled app); cbn [negb]; [|by rewrite IH].
  pose proof (total_expansion_nonneg apps). unfold expansion.
  set (u := Z.max (size (rules_users app)) 1). set (p := Z.max (size (rules_processes app)) 1).
  set (r := size (rules_deny app) + size (rules_redirects app)). set (limit := max_expanded_rules limits) in *.
  assert (0 <= r) by (unfold r; pose proof (size_nonneg (rules_deny app)); pose proof (size_nonneg (rules_redirects app)); lia).
  assert (1 <= u /\ 1 <= p) as [Hu Hp] by (unfold u, p; lia).
  destruct (Z.eqb_spec r 0) as [Er|Er]; [rewrite IH by done; rewrite Er; lia|].
  assert (u * p * r = u * r * p) as Emul by ring. rewrite Emul.
  assert (0 < u * r) by nia. assert (u * r <= u * r * p) by nia.
  destruct (_ || _) eqn:E.
  - split; [done|]. intros Hle. exfalso.
    rewrite orb_true_iff, !Z.ltb_lt, !div_lt_iff in E by lia. lia.
  - rewrite orb_false_iff, !Z.ltb_ge in E. destruct E as [E1 E2].
    assert (~ limit / r < u) as E1' by lia. rewrite div_lt_iff in E1' by lia.
    assert (~ limit / p < u * r) as E2' by lia. rewrite div_lt_iff in E2' by lia.
    unfold AddExpanded. destruct (Z.ltb_spec limit (u * r * p)); [lia|]. cbn [orb].
    destruct (Z.ltb_spec (limit - u * r * p) expanded).
    + split; [done|lia].
    + rewrite IH by lia. lia.
Qed.

(** A path and its components; one slash may follow the last. *)
Definition spells (rest : bytes) (components : list bytes) : Prop :=
  rest = join_with x2f components
  \/ components <> [] /\ rest = join_with x2f components ++ [x2f].

Lemma good_component_bytes c :
  good_component c
  <-> ((c == []) || (c == lit ".") || (c == lit "..")) || existsb bad_path_byte c = false /\ x2f ∉ c.
Proof.
  unfold good_component. rewrite !orb_false_iff, !bool_decide_eq_false.
  assert (existsb bad_path_byte c = false <-> Forall (fun b => 32 <= byte_val b /\ b <> x7f) c) as ->; [|tauto].
  induction c as [|b c IH]; cbn [existsb]; [split; [constructor|done]|].
  rewrite orb_false_iff, IH, Forall_cons. unfold bad_path_byte.
  rewrite orb_false_iff, Z.ltb_ge, bool_decide_eq_false. tauto.
Qed.

Lemma join_cons c cs : cs <> [] -> join_with x2f (c :: cs) = c ++ x2f :: join_with x2f cs.
Proof. by destruct cs. Qed.

Lemma component_starts_ge b cs : Forall (fun o => b <= o) (component_starts b cs).
Proof.
  revert b. induction cs as [|c cs IH]; intros b; [constructor|]. constructor; [lia|].
  eapply Forall_impl; [apply IH|]. cbn. pose proof (size_nonneg c). lia.
Qed.

Lemma cut_none c : x2f ∉ c -> cut x2f c = (c, None).
Proof.
  intros Hc. pose proof (cut_spec x2f c) as H. destruct (cut x2f c) as [p [r|]]; destruct H as [-> Hp]; [|done].
  exfalso. apply Hc, elem_of_app. right. by left.
Qed.

Lemma spells_nil cs : Forall good_component cs -> spells [] cs -> cs = [].
Proof.
  intros Hg [E|[_ E]].
  - destruct cs as [|c [|c' cs]]; [done| |].
    + apply Forall_cons in Hg as [[Hc _] _]. cbn in E. congruence.
    + rewrite join_cons in E by done. by destruct c.
  - symmetry in E. by apply app_eq_nil in E as [_ ?].
Qed.

Lemma spells_cut rest cs :
  rest <> [] -> Forall good_component cs ->
  spells rest cs
  <-> match cut x2f rest with
      | (c, None) => cs = [c]
      | (c, Some more) => exists cs', cs = c :: cs' /\ spells more cs'
      end.
Proof.
  intros Hne Hg. split.
  - intros Hs. destruct cs as [|c cs]; [destruct Hs as [E|[? _]]; [by rewrite E in Hne|done]|].
    apply Forall_cons in Hg as [(_ & _ & _ & _ & Hc) _].
    destruct (decide (cs = [])) as [->|Hcs].
    + destruct Hs as [->|[_ ->]]; cbn [join_with]; [by rewrite cut_none|].
      rewrite cut_app by done. exists []. split; [done|by left].
    + unfold spells in Hs. rewrite join_cons in Hs by done.
      destruct Hs as [->|[_ ->]]; [|rewrite <- app_assoc; cbn [Datatypes.app]]; rewrite cut_app by done;
        exists cs; (split; [done|]); [by left|by right].
  - pose proof (cut_spec x2f rest) as Hc. destruct (cut x2f rest) as [c [more|]]; destruct Hc as [-> Hc].
    + intros (cs' & -> & Hs). destruct (decide (cs' = [])) as [->|Hcs].
      * destruct Hs as [->|[? _]]; [|done]. right. done.
      * unfold spells. rewrite join_cons by done.
        destruct Hs as [->|[_ ->]]; [by left|right]. by rewrite <- app_assoc.
    + intros ->. by left.
Qed.

Lemma normalize_components_nil limits fuel b offsets out :
  normalize_components limits fuel [] b offsets = Some out
  <-> exists cs, spells [] cs /\ Forall good_component cs
      /\ (cs <> [] -> size offsets + size cs <= max_path_components limits)
      /\ Forall (fun o => o < 2 ^ 16) (component_starts b cs)
      /\ out = offsets ++ component_starts b cs.
Proof.
  assert (normalize_components limits fuel [] b offsets = Some offsets) as -> by (by destruct fuel). split.
  - intros [= <-]. exists []. split_and!; [by left|constructor|done|constructor|by rewrite app_nil_r].
  - intros (cs & Hs & Hg & _ & _ & ->). apply spells_nil in Hs as ->; [|done]. by rewrite app_nil_r.
Qed.

Lemma normalize_components_spec limits fuel rest b offsets out :
  (length rest <= fuel)%nat -> 0 <= b ->
  normalize_components limits fuel rest b offsets = Some out
  <-> exists cs, spells rest cs /\ Forall good_component cs
      /\ (cs <> [] -> size offsets + size cs <= max_path_components limits)
      /\ Forall (fun o => o < 2 ^ 16) (component_starts b cs)
      /\ out = offsets ++ component_starts b cs.
Proof.
  revert rest b offsets. induction fuel as [|fuel IH]; intros rest b offsets Hf Hb.
  { destruct rest; [|cbn in Hf; lia]. apply normalize_components_nil. }
  destruct rest as [|c0 rest0] eqn:Er; [apply normalize_components_nil|].
  rewrite <- Er in *. assert (rest <> []) as Hne by (by rewrite Er).
  assert (normalize_components limits (S fuel) rest b offsets
    = let '(component, more) := cut x2f rest in
      if ((component == []) || (component == lit ".") || (component == lit ".."))
         || (max_path_components limits <=? size offsets) || (2 ^ 16 - 1 <? b)
      then None
      else if existsb bad_path_byte component then None
      else match more with
           | None => Some (offsets ++ [u16 b])
           | Some more => normalize_components limits fuel more (b + size component + 1) (offsets ++ [u16 b])
           end) as -> by (rewrite Er; reflexivity).
  clear Er c0 rest0. pose proof (cut_spec x2f rest) as Hcut.
  assert (forall cs, Forall good_component cs -> spells rest cs <-> _) as Hspell
    by (intros cs; exact (spells_cut rest cs Hne)).
  destruct (cut x2f rest) as [component more] eqn:Ecut.
  assert (x2f ∉ component) as Hslash by (destruct more; apply Hcut).
  pose proof (good_component_bytes component) as Hgood. pose proof (size_nonneg component).
  destruct (_ || (2 ^ 16 - 1 <? b)) eqn:Ebad; [|destruct (existsb bad_path_byte component) eqn:Ebytes].
  - split; [done|]. intros (cs & Hs & Hg & Hmax & Hsmall & _). exfalso. apply (Hspell cs Hg) in Hs.
    assert (exists cs', cs = component :: cs') as [cs' ->] by (destruct more; naive_solver).
    apply Forall_cons in Hg as [[Hc _]%Hgood _]. rewrite orb_false_iff in Hc. destruct Hc as [Hc _].
    rewrite Hc in Ebad. cbn [orb] in Ebad. specialize (Hmax ltac:(done)). rewrite size_cons in Hmax.
    pose proof (size_nonneg cs'). cbn [component_starts] in Hsmall. apply Forall_cons in Hsmall as [Hb16 _].
    rewrite orb_true_iff, Z.leb_le, Z.ltb_lt in Ebad. lia.
  - split; [done|]. intros (cs & Hs & Hg & _). exfalso. apply (Hspell cs Hg) in Hs.
    assert (exists cs', cs = component :: cs') as [cs' ->] by (destruct more; naive_solver).
    apply Forall_cons in Hg as [[Hc _]%Hgood _]. by rewrite orb_true_r in Hc.
  - rewrite !orb_false_iff in Ebad. destruct Ebad as [[Ebad Emax%Z.leb_gt] Eb%Z.ltb_ge].
    assert (good_component component) as Hok by (apply Hgood; by rewrite !orb_false_iff).
    assert (u16 b = b) as Eu by (apply u16_small; lia). rewrite Eu.
    destruct more as [more|].
    + destruct Hcut as [Erest _]. rewrite Erest, length_app in Hf. cbn [length] in Hf.
      rewrite IH by (lia || (pose proof (size_nonneg component); lia)). split.
      * intros (cs & Hs & Hg & Hmax & Hsmall & ->). exists (component :: cs).
        assert (Forall good_component (component :: cs)) as Hg' by (by constructor).
        split_and!; [by apply Hspell; [|exists cs]|done| | |by rewrite <- app_assoc].
        -- intros _. rewrite size_cons. destruct cs as [|c cs]; [rewrite size_nil; lia|].
           specialize (Hmax ltac:(done)). rewrite size_app in Hmax. change (size [b]) with 1 in Hmax. lia.
        -- constructor; [lia|done].
      * intros (cs & Hs & Hg & Hmax & Hsmall & ->). apply (Hspell cs Hg) in Hs as (cs' & -> & Hs).
        apply Forall_cons in Hg as [_ Hg]. cbn [component_starts] in Hsmall. apply Forall_cons in Hsmall as [_ Hsmall].
        exists cs'. split_and!; [done|done| |done|by rewrite <- app_assoc].
        intros _. specialize (Hmax ltac:(done)). rewrite size_cons in Hmax. rewrite size_app.
        change (size [b]) with 1. lia.
    + split.
      * intros [= <-]. exists [component]. assert (Forall good_component [component]) by (constructor; [done|constructor]).
        split_and!; [by apply Hspell|done| | |done].
        -- intros _. change (size [component]) with 1. lia.
        -- constructor; [lia|constructor].
      * intros (cs & Hs & Hg & _ & _ & ->). by apply (Hspell cs Hg) in Hs as ->.
Qed.

(** ** Lemmas: order *)

(** The directory of a path, or the path. *)
Definition covers (ancestor path : bytes) : Prop :=
  path = ancestor \/ exists rest, path = ancestor ++ x2f :: rest.

(** The last of the paths before [q], in the order of their bytes. *)
Definition last_before_path (paths : list bytes) (p q : bytes) : Prop :=
  p ∈ paths /\ cmp p q = Lt /\ forall z, z ∈ paths -> cmp z q = Lt -> cmp z p <> Gt.

Lemma last_before_path_perm paths paths' p q :
  paths ≡ₚ paths' -> last_before_path paths p q <-> last_before_path paths' p q.
Proof. intros Hp. unfold last_before_path. setoid_rewrite Hp. done. Qed.

Lemma sorted_by_sublist {A K} `{Ordered K} (key : A -> K) l k :
  k `sublist_of` l -> sorted_by key l -> sorted_by key k.
Proof.
  unfold sorted_by. induction 1 as [|x l k Hsub IH|x l k Hsub IH]; [done|..].
  - intros [Hl Hx]%StronglySorted_inv. constructor; [by apply IH|].
    rewrite Forall_forall in Hx |- *. intros y Hy. apply Hx. by eapply elem_of_sublist.
  - intros [Hl _]%StronglySorted_inv. by apply IH.
Qed.

(** ** Lemmas: diagnostics *)

(** No error has been recorded and none was dropped for want of room. *)
Definition quiet (limits : RulesLimits) (diagnostics : list Diagnostic) : Prop :=
  HasErrors diagnostics = false /\ size diagnostics < max_diagnostics limits.

Lemma has_errors_app d1 d2 : HasErrors (d1 ++ d2) = HasErrors d1 || HasErrors d2.
Proof. apply existsb_app. Qed.

Lemma quiet_error limits d c m sp rel : ~ quiet limits (AddDiagnostic limits d c m sp kError rel).
Proof.
  unfold AddDiagnostic. intros [He Hs].
  destruct (Z.leb_spec (max_diagnostics limits) (size d)); [lia|].
  rewrite has_errors_app, orb_false_iff in He. by destruct He.
Qed.

Lemma quiet_add limits d c m sp s rel : quiet limits (AddDiagnostic limits d c m sp s rel) -> quiet limits d.
Proof.
  unfold AddDiagnostic. intros [He Hs].
  destruct (Z.leb_spec (max_diagnostics limits) (size d)); [lia|].
  rewrite has_errors_app, orb_false_iff in He. split; [tauto|lia].
Qed.

Lemma quiet_if limits (t : bool) d c m sp rel :
  quiet limits (if t then AddDiagnostic limits d c m sp kError rel else d) -> t = false /\ quiet limits d.
Proof. destruct t; [by intros ?%quiet_error|done]. Qed.

Section Sound.
Context (limits : RulesLimits) (origins : OriginMap).

Abbreviation quiet := (quiet limits).

Lemma unique_redirects_quiet back rules d :
  quiet (unique_redirects limits origins back rules d).2 ->
  quiet d
  /\ forall r, r ∈ rules -> exists u,
       (u ∈ (unique_redirects limits origins back rules d).1 \/ back = Some u)
       /\ path_bytes (resolved_source u) = path_bytes (resolved_source r)
       /\ path_bytes (resolved_target u) = path_bytes (resolved_target r).
Proof.
  revert back d. induction rules as [|rule rules IH]; intros back d; cbn [unique_redirects].
  { intros Hq. split; [done|]. by intros r ?%elem_of_nil. }
  assert (quiet (let '(u, d') := unique_redirects limits origins (Some rule) rules d in (rule :: u, d')).2 ->
    quiet d /\ forall r, r ∈ rule :: rules -> exists u,
       (u ∈ (let '(u, d') := unique_redirects limits origins (Some rule) rules d in (rule :: u, d')).1
        \/ back = Some u)
       /\ path_bytes (resolved_source u) = path_bytes (resolved_source r)
       /\ path_bytes (resolved_target u) = path_bytes (resolved_target r)) as Hkeep.
  { specialize (IH (Some rule) d). destruct (unique_redirects limits origins (Some rule) rules d) as [u d'].
    cbn [fst snd] in *. intros [Hd Hin]%IH. split; [done|]. intros r [->|Hr]%elem_of_cons.
    - exists rule. split; [left; by left|done].
    - destruct (Hin r Hr) as (v & [Hv|[= <-]] & E); [exists v|exists rule]; (split; [left|done]);
        [by right|by left]. }
  destruct back as [last|]; [|exact Hkeep]. destruct (_ && _) eqn:E; [|exact Hkeep].
  unfold SamePath in E. rewrite andb_true_iff, !bool_decide_eq_true in E. destruct E as [E1 E2].
  intros [Hd Hin]%IH. split; [by apply quiet_add in Hd|]. intros r [->|Hr]%elem_of_cons; [|by apply Hin].
  exists last. split; [by right|done].
Qed.

(** Two redirects whose sources do not contain each other. *)
Definition sources_apart (x y : ResolvedRedirectRule) : Prop :=
  PathsOverlap (resolved_source x) (resolved_source y) = false.

Lemma check_redirects_quiet before rules d :
  quiet (check_redirects limits origins before rules d) ->
  quiet d /\ Forall (fun r => PathsOverlap (resolved_source r) (resolved_target r) = false) rules
  /\ Sorted sources_apart rules /\ match before with Some b => HdRel sources_apart b rules | None => True end.
Proof.
  revert before d. induction rules as [|rule rules IH]; intros before d; cbn [check_redirects].
  { intros Hq. split_and!; [done|constructor|constructor|]. by destruct before. }
  intros (Hq & Hall & Hsorted & Hhd)%IH. destruct before as [before|].
  - apply quiet_if in Hq as [Ho Hq]. apply quiet_if in Hq as [? Hq].
    split_and!; [done|by constructor|by constructor|by constructor].
  - apply quiet_if in Hq as [? Hq]. split_and!; [done|by constructor|by constructor|done].
Qed.

(** Dropping duplicates keeps the order. *)
Lemma unique_redirects_sublist back rules d :
  (unique_redirects limits origins back rules d).1 `sublist_of` rules.
Proof.
  revert back d. induction rules as [|rule rules IH]; intros back d; cbn [unique_redirects]; [constructor|].
  assert (forall d', (let '(u, d'') := unique_redirects limits origins (Some rule) rules d' in (rule :: u, d'')).1
    `sublist_of` rule :: rules) as Hkeep.
  { intros d'. specialize (IH (Some rule) d'). destruct (unique_redirects _ _ _ _ _). by apply sublist_skip. }
  destruct back as [last|]; [|apply Hkeep]. destruct (_ && _); [|apply Hkeep]. by apply sublist_cons.
Qed.

(** Neighbours that are apart are strictly in order, so that all sources are distinct. *)
Lemma sources_strict rules :
  sorted_by redirect_key rules -> Sorted sources_apart rules ->
  strictly_sorted_by (fun r => path_bytes (resolved_source r)) rules.
Proof.
  intros Hs Ha. apply Sorted_StronglySorted.
  { intros x y z. apply cmp_lt_trans. }
  induction Hs as [|x l Hs IH Hx]; [constructor|]. apply Sorted_inv in Ha as [Ha Hhd]. constructor; [by apply IH|].
  destruct Hhd as [|y l Hxy]; constructor. apply Forall_cons in Hx as [Hx _].
  change (pair_compare (redirect_key x) (redirect_key y) <> Gt) in Hx. unfold pair_compare in Hx. cbn [fst redirect_key] in Hx.
  destruct (cmp (path_bytes (resolved_source x)) (path_bytes (resolved_source y))) eqn:E; [exfalso|done|done].
  apply cmp_eq in E. unfold sources_apart, PathsOverlap, IsSameOrAncestor in Hxy. rewrite E in Hxy.
  by rewrite bool_decide_eq_true_2 in Hxy.
Qed.

Lemma sources_neighbours rules x y :
  strictly_sorted_by (fun r => path_bytes (resolved_source r)) rules -> Sorted sources_apart rules ->
  x ∈ rules -> y ∈ rules ->
  last_before_path ((fun r => path_bytes (resolved_source r)) <$> rules)
    (path_bytes (resolved_source x)) (path_bytes (resolved_source y)) -> sources_apart x y.
Proof.
  intros Hs Ha. revert x y. induction Hs as [|r l Hs IH Hr]; intros x y Hx Hy (_ & Hlt & Hlast); [by apply elem_of_nil in Hx|].
  apply Sorted_inv in Ha as [Ha Hhd]. rewrite Forall_forall in Hr.
  assert (forall a b, cmp a b = Lt -> cmp b a = Lt -> False) as Hcycle.
  { intros a b H1 H2. pose proof (cmp_lt_trans a b a H1 H2) as H. by rewrite cmp_refl in H. }
  apply elem_of_cons in Hx as [->|Hx], Hy as [->|Hy].
  - by rewrite cmp_refl in Hlt.
  - destruct l as [|h l]; [by apply elem_of_nil in Hy|]. apply HdRel_inv in Hhd.
    apply elem_of_cons in Hy as [->|Hy]; [done|]. exfalso.
    apply StronglySorted_inv in Hs as [_ Hh]. rewrite Forall_forall in Hh.
    pose proof (Hlast (path_bytes (resolved_source h)) ltac:(right; left) (Hh y Hy)) as Hn.
    apply Hn. apply cmp_gt_lt, Hr. left.
  - exfalso. eapply Hcycle; [exact Hlt|]. by apply Hr.
  - apply (IH Ha); [done|done|]. split; [by apply (list_elem_of_fmap_2 (fun r => path_bytes (resolved_source r)))|].
    split; [done|]. intros z Hz. apply Hlast. by right.
Qed.

(** What is left of an app's redirects when none was refused. *)
Lemma ValidateRedirects_quiet app d :
  quiet (ValidateRedirects limits origins app d).2 ->
  let app' := (ValidateRedirects limits origins app d).1 in
  quiet d
  /\ (forall r, r ∈ resolved_redirects app -> exists u, u ∈ resolved_redirects app'
        /\ path_bytes (resolved_source u) = path_bytes (resolved_source r)
        /\ path_bytes (resolved_target u) = path_bytes (resolved_target r))
  /\ Forall (fun r => PathsOverlap (resolved_source r) (resolved_target r) = false) (resolved_redirects app')
  /\ Sorted sources_apart (resolved_redirects app') /\ sorted_by redirect_key (resolved_redirects app')
  /\ ~ has_cycle (resolved_redirects app')
  /\ (resolved_file_picker app = true -> resolved_redirects app' <> [])
  /\ resolved_package app' = resolved_package app /\ resolved_enabled app' = resolved_enabled app
  /\ resolved_deny app' = resolved_deny app.
Proof.
  unfold ValidateRedirects. pose proof (unique_redirects_quiet None (sort_by redirect_key (resolved_redirects app)) d) as Hu.
  pose proof (unique_redirects_sublist None (sort_by redirect_key (resolved_redirects app)) d) as Hsub.
  destruct (unique_redirects _ _ _ _ _) as [us d1]. cbn [fst snd] in *.
  intros [Hpick Hq]%quiet_if.
  pose proof (redirect_cycle_ends us) as Hcycle.
  destruct (redirect_cycle us) as [[i|]|]; [by apply quiet_error in Hq| |done].
  apply check_redirects_quiet in Hq as (Hq & Hover & Hapart & _). apply Hu in Hq as [Hq Hin]. cbn. split_and!; try done.
  - intros r Hr. destruct (Hin r) as (u & [Hu'|?] & E); [by apply elem_of_sort_by|by exists u|done].
  - eapply sorted_by_sublist; [exact Hsub|]. apply sort_by_sorted.
  - intros Hfp ->. by rewrite Hfp in Hpick.
Qed.

Lemma IsSameOrAncestor_iff a p :
  IsSameOrAncestor a p = true <-> path_bytes p = path_bytes a \/ exists rest, path_bytes p = path_bytes a ++ x2f :: rest.
Proof.
  unfold IsSameOrAncestor. rewrite orb_true_iff, !andb_true_iff, !bool_decide_eq_true, Z.ltb_lt, starts_with_spec.
  apply or_iff_compat_l. split.
  - intros [[Hlt [rest E]] Hs]. rewrite E, lookup_app_r, Nat.sub_diag in Hs by lia. rewrite E.
    destruct rest as [|x rest]; [done|]. cbn in Hs. injection Hs as ->. by exists rest.
  - intros [rest E]. rewrite E, size_app, size_cons, lookup_app_r, Nat.sub_diag by lia.
    pose proof (size_nonneg rest). split_and!; [lia|by exists (x2f :: rest)|done].
Qed.

Lemma unique_denies_quiet back rules d :
  quiet (unique_denies limits origins back rules d).2 ->
  quiet d
  /\ forall r, r ∈ rules -> exists u,
       (u ∈ (unique_denies limits origins back rules d).1 \/ back = Some u)
       /\ IsSameOrAncestor (resolved_deny_path u) (resolved_deny_path r) = true.
Proof.
  revert back d. induction rules as [|rule rules IH]; intros back d; cbn [unique_denies].
  { intros Hq. split; [done|]. by intros r ?%elem_of_nil. }
  assert (quiet (let '(u, d') := unique_denies limits origins (Some rule) rules d in (rule :: u, d')).2 ->
    quiet d /\ forall r, r ∈ rule :: rules -> exists u,
       (u ∈ (let '(u, d') := unique_denies limits origins (Some rule) rules d in (rule :: u, d')).1
        \/ back = Some u)
       /\ IsSameOrAncestor (resolved_deny_path u) (resolved_deny_path r) = true) as Hkeep.
  { specialize (IH (Some rule) d). destruct (unique_denies limits origins (Some rule) rules d) as [u d'].
    cbn [fst snd] in *. intros [Hd Hin]%IH. split; [done|]. intros r [->|Hr]%elem_of_cons.
    - exists rule. split; [left; by left|]. apply IsSameOrAncestor_iff. by left.
    - destruct (Hin r Hr) as (v & [Hv|[= <-]] & E); [exists v|exists rule]; (split; [left|done]);
        [by right|by left]. }
  destruct back as [last|]; [|exact Hkeep]. destruct (IsSameOrAncestor _ _) eqn:E; [|exact Hkeep].
  intros [Hd Hin]%IH. split; [by apply quiet_add in Hd|]. intros r [->|Hr]%elem_of_cons; [|by apply Hin].
  exists last. split; [by right|done].
Qed.
End Sound.

(** ** What compiled rules promise *)

Definition forget_id (r : ResolvedRedirectRule) : CanonicalRedirectRule :=
  {| canonical_source := resolved_source r; canonical_target := resolved_target r |}.

(** A compiled app enforces the rules it was written with. *)
Record app_enforced (source : AppRules) (app : CanonicalAppPolicy) : Prop := {
  ae_package : canonical_package app = rules_package source;
  ae_users : forall u, u ∈ canonical_users app <-> u ∈ rules_users source;
  ae_processes : forall p, p ∈ canonical_processes app <-> p ∈ rules_processes source;
  ae_deny : forall r, r ∈ rules_deny source ->
    exists c, c ∈ canonical_deny app /\ covers (path_bytes c) (deny_path r);
  ae_redirect : forall r, r ∈ rules_redirects source ->
    exists c, c ∈ canonical_redirects app
      /\ path_bytes (canonical_source c) = redirect_source r
      /\ path_bytes (canonical_target c) = redirect_target r;
  ae_apart : forall c, c ∈ canonical_redirects app ->
    ~ covers (path_bytes (canonical_source c)) (path_bytes (canonical_target c))
    /\ ~ covers (path_bytes (canonical_target c)) (path_bytes (canonical_source c));
  ae_sources : NoDup ((fun c => path_bytes (canonical_source c)) <$> canonical_redirects app);
  ae_neighbours : forall c c', c ∈ canonical_redirects app -> c' ∈ canonical_redirects app ->
    last_before_path ((fun c => path_bytes (canonical_source c)) <$> canonical_redirects app)
      (path_bytes (canonical_source c)) (path_bytes (canonical_source c')) ->
    ~ covers (path_bytes (canonical_source c)) (path_bytes (canonical_source c'));
  ae_not_denied : forall c, c ∈ canonical_redirects app ->
    path_bytes (canonical_source c) ∉ (path_bytes <$> canonical_deny app)
    /\ forall p, last_before_path (path_bytes <$> canonical_deny app) p (path_bytes (canonical_source c)) ->
         ~ covers p (path_bytes (canonical_source c));
  ae_acyclic : exists rules, canonical_redirects app ≡ₚ (forget_id <$> rules) /\ ~ has_cycle rules;
  ae_picker : canonical_file_picker app = rules_file_picker source;
  ae_picker_redirects : rules_file_picker source = true -> canonical_redirects app <> [];
}.

Lemma NormalizeRulePath_bytes limits input p : NormalizeRulePath limits input = Some p -> path_bytes p = input.
Proof.
  unfold NormalizeRulePath. destruct (_ || bool_decide (head input = _)); [done|].
  destruct (normalize_components _ _ _ _ _); cbn; [|done]. by intros [= <-].
Qed.

Lemma elem_of_unique {A} `{EqDecision A} (x : A) l : x ∈ unique l <-> x ∈ l.
Proof.
  induction l as [|y l IH]; [done|]. destruct l as [|z l]; [done|].
  change (unique (y :: z :: l)) with (if y == z then unique (z :: l) else y :: unique (z :: l)).
  case_bool_decide as E; [subst z; rewrite IH, !elem_of_cons; tauto|]. by rewrite !(elem_of_cons _ _ y), IH.
Qed.

Section Enforced.
Context (limits : RulesLimits) (origins : OriginMap).

Abbreviation quiet := (quiet limits).

Lemma resolve_denies_quiet rules d :
  quiet (resolve_denies limits origins rules d).2 ->
  quiet d
  /\ forall r, r ∈ rules -> exists u, u ∈ (resolve_denies limits origins rules d).1
       /\ path_bytes (resolved_deny_path u) = deny_path r.
Proof.
  revert d. induction rules as [|rule rules IH]; intros d; cbn [resolve_denies].
  { intros Hq. split; [done|]. by intros r ?%elem_of_nil. }
  destruct (ExceedsPathLimits _ _); [by intros [Hq%quiet_error _]%IH|].
  destruct (NormalizeRulePath _ _) as [p|] eqn:Ep; [|by intros [Hq%quiet_error _]%IH].
  apply NormalizeRulePath_bytes in Ep. specialize (IH d).
  destruct (resolve_denies _ _ rules d) as [us d']. cbn [fst snd] in *. intros [Hd Hin]%IH. split; [done|].
  intros r [->|Hr]%elem_of_cons.
  - eexists. split; [by left|done].
  - destruct (Hin r Hr) as (u & Hu & E). exists u. split; [by right|done].
Qed.

Lemma resolve_redirects_quiet rules d :
  quiet (resolve_redirects limits origins rules d).2 ->
  quiet d
  /\ forall r, r ∈ rules -> exists u, u ∈ (resolve_redirects limits origins rules d).1
       /\ path_bytes (resolved_source u) = redirect_source r
       /\ path_bytes (resolved_target u) = redirect_target r.
Proof.
  revert d. induction rules as [|rule rules IH]; intros d; cbn [resolve_redirects].
  { intros Hq. split; [done|]. by intros r ?%elem_of_nil. }
  destruct (_ || _); [by intros [Hq%quiet_error _]%IH|].
  destruct (NormalizeRulePath _ (redirect_source rule)) as [p|] eqn:Ep; [|by intros [Hq%quiet_error _]%IH].
  destruct (NormalizeRulePath _ (redirect_target rule)) as [q|] eqn:Eq; [|by intros [Hq%quiet_error _]%IH].
  apply NormalizeRulePath_bytes in Ep, Eq. specialize (IH d).
  destruct (resolve_redirects _ _ rules d) as [us d']. cbn [fst snd] in *. intros [Hd Hin]%IH. split; [done|].
  intros r [->|Hr]%elem_of_cons.
  - eexists. split; [by left|done].
  - destruct (Hin r Hr) as (u & Hu & E). exists u. split; [by right|done].
Qed.

Lemma check_denies_quiet deny redirects d :
  quiet (check_denies limits origins deny redirects d) ->
  quiet d /\ Forall (fun r => deny_conflict deny r = None) redirects.
Proof.
  revert d. induction redirects as [|r rs IH]; intros d; cbn [check_denies]; [done|].
  intros [Hq Hall]%IH. destruct (deny_conflict _ _) eqn:E; [by apply quiet_error in Hq|].
  split; [done|by constructor].
Qed.

Lemma unique_denies_sublist back rules d : (unique_denies limits origins back rules d).1 `sublist_of` rules.
Proof.
  revert back d. induction rules as [|rule rules IH]; intros back d; cbn [unique_denies]; [constructor|].
  assert (forall d', (let '(u, d'') := unique_denies limits origins (Some rule) rules d' in (rule :: u, d'')).1
    `sublist_of` rule :: rules) as Hkeep.
  { intros d'. specialize (IH (Some rule) d'). destruct (unique_denies _ _ _ _ _). by apply sublist_skip. }
  destruct back as [last|]; [|apply Hkeep]. destruct (IsSameOrAncestor _ _); [|apply Hkeep]. by apply sublist_cons.
Qed.

Abbreviation dpath := (fun d => path_bytes (resolved_deny_path d)).

(** The binary search finds the last denied path before the source and the first that is not. *)
Lemma deny_neighbours_spec source deny before :
  sorted_by dpath deny -> (forall b, before = Some b -> cmp (dpath b) source = Lt /\ Forall (fun d => cmp (dpath b) (dpath d) <> Gt) deny) ->
  let '(last, next) := deny_neighbours source deny before in
  (forall p, p ∈ dpath <$> deny -> cmp p source = Lt ->
     exists b, last = Some b /\ cmp p (dpath b) <> Gt)
  /\ (forall b, last = Some b -> (before = Some b \/ b ∈ deny) /\ cmp (dpath b) source = Lt)
  /\ (forall b, before = Some b -> exists b', last = Some b' /\ cmp (dpath b) (dpath b') <> Gt)
  /\ (source ∈ dpath <$> deny -> exists d, next = Some d /\ dpath d = source).
Proof.
  intros Hs. revert before. induction Hs as [|d deny Hs IH Hd]; intros before Hb; cbn [deny_neighbours].
  { split_and!; [by intros p ?%elem_of_nil| | |by intros ?%elem_of_nil].
    - intros b Hl. split; [by left|]. by apply Hb.
    - intros b ->. exists b. by rewrite cmp_refl. }
  destruct (key_lt (dpath d) source) eqn:E.
  - apply key_lt_true in E. specialize (IH (Some d)). destruct (deny_neighbours source deny (Some d)) as [last next].
    destruct IH as (H1 & H2 & H3 & H4); [by intros b [= <-]|]. destruct (H3 d eq_refl) as (b' & -> & Hb'). split_and!.
    + intros p [->|Hp]%elem_of_cons Hlt; [by exists b'|by apply H1].
    + intros b [[[= ->]|?] Hlt]%H2; (split; [right|done]); [by left|by right].
    + intros b ->. exists b'. split; [done|]. destruct (Hb b eq_refl) as [_ [? _]%Forall_cons]. by eapply cmp_le_trans.
    + intros [->|Hin]%elem_of_cons; [by rewrite cmp_refl in E|by apply H4].
  - apply key_lt_false in E.
    assert (forall p, p ∈ dpath <$> (d :: deny) -> cmp source p <> Gt) as Hge.
    { intros p [->|(x & -> & Hx)%list_elem_of_fmap]%elem_of_cons; [done|]. rewrite Forall_forall in Hd.
      eapply cmp_le_trans; [exact E|by apply Hd]. }
    split_and!.
    + intros p Hp%Hge Hlt. apply cmp_gt_lt in Hlt. done.
    + intros b Hl. split; [by left|]. by apply Hb.
    + intros b ->. exists b. by rewrite cmp_refl.
    + intros Hin. exists d. split; [done|]. apply elem_of_cons in Hin as [->|(x & -> & Hx)%list_elem_of_fmap]; [done|].
      rewrite Forall_forall in Hd. specialize (Hd x Hx). rewrite cmp_not_gt in Hd, E.
      destruct Hd as [Hd|?], E as [E|?]; try congruence. pose proof (cmp_lt_trans _ _ _ Hd E) as H. by rewrite cmp_refl in H.
Qed.

Lemma deny_paths_sorted deny : sorted_by deny_key deny -> sorted_by dpath deny.
Proof.
  unfold sorted_by. induction 1 as [|d l Hl IH Hd]; constructor; [done|].
  eapply Forall_impl; [exact Hd|]. cbn beta. intros x Hx.
  change (pair_compare (deny_key d) (deny_key x) <> Gt) in Hx. unfold pair_compare in Hx. cbn [fst deny_key] in Hx.
  by destruct (cmp (dpath d) (dpath x)).
Qed.

Lemma deny_conflict_none deny r :
  sorted_by dpath deny -> deny_conflict deny r = None ->
  path_bytes (resolved_source r) ∉ dpath <$> deny
  /\ forall p, last_before_path (dpath <$> deny) p (path_bytes (resolved_source r)) -> ~ covers p (path_bytes (resolved_source r)).
Proof.
  intros Hs. unfold deny_conflict. pose proof (deny_neighbours_spec (path_bytes (resolved_source r)) deny None Hs) as H.
  destruct (deny_neighbours _ deny None) as [last next]. destruct H as (H1 & H2 & _ & H4); [done|]. intros E. split.
  - intros (d & -> & Ed)%H4. unfold SamePath in E. rewrite Ed, bool_decide_eq_true_2 in E by done.
    destruct last; [by destruct (IsSameOrAncestor _ _)|done].
  - intros p (Hp & Hlt & Hlast) Hc. destruct (H1 p Hp Hlt) as (b & -> & Hle).
    destruct (IsSameOrAncestor (resolved_deny_path b) (resolved_source r)) eqn:Ea; [done|].
    assert (p = dpath b) as ->; [|by apply IsSameOrAncestor_iff in Hc; congruence].
    destruct (H2 b eq_refl) as [[?|Hb] Hbs]; [done|].
    assert (cmp (dpath b) p <> Gt) as Hle' by (apply Hlast; [by apply (list_elem_of_fmap_2 dpath)|done]).
    rewrite cmp_not_gt in Hle, Hle'. destruct Hle as [Hle|?], Hle' as [Hle'|?]; try congruence.
    pose proof (cmp_lt_trans _ _ _ Hle Hle') as H. by rewrite cmp_refl in H.
Qed.

Lemma ValidateDeny_quiet app d :
  quiet (ValidateDeny limits origins app d).2 ->
  let app' := (ValidateDeny limits origins app d).1 in
  quiet d
  /\ (forall r, r ∈ resolved_deny app -> exists u, u ∈ resolved_deny app'
        /\ IsSameOrAncestor (resolved_deny_path u) (resolved_deny_path r) = true)
  /\ Forall (fun r => path_bytes (resolved_source r) ∉ dpath <$> resolved_deny app'
       /\ forall p, last_before_path (dpath <$> resolved_deny app') p (path_bytes (resolved_source r)) ->
            ~ covers p (path_bytes (resolved_source r))) (resolved_redirects app)
  /\ resolved_redirects app' = resolved_redirects app.
Proof.
  unfold ValidateDeny. pose proof (unique_denies_sublist None (sort_by deny_key (resolved_deny app)) d) as Hsub.
  pose proof (unique_denies_quiet limits origins None (sort_by deny_key (resolved_deny app)) d) as Hu.
  destruct (unique_denies _ _ _ _ _) as [us d1]. cbn [fst snd] in *. intros [Hq Hnone]%check_denies_quiet.
  apply Hu in Hq as [Hq Hin]. cbn. split_and!; [done| | |done].
  - intros r Hr. destruct (Hin r) as (u & [Hu'|?] & E); [by apply elem_of_sort_by|by exists u|done].
  - eapply Forall_impl; [exact Hnone|]. intros r. apply deny_conflict_none.
    apply deny_paths_sorted. eapply sorted_by_sublist; [exact Hsub|]. apply sort_by_sorted.
Qed.

(** The fields that resolution copies. *)
Lemma resolve_app_copies source d :
  let app := (resolve_app limits origins source d).1 in
  resolved_package app = rules_package source /\ resolved_enabled app = rules_enabled source
  /\ resolved_users app = rules_users source /\ resolved_processes app = rules_processes source
  /\ resolved_file_picker app = rules_file_picker source.
Proof.
  unfold resolve_app, ValidateRedirects, ValidateDeny.
  destruct (resolve_denies _ _ _ _) as [? ?], (resolve_redirects _ _ _ _) as [? ?]. cbn [resolved_redirects].
  destruct (unique_redirects _ _ _ _ _) as [? ?]. cbn [resolved_deny].
  by destruct (unique_denies _ _ _ _ _) as [? ?].
Qed.

Lemma covers_ancestor a p : IsSameOrAncestor a p = true <-> covers (path_bytes a) (path_bytes p).
Proof. apply IsSameOrAncestor_iff. Qed.

Lemma resolve_app_enforced source d :
  quiet (resolve_app limits origins source d).2 ->
  quiet d /\ app_enforced source (canonicalize (resolve_app limits origins source d).1).
Proof.
  pose proof (resolve_app_copies source d) as Hcopy. revert Hcopy. cbn zeta. unfold resolve_app.
  pose proof (resolve_denies_quiet (rules_deny source) d) as Hd.
  destruct (resolve_denies _ _ _ d) as [ds d1]. cbn [fst snd] in Hd.
  pose proof (resolve_redirects_quiet (rules_redirects source) d1) as Hr.
  destruct (resolve_redirects _ _ _ d1) as [rs d2]. cbn [fst snd] in Hr.
  set (app := {| resolved_package := _ |}). pose proof (ValidateRedirects_quiet limits origins app d2) as Hv.
  destruct (ValidateRedirects _ _ app d2) as [app1 d3]. cbn [fst snd] in Hv.
  pose proof (ValidateDeny_quiet app1 d3) as Hw.
  destruct (ValidateDeny _ _ app1 d3) as [app2 d4]. cbn [fst snd] in Hw |- *.
  intros (Epkg & _ & Eusers & Eprocs & Epick) Hq.
  destruct (Hw Hq) as (Hq3 & Hdeny2 & Hnot & Ered2).
  destruct (Hv Hq3) as (Hq2 & Hred1 & Hover & Hapart & Hsorted & Hacyc & Hpick & _ & _ & Edeny1).
  destruct (Hr Hq2) as (Hq1 & Hred). destruct (Hd Hq1) as (Hq0 & Hdeny). split; [done|].
  assert (canonical_redirects (canonicalize app2) ≡ₚ (forget_id <$> resolved_redirects app1)) as Hperm
    by (cbn; rewrite Ered2; apply sort_by_perm).
  assert ((fun c => path_bytes (canonical_source c)) <$> canonical_redirects (canonicalize app2)
          ≡ₚ (fun r => path_bytes (resolved_source r)) <$> resolved_redirects app1) as Hsources
    by (rewrite Hperm, <- list_fmap_compose; done).
  pose proof (sources_strict _ Hsorted Hapart) as Hstrict.
  assert (path_bytes <$> canonical_deny (canonicalize app2) ≡ₚ dpath <$> resolved_deny app2) as Hpaths
    by (cbn; rewrite sort_by_perm, <- list_fmap_compose; done).
  split; try done.
  - intros u. cbn. by rewrite elem_of_unique, elem_of_sort_by, Eusers.
  - intros p. cbn. by rewrite elem_of_unique, elem_of_sort_by, Eprocs.
  - intros r Hr'. destruct (Hdeny r Hr') as (u & Hu & Eu). rewrite Edeny1 in Hdeny2.
    destruct (Hdeny2 u Hu) as (v & Hv' & Ev%covers_ancestor). exists (resolved_deny_path v). rewrite <- Eu. split; [|done].
    cbn. rewrite elem_of_sort_by, list_elem_of_fmap. by exists v.
  - intros r Hr'. destruct (Hred r Hr') as (u & Hu & Es & Et). destruct (Hred1 u Hu) as (v & Hv' & Es' & Et').
    exists (forget_id v). rewrite Hperm, list_elem_of_fmap. split; [by exists v|]. cbn. by rewrite Es', Et'.
  - intros c. rewrite Hperm, list_elem_of_fmap. intros (u & -> & Hu). rewrite Forall_forall in Hover.
    specialize (Hover u Hu). unfold PathsOverlap in Hover. rewrite orb_false_iff in Hover.
    cbn. rewrite <- !covers_ancestor. destruct Hover as [-> ->]. done.
  - rewrite Hsources. clear -Hstrict. induction Hstrict as [|r l Hl IH Hr]; [constructor|].
    cbn. constructor; [|done]. intros (x & E & Hx)%list_elem_of_fmap. rewrite Forall_forall in Hr.
    specialize (Hr x Hx). rewrite E in Hr. by rewrite cmp_refl in Hr.
  - intros c c' Hc Hc' Hlast. apply (last_before_path_perm _ _ _ _ Hsources) in Hlast.
    rewrite Hperm in Hc, Hc'. apply list_elem_of_fmap in Hc as (u & -> & Hu), Hc' as (u' & -> & Hu').
    assert (sources_apart u u') as Hapart'.
    { by eapply sources_neighbours; [exact Hstrict|exact Hapart|..]. }
    unfold sources_apart, PathsOverlap in Hapart'. rewrite orb_false_iff in Hapart'.
    cbn [canonical_source forget_id]. rewrite <- covers_ancestor. by destruct Hapart' as [-> _].
  - intros c. rewrite Hperm, list_elem_of_fmap. intros (u & -> & Hu). rewrite Forall_forall in Hnot.
    destruct (Hnot u Hu) as [Hn Hlast]. cbn [canonical_source forget_id]. rewrite Hpaths. split; [done|].
    intros p Hp. apply Hlast. by rewrite <- (last_before_path_perm _ _ _ _ Hpaths).
  - by exists (resolved_redirects app1).
  - intros Hfp E. rewrite E in Hperm. apply Permutation_nil_l in Hperm. symmetry in Hperm. apply fmap_nil_inv in Hperm. by apply Hpick in Hperm.
Qed.

Lemma resolve_apps_enforced apps d :
  quiet (resolve_apps limits origins apps d).2 ->
  quiet d
  /\ Forall2 app_enforced (filter (fun a => rules_enabled a = true) apps)
       (canonicalize <$> filter (fun a => resolved_enabled a = true) (resolve_apps limits origins apps d).1).
Proof.
  revert d. induction apps as [|source apps IH]; intros d; cbn [resolve_apps]; [done|].
  pose proof (resolve_app_enforced source d) as Ha. pose proof (resolve_app_copies source d) as (_ & Een & _).
  destruct (resolve_app _ _ _ _) as [app d1]. specialize (IH d1). destruct (resolve_apps _ _ _ _) as [rest d2].
  cbn [fst snd] in *. intros [Hq HF]%IH. apply Ha in Hq as [Hq He]. split; [done|].
  rewrite !filter_cons, Een. destruct (decide _); [|done]. by constructor.
Qed.
End Enforced.

(** ** Properties *)

Lemma ok_parts limits document origins d :
  ok (CompileRules limits document origins d) = true ->
  exists doc within d1 apps d2 blob,
    document = Some doc /\ HasErrors d = false
    /\ ValidateExpandedRuleLimit limits origins doc d = (within, d1) /\ within = true
    /\ resolve_apps limits origins (rules_apps doc) d1 = (apps, d2) /\ HasErrors d2 = false
    /\ let resolved := {| resolved_allow_legacy_mount := rules_allow_legacy_mount doc; resolved_apps := apps |} in
       EncodeAndVerify (canonicalize_policy resolved) = Some blob
       /\ CompileRules limits document origins d
          = {| build_resolved := Some resolved; build_canonical := Some (canonicalize_policy resolved);
               build_requirements := requirements_of (canonicalize_policy resolved);
               build_blob := Some blob; build_diagnostics := d2 |}.
Proof.
  destruct document as [doc|]; [|done]. unfold CompileRules. destruct (HasErrors d) eqn:Ed; [done|].
  destruct (ValidateExpandedRuleLimit _ _ _ _) as [[] d1] eqn:Ew; cbn [negb]; [|done].
  destruct (resolve_apps _ _ _ _) as [apps d2] eqn:Ea. destruct (HasErrors d2) eqn:Ed2; [done|].
  destruct (EncodeAndVerify _) as [blob|] eqn:Eb; [|done]. intros _.
  exists doc, true, d1, apps, d2, blob. split_and!; try done.
Qed.

(** C15. When the rules compile without an error and the list of diagnostics was not full,
    every enabled app of the document is in the canonical policy and enforces its rules: each
    denied path is at or below a denied path of the policy, each redirect is kept, no redirect
    has its source inside its target or its target inside its source, and following redirects
    from one source to the next never returns. No two redirects have the same source and none has
    a denied path as its source; nor is a source below the source, or the denied path, that is the
    last one before it in the order of their bytes. The checks compare no others, nor do they look
    at the other targets: [sibling_hides_deny_conflict], [conflicts_let_through]. *)
Theorem compile_ok_enforces limits document origins d :
  let r := CompileRules limits document origins d in
  ok r = true -> size (build_diagnostics r) < max_diagnostics limits ->
  exists doc canonical apps, document = Some doc /\ build_canonical r = Some canonical
    /\ canonical_apps canonical ≡ₚ apps
    /\ Forall2 app_enforced (filter (fun a => rules_enabled a = true) (rules_apps doc)) apps.
Proof.
  intros r Hok. destruct (ok_parts _ _ _ _ Hok) as (doc & w & d1 & apps & d2 & blob & -> & _ & _ & _ & Ea & He & _ & Er).
  unfold r. rewrite Er. cbn [build_diagnostics build_canonical]. intros Hs.
  pose proof (resolve_apps_enforced limits origins (rules_apps doc) d1) as Henf. rewrite Ea in Henf.
  destruct (Henf (conj He Hs)) as [_ HF]. eexists doc, _, _. split_and!; [done|done| |exact HF].
  apply sort_by_perm.
Qed.

(** A compilation that succeeds has a binary policy that the loader accepts: it decodes,
    and the generation stored in it, the generation of what was decoded and the generation of
    the canonical policy are one and the same nonzero number, the one admission reports; and
    the requirements are those of the canonical policy. *)
Theorem compile_ok_verified limits document origins d snapshot :
  let r := CompileRules limits document origins d in
  ok r = true ->
  exists canonical blob decoded, build_canonical r = Some canonical /\ build_blob r = Some blob
    /\ DecodePolicy (blob_bytes blob) = Ok (decoded, blob_generation blob)
    /\ ComputeContentGeneration decoded = blob_generation blob
    /\ admitted_content_generation (AdmitPolicy canonical (build_requirements r) snapshot) = blob_generation blob
    /\ blob_generation blob <> 0
    /\ (required_provider (build_requirements r) = true
        <-> exists app, app ∈ canonical_apps canonical /\ canonical_file_picker app = true)
    /\ (required_topology (build_requirements r) = true <-> canonical_apps canonical <> []).
Proof.
  intros r Hok. destruct (ok_parts _ _ _ _ Hok) as (doc & w & d1 & apps & d2 & blob & -> & _ & _ & _ & _ & _ & Eb & Er).
  unfold r. rewrite Er. cbn [build_blob build_canonical build_requirements]. clear r Hok Er.
  set (canonical := canonicalize_policy _) in *. clearbody canonical. revert Eb. unfold EncodeAndVerify.
  destruct (EncodePolicy _) as [encoded| |]; [|done|done]. destruct (negb _ && _) eqn:E; [|done]. intros [= <-].
  unfold VerifyPolicyBlob, VerifyPolicyBytes in E. cbn [blob_bytes blob_generation] in *.
  rewrite !andb_true_iff, negb_true_iff, Z.eqb_neq in E. destruct E as (Hnz & _ & Hv).
  destruct (DecodePolicy encoded) as [[decoded g]| |] eqn:Edec; [|done|done].
  rewrite andb_true_iff, !Z.eqb_eq in Hv. destruct Hv as [-> Hg].
  exists canonical, {| blob_bytes := encoded; blob_generation := ComputeContentGeneration (ToPolicyDocument canonical) |}, decoded.
  split_and!; try done.
  - unfold AdmitPolicy. by destruct (SelectMountBackend _ _ _).
  - cbn. rewrite existsb_exists. by setoid_rewrite list_elem_of_In.
  - cbn. destruct (canonical_apps canonical); naive_solver.
Qed.

(** C38. The search for a cycle of redirects always answers, and it finds one exactly when
    following redirects from some source comes back to it. *)
Theorem redirect_cycle_exact rules :
  exists r, redirect_cycle rules = Some r /\ (r <> None <-> has_cycle rules).
Proof.
  pose proof (redirect_cycle_ends rules) as H. destruct (redirect_cycle rules) as [[i|]|]; [| |done].
  - exists (Some i). split; [done|]. by split.
  - exists None. split; [done|]. by split.
Qed.

(** The products and sums of the expanded rule count are compared without overflow: the
    document is accepted exactly when the mathematical total of its enabled apps is within the
    limit. *)
Theorem expanded_limit_exact limits origins document d :
  0 <= max_expanded_rules limits ->
  (ValidateExpandedRuleLimit limits origins document d).1 = true
  <-> total_expansion (rules_apps document) <= max_expanded_rules limits.
Proof.
  intros Hm. pose proof (expand_rules_spec limits (rules_apps document) 0 ltac:(lia)) as H.
  rewrite Z.add_0_l in H. rewrite <- H. unfold ValidateExpandedRuleLimit.
  by destruct (expand_rules limits (rules_apps document) 0).
Qed.

(** A rule path is accepted exactly when it is within the limits and spells a nonempty
    list of components, none of them empty, "." or "..", free of control bytes, with an
    optional slash at the end; the offsets are where the components begin. *)
Theorem normalize_rule_path_spec limits input p :
  NormalizeRulePath limits input = Some p
  <-> input <> [] /\ size input <= max_path_bytes limits /\ path_bytes p = input
      /\ exists components, spells input components /\ Forall good_component components
         /\ size components <= max_path_components limits
         /\ Forall (fun o => o < 2 ^ 16) (component_starts 0 components)
         /\ component_offsets p = component_starts 0 components.
Proof.
  pose proof (fun out => normalize_components_spec limits (length input) input 0 [] out ltac:(lia) ltac:(lia)) as Hspec.
  unfold NormalizeRulePath. destruct (_ || bool_decide (head input = Some x2f)) eqn:E.
  - split; [done|]. intros (Hne & Hmax & _ & cs & Hs & Hg & _). exfalso.
    rewrite !orb_true_iff, !bool_decide_eq_true, Z.ltb_lt in E. destruct E as [[?|?]|E]; [done|lia|].
    destruct cs as [|c cs]; [destruct Hs as [Hs|[? _]]; done|]. apply Forall_cons in Hg as [(Hc & _ & _ & _ & Hsl) _].
    destruct c as [|b c]; [done|]. assert (head input = Some b) as Eb
      by (destruct Hs as [->|[_ ->]]; destruct cs; done).
    rewrite Eb in E. injection E as ->. apply Hsl. by left.
  - rewrite !orb_false_iff, !bool_decide_eq_false, Z.ltb_ge in E. destruct E as [[Hne Hmax] _].
    destruct (normalize_components _ _ _ _ _) as [offsets|]; cbn [mbind option_bind].
    + split.
      * intros [= <-]. cbn. split_and!; [done|done|done|].
        destruct (proj1 (Hspec offsets) eq_refl) as (cs & Hs & Hg & Hlim & Hsmall & E). exists cs. split_and!; try done.
        apply Hlim. intros ->. destruct Hs as [?|[? _]]; done.
      * intros (_ & _ & Ep & cs & Hs & Hg & Hlim & Hsmall & Eo). destruct p as [pb po]. cbn in Ep, Eo. subst.
        f_equal. f_equal.
        assert (Some offsets = Some (component_starts 0 cs)) as [= ->]; [|done].
        apply Hspec. by exists cs.
    + split; [done|]. intros (_ & _ & _ & cs & Hs & Hg & Hlim & Hsmall & Eo).
      assert (None = Some (component_starts 0 cs)) as ?; [|done]. apply Hspec. by exists cs.
Qed.

(** ** Examples *)

Definition example_app (name : bytes) (deny : list bytes) (redirects : list (bytes * bytes)) : AppRules :=
  {| rules_package := name; rules_enabled := true; rules_users := [0]; rules_processes := [];
     rules_file_picker := false;
     rules_deny := imap (fun i p => {| deny_id := Z.of_nat i + 1; deny_path := p |}) deny;
     rules_redirects := imap (fun i '(s, t) =>
       {| redirect_id := Z.of_nat i + 1000; redirect_source := s; redirect_target := t |}) redirects |}.

Definition example_document (apps : list AppRules) : option RulesDocument :=
  Some {| rules_allow_legacy_mount := false; rules_apps := apps |}.

Definition example_ok_document : option RulesDocument :=
  example_document
    [example_app (lit "a") [lit "Download/x"; lit "Download"] [(lit "DCIM", lit "Pictures/dcim")]].

Definition example_snapshot : DeviceSnapshot :=
  {| snapshot_mount := {| primitives := 0; strict_actions := 0; legacy_actions := 0 |};
     provider_supported := true; topology_supported := true;
     capability_generation := 1; topology_generation := 1 |}.

Lemma compile_ok_enforces_witness :
  exists doc canonical apps, example_ok_document = Some doc
    /\ build_canonical (CompileRules default_limits example_ok_document ∅ []) = Some canonical
    /\ canonical_apps canonical ≡ₚ apps
    /\ Forall2 app_enforced (filter (fun a => rules_enabled a = true) (rules_apps doc)) apps.
Proof.
  apply (compile_ok_enforces default_limits example_ok_document ∅ []); vm_compute; reflexivity.
Defined.

Lemma compile_ok_verified_witness :
  exists canonical blob,
    build_canonical (CompileRules default_limits example_ok_document ∅ []) = Some canonical
    /\ build_blob (CompileRules default_limits example_ok_document ∅ []) = Some blob
    /\ blob_generation blob <> 0.
Proof.
  destruct (compile_ok_verified default_limits example_ok_document ∅ [] example_snapshot)
    as (canonical & blob & _ & Hc & Hb & _ & _ & _ & Hnz & _); [vm_compute; reflexivity|].
  exact (ex_intro _ canonical (ex_intro _ blob (conj Hc (conj Hb Hnz)))).
Defined.

Lemma expanded_limit_exact_witness :
  0 <= max_expanded_rules default_limits
  /\ (ValidateExpandedRuleLimit default_limits ∅
        {| rules_allow_legacy_mount := false; rules_apps := [example_app (lit "a") [lit "a"] []] |} []).1 = true.
Proof.
  split; [discriminate|].
  apply (proj2 (expanded_limit_exact default_limits ∅
    {| rules_allow_legacy_mount := false; rules_apps := [example_app (lit "a") [lit "a"] []] |} [] ltac:(discriminate))).
  discriminate.
Defined.

(** ** What the checks let through *)

(** Only neighbours in the sorted list are compared: a sibling whose name sorts between a
    directory and what is below it hides the conflict. *)
Lemma sibling_hides_deny_conflict :
  let redirects := [(lit "a/c", lit "z")] in
  ok (CompileRules default_limits (example_document [example_app (lit "a") [lit "a"] redirects]) ∅ []) = false
  /\ ok (CompileRules default_limits (example_document [example_app (lit "a") [lit "a"; lit "a-b"] redirects]) ∅ []) = true.
Proof. split; vm_compute; reflexivity. Qed.

Lemma sibling_hides_redirect_conflict :
  ok (CompileRules default_limits
        (example_document [example_app (lit "a") [] [(lit "a", lit "x"); (lit "a/c", lit "y")]]) ∅ []) = false
  /\ ok (CompileRules default_limits
        (example_document [example_app (lit "a") [] [(lit "a", lit "x"); (lit "a-b", lit "w"); (lit "a/c", lit "y")]]) ∅ [])
     = true.
Proof. split; vm_compute; reflexivity. Qed.

(** What is an error in docs/04, 10.6 and passes: a denied path that is the target of a redirect, one
    below the source of a redirect, a target that is another source, targets one below the other. *)
Lemma conflicts_let_through :
  let passes deny redirects :=
    ok (CompileRules default_limits (example_document [example_app (lit "a") deny redirects]) ∅ []) in
  passes [lit "b"] [(lit "a", lit "b")] = true /\ passes [lit "a/c"] [(lit "a", lit "b")] = true
  /\ passes [] [(lit "a", lit "b"); (lit "b", lit "c")] = true
  /\ passes [] [(lit "a", lit "x"); (lit "b", lit "x/y")] = true.
Proof. split_and!; vm_compute; reflexivity. Qed.

(** Once the list of diagnostics is full, errors are dropped like warnings and the
    compilation succeeds; [compile_ok_enforces] therefore asks for room. *)
Lemma full_diagnostics_hide_cycle :
  let cycle := [(lit "a", lit "b"); (lit "b", lit "a")] in
  ok (CompileRules default_limits (example_document [example_app (lit "b") [] cycle]) ∅ []) = false
  /\ ok (CompileRules default_limits
        (example_document [example_app (lit "a") [] (replicate 65 (lit "0", lit "1"));
                           example_app (lit "b") [] cycle]) ∅ []) = true.
Proof. split; vm_compute; reflexivity. Qed.
