(* ===== verification/Compiler.v ===== *)
(** * From a rules file to a rules document

    rules/src/compiler.cpp: the decoding of the tree the TOML parser gives, with the arrow
    rules bound back to the inline tables they were rewritten to. The tree of toml++ is the
    inductive type below; the parser, and the conversions of a value to a C++ type, are
    arguments, for the library is not part of the repository. A pointer to a table is the
    path of keys and indices that leads to it: a table of the library has one node per key.
    The timings of [CompileStatistics] are not represented. *)

From S2P Require Import Prelude Source Scanner Desugar Semantic.

Local Open Scope pg_scope.

(** ** What the TOML library gives *)

Record source_position : Type := { toml_line : Z; toml_column : Z }.

Record source_region : Type := { region_begin : source_position; region_end : source_position }.

Record toml_key : Type := { key_str : bytes; key_source : source_region }.

Inductive toml_node (value : Type) : Type :=
  | Table (source : source_region) (is_inline : bool) (entries : list (toml_key * toml_node value))
  | Array (source : source_region) (elements : list (toml_node value))
  | Leaf (source : source_region) (v : value).

Arguments Table {value}.
Arguments Array {value}.
Arguments Leaf {value}.

(** The conversions [node::value<T>()] of a value that is not a table or an array. *)
Class TomlValue (value : Type) : Type := {
  value_int64 : value -> option Z;
  value_bool : value -> option bool;
  value_string : value -> option bytes;
}.

Section Toml.
Context {value : Type}.

Definition node_source (n : toml_node value) : source_region :=
  match n with
  | Table source _ _ => source
  | Array source _ => source
  | Leaf source _ => source
  end.

Definition as_table (n : toml_node value) : option (list (toml_key * toml_node value)) :=
  match n with
  | Table _ _ entries => Some entries
  | _ => None
  end.

Definition as_array (n : toml_node value) : option (list (toml_node value)) :=
  match n with
  | Array _ elements => Some elements
  | _ => None
  end.

Fixpoint table_get (entries : list (toml_key * toml_node value)) (key : bytes) : option (toml_node value) :=
  match entries with
  | [] => None
  | (k, n) :: rest => if key_str k == key then Some n else table_get rest key
  end.

Context `{TomlValue value}.

Definition node_int64 (n : toml_node value) : option Z :=
  match n with Leaf _ v => value_int64 v | _ => None end.

Definition node_bool (n : toml_node value) : option bool :=
  match n with Leaf _ v => value_bool v | _ => None end.

Definition node_string (n : toml_node value) : option bytes :=
  match n with Leaf _ v => value_string v | _ => None end.
End Toml.

(** ** [GeneratedPositionIndex] *)

Definition Utf8Width (b : byte) : nat :=
  let v := byte_val b in
  if Z.land v 128 =? 0 then 1%nat
  else if Z.land v 224 =? 192 then 2%nat
  else if Z.land v 240 =? 224 then 3%nat
  else if Z.land v 248 =? 240 then 4%nat
  else 1%nat.

(** The loop of [ToByte]; the offset moves at every step. *)
Fixpoint seek_column (fuel : nat) (source : bytes) (target : Z) (offset : nat) (column : Z) : nat :=
  match fuel with
  | O => offset
  | S fuel =>
      match source !! offset with
      | None => offset
      | Some b =>
          if negb (column <? target) || (b == x0a) then offset
          else if b == x0d then seek_column fuel source target (S offset) column
          else seek_column fuel source target
                 (offset + Nat.min (Utf8Width b) (length source - offset)) (column + 1)
      end
  end.

Definition ToByte (source : bytes) (position : source_position) : Z :=
  let starts := line_starts source in
  if (toml_line position =? 0) || (size starts <? toml_line position) then u32 (size source)
  else
    let offset := nth (Z.to_nat (toml_line position - 1)) starts 0%nat in
    u32 (Z.of_nat (seek_column (S (length source)) source (toml_column position) offset 1)).

Definition Region (source : bytes) (region : source_region) : ByteSpan :=
  {| span_begin := ToByte source (region_begin region); span_end := ToByte source (region_end region) |}.

(** ** Names *)

Definition is_alpha (b : byte) : bool :=
  let v := byte_val b in ((65 <=? v) && (v <=? 90)) || ((97 <=? v) && (v <=? 122)).

Definition is_alnum (b : byte) : bool := is_alpha b || is_digit b.

(** The loop of [IsPackageName] over what follows [begin]. *)
Fixpoint package_components (fuel : nat) (rest : bytes) (components : Z) : bool :=
  match fuel, rest with
  | S fuel, _ :: _ =>
      let '(component, more) := cut x2e rest in
      match component with
      | [] => false
      | first :: tail =>
          if negb (is_alpha first) then false
          else if negb (forallb (fun b => is_alnum b || (b == x5f)) tail) then false
          else match more with
               | None => 2 <=? components + 1
               | Some more => package_components fuel more (components + 1)
               end
      end
  | _, _ => 2 <=? components
  end.

Definition IsPackageName (value : bytes) : bool := package_components (length value) value 0.

Definition IsProcessName (package process : bytes) : bool :=
  if process == package then true
  else if negb (starts_with package process) || (size process <=? size package + 1)
          || (process !! length package != Some x3a) then false
  else forallb (fun b => is_alnum b || (b == x5f) || (b == x2e)) (drop (S (length package)) process).

Definition IsRedirectScope (path : list bytes) : bool :=
  match path with
  | [a; package; r; _] => (a == lit "apps") && (package != []) && (r == lit "redirect")
  | _ => false
  end.

(** ** The decoder *)

Record InlineNode : Type := {
  node_path : list bytes;
  node_generated : ByteSpan;
  node_origin : option GeneratedRedirect;
}.

Section Collect.
Context {value : Type} (region : source_region -> ByteSpan).

Fixpoint CollectInlineNodes (path : list bytes) (node : toml_node value) : list InlineNode :=
  match node with
  | Table source inline entries =>
      (if inline
       then [{| node_path := path; node_generated := region source; node_origin := None |}]
       else [])
      ++ (fix each entries :=
            match entries with
            | [] => []
            | (key, child) :: rest => CollectInlineNodes (path ++ [key_str key]) child ++ each rest
            end) entries
  | Array _ elements =>
      (fix each index elements :=
         match elements with
         | [] => []
         | child :: rest => CollectInlineNodes (path ++ [to_string index]) child ++ each (index + 1) rest
         end) 0 elements
  | Leaf _ _ => []
  end.
End Collect.

(** [result_.diagnostics], [result_.origins] and [next_rule_id_]. *)
Record DecoderState : Type := {
  d_diagnostics : list Diagnostic;
  d_origins : OriginMap;
  next_rule_id : Z;
}.

Definition decoder (A : Type) : Type := DecoderState -> A * DecoderState.

#[export] Instance decoder_ret : MRet decoder := fun A a st => (a, st).
#[export] Instance decoder_bind : MBind decoder := fun A B k m st => let '(a, st) := m st in k a st.

Section Decoder.
Context (limits : RulesLimits).

Definition Add (c key : bytes) (span : ByteSpan) (p : DiagnosticPhase) (field : bytes) : decoder unit :=
  fun st =>
    let d o c key := {| code := c; message_key := key; primary := span; omitted := o;
                        severity := kError; phase := p; related := [];
                        field_path := if o : bool then [] else field; arguments := [] |} in
    let ds := d_diagnostics st in
    let ds :=
      if size ds <? Z.max (max_diagnostics limits) 1 then ds ++ [d false c key]
      else match reverse ds with
           | l :: earlier =>
               if Source.omitted l then ds
               else reverse earlier ++ [d true kDiagnosticsOmitted (lit "rules.diagnostics_omitted")]
           | [] => ds
           end in
    (tt, {| d_diagnostics := ds; d_origins := d_origins st; next_rule_id := next_rule_id st |}).

(** An error is reported and the field is not valid. *)
Definition invalid (c key : bytes) (span : ByteSpan) (p : DiagnosticPhase) (field : bytes) : decoder bool :=
  Add c key span p field ;; mret false.

Definition add_origin (id : Z) (origin : RuleOrigin) : decoder bool :=
  fun st =>
    let '(added, origins) := AddOrigin id origin (d_origins st) in
    (added, {| d_diagnostics := d_diagnostics st; d_origins := origins; next_rule_id := next_rule_id st |}).

(** [next_rule_id_++] *)
Definition fresh_rule_id : decoder Z :=
  fun st => (next_rule_id st, {| d_diagnostics := d_diagnostics st; d_origins := d_origins st;
                                 next_rule_id := u32 (next_rule_id st + 1) |}).

(** *** [BindGenerated] *)

Definition span_identity (s : ByteSpan) : Z := Z.lor (Z.shiftl (span_begin s) 32) (span_end s).

(** The loop that indexes the inline tables by where they are. *)
Fixpoint index_nodes (index : nat) (nodes : list InlineNode) (by_span : gmap Z nat)
    : option (gmap Z nat) :=
  match nodes with
  | [] => Some by_span
  | node :: rest =>
      match by_span !! span_identity (node_generated node) with
      | Some _ => None
      | None => index_nodes (S index) rest (<[span_identity (node_generated node) := index]> by_span)
      end
  end.

Definition set_origin (redirect : GeneratedRedirect) (node : InlineNode) : InlineNode :=
  {| node_path := node_path node; node_generated := node_generated node; node_origin := Some redirect |}.

(** The loop over the generated redirects: the nodes with their origins and [bound_]. *)
Fixpoint bind_redirects (by_span : gmap Z nat) (redirects : list GeneratedRedirect) (spans : gset Z)
    (nodes : list InlineNode) (bound : gmap (list bytes) GeneratedRedirect)
    : decoder (option (list InlineNode * gmap (list bytes) GeneratedRedirect)) :=
  match redirects with
  | [] => mret (Some (nodes, bound))
  | redirect :: rest =>
      let identity := span_identity (generated_table redirect) in
      let fail key :=
        Add kDesugarInternal key (original_rule redirect) kInternal [] ;; mret None in
      if bool_decide (identity ∈ spans) then fail (lit "rules.generated_duplicate")
      else
        match (index ← by_span !! identity; node ← nodes !! index; Some (index, node)) with
        | None => fail (lit "rules.generated_unmatched")
        | Some (index, node) =>
            match node_origin node with
            | Some _ => fail (lit "rules.generated_unmatched")
            | None =>
                bind_redirects by_span rest ({[identity]} ∪ spans)
                  (<[index := set_origin redirect node]> nodes) (<[node_path node := redirect]> bound)
            end
        end
  end.

Fixpoint check_scopes (nodes : list InlineNode) (scope_error : bool) : decoder bool :=
  match nodes with
  | [] => mret scope_error
  | node :: rest =>
      match node_origin node with
      | Some redirect =>
          if IsRedirectScope (node_path node) then check_scopes rest scope_error
          else
            Add kRuleArrowScope (lit "rules.arrow_scope") (original_rule redirect) kDecode
              (lit "/apps/<package>/redirect") ;;
            check_scopes rest true
      | None => check_scopes rest scope_error
      end
  end.

Definition BindGenerated (inline_nodes : list InlineNode) (redirects : list GeneratedRedirect)
    : decoder (option (gmap (list bytes) GeneratedRedirect)) :=
  match index_nodes 0 inline_nodes ∅ with
  | None =>
      Add kDesugarInternal (lit "rules.generated_duplicate") no_span kInternal [] ;; mret None
  | Some by_span =>
      bound ← bind_redirects by_span redirects ∅ inline_nodes ∅;
      match bound with
      | None => mret None
      | Some (nodes, bound) =>
          scope_error ← check_scopes nodes false;
          mret (if scope_error : bool then None else Some bound)
      end
  end.

(** *** Fields *)

Section Fields.
Context {value : Type} `{TomlValue value}.
Context (original : source_region -> ByteSpan) (bound : gmap (list bytes) GeneratedRedirect).

Abbreviation node := (toml_node value).
Abbreviation table := (list (toml_key * node)).

Fixpoint CheckFields (entries : table) (allowed : list bytes) (path : bytes) : decoder bool :=
  match entries with
  | [] => mret true
  | (key, _) :: rest =>
      valid ← (if bool_decide (key_str key ∈ allowed) then mret true
               else invalid kUnknownField (lit "rules.unknown_field") (original (key_source key)) kDecode
                      (path ++ lit "/" ++ key_str key));
      others ← CheckFields rest allowed path;
      mret (valid && others)
  end.

(** The value of a boolean field, and whether it is valid. *)
Definition DecodeBool (entries : table) (key path : bytes) (output : bool) : decoder (bool * bool) :=
  match table_get entries key with
  | None => mret (output, true)
  | Some node =>
      match node_bool node with
      | Some v => mret (v, true)
      | None =>
          valid ← invalid kTypeMismatch (lit "rules.boolean_required") (original (node_source node)) kDecode path;
          mret (output, valid)
      end
  end.

Definition DecodeCompatibility (entries : table) : decoder (bool * bool) :=
  valid ← CheckFields entries [lit "allow_legacy_mount"] (lit "/compatibility");
  '(legacy, v) ← DecodeBool entries (lit "allow_legacy_mount")
                   (lit "/compatibility/allow_legacy_mount") false;
  mret (legacy, v && valid).

Fixpoint decode_users (nodes : list node) (path : bytes) (unique : gset Z) (output : list Z) (valid : bool)
    : decoder (list Z * bool) :=
  match nodes with
  | [] => mret (output, valid)
  | n :: rest =>
      let bad c key :=
        Add c key (original (node_source n)) kDecode path ;; decode_users rest path unique output false in
      match node_int64 n with
      | None => bad kTypeMismatch (lit "rules.integer_required")
      | Some v =>
          if (v <? 0) || (99999 <? v) || bool_decide (v ∈ unique)
          then bad kInvalidValue (lit "rules.user_invalid")
          else decode_users rest path ({[v]} ∪ unique) (output ++ [v]) valid
      end
  end.

Definition DecodeUsers (n : node) (path : bytes) (users : list Z) : decoder (list Z * bool) :=
  match as_array n with
  | None =>
      valid ← invalid kTypeMismatch (lit "rules.integer_array_required") (original (node_source n)) kDecode path;
      mret (users, valid)
  | Some elements =>
      '(output, valid) ← decode_users elements path ∅ [] true;
      if bool_decide (output = []) then
        valid ← invalid kInvalidValue (lit "rules.users_empty") (original (node_source n)) kDecode path;
        mret (output, valid)
      else mret (output, valid)
  end.

Fixpoint decode_processes (nodes : list node) (package path : bytes) (unique : gset bytes)
    (output : list bytes) (valid : bool) : decoder (list bytes * bool) :=
  match nodes with
  | [] => mret (output, valid)
  | n :: rest =>
      let bad c key :=
        Add c key (original (node_source n)) kDecode path ;;
        decode_processes rest package path unique output false in
      match node_string n with
      | None => bad kTypeMismatch (lit "rules.string_required")
      | Some v =>
          if negb (IsProcessName package v) || bool_decide (v ∈ unique)
          then bad kInvalidValue (lit "rules.process_invalid")
          else decode_processes rest package path ({[v]} ∪ unique) (output ++ [v]) valid
      end
  end.

Definition DecodeProcesses (n : node) (package path : bytes) : decoder (list bytes * bool) :=
  match as_array n with
  | None =>
      valid ← invalid kTypeMismatch (lit "rules.string_array_required") (original (node_source n)) kDecode path;
      mret ([], valid)
  | Some elements => decode_processes elements package path ∅ [] true
  end.

Fixpoint decode_deny (nodes : list node) (path : bytes) (output : list DenyRule) (valid : bool)
    : decoder (list DenyRule * bool) :=
  match nodes with
  | [] => mret (output, valid)
  | n :: rest =>
      match node_string n with
      | None =>
          Add kTypeMismatch (lit "rules.string_required") (original (node_source n)) kDecode path ;;
          decode_deny rest path output false
      | Some v =>
          let span := original (node_source n) in
          id ← fresh_rule_id;
          added ← add_origin id {| origin_primary := span; origin_source := no_span; origin_arrow := no_span;
                                   origin_target := no_span; has_redirect_operands := false |};
          valid ← (if added : bool then mret valid
                   else invalid kDesugarInternal (lit "rules.origin_duplicate") span kInternal path);
          decode_deny rest path (output ++ [{| deny_id := id; deny_path := v |}]) valid
      end
  end.

Definition DecodeDeny (n : node) (path : bytes) : decoder (list DenyRule * bool) :=
  match as_array n with
  | None =>
      valid ← invalid kTypeMismatch (lit "rules.string_array_required") (original (node_source n)) kDecode path;
      mret ([], valid)
  | Some elements => decode_deny elements path [] true
  end.

Definition origin_of (generated : GeneratedRedirect) : RuleOrigin :=
  {| origin_primary := original_rule generated; origin_source := original_source generated;
     origin_arrow := original_arrow generated; origin_target := original_target generated;
     has_redirect_operands := true |}.

(** [where] is the path of the array: the table at [index] is looked up in [bound_]. *)
Fixpoint decode_redirects (nodes : list node) (where_ : list bytes) (index : Z) (path : bytes)
    (output : list RedirectRule) (valid : bool) : decoder (list RedirectRule * bool) :=
  match nodes with
  | [] => mret (output, valid)
  | n :: rest =>
      match (entries ← as_table n; generated ← bound !! (where_ ++ [to_string index]); Some (entries, generated)) with
      | None =>
          Add kRedirectSyntax (lit "rules.redirect_arrow_required") (original (node_source n)) kDecode path ;;
          decode_redirects rest where_ (index + 1) path output false
      | Some (entries, generated) =>
          let source_value := from ← table_get entries (lit "from"); node_string from in
          let target_value := to ← table_get entries (lit "to"); node_string to in
          match bool_decide (length entries = 2%nat), source_value, target_value with
          | true, Some from, Some to =>
              added ← add_origin (Desugar.redirect_id generated) (origin_of generated);
              valid ← (if added : bool then mret valid
                       else invalid kDesugarInternal (lit "rules.origin_duplicate") (original_rule generated)
                              kInternal path);
              decode_redirects rest where_ (index + 1) path
                (output ++ [{| Semantic.redirect_id := Desugar.redirect_id generated;
                               redirect_source := from; redirect_target := to |}]) valid
          | _, _, _ =>
              Add kDesugarInternal (lit "rules.generated_shape_invalid") (original_rule generated) kInternal path ;;
              decode_redirects rest where_ (index + 1) path output false
          end
      end
  end.

Definition DecodeRedirect (n : node) (where_ : list bytes) (path : bytes) : decoder (list RedirectRule * bool) :=
  match as_array n with
  | None =>
      valid ← invalid kRedirectSyntax (lit "rules.redirect_array_required") (original (node_source n)) kDecode path;
      mret ([], valid)
  | Some elements => decode_redirects elements where_ 0 path [] true
  end.

(** A field that may be absent. *)
Definition optional {A} (entries : table) (key : bytes) (absent : A) (decode : node -> decoder (A * bool))
    : decoder (A * bool) :=
  match table_get entries key with
  | Some n => decode n
  | None => mret (absent, true)
  end.

Definition DecodeApp (package : bytes) (source : source_region) (entries : table) : decoder (AppRules * bool) :=
  let base := lit "/apps/" ++ package in
  v1 ← CheckFields entries
         [lit "enabled"; lit "users"; lit "processes"; lit "file_picker"; lit "deny"; lit "redirect"] base;
  '(enabled, v2) ← DecodeBool entries (lit "enabled") (base ++ lit "/enabled") true;
  '(file_picker, v3) ← DecodeBool entries (lit "file_picker") (base ++ lit "/file_picker") false;
  '(users, v4) ← optional entries (lit "users") [0] (fun n => DecodeUsers n (base ++ lit "/users") [0]);
  '(processes, v5) ← optional entries (lit "processes") []
                       (fun n => DecodeProcesses n package (base ++ lit "/processes"));
  '(deny, v6) ← optional entries (lit "deny") [] (fun n => DecodeDeny n (base ++ lit "/deny"));
  '(redirects, v7) ← optional entries (lit "redirect") []
      (fun n => DecodeRedirect n [lit "apps"; package; lit "redirect"] (base ++ lit "/redirect"));
  v8 ← (if max_rules_per_app limits <? size deny + size redirects
        then invalid kResourceLimit (lit "rules.app_rule_limit") (original source) kDecode base
        else mret true);
  mret ({| rules_package := package; rules_enabled := enabled; rules_users := users;
           rules_processes := processes; rules_file_picker := file_picker; rules_deny := deny;
           rules_redirects := redirects |},
        v1 && v2 && v3 && v4 && v5 && v6 && v7 && v8).

(** The loop over the packages. *)
Fixpoint decode_apps (entries : table) (apps : list AppRules) (valid : bool) : decoder (list AppRules * bool) :=
  match entries with
  | [] => mret (apps, valid)
  | (key, n) :: rest =>
      let package := key_str key in
      if negb (IsPackageName package) then
        Add kInvalidValue (lit "rules.package_invalid") (original (key_source key)) kDecode
          (lit "/apps/" ++ package) ;;
        decode_apps rest apps false
      else
        match as_table n with
        | None =>
            Add kTypeMismatch (lit "rules.app_type") (original (node_source n)) kDecode
              (lit "/apps/" ++ package) ;;
            decode_apps rest apps false
        | Some fields =>
            '(app, v) ← DecodeApp package (node_source n) fields;
            decode_apps rest (apps ++ [app]) (v && valid)
        end
  end.

(** [DecodeRoot]: the document, and [false] where the code returns it. *)
Definition DecodeRoot (root : table) : decoder (RulesDocument * bool) :=
  valid ← CheckFields root [lit "format"; lit "compatibility"; lit "apps"] [];
  v_format ←
    (let format := table_get root (lit "format") in
     if bool_decide ((n ← format; node_int64 n) = Some 1) then mret true
     else invalid kTypeMismatch (lit "rules.format_type")
            (match format with Some n => original (node_source n) | None => no_span end)
            kDecode (lit "/format"));
  '(legacy, v_compatibility) ←
    optional root (lit "compatibility") false (fun n =>
      match as_table n with
      | None =>
          v ← invalid kTypeMismatch (lit "rules.compatibility_type") (original (node_source n)) kDecode
                (lit "/compatibility");
          mret (false, v)
      | Some entries => DecodeCompatibility entries
      end);
  let valid := valid && v_format && v_compatibility in
  let document apps := {| rules_allow_legacy_mount := legacy; rules_apps := apps |} in
  let apps_node := table_get root (lit "apps") in
  let span := match apps_node with Some n => original (node_source n) | None => no_span end in
  match (n ← apps_node; as_table n) with
  | None | Some [] =>
      v ← invalid kTypeMismatch (lit "rules.apps_required") span kDecode (lit "/apps");
      mret (document [], v)
  | Some apps =>
      if max_apps limits <? size apps then
        v ← invalid kResourceLimit (lit "rules.apps_limit") span kDecode (lit "/apps");
        mret (document [], v)
      else
        '(apps, valid) ← decode_apps apps [] valid;
        mret (document apps, valid)
  end.
End Fields.
End Decoder.

(** ** [Decoder::Run], [ParseRulesDocument], [CompileRules] *)

Record RulesCompileResult : Type := {
  parsed_document : option RulesDocument;
  parsed_origins : OriginMap;
  parsed_diagnostics : list Diagnostic;
}.

Definition compile_failed (diagnostics : list Diagnostic) : RulesCompileResult :=
  {| parsed_document := None; parsed_origins := ∅; parsed_diagnostics := diagnostics |}.

Section Compile.
Context {value : Type} `{TomlValue value} (limits : RulesLimits).

(** [toml::parse]: the root table, or where the error is. *)
Context (parse : bytes -> source_region + toml_node value).

Definition root_entries (root : toml_node value) : list (toml_key * toml_node value) :=
  match as_table root with Some entries => entries | None => [] end.

Definition DecodeDesugaredRules (source : SourceBuffer) (d : DesugarResult) : RulesCompileResult :=
  if bool_decide (desugar_diagnostics d <> []) then compile_failed (desugar_diagnostics d)
  else
    let text := parser_input source d in
    let original region :=
      match MapGeneratedSpan (rewrite_map d) (Region text region) with Some s => s | None => no_span end in
    let start := {| d_diagnostics := []; d_origins := ∅; next_rule_id := 1 |} in
    match parse text with
    | inl region =>
        compile_failed (d_diagnostics
          (Add limits kTomlParse (lit "rules.toml_parse") (original region) kParse [] start).2)
    | inr root =>
        let '(bound, st) :=
          BindGenerated limits (CollectInlineNodes (Region text) [] root) (redirects d) start in
        match bound with
        | None => {| parsed_document := None; parsed_origins := d_origins st;
                     parsed_diagnostics := d_diagnostics st |}
        | Some bound =>
            let next := fold_left (fun next g => Z.max next (u32 (Desugar.redirect_id g + 1))) (redirects d)
                          (next_rule_id st) in
            let '((document, decoded), st) :=
              DecodeRoot limits original bound (root_entries root)
                {| d_diagnostics := d_diagnostics st; d_origins := d_origins st; next_rule_id := next |} in
            if negb decoded || bool_decide (d_diagnostics st <> []) then compile_failed (d_diagnostics st)
            else {| parsed_document := Some document; parsed_origins := d_origins st;
                    parsed_diagnostics := d_diagnostics st |}
        end
    end.

Definition ParseRulesDocument (source : SourceBuffer) : RulesCompileResult :=
  match ProbeRulesFormat source with
  | Err d => compile_failed [d]
  | Oob => compile_failed []
  | Ok _ =>
      let lexical := ScanArrowCandidates source limits in
      if negb (parser_allowed lexical) then compile_failed (diagnostics lexical)
      else
        let desugared := EmitDesugaredSource source (rewrites_of 0 (candidates lexical)) limits in
        if bool_decide (desugar_diagnostics desugared <> []) then compile_failed (desugar_diagnostics desugared)
        else DecodeDesugaredRules source desugared
  end.

(** [CompileRules] of a source. *)
Definition CompileRulesSource (source : SourceBuffer) : RulesBuildResult :=
  let parsed := ParseRulesDocument source in
  CompileRules limits (parsed_document parsed) (parsed_origins parsed) (parsed_diagnostics parsed).
End Compile.

(** ** Reference notions *)

(** The keys of every table of a tree are distinct, as in any tree of the library. *)
Fixpoint keys_distinct {value} (n : toml_node value) : Prop :=
  match n with
  | Table _ _ entries =>
      NoDup ((key_str ∘ fst) <$> entries)
      /\ (fix each entries :=
            match entries with
            | [] => True
            | (_, child) :: rest => keys_distinct child /\ each rest
            end) entries
  | Array _ elements =>
      (fix each elements :=
         match elements with
         | [] => True
         | child :: rest => keys_distinct child /\ each rest
         end) elements
  | Leaf _ _ => True
  end.

(** The ids of the rules of an app, of a document. *)
Definition app_rule_ids (app : AppRules) : list Z :=
  (deny_id <$> rules_deny app) ++ (Semantic.redirect_id <$> rules_redirects app).

(** What a package name is to the code: at least two components, and possibly a dot after the last. *)
Definition package_component (c : bytes) : Prop :=
  exists first tail, c = first :: tail /\ is_alpha first = true
    /\ Forall (fun b => is_alnum b = true \/ b = x5f) tail.

Definition package_shape (name : bytes) : Prop :=
  exists components, (split_on x2e name = components \/ split_on x2e name = components ++ [[]])
    /\ (2 <= length components)%nat /\ Forall package_component components.

(** An app as the decoder may accept it. *)
Record app_wellformed (limits : RulesLimits) (app : AppRules) : Prop := {
  aw_package : package_shape (rules_package app);
  aw_users : rules_users app <> [] /\ NoDup (rules_users app)
             /\ Forall (fun u => 0 <= u <= 99999) (rules_users app);
  aw_processes : NoDup (rules_processes app)
                 /\ Forall (fun p => IsProcessName (rules_package app) p = true) (rules_processes app);
  aw_rules : size (rules_deny app) + size (rules_redirects app) <= max_rules_per_app limits;
}.

(** The loop of [IsPackageName] accepts the names of that shape. *)
Lemma split_on_cut c s :
  split_on c s = match cut c s with (p, None) => [p] | (p, Some r) => p :: split_on c r end.
Proof.
  pose proof (cut_spec c s) as H. destruct (cut c s) as [p [r|]]; destruct H as [-> Hp].
  - by apply split_on_app.
  - by apply split_on_single.
Qed.

Lemma package_components_shape fuel rest n :
  (length rest <= fuel)%nat -> package_components fuel rest n = true ->
  exists components, (split_on x2e rest = components \/ split_on x2e rest = components ++ [[]])
    /\ 2 <= n + size components /\ Forall package_component components.
Proof.
  revert rest n. induction fuel as [|fuel IH]; intros [|b rest] n Hfuel; cbn [package_components length] in *; try lia.
  1,2: intros E%Z.leb_le; exists []; split_and!; [by right|rewrite size_nil; lia|constructor].
  rewrite (split_on_cut x2e (b :: rest)). pose proof (cut_spec x2e (b :: rest)) as Hcut.
  destruct (cut x2e (b :: rest)) as [[|first tail] more]; [done|].
  destruct (is_alpha first) eqn:Ea; cbn [negb]; [|done].
  destruct (forallb _ tail) eqn:Et; cbn [negb]; [|done].
  assert (package_component (first :: tail)) as Hc.
  { exists first, tail. split_and!; [done|done|]. apply Forall_forall. intros x Hx.
    rewrite forallb_forall in Et. apply list_elem_of_In, Et, orb_true_iff in Hx as [?|?%bool_decide_eq_true]; auto. }
  destruct more as [more|].
  - destruct Hcut as [Er _]. intros E. apply (f_equal length) in Er. rewrite length_app in Er. cbn in Er.
    destruct (IH more (n + 1) ltac:(lia) E) as (components & Hs & Hn & Hall).
    exists ((first :: tail) :: components). split_and!; [|rewrite size_cons; lia|by constructor].
    destruct Hs as [->| ->]; auto.
  - intros E%Z.leb_le. exists [first :: tail]. split_and!; [by left|change (size [first :: tail]) with 1; lia|by constructor].
Qed.

Lemma IsPackageName_shape name : IsPackageName name = true -> package_shape name.
Proof.
  intros (components & Hs & Hn & Hall)%package_components_shape; [|done]. exists components.
  split_and!; [done|unfold size in Hn; lia|done].
Qed.

(** *** The schema

    What a tree of the parser has to be for a document to be read from it, and which one it is. *)
Section Schema.
Context {value : Type} `{TomlValue value}.

Definition fields_among (entries : list (toml_key * toml_node value)) (allowed : list bytes) : Prop :=
  Forall (fun e => key_str e.1 ∈ allowed) entries.

Definition bool_field (entries : list (toml_key * toml_node value)) (key : bytes) (absent v : bool) : Prop :=
  match table_get entries key with
  | None => v = absent
  | Some n => node_bool n = Some v
  end.

Definition list_value {A} (field : option (toml_node value)) (get : toml_node value -> option A)
    (absent vs : list A) : Prop :=
  match field with
  | None => vs = absent
  | Some n => (elements ← as_array n; mapM get elements) = Some vs
  end.

Definition list_field {A} (entries : list (toml_key * toml_node value)) (key : bytes)
    (get : toml_node value -> option A) (absent vs : list A) : Prop :=
  list_value (table_get entries key) get absent vs.

(** The value of an element of a redirect array: [from] and [to], and nothing else. *)
Definition node_redirect (n : toml_node value) : option (bytes * bytes) :=
  entries ← as_table n;
  from ← (from ← table_get entries (lit "from"); node_string from);
  to ← (to ← table_get entries (lit "to"); node_string to);
  if bool_decide (length entries = 2%nat) then Some (from, to) else None.

Record app_schema (entry : toml_key * toml_node value) (app : AppRules) : Prop := {
  as_package : rules_package app = key_str entry.1;
  as_fields : exists fields, as_table entry.2 = Some fields
    /\ fields_among fields [lit "enabled"; lit "users"; lit "processes"; lit "file_picker"; lit "deny"; lit "redirect"]
    /\ bool_field fields (lit "enabled") true (rules_enabled app)
    /\ bool_field fields (lit "file_picker") false (rules_file_picker app)
    /\ list_field fields (lit "users") node_int64 [0] (rules_users app)
    /\ list_field fields (lit "processes") node_string [] (rules_processes app)
    /\ list_field fields (lit "deny") node_string [] (deny_path <$> rules_deny app)
    /\ list_field fields (lit "redirect") node_redirect []
         ((fun r => (redirect_source r, redirect_target r)) <$> rules_redirects app);
}.

Definition compatibility_schema (entries : list (toml_key * toml_node value)) (legacy : bool) : Prop :=
  match table_get entries (lit "compatibility") with
  | None => legacy = false
  | Some n => exists fields, as_table n = Some fields /\ fields_among fields [lit "allow_legacy_mount"]
      /\ bool_field fields (lit "allow_legacy_mount") false legacy
  end.

Record document_schema (entries : list (toml_key * toml_node value)) (doc : RulesDocument) : Prop := {
  ds_fields : fields_among entries [lit "format"; lit "compatibility"; lit "apps"];
  ds_format : (n ← table_get entries (lit "format"); node_int64 n) = Some 1;
  ds_compatibility : compatibility_schema entries (rules_allow_legacy_mount doc);
  ds_apps : exists node apps, table_get entries (lit "apps") = Some node /\ as_table node = Some apps
    /\ Forall2 app_schema apps (rules_apps doc);
}.
End Schema.

(** ** A logic for the decoder

    [clean m Q]: when [m] ends without a diagnostic there was none before, the origins it
    added are new, and [Q] holds of its result and of these origins. *)

Definition extends (before : OriginMap) (added : list (Z * RuleOrigin)) (after : OriginMap) : Prop :=
  after = list_to_map added ∪ before /\ NoDup added.*1 /\ Forall (fun o => before !! o.1 = None) added.

Definition clean {A} (m : decoder A) (Q : A -> list (Z * RuleOrigin) -> Prop) : Prop :=
  forall st a st', m st = (a, st') -> d_diagnostics st' = [] ->
    d_diagnostics st = [] /\ exists added, extends (d_origins st) added (d_origins st') /\ Q a added.

Lemma extends_nil o : extends o [] o.
Proof. split_and!; [cbn; by rewrite (left_id_L ∅ (∪))|constructor|constructor]. Qed.

Lemma extends_app o1 l1 o2 l2 o3 : extends o1 l1 o2 -> extends o2 l2 o3 -> extends o1 (l1 ++ l2) o3.
Proof.
  intros (-> & Hn1 & Hf1) (-> & Hn2 & Hf2).
  assert (forall id, id ∈ l1.*1 -> id ∉ l2.*1) as Hdisj.
  { intros id H1 (o & -> & Ho)%list_elem_of_fmap. rewrite Forall_forall in Hf2. specialize (Hf2 o Ho).
    apply lookup_union_None in Hf2 as [Hf2 _]. by apply not_elem_of_list_to_map in Hf2. }
  split_and!.
  - rewrite list_to_map_app, (assoc_L (∪)). f_equal. symmetry. apply map_union_comm.
    apply map_disjoint_list_to_map_l. apply Forall_forall. intros o Ho. apply not_elem_of_list_to_map.
    apply Hdisj. by apply list_elem_of_fmap_2.
  - rewrite fmap_app. apply NoDup_app. by split_and!.
  - apply Forall_app. split; [done|]. eapply Forall_impl; [exact Hf2|]. cbn. intros o E.
    by apply lookup_union_None in E as [_ E].
Qed.

Lemma clean_ret {A} (a : A) (Q : A -> list (Z * RuleOrigin) -> Prop) : Q a [] -> clean (mret a) Q.
Proof. intros HQ st b st' [= <- <-] Hd. split; [done|]. exists []. split; [apply extends_nil|done]. Qed.

(** A decoder never forgets a diagnostic. *)
Definition keeps {A} (m : decoder A) : Prop :=
  forall st, d_diagnostics (m st).2 = [] -> d_diagnostics st = [].

Lemma keeps_ret {A} (a : A) : keeps (mret a).
Proof. intros st E. exact E. Qed.

Lemma keeps_bind {A B} (m : decoder A) (k : A -> decoder B) :
  keeps m -> (forall a, keeps (k a)) -> keeps (m ≫= k).
Proof.
  intros Hm Hk st. unfold mbind, decoder_bind. pose proof (Hm st) as H. destruct (m st) as [a st1].
  intros Hd%Hk. by apply H.
Qed.

Lemma clean_bind {A B} (m : decoder A) (k : A -> decoder B) P Q :
  (forall a, keeps (k a)) ->
  clean m P -> (forall a l1, P a l1 -> clean (k a) (fun b l2 => Q b (l1 ++ l2))) -> clean (m ≫= k) Q.
Proof.
  intros Hkeep Hm Hk st b st' E Hd. unfold mbind, decoder_bind in E. destruct (m st) as [a st1] eqn:Em.
  assert (d_diagnostics st1 = []) as E1 by (apply (Hkeep a); by rewrite E).
  destruct (Hm st a st1 Em E1) as (H0 & l1 & Hx1 & HP).
  destruct (Hk a l1 HP st1 b st' E Hd) as (_ & l2 & Hx2 & HQ).
  split; [done|]. exists (l1 ++ l2). split; [by eapply extends_app|done].
Qed.

Lemma clean_weaken {A} (m : decoder A) (P Q : A -> list (Z * RuleOrigin) -> Prop) :
  clean m P -> (forall a l, P a l -> Q a l) -> clean m Q.
Proof. intros Hm HPQ st a st' E Hd. destruct (Hm st a st' E Hd) as (? & l & ? & ?). eauto. Qed.

Lemma Add_dirty limits c key span p field st : d_diagnostics (Add limits c key span p field st).2 <> [].
Proof.
  unfold Add. cbn. set (ds := d_diagnostics st). destruct (Z.ltb_spec (size ds) (Z.max (max_diagnostics limits) 1)).
  - by destruct ds.
  - destruct (reverse ds) as [|l earlier] eqn:E.
    + intros ->. change (size (@nil Diagnostic)) with 0 in *. lia.
    + destruct (Source.omitted l); [intros ->; done|by destruct (reverse earlier)].
Qed.

Lemma keeps_add limits c key span p field : keeps (Add limits c key span p field).
Proof. intros st E. by apply Add_dirty in E. Qed.

Lemma clean_add limits c key span p field Q : clean (Add limits c key span p field) Q.
Proof. intros st a st' E Hd. exfalso. eapply (Add_dirty limits c key span p field st). by rewrite E. Qed.

Lemma keeps_add_origin id o : keeps (add_origin id o).
Proof. intros st. unfold add_origin. by destruct (AddOrigin id o (d_origins st)). Qed.

Lemma clean_add_origin id o :
  clean (add_origin id o) (fun added l => if added then l = [(id, o)] else l = []).
Proof.
  intros st a st'. unfold add_origin, AddOrigin. destruct (d_origins st !! id) eqn:Eo; intros [= <- <-] Hd;
    cbn in *; (split; [done|]).
  - exists []. split; [apply extends_nil|done].
  - exists [(id, o)]. split; [|done]. split_and!; [|by apply NoDup_singleton|by constructor].
    cbn. by rewrite insert_empty, <- insert_union_singleton_l.
Qed.

Lemma keeps_fresh : keeps fresh_rule_id.
Proof. intros st E. exact E. Qed.

Lemma clean_fresh : clean fresh_rule_id (fun _ l => l = []).
Proof. intros st a st' [= <- <-] Hd. split; [done|]. exists []. split; [apply extends_nil|done]. Qed.

Create HintDb decoder.
#[export] Hint Resolve keeps_ret keeps_bind keeps_add keeps_add_origin keeps_fresh : decoder.

Ltac keeps_step :=
  match goal with
  | |- forall _, _ => intro
  | |- keeps (match ?x with _ => _ end) => destruct x
  | |- keeps (mbind _ _) => apply keeps_bind
  | |- keeps _ => solve [auto with decoder]
  end.

Ltac keeps_solve := repeat first [keeps_step | progress (cbv zeta)].

Section CleanFields.
Context (limits : RulesLimits) {value : Type} `{TomlValue value}.
Context (original : source_region -> ByteSpan) (bound : gmap (list bytes) GeneratedRedirect).

Abbreviation node := (toml_node value).
Abbreviation table := (list (toml_key * node)).

Lemma keeps_invalid c key span p field : keeps (invalid limits c key span p field).
Proof. unfold invalid. keeps_solve. Qed.
Hint Resolve keeps_invalid : decoder.

Lemma clean_invalid c key span p field Q : clean (invalid limits c key span p field) Q.
Proof. eapply clean_bind; [keeps_solve|apply (clean_add _ _ _ _ _ _ (fun _ _ => False))|done]. Qed.

Lemma keeps_check_fields (entries : table) allowed path : keeps (CheckFields limits original entries allowed path).
Proof. induction entries as [|[key n] rest IH]; cbn [CheckFields]; keeps_solve. Qed.

Lemma keeps_decode_bool (entries : table) key path b : keeps (DecodeBool limits original entries key path b).
Proof. unfold DecodeBool. keeps_solve. Qed.
Hint Resolve keeps_check_fields keeps_decode_bool : decoder.

Lemma keeps_decode_users (nodes : list node) path unique output valid :
  keeps (decode_users limits original nodes path unique output valid).
Proof. revert unique output valid. induction nodes as [|n nodes IH]; intros; cbn [decode_users]; keeps_solve. Qed.

Lemma keeps_decode_processes (nodes : list node) package path unique output valid :
  keeps (decode_processes limits original nodes package path unique output valid).
Proof. revert unique output valid. induction nodes as [|n nodes IH]; intros; cbn [decode_processes]; keeps_solve. Qed.

Lemma keeps_decode_deny (nodes : list node) path output valid : keeps (decode_deny limits original nodes path output valid).
Proof. revert output valid. induction nodes as [|n nodes IH]; intros; cbn [decode_deny]; keeps_solve. Qed.

Lemma keeps_decode_redirects (nodes : list node) where_ index path output valid :
  keeps (decode_redirects limits original bound nodes where_ index path output valid).
Proof.
  revert index output valid. induction nodes as [|n nodes IH]; intros; cbn [decode_redirects]; keeps_solve.
Qed.
Hint Resolve keeps_decode_users keeps_decode_processes keeps_decode_deny keeps_decode_redirects : decoder.

Lemma keeps_decode_app package source (entries : table) : keeps (DecodeApp limits original bound package source entries).
Proof. unfold DecodeApp, optional, DecodeUsers, DecodeProcesses, DecodeDeny, DecodeRedirect. keeps_solve. Qed.
Hint Resolve keeps_decode_app : decoder.

Lemma keeps_decode_apps (entries : table) apps valid : keeps (decode_apps limits original bound entries apps valid).
Proof. revert apps valid. induction entries as [|[key n] rest IH]; intros; cbn [decode_apps]; keeps_solve. Qed.
Hint Resolve keeps_decode_apps : decoder.

(** *** What each field leaves *)

Definition silent {A} (P : A -> Prop) (a : A) (l : list (Z * RuleOrigin)) : Prop := l = [] /\ P a.

Ltac clean_bad := solve [apply clean_add | apply clean_invalid
  | eapply clean_bind; [keeps_solve|apply (clean_add _ _ _ _ _ _ (fun _ _ => False))|done]
  | eapply clean_bind; [keeps_solve|apply (clean_invalid _ _ _ _ _ (fun _ _ => False))|done]].

Lemma clean_check_fields (entries : table) allowed path :
  clean (CheckFields limits original entries allowed path)
    (silent (fun _ => Forall (fun e => key_str e.1 ∈ allowed) entries)).
Proof.
  induction entries as [|[key n] rest IH]; cbn [CheckFields]; [by apply clean_ret|].
  case_bool_decide as E; [|clean_bad].
  eapply (clean_bind _ _ (silent (fun _ => True))); [keeps_solve|by apply clean_ret|].
  intros a l1 [-> _]. eapply clean_bind; [keeps_solve|exact IH|]. intros b l2 [-> Hall].
  apply clean_ret. split; [done|by constructor].
Qed.

Lemma clean_decode_bool (entries : table) key path b :
  clean (DecodeBool limits original entries key path b) (silent (fun r => bool_field entries key b r.1)).
Proof.
  unfold DecodeBool, bool_field. destruct (table_get entries key) as [n|]; [|by apply clean_ret].
  destruct (node_bool n) eqn:E; [by apply clean_ret|clean_bad].
Qed.

Lemma clean_decode_users (nodes : list node) path unique output valid :
  NoDup output -> Forall (fun u => 0 <= u <= 99999) output -> (forall v, v ∈ output -> v ∈ unique) ->
  clean (decode_users limits original nodes path unique output valid)
    (silent (fun r => NoDup r.1 /\ Forall (fun u => 0 <= u <= 99999) r.1
       /\ exists new, r.1 = output ++ new /\ mapM node_int64 nodes = Some new)).
Proof.
  revert unique output valid. induction nodes as [|n nodes IH]; intros unique output valid Hnd Hr Hu;
    cbn [decode_users].
  { apply clean_ret. split_and!; [done|done|done|]. exists []. by rewrite app_nil_r. }
  destruct (node_int64 n) as [v|] eqn:Ev; [|clean_bad]. destruct (_ || _) eqn:E; [clean_bad|].
  rewrite !orb_false_iff, bool_decide_eq_false in E.
  eapply clean_weaken; [apply IH|intros r l (-> & ? & ? & new & Er & En); split_and!; try done;
    exists (v :: new); cbn; by rewrite Er, Ev, <- app_assoc, En].
  - apply NoDup_app. split_and!; [done| |apply NoDup_singleton]. intros x Hx ->%list_elem_of_singleton.
    apply Hu in Hx. tauto.
  - apply Forall_app. split; [done|]. constructor; [lia|constructor].
  - intros x [Hx| ->%list_elem_of_singleton]%elem_of_app; [apply Hu in Hx|]; set_solver.
Qed.

Definition users_ok (users : list Z) : Prop :=
  users <> [] /\ NoDup users /\ Forall (fun u => 0 <= u <= 99999) users.

Lemma clean_users (n : node) path users :
  clean (DecodeUsers limits original n path users)
    (silent (fun r => users_ok r.1 /\ (elements ← as_array n; mapM node_int64 elements) = Some r.1)).
Proof.
  unfold DecodeUsers. destruct (as_array n) as [elements|]; [|clean_bad].
  eapply clean_bind; [intros [out v]; keeps_solve|apply clean_decode_users; [constructor|constructor|set_solver]|].
  intros [out v] l1 (-> & Hnd & Hr & new & E & En). cbn [fst Datatypes.app] in *. subst out. case_bool_decide; [clean_bad|].
  by apply clean_ret.
Qed.

Definition processes_ok (package : bytes) (processes : list bytes) : Prop :=
  NoDup processes /\ Forall (fun p => IsProcessName package p = true) processes.

Lemma clean_decode_processes (nodes : list node) package path unique output valid :
  processes_ok package output -> (forall v, v ∈ output -> v ∈ unique) ->
  clean (decode_processes limits original nodes package path unique output valid)
    (silent (fun r => processes_ok package r.1
       /\ exists new, r.1 = output ++ new /\ mapM node_string nodes = Some new)).
Proof.
  revert unique output valid. induction nodes as [|n nodes IH]; intros unique output valid [Hnd Hr] Hu;
    cbn [decode_processes].
  { apply clean_ret. split_and!; [done|done|]. exists []. by rewrite app_nil_r. }
  destruct (node_string n) as [v|] eqn:Ev; [|clean_bad]. destruct (_ || _) eqn:E; [clean_bad|].
  rewrite orb_false_iff, negb_false_iff, bool_decide_eq_false in E.
  eapply clean_weaken; [apply IH; [split|]|intros r l (-> & ? & new & Er & En); split_and!; try done;
    exists (v :: new); cbn; by rewrite Er, Ev, <- app_assoc, En].
  - apply NoDup_app. split_and!; [done| |apply NoDup_singleton]. intros x Hx ->%list_elem_of_singleton.
    apply Hu in Hx. tauto.
  - apply Forall_app. split; [done|]. constructor; [tauto|constructor].
  - intros x [Hx| ->%list_elem_of_singleton]%elem_of_app; [apply Hu in Hx|]; set_solver.
Qed.

Lemma clean_processes (n : node) package path :
  clean (DecodeProcesses limits original n package path)
    (silent (fun r => processes_ok package r.1 /\ (elements ← as_array n; mapM node_string elements) = Some r.1)).
Proof.
  unfold DecodeProcesses. destruct (as_array n) as [elements|]; [|clean_bad].
  eapply clean_weaken; [apply clean_decode_processes; [split; constructor|set_solver]|].
  intros r l (-> & Hp & new & E & En). cbn in E. split; [done|]. split; [done|]. cbn. by rewrite E.
Qed.

Lemma clean_decode_deny (nodes : list node) path output valid :
  clean (decode_deny limits original nodes path output valid)
    (fun r l => exists new, r.1 = output ++ new /\ l.*1 = deny_id <$> new
       /\ mapM node_string nodes = Some (deny_path <$> new)).
Proof.
  revert output valid. induction nodes as [|n nodes IH]; intros output valid; cbn [decode_deny].
  { apply clean_ret. exists []. by rewrite app_nil_r. }
  destruct (node_string n) as [v|] eqn:Ev; [|clean_bad]. cbv zeta.
  eapply clean_bind; [keeps_solve|apply clean_fresh|]. intros id l1 ->.
  eapply clean_bind; [keeps_solve|apply clean_add_origin|]. intros added l2 Hl2.
  destruct added; subst l2; [|clean_bad].
  eapply (clean_bind _ _ (silent (fun _ => True))); [keeps_solve|by apply clean_ret|]. intros v' l3 [-> _].
  eapply clean_weaken; [apply IH|]. intros [out w] l (new & Eout & El & En). cbn in *.
  eexists (_ :: new). rewrite Eout, <- app_assoc. split; [done|]. cbn. by rewrite El, Ev, En.
Qed.

Lemma clean_deny (n : node) path :
  clean (DecodeDeny limits original n path)
    (fun r l => l.*1 = deny_id <$> r.1
       /\ (elements ← as_array n; mapM node_string elements) = Some (deny_path <$> r.1)).
Proof.
  unfold DecodeDeny. destruct (as_array n) as [elements|]; [|clean_bad].
  eapply clean_weaken; [apply clean_decode_deny|]. intros r l (new & E & El & En). cbn in E |- *. by rewrite E.
Qed.

(** The redirects an array stands for: the one bound to each of its elements. *)
Definition bound_list (where_ : list bytes) (index : Z) (nodes : list node) (gs : list GeneratedRedirect) : Prop :=
  length gs = length nodes
  /\ forall i g, gs !! i = Some g -> bound !! (where_ ++ [to_string (index + Z.of_nat i)]) = Some g.

(** The table a redirect is decoded from. *)
Definition element_values (n : node) (rule : RedirectRule) : Prop :=
  exists entries, as_table n = Some entries /\ length entries = 2%nat
    /\ (from ← table_get entries (lit "from"); node_string from) = Some (redirect_source rule)
    /\ (to ← table_get entries (lit "to"); node_string to) = Some (redirect_target rule).

Definition decoded_redirects (gs : list GeneratedRedirect) (new : list RedirectRule)
    (l : list (Z * RuleOrigin)) : Prop :=
  Semantic.redirect_id <$> new = Desugar.redirect_id <$> gs
  /\ l = (fun g => (Desugar.redirect_id g, origin_of g)) <$> gs.

Lemma clean_decode_redirects (nodes : list node) where_ index path output valid :
  clean (decode_redirects limits original bound nodes where_ index path output valid)
    (fun r l => exists gs new, r.1 = output ++ new /\ decoded_redirects gs new l /\ bound_list where_ index nodes gs
       /\ Forall2 element_values nodes new).
Proof.
  revert index output valid. induction nodes as [|n nodes IH]; intros index output valid; cbn [decode_redirects].
  { apply clean_ret. exists [], []. rewrite app_nil_r. by split_and!. }
  destruct (as_table n) as [entries|] eqn:Et; cbn [mbind option_bind]; [|clean_bad].
  destruct (bound !! _) as [g|] eqn:Eg; cbn [mbind option_bind]; [|clean_bad]. cbv zeta.
  destruct (bool_decide (length entries = 2%nat)) eqn:Elen; cbv match; [|clean_bad].
  apply bool_decide_eq_true in Elen.
  destruct (from ← table_get entries (lit "from"); node_string from) as [from|] eqn:Efrom; cbv match; [|clean_bad].
  destruct (to ← table_get entries (lit "to"); node_string to) as [to|] eqn:Eto; cbv match; [|clean_bad].
  eapply clean_bind; [keeps_solve|apply clean_add_origin|]. intros added l2 Hl2.
  destruct added; subst l2; [|clean_bad].
  eapply (clean_bind _ _ (silent (fun _ => True))); [keeps_solve|by apply clean_ret|]. intros v' l3 [-> _].
  eapply clean_weaken; [apply IH|]. intros [out w] l (gs & new & Eout & (Eids & El) & [Hlen Hb] & Hvals). cbn in *.
  eexists (g :: gs), (_ :: new). rewrite Eout, <- app_assoc. split; [done|]. split; [split; cbn; by f_equal|].
  split; [|constructor; [|exact Hvals]; by exists entries].
  split; [cbn; by rewrite Hlen|]. intros [|i] g' Hg; cbn in Hg.
  - injection Hg as <-. by rewrite Z.add_0_r.
  - specialize (Hb i g' Hg). by replace (index + Z.of_nat (S i)) with (index + 1 + Z.of_nat i) by lia.
Qed.

(** The redirects of an app and the field they come from. *)
Definition redirect_field (where_ : list bytes) (field : option node) (gs : list GeneratedRedirect)
    (new : list RedirectRule) : Prop :=
  match field with
  | Some n => exists elements, as_array n = Some elements /\ bound_list where_ 0 elements gs
      /\ Forall2 element_values elements new
  | None => gs = []
  end.

Lemma clean_redirect (n : node) where_ path :
  clean (DecodeRedirect limits original bound n where_ path)
    (fun r l => exists gs, decoded_redirects gs r.1 l /\ redirect_field where_ (Some n) gs r.1).
Proof.
  unfold DecodeRedirect. destruct (as_array n) as [elements|] eqn:E; [|clean_bad].
  eapply clean_weaken; [apply clean_decode_redirects|]. intros r l (gs & new & Er & Hd & Hb & Hv).
  cbn in Er. exists gs. rewrite Er. split; [done|]. by exists elements.
Qed.

Lemma clean_optional {A} (entries : table) key (absent : A) decode (Q : option node -> A * bool -> _ -> Prop) :
  (forall n, clean (decode n) (Q (Some n))) -> Q None (absent, true) [] ->
  clean (optional entries key absent decode) (Q (table_get entries key)).
Proof. intros Hd Ha. unfold optional. destruct (table_get entries key); [apply Hd|by apply clean_ret]. Qed.

(** An entry of the table of apps and the app it decodes to. *)
Record app_decoded (entry : toml_key * node) (app : AppRules) (l : list (Z * RuleOrigin)) : Prop := {
  ad_package : rules_package app = key_str entry.1;
  ad_ok : app_wellformed limits app;
  ad_schema : app_schema entry app;
  ad_ids : l.*1 = app_rule_ids app;
  ad_redirects : exists fields gs, as_table entry.2 = Some fields
    /\ Semantic.redirect_id <$> rules_redirects app = Desugar.redirect_id <$> gs
    /\ (forall g, g ∈ gs -> (Desugar.redirect_id g, origin_of g) ∈ l)
    /\ redirect_field [lit "apps"; key_str entry.1; lit "redirect"] (table_get fields (lit "redirect")) gs
         (rules_redirects app);
}.

Lemma redirect_field_values where_ field gs new :
  redirect_field where_ field gs new -> Semantic.redirect_id <$> new = Desugar.redirect_id <$> gs ->
  list_value field node_redirect [] ((fun r => (redirect_source r, redirect_target r)) <$> new).
Proof.
  unfold redirect_field, list_value. destruct field as [n|].
  - intros (elements & -> & _ & Hv) _. cbn. apply mapM_Some, Forall2_fmap_r.
    eapply Forall2_impl; [exact Hv|]. cbn beta. intros t r (entries & Et & Elen & Efrom & Eto).
    unfold node_redirect. rewrite Et. cbn [mbind option_bind] in *. rewrite Efrom. cbn [option_bind].
    rewrite Eto. cbn [option_bind]. by rewrite bool_decide_eq_true_2.
  - intros ->. by destruct new.
Qed.

Lemma clean_app key (n : node) source fields :
  IsPackageName (key_str key) = true -> as_table n = Some fields ->
  clean (DecodeApp limits original bound (key_str key) source fields) (fun r l => app_decoded (key, n) r.1 l).
Proof.
  intros Hpkg En. unfold DecodeApp. cbv zeta.
  eapply clean_bind; [unfold optional, DecodeUsers, DecodeProcesses, DecodeDeny, DecodeRedirect; keeps_solve
    |apply clean_check_fields|]. intros v1 l1 [-> Ff].
  eapply clean_bind; [unfold optional, DecodeUsers, DecodeProcesses, DecodeDeny, DecodeRedirect; keeps_solve
    |apply clean_decode_bool|]. intros [enabled v2] l2 [-> Ef].
  eapply clean_bind; [unfold optional, DecodeUsers, DecodeProcesses, DecodeDeny, DecodeRedirect; keeps_solve
    |apply clean_decode_bool|]. intros [picker v3] l3 [-> Kf].
  eapply (clean_bind _ _ (silent (fun r => users_ok r.1 /\ list_field fields (lit "users") node_int64 [0] r.1)));
    [unfold optional, DecodeUsers, DecodeProcesses, DecodeDeny, DecodeRedirect; keeps_solve| |].
  { apply (clean_optional fields _ _ _ (fun f => silent (fun r => users_ok r.1 /\ list_value f node_int64 [0] r.1)));
      [intros u; apply clean_users|].
    split; [done|]. split; [|done]. split_and!; [done|apply NoDup_singleton|by constructor]. }
  intros [users v4] l4 (-> & Husers & Uf).
  eapply (clean_bind _ _ (silent (fun r => processes_ok (key_str key) r.1
      /\ list_field fields (lit "processes") node_string [] r.1)));
    [unfold optional, DecodeUsers, DecodeProcesses, DecodeDeny, DecodeRedirect; keeps_solve| |].
  { apply (clean_optional fields _ _ _ (fun f => silent (fun r => processes_ok (key_str key) r.1
        /\ list_value f node_string [] r.1))); [intros u; apply clean_processes|].
    split; [done|]. split; [|done]. split; constructor. }
  intros [processes v5] l5 (-> & Hprocesses & Pf).
  eapply (clean_bind _ _ (fun r l => l.*1 = deny_id <$> r.1
      /\ list_field fields (lit "deny") node_string [] (deny_path <$> r.1)));
    [unfold optional, DecodeUsers, DecodeProcesses, DecodeDeny, DecodeRedirect; keeps_solve| |].
  { apply (clean_optional fields _ _ _ (fun f r l => l.*1 = deny_id <$> r.1
        /\ list_value f node_string [] (deny_path <$> r.1))); [intros u; apply clean_deny|done]. }
  intros [deny v6] l6 [Hdeny Df].
  eapply (clean_bind _ _ (fun r l => exists gs, decoded_redirects gs r.1 l
      /\ redirect_field [lit "apps"; key_str key; lit "redirect"] (table_get fields (lit "redirect")) gs r.1));
    [keeps_solve| |].
  { apply (clean_optional fields _ _ _ (fun f r l => exists gs, decoded_redirects gs r.1 l
      /\ redirect_field [lit "apps"; key_str key; lit "redirect"] f gs r.1)); [intros u; apply clean_redirect|].
    by exists []. }
  intros [redirects v7] l7 (gs & [Hids El7] & Hfield). cbn [fst] in *.
  destruct (Z.ltb_spec (max_rules_per_app limits) (size deny + size redirects)) as [Hm|Hm]; [clean_bad|].
  eapply (clean_bind _ _ (silent (fun _ => True))); [keeps_solve|by apply clean_ret|]. intros v8 l8 [-> _].
  apply clean_ret. rewrite !app_nil_r. cbn [Datatypes.app].
  split; cbn [fst rules_package]; [done| | | |].
  - split; [by apply IsPackageName_shape|done|done|done].
  - split; [done|]. exists fields. split_and!; try done. by apply redirect_field_values in Hfield.
  - rewrite fmap_app, Hdeny. unfold app_rule_ids. cbn [rules_deny rules_redirects]. f_equal.
    rewrite El7, Hids, <- list_fmap_compose. done.
  - exists fields, gs. split_and!; [done|done| |done].
    intros g Hg. apply elem_of_app. right. rewrite El7, list_elem_of_fmap. by exists g.
Qed.

Lemma clean_apps (entries : table) apps valid :
  clean (decode_apps limits original bound entries apps valid)
    (fun r l => exists new, r.1 = apps ++ new.*1 /\ l = concat new.*2
       /\ Forall2 (fun e p => app_decoded e p.1 p.2) entries new).
Proof.
  revert apps valid. induction entries as [|[key n] entries IH]; intros apps valid; cbn [decode_apps].
  { apply clean_ret. exists []. cbn. by rewrite app_nil_r. }
  cbv zeta. destruct (IsPackageName (key_str key)) eqn:Epkg; cbn [negb]; [|clean_bad].
  destruct (as_table n) as [fields|] eqn:En; [|clean_bad].
  eapply clean_bind; [intros [app v]; keeps_solve|by apply (clean_app key n)|]. intros [app v] l1 Happ.
  eapply clean_weaken; [apply IH|]. intros [out w] l (new & Eout & El & HF). cbn [fst] in *.
  exists ((app, l1) :: new). rewrite Eout, <- app_assoc, El. split_and!; [done|done|by constructor].
Qed.

Lemma clean_root (root : table) :
  clean (DecodeRoot limits original bound root)
    (fun r l => document_schema root r.1 /\ exists n apps new, table_get root (lit "apps") = Some n /\ as_table n = Some apps
       /\ apps <> [] /\ size apps <= max_apps limits
       /\ rules_apps r.1 = new.*1 /\ l = concat new.*2
       /\ Forall2 (fun e p => app_decoded e p.1 p.2) apps new).
Proof.
  unfold DecodeRoot. cbv zeta.
  eapply clean_bind; [unfold optional, DecodeCompatibility; keeps_solve|apply clean_check_fields|].
  intros v1 l1 [-> Ff].
  eapply (clean_bind _ _ (silent (fun _ => (n ← table_get root (lit "format"); node_int64 n) = Some 1)));
    [unfold optional, DecodeCompatibility; keeps_solve| |].
  { case_bool_decide; [by apply clean_ret|clean_bad]. }
  intros v2 l2 [-> Hformat].
  eapply (clean_bind _ _ (silent (fun r => compatibility_schema root r.1))); [keeps_solve| |].
  { apply (clean_optional root _ _ _ (fun f => silent (fun r =>
      match f with
      | None => r.1 = false
      | Some n => exists fields, as_table n = Some fields /\ fields_among fields [lit "allow_legacy_mount"]
          /\ bool_field fields (lit "allow_legacy_mount") false r.1
      end))); [|done]. intros n.
    destruct (as_table n) as [entries|]; [|clean_bad]. unfold DecodeCompatibility.
    eapply clean_bind; [keeps_solve|apply clean_check_fields|]. intros v l [-> Hfields].
    eapply clean_bind; [keeps_solve|apply clean_decode_bool|]. intros [legacy w] l' [-> Hbool].
    apply clean_ret. split; [done|]. by exists entries. }
  intros [legacy v3] l3 [-> Hlegacy]. cbn [Datatypes.app].
  destruct (table_get root (lit "apps")) as [n|] eqn:En; cbn [mbind option_bind]; [|clean_bad].
  destruct (as_table n) as [[|e apps]|] eqn:Ea; cbv match; [clean_bad| |clean_bad].
  destruct (Z.ltb_spec (max_apps limits) (size (e :: apps))); [clean_bad|].
  eapply clean_bind; [intros [out v]; keeps_solve|apply clean_apps|]. intros [out v] l (new & E & -> & HF).
  apply clean_ret. rewrite app_nil_r. split; [|by exists n, (e :: apps), new].
  split; [done|done|done|]. exists n, (e :: apps). split_and!; [done|done|].
  cbn in E |- *. rewrite E. apply Forall2_fmap_r. eapply Forall2_impl; [exact HF|]. intros x y. apply ad_schema.
Qed.
End CleanFields.

(** ** Binding arrows to tables *)

Section Bind.
Context (limits : RulesLimits).

(** A node that has its arrow is found in [bound_]. *)
Record binding (nodes : list InlineNode) (bound : gmap (list bytes) GeneratedRedirect) : Prop := {
  bi_paths : NoDup (node_path <$> nodes);
  bi_bound : forall i n g, nodes !! i = Some n -> node_origin n = Some g -> bound !! node_path n = Some g;
}.

Lemma set_origin_paths (i : nat) g n (nodes : list InlineNode) :
  nodes !! i = Some n -> node_path <$> <[i := set_origin g n]> nodes = node_path <$> nodes.
Proof.
  intros Hi. rewrite list_fmap_insert. cbn [node_path set_origin].
  apply list_insert_id. by rewrite list_lookup_fmap, Hi.
Qed.

Lemma same_path (nodes : list InlineNode) (i j : nat) m n :
  NoDup (node_path <$> nodes) -> nodes !! i = Some m -> nodes !! j = Some n -> node_path m = node_path n -> i = j.
Proof.
  intros Hnd Hi Hj E. eapply NoDup_lookup; [exact Hnd| |]; rewrite list_lookup_fmap;
    [rewrite Hi|rewrite Hj]; cbn; by rewrite ?E.
Qed.

(** The index of the nodes by where they are. *)
Lemma index_nodes_ok index nodes by_span by_span' :
  index_nodes index nodes by_span = Some by_span' ->
  forall id i, by_span' !! id = Some i ->
    by_span !! id = Some i
    \/ exists j n, i = (index + j)%nat /\ nodes !! j = Some n /\ span_identity (node_generated n) = id.
Proof.
  revert index by_span. induction nodes as [|n nodes IH]; intros index by_span; cbn [index_nodes].
  { intros [= <-]. auto. }
  destruct (by_span !! _); [done|]. intros E id i Hi. destruct (IH _ _ E id i Hi) as [H|(j & m & -> & Hj & Em)].
  - destruct (decide (span_identity (node_generated n) = id)) as [<-|Hne].
    + rewrite lookup_insert_eq in H. injection H as <-. right. exists 0%nat, n. split_and!; [lia|done|done].
    + rewrite lookup_insert_ne in H by done. auto.
  - right. exists (S j), m. split_and!; [lia|done|done].
Qed.

(** Where the nodes are. *)
Definition places (nodes : list InlineNode) : list (list bytes * ByteSpan) :=
  (fun n => (node_path n, node_generated n)) <$> nodes.

Lemma set_origin_places (i : nat) g n (nodes : list InlineNode) :
  nodes !! i = Some n -> places (<[i := set_origin g n]> nodes) = places nodes.
Proof.
  intros Hi. unfold places. rewrite list_fmap_insert. cbn [node_path node_generated set_origin].
  apply list_insert_id. by rewrite list_lookup_fmap, Hi.
Qed.

Lemma bind_redirects_ok by_span redirects spans nodes bound st nodes' bound' st' :
  bind_redirects limits by_span redirects spans nodes bound st = (Some (nodes', bound'), st') ->
  binding nodes bound ->
  (forall id i n, by_span !! id = Some i -> nodes !! i = Some n -> span_identity (node_generated n) = id) ->
  st' = st /\ binding nodes' bound' /\ node_path <$> nodes' = node_path <$> nodes
  /\ (forall i n g, nodes !! i = Some n -> node_origin n = Some g ->
        exists n', nodes' !! i = Some n' /\ node_origin n' = Some g)
  /\ (forall g, g ∈ redirects -> exists i n', nodes' !! i = Some n' /\ node_origin n' = Some g)
  /\ (forall p g, bound' !! p = Some g ->
        g ∈ redirects
        /\ (exists span, (p, span) ∈ places nodes /\ span_identity span = span_identity (generated_table g))
        \/ bound !! p = Some g).
Proof.
  revert spans nodes bound st. induction redirects as [|r redirects IH]; intros spans nodes bound st;
    cbn [bind_redirects].
  { intros [= <- <- <-] Hb _. split_and!; try done; eauto. by intros g ?%elem_of_nil. }
  cbv zeta. case_bool_decide; [done|].
  destruct (by_span !! _) as [i|] eqn:Hspan; cbn [mbind option_bind]; [|done].
  destruct (nodes !! i) as [n|] eqn:Hi; cbn [mbind option_bind]; [|done].
  destruct (node_origin n) eqn:Hn; [done|]. intros E [Hnd Hbound] Hindex.
  pose proof (lookup_lt_Some _ _ _ Hi) as Hlt.
  apply IH in E as (-> & Hb' & Epaths & Hkeep & Hall & Hfrom).
  - rewrite (set_origin_paths i r n nodes Hi) in Epaths.
    assert (<[i := set_origin r n]> nodes !! i = Some (set_origin r n)) as Hset
      by (by apply list_lookup_insert_eq).
    split_and!; [done|done|done| | |].
    + intros j m g Hj Hm. assert (i <> j) as Hne by (intros <-; congruence).
      apply (Hkeep j m); [|done]. by rewrite list_lookup_insert_ne.
    + intros g [->|Hg]%elem_of_cons; [|by apply Hall].
      destruct (Hkeep i (set_origin r n) r Hset eq_refl) as (n' & ? & ?). by exists i, n'.
    + intros p g [[Hg Hplace]|Hg]%Hfrom; [left; split; [by right|by rewrite (set_origin_places i r n nodes Hi) in Hplace]|].
      destruct (decide (p = node_path n)) as [->|Hp].
      * rewrite lookup_insert_eq in Hg. injection Hg as <-. left. split; [by left|].
        exists (node_generated n). split; [|by apply (Hindex _ i)].
        apply list_elem_of_fmap. exists n. split; [done|]. by eapply list_elem_of_lookup_2.
      * rewrite lookup_insert_ne in Hg by done. by right.
  - split; [by rewrite set_origin_paths|]. intros j m g Hj Hm.
    destruct (decide (i = j)) as [<-|Hne].
    + rewrite list_lookup_insert_eq in Hj by done. injection Hj as <-. cbn in Hm |- *. injection Hm as <-.
      by rewrite lookup_insert_eq.
    + rewrite list_lookup_insert_ne in Hj by done. rewrite lookup_insert_ne; [by apply (Hbound j)|].
      intros Ep. apply Hne. by apply (same_path nodes i j n m).
  - intros id j m Hj Hm. destruct (decide (i = j)) as [<-|Hne].
    + rewrite list_lookup_insert_eq in Hm by done. injection Hm as <-. exact (Hindex id i n Hj Hi).
    + rewrite list_lookup_insert_ne in Hm by done. by apply (Hindex id j).
Qed.

Lemma check_scopes_ok nodes scope_error st st' :
  check_scopes limits nodes scope_error st = (false, st') ->
  scope_error = false /\ st' = st
  /\ (forall n g, n ∈ nodes -> node_origin n = Some g -> IsRedirectScope (node_path n) = true).
Proof.
  revert scope_error st. induction nodes as [|n nodes IH]; intros e st; cbn [check_scopes].
  { intros [= -> <-]. split_and!; [done|done|]. by intros n g ?%elem_of_nil. }
  destruct (node_origin n) as [r|] eqn:Hn; [destruct (IsRedirectScope (node_path n)) eqn:Hs|].
  - intros (-> & -> & Hall)%IH. split_and!; [done|done|]. intros m g [->|Hm]%elem_of_cons Hg; [done|by eapply Hall].
  - unfold mbind, decoder_bind. destruct (Add _ _ _ _ _ _ _) as [[] st1]. intros (? & _)%IH. done.
  - intros (-> & -> & Hall)%IH. split_and!; [done|done|]. intros m g [->|Hm]%elem_of_cons Hg; [congruence|by eapply Hall].
Qed.

Lemma BindGenerated_ok nodes redirects st bound st' :
  BindGenerated limits nodes redirects st = (Some bound, st') ->
  NoDup (node_path <$> nodes) -> Forall (fun n => node_origin n = None) nodes ->
  st' = st
  /\ (forall p g, bound !! p = Some g ->
        g ∈ redirects
        /\ exists span, (p, span) ∈ places nodes /\ span_identity span = span_identity (generated_table g))
  /\ (forall g, g ∈ redirects -> exists p, p ∈ node_path <$> nodes /\ IsRedirectScope p = true /\ bound !! p = Some g).
Proof.
  unfold BindGenerated. destruct (index_nodes _ _ _) as [by_span|] eqn:Ei; [|done].
  unfold mbind, decoder_bind. destruct (bind_redirects _ _ _ _ _ _ _) as [[[nodes' bound']|] st1] eqn:Eb; [|done].
  destruct (check_scopes _ _ _ _) as [[] st2] eqn:Es; [done|]. intros [= <- <-] Hnd Hnone.
  apply bind_redirects_ok in Eb as (-> & [Hnd' Hb'] & Epaths & _ & Hall & Hfrom).
  2:{ split; [done|]. intros i n g Hi Hn. rewrite Forall_forall in Hnone.
      rewrite Hnone in Hn; [done|]. by eapply list_elem_of_lookup_2. }
  2:{ intros id i n [H|(j & m & -> & Hj & Em)]%(index_nodes_ok _ _ _ _ Ei) Hn; [by rewrite lookup_empty in H|].
      rewrite Nat.add_0_l, Hj in Hn. by injection Hn as <-. }
  apply check_scopes_ok in Es as (_ & -> & Hscope). split_and!; [done| |].
  - intros p g [Hg|Hg]%Hfrom; [exact Hg|]. by rewrite lookup_empty in Hg.
  - intros g (i & n & Hi & Hn)%Hall. exists (node_path n). split_and!.
    + rewrite <- Epaths. apply list_elem_of_fmap_2. by eapply list_elem_of_lookup_2.
    + eapply Hscope; [by eapply list_elem_of_lookup_2|done].
    + by eapply Hb'.
Qed.
End Bind.

(** ** Paths of a tree *)

Section Tree.
Context {value : Type}.

Section TreeInduction.
Context (P : toml_node value -> Prop).
Context (HT : forall source inline entries, Forall (fun e => P e.2) entries -> P (Table source inline entries)).
Context (HA : forall source elements, Forall P elements -> P (Array source elements)).
Context (HL : forall source v, P (Leaf source v)).

Fixpoint toml_node_nested_ind (n : toml_node value) : P n :=
  match n with
  | Table source inline entries =>
      HT source inline entries
        ((fix each (l : list (toml_key * toml_node value)) : Forall (fun e => P e.2) l :=
            match l with
            | [] => List.Forall_nil _
            | e :: l => List.Forall_cons _ e l (toml_node_nested_ind e.2) (each l)
            end) entries)
  | Array source elements =>
      HA source elements
        ((fix each (l : list (toml_node value)) : Forall P l :=
            match l with
            | [] => List.Forall_nil _
            | c :: l => List.Forall_cons _ c l (toml_node_nested_ind c) (each l)
            end) elements)
  | Leaf source v => HL source v
  end.
End TreeInduction.

(** The children of a node with the last step of their paths. *)
Definition children (n : toml_node value) : list (bytes * toml_node value) :=
  match n with
  | Table _ _ entries => prod_map key_str id <$> entries
  | Array _ elements => imap (fun i c => (to_string (Z.of_nat i), c)) elements
  | Leaf _ _ => []
  end.

Inductive reaches : toml_node value -> list bytes -> toml_node value -> Prop :=
  | reaches_here n : reaches n [] n
  | reaches_child n k c p m : (k, c) ∈ children n -> reaches c p m -> reaches n (k :: p) m.

Lemma array_keys_distinct (elements : list (toml_node value)) :
  NoDup (imap (fun i c => (to_string (Z.of_nat i), c)) elements).*1.
Proof.
  apply NoDup_alt. intros i j k Hi Hj. rewrite list_lookup_fmap, list_lookup_imap in Hi, Hj.
  destruct (elements !! i); [|done]. destruct (elements !! j); [|done].
  cbn in Hi, Hj. injection Hi as <-. injection Hj as E. apply to_string_inj in E; lia.
Qed.

Lemma keys_distinct_children n :
  keys_distinct n -> NoDup (children n).*1 /\ Forall (fun e => keys_distinct e.2) (children n).
Proof.
  destruct n as [source inline entries|source elements|source v]; cbn [keys_distinct children].
  - intros [Hnd Hall]. split.
    + rewrite <- list_fmap_compose. exact Hnd.
    + clear Hnd. induction entries as [|[k c] entries IH]; [constructor|]. destruct Hall. constructor; auto.
  - intros Hall. split; [apply array_keys_distinct|]. apply Forall_forall. intros e (i & c & -> & Hc)%elem_of_lookup_imap.
    cbn. revert i Hc. induction elements as [|d elements IH]; intros [|i] Hc; try done; destruct Hall.
    + injection Hc as <-. done.
    + by eapply IH.
  - intros _. split; constructor.
Qed.

Context (region : source_region -> ByteSpan).

Definition own_node (path : list bytes) (n : toml_node value) : list InlineNode :=
  match n with
  | Table source true _ => [{| node_path := path; node_generated := region source; node_origin := None |}]
  | _ => []
  end.

Lemma CollectInlineNodes_children path n :
  CollectInlineNodes region path n
  = own_node path n ++ (children n ≫= fun e => CollectInlineNodes region (path ++ [e.1]) e.2).
Proof.
  destruct n as [source inline entries|source elements|source v]; [| |done].
  - cbn [CollectInlineNodes]. apply (f_equal2 Datatypes.app); [by destruct inline|].
    induction entries as [|[k c] entries IH]; [done|]. cbn in *. by rewrite IH.
  - cbn [CollectInlineNodes own_node children Datatypes.app].
    assert (forall index, (fix each (index : Z) (elements : list (toml_node value)) : list InlineNode :=
         match elements with
         | [] => []
         | child :: rest =>
             CollectInlineNodes region (path ++ [to_string index]) child ++ each (index + 1) rest
         end) (Z.of_nat index) elements
      = imap (fun i c => (to_string (Z.of_nat (index + i)), c)) elements
          ≫= fun e => CollectInlineNodes region (path ++ [e.1]) e.2) as Heach; [|exact (Heach 0%nat)].
    induction elements as [|c elements IH]; intros index; [done|]. cbn [imap mbind list_bind]. cbn.
    rewrite Nat.add_0_r. f_equal. replace (Z.of_nat index + 1) with (Z.of_nat (S index)) by lia.
    rewrite IH. f_equal. apply imap_ext. intros i d _. cbn. by rewrite Nat.add_succ_r.
Qed.

Lemma children_ind (P : toml_node value -> Prop) :
  (forall n, Forall (fun e => P e.2) (children n) -> P n) -> forall n, P n.
Proof.
  intros HP. apply toml_node_nested_ind.
  - intros source inline entries Hall. apply HP. cbn. apply Forall_fmap. eapply Forall_impl; [exact Hall|]. done.
  - intros source elements Hall. apply HP. apply Forall_forall. intros e (i & c & -> & Hc)%elem_of_lookup_imap.
    rewrite Forall_forall in Hall. apply Hall. by eapply list_elem_of_lookup_2.
  - intros source v. apply HP. constructor.
Qed.

Lemma collect_reaches (n : toml_node value) path x :
  x ∈ CollectInlineNodes region path n ->
  node_origin x = None
  /\ exists p source entries, node_path x = path ++ p /\ node_generated x = region source
       /\ reaches n p (Table source true entries).
Proof.
  revert path. induction n as [n IH] using children_ind. intros path.
  rewrite CollectInlineNodes_children, elem_of_app, list_elem_of_bind. intros [Hx|([k c] & Hx & Hc)].
  - destruct n as [source [] entries| |]; cbn in Hx; rewrite ?list_elem_of_singleton, ?elem_of_nil in Hx; [|done..].
    subst x. split; [done|]. exists [], source, entries. rewrite app_nil_r. split_and!; [done|done|constructor].
  - rewrite Forall_forall in IH. destruct (IH (k, c) Hc _ Hx) as (Ho & p & source & entries & Ep & Eg & Hr).
    split; [done|]. exists (k :: p), source, entries. rewrite Ep, <- app_assoc. split; [done|]. split; [done|].
    by eapply reaches_child.
Qed.

Lemma own_node_path path (n : toml_node value) x : x ∈ own_node path n -> node_path x = path.
Proof.
  destruct n as [source [] entries| |]; cbn; rewrite ?list_elem_of_singleton, ?elem_of_nil; [by intros ->|done..].
Qed.

Lemma collect_paths_distinct (n : toml_node value) path :
  keys_distinct n -> NoDup (node_path <$> CollectInlineNodes region path n).
Proof.
  revert path. induction n as [n IH] using children_ind. intros path Hd.
  destruct (keys_distinct_children n Hd) as [Hnd Hall]. rewrite CollectInlineNodes_children, fmap_app.
  apply NoDup_app. split_and!.
  - destruct n as [source [] entries| |]; cbn; [apply NoDup_singleton|apply NoDup_nil_2..].
  - intros p (x & -> & Hx)%list_elem_of_fmap (y & Ey & Hy)%list_elem_of_fmap.
    apply own_node_path in Hx. apply list_elem_of_bind in Hy as ([k c] & Hy & Hc).
    apply collect_reaches in Hy as (_ & q & _ & _ & Eq & _). rewrite Eq, Hx, <- app_assoc in Ey.
    apply (f_equal length) in Ey. rewrite !length_app in Ey. cbn in Ey. lia.
  - rewrite fmap_bind. apply NoDup_bind.
    + intros [k1 c1] [k2 c2] p H1 H2 (x & -> & Hx)%list_elem_of_fmap (y & Ey & Hy)%list_elem_of_fmap.
      apply collect_reaches in Hx as (_ & q1 & _ & _ & Eq1 & _).
      apply collect_reaches in Hy as (_ & q2 & _ & _ & Eq2 & _).
      rewrite Eq1, Eq2, <- !app_assoc in Ey. apply app_inv_head in Ey. injection Ey as <- _.
      apply list_elem_of_lookup in H1 as [i Hi]. apply list_elem_of_lookup in H2 as [j Hj].
      assert (i = j) as <-.
      { eapply NoDup_lookup; [exact Hnd| |]; rewrite list_lookup_fmap; [by rewrite Hi|by rewrite Hj]. }
      congruence.
    + intros [k c] Hc. rewrite Forall_forall in IH, Hall. apply (IH (k, c) Hc). by apply (Hall (k, c)).
    + by eapply NoDup_fmap_1.
Qed.

(** A step of a path is a lookup, for keys are distinct. *)
Lemma table_get_child (n : toml_node value) entries k c :
  keys_distinct n -> as_table n = Some entries -> (k, c) ∈ children n ->
  table_get entries k = Some c /\ keys_distinct c.
Proof.
  intros Hd Et Hc. destruct (keys_distinct_children n Hd) as [Hnd Hall]. rewrite Forall_forall in Hall.
  split; [|exact (Hall _ Hc)]. destruct n as [source inline es| |]; [|done..]. injection Et as ->.
  cbn [children] in *. clear Hd Hall. induction entries as [|[key d] entries IH]; [by apply elem_of_nil in Hc|].
  cbn [fmap list_fmap prod_map] in *. apply NoDup_cons in Hnd as [Hn Hnd]. cbn [table_get].
  apply elem_of_cons in Hc as [[= -> ->]|Hc]; [by rewrite bool_decide_eq_true_2|].
  rewrite bool_decide_eq_false_2; [by apply IH|]. intros <-. apply Hn.
  apply list_elem_of_fmap. by exists (key_str key, c).
Qed.

Lemma table_entry_child (n : toml_node value) entries k c :
  as_table n = Some entries -> (k, c) ∈ children n -> exists key, key_str key = k /\ (key, c) ∈ entries.
Proof.
  destruct n as [source inline es| |]; [|done..]. intros [= ->] ([key d] & [= -> ->] & Hin)%list_elem_of_fmap.
  by exists key.
Qed.

Lemma array_child (n : toml_node value) elements k c :
  as_array n = Some elements -> (k, c) ∈ children n ->
  exists i, k = to_string (Z.of_nat i) /\ elements !! i = Some c.
Proof.
  destruct n as [|source es|]; [done| |done]. intros [= ->] (i & d & [= -> ->] & Hi)%elem_of_lookup_imap.
  by exists i.
Qed.

(** A path leads to one node. *)
Lemma reaches_functional n p m m' : keys_distinct n -> reaches n p m -> reaches n p m' -> m = m'.
Proof.
  intros Hd Hr. revert m'. induction Hr as [n|n k c p m Hc Hr IH]; intros m' Hr'; inversion Hr'; subst; [done|].
  destruct (keys_distinct_children n Hd) as [Hnd Hall]. rewrite Forall_forall in Hall.
  match goal with H : (k, ?d) ∈ children n |- _ => assert (d = c) as -> end; [|by apply IH; [apply (Hall (k, c))|]].
  apply list_elem_of_lookup in Hc as [i Hi].
  match goal with H : (k, _) ∈ children n |- _ => apply list_elem_of_lookup in H as [j Hj] end.
  assert (i = j) as <- by (eapply NoDup_lookup; [exact Hnd| |]; rewrite list_lookup_fmap; [by rewrite Hi|by rewrite Hj]).
  congruence.
Qed.

Lemma table_get_reaches (n : toml_node value) entries k c p m :
  as_table n = Some entries -> table_get entries k = Some c -> reaches c p m -> reaches n (k :: p) m.
Proof.
  destruct n as [source inline es| |]; [|done..]. intros [= ->] Hg Hr. eapply reaches_child; [|exact Hr].
  cbn [children]. clear Hr. induction entries as [|[key d] entries IH]; [done|]. cbn [table_get] in Hg.
  cbn. case_bool_decide as E; [injection Hg as <-; rewrite <- E; left|right; by apply IH].
Qed.

Lemma entry_reaches (n : toml_node value) entries e p m :
  as_table n = Some entries -> e ∈ entries -> reaches e.2 p m -> reaches n (key_str e.1 :: p) m.
Proof.
  destruct n as [source inline es| |]; [|done..]. intros [= ->] He. apply reaches_child.
  cbn [children]. apply list_elem_of_fmap. by exists e.
Qed.

Lemma element_reaches (n : toml_node value) elements (i : nat) c p m :
  as_array n = Some elements -> elements !! i = Some c -> reaches c p m ->
  reaches n (to_string (Z.of_nat i) :: p) m.
Proof.
  destruct n as [|source es|]; [done| |done]. intros [= ->] Hi. apply reaches_child.
  cbn [children]. apply elem_of_lookup_imap. by exists i, c.
Qed.

Lemma reaches_cons_inv n k p m : reaches n (k :: p) m -> exists c, (k, c) ∈ children n /\ reaches c p m.
Proof. inversion 1; subst. by exists c. Qed.
End Tree.

(** ** A decoded document *)

Section Document.
Context {value : Type} `{TomlValue value} (limits : RulesLimits).
Context (parse : bytes -> source_region + toml_node value).
Context (parse_distinct : forall text root, parse text = inr root -> keys_distinct root).

Definition start : DecoderState := {| d_diagnostics := []; d_origins := ∅; next_rule_id := 1 |}.

(** What is known when a document comes out. *)
Record decoded (text : bytes) (d : DesugarResult) (doc : RulesDocument) (origins : OriginMap) : Type := {
  dc_root : toml_node value;
  dc_bound : gmap (list bytes) GeneratedRedirect;
  dc_node : toml_node value;
  dc_apps : list (toml_key * toml_node value);
  dc_new : list (AppRules * list (Z * RuleOrigin));
  dc_parse : parse text = inr dc_root;
  dc_bind : BindGenerated limits (CollectInlineNodes (Region text) [] dc_root) (redirects d) start
            = (Some dc_bound, start);
  dc_get : table_get (root_entries dc_root) (lit "apps") = Some dc_node;
  dc_table : as_table dc_node = Some dc_apps;
  dc_size : dc_apps <> [] /\ size dc_apps <= max_apps limits;
  dc_schema : document_schema (root_entries dc_root) doc;
  dc_doc : rules_apps doc = dc_new.*1;
  dc_origins : origins = list_to_map (concat dc_new.*2) /\ NoDup (concat dc_new.*2).*1;
  dc_each : Forall2 (fun e p => app_decoded limits dc_bound e p.1 p.2) dc_apps dc_new;
}.

Lemma DecodeDesugaredRules_decoded source d doc :
  let r := DecodeDesugaredRules limits parse source d in
  parsed_document r = Some doc -> parsed_diagnostics r = [] /\ inhabited (decoded (parser_input source d) d doc (parsed_origins r)).
Proof.
  cbv zeta. unfold DecodeDesugaredRules. destruct (bool_decide (desugar_diagnostics d <> [])); [done|].
  set (text := parser_input source d).
  destruct (parse text) as [|root] eqn:Ep; [done|]. fold start.
  destruct (BindGenerated _ _ _ _) as [[bound|] st] eqn:Eb; [|done].
  assert (st = start) as ->.
  { apply BindGenerated_ok in Eb as [-> _]; [done| |].
    - apply collect_paths_distinct. by eapply parse_distinct.
    - apply Forall_forall. by intros x [? _]%collect_reaches. }
  destruct (DecodeRoot _ _ _ _ _) as [[document dec] st'] eqn:Er.
  destruct (_ || _) eqn:E; [done|]. intros [= ->]. cbn [parsed_diagnostics parsed_origins].
  rewrite orb_false_iff, bool_decide_eq_false in E. destruct E as [_ E%dec_stable].
  destruct (clean_root _ _ _ _ _ _ _ Er E)
    as (_ & l & (El & Hnd & _) & Hschema & n & apps & new & Hget & Htab & Hne & Hmax & Hdoc & -> & HF).
  split; [done|]. constructor. exists root bound n apps new; try done.
  split; [|done]. rewrite El. cbn. by rewrite (right_id_L ∅ (∪)).
Qed.

Lemma decoded_ids text d doc origins (D : decoded text d doc origins) :
  (concat (dc_new _ _ _ _ D).*2).*1 = rules_apps doc ≫= app_rule_ids.
Proof.
  rewrite (dc_doc _ _ _ _ D). pose proof (dc_each _ _ _ _ D) as HF.
  induction HF as [|e [app l] entries new Happ HF IH]; [done|].
  cbn in *. rewrite fmap_app, (ad_ids _ _ _ _ _ Happ). by rewrite IH.
Qed.

(** The redirects of decoded apps were bound, and the table at every index of a redirect array
    is the one of a redirect. *)
Lemma apps_redirects bound (apps : list (toml_key * toml_node value)) new :
  Forall2 (fun e p => app_decoded limits bound e p.1 p.2) apps new ->
  exists gs, (new.*1 ≫= fun app => Semantic.redirect_id <$> rules_redirects app) = Desugar.redirect_id <$> gs
    /\ (forall g, g ∈ gs -> exists p, bound !! p = Some g)
    /\ (forall g, g ∈ gs -> (Desugar.redirect_id g, origin_of g) ∈ concat new.*2)
    /\ (forall e fields elements i g, e ∈ apps -> as_table e.2 = Some fields ->
          (n ← table_get fields (lit "redirect"); as_array n) = Some elements -> is_Some (elements !! i) ->
          bound !! [lit "apps"; key_str e.1; lit "redirect"; to_string (Z.of_nat i)] = Some g -> g ∈ gs).
Proof.
  intros HF. induction HF as [|e [app l] apps new Happ HF (gs & Eids & Hbound & Horigin & Hall)].
  { exists []. split_and!; [done|by intros g ?%elem_of_nil..|by intros e ? ? ? ? ?%elem_of_nil]. }
  destruct Happ as [_ _ _ _ (fields & gs0 & Ef & E0 & Hin & Hfield)]. exists (gs0 ++ gs). split_and!.
  - cbn in *. by rewrite E0, Eids, fmap_app.
  - intros g [Hg|Hg]%elem_of_app; [|by apply Hbound]. unfold redirect_field in Hfield.
    destruct (table_get fields _) as [n|]; [|subst gs0; by apply elem_of_nil in Hg].
    destruct Hfield as (elements & _ & [_ Hb] & _). apply list_elem_of_lookup in Hg as [i Hi].
    eexists. by apply (Hb i).
  - intros g [Hg|Hg]%elem_of_app; cbn; apply elem_of_app; [left|right]; auto.
  - intros e' fields' elements i g [->|He]%elem_of_cons Ef' Ee [c Hc] Hg; apply elem_of_app; [left|right].
    + cbn in Ef. rewrite Ef in Ef'. injection Ef' as <-. unfold redirect_field in Hfield.
      destruct (table_get fields _) as [n|]; [|done]. cbn in Ee. destruct Hfield as (els & E1 & [Hlen Hb] & _).
      rewrite Ee in E1. injection E1 as <-.
      assert (is_Some (gs0 !! i)) as [g' Hg'].
      { apply lookup_lt_is_Some_2. rewrite Hlen. by eapply lookup_lt_Some. }
      pose proof (Hb i g' Hg') as Hb'. rewrite Z.add_0_l in Hb'. cbn [Datatypes.app] in Hb'.
      rewrite Hb' in Hg. injection Hg as <-. by eapply list_elem_of_lookup_2.
    + eapply Hall; [exact He|exact Ef'|exact Ee|by exists c|exact Hg].
Qed.

(** A table in the scope of the arrows is an element of the redirect array of an entry. *)
Lemma scope_path (root node : toml_node value) apps p m bound new :
  keys_distinct root -> as_table root = Some (root_entries root) ->
  table_get (root_entries root) (lit "apps") = Some node -> as_table node = Some apps ->
  Forall2 (fun e p => app_decoded limits bound e p.1 p.2) apps new ->
  IsRedirectScope p = true -> reaches root p m ->
  exists e fields elements i, e ∈ apps /\ as_table e.2 = Some fields
    /\ (n ← table_get fields (lit "redirect"); as_array n) = Some elements /\ is_Some (elements !! i)
    /\ p = [lit "apps"; key_str e.1; lit "redirect"; to_string (Z.of_nat i)].
Proof.
  intros Hd Hroot Hget Htab HF Hscope Hr. destruct p as [|a [|pkg [|r [|k []]]]]; try done.
  cbn [IsRedirectScope] in Hscope.
  rewrite !andb_true_iff, !bool_decide_eq_true in Hscope. destruct Hscope as [[-> _] ->].
  apply reaches_cons_inv in Hr as (n1 & H1 & Hr). apply reaches_cons_inv in Hr as (n2 & H2 & Hr).
  apply reaches_cons_inv in Hr as (n3 & H3 & Hr). apply reaches_cons_inv in Hr as (n4 & H4 & _).
  destruct (table_get_child _ _ _ _ Hd Hroot H1) as [G1 D1]. rewrite Hget in G1. injection G1 as <-.
  destruct (table_entry_child _ _ _ _ Htab H2) as (key & <- & He).
  destruct (table_get_child _ _ _ _ D1 Htab H2) as [_ D2].
  destruct (list_elem_of_lookup_1 _ _ He) as [j Hj].
  destruct (Forall2_lookup_l _ _ _ _ _ HF Hj) as ([app l] & _ & Happ).
  destruct (ad_redirects _ _ _ _ _ Happ) as (fields & gs0 & Ef & _ & _ & Hfield).
  destruct (table_get_child _ _ _ _ D2 Ef H3) as [G3 _]. rewrite G3 in Hfield.
  destruct Hfield as (elements & Ee & _). destruct (array_child _ _ _ _ Ee H4) as (i & -> & Hi).
  exists (key, n2), fields, elements, i. rewrite G3. split_and!; [done|done|done|by exists n4|done].
Qed.

(** The arrows a decoded redirect stands for were bound, and every bound arrow is found. *)
Lemma decoded_redirect_ids text d doc origins (D : decoded text d doc origins) :
  exists gs, (rules_apps doc ≫= fun app => Semantic.redirect_id <$> rules_redirects app) = Desugar.redirect_id <$> gs
    /\ (forall g, g ∈ gs <-> g ∈ redirects d)
    /\ (forall g, g ∈ gs -> (Desugar.redirect_id g, origin_of g) ∈ concat (dc_new _ _ _ _ D).*2).
Proof.
  destruct D as [root bound node apps new Hp Hb Hget Htab Hsize Hschema Hdoc Horig HF]. cbn [dc_new].
  apply BindGenerated_ok in Hb as (_ & Hfrom & Hto).
  2:{ apply collect_paths_distinct. by eapply parse_distinct. }
  2:{ apply Forall_forall. by intros x [? _]%collect_reaches. }
  pose proof (parse_distinct _ _ Hp) as Hd.
  assert (as_table root = Some (root_entries root)) as Hroot
    by (unfold root_entries in *; by destruct root).
  destruct (apps_redirects bound apps new HF) as (gs & Eids & Hbound & Horigin & Hall).
  exists gs. rewrite Hdoc. split; [done|]. split; [|done]. intros g.
  split; [intros [p Hg]%Hbound; by destruct (Hfrom p g Hg)|].
  intros (p & Hp' & Hscope & Hg)%Hto. apply list_elem_of_fmap in Hp' as (x & -> & Hx).
  apply collect_reaches in Hx as (_ & q & source & entries & Eq & _ & Hr). rewrite Eq in *. cbn [Datatypes.app] in *.
  destruct (scope_path root node apps q _ bound new Hd Hroot Hget Htab HF Hscope Hr)
    as (e & fields & elements & i & He & Ef & Ee & Hi & ->).
  by eapply (Hall e fields elements i).
Qed.

(** The table that the rule of a rewritten arrow is decoded from: where it is in the tree of the parser,
    where it was written and the values it has. *)
Definition decoded_from (root : toml_node value) (text : bytes) (span : ByteSpan) (package : bytes)
    (rule : RedirectRule) : Prop :=
  exists index region entries,
    reaches root [lit "apps"; package; lit "redirect"; to_string (Z.of_nat index)] (Table region true entries)
    /\ Region text region = span
    /\ (from ← table_get entries (lit "from"); node_string from) = Some (redirect_source rule)
    /\ (to ← table_get entries (lit "to"); node_string to) = Some (redirect_target rule).

Lemma span_identity_inj s s' :
  0 <= span_end s < 2 ^ 32 -> 0 <= span_end s' < 2 ^ 32 -> span_identity s = span_identity s' -> s = s'.
Proof.
  intros He He'. unfold span_identity. rewrite !(Z.lor_comm (Z.shiftl _ _)), !lor_shiftl_add by (done || lia).
  destruct s, s'. cbn in *. intros E. f_equal; lia.
Qed.

Lemma decoded_redirect_values text d doc origins (D : decoded text d doc origins) app rule :
  (forall g, g ∈ redirects d -> 0 <= span_end (generated_table g) < 2 ^ 32) ->
  app ∈ rules_apps doc -> rule ∈ rules_redirects app ->
  exists g, g ∈ redirects d /\ Semantic.redirect_id rule = Desugar.redirect_id g
    /\ decoded_from (dc_root _ _ _ _ D) text (generated_table g) (rules_package app) rule.
Proof.
  destruct D as [root bound node apps new Hp Hb Hget Htab Hsize Hschema Hdoc Horig HF]. cbn [dc_root].
  rewrite Hdoc. intros Hspans ([app' l] & -> & Hnew)%list_elem_of_fmap Hrule. cbn in Hrule |- *.
  apply list_elem_of_lookup in Hnew as [j Hj]. destruct (Forall2_lookup_r _ _ _ _ _ HF Hj) as (e & He & Happ).
  destruct Happ as [Hpkg _ _ _ (fields & gs & Ef & Eids & _ & Hfield)]. cbn in *. rewrite Hpkg.
  pose proof (parse_distinct _ _ Hp) as Hd. apply list_elem_of_lookup in Hrule as [k Hk].
  assert (exists g, gs !! k = Some g /\ Semantic.redirect_id rule = Desugar.redirect_id g) as (g & Hg & Eid).
  { assert ((Semantic.redirect_id <$> rules_redirects app') !! k = Some (Semantic.redirect_id rule)) as H0
      by (by rewrite list_lookup_fmap, Hk).
    rewrite Eids, list_lookup_fmap in H0. destruct (gs !! k) as [g|]; [|done]. exists g. by injection H0. }
  unfold redirect_field in Hfield. destruct (table_get fields _) as [n|] eqn:En; [|by subst gs].
  destruct Hfield as (elements & Ee & [_ Hbound] & Hvals).
  destruct (Forall2_lookup_r _ _ _ _ _ Hvals Hk) as (t & Ht & entries & Et & _ & Efrom & Eto).
  pose proof (Hbound k g Hg) as Hpath. rewrite Z.add_0_l in Hpath. cbn [Datatypes.app] in Hpath.
  apply BindGenerated_ok in Hb as (_ & Hfrom & _).
  2:{ by apply collect_paths_distinct. }
  2:{ apply Forall_forall. by intros x [? _]%collect_reaches. }
  destruct (Hfrom _ _ Hpath) as (Hin & span & Hplace & Espan).
  apply list_elem_of_fmap in Hplace as (x & [= Ex ->] & Hx).
  apply collect_reaches in Hx as (_ & q & region & entries' & Eq & Eg & Hr).
  rewrite <- Ex in Eq. cbn [Datatypes.app] in Eq. subst q.
  assert (Table region true entries' = t) as <-.
  { eapply reaches_functional; [exact Hd|exact Hr|].
    apply (table_get_reaches root (root_entries root) _ node); [by unfold root_entries in *; destruct root|done|].
    apply (entry_reaches node apps e); [done|by eapply list_elem_of_lookup_2|].
    apply (table_get_reaches e.2 fields _ n); [done|done|].
    apply (element_reaches n elements k t); [done|done|constructor]. }
  exists g. split; [done|]. split; [done|]. exists k, region, entries'.
  injection Et as <-. rewrite <- Eg. split_and!; try done.
  apply span_identity_inj; [rewrite Eg; cbn; unfold ToByte; destruct (_ || _); apply u32_range|by apply Hspans|done].
Qed.
End Document.

(** ** Properties *)

Section Properties.
Context {value : Type} `{TomlValue value} (limits : RulesLimits).
Context (parse : bytes -> source_region + toml_node value).

(** The text that is given to the parser. *)
Definition rewritten (source : SourceBuffer) : DesugarResult :=
  EmitDesugaredSource source (rewrites_of 0 (candidates (ScanArrowCandidates source limits))) limits.

Lemma ParseRulesDocument_decoded source doc :
  parsed_document (ParseRulesDocument limits parse source) = Some doc ->
  let d := rewritten source in
  desugar_diagnostics d = [] /\ ParseRulesDocument limits parse source = DecodeDesugaredRules limits parse source d.
Proof.
  unfold ParseRulesDocument. destruct (ProbeRulesFormat source); [|done|done].
  destruct (negb _); [done|]. by case_bool_decide.
Qed.

(** The tables of the rewrites are in the text that is given to the parser. *)
Lemma EmitDesugaredSource_redirects source rewrites :
  size (source_bytes source) < 2 ^ 32 ->
  let d := EmitDesugaredSource source rewrites limits in
  desugar_diagnostics d = [] ->
  Forall2 redirect_for rewrites (redirects d)
  /\ Forall (fun g => table_written source (parser_input source d) g /\ 0 <= span_end (generated_table g) < 2 ^ 32)
      (redirects d).
Proof.
  intros Hfits. cbv zeta. unfold EmitDesugaredSource. destruct rewrites as [|r0 rest] eqn:Er; [split; constructor|].
  rewrite <- Er. destruct (_ <? _); [done|].
  pose proof (emit_ok source limits Hfits rewrites ltac:(by rewrite Er)) as He.
  destruct (emit source rewrites limits) as [r|d|]; [|done|done].
  destruct He as (_ & text & Hr). intros _. split; [by eapply dr_for|]. unfold parser_input.
  rewrite (dr_storage _ _ _ _ Hr). pose proof (dr_fits _ _ _ _ Hr).
  eapply Forall_impl; [by eapply dr_tables|]. intros g Hg. split; [done|].
  destruct Hg as [Hg _]. unfold span_within in Hg. lia.
Qed.

(** C31. A rules document satisfies its schema and says what the file says. The format is 1; the root,
    the compatibility table and the apps have no other fields than those of the schema, every field
    has its type, and the document holds exactly the values of the fields, or their defaults. There is
    an app at least and no more than the limit; no package appears twice; each app has a package name
    of at least two components (the code also takes a dot after the last one), its user ids are
    distinct and between 0 and 99999 and there is one at least, its processes are distinct processes
    of the package, and its rules are within the limit; no two rules of the document share an id, and
    the rules are exactly what has an origin in the file. *)
Theorem parsed_document_wellformed source doc :
  (forall text root, parse text = inr root -> keys_distinct root) ->
  let r := ParseRulesDocument limits parse source in
  parsed_document r = Some doc ->
  parsed_diagnostics r = []
  /\ (exists root, parse (parser_input source (rewritten source)) = inr root
       /\ document_schema (root_entries root) doc)
  /\ rules_apps doc <> [] /\ size (rules_apps doc) <= max_apps limits
  /\ NoDup (rules_package <$> rules_apps doc) /\ Forall (app_wellformed limits) (rules_apps doc)
  /\ NoDup (rules_apps doc ≫= app_rule_ids)
  /\ (forall id, is_Some (parsed_origins r !! id) <-> id ∈ rules_apps doc ≫= app_rule_ids).
Proof.
  intros Hdist r Hdoc. destruct (ParseRulesDocument_decoded source doc Hdoc) as [_ E]. unfold r in *. rewrite E in *.
  destruct (DecodeDesugaredRules_decoded limits parse Hdist source _ doc Hdoc) as (Hdiag & [D]).
  pose proof (decoded_ids limits parse _ _ _ _ D) as Hids.
  destruct D as [root bound node apps new Hp Hb Hget Htab [Hne Hsize] Hschema Edoc [Eo Hnd] HF]. cbn [dc_new] in *.
  assert (rules_package <$> rules_apps doc = (key_str ∘ fst) <$> apps) as Epkg.
  { rewrite Edoc. clear -HF. induction HF as [|e [app l] apps new Happ HF IH]; [done|]. cbn in *.
    by rewrite IH, (ad_package _ _ _ _ _ Happ). }
  assert (length (rules_apps doc) = length apps) as Elen by (by rewrite <- (length_fmap rules_package), Epkg, length_fmap).
  split_and!; [done|by exists root| | | | | |].
  - intros Enil. rewrite Enil in Elen. by destruct apps.
  - unfold size in *. by rewrite Elen.
  - assert (keys_distinct node) as Hkeys.
    { pose proof (Hdist _ _ Hp) as Hd. unfold root_entries in Hget. destruct root as [s i es| |]; [|done..].
      cbn in Hget. assert (exists k, (k, node) ∈ children (Table s i es)) as [k Hk].
      { clear -Hget. induction es as [|[k n] es IH]; [done|]. cbn in Hget |- *.
        case_bool_decide; [injection Hget as ->; eexists; by left|]. destruct (IH Hget) as [k' Hk]. exists k'. by right. }
      apply keys_distinct_children in Hd as [_ Hall]. rewrite Forall_forall in Hall. exact (Hall _ Hk). }
    rewrite Epkg. destruct node as [s i es| |]; [|done..]. injection Htab as ->. apply Hkeys.
  - rewrite Edoc. clear -HF. induction HF as [|e [app l] apps new Happ HF IH]; [constructor|].
    constructor; [apply Happ|done].
  - by rewrite <- Hids.
  - intros id. rewrite Eo, <- Hids. split.
    + intros [o Ho%elem_of_list_to_map_2]. apply list_elem_of_fmap. by exists (id, o).
    + intros ([id' o] & -> & Hin)%list_elem_of_fmap. exists o. by apply elem_of_list_to_map.
Qed.

(** C16. No arrow is lost, none is invented and none is turned round: the redirects of a rules document
    are exactly the arrows the scanner found in the file, each once, numbered from 1 in the order of
    the file, and the origin of each gives back the spans of its arrow. The text between which the
    arrow stood is what the redirect is decoded from: its table in the parsed text is written
    [{ from = left, to = right }] with the two operands of the arrow, and the source and the target
    of the redirect are the values the parser gives for [from] and for [to] of the table that stands
    at this very place. *)
Theorem arrow_rules_all_decoded name input source doc :
  (forall text root, parse text = inr root -> keys_distinct root) ->
  Create name input limits = Ok source ->
  let r := ParseRulesDocument limits parse source in
  let arrows := candidates (ScanArrowCandidates source limits) in
  parsed_document r = Some doc ->
  (rules_apps doc ≫= fun app => Semantic.redirect_id <$> rules_redirects app) ≡ₚ seqZ 1 (size arrows)
  /\ exists root, parse (parser_input source (rewritten source)) = inr root
  /\ forall i arrow, arrows !! i = Some arrow ->
       parsed_origins r !! (Z.of_nat i + 1)
       = Some {| origin_primary := candidate_rule arrow; origin_source := candidate_source arrow;
                 origin_arrow := candidate_arrow arrow; origin_target := candidate_target arrow;
                 has_redirect_operands := true |}
       /\ exists app rule span, app ∈ rules_apps doc /\ rule ∈ rules_redirects app
            /\ Semantic.redirect_id rule = Z.of_nat i + 1
            /\ decoded_from root (parser_input source (rewritten source)) span (rules_package app) rule
            /\ slice (parser_input source (rewritten source)) span
               = lit "{ from = " ++ slice input (candidate_source arrow) ++ lit ", to = "
                 ++ slice input (candidate_target arrow) ++ lit " }".
Proof.
  intros Hdist Hcreate r arrows Hdoc. pose proof (Create_fits _ _ _ _ Hcreate) as Hfits.
  assert (source_bytes source = input) as Einput.
  { unfold Create in Hcreate. repeat case_match; try done. by injection Hcreate as <-. }
  destruct (ParseRulesDocument_decoded source doc Hdoc) as [Hclean E]. unfold r in *. rewrite E in *.
  destruct (DecodeDesugaredRules_decoded limits parse Hdist source _ doc Hdoc) as (_ & [D]).
  destruct (decoded_redirect_ids limits parse Hdist _ _ _ _ D) as (gs & Eids & Hgs & Horigin).
  pose proof (decoded_ids limits parse _ _ _ _ D) as Hids. destruct (dc_origins _ _ _ _ _ _ D) as [Eo Hnd].
  assert (Forall2 redirect_for (rewrites_of 0 arrows) (redirects (rewritten source))
    /\ Forall (fun g => table_written source (parser_input source (rewritten source)) g
          /\ 0 <= span_end (generated_table g) < 2 ^ 32) (redirects (rewritten source))) as [Hfor Hwritten]
    by exact (EmitDesugaredSource_redirects source _ Hfits Hclean).
  set (d := rewritten source) in *.
  destruct (ScanArrowCandidates_ok source limits Hfits) as (Hok & Hsorted & _). fold arrows in Hok, Hsorted.
  pose proof (size_nonneg (source_bytes source)).
  destruct (candidates_rewrites_ok (source_bytes source) 0 0 arrows ltac:(lia) Hok Hsorted) as [_ Hcount].
  { eapply Forall_impl; [exact Hok|]. intros c [E1 _ [? _] _ _ _ _ _]. cbn beta. rewrite E1. done. }
  assert (Desugar.redirect_id <$> redirects d = seqZ 1 (size arrows)) as Edids.
  { transitivity (rewrite_id <$> rewrites_of 0 arrows).
    - clear -Hfor. induction Hfor as [|w g ws l (Hid & _) Hfor IH]; [done|]. cbn. by rewrite IH, Hid.
    - apply rewrite_ids_seq; lia. }
  split.
  - rewrite Eids, <- Edids. apply NoDup_Permutation.
    + rewrite <- Eids. rewrite Hids in Hnd. clear -Hnd. induction (rules_apps doc) as [|app l IH]; [constructor|].
      cbn in *. unfold app_rule_ids in Hnd at 1. rewrite <- app_assoc in Hnd.
      apply NoDup_app in Hnd as (_ & _ & Hnd). apply NoDup_app in Hnd as (H1 & H2 & H3). apply NoDup_app.
      split_and!; [done| |by apply IH]. intros x Hx (app' & Hx' & Happ)%list_elem_of_bind. apply (H2 x Hx).
      apply list_elem_of_bind. exists app'. split; [|done]. apply elem_of_app. by right.
    + rewrite Edids. apply NoDup_seqZ.
    + intros id. rewrite !list_elem_of_fmap. by setoid_rewrite Hgs.
  - exists (dc_root _ _ _ _ _ _ D). split; [apply dc_parse|]. intros i arrow Hi.
    destruct (rewrites_of_lookup 0 arrows i arrow Hi ltac:(lia) ltac:(lia)) as (w & Hw & Eid & Ew).
    destruct (Forall2_lookup_l _ _ _ _ _ Hfor Hw) as (g & Hg & Gid & Gr & Gs & Ga & Gt).
    assert (g ∈ gs) as Hin by (apply Hgs; by eapply list_elem_of_lookup_2).
    split.
    { rewrite Eo. apply elem_of_list_to_map; [done|]. specialize (Horigin g Hin). unfold origin_of in Horigin.
      rewrite Gid, Gr, Gs, Ga, Gt, Eid, Ew in Horigin. by rewrite Z.add_0_l in Horigin. }
    assert (Desugar.redirect_id g ∈ rules_apps doc ≫= fun app => Semantic.redirect_id <$> rules_redirects app) as Hid
      by (rewrite Eids; by apply list_elem_of_fmap_2).
    apply list_elem_of_bind in Hid as (app & (rule & Erule & Hrule)%list_elem_of_fmap & Happ).
    rewrite Forall_forall in Hwritten.
    destruct (decoded_redirect_values limits parse Hdist _ _ _ _ D app rule) as (g' & Hg' & Eid' & Hdecoded); [|done|done|].
    { intros x Hx. by apply Hwritten. }
    assert (g' = g) as ->.
    { apply list_elem_of_lookup in Hg' as [k Hk].
      assert (k = i) as ->; [|congruence].
      assert (NoDup (Desugar.redirect_id <$> redirects d)) as Hnodup by (rewrite Edids; apply NoDup_seqZ).
      refine (NoDup_lookup _ k i (Desugar.redirect_id g) Hnodup _ _); rewrite list_lookup_fmap; [rewrite Hk|rewrite Hg]; cbn; congruence. }
    destruct (Hwritten g (list_elem_of_lookup_2 _ _ _ Hg)) as [[_ Htext] _].
    exists app, rule, (generated_table g). split_and!; [done|done| |done|].
    + rewrite Eid', Gid, Eid. lia.
    + rewrite Htext, Gs, Gt, Ew, Einput. done.
Qed.
End Properties.

(** ** Examples *)

(** The loop of [IsPackageName] ends at the end of the name, also after a dot. *)
Lemma package_name_trailing_dot :
  IsPackageName (lit "com.example.") = true /\ IsPackageName (lit "com..example") = false
  /\ IsPackageName (lit "example") = false.
Proof. split_and!; reflexivity. Qed.

Definition sample_rules : bytes :=
  lit "format = 1" ++ [x0a] ++ lit "[apps.'com.a']" ++ [x0a] ++ lit "redirect = [ 'a' -> 'b' ]" ++ [x0a].

Definition sample_rules_source : SourceBuffer := {| file_name := lit "rules.toml"; source_bytes := sample_rules |}.

#[export] Instance sample_value : TomlValue (Z + bytes) :=
  {| value_int64 := fun v => match v with inl z => Some z | _ => None end;
     value_bool := fun _ => None;
     value_string := fun v => match v with inr s => Some s | _ => None end |}.

Definition sample_region (line first last : Z) : source_region :=
  {| region_begin := {| toml_line := line; toml_column := first |};
     region_end := {| toml_line := line; toml_column := last |} |}.

Definition sample_key (k : bytes) (line : Z) : toml_key := {| key_str := k; key_source := sample_region line 1 2 |}.

(** What a parser gives for the rewritten text. *)
Definition sample_tree : toml_node (Z + bytes) :=
  let leaf v := Leaf (sample_region 1 1 2) v in
  Table (sample_region 1 1 1) false
    [(sample_key (lit "apps") 2, Table (sample_region 2 1 2) false
        [(sample_key (lit "com.a") 2, Table (sample_region 2 1 2) false
            [(sample_key (lit "redirect") 3, Array (sample_region 3 12 40)
                [Table (sample_region 3 14 38) true
                   [(sample_key (lit "from") 3, leaf (inr (lit "a")));
                    (sample_key (lit "to") 3, leaf (inr (lit "b")))]])])]);
     (sample_key (lit "format") 1, leaf (inl 1))].

Definition sample_parse (text : bytes) : source_region + toml_node (Z + bytes) := inr sample_tree.

Lemma sample_parse_distinct text root : sample_parse text = inr root -> keys_distinct root.
Proof.
  intros [= <-]. cbn. repeat split; repeat constructor; rewrite ?elem_of_cons, ?elem_of_nil; try tauto;
    intros [E|[]]; vm_compute in E; discriminate.
Qed.

Lemma parsed_document_wellformed_witness :
  exists doc, parsed_document (ParseRulesDocument default_limits sample_parse sample_rules_source) = Some doc /\ rules_apps doc <> [] /\ NoDup (rules_package <$> rules_apps doc).
Proof.
  assert (exists doc, parsed_document (ParseRulesDocument default_limits sample_parse sample_rules_source) = Some doc) as [doc Hdoc] by (vm_compute; eexists; reflexivity).
  destruct (parsed_document_wellformed default_limits sample_parse sample_rules_source doc
              sample_parse_distinct Hdoc) as (_ & _ & Hne & _ & Hnd & _).
  exact (ex_intro _ doc (conj Hdoc (conj Hne Hnd))).
Defined.

Lemma arrow_rules_all_decoded_witness :
  exists doc, parsed_document (ParseRulesDocument default_limits sample_parse sample_rules_source) = Some doc
    /\ (rules_apps doc ≫= fun app => Semantic.redirect_id <$> rules_redirects app) ≡ₚ [1].
Proof.
  assert (exists doc, parsed_document (ParseRulesDocument default_limits sample_parse sample_rules_source) = Some doc) as [doc Hdoc] by (vm_compute; eexists; reflexivity).
  assert (Create (lit "rules.toml") sample_rules default_limits = Ok sample_rules_source) as Hc
    by (vm_compute; reflexivity).
  destruct (arrow_rules_all_decoded default_limits sample_parse (lit "rules.toml") sample_rules sample_rules_source doc
              sample_parse_distinct Hc Hdoc) as [Hp _].
  exact (ex_intro _ doc (conj Hdoc Hp)).
Defined.
