(* ===== verification/Tools.v ===== *)
(** * Tools of the command line (rules/src/tools.cpp)

    [LintRules], [BuildPolicyPlan] and [ExplainPath], which describe rules without changing them.
    Case folding is that of the C locale. *)

From S2P Require Import Prelude Source Policy Binary MountBackend Semantic.

Local Open Scope pg_scope.

(** ** Visual skeletons *)

(** The bytes after the lead byte, when they are continuation bytes. *)
Fixpoint continue_point (count : nat) (rest : bytes) (value : Z) : option (Z * bytes) :=
  match count with
  | O => Some (value, rest)
  | S count =>
      match rest with
      | [] => None
      | b :: rest =>
          if Z.land (byte_val b) 0xc0 != 0x80 then None
          else continue_point count rest (Z.lor (Z.shiftl value 6) (Z.land (byte_val b) 0x3f))
      end
  end.

(** [DecodeCodePoint] at an offset, [lead :: rest] being what is from there on: the value and what
    is after it. *)
Definition DecodeCodePoint (lead : byte) (rest : bytes) : Z * bytes :=
  let value := byte_val lead in
  let '(more, bits) :=
    if Z.land value 0xe0 == 0xc0 then (1%nat, Z.land value 0x1f)
    else if Z.land value 0xf0 == 0xe0 then (2%nat, Z.land value 0x0f)
    else if Z.land value 0xf8 == 0xf0 then (3%nat, Z.land value 0x07)
    else (O, value) in
  match continue_point more rest bits with
  | Some result => result
  | None => (value, rest)
  end.

Definition AppendCodePoint (value : Z) : bytes :=
  if value <=? 0x7f then [byte_of value]
  else if value <=? 0x7ff then
    [byte_of (Z.lor 0xc0 (Z.shiftr value 6)); byte_of (Z.lor 0x80 (Z.land value 0x3f))]
  else if value <=? 0xffff then
    [byte_of (Z.lor 0xe0 (Z.shiftr value 12)); byte_of (Z.lor 0x80 (Z.land (Z.shiftr value 6) 0x3f));
     byte_of (Z.lor 0x80 (Z.land value 0x3f))]
  else
    [byte_of (Z.lor 0xf0 (Z.shiftr value 18)); byte_of (Z.lor 0x80 (Z.land (Z.shiftr value 12) 0x3f));
     byte_of (Z.lor 0x80 (Z.land (Z.shiftr value 6) 0x3f)); byte_of (Z.lor 0x80 (Z.land value 0x3f))].

(** [std::tolower] of a value below 128. *)
Definition tolower (value : Z) : Z := if (65 <=? value) && (value <=? 90) then value + 32 else value.

(** What the loop appends for a code point: [None] for a combining mark. *)
Definition fold_code_point (code_point : Z) : option Z :=
  if (0x0300 <=? code_point) && (code_point <=? 0x036f) then None
  else
    let code_point :=
      if (0xff01 <=? code_point) && (code_point <=? 0xff5e) then code_point - 0xfee0 else code_point in
    Some (if code_point <=? 0x7f then tolower code_point else code_point).

(** The loop of [VisualSkeleton]. *)
Fixpoint skeleton_loop (fuel : nat) (input : bytes) : bytes :=
  match fuel, input with
  | S fuel, lead :: rest =>
      let '(code_point, rest) := DecodeCodePoint lead rest in
      match fold_code_point code_point with
      | None => skeleton_loop fuel rest
      | Some code_point => AppendCodePoint code_point ++ skeleton_loop fuel rest
      end
  | _, _ => []
  end.

Definition VisualSkeleton (input : bytes) : bytes := skeleton_loop (length input) input.

(** ** [LintRules] *)

Definition kLintLegacy : bytes := lit "PG-LINT-LEGACY".
Definition kLintUnicode : bytes := lit "PG-LINT-UNICODE".

Record PathRef : Type := { ref_bytes : bytes; ref_id : Z }.

Definition lint_warning (c key : bytes) (span : ByteSpan) (related_to : list RelatedSpan) : Diagnostic :=
  {| code := c; message_key := key; primary := span; omitted := false; severity := kWarning; phase := kSemantic;
     related := related_to; field_path := []; arguments := [] |}.

(** The paths of an app, in the order of the loops. *)
Definition app_paths (app : ResolvedAppPolicy) : list PathRef :=
  ((fun d => {| ref_bytes := path_bytes (resolved_deny_path d); ref_id := resolved_deny_id d |}) <$> resolved_deny app)
  ++ (resolved_redirects app ≫= fun r =>
        [{| ref_bytes := path_bytes (resolved_source r); ref_id := resolved_id r |};
         {| ref_bytes := path_bytes (resolved_target r); ref_id := resolved_id r |}]).

Section Lint.
Context (limits : RulesLimits) (origins : OriginMap).

Definition push (output : list Diagnostic) (d : Diagnostic) : list Diagnostic :=
  if size output <? max_diagnostics limits then output ++ [d] else output.

Definition near_warning (path found : PathRef) : Diagnostic :=
  lint_warning kLintUnicode (lit "rules.lint_unicode_near") (OriginSpan origins (ref_id path))
    [{| related_span := OriginSpan origins (ref_id found); related_message_key := lit "near_path" |}].

(** The loop over the paths of an app. *)
Fixpoint lint_paths (paths : list PathRef) (skeletons : gmap bytes PathRef) (output : list Diagnostic)
    : list Diagnostic :=
  match paths with
  | [] => output
  | path :: rest =>
      let skeleton := VisualSkeleton (ref_bytes path) in
      match skeletons !! skeleton with
      | None => lint_paths rest (<[skeleton := path]> skeletons) output
      | Some found =>
          lint_paths rest skeletons
            (if ref_bytes found != ref_bytes path then push output (near_warning path found) else output)
      end
  end.

Definition LintRules (result : RulesBuildResult) : list Diagnostic :=
  let output := filter (fun d => severity d = kWarning) (build_diagnostics result) in
  match build_resolved result with
  | None => output
  | Some resolved =>
      let output :=
        if resolved_allow_legacy_mount resolved
        then push output (lint_warning kLintLegacy (lit "rules.lint_legacy") no_span []) else output in
      fold_left (fun output app => lint_paths (app_paths app) ∅ output) (resolved_apps resolved) output
  end.
End Lint.

(** ** [BuildPolicyPlan] *)

Inductive PolicyChangeKind : Set := kAdd | kRemove | kModify.

Inductive PolicyRuleKind : Set := kRuleDeny | kRuleRedirect.

#[export] Instance PolicyRuleKind_eq_dec : EqDecision PolicyRuleKind.
Proof. solve_decision. Defined.

Definition rule_kind_value (k : PolicyRuleKind) : Z := match k with kRuleDeny => 0 | kRuleRedirect => 1 end.

(** [PlanKey] with the value of the enumerator: the package, the kind and the source. *)
Abbreviation PlanKey := (bytes * (Z * bytes))%type.

Record PolicyChange : Type := {
  change_kind : PolicyChangeKind;
  (** the rule kind, the package and the source *)
  change_key : PlanKey;
  before_target : bytes;
  after_target : bytes;
}.

(** [std::map::emplace] on the entries in order: an entry that is there stays. *)
Fixpoint emplace (key : PlanKey) (value : bytes) (entries : list (PlanKey * bytes)) : list (PlanKey * bytes) :=
  match entries with
  | [] => [(key, value)]
  | (k, v) :: rest =>
      match cmp key k with
      | Lt => (key, value) :: entries
      | Eq => entries
      | Gt => (k, v) :: emplace key value rest
      end
  end.

(** What the loops insert for an app, in their order. *)
Definition app_entries (app : CanonicalAppPolicy) : list (PlanKey * bytes) :=
  ((fun path => ((canonical_package app, (rule_kind_value kRuleDeny, path_bytes path)), [])) <$> canonical_deny app)
  ++ ((fun r => ((canonical_package app, (rule_kind_value kRuleRedirect, path_bytes (canonical_source r))),
                 path_bytes (canonical_target r))) <$> canonical_redirects app).

Definition IndexPolicy (policy : CanonicalPolicy) : list (PlanKey * bytes) :=
  fold_left (fun output entry => emplace entry.1 entry.2 output) (canonical_apps policy ≫= app_entries) [].

(** The loop over the two indexes, which ends when both do. *)
Fixpoint plan_loop (fuel : nat) (old_rules new_rules : list (PlanKey * bytes)) : list PolicyChange :=
  match fuel with
  | O => []
  | S fuel =>
      let removed k v rest :=
        {| change_kind := kRemove; change_key := k; before_target := v; after_target := [] |}
          :: plan_loop fuel rest new_rules in
      let added k v rest :=
        {| change_kind := kAdd; change_key := k; before_target := []; after_target := v |}
          :: plan_loop fuel old_rules rest in
      match old_rules, new_rules with
      | [], [] => []
      | (k, v) :: rest, [] => removed k v rest
      | [], (k, v) :: rest => added k v rest
      | (old_key, old_value) :: old_rest, (new_key, new_value) :: new_rest =>
          if key_lt old_key new_key then removed old_key old_value old_rest
          else if key_lt new_key old_key then added new_key new_value new_rest
          else
            (if old_value != new_value
             then [{| change_kind := kModify; change_key := old_key; before_target := old_value;
                      after_target := new_value |}]
             else []) ++ plan_loop fuel old_rest new_rest
      end
  end.

Definition BuildPolicyPlan (before after : CanonicalPolicy) : list PolicyChange :=
  let old_index := IndexPolicy before in
  let new_index := IndexPolicy after in
  plan_loop (length old_index + length new_index) old_index new_index.

(** ** [ExplainPath] *)

Record PathExplanation : Type := {
  explained_package : bytes;
  explained_query : bytes;
  explained_action : option PolicyRuleKind;
  explained_source : option bytes;
  explained_target : option bytes;
  shadowed_parents : list bytes;
}.

Record Match : Type := {
  match_action : PolicyRuleKind;
  match_source : bytes;
  match_target : option bytes;
}.

Definition match_key (m : Match) : bytes * Z := (match_source m, rule_kind_value (match_action m)).

Definition covering (app : ResolvedAppPolicy) (query : NormalizedPath) : list Match :=
  ((fun d => {| match_action := kRuleDeny; match_source := path_bytes (resolved_deny_path d); match_target := None |})
     <$> filter (fun d => IsSameOrAncestor (resolved_deny_path d) query = true) (resolved_deny app))
  ++ ((fun r => {| match_action := kRuleRedirect; match_source := path_bytes (resolved_source r);
                   match_target := Some (path_bytes (resolved_target r)) |})
        <$> filter (fun r => IsSameOrAncestor (resolved_source r) query = true) (resolved_redirects app)).

(** [std::max_element] by the size of the source: the first of the largest, its index and itself. *)
Fixpoint longest_match (best : nat * Match) (index : nat) (matches : list Match) : nat * Match :=
  match matches with
  | [] => best
  | m :: rest =>
      longest_match (if size (match_source best.2) <? size (match_source m) then (index, m) else best) (S index) rest
  end.

Definition ExplainPath (limits : RulesLimits) (policy : ResolvedPolicy) (package path : bytes) : PathExplanation :=
  let nothing := {| explained_package := package; explained_query := path; explained_action := None;
                    explained_source := None; explained_target := None; shadowed_parents := [] |} in
  match NormalizeRulePath limits path with
  | None => nothing
  | Some query =>
      match list_find (fun app => resolved_package app = package) (resolved_apps policy) with
      | None => nothing
      | Some (_, app) =>
          match sort_by match_key (covering app query) with
          | [] => nothing
          | first :: rest =>
              let '(index, longest) := longest_match (O, first) 1 rest in
              {| explained_package := package; explained_query := path;
                 explained_action := Some (match_action longest);
                 explained_source := Some (match_source longest);
                 explained_target := match_target longest;
                 shadowed_parents := sort_by id (match_source <$> delete index (first :: rest)) |}
          end
      end
  end.

(** ** Lemmas: the policy plan *)

Abbreviation Entry := (PlanKey * bytes)%type.

(** The rules of a policy: the first one of a key counts. *)
Definition rules_of (policy : CanonicalPolicy) : gmap PlanKey bytes :=
  list_to_map (canonical_apps policy ≫= app_entries).

Lemma lookup_below (k : PlanKey) (l : list Entry) :
  Forall (fun e => cmp k e.1 = Lt) l -> (list_to_map l : gmap PlanKey bytes) !! k = None.
Proof.
  intros Hl. apply not_elem_of_list_to_map_1. intros ([k' v] & -> & Hin)%list_elem_of_fmap.
  rewrite Forall_forall in Hl. specialize (Hl _ Hin). cbn [fst] in Hl. by rewrite cmp_refl in Hl.
Qed.

Lemma emplace_below (key k : PlanKey) v (l : list Entry) :
  cmp k key = Lt -> Forall (fun e => cmp k e.1 = Lt) l -> Forall (fun e => cmp k e.1 = Lt) (emplace key v l).
Proof.
  intros Hk. induction 1 as [|[k' v'] l Hx Hl IH]; cbn [emplace]; [by constructor|].
  destruct (cmp key k'); repeat constructor; done.
Qed.

Lemma emplace_sorted key v (l : list Entry) : strictly_sorted_by fst l -> strictly_sorted_by fst (emplace key v l).
Proof.
  unfold strictly_sorted_by. induction 1 as [|[k' v'] l Hl IH Hx]; cbn [emplace]; [by repeat constructor|].
  destruct (cmp key k') eqn:E.
  - by constructor.
  - constructor; [by constructor|]. constructor; [done|]. eapply Forall_impl; [exact Hx|].
    intros e He. cbn [fst] in *. by eapply cmp_lt_trans.
  - constructor; [done|]. apply emplace_below; [|done]. cbn [fst]. by rewrite (cmp_opp key k'), E.
Qed.

Lemma emplace_map key v (l : list Entry) :
  strictly_sorted_by fst l ->
  (list_to_map (emplace key v l) : gmap PlanKey bytes) = list_to_map l ∪ {[key := v]}.
Proof.
  unfold strictly_sorted_by. induction 1 as [|[k' v'] l Hl IH Hx]; cbn [emplace].
  { cbn. by rewrite map_empty_union, insert_empty. }
  destruct (cmp key k') eqn:E.
  - apply cmp_eq in E as ->. cbn. rewrite <- insert_union_l. apply map_eq. intros k.
    destruct (decide (k = k')) as [->|]; [by rewrite !lookup_insert_eq|].
    rewrite !lookup_insert_ne by done. by rewrite lookup_union, lookup_singleton_ne, option_union_right_id by done.
  - change (list_to_map ((key, v) :: (k', v') :: l) : gmap PlanKey bytes)
      with (<[key := v]> (list_to_map ((k', v') :: l) : gmap PlanKey bytes)).
    assert ((list_to_map ((k', v') :: l) : gmap PlanKey bytes) !! key = None) as Hnone.
    { apply lookup_below. constructor; [done|]. eapply Forall_impl; [exact Hx|].
      intros e He. cbn [fst] in *. by eapply cmp_lt_trans. }
    rewrite <- insert_union_singleton_r by done. done.
  - cbn. rewrite IH. by rewrite insert_union_l.
Qed.

Lemma IndexPolicy_spec policy :
  strictly_sorted_by fst (IndexPolicy policy) /\ (list_to_map (IndexPolicy policy) : gmap PlanKey bytes) = rules_of policy.
Proof.
  unfold IndexPolicy, rules_of. generalize (canonical_apps policy ≫= app_entries). intros entries.
  assert (forall index, strictly_sorted_by fst index ->
    let index' := fold_left (fun output (entry : Entry) => emplace entry.1 entry.2 output) entries index in
    strictly_sorted_by fst index'
    /\ (list_to_map index' : gmap PlanKey bytes) = list_to_map index ∪ list_to_map entries) as H.
  { induction entries as [|[k v] entries IH]; intros index Hi; cbn.
    - by rewrite map_union_empty.
    - destruct (IH (emplace k v index)) as [Hs Hm]; [by apply emplace_sorted|]. split; [done|].
      rewrite Hm, emplace_map by done. rewrite <- (assoc_L (∪)). f_equal. by rewrite <- insert_union_singleton_l. }
  destruct (H []) as [Hs Hm]; [constructor|]. split; [done|]. rewrite Hm. cbn. by rewrite map_empty_union.
Qed.

(** The change of the rule of a key. *)
Definition change_of (k : PlanKey) (before after : option bytes) : option PolicyChange :=
  match before, after with
  | None, None => None
  | Some v, None => Some {| change_kind := kRemove; change_key := k; before_target := v; after_target := [] |}
  | None, Some v => Some {| change_kind := kAdd; change_key := k; before_target := []; after_target := v |}
  | Some v, Some w =>
      if v != w then Some {| change_kind := kModify; change_key := k; before_target := v; after_target := w |} else None
  end.

Lemma change_of_key k before after c : change_of k before after = Some c -> change_key c = k.
Proof. unfold change_of. destruct before, after; try case_match; by intros [= <-]. Qed.

(** What the loop gives for two sorted indexes, all of whose keys are above [low]. *)
Record planned (old_rules new_rules : list Entry) (changes : list PolicyChange) : Prop := {
  planned_sorted : strictly_sorted_by change_key changes;
  planned_exact : forall c, c ∈ changes <->
    change_of (change_key c) ((list_to_map old_rules : gmap PlanKey bytes) !! change_key c)
      ((list_to_map new_rules : gmap PlanKey bytes) !! change_key c) = Some c;
}.

(** One more key, below all others, on one side or on both. *)
Lemma planned_cons k old_value new_value old_rules new_rules changes :
  planned old_rules new_rules changes ->
  Forall (fun e => cmp k e.1 = Lt) old_rules -> Forall (fun e => cmp k e.1 = Lt) new_rules ->
  planned (match old_value with Some v => [(k, v)] | None => [] end ++ old_rules)
    (match new_value with Some v => [(k, v)] | None => [] end ++ new_rules)
    (match change_of k old_value new_value with Some c => [c] | None => [] end ++ changes).
Proof.
  intros [Hs He] Ho Hn. pose proof (lookup_below _ _ Ho) as Eo. pose proof (lookup_below _ _ Hn) as En.
  assert (forall value (l : list Entry) k', k' <> k ->
    (list_to_map (match value with Some v => [(k, v)] | None => [] end ++ l) : gmap PlanKey bytes) !! k'
    = (list_to_map l : gmap PlanKey bytes) !! k') as Hother.
  { intros [v|] l k' Hk; cbn; [by rewrite lookup_insert_ne|done]. }
  assert (forall value (l : list Entry), (list_to_map l : gmap PlanKey bytes) !! k = None ->
    (list_to_map (match value with Some v => [(k, v)] | None => [] end ++ l) : gmap PlanKey bytes) !! k = value) as Hsame.
  { intros [v|] l Hk; cbn; [by rewrite lookup_insert_eq|done]. }
  assert (forall c, c ∈ changes -> cmp k (change_key c) = Lt) as Hbelow.
  { intros c Hc. apply He in Hc.
    assert (is_Some ((list_to_map old_rules : gmap PlanKey bytes) !! change_key c)
            \/ is_Some ((list_to_map new_rules : gmap PlanKey bytes) !! change_key c)) as Hin.
    { destruct ((list_to_map old_rules : gmap PlanKey bytes) !! change_key c); [by left|].
      destruct ((list_to_map new_rules : gmap PlanKey bytes) !! change_key c); [by right|done]. }
    rewrite Forall_forall in Ho, Hn.
    destruct Hin as [[v Hv%elem_of_list_to_map_2]|[v Hv%elem_of_list_to_map_2]]; [by apply Ho in Hv|by apply Hn in Hv]. }
  split.
  - destruct (change_of k old_value new_value) as [c|] eqn:Ec; [|done]. apply change_of_key in Ec.
    constructor; [done|]. apply Forall_forall. intros c' Hc'. rewrite Ec. by apply Hbelow.
  - intros c. rewrite elem_of_app. destruct (decide (change_key c = k)) as [Ek|Ek].
    + rewrite Ek, !Hsame by done. split.
      * intros [Hc|Hc]; [|apply Hbelow in Hc; by rewrite Ek, cmp_refl in Hc].
        destruct (change_of _ _ _); [by apply list_elem_of_singleton in Hc as ->|by apply elem_of_nil in Hc].
      * intros ->. left. by apply list_elem_of_singleton.
    + rewrite !Hother by done. rewrite He. split; [|by right]. intros [Hc|Hc]; [|done].
      destruct (change_of _ _ _) as [c'|] eqn:Ec; [|by apply elem_of_nil in Hc].
      apply list_elem_of_singleton in Hc as ->. by apply change_of_key in Ec.
Qed.

Lemma plan_loop_planned fuel old_rules new_rules :
  (length old_rules + length new_rules <= fuel)%nat ->
  strictly_sorted_by fst old_rules -> strictly_sorted_by fst new_rules ->
  planned old_rules new_rules (plan_loop fuel old_rules new_rules).
Proof.
  assert (forall k k' (l : list Entry), cmp k k' = Lt -> Forall (fun e => cmp k' e.1 = Lt) l ->
            Forall (fun e => cmp k e.1 = Lt) l) as Htrans.
  { intros k k' l Hk Hl. eapply Forall_impl; [exact Hl|]. intros e He. by eapply cmp_lt_trans. }
  revert old_rules new_rules. induction fuel as [|fuel IH]; intros old_rules new_rules Hf Ho Hn.
  { destruct old_rules, new_rules; cbn in Hf; try lia. split; [constructor|].
    intros c. split; [by intros ?%elem_of_nil|done]. }
  destruct old_rules as [|[k v] old_rest], new_rules as [|[k' v'] new_rest]; cbn [plan_loop]; cbn in Hf.
  - split; [constructor|]. intros c. split; [by intros ?%elem_of_nil|done].
  - inversion Hn as [|? ? Hn' Hk']; subst.
    apply (planned_cons k' None (Some v') [] new_rest); [apply IH; [cbn; lia|done|done]|constructor|done].
  - inversion Ho as [|? ? Ho' Hk]; subst.
    apply (planned_cons k (Some v) None old_rest []); [apply IH; [cbn; lia|done|done]|done|constructor].
  - inversion Ho as [|? ? Ho' Hk]; subst. inversion Hn as [|? ? Hn' Hk']; subst. cbn [fst] in Hk, Hk'.
    destruct (key_lt k k') eqn:E1; [|destruct (key_lt k' k) eqn:E2].
    + apply key_lt_true in E1.
      apply (planned_cons k (Some v) None old_rest ((k', v') :: new_rest)); [apply IH; [cbn; lia|done|done]|done|].
      constructor; [done|by eapply Htrans].
    + apply key_lt_true in E2.
      apply (planned_cons k' None (Some v') ((k, v) :: old_rest) new_rest); [apply IH; [cbn; lia|done|done]| |done].
      constructor; [done|by eapply Htrans].
    + assert (k = k') as <-.
      { apply cmp_eq. unfold key_lt in *. rewrite (cmp_opp k k') in E2. by destruct (cmp k k'). }
      pose proof (planned_cons k (Some v) (Some v') old_rest new_rest _
        (IH old_rest new_rest ltac:(lia) Ho' Hn') Hk Hk') as H.
      cbn in H. by destruct (v != v').
Qed.

(** Carrying a change out. *)
Definition apply_change (rules : gmap PlanKey bytes) (c : PolicyChange) : gmap PlanKey bytes :=
  match change_kind c with
  | kRemove => delete (change_key c) rules
  | kAdd | kModify => <[change_key c := after_target c]> rules
  end.

Lemma apply_change_lookup rules c k before after :
  change_of (change_key c) before after = Some c ->
  apply_change rules c !! k = if decide (k = change_key c) then after else rules !! k.
Proof.
  unfold change_of, apply_change.
  destruct before as [v|], after as [w|]; [case_match; [|done]| | |done]; intros <-%(inj Some); cbn;
    destruct (decide (k = _)) as [->|]; by rewrite ?lookup_insert_eq, ?lookup_insert_ne, ?lookup_delete_eq, ?lookup_delete_ne.
Qed.

(** Changes of distinct keys that lead from one map to another. *)
Lemma apply_changes_lookup (changes : list PolicyChange) (before after rules : gmap PlanKey bytes) k :
  strictly_sorted_by change_key changes ->
  (forall c, c ∈ changes -> change_of (change_key c) (before !! change_key c) (after !! change_key c) = Some c) ->
  fold_left apply_change changes rules !! k
  = if decide (k ∈ change_key <$> changes) then after !! k else rules !! k.
Proof.
  intros Hs. revert rules. induction Hs as [|c changes Hs IH Hc]; intros rules Hchanges; [done|].
  cbn [fold_left fmap list_fmap]. rewrite IH by (intros; apply Hchanges; by right).
  specialize (Hchanges c (list_elem_of_here _ _)).
  destruct (decide (k ∈ change_key <$> changes)) as [Hk|Hk]; [by rewrite decide_True by by right|].
  rewrite (apply_change_lookup _ _ _ _ _ Hchanges).
  destruct (decide (k = change_key c)) as [->|Hne]; [by rewrite decide_True by left|].
  rewrite decide_False; [done|]. by intros [?|?]%elem_of_cons.
Qed.

Lemma change_of_none k before after : change_of k before after = None -> before = after.
Proof. unfold change_of. destruct before, after; try done. case_bool_decide; [by subst|done]. Qed.

(** ** Lemmas: the explanation of a path *)

(** The rules of the app of the package that cover the path. *)
Definition matches_of (limits : RulesLimits) (policy : ResolvedPolicy) (package path : bytes) : list Match :=
  match NormalizeRulePath limits path, list_find (fun app => resolved_package app = package) (resolved_apps policy) with
  | Some query, Some (_, app) => covering app query
  | _, _ => []
  end.

Lemma covering_covers app query m : m ∈ covering app query -> covers (match_source m) (path_bytes query).
Proof.
  unfold covering. rewrite elem_of_app.
  intros [(r & -> & [Hr _]%list_elem_of_filter)%list_elem_of_fmap|(r & -> & [Hr _]%list_elem_of_filter)%list_elem_of_fmap];
    by apply covers_ancestor.
Qed.

(** Of two paths that cover a third one the shorter covers the longer. *)
Lemma covers_chain a b p : covers a p -> covers b p -> size a <= size b -> covers a b.
Proof.
  unfold covers, size. intros [->|[ra Ea]] [->|[rb Eb]] Hs; subst.
  - by left.
  - rewrite length_app in Hs. cbn in Hs. lia.
  - right. by exists ra.
  - apply app_eq_app in Eb as [mid [[-> Eb]|[-> Ea]]].
    + rewrite length_app in Hs. destruct mid as [|c mid]; [left; by rewrite app_nil_r|cbn in Hs; lia].
    + destruct mid as [|c mid]; [left; by rewrite app_nil_r|]. injection Ea as <- _. right. by exists mid.
Qed.

Lemma longest_match_spec (matches : list Match) best_index best index (all : list Match) :
  all !! best_index = Some best ->
  (forall i m, all !! (index + i)%nat = Some m <-> matches !! i = Some m) ->
  (forall i m, (i < index)%nat -> all !! i = Some m ->
     size (match_source m) <= size (match_source best)
     /\ ((i < best_index)%nat -> size (match_source m) < size (match_source best))) ->
  (best_index < index)%nat ->
  let '(i, m) := longest_match (best_index, best) index matches in
  all !! i = Some m
  /\ forall j m', all !! j = Some m' ->
       size (match_source m') <= size (match_source m)
       /\ ((j < i)%nat -> size (match_source m') < size (match_source m)).
Proof.
  revert best_index best index. induction matches as [|m rest IH]; intros best_index best index Hb Hall Hbest Hlt;
    cbn [longest_match].
  { split; [done|]. intros j m' Hj. apply Hbest; [|done]. destruct (decide (j < index)%nat); [done|].
    specialize (Hall (j - index)%nat m'). rewrite lookup_nil in Hall.
    replace (index + (j - index))%nat with j in Hall by lia. apply Hall in Hj. done. }
  assert (all !! index = Some m) as Hm by (by rewrite <- (Nat.add_0_r index); apply Hall).
  cbn [snd]. destruct (Z.ltb_spec (size (match_source best)) (size (match_source m))).
  - apply IH; [done| | |lia].
    + intros i m'. rewrite <- (Hall (S i)). by replace (S index + i)%nat with (index + S i)%nat by lia.
    + intros i m' Hi Hm'. destruct (decide (i = index)) as [->|].
      * rewrite Hm in Hm'. injection Hm' as <-. lia.
      * destruct (Hbest i m') as [H1 _]; [lia|done|]. lia.
  - apply IH; [done| | |lia].
    + intros i m'. rewrite <- (Hall (S i)). by replace (S index + i)%nat with (index + S i)%nat by lia.
    + intros i m' Hi Hm'. destruct (decide (i = index)) as [->|].
      * rewrite Hm in Hm'. injection Hm' as <-. lia.
      * apply Hbest; [lia|done].
Qed.

Lemma StronglySorted_lookup {A} (R : A -> A -> Prop) (l : list A) i j x y :
  StronglySorted R l -> l !! i = Some x -> l !! j = Some y -> (i < j)%nat -> R x y.
Proof.
  intros Hs. revert i j. induction Hs as [|z l Hs IH Hz]; intros i j; [done|].
  destruct i as [|i], j as [|j]; cbn; intros Hi Hj Hlt; try lia; [|apply (IH i j); [done|done|lia]].
  injection Hi as <-. rewrite Forall_forall in Hz. apply Hz. by eapply list_elem_of_lookup_2.
Qed.

Lemma ExplainPath_spec limits policy package path :
  let e := ExplainPath limits policy package path in
  let matches := matches_of limits policy package path in
  explained_package e = package /\ explained_query e = path
  /\ (matches = [] /\ explained_action e = None /\ explained_source e = None /\ explained_target e = None
        /\ shadowed_parents e = []
      \/ exists m others,
           matches ≡ₚ m :: others /\ explained_action e = Some (match_action m)
           /\ explained_source e = Some (match_source m) /\ explained_target e = match_target m
           /\ shadowed_parents e = sort_by id (match_source <$> others)
           /\ forall m', m' ∈ others ->
                size (match_source m') <= size (match_source m)
                /\ (match_source m' = match_source m -> match_action m = kRuleRedirect -> match_action m' = kRuleRedirect)).
Proof.
  cbv zeta. unfold ExplainPath, matches_of.
  destruct (NormalizeRulePath limits path) as [query|]; [|by split_and!; [..|left]].
  destruct (list_find _ _) as [[i app]|]; [|by split_and!; [..|left]].
  pose proof (sort_by_perm match_key (covering app query)) as Hp.
  pose proof (sort_by_sorted match_key (covering app query)) as Hs.
  destruct (sort_by match_key (covering app query)) as [|first rest].
  { apply Permutation_nil_l in Hp. rewrite Hp. by split_and!; [..|left]. }
  pose proof (longest_match_spec rest 0 first 1 (first :: rest) eq_refl) as Hl.
  destruct (longest_match (0%nat, first) 1 rest) as [index m].
  destruct Hl as [Hm Hmax]; [done| |lia|].
  { intros j m' Hj Hm'. destruct j; [|lia]. injection Hm' as ->. lia. }
  cbn. split_and!; [done|done|]. right. exists m, (delete index (first :: rest)).
  split_and!; [by rewrite <- Hp; apply delete_Permutation|done..|].
  intros m' Hin. apply list_elem_of_lookup in Hin as [j Hj].
  assert (exists k, (first :: rest) !! k = Some m' /\ k <> index) as (k & Hk & Hne).
  { destruct (decide (j < index)%nat).
    - exists j. rewrite list_lookup_delete_lt in Hj by done. split; [done|lia].
    - exists (S j). rewrite list_lookup_delete_ge in Hj by lia. split; [done|lia]. }
  destruct (Hmax k m' Hk) as [Hle Hlt]. split; [done|]. intros Esrc Hredirect.
  assert (index < k)%nat as Hafter.
  { destruct (decide (k < index)%nat) as [Hki|]; [|lia]. specialize (Hlt Hki). rewrite Esrc in Hlt. lia. }
  pose proof (StronglySorted_lookup _ _ _ _ _ _ Hs Hm Hk Hafter) as Hle'. unfold match_key in Hle'. cbn in Hle'.
  rewrite Esrc, Hredirect in Hle'. unfold pair_compare in Hle'. cbn [fst snd] in Hle'. rewrite cmp_refl in Hle'.
  by destruct (match_action m').
Qed.

(** ** Lemmas: visual skeletons *)

Definition point_range (v : Z) : Prop := 0 <= v < 2 ^ 21.

Lemma lor_low_add low high k : 0 <= k -> 0 <= low < 2 ^ k -> Z.lor (Z.shiftl high k) low = high * 2 ^ k + low.
Proof. intros Hk Hl. rewrite Z.lor_comm, lor_shiftl_add by done. lia. Qed.

Lemma land_low v k : 0 <= k -> Z.land v (2 ^ k - 1) = v mod 2 ^ k.
Proof. intros Hk. rewrite <- Z.land_ones by done. f_equal. by rewrite Z.ones_equiv, Z.sub_1_r. Qed.

Lemma continue_point_spec count rest value v rest' k :
  continue_point count rest value = Some (v, rest') -> 0 <= value < k ->
  0 <= v < k * 64 ^ Z.of_nat count /\ (length rest' <= length rest)%nat.
Proof.
  revert rest value k. induction count as [|count IH]; intros rest value k; cbn [continue_point].
  { intros [= <- <-] Hv. cbn. split; lia. }
  destruct rest as [|b rest]; [done|]. case_bool_decide; [|done]. cbn [negb]. intros E Hv.
  change 0x3f with (2 ^ 6 - 1) in E. rewrite land_low in E by lia.
  pose proof (Z.mod_pos_bound (byte_val b) (2 ^ 6) ltac:(lia)) as Hb. rewrite lor_low_add in E by lia.
  apply (IH _ _ (k * 64)) in E as [H1 H2]; [|change (2 ^ 6) with 64 in *; lia]. split; [|cbn; lia].
  replace (Z.of_nat (S count)) with (1 + Z.of_nat count) by lia. rewrite Z.pow_add_r by lia. lia.
Qed.

Lemma DecodeCodePoint_spec lead rest :
  point_range (DecodeCodePoint lead rest).1 /\ (length (DecodeCodePoint lead rest).2 <= length rest)%nat.
Proof.
  pose proof (byte_val_range lead) as Hb. unfold DecodeCodePoint, point_range.
  assert (forall count bits k, 0 <= bits < k -> k * 64 ^ Z.of_nat count <= 2 ^ 21 ->
    0 <= (match continue_point count rest bits with Some result => result | None => (byte_val lead, rest) end).1 < 2 ^ 21
    /\ (length (match continue_point count rest bits with Some result => result | None => (byte_val lead, rest) end).2
        <= length rest)%nat) as H.
  { intros count bits k Hv Hk. destruct (continue_point count rest bits) as [[v rest']|] eqn:E; cbn; [|lia].
    apply (continue_point_spec _ _ _ _ _ k) in E as [? ?]; [lia|done]. }
  assert (forall k, 0 <= k -> 0 <= Z.land (byte_val lead) (2 ^ k - 1) < 2 ^ k) as Hlow.
  { intros k Hk. rewrite land_low by done. apply Z.mod_pos_bound. lia. }
  case_bool_decide; [apply (H 1%nat _ 32); [exact (Hlow 5 ltac:(lia))|cbn; lia]|].
  case_bool_decide; [apply (H 2%nat _ 16); [exact (Hlow 4 ltac:(lia))|cbn; lia]|].
  case_bool_decide; [apply (H 3%nat _ 8); [exact (Hlow 3 ltac:(lia))|cbn; lia]|].
  apply (H 0%nat _ 256); [lia|cbn; lia].
Qed.

(** The bytes of an encoded code point, told apart by their high bits. *)
Lemma lead_byte_bits base low k :
  0 <= k <= 8 -> 0 <= low < 2 ^ k -> base mod 2 ^ k = 0 -> 0 <= base -> base + low < 256 ->
  byte_val (byte_of (Z.lor base low)) = base + low.
Proof.
  intros Hk Hl Hb Hb0 Hs. rewrite byte_val_of.
  replace base with (Z.shiftl (base / 2 ^ k) k) at 1.
  - rewrite lor_low_add by lia. rewrite Z.mod_small; pose proof (Z.div_mod base (2 ^ k) ltac:(lia)); nia.
  - rewrite Z.shiftl_mul_pow2 by lia. pose proof (Z.div_mod base (2 ^ k) ltac:(lia)). lia.
Qed.

Definition tail_byte (low : Z) : byte := byte_of (Z.lor 0x80 low).

Lemma tail_byte_val low : 0 <= low < 64 -> byte_val (tail_byte low) = 128 + low.
Proof. intros Hl. unfold tail_byte. apply (lead_byte_bits 0x80 low 6); first [reflexivity|change (2 ^ 6) with 64; lia|lia]. Qed.

Lemma continue_point_tail count low rest value :
  0 <= low < 64 -> continue_point (S count) (tail_byte low :: rest) value = continue_point count rest (value * 64 + low).
Proof.
  intros Hl. cbn [continue_point]. rewrite tail_byte_val by done.
  assert (Z.land (128 + low) 0xc0 = 0x80 /\ Z.land (128 + low) 0x3f = low) as [-> ->].
  { assert (forallb (fun l => (Z.land (128 + l) 0xc0 =? 0x80) && (Z.land (128 + l) 0x3f =? l)) (seqZ 0 64) = true)
      as H by (vm_compute; reflexivity).
    rewrite forallb_forall in H. specialize (H low). rewrite <- list_elem_of_In, elem_of_seqZ in H.
    specialize (H ltac:(lia)). lia. }
  rewrite bool_decide_eq_true_2 by done. cbn [negb]. by rewrite lor_low_add by lia.
Qed.

(** The four lengths. *)
Lemma lead_tests base bound count mask low rest :
  (base, bound, count, mask) ∈ [(0xc0, 32, 1%nat, 0x1f); (0xe0, 16, 2%nat, 0x0f); (0xf0, 8, 3%nat, 0x07)] ->
  0 <= low < bound ->
  DecodeCodePoint (byte_of (Z.lor base low)) rest
  = match continue_point count rest low with Some result => result | None => (base + low, rest) end.
Proof.
  intros Hin Hl.
  assert (byte_val (byte_of (Z.lor base low)) = base + low
    /\ (forall A (x y z w : A),
          (if Z.land (base + low) 0xe0 == 0xc0 then x else if Z.land (base + low) 0xf0 == 0xe0 then y
           else if Z.land (base + low) 0xf8 == 0xf0 then z else w)
          = match count with 1%nat => x | 2%nat => y | _ => z end)
    /\ Z.land (base + low) mask = low) as (Ev & Ec & Em).
  { assert (forallb (fun '(base, bound, count, mask) => forallb (fun low =>
        (byte_val (byte_of (Z.lor base low)) =? base + low) && (Z.land (base + low) mask =? low)
        && (match count with
            | 1%nat => Z.land (base + low) 0xe0 =? 0xc0
            | 2%nat => negb (Z.land (base + low) 0xe0 =? 0xc0) && (Z.land (base + low) 0xf0 =? 0xe0)
            | _ => negb (Z.land (base + low) 0xe0 =? 0xc0) && negb (Z.land (base + low) 0xf0 =? 0xe0)
                   && (Z.land (base + low) 0xf8 =? 0xf0)
            end)) (seqZ 0 bound))
        [(0xc0, 32, 1%nat, 0x1f); (0xe0, 16, 2%nat, 0x0f); (0xf0, 8, 3%nat, 0x07)] = true) as H
      by (vm_compute; reflexivity).
    rewrite forallb_forall in H. rewrite list_elem_of_In in Hin. specialize (H _ Hin). cbv beta iota in H.
    rewrite forallb_forall in H. specialize (H low). rewrite <- list_elem_of_In, elem_of_seqZ in H.
    specialize (H ltac:(lia)). split_tests. split_and!; [done| |done].
    intros A x y z w. rewrite <- list_elem_of_In in Hin. rewrite !elem_of_cons, elem_of_nil in Hin.
    destruct Hin as [E|[E|[E|[]]]]; injection E as -> -> -> ->; split_tests; repeat case_bool_decide; (done || lia). }
  unfold DecodeCodePoint. rewrite Ev.
  rewrite !elem_of_cons, elem_of_nil in Hin.
  destruct Hin as [E|[E|[E|[]]]]; injection E as -> -> -> ->; rewrite Ec, Em; done.
Qed.

(** Pieces of six bits. *)
Lemma shiftr_div v k : 0 <= k -> Z.shiftr v k = v / 2 ^ k.
Proof. intros Hk. by apply Z.shiftr_div_pow2. Qed.

Lemma DecodeCodePoint_append v rest :
  point_range v ->
  exists lead more, AppendCodePoint v = lead :: more /\ DecodeCodePoint lead (more ++ rest) = (v, rest).
Proof.
  unfold point_range. intros Hv. unfold AppendCodePoint.
  change 0x3f with (2 ^ 6 - 1). rewrite !land_low by lia. rewrite !shiftr_div by lia.
  change (2 ^ 6) with 64. change (2 ^ 12) with 4096. change (2 ^ 18) with 262144. change (2 ^ 21) with 2097152 in Hv.
  fold (tail_byte (v mod 64)). fold (tail_byte (v / 64 mod 64)). fold (tail_byte (v / 4096 mod 64)).
  pose proof (Z.mod_pos_bound v 64 ltac:(lia)). pose proof (Z.mod_pos_bound (v / 64) 64 ltac:(lia)).
  pose proof (Z.mod_pos_bound (v / 4096) 64 ltac:(lia)).
  assert (v / 4096 = v / 64 / 64) as E1 by (by rewrite Z.div_div by lia).
  assert (v / 262144 = v / 64 / 64 / 64) as E2 by (by rewrite !Z.div_div by lia).
  assert (forall x, x = x / 64 * 64 + x mod 64) as Hsplit.
  { intros x. pose proof (Z.div_mod x 64 ltac:(lia)). lia. }
  destruct (Z.leb_spec v 0x7f).
  { exists (byte_of v), []. split; [done|]. unfold DecodeCodePoint. rewrite byte_val_of, Z.mod_small by lia.
    assert (forallb (fun v => negb (Z.land v 0xe0 =? 0xc0) && negb (Z.land v 0xf0 =? 0xe0) && negb (Z.land v 0xf8 =? 0xf0))
              (seqZ 0 128) = true) as Hall by (vm_compute; reflexivity).
    rewrite forallb_forall in Hall. specialize (Hall v). rewrite <- list_elem_of_In, elem_of_seqZ in Hall.
    specialize (Hall ltac:(lia)). split_tests. by rewrite !bool_decide_eq_false_2 by done. }
  destruct (Z.leb_spec v 0x7ff).
  { eexists _, _. split; [done|]. cbn [app].
    rewrite (lead_tests 0xc0 32 1 0x1f) by (first [left; fail | by left | split; [apply Z.div_pos; lia|apply Z.div_lt_upper_bound; lia]]).
    rewrite continue_point_tail by done. cbn [continue_point]. by rewrite <- Hsplit. }
  destruct (Z.leb_spec v 0xffff).
  { eexists _, _. split; [done|]. cbn [app].
    rewrite (lead_tests 0xe0 16 2 0x0f) by (first [by right; left | split; [apply Z.div_pos; lia|apply Z.div_lt_upper_bound; lia]]).
    rewrite !continue_point_tail by done. cbn [continue_point]. by rewrite E1, <- !Hsplit. }
  eexists _, _. split; [done|]. cbn [app].
  rewrite (lead_tests 0xf0 8 3 0x07) by (first [by right; right; left | split; [apply Z.div_pos; lia|apply Z.div_lt_upper_bound; lia]]).
  rewrite !continue_point_tail by done. cbn [continue_point]. by rewrite E2, E1, <- !Hsplit.
Qed.

(** A code point that folding leaves as it is. *)
Definition stable (v : Z) : Prop := point_range v /\ fold_code_point v = Some v.

Lemma fold_stable v w : point_range v -> fold_code_point v = Some w -> stable w.
Proof.
  unfold stable, point_range, fold_code_point, tolower. intros Hv E. change (2 ^ 21) with 2097152 in *.
  repeat case_match; split_tests; simplify_eq; split; try lia; f_equal; lia.
Qed.

Lemma skeleton_loop_points fuel input :
  exists points, skeleton_loop fuel input = points ≫= AppendCodePoint /\ Forall stable points.
Proof.
  revert input. induction fuel as [|fuel IH]; intros [|lead rest]; try (by exists []).
  cbn [skeleton_loop]. pose proof (DecodeCodePoint_spec lead rest) as [Hr _].
  destruct (DecodeCodePoint lead rest) as [v rest']. destruct (IH rest') as (points & E & Hp).
  destruct (fold_code_point v) as [w|] eqn:Ew; [|by exists points].
  exists (w :: points). split; [cbn; by rewrite E|]. constructor; [by eapply fold_stable|done].
Qed.

Lemma skeleton_loop_stable points fuel :
  Forall stable points -> (length (points ≫= AppendCodePoint) <= fuel)%nat ->
  skeleton_loop fuel (points ≫= AppendCodePoint) = points ≫= AppendCodePoint.
Proof.
  intros Hp. revert fuel. induction Hp as [|v points [Hr Hv] Hp IH]; intros fuel Hf.
  { by destruct fuel. }
  destruct (DecodeCodePoint_append v (points ≫= AppendCodePoint) Hr) as (lead & more & E & Ed).
  change ((v :: points) ≫= AppendCodePoint) with (AppendCodePoint v ++ (points ≫= AppendCodePoint)) in *.
  rewrite length_app in Hf. rewrite E in Hf |- *. cbn [length] in Hf. destruct fuel as [|fuel]; [lia|].
  cbn [app skeleton_loop]. rewrite Ed, Hv, E. by rewrite IH by lia.
Qed.

(** The whole input is looked at: more fuel does not change the result. *)
Lemma skeleton_loop_fuel fuel fuel' input :
  (length input <= fuel)%nat -> (length input <= fuel')%nat -> skeleton_loop fuel input = skeleton_loop fuel' input.
Proof.
  revert fuel' input. induction fuel as [|fuel IH]; intros [|fuel'] [|lead rest] H1 H2; cbn in H1, H2; try lia; try done.
  cbn [skeleton_loop]. pose proof (DecodeCodePoint_spec lead rest) as [_ Hl].
  destruct (DecodeCodePoint lead rest) as [v rest']. cbn [snd] in Hl.
  destruct (fold_code_point v); rewrite (IH fuel' rest') by lia; done.
Qed.

(** ** Lemmas: lint *)

Section LintLemmas.
Context (limits : RulesLimits) (origins : OriginMap).

(** The warning of a path among the paths of its app: the first one that looks like it is another. *)
Definition near_of (paths : list PathRef) (path : PathRef) : option Diagnostic :=
  match list_find (fun q => VisualSkeleton (ref_bytes q) = VisualSkeleton (ref_bytes path)) paths with
  | Some (_, found) => if ref_bytes found != ref_bytes path then Some (near_warning origins path found) else None
  | None => None
  end.

Lemma fold_push ds output :
  fold_left (push limits) ds output = output ++ take (Z.to_nat (max_diagnostics limits - size output)) ds.
Proof.
  revert output. induction ds as [|d ds IH]; intros output; cbn [fold_left].
  { by rewrite take_nil, app_nil_r. }
  rewrite IH. unfold push. destruct (Z.ltb_spec (size output) (max_diagnostics limits)).
  - rewrite <- app_assoc. f_equal.
    replace (Z.to_nat (max_diagnostics limits - size output))
      with (S (Z.to_nat (max_diagnostics limits - size (output ++ [d])))); [done|].
    rewrite size_app. change (size [d]) with 1. lia.
  - replace (Z.to_nat (max_diagnostics limits - size output)) with 0%nat by lia. done.
Qed.

Lemma lint_paths_spec seen rest skeletons output :
  (forall s, skeletons !! s = snd <$> list_find (fun q => VisualSkeleton (ref_bytes q) = s) seen) ->
  lint_paths limits origins rest skeletons output
  = fold_left (push limits) (omap (near_of (seen ++ rest)) rest) output.
Proof.
  revert seen skeletons output. induction rest as [|path rest IH]; intros seen skeletons output Hs; [done|].
  assert (forall skeletons output,
    (forall s, skeletons !! s = snd <$> list_find (fun q => VisualSkeleton (ref_bytes q) = s) (seen ++ [path])) ->
    lint_paths limits origins rest skeletons output
    = fold_left (push limits) (omap (near_of (seen ++ path :: rest)) rest) output) as IH'.
  { intros sk out Hsk. rewrite (IH (seen ++ [path])) by done. by rewrite <- app_assoc. }
  cbn [lint_paths omap list_omap]. rewrite Hs. unfold near_of at 1.
  destruct (list_find (fun q => VisualSkeleton (ref_bytes q) = VisualSkeleton (ref_bytes path)) seen)
    as [[i found]|] eqn:Ef.
  - rewrite (list_find_app_l _ _ _ _ _ Ef). cbn.
    rewrite IH'; [by destruct (ref_bytes found != ref_bytes path)|].
    intros s. rewrite Hs. destruct (list_find (fun q => VisualSkeleton (ref_bytes q) = s) seen) as [[j q]|] eqn:Eq.
    + by rewrite (list_find_app_l _ _ _ _ _ Eq).
    + rewrite list_find_app_r by done. cbn. case_decide as E; [|done]. subst s. congruence.
  - rewrite list_find_app_r by done. cbn [list_find]. rewrite decide_True by done. cbn.
    rewrite bool_decide_eq_true_2 by done. cbn [negb]. apply IH'. intros s.
    destruct (decide (s = VisualSkeleton (ref_bytes path))) as [->|Hne].
    + rewrite lookup_insert_eq, list_find_app_r by done. cbn. by rewrite decide_True by done.
    + rewrite lookup_insert_ne by done. rewrite Hs.
      destruct (list_find (fun q => VisualSkeleton (ref_bytes q) = s) seen) as [[j q]|] eqn:Eq.
      * by rewrite (list_find_app_l _ _ _ _ _ Eq).
      * rewrite list_find_app_r by done. cbn. by rewrite decide_False by congruence.
Qed.
End LintLemmas.

(** ** Properties *)

(** C35. The plan between two policies is exactly the difference of their deny and redirect rules,
    which is all a plan speaks of: it has one change for each such rule that is in one of them only
    or has another target, in the order of the keys; carrying the changes out turns the rules of the
    one into those of the other; and the plan is empty exactly when the rules are the same. The
    users, the processes, the file picker and the legacy switch are not part of it, nor of this. *)
Theorem policy_plan_replays (before after : CanonicalPolicy) :
  let changes := BuildPolicyPlan before after in
  strictly_sorted_by change_key changes
  /\ (forall c, c ∈ changes <->
        change_of (change_key c) (rules_of before !! change_key c) (rules_of after !! change_key c) = Some c)
  /\ fold_left apply_change changes (rules_of before) = rules_of after
  /\ (changes = [] <-> rules_of before = rules_of after).
Proof.
  cbv zeta. match goal with |- ?A /\ ?B /\ ?C /\ _ => assert (A /\ B /\ C) as (Hsorted & Hexact & Hreplay) end.
  2:{ split_and!; [done|done|done|]. split; [intros E; by rewrite E in Hreplay|]. intros E.
      destruct (BuildPolicyPlan before after) as [|c cs]; [done|].
      assert (change_of (change_key c) (rules_of before !! change_key c) (rules_of after !! change_key c) = Some c) as Hc
        by (apply Hexact; by left).
      rewrite E in Hc. unfold change_of in Hc. destruct (rules_of after !! _); [|done].
      by rewrite bool_decide_eq_true_2 in Hc. }
  unfold BuildPolicyPlan. destruct (IndexPolicy_spec before) as [Hb <-], (IndexPolicy_spec after) as [Ha <-].
  destruct (plan_loop_planned _ _ _ (Nat.le_refl _) Hb Ha) as [Hs He]. split_and!; [done|exact He|].
  apply map_eq. intros k. rewrite (apply_changes_lookup _ _ _ _ _ Hs (fun c => proj1 (He c))).
  destruct (decide _) as [|Hk]; [done|].
  set (old := list_to_map (IndexPolicy before) !! k). set (new := list_to_map (IndexPolicy after) !! k).
  destruct (change_of k old new) as [c|] eqn:Ec; [|by apply change_of_none in Ec].
  destruct Hk. apply list_elem_of_fmap. exists c. pose proof (change_of_key _ _ _ _ Ec) as Ek.
  split; [done|]. apply He. by rewrite Ek.
Qed.

(** The explanation of a path names the rule of the package that is nearest to it. When no rule
    of its app covers the path it says so; otherwise it gives a rule that covers the path such that
    all the others that do cover this one too, a deny before a redirect of the same path, with its
    target; and the shadowed parents are the paths of exactly those other rules, sorted. *)
Theorem explain_path_longest limits policy package path :
  let e := ExplainPath limits policy package path in
  let matches := matches_of limits policy package path in
  matches = [] /\ explained_action e = None /\ explained_source e = None /\ shadowed_parents e = []
  \/ exists m others,
       matches ≡ₚ m :: others /\ covers (match_source m) path
       /\ explained_action e = Some (match_action m) /\ explained_source e = Some (match_source m)
       /\ explained_target e = match_target m /\ shadowed_parents e = sort_by id (match_source <$> others)
       /\ forall m', m' ∈ others ->
            covers (match_source m') (match_source m)
            /\ (match_source m' = match_source m -> match_action m = kRuleRedirect -> match_action m' = kRuleRedirect).
Proof.
  cbv zeta. destruct (ExplainPath_spec limits policy package path)
    as (_ & _ & [(Hm & Ha & Hs & _ & Hp)|(m & others & Hp & Ha & Hs & Ht & Hsh & Ho)]); [by left|right].
  assert (forall m', m' ∈ matches_of limits policy package path -> covers (match_source m') path) as Hcov.
  { intros m' Hin. unfold matches_of in Hin. destruct (NormalizeRulePath limits path) as [query|] eqn:Eq; [|by apply elem_of_nil in Hin].
    destruct (list_find _ _) as [[i app]|]; [|by apply elem_of_nil in Hin].
    apply covering_covers in Hin. by rewrite (NormalizeRulePath_bytes _ _ _ Eq) in Hin. }
  exists m, others. split_and!; try done; [apply Hcov; rewrite Hp; by left|].
  intros m' Hin. destruct (Ho m' Hin) as [Hle Hact]. split; [|done].
  eapply covers_chain; [| |exact Hle]; apply Hcov; rewrite Hp; [by right|by left].
Qed.

(** Visual skeletons are fixed points: a path looks like its skeleton, whatever bytes it is made of,
    so looking alike is an equivalence. *)
Theorem skeleton_idempotent (input : bytes) : VisualSkeleton (VisualSkeleton input) = VisualSkeleton input.
Proof.
  unfold VisualSkeleton. destruct (skeleton_loop_points (length input) input) as (points & -> & Hp).
  by apply skeleton_loop_stable.
Qed.

(** [LintRules] gives the warnings of the compilation, then the legacy warning and one warning for
    each path that looks like an earlier one of its app, the first such, and is another, until the
    limit of diagnostics is reached. *)
Theorem lint_rules_exact limits origins result :
  let warnings := filter (fun d => severity d = kWarning) (build_diagnostics result) in
  LintRules limits origins result
  = warnings ++ match build_resolved result with
                | None => []
                | Some resolved =>
                    take (Z.to_nat (max_diagnostics limits - size warnings))
                      ((if resolved_allow_legacy_mount resolved
                        then [lint_warning kLintLegacy (lit "rules.lint_legacy") no_span []] else [])
                       ++ (resolved_apps resolved ≫= fun app => omap (near_of origins (app_paths app)) (app_paths app)))
                end.
Proof.
  cbv zeta. unfold LintRules. destruct (build_resolved result) as [resolved|]; [|by rewrite app_nil_r].
  rewrite <- fold_push, fold_left_app. set (output := filter _ _).
  assert (forall apps output,
    fold_left (fun output app => lint_paths limits origins (app_paths app) ∅ output) apps output
    = fold_left (push limits) (apps ≫= fun app => omap (near_of origins (app_paths app)) (app_paths app)) output) as H.
  { induction apps as [|app apps IH]; intros out; [done|]. cbn [fold_left mbind list_bind].
    rewrite fold_left_app, IH. f_equal.
    rewrite (lint_paths_spec limits origins [] (app_paths app) ∅); [done|]. intros s. by rewrite lookup_empty. }
  rewrite H. by destruct (resolved_allow_legacy_mount resolved).
Qed.

(** ** Examples *)

Definition plain_path (s : bytes) : NormalizedPath := {| path_bytes := s; component_offsets := [0] |}.

Definition canonical_sample (users : list Z) (target : bytes) : CanonicalPolicy :=
  {| canonical_allow_legacy_mount := false;
     canonical_apps :=
       [{| canonical_package := lit "com.a"; canonical_users := users; canonical_processes := [];
           canonical_file_picker := false; canonical_deny := [plain_path (lit "Secret")];
           canonical_redirects := [{| canonical_source := plain_path (lit "DCIM");
                                      canonical_target := plain_path target |}] |}] |}.

Example target_change_planned :
  BuildPolicyPlan (canonical_sample [0] (lit "Old")) (canonical_sample [0] (lit "New"))
  = [{| change_kind := kModify; change_key := (lit "com.a", (1, lit "DCIM")); before_target := lit "Old";
        after_target := lit "New" |}].
Proof. vm_compute. reflexivity. Qed.

(** A change of the users of an app is no change of the plan. *)
Example user_change_not_planned :
  BuildPolicyPlan (canonical_sample [0] (lit "Old")) (canonical_sample [0; 10] (lit "Old")) = [].
Proof. vm_compute. reflexivity. Qed.

Definition resolved_sample (enabled : bool) : ResolvedPolicy :=
  {| resolved_allow_legacy_mount := false;
     resolved_apps :=
       [{| resolved_package := lit "com.a"; resolved_enabled := enabled; resolved_users := [0]; resolved_processes := [];
           resolved_file_picker := false;
           resolved_deny := [{| resolved_deny_id := 1; resolved_deny_path := plain_path (lit "DCIM/Secret") |}];
           resolved_redirects := [{| resolved_id := 2; resolved_source := plain_path (lit "DCIM");
                                     resolved_target := plain_path (lit "Download/a") |}] |}] |}.

(** The rules of an app that is not enabled are explained as if they were in force. *)
Example disabled_app_is_explained :
  let e := ExplainPath default_limits (resolved_sample false) (lit "com.a") (lit "DCIM/Secret/x") in
  canonical_apps (canonicalize_policy (resolved_sample false)) = []
  /\ explained_action e = Some kRuleDeny /\ explained_source e = Some (lit "DCIM/Secret")
  /\ shadowed_parents e = [lit "DCIM"].
Proof. vm_compute. done. Qed.

(** Case and full width are folded and marks dropped, but a composed letter (U+00E9) and the letter
    with its mark (U+0065 U+0301) do not look alike. *)
Example skeletons :
  VisualSkeleton (lit "DCIM" ++ [xef; xbc; xa1]) = lit "dcima"
  /\ VisualSkeleton [x65; xcc; x81] = lit "e" /\ VisualSkeleton [xc3; xa9] = [xc3; xa9].
Proof. vm_compute. done. Qed.
