(* ===== verification/Cli.v ===== *)
(** * The command line (cli/src/main.cpp)

    Every command of pathguardctl. What the files hold, what a directory lists and whether a write
    works is answered by the arguments; what a command writes is part of its result, and everything
    else it does is to print. *)

From S2P Require Import Prelude Policy Binary BinaryProofs Source Semantic Compiler Tools Console.

Local Open Scope pg_scope.

(** ** Paths *)

Definition path_filename (path : bytes) : bytes := List.last (split_on x2f path) [].

Fixpoint strip_separators (reversed : bytes) : bytes :=
  match reversed with
  | c :: rest => if c == x2f then strip_separators rest else reversed
  | [] => []
  end.

(** [parent_path]: what is before the last component without the separators between, or the root. *)
Definition path_parent (path : bytes) : bytes :=
  let before := take (length path - length (path_filename path)) path in
  let parent := rev (strip_separators (rev before)) in
  if parent == [] then take 1 before else parent.

(** The last dot of a file name, unless it is the first character or the name is "..". *)
Definition dot_position (name : bytes) : option nat :=
  match cut x2e (rev name) with
  | (after, Some (_ :: _)) => if name == lit ".." then None else Some (length name - length after - 1)%nat
  | _ => None
  end.

Definition path_extension (name : bytes) : bytes :=
  match dot_position name with Some i => drop i name | None => [] end.

Definition path_stem (name : bytes) : bytes :=
  match dot_position name with Some i => take i name | None => name end.

(** ** The environment and the results *)

Record Environment : Type := {
  (** what [Read] reads from a path *)
  files_read : bytes -> option bytes;
  (** the status directory: whether it is one, whether it can be opened for listing, the entries that
      are listed with whether they are regular files (nothing when asking for it is an error), and
      whether the listing comes to its end or meets an error when it goes on *)
  status_is_directory : bool;
  status_opens : bool;
  status_entries : list (bytes * option bool);
  status_ends : bool;
  (** the output file: whether it opens, whether the stream is still good after the write, and how
      many bytes at the end never reach the file, when the write fails or when the stream is closed *)
  output_opens : bool;
  output_writes : bool;
  output_lost : nat;
  (** the error of [last_write_time] *)
  touch_error : option bytes;
}.

(** The exit code, what was printed, the file that was opened for writing with what it holds in the
    end, and the file whose time was set. *)
Record Result : Type := {
  exit_status : Z;
  shown : Console;
  written : option (bytes * bytes);
  touched : option bytes;
}.

Definition exits (code : Z) (c : Console) : Result :=
  {| exit_status := code; shown := c; written := None; touched := None |}.

(** An exception that nobody catches: it ends the program without an exit code of its own. *)
Inductive Uncaught : Set := filesystem_error.

(** [Oob] is the value of an optional that has none. *)
Abbreviation command := (outcome Uncaught Result).

(** ** Names *)

Definition ChangeName (kind : PolicyChangeKind) : bytes :=
  match kind with kAdd => lit "add" | kRemove => lit "remove" | kModify => lit "modify" end.

Definition RuleName (kind : PolicyRuleKind) : bytes :=
  match kind with kRuleDeny => lit "deny" | kRuleRedirect => lit "redirect" end.

Definition MountActionName (action : MountAction) : bytes :=
  match action with
  | Policy.kDeny => lit "deny"
  | Policy.kRedirect => lit "redirect"
  | Policy.kRestore => lit "allow"
  | Policy.kIsolateRoot => lit "isolate"
  end.

Section Cli.
Context {value : Type} `{TomlValue value} (parse : bytes -> source_region + toml_node value).
Context (env : Environment).

(** ** Rules files *)

Definition nothing_built : RulesBuildResult :=
  {| build_resolved := None; build_canonical := None;
     build_requirements := {| mount_actions := 0; required_provider := false; required_topology := false |};
     build_blob := None; build_diagnostics := [] |}.

(** The result, the source when there is one, and the error of loading. *)
Definition CompileRulesFile (path : bytes) : RulesBuildResult * option SourceBuffer * bytes :=
  match files_read env path with
  | None => (nothing_built, None, lit "cannot read rules.toml")
  | Some text =>
      match Create (path_filename path) text default_limits with
      | Ok source => (CompileRulesSource default_limits parse source, Some source, [])
      | Err d =>
          ({| build_resolved := None; build_canonical := None; build_requirements := build_requirements nothing_built;
              build_blob := None; build_diagnostics := [d] |}, None, [])
      | Oob => (nothing_built, None, [])
      end
  end.

Definition PrintDiagnostics (result : RulesBuildResult) (source : SourceBuffer) (errors_only : bool) : Console :=
  complains (concat ((fun d => line (RenderDiagnosticText d source))
                       <$> filter (fun d => errors_only = false \/ severity d = kError) (build_diagnostics result))).

(** The value of an optional that the code takes without looking. *)
Definition value_of {A} (o : option A) : outcome Uncaught A :=
  match o with Some x => Ok x | None => Oob end.

Definition is_option (arg : bytes) : bool := starts_with (lit "--") arg.

(** [rest] are the arguments after the command. *)
Definition ValidateOrCompile (name : bytes) (rest : list bytes) : command :=
  match rest with
  | [] => Ok (exits 2 (complains (line (lit "missing rules.toml"))))
  | path :: options =>
      let json := bool_decide (lit "--json" ∈ options) in
      let device := bool_decide (lit "--device" ∈ options) in
      let '(result, source, load_error) := CompileRulesFile path in
      if load_error != [] then Ok (exits 1 (complains (line load_error)))
      else if negb (ok result) then
        Ok (exits 1
          match source with
          | Some source =>
              complains (concat ((fun d => line (if json then RenderDiagnosticJson d source
                                                 else RenderDiagnosticText d source)) <$> build_diagnostics result))
          | None => silent
          end)
      else if device then
        Ok (exits 1 (complains (line (lit "environment_unsupported: use reload so the daemon can validate the current device snapshot"))))
      else if name == lit "validate" then
        canonical ← value_of (build_canonical result);
        blob ← value_of (build_blob result);
        Ok (exits 0 (prints (line (lit "valid: " ++ to_string (size (canonical_apps canonical))
              ++ lit " package(s), content_generation=" ++ to_string (blob_generation blob)))))
      else
        match options with
        | output_path :: _ =>
            if is_option output_path then Ok (exits 2 (complains (line (lit "missing policy.bin output"))))
            else if (path_filename output_path == lit "policy.bin")
                    && (path_filename (path_parent output_path) == lit "run") then
              Ok (exits 1 (complains (line (lit "refusing to write an active policy path; use reload"))))
            else
              blob ← value_of (build_blob result);
              let stored := take (length (blob_bytes blob) - output_lost env) (blob_bytes blob) in
              let opened := if output_opens env then Some (output_path, stored) else None in
              if negb (output_opens env && output_writes env) then
                Ok {| exit_status := 1; shown := complains (line (lit "cannot write policy.bin")); written := opened;
                      touched := None |}
              else
                Ok {| exit_status := 0;
                      shown := prints (line (lit "compiled: " ++ to_string (size (blob_bytes blob))
                                 ++ lit " bytes, content_generation=" ++ to_string (blob_generation blob)));
                      written := opened; touched := None |}
        | [] => Ok (exits 2 (complains (line (lit "missing policy.bin output"))))
        end
  end.

Definition LintRulesFile (path : bytes) : command :=
  let '(result, source, load_error) := CompileRulesFile path in
  if load_error != [] then Ok (exits 1 (complains (line load_error)))
  else
    match source with
    | None => Ok (exits 1 silent)
    | Some source =>
        let origins := parsed_origins (ParseRulesDocument default_limits parse source) in
        Ok (exits (if ok result then 0 else 1)
          (PrintDiagnostics result source true
           ⊕ prints (concat ((fun d => line (RenderDiagnosticText d source))
                               <$> LintRules default_limits origins result))))
    end.

(** The line of a change. *)
Definition change_line (c : PolicyChange) : bytes :=
  line (ChangeName (change_kind c) ++ lit " " ++ (change_key c).1 ++ lit " "
        ++ (if (change_key c).2.1 =? rule_kind_value kRuleDeny then RuleName kRuleDeny else RuleName kRuleRedirect)
        ++ lit " " ++ (change_key c).2.2
        ++ (if before_target c != [] then lit " from=" ++ before_target c else [])
        ++ (if after_target c != [] then lit " to=" ++ after_target c else [])).

(** The compilation of one of the two files, or the result of the command without it. *)
Definition plan_side (path : bytes) (invalid : bytes) : RulesBuildResult + Result :=
  let '(result, source, error) := CompileRulesFile path in
  match source with
  | Some source =>
      if error != [] then inr (exits 1 (complains (line error)))
      else if negb (ok result) then inr (exits 1 (PrintDiagnostics result source false))
      else inl result
  | None => inr (exits 1 (complains (line (if error == [] then invalid else error))))
  end.

Definition PlanRulesFiles (before_path after_path : bytes) : command :=
  match plan_side before_path (lit "invalid old rules.toml") with
  | inr r => Ok r
  | inl before =>
      match plan_side after_path (lit "invalid new rules.toml") with
      | inr r => Ok r
      | inl after =>
          old ← value_of (build_canonical before);
          new ← value_of (build_canonical after);
          Ok (exits 0 (prints (concat (change_line <$> BuildPolicyPlan old new))))
      end
  end.

Definition ExplainRulesPath (rules_path package path : bytes) : command :=
  let '(result, source, error) := CompileRulesFile rules_path in
  match source with
  | Some source =>
      if error != [] then Ok (exits 1 (complains (line error)))
      else
        match build_resolved result with
        | None => Ok (exits 1 (PrintDiagnostics result source false))
        | Some resolved =>
            let explanation := ExplainPath default_limits resolved package path in
            let heading := line (lit "package=" ++ explained_package explanation)
                           ++ line (lit "path=" ++ explained_query explanation) in
            match explained_source explanation with
            | None => Ok (exits 0 (prints (heading ++ line (lit "match=none") ++ line (lit "shadowed_parent=none"))))
            | Some matched =>
                action ← value_of (explained_action explanation);
                Ok (exits 0 (prints (heading
                  ++ line (lit "match=" ++ RuleName action ++ lit " " ++ matched
                           ++ match explained_target explanation with Some t => lit " -> " ++ t | None => [] end)
                  ++ (if shadowed_parents explanation == [] then line (lit "shadowed_parent=none")
                      else concat ((fun parent => line (lit "shadowed_parent=" ++ parent)) <$> shadowed_parents explanation)))))
            end
        end
  | None => Ok (exits 1 (complains (line (if error == [] then lit "invalid rules.toml" else error))))
  end.

(** ** The policy in force and the status files *)

Definition mount_rule_line (rule : LogicalMountRule) : bytes :=
  line (MountActionName (m_action rule) ++ lit " visible=" ++ m_visible_path rule
        ++ (if m_backing_path rule != [] then lit " backing=" ++ m_backing_path rule else [])).

Definition ExplainPolicy (policy package : bytes) : command :=
  match files_read env policy with
  | None => Ok (exits 1 (complains (line (lit "cannot read policy.bin"))))
  | Some raw =>
      match DecodePolicy raw with
      | Err e =>
          Ok (exits 1 (complains (line (lit "invalid policy.bin: "
                ++ match e with Some e => error_message e | None => [] end))))
      | Oob => Oob
      | Ok (document, generation) =>
          match list_find (fun app => Policy.package app = package) (apps document) with
          | None => Ok (exits 1 (complains (line (lit "package not found"))))
          | Some (_, app) =>
              Ok (exits 0 (prints (line (lit "package=" ++ Policy.package app)
                ++ line (lit "snapshot_generation=" ++ to_string generation)
                ++ line (lit "plan_generation=" ++ to_string (ComputePlanGeneration app (failure_mode document)
                                                                 (allow_legacy_string_bind document)))
                ++ line (lit "media=" ++ to_string (media_compat_value (media_compat app)))
                ++ line (lit "provider=" ++ to_string (provider_compat_value (provider_compat app)))
                ++ concat (mount_rule_line <$> mounts app))))
          end
      end
  end.

(** The loop over the directory: the names that are kept. Only the opening of the directory has its
    error stored; [is_regular_file] and the increment of the iterator throw theirs. *)
Fixpoint status_files (entries : list (bytes * option bool)) : outcome Uncaught (list bytes) :=
  match entries with
  | [] => if status_ends env then Ok [] else Err filesystem_error
  | (name, regular) :: entries =>
      match regular with
      | None => Err filesystem_error
      | Some regular =>
          names ← status_files entries;
          Ok (if regular && (path_extension name == lit ".status") then name :: names else names)
      end
  end.

Definition PrintStatus (module_dir : bytes) (pid : option bytes) : command :=
  let directory := path_append (path_append module_dir (lit "run")) (lit "status") in
  match pid with
  | Some pid =>
      match files_read env (path_append directory (pid ++ lit ".status")) with
      | None => Ok (exits 1 (complains (line (lit "status not found"))))
      | Some text => Ok (exits 0 (prints text))
      end
  | None =>
      let rules_status :=
        match files_read env (path_append (path_append module_dir (lit "run")) (lit "rules-status.txt")) with
        | Some text => prints text
        | None => silent
        end in
      if negb (status_is_directory env) then Ok (exits 0 (rules_status ⊕ prints (line (lit "no runtime status"))))
      else if negb (status_opens env) then Ok (exits 1 rules_status)
      else
        names ← status_files (status_entries env);
        let shown_entry name :=
          match files_read env (path_append directory name) with
          | Some text => line (lit "[" ++ path_stem name ++ lit "]") ++ text
          | None => []
          end in
        Ok (exits 0 (rules_status ⊕ prints (concat (shown_entry <$> sort_by id names))))
  end.

(** ** [main] *)

Definition usage : bytes :=
  line (lit "usage: pathguardctl validate <rules.toml> --host|--device [--json]")
  ++ line (lit "       pathguardctl compile <rules.toml> <output-policy.bin>")
  ++ line (lit "       pathguardctl lint <rules.toml>")
  ++ line (lit "       pathguardctl plan <old-rules.toml> <new-rules.toml>")
  ++ line (lit "       pathguardctl explain --path <rules.toml> <package> <path>")
  ++ line (lit "       pathguardctl reload <module-dir>")
  ++ line (lit "       pathguardctl explain <policy.bin> <package>")
  ++ line (lit "       pathguardctl status <module-dir> [pid]").

Definition misused (text : bytes) : command := Ok (exits 2 (complains (line text))).

(** [args] is [argv] after its first element. *)
Definition main (args : list bytes) : command :=
  match args with
  | [] => Ok (exits 2 (complains usage))
  | name :: rest =>
      if name == lit "lint" then
        match rest with [path] => LintRulesFile path | _ => misused (lit "missing rules.toml") end
      else if name == lit "plan" then
        match rest with
        | [before_path; after_path] => PlanRulesFiles before_path after_path
        | _ => misused (lit "missing old or new rules.toml")
        end
      else if (name == lit "explain") && (head rest == Some (lit "--path")) then
        match rest with
        | [_; rules_path; package; path] => ExplainRulesPath rules_path package path
        | _ => misused (lit "missing rules.toml, package, or path")
        end
      else if name == lit "status" then
        match rest with
        | [] => misused (lit "missing module directory")
        | module_dir :: rest => PrintStatus module_dir (head rest)
        end
      else if name == lit "explain" then
        match rest with
        | policy :: package :: _ => ExplainPolicy policy package
        | _ => misused (lit "missing policy.bin or package")
        end
      else if name == lit "reload" then
        match rest with
        | [] => misused (lit "missing module directory")
        | module_dir :: _ =>
            let source := path_append (path_append module_dir (lit "config")) (lit "rules.toml") in
            match touch_error env with
            | Some e => Ok (exits 1 (complains (line (lit "cannot request reload: " ++ e))))
            | None => Ok {| exit_status := 0; shown := prints (line (lit "reload requested")); written := None;
                            touched := Some source |}
            end
        end
      else if (name == lit "validate") || (name == lit "compile") then ValidateOrCompile name rest
      else misused (lit "unknown command")
  end.
End Cli.

(** ** Lemmas *)

Section CliLemmas.
Context {value : Type} `{TomlValue value} (parse : bytes -> source_region + toml_node value).
Context (env : Environment).

(** A result that writes nothing and sets no time. *)
Definition only_prints (c : command) : Prop := exists code shown, c = Ok (exits code shown).

Lemma exits_only_prints code c : only_prints (Ok (exits code c)).
Proof. by exists code, c. Qed.

Lemma ok_values r :
  ok r = true ->
  exists resolved canonical blob, build_resolved r = Some resolved /\ build_canonical r = Some canonical /\ build_blob r = Some blob.
Proof. unfold ok. repeat case_match; try done. intros _. by eexists _, _, _. Qed.

(** The compilation of a file that succeeds is that of its text. *)
Lemma CompileRulesFile_ok path result source e :
  CompileRulesFile parse env path = (result, source, e) -> ok result = true ->
  exists text buffer, files_read env path = Some text /\ Create (path_filename path) text default_limits = Ok buffer
    /\ result = CompileRulesSource default_limits parse buffer /\ source = Some buffer /\ e = [].
Proof.
  unfold CompileRulesFile. destruct (files_read env path) as [text|]; [|by intros [= <- <- <-]].
  destruct (Create _ _ _) as [buffer|d|] eqn:Ec; [|by intros [= <- <- <-]..].
  intros [= <- <- <-] _. by exists text, buffer.
Qed.

Lemma LintRulesFile_prints path : only_prints (LintRulesFile parse env path).
Proof.
  unfold LintRulesFile. destruct (CompileRulesFile parse env path) as [[result source] e].
  destruct (e != []); [apply exits_only_prints|]. destruct source; apply exits_only_prints.
Qed.

Lemma plan_side_cases path invalid :
  match plan_side parse env path invalid with
  | inl result => exists canonical, build_canonical result = Some canonical
  | inr r => exists code c, r = exits code c
  end.
Proof.
  unfold plan_side. destruct (CompileRulesFile parse env path) as [[result source] e].
  destruct source; [|by eexists _, _]. destruct (e != []); [by eexists _, _|]. destruct (ok result) eqn:Eok; cbn [negb]; [|by eexists _, _].
  apply ok_values in Eok as (? & canonical & ? & _ & ? & _). by exists canonical.
Qed.

Lemma PlanRulesFiles_prints before_path after_path : only_prints (PlanRulesFiles parse env before_path after_path).
Proof.
  unfold PlanRulesFiles.
  pose proof (plan_side_cases before_path (lit "invalid old rules.toml")) as Hb.
  destruct (plan_side parse env before_path _) as [before|r]; [|destruct Hb as (? & ? & ->); apply exits_only_prints].
  pose proof (plan_side_cases after_path (lit "invalid new rules.toml")) as Ha.
  destruct (plan_side parse env after_path _) as [after|r]; [|destruct Ha as (? & ? & ->); apply exits_only_prints].
  destruct Hb as [old ->], Ha as [new ->]. apply exits_only_prints.
Qed.

Lemma ExplainRulesPath_prints rules_path package path : only_prints (ExplainRulesPath parse env rules_path package path).
Proof.
  unfold ExplainRulesPath. destruct (CompileRulesFile parse env rules_path) as [[result source] e].
  destruct source as [source|]; [|apply exits_only_prints]. destruct (e != []); [apply exits_only_prints|].
  destruct (build_resolved result) as [resolved|]; [|apply exits_only_prints]. cbv zeta.
  destruct (ExplainPath_spec default_limits resolved package path)
    as (_ & _ & [(_ & _ & -> & _)|(m & others & _ & -> & -> & _)]); apply exits_only_prints.
Qed.

Lemma ExplainPolicy_prints policy package : only_prints (ExplainPolicy env policy package).
Proof.
  unfold ExplainPolicy. destruct (files_read env policy) as [raw|]; [|apply exits_only_prints].
  pose proof (decode_policy_safe raw). destruct (DecodePolicy raw) as [[document generation]|e|]; [|apply exits_only_prints|done].
  destruct (list_find _ _) as [[i app]|]; apply exits_only_prints.
Qed.

(** The listing of the status directory meets an error after it was opened. *)
Definition listing_throws : Prop :=
  status_is_directory env = true /\ status_opens env = true
  /\ (status_ends env = false \/ exists name, (name, None) ∈ status_entries env).

Lemma status_files_cases entries :
  match status_files env entries with
  | Ok _ => status_ends env = true /\ forall name, (name, None) ∉ entries
  | Err _ => status_ends env = false \/ exists name, (name, None) ∈ entries
  | Oob => False
  end.
Proof.
  induction entries as [|[name [regular|]] entries IH]; cbn.
  - destruct (status_ends env); [|by left]. split; [done|]. intros ?. apply not_elem_of_nil.
  - destruct (status_files env entries) as [names|e|]; cbn; [|destruct IH as [?|[n ?]]; [by left|right; exists n; apply elem_of_cons; by right]|done].
    destruct IH as [? Hn]. split; [done|]. intros n [?|?]%elem_of_cons; [congruence|by apply (Hn n)].
  - right. exists name. apply elem_of_cons. by left.
Qed.

Lemma PrintStatus_cases module_dir pid :
  match PrintStatus env module_dir pid with
  | Ok r => only_prints (Ok r) /\ (pid = None -> ~ listing_throws)
  | Err _ => pid = None /\ listing_throws
  | Oob => False
  end.
Proof.
  unfold PrintStatus, listing_throws. cbv zeta. destruct pid as [pid|].
  { destruct (files_read env _); (split; [apply exits_only_prints|done]). }
  destruct (status_is_directory env); cbn [negb]; [|split; [apply exits_only_prints|by intros _ []]].
  destruct (status_opens env); cbn [negb]; [|split; [apply exits_only_prints|by intros _ (_ & ? & _)]].
  pose proof (status_files_cases (status_entries env)) as Hf.
  destruct (status_files env (status_entries env)) as [names|e|]; cbn [mbind outcome_bind].
  - split; [apply exits_only_prints|]. destruct Hf as [He Hn]. intros _ (_ & _ & [?|[n ?]]); [congruence|by apply (Hn n)].
  - by split_and!.
  - done.
Qed.

(** The rules in a file compile without an error. *)
Definition compiles (path : bytes) (built : RulesBuildResult) : Prop :=
  exists text source, files_read env path = Some text /\ Create (path_filename path) text default_limits = Ok source
    /\ built = CompileRulesSource default_limits parse source /\ ok built = true.

(** What a result that writes has written. *)
Definition writes_policy (rules output content : bytes) : Prop :=
  exists built canonical blob decoded, compiles rules built
    /\ build_canonical built = Some canonical /\ build_blob built = Some blob
    /\ DecodePolicy (blob_bytes blob) = Ok (decoded, blob_generation blob)
    /\ content = take (length (blob_bytes blob) - output_lost env) (blob_bytes blob)
    /\ (output_lost env = 0%nat -> content = blob_bytes blob)
    /\ is_option output = false
    /\ ~ (path_filename output = lit "policy.bin" /\ path_filename (path_parent output) = lit "run").

(** The arguments of a validation that succeeds. *)
Definition validates (rest : list bytes) : Prop :=
  exists path options built, rest = path :: options /\ compiles path built /\ lit "--device" ∉ options.

(** What a result of [ValidateOrCompile] is. *)
Definition described (name : bytes) (rest : list bytes) (r : Result) : Prop :=
  touched r = None
  /\ match written r with
     | None => True
     | Some (output, content) =>
         name <> lit "validate"
         /\ (exists rules options, rest = rules :: output :: options /\ writes_policy rules output content)
         /\ (exit_status r = 0 <-> output_writes env = true)
     end
  /\ (name <> lit "validate" -> exit_status r = 0 -> is_Some (written r))
  /\ (name = lit "validate" -> (exit_status r = 0 <-> validates rest)).

Lemma described_failure name rest code c :
  code <> 0 -> (name = lit "validate" -> ~ validates rest) -> described name rest (exits code c).
Proof. intros Hc Hv. split_and!; [done..|]. intros E. split; [done|]. intros V. by destruct (Hv E). Qed.

Lemma described_output rules output built canonical blob :
  compiles rules built -> build_canonical built = Some canonical -> build_blob built = Some blob ->
  is_option output = false ->
  (path_filename output == lit "policy.bin") && (path_filename (path_parent output) == lit "run") = false ->
  writes_policy rules output (take (length (blob_bytes blob) - output_lost env) (blob_bytes blob)).
Proof.
  intros Hb Ec Eb Ho Hp. destruct Hb as (text & source & Hr & Hs & -> & Hok).
  assert (exists snapshot : DeviceSnapshot, True) as [snapshot _] by (by exists example_snapshot).
  destruct (compile_ok_verified _ _ _ _ snapshot Hok) as (c & b & decoded & Ec' & Eb' & Hd & _).
  unfold CompileRulesSource in Ec, Eb. rewrite Ec in Ec'. rewrite Eb in Eb'. injection Ec' as <-. injection Eb' as <-.
  eexists _, canonical, blob, decoded. split_and!; try done; [by exists text, source| |].
  { intros ->. rewrite Nat.sub_0_r. apply firstn_all. }
  intros [E1 E2]. by rewrite E1, E2 in Hp.
Qed.

Lemma ValidateOrCompile_cases name rest :
  exists r, ValidateOrCompile parse env name rest = Ok r /\ described name rest r.
Proof.
  unfold ValidateOrCompile. destruct rest as [|path options].
  { eexists. split; [done|]. apply described_failure; [done|]. by intros _ (? & ? & ? & ? & _). }
  destruct (CompileRulesFile parse env path) as [[result source] e] eqn:Ec. destruct (ok result) eqn:Eok; cbn [negb].
  2:{ assert (name = lit "validate" -> ~ validates (path :: options)) as Hv.
      { intros _ (p & o & b & [= <- <-] & (text & s & Hr & Hs & -> & Hok) & _).
        unfold CompileRulesFile in Ec. rewrite Hr, Hs in Ec. injection Ec as <- _ _. congruence. }
      destruct (e != []); eexists; (split; [done|]); by apply described_failure. }
  destruct (CompileRulesFile_ok _ _ _ _ Ec Eok) as (text & buffer & Hr & Hs & Hres & -> & ->).
  assert (compiles path result) as Hcomp by (by exists text, buffer).
  destruct (ok_values _ Eok) as (resolved & canonical & blob & _ & Ecan & Eblob). rewrite Ecan, Eblob.
  cbn [negb bool_decide]. rewrite (bool_decide_eq_true_2 ([] = [])) by done. cbn [negb].
  destruct (bool_decide (lit "--device" ∈ options)) eqn:Ed.
  { apply bool_decide_eq_true in Ed. eexists. split; [done|]. apply described_failure; [done|].
    by intros _ (? & ? & ? & [= <- <-] & _ & ?). }
  apply bool_decide_eq_false in Ed. destruct (decide (name = lit "validate")) as [->|Hn].
  { rewrite bool_decide_eq_true_2 by done. eexists. split; [done|]. split_and!; [done..|]. intros _. split; [|done].
    intros _. by exists path, options, result. }
  rewrite (bool_decide_eq_false_2 (name = _)) by done.
  destruct options as [|output options]; [eexists; split; [done|]; by apply described_failure|].
  destruct (is_option output) eqn:Eo; [eexists; split; [done|]; by apply described_failure|].
  destruct (_ && _) eqn:Ep; [eexists; split; [done|]; by apply described_failure|]. cbn [mbind outcome_bind value_of].
  pose proof (described_output path output result canonical blob Hcomp Ecan Eblob Eo Ep) as Hw.
  destruct (output_opens env) eqn:Eopen; [|eexists; split; [done|]; by split_and!].
  destruct (output_writes env) eqn:Ew; cbn [negb andb]; (eexists; split; [done|]); split_and!; try done.
  all: cbn; rewrite ?Ew; split_and!; [done|by exists path, options|done].
Qed.
End CliLemmas.

(** ** Property *)

(** C34. The command line writes no policy that does not hold. Whatever its arguments and whatever the
    files hold, it uses no value that is not there, and it comes to an end with an exit code, but for
    one case: status without a process dies of an uncaught exception exactly when the listing of the
    status directory meets an error after it was opened. A file is written by compile alone: then the
    rules were read and compile without an error, the policy of the compilation decodes with its
    generation, the file holds the bytes of exactly that policy but for those at its end that were
    lost while they were written, and all of them when none were, its path is no option and does not
    name policy.bin in a directory run, and the exit code is 0 exactly when the stream is good after
    the write. A compile that exits with 0 has written its file. Only reload sets the time of a file,
    that of the rules. And validate exits with 0 exactly when the rules compile without an error and
    no device was asked for. *)
Theorem cli_writes_only_policies {value : Type} `{TomlValue value} parse env args :
  match main parse env args with
  | Ok r =>
      (forall output content, written r = Some (output, content) ->
          exists rules options, args = lit "compile" :: rules :: output :: options
            /\ writes_policy parse env rules output content /\ (exit_status r = 0 <-> output_writes env = true))
      /\ (forall rest, args = lit "compile" :: rest -> exit_status r = 0 -> is_Some (written r))
      /\ (forall path, touched r = Some path -> exists module_dir rest, args = lit "reload" :: module_dir :: rest
            /\ path = path_append (path_append module_dir (lit "config")) (lit "rules.toml"))
      /\ (forall rest, args = lit "validate" :: rest -> (exit_status r = 0 <-> validates parse env rest))
      /\ (forall module_dir, args = [lit "status"; module_dir] -> ~ listing_throws env)
  | Err _ => (exists module_dir, args = [lit "status"; module_dir]) /\ listing_throws env
  | Oob => False
  end.
Proof.
  match goal with |- match _ with Ok r => @?P r | Err _ => _ | Oob => _ end => set (Q := P) end.
  set (J := fun c : command => match c with
    | Ok r => Q r | Err _ => (exists m, args = [lit "status"; m]) /\ listing_throws env | Oob => False end).
  change (J (main parse env args)).
  assert (forall c, only_prints c -> (forall rest, args <> lit "validate" :: rest) ->
            (forall rest, args <> lit "compile" :: rest) -> (forall m, args <> [lit "status"; m]) ->
            J c) as Hprint.
  { intros c (code & shown & ->) Hv Hc Hs. split_and!; try done.
    - intros rest E. by destruct (Hc rest).
    - intros rest E. by destruct (Hv rest).
    - intros m E. by destruct (Hs m). }
  unfold main. destruct args as [|name rest]; [apply Hprint; [apply exits_only_prints|done..]|].
  destruct (decide (name = lit "validate" \/ name = lit "compile")) as [Hname|Hname].
  - destruct (ValidateOrCompile_cases parse env name rest) as (r & E & Ht & Hw & Hcw & Hv).
    assert (name <> lit "status") as Hns by (by destruct Hname as [-> | ->]).
    match goal with |- J ?c => assert (c = Ok r) as -> by (destruct Hname as [-> | ->]; exact E) end.
    split_and!.
    + intros output content Hwr. rewrite Hwr in Hw. destruct Hw as (Hn & (rules & options & -> & Hpol) & Hex).
      exists rules, options. by destruct Hname as [->| ->].
    + intros rest' [= -> ->]. by apply Hcw.
    + intros path Hp. congruence.
    + intros rest' [= -> ->]. by apply Hv.
    + intros m [= -> ->]. done.
  - assert (forall rest', name :: rest <> lit "validate" :: rest') as Hne by (intros rest' [= -> ->]; tauto).
    assert (forall rest', name :: rest <> lit "compile" :: rest') as Hnc by (intros rest' [= -> ->]; tauto).
    unfold misused. destruct (decide (name = lit "status")) as [->|Hns].
    { match goal with |- J ?c => change c with
        (match rest with [] => Ok (exits 2 (complains (line (lit "missing module directory"))))
         | module_dir :: rest => PrintStatus env module_dir (head rest) end : command) end.
      destruct rest as [|module_dir rest]; [apply Hprint; [apply exits_only_prints|done..]|].
      pose proof (PrintStatus_cases env module_dir (head rest)) as Hp.
      destruct (PrintStatus env module_dir (head rest)) as [r|e|]; [|destruct Hp as [Hh Ht]|done].
      - destruct Hp as [(code & shown & [= ->]) Hn]. split_and!; try done. intros m [= -> ->]. by apply Hn.
      - split; [|done]. exists module_dir. by destruct rest. }
    assert (forall m, name :: rest <> [lit "status"; m]) as Hnst by (intros m [= -> ->]; tauto).
    destruct (name == lit "lint"); [apply Hprint; [|done..]; destruct rest as [|? [|]]; auto using exits_only_prints, LintRulesFile_prints|].
    destruct (name == lit "plan").
    { apply Hprint; [|done..]. destruct rest as [|? [|? [|]]]; auto using exits_only_prints, PlanRulesFiles_prints. }
    destruct (_ && _).
    { apply Hprint; [|done..]. destruct rest as [|? [|? [|? [|? [|]]]]]; auto using exits_only_prints, ExplainRulesPath_prints. }
    rewrite (bool_decide_eq_false_2 (name = lit "status")) by done.
    destruct (name == lit "explain").
    { apply Hprint; [|done..]. destruct rest as [|? [|]]; auto using exits_only_prints, ExplainPolicy_prints. }
    destruct (bool_decide (name = lit "reload")) eqn:Er.
    { apply bool_decide_eq_true in Er as ->. destruct rest as [|module_dir rest]; [apply Hprint; [apply exits_only_prints|done..]|].
      destruct (touch_error env); [apply Hprint; [apply exits_only_prints|done..]|].
      split_and!; try done. intros path [= <-]. by exists module_dir, rest. }
    rewrite !bool_decide_eq_false_2 by tauto. apply Hprint; [apply exits_only_prints|done..].
Qed.

(** ** Examples *)

Definition sample_environment : Environment :=
  {| files_read := fun path => if path == lit "rules.toml" then Some sample_rules
                               else if path == lit "m/run/status/12.status" then Some (line (lit "state=ready")) else None;
     status_is_directory := true;
     status_opens := true;
     status_entries := [(lit "12.status", Some true); (lit "12.status.tmp", Some true); (lit "11.status", Some false)];
     status_ends := true; output_opens := true; output_writes := true; output_lost := 0; touch_error := None |}.

Example compile_writes :
  match main sample_parse sample_environment [lit "compile"; lit "rules.toml"; lit "out/policy.bin"] with
  | Ok r => exit_status r = 0 /\ exists content, written r = Some (lit "out/policy.bin", content) /\ content <> []
  | _ => False
  end.
Proof. vm_compute. split; [done|]. by eexists. Qed.

(** The path of the active policy is refused by its text: other spellings of it are not. *)
Example active_policy_refused :
  let compile path := main sample_parse sample_environment [lit "compile"; lit "rules.toml"; path] in
  let written_path path := match compile path with Ok r => fst <$> written r | _ => None end in
  written_path (lit "/data/run/policy.bin") = None /\ written_path (lit "/data/run//policy.bin") = None
  /\ written_path (lit "policy.bin") = Some (lit "policy.bin")
  /\ written_path (lit "/data/run/./policy.bin") = Some (lit "/data/run/./policy.bin").
Proof. vm_compute. done. Qed.

(** An error while the directory is listed ends the program: what it would have shown is lost. *)
Example listing_error_uncaught :
  main sample_parse
    {| files_read := files_read sample_environment; status_is_directory := true; status_opens := true;
       status_entries := [(lit "12.status", Some true); (lit "13.status", None)]; status_ends := true;
       output_opens := true; output_writes := true; output_lost := 0; touch_error := None |} [lit "status"; lit "m"]
  = Err filesystem_error.
Proof. reflexivity. Qed.

(** The stream is asked before what it holds is written out: compile reports success for a policy
    whose end is missing. *)
Example truncated_policy_reported :
  match main sample_parse
    {| files_read := files_read sample_environment; status_is_directory := true; status_opens := true;
       status_entries := []; status_ends := true; output_opens := true; output_writes := true; output_lost := 9;
       touch_error := None |} [lit "compile"; lit "rules.toml"; lit "out.bin"] with
  | Ok r =>
      exit_status r = 0
      /\ match written r with Some (_, content) => VerifyPolicyBytes content 0 = false /\ content <> [] | None => False end
  | _ => False
  end.
Proof. vm_compute. by split_and!. Qed.

(** A file that is too large is refused without a word. *)
Example too_large_is_silent env :
  files_read env (lit "rules.toml") = Some (repeat x20 (S (Z.to_nat (max_source_bytes default_limits)))) ->
  main sample_parse env [lit "validate"; lit "rules.toml"] = Ok (exits 1 silent).
Proof.
  intros Hr. unfold main, ValidateOrCompile, CompileRulesFile. rewrite Hr. unfold Create, size. rewrite repeat_length.
  replace (max_source_bytes default_limits <? Z.of_nat (S (Z.to_nat (max_source_bytes default_limits)))) with true; [done|].
  symmetry. apply Z.ltb_lt. vm_compute max_source_bytes. lia.
Qed.

Example status_lists_files :
  match main sample_parse sample_environment [lit "status"; lit "m"] with
  | Ok r => exit_status r = 0 /\ cout (shown r) = line (lit "[12]") ++ line (lit "state=ready")
  | _ => False
  end.
Proof. vm_compute. done. Qed.

Example usage_without_arguments : main sample_parse sample_environment [] = Ok (exits 2 (complains usage)).
Proof. reflexivity. Qed.
