(* ===== verification/Sha256.v ===== *)
(** * The digest of a rules file

    [Sha256] of daemon/src/rules_control.cpp: the padding, the compression of each block and
    the text of the digest. The 32-bit words are [Z] with the wrap-around of every sum; an
    array of eight words is a record. *)

From S2P Require Import Prelude.

Local Open Scope pg_scope.

(** The rows of the table of the source. *)
Definition kSha256Round : list Z :=
  concat [
    [0x428a2f98; 0x71374491; 0xb5c0fbcf; 0xe9b5dba5; 0x3956c25b];
    [0x59f111f1; 0x923f82a4; 0xab1c5ed5; 0xd807aa98; 0x12835b01];
    [0x243185be; 0x550c7dc3; 0x72be5d74; 0x80deb1fe; 0x9bdc06a7];
    [0xc19bf174; 0xe49b69c1; 0xefbe4786; 0x0fc19dc6; 0x240ca1cc];
    [0x2de92c6f; 0x4a7484aa; 0x5cb0a9dc; 0x76f988da; 0x983e5152];
    [0xa831c66d; 0xb00327c8; 0xbf597fc7; 0xc6e00bf3; 0xd5a79147];
    [0x06ca6351; 0x14292967; 0x27b70a85; 0x2e1b2138; 0x4d2c6dfc];
    [0x53380d13; 0x650a7354; 0x766a0abb; 0x81c2c92e; 0x92722c85];
    [0xa2bfe8a1; 0xa81a664b; 0xc24b8b70; 0xc76c51a3; 0xd192e819];
    [0xd6990624; 0xf40e3585; 0x106aa070; 0x19a4c116; 0x1e376c08];
    [0x2748774c; 0x34b0bcb5; 0x391c0cb3; 0x4ed8aa4a; 0x5b9cca4f];
    [0x682e6ff3; 0x748f82ee; 0x78a5636f; 0x84c87814; 0x8cc70208];
    [0x90befffa; 0xa4506ceb; 0xbef9a3f7; 0xc67178f2]].

Definition RotateRight (value bits : Z) : Z := Z.lor (Z.shiftr value bits) (u32 (Z.shiftl value (32 - bits))).

(** The zeros [push_back] adds until 56 bytes of the last block are used. *)
Definition zeros (n : Z) : bytes := replicate (Z.to_nat ((56 - n) mod 64)) x00.

Definition length_bytes (bit_count : Z) : bytes :=
  (fun shift => byte_of (Z.shiftr bit_count shift)) <$> [56; 48; 40; 32; 24; 16; 8; 0].

Definition pad (input : bytes) : bytes :=
  let bytes := input ++ [x80] in
  bytes ++ zeros (size bytes) ++ length_bytes (u64 (size input * 8)).

Record Hash : Type := { ha : Z; hb : Z; hc : Z; hd : Z; he : Z; hf : Z; hg : Z; hh : Z }.

Definition initial_hash : Hash :=
  {| ha := 0x6a09e667; hb := 0xbb67ae85; hc := 0x3c6ef372; hd := 0xa54ff53a;
     he := 0x510e527f; hf := 0x9b05688c; hg := 0x1f83d9ab; hh := 0x5be0cd19 |}.

(** The first sixteen words of a block, big-endian. *)
Fixpoint block_words (block : bytes) : list Z :=
  match block with
  | b0 :: b1 :: b2 :: b3 :: rest =>
      Z.lor (Z.lor (Z.lor (Z.shiftl (byte_val b0) 24) (Z.shiftl (byte_val b1) 16))
               (Z.shiftl (byte_val b2) 8)) (byte_val b3) :: block_words rest
  | _ => []
  end.

Definition word (words : list Z) (index : nat) : Z := nth index words 0.

(** The loop that extends the words, [words] being those computed so far. *)
Fixpoint extend_words (count : nat) (words : list Z) : list Z :=
  match count with
  | O => words
  | S count =>
      let index := length words in
      let w15 := word words (index - 15) in
      let w2 := word words (index - 2) in
      let s0 := Z.lxor (Z.lxor (RotateRight w15 7) (RotateRight w15 18)) (Z.shiftr w15 3) in
      let s1 := Z.lxor (Z.lxor (RotateRight w2 17) (RotateRight w2 19)) (Z.shiftr w2 10) in
      extend_words count (words ++ [u32 (word words (index - 16) + s0 + word words (index - 7) + s1)])
  end.

Definition round (h : Hash) (k w : Z) : Hash :=
  let sigma1 := Z.lxor (Z.lxor (RotateRight (he h) 6) (RotateRight (he h) 11)) (RotateRight (he h) 25) in
  let choose := Z.lxor (Z.land (he h) (hf h)) (Z.land (u32 (Z.lnot (he h))) (hg h)) in
  let temp1 := u32 (hh h + sigma1 + choose + k + w) in
  let sigma0 := Z.lxor (Z.lxor (RotateRight (ha h) 2) (RotateRight (ha h) 13)) (RotateRight (ha h) 22) in
  let majority := Z.lxor (Z.lxor (Z.land (ha h) (hb h)) (Z.land (ha h) (hc h))) (Z.land (hb h) (hc h)) in
  let temp2 := u32 (sigma0 + majority) in
  {| ha := u32 (temp1 + temp2); hb := ha h; hc := hb h; hd := hc h;
     he := u32 (hd h + temp1); hf := he h; hg := hf h; hh := hg h |}.

Fixpoint rounds (constants words : list Z) (h : Hash) : Hash :=
  match constants, words with
  | k :: constants, w :: words => rounds constants words (round h k w)
  | _, _ => h
  end.

Definition compress (h : Hash) (block : bytes) : Hash :=
  let r := rounds kSha256Round (extend_words 48 (block_words block)) h in
  {| ha := u32 (ha h + ha r); hb := u32 (hb h + hb r); hc := u32 (hc h + hc r); hd := u32 (hd h + hd r);
     he := u32 (he h + he r); hf := u32 (hf h + hf r); hg := u32 (hg h + hg r); hh := u32 (hh h + hh r) |}.

(** The loop over the blocks. *)
Fixpoint compress_blocks (fuel : nat) (h : Hash) (bytes : bytes) : Hash :=
  match fuel, bytes with
  | S fuel, _ :: _ => compress_blocks fuel (compress h (take 64 bytes)) (drop 64 bytes)
  | _, _ => h
  end.

Definition hex_byte (z : Z) : byte := byte_of (if z <? 10 then 48 + z else 87 + z).

(** [std::setw(8) << std::hex] *)
Definition hex_word (w : Z) : bytes :=
  (fun shift => hex_byte (Z.land (Z.shiftr w shift) 15)) <$> [28; 24; 20; 16; 12; 8; 4; 0].

Definition Sha256 (input : bytes) : bytes :=
  let bytes := pad input in
  let h := compress_blocks (length bytes) initial_hash bytes in
  lit "sha256:" ++ hex_word (ha h) ++ hex_word (hb h) ++ hex_word (hc h) ++ hex_word (hd h)
  ++ hex_word (he h) ++ hex_word (hf h) ++ hex_word (hg h) ++ hex_word (hh h).

(** The test vectors of FIPS 180-4. *)
Lemma Sha256_abc :
  Sha256 (lit "abc") = lit "sha256:ba7816bf8f01cfea414140de5dae2223b00361a396177a9cb410ff61f20015ad".
Proof. vm_compute. reflexivity. Qed.

Lemma Sha256_empty :
  Sha256 [] = lit "sha256:e3b0c44298fc1c149afbf4c8996fb92427ae41e4649b934ca495991b7852b855".
Proof. vm_compute. reflexivity. Qed.

Lemma Sha256_two_blocks :
  Sha256 (lit "abcdbcdecdefdefgefghfghighijhijkijkljklmklmnlmnomnopnopq")
  = lit "sha256:248d6a61d20638b8e5c026930c3e6039a33ce45964ff2167f6ecedd419db06c1".
Proof. vm_compute. reflexivity. Qed.

(** ** The padding *)

Lemma size_zeros n : size (zeros n) = (56 - n) mod 64.
Proof.
  unfold zeros, size. rewrite length_replicate. pose proof (Z.mod_pos_bound (56 - n) 64 ltac:(lia)). lia.
Qed.

(** The padded text is made of whole blocks, and of no more than are needed. *)
Lemma size_pad input : size (pad input) mod 64 = 0 /\ size input + 9 <= size (pad input) < size input + 73.
Proof.
  unfold pad. cbv zeta. rewrite !size_app, size_zeros. change (size [x80]) with 1.
  change (size (length_bytes _)) with 8.
  pose proof (Z.mod_pos_bound (56 - (size input + 1)) 64 ltac:(lia)). split; [|lia].
  rewrite (Z.mod_eq (56 - (size input + 1))) by lia.
  replace (size input + 1 + (56 - (size input + 1) - 64 * ((56 - (size input + 1)) / 64) + 8))
    with ((1 - (56 - (size input + 1)) / 64) * 64) by lia.
  apply Z.mod_mul. lia.
Qed.

Lemma length_bytes_inj a b :
  0 <= a < 2 ^ 64 -> 0 <= b < 2 ^ 64 -> length_bytes a = length_bytes b -> a = b.
Proof.
  intros Ha Hb E. unfold length_bytes in E. cbn [fmap list_fmap] in E.
  injection E as E0 E1 E2 E3 E4 E5 E6 E7.
  apply (f_equal byte_val) in E0, E1, E2, E3, E4, E5, E6, E7. rewrite !byte_val_of in *.
  rewrite !Z.shiftr_div_pow2 in * by lia. clear -Ha Hb E0 E1 E2 E3 E4 E5 E6 E7.
  rewrite ?Z.pow_0_r, ?Z.div_1_r in *.
  assert (forall z, 0 <= z < 2 ^ 64 ->
    z = z mod 256 + 2 ^ 8 * (z / 2 ^ 8 mod 256) + 2 ^ 16 * (z / 2 ^ 16 mod 256) + 2 ^ 24 * (z / 2 ^ 24 mod 256)
        + 2 ^ 32 * (z / 2 ^ 32 mod 256) + 2 ^ 40 * (z / 2 ^ 40 mod 256) + 2 ^ 48 * (z / 2 ^ 48 mod 256)
        + 2 ^ 56 * (z / 2 ^ 56 mod 256)) as Hdigits.
  { intros z Hz. Z.div_mod_to_equations. lia. }
  rewrite (Hdigits a Ha), (Hdigits b Hb). congruence.
Qed.

Lemma pad_inj a b :
  size a < 2 ^ 61 -> size b < 2 ^ 61 -> pad a = pad b -> a = b.
Proof.
  intros Ha Hb E. unfold pad in E. cbv zeta in E. pose proof (size_nonneg a). pose proof (size_nonneg b).
  rewrite !app_assoc in E. apply app_inj_2 in E as [E El]; [|done].
  rewrite !u64_small in El by lia. apply length_bytes_inj in El; [|lia..].
  assert (size a = size b) as Es by lia. rewrite <- !app_assoc in E.
  apply app_inj_1 in E as [E _]; [done|]. unfold size in Es. lia.
Qed.
