(* ===== verification/Control.v ===== *)
(** * The rules control of the daemon

    daemon/src/rules_control.cpp: loading the source, publishing a policy, the status files, and
    the reconciler. A directory is a map from file names to contents; what the kernel answers to
    each call is a field of a record of answers, so that every failure of every call is covered.
    A publication also gives the states the directory goes through, for a crash may leave any of
    them. Of the two branches for Windows and for the other systems the latter is modelled. *)

From S2P Require Import Prelude Source Policy PolicyFormat Binary BinaryProofs BinaryRoundTrip MountBackend Semantic Compiler Sha256.

Local Open Scope pg_scope.

Abbreviation Files := (gmap bytes bytes).

Definition policy_bin : bytes := lit "policy.bin".
Definition rules_status_txt : bytes := lit "rules-status.txt".
Definition rules_status_json : bytes := lit "rules-status.json".
Definition kRulesFileName : bytes := lit "rules.toml".

(** ** Reading the source *)

(** [struct stat], as far as it is looked at. *)
Record FileStat : Type := {
  st_regular : bool;
  st_own : bool;
  st_mode : Z;
  st_size : Z;
  st_dev : Z;
  st_ino : Z;
  st_mtime_sec : Z;
  st_mtime_nsec : Z;
}.

(** What the kernel answers while [LoadRulesSource] runs: a read gives an error or bytes. *)
Record SourceAnswers : Type := {
  directory_opens : bool;
  file_opens : bool;
  stat_before : option FileStat;
  first_reads : list (option bytes);
  seeks : bool;
  second_reads : list (option bytes);
  stat_after : option FileStat;
}.

(** [ReadFd]: a read gives no more than was asked for. *)
Fixpoint ReadFd (remaining : nat) (reads : list (option bytes)) : option bytes :=
  match reads with
  | [] => None
  | answer :: rest =>
      match remaining, answer with
      | O, Some [] => Some []
      | O, _ => None
      | _, None => None
      | _, Some [] => None
      | _, Some data =>
          let chunk := take remaining data in
          more ← ReadFd (remaining - length chunk) rest;
          Some (chunk ++ more)
      end
  end.

(** [std::string::find] of a text from an offset on, as a test. *)
Fixpoint contains (needle s : bytes) : bool :=
  starts_with needle s || match s with [] => false | _ :: s => contains needle s end.

Record SourceSnapshot : Type := { snapshot_source : SourceBuffer; snapshot_digest : bytes }.

(** The code and the message of an error. *)
Abbreviation load_error := (bytes * bytes)%type.

Definition safe_stat (s : FileStat) : bool := st_regular s && st_own s && (Z.land (st_mode s) 18 =? 0).

Definition same_identity (before after : FileStat) : bool :=
  (st_dev before =? st_dev after) && (st_ino before =? st_ino after) && (st_size before =? st_size after)
  && (st_mtime_sec before =? st_mtime_sec after) && (st_mtime_nsec before =? st_mtime_nsec after).

Definition LoadRulesSource (limits : RulesLimits) (a : SourceAnswers) : outcome load_error SourceSnapshot :=
  let fail c m := Err (c, m) in
  if negb (directory_opens a) then fail (lit "PG-SOURCE-READ") (lit "cannot open rules directory")
  else if negb (file_opens a) then fail (lit "PG-SOURCE-UNSAFE") (lit "cannot securely open rules.toml")
  else
    match stat_before a with
    | None => fail (lit "PG-SOURCE-UNSAFE") (lit "rules.toml has unsafe type, owner, or mode")
    | Some before =>
        if negb (safe_stat before)
        then fail (lit "PG-SOURCE-UNSAFE") (lit "rules.toml has unsafe type, owner, or mode")
        else if (st_size before <? 0) || (max_source_bytes limits <? st_size before)
        then fail kResourceLimit (lit "rules.toml exceeds source byte limit")
        else
          match ReadFd (Z.to_nat (st_size before)) (first_reads a) with
          | None => fail (lit "PG-SOURCE-READ") (lit "cannot read complete rules.toml")
          | Some bytes =>
              if negb (seeks a) then fail (lit "PG-SOURCE-UNSTABLE") (lit "cannot repeat stable rules.toml read")
              else
                let stable :=
                  match ReadFd (Z.to_nat (st_size before)) (second_reads a), stat_after a with
                  | Some stable_bytes, Some after => same_identity before after && (bytes == stable_bytes)
                  | _, _ => false
                  end in
                if negb stable then fail (lit "PG-SOURCE-UNSTABLE") (lit "rules.toml changed during stable read")
                else if contains bom (drop (if starts_with bom bytes then 3 else 0) bytes)
                then fail (lit "PG-SOURCE-BOM") (lit "UTF-8 BOM is only allowed at byte zero")
                else
                  match Create kRulesFileName bytes limits with
                  | Ok source => Ok {| snapshot_source := source; snapshot_digest := Sha256 (source_bytes source) |}
                  | Err d => fail (code d) (message_key d)
                  | Oob => Oob
                  end
          end
    end.

(** ** Files *)

Definition rename (ok : bool) (from to : bytes) (files : Files) : bool * Files :=
  match files !! from with
  | Some content => if ok then (true, <[to := content]> (delete from files)) else (false, files)
  | None => (false, files)
  end.

Definition RemoveIfExists (ok : bool) (name : bytes) (files : Files) : Files :=
  if ok then delete name files else files.

(** [ReadGeneration]: the generation of a policy file that can be read and decoded. *)
Definition ReadGeneration (reads : bool) (name : bytes) (files : Files) : option Z :=
  content ← files !! name;
  if reads : bool then
    match DecodePolicy content with
    | Ok (_, generation) => Some generation
    | _ => None
    end
  else None.

(** ** [Publisher::Publish] *)

Inductive PublishFault : Set :=
  | kNone | kCreate | kWrite | kSetMode | kSetOwner | kSetContext | kVerify | kFileSync | kRename | kDirectorySync.

#[export] Instance publish_fault_eq_dec : EqDecision PublishFault.
Proof. solve_decision. Defined.

Record PublishResult : Type := {
  published : bool;
  unchanged : bool;
  published_generation : Z;
  publish_message : bytes;
}.

Definition publish_ok (r : PublishResult) : bool := published r || unchanged r.

(** The answers of the file system. [stored] is what the candidate holds once its stream is
    closed; [torn] what it holds when writing failed. *)
Record PublishAnswers : Type := {
  active_reads : bool;
  creates_directories : bool;
  candidate_opens : bool;
  candidate_writes : bool;
  torn : bytes;
  stored : bytes;
  permissions_set : bool;
  candidate_reads : bool;
  candidate_syncs : bool;
  active_stats : bool;
  active_preserved : bool;
  candidate_renamed : bool;
  backup_restored : bool;
  directory_syncs : bool;
  candidate_removed : bool;
  active_removed : bool;
  backup_removed : bool;
}.

Definition candidate_name (suffix : bytes) : bytes := lit ".policy.bin.candidate." ++ suffix.
Definition backup_name (suffix : bytes) : bytes := lit ".policy.bin.backup." ++ suffix.

(** The end of a publication, from the rename of the active policy on: the candidate is
    written and verified. The list holds the states of the directory, in order. *)
Definition replace_active (fault : PublishFault) (a : PublishAnswers) (suffix : bytes)
    (finish : bool -> bytes -> PublishResult) (files : Files) : PublishResult * list Files :=
  let temporary := candidate_name suffix in
  let backup := backup_name suffix in
  let remove := RemoveIfExists (candidate_removed a) temporary in
  let had_active := active_stats a && bool_decide (is_Some (files !! policy_bin)) in
  let '(preserved, files1) :=
    if had_active then rename (active_preserved a) policy_bin backup files else (true, files) in
  if negb preserved then (finish false (lit "cannot preserve active policy"), [remove files1])
  else
    let '(renamed, files2) :=
      if fault == kRename then (false, files1)
      else rename (candidate_renamed a) temporary policy_bin files1 in
    if negb renamed then
      let files3 := if had_active then (rename (backup_restored a) backup policy_bin files2).2 else files2 in
      (finish false (lit "cannot atomically replace policy.bin"), [files1; files3; remove files3])
    else if negb (negb (fault == kDirectorySync) && directory_syncs a) then
      let files3 := RemoveIfExists (active_removed a) policy_bin files2 in
      let files4 := if had_active then (rename (backup_restored a) backup policy_bin files3).2 else files3 in
      (finish false (lit "cannot fsync policy directory; previous policy restored"),
       [files1; files2; files3; files4])
    else (finish true [], [files1; files2; RemoveIfExists (backup_removed a) backup files2]).

Definition Publish (fault : PublishFault) (a : PublishAnswers) (suffix : bytes) (blob : PolicyBlob)
    (files : Files) : PublishResult * list Files :=
  let finish done message :=
    {| published := done; unchanged := false; published_generation := blob_generation blob;
       publish_message := message |} in
  if ReadGeneration (active_reads a) policy_bin files == Some (blob_generation blob) then
    ({| published := false; unchanged := true; published_generation := blob_generation blob;
        publish_message := [] |}, [])
  else if negb (creates_directories a) || (fault == kCreate)
  then (finish false (lit "cannot create policy candidate"), [])
  else
    let temporary := candidate_name suffix in
    let remove := RemoveIfExists (candidate_removed a) temporary in
    let opened := if candidate_opens a then <[temporary := []]> files else files in
    if negb (candidate_opens a) || (fault == kWrite)
    then (finish false (lit "cannot write policy candidate"), [opened; remove opened])
    else
      let written := <[temporary := if candidate_writes a then stored a else torn a]> opened in
      let fail message := (finish false message, [opened; written; remove written]) in
      if negb (candidate_writes a) then fail (lit "cannot write complete policy candidate")
      else if fault == kSetMode then fail (lit "cannot set policy mode")
      else if negb (permissions_set a) || (fault == kSetOwner) || (fault == kSetContext)
      then fail (lit "cannot set policy security attributes")
      else
        let written_bytes := if candidate_reads a then default [] (written !! temporary) else [] in
        if (fault == kVerify) || negb (candidate_reads a) || (written_bytes != blob_bytes blob)
           || negb (VerifyPolicyBytes written_bytes (blob_generation blob))
        then fail (lit "policy candidate verification failed")
        else if (fault == kFileSync) || negb (candidate_syncs a)
        then fail (lit "cannot fsync policy candidate")
        else
          let '(result, states) := replace_active fault a suffix finish written in
          (result, opened :: written :: states).

(** The directory in the end. *)
Definition final (files : Files) (states : list Files) : Files := default files (last states).

(** ** The status files *)

Inductive ControlStatus : Set := kActive | kSourceInvalid | kEnvironmentUnsupported | kPublishFailed.

#[export] Instance control_status_eq_dec : EqDecision ControlStatus.
Proof. solve_decision. Defined.

Record ControlState : Type := {
  source_digest : bytes;
  candidate_sequence : Z;
  active_content_generation : Z;
  deployment_epoch : Z;
  state_capability_generation : Z;
  state_topology_generation : Z;
  status : ControlStatus;
  error_code : bytes;
  message : bytes;
}.

Definition StatusName (s : ControlStatus) : bytes :=
  match s with
  | kActive => lit "active"
  | kSourceInvalid => lit "source_invalid"
  | kEnvironmentUnsupported => lit "environment_unsupported"
  | kPublishFailed => lit "publish_failed"
  end.

Definition json_escape_byte (b : byte) : bytes :=
  (if (b == x5c) || (b == x22) then [x5c] else [])
  ++ (if b == x0a then [x5c; x6e] else if b != x0d then [b] else []).

Definition JsonEscape (input : bytes) : bytes := flat_map json_escape_byte input.

Definition status_line (key value : bytes) : bytes := key ++ lit ": " ++ value ++ [x0a].

Definition RenderControlStatusText (s : ControlState) : bytes :=
  status_line (lit "source") (lit "rules.toml")
  ++ status_line (lit "source_digest") (source_digest s)
  ++ status_line (lit "candidate_sequence") (to_string (candidate_sequence s))
  ++ status_line (lit "active_content_generation") (to_string (active_content_generation s))
  ++ status_line (lit "deployment_epoch") (to_string (deployment_epoch s))
  ++ status_line (lit "capability_generation") (to_string (state_capability_generation s))
  ++ status_line (lit "topology_generation") (to_string (state_topology_generation s))
  ++ status_line (lit "status") (StatusName (status s))
  ++ status_line (lit "error_code") (error_code s)
  ++ status_line (lit "message") (message s).

Definition RenderControlStatusJson (s : ControlState) : bytes :=
  let text key value := quoted key ++ lit ":" ++ quoted value in
  let number key value := quoted key ++ lit ":" ++ to_string value in
  lit "{" ++ text (lit "source") (lit "rules.toml")
  ++ lit "," ++ text (lit "source_digest") (JsonEscape (source_digest s))
  ++ lit "," ++ number (lit "candidate_sequence") (candidate_sequence s)
  ++ lit "," ++ number (lit "active_content_generation") (active_content_generation s)
  ++ lit "," ++ number (lit "deployment_epoch") (deployment_epoch s)
  ++ lit "," ++ number (lit "capability_generation") (state_capability_generation s)
  ++ lit "," ++ number (lit "topology_generation") (state_topology_generation s)
  ++ lit "," ++ text (lit "status") (StatusName (status s))
  ++ lit "," ++ text (lit "error_code") (JsonEscape (error_code s))
  ++ lit "," ++ text (lit "message") (JsonEscape (message s)) ++ lit "}" ++ [x0a].

(** [std::string::find] from the beginning: what follows the first occurrence. *)
Fixpoint after_first (needle s : bytes) : option bytes :=
  if starts_with needle s then Some (drop (length needle) s)
  else match s with [] => None | _ :: s => after_first needle s end.

(** [ReadStatusNumber]: zero when the number cannot be read. *)
Definition ReadStatusNumber (reads : bool) (name key : bytes) (files : Files) : Z :=
  match files !! name with
  | Some text =>
      if reads : bool then
        match after_first (key ++ lit ": ") text with
        | Some rest => default 0 (from_chars 64 (cut x0a rest).1)
        | None => 0
        end
      else 0
  | None => 0
  end.

(** The answers while a text is written. [text_lost] bytes at the end of the text do not reach the
    file: because the write fails, which the stream reports, or because what is left in its buffer
    cannot be written when it is closed, which nobody asks about. *)
Record WriteAnswers : Type := {
  text_opens : bool;
  text_writes : bool;
  text_lost : nat;
  text_permissions : bool;
  text_syncs : bool;
  text_renamed : bool;
  text_directory_syncs : bool;
  text_removed : bool;
}.

(** What the file holds after a text was written to it. *)
Definition landed (a : WriteAnswers) (text : bytes) : bytes := take (length text - text_lost a) text.

Definition AtomicWriteText (a : WriteAnswers) (suffix name text : bytes) (files : Files) : bool * Files :=
  let temporary := lit "." ++ name ++ lit "." ++ suffix in
  let remove := RemoveIfExists (text_removed a) temporary in
  if negb (text_opens a) then (false, files)
  else
    let written := <[temporary := landed a text]> files in
    if negb (text_writes a) then (false, remove written) else
    if negb (text_permissions a) || negb (text_syncs a) then (false, remove written)
    else
      let '(renamed, replaced) := rename (text_renamed a) temporary name written in
      if negb renamed then (false, remove replaced) else (text_directory_syncs a, replaced).

(** The answers while both status files are written. *)
Record StatusAnswers : Type := {
  run_directory_made : bool;
  text_answers : WriteAnswers;
  text_suffix : bytes;
  json_answers : WriteAnswers;
  json_suffix : bytes;
}.

Definition WriteControlStatus (a : StatusAnswers) (s : ControlState) (files : Files) : bool * Files :=
  if negb (run_directory_made a) then (false, files)
  else
    let '(text_ok, files) := AtomicWriteText (text_answers a) (text_suffix a) rules_status_txt (RenderControlStatusText s) files in
    if text_ok then
      AtomicWriteText (json_answers a) (json_suffix a) rules_status_json (RenderControlStatusJson s) files
    else (false, files).

(** ** The reconciler *)

Record Reconciler : Type := {
  run_files : Files;
  snapshot_ : DeviceSnapshot;
  state_ : ControlState;
  device_dirty_ : bool;
}.

Record ReconcileResult : Type := {
  result_state : ControlState;
  result_compiled : bool;
  result_published : bool;
  result_unchanged : bool;
}.

Definition reconcile_ok (r : ReconcileResult) : bool := status (result_state r) == kActive.

Definition initial_state : ControlState :=
  {| source_digest := []; candidate_sequence := 0; active_content_generation := 0; deployment_epoch := 0;
     state_capability_generation := 0; state_topology_generation := 0; status := kSourceInvalid;
     error_code := []; message := [] |}.

(** The constructor: [policy_reads] and [status_reads] answer the opening of the two files. *)
Definition NewReconciler (policy_reads status_reads : bool) (files : Files) (snapshot : DeviceSnapshot)
    : Reconciler :=
  let generation := default 0 (ReadGeneration policy_reads policy_bin files) in
  let epoch :=
    if generation =? 0 then 0
    else
      let recorded_generation :=
        ReadStatusNumber status_reads rules_status_txt (lit "active_content_generation") files in
      let recorded_epoch := ReadStatusNumber status_reads rules_status_txt (lit "deployment_epoch") files in
      if (recorded_generation =? generation) && negb (recorded_epoch =? 0) then recorded_epoch else 1 in
  {| run_files := files; snapshot_ := snapshot;
     state_ := {| source_digest := []; candidate_sequence := 0; active_content_generation := generation;
                  deployment_epoch := epoch; state_capability_generation := 0; state_topology_generation := 0;
                  status := kSourceInvalid; error_code := []; message := [] |};
     device_dirty_ := false |}.

Definition SetDeviceSnapshot (snapshot : DeviceSnapshot) (r : Reconciler) : Reconciler :=
  {| run_files := run_files r; snapshot_ := snapshot; state_ := state_ r; device_dirty_ := true |}.

(** *** Updates of the state *)

Definition set_error (s : ControlState) (st : ControlStatus) (c m : bytes) : ControlState :=
  {| source_digest := source_digest s; candidate_sequence := candidate_sequence s;
     active_content_generation := active_content_generation s; deployment_epoch := deployment_epoch s;
     state_capability_generation := state_capability_generation s;
     state_topology_generation := state_topology_generation s; status := st; error_code := c; message := m |}.

Definition set_generations (s : ControlState) (snapshot : DeviceSnapshot) : ControlState :=
  {| source_digest := source_digest s; candidate_sequence := candidate_sequence s;
     active_content_generation := active_content_generation s; deployment_epoch := deployment_epoch s;
     state_capability_generation := capability_generation snapshot;
     state_topology_generation := topology_generation snapshot; status := status s;
     error_code := error_code s; message := message s |}.

Definition next_candidate (s : ControlState) (digest : bytes) : ControlState :=
  {| source_digest := digest; candidate_sequence := u64 (candidate_sequence s + 1);
     active_content_generation := active_content_generation s; deployment_epoch := deployment_epoch s;
     state_capability_generation := state_capability_generation s;
     state_topology_generation := state_topology_generation s; status := status s;
     error_code := error_code s; message := message s |}.

Definition activate (s : ControlState) (generation : Z) (p : bool) : ControlState :=
  {| source_digest := source_digest s; candidate_sequence := candidate_sequence s;
     active_content_generation := generation;
     deployment_epoch := if p then u64 (deployment_epoch s + 1) else deployment_epoch s;
     state_capability_generation := state_capability_generation s;
     state_topology_generation := state_topology_generation s; status := kActive; error_code := [];
     message := if p then lit "policy activated" else lit "source validated; policy content unchanged" |}.

Definition not_activated : bytes :=
  lit "; new configuration was not activated; previous policy remains active".

Definition not_admitted : bytes :=
  lit "device capabilities or topology do not satisfy policy requirements".

(** The answers during [Reconcile], and the fault it is asked to inject. *)
Record ReconcileAnswers : Type := {
  source_answers : SourceAnswers;
  fail_at : PublishFault;
  publish_answers : PublishAnswers;
  publish_suffix : bytes;
  status_answers : StatusAnswers;
}.

Section Reconcile.
Context {value : Type} `{TomlValue value} (limits : RulesLimits).
Context (parse : bytes -> source_region + toml_node value).

(** The code and the text of the first diagnostic. *)
Definition first_error (built : RulesBuildResult) (source : SourceBuffer) : bytes * bytes :=
  match build_diagnostics built with
  | d :: _ => (code d, RenderDiagnosticText d source)
  | [] => (kCompilerInternal, lit "rules compiler failed")
  end.

Definition Reconcile (a : ReconcileAnswers) (r : Reconciler) : ReconcileResult * Reconciler :=
  (* [WriteControlStatus] and the result that is returned *)
  let finish files s dirty compiled p u :=
    ({| result_state := s; result_compiled := compiled; result_published := p; result_unchanged := u |},
     {| run_files := (WriteControlStatus (status_answers a) s files).2; snapshot_ := snapshot_ r;
        state_ := s; device_dirty_ := dirty |}) in
  let dirty := device_dirty_ r in
  match LoadRulesSource limits (source_answers a) with
  | Err (c, m) =>
      let s := next_candidate (state_ r) (source_digest (state_ r)) in
      finish (run_files r) (set_error s kSourceInvalid c (m ++ not_activated)) dirty false false false
  | Oob => finish (run_files r) (state_ r) dirty false false false
  | Ok loaded =>
      if (snapshot_digest loaded == source_digest (state_ r)) && negb dirty
      then finish (run_files r) (set_generations (state_ r) (snapshot_ r)) dirty false false true
      else
        let s := next_candidate (state_ r) (snapshot_digest loaded) in
        let built := CompileRulesSource limits parse (snapshot_source loaded) in
        match ok built, build_canonical built, build_blob built with
        | true, Some canonical, Some blob =>
            let admission := AdmitPolicy canonical (build_requirements built) (snapshot_ r) in
            let s := set_generations s (snapshot_ r) in
            if negb (admitted admission) then
              finish (run_files r)
                (set_error s kEnvironmentUnsupported (lit "PG-ADMISSION-UNSUPPORTED") (not_admitted ++ not_activated))
                false true false false
            else
              let '(p, states) :=
                Publish (fail_at a) (publish_answers a) (publish_suffix a) blob (run_files r) in
              let files := final (run_files r) states in
              if negb (publish_ok p) then
                finish files
                  (set_error s kPublishFailed (lit "PG-PUBLISH-FAILED") (publish_message p ++ not_activated))
                  false true false false
              else
                finish files (activate s (blob_generation blob) (published p)) false true
                  (published p) (unchanged p)
        | _, _, _ =>
            let '(c, m) := first_error built (snapshot_source loaded) in
            finish (run_files r) (set_error s kSourceInvalid c (m ++ not_activated)) false true false false
        end
  end.

(** *** [SaveRules] *)

Record ManagerSaveResult : Type := {
  save_reconcile : ReconcileResult;
  saved : bool;
  save_error_code : bytes;
  save_message : bytes;
}.

(** The answers during [SaveRules]: the two readings of the source, the writing of rules.toml in
    the configuration directory, and the reconciliation that follows. *)
Record SaveAnswers : Type := {
  current_source : SourceAnswers;
  source_before_commit : SourceAnswers;
  rules_write : WriteAnswers;
  rules_suffix : bytes;
  reconcile_answers : ReconcileAnswers;
}.

Definition SaveRules (a : SaveAnswers) (expected_source_digest replacement : bytes) (config : Files)
    (r : Reconciler) : ManagerSaveResult * Files * Reconciler :=
  let unreconciled :=
    {| result_state := state_ r; result_compiled := false; result_published := false;
       result_unchanged := false |} in
  let reject config c m :=
    ({| save_reconcile := unreconciled; saved := false; save_error_code := c; save_message := m |}, config, r) in
  match LoadRulesSource limits (current_source a) with
  | Err (c, m) => reject config c m
  | Oob => reject config [] []
  | Ok current =>
      if snapshot_digest current != expected_source_digest
      then reject config (lit "PG-SOURCE-CONFLICT") (lit "rules.toml changed since the Manager snapshot")
      else
        match Create kRulesFileName replacement limits with
        | Err d => reject config (code d) (message_key d)
        | Oob => reject config [] []
        | Ok candidate =>
            let built := CompileRulesSource limits parse candidate in
            match ok built, build_canonical built with
            | true, Some canonical =>
                let admission := AdmitPolicy canonical (build_requirements built) (snapshot_ r) in
                if negb (admitted admission) then reject config (lit "PG-ADMISSION-UNSUPPORTED") not_admitted
                else
                  match LoadRulesSource limits (source_before_commit a) with
                  | Err (c, m) => reject config c m
                  | Oob => reject config [] []
                  | Ok before_commit =>
                      if snapshot_digest before_commit != expected_source_digest
                      then reject config (lit "PG-SOURCE-CONFLICT")
                             (lit "rules.toml changed while the save was being validated")
                      else
                        let '(written, config) :=
                          AtomicWriteText (rules_write a) (rules_suffix a) kRulesFileName (source_bytes candidate)
                            config in
                        if negb written
                        then reject config (lit "PG-SOURCE-WRITE") (lit "cannot atomically replace rules.toml")
                        else
                          let '(result, r) := Reconcile (reconcile_answers a) r in
                          let s := result_state result in
                          ({| save_reconcile := result; saved := true;
                              save_error_code := if reconcile_ok result then [] else error_code s;
                              save_message := if reconcile_ok result then [] else message s |}, config, r)
                  end
            | _, _ =>
                let '(c, m) := first_error built candidate in
                reject config c m
            end
        end
  end.

Definition save_ok (r : ManagerSaveResult) : bool := saved r && reconcile_ok (save_reconcile r).
End Reconcile.

(** ** Lemmas: files *)

Lemma candidate_not_active s : candidate_name s <> policy_bin.
Proof. discriminate. Qed.

Lemma backup_not_active s : backup_name s <> policy_bin.
Proof. discriminate. Qed.

Lemma candidate_not_backup s t : candidate_name s <> backup_name t.
Proof. discriminate. Qed.

Section Publishing.
Context (a : PublishAnswers) (suffix : bytes) (blob : PolicyBlob) (files : Files).
Context (Hcandidate : files !! candidate_name suffix = None) (Hbackup : files !! backup_name suffix = None).
Context (Hstat : active_stats a = true).

(** The active policy, in a state a crash may leave: the one before, the verified new one, or
    none while the one before is kept as the backup. *)
Definition crash_state (s : Files) : Prop :=
  s !! policy_bin = files !! policy_bin
  \/ (s !! policy_bin = Some (blob_bytes blob)
      /\ VerifyPolicyBytes (blob_bytes blob) (blob_generation blob) = true)
  \/ (s !! policy_bin = None /\ s !! backup_name suffix = files !! policy_bin).

(** Every removal and renaming that undoes a step works. *)
Definition undoes : Prop := candidate_removed a = true /\ active_removed a = true /\ backup_restored a = true.

(** Decides a lookup, or an equality, of directories that differ at known names. *)
Ltac lookups := unfold RemoveIfExists in *; repeat case_match; simplify_map_eq; try done.

Ltac each_state := repeat (apply Forall_cons; split); try apply Forall_nil_2.

Ltac same_files names :=
  apply map_eq; let k := fresh "k" in intros k;
  match names with
  | (?x, ?y, ?z) => destruct (decide (k = x)) as [->|]; [|destruct (decide (k = y)) as [->|];
      [|destruct (decide (k = z)) as [->|]]]
  end; simplify_map_eq; try done; try congruence.

(** The states and the end of a publication whose candidate is written and verified. *)
Lemma replace_active_safe fault finish written :
  written = <[candidate_name suffix := blob_bytes blob]> files ->
  VerifyPolicyBytes (blob_bytes blob) (blob_generation blob) = true ->
  (forall d m, published (finish d m) = d /\ unchanged (finish d m) = false) ->
  let '(r, states) := replace_active fault a suffix finish written in
  Forall crash_state states
  /\ unchanged r = false
  /\ (published r = true -> exists l, last states = Some l /\ l !! policy_bin = Some (blob_bytes blob))
  /\ (published r = false -> undoes -> last states = Some files).
Proof.
  intros -> Hv Hf. unfold replace_active, crash_state, undoes. rewrite Hstat. cbn [andb].
  assert (forall d m, published (finish d m) = d) as Hp by (intros; apply Hf).
  assert (forall d m, unchanged (finish d m) = false) as Hu by (intros; apply Hf). clear Hf.
  pose proof (candidate_not_active suffix) as HTA. pose proof (backup_not_active suffix) as HBA.
  pose proof (candidate_not_backup suffix suffix) as HTB. revert Hcandidate Hbackup.
  set (T := candidate_name suffix) in *. set (B := backup_name suffix) in *. set (A := policy_bin) in *.
  clearbody T B A. intros HT HB. rewrite lookup_insert_ne by done.
  destruct (files !! A) as [old|] eqn:Hold; [rewrite bool_decide_eq_true_2 by eauto
    |rewrite bool_decide_eq_false_2 by (intros [? ?]; done)]; cbn [andb].
  - unfold rename at 1. rewrite lookup_insert_ne, Hold by done.
    destruct (active_preserved a); cbn [negb].
    2:{ split_and!; [each_state; left; lookups|apply Hu|by rewrite Hp|].
        intros _ (Hrm & _). cbn. unfold RemoveIfExists. rewrite Hrm. f_equal. same_files (T, B, A). }
    set (f1 := <[B := old]> (delete A (<[T := blob_bytes blob]> files))).
    assert (f1 !! T = Some (blob_bytes blob)) as H1T by (unfold f1; by simplify_map_eq).
    assert (f1 !! B = Some old) as H1B by (unfold f1; by simplify_map_eq).
    assert (f1 !! A = None) as H1A by (unfold f1; by simplify_map_eq).
    unfold rename. rewrite H1T.
    assert (let f3 := (if backup_restored a then (true, <[A := old]> (delete B f1)) else (false, f1)).2 in
      let states := [f1; f3; RemoveIfExists (candidate_removed a) T f3] in
      Forall (fun s : Files => s !! A = Some old \/ (s !! A = Some (blob_bytes blob) /\
          VerifyPolicyBytes (blob_bytes blob) (blob_generation blob) = true) \/ s !! A = None /\ s !! B = Some old)
        states
      /\ (undoes -> last states = Some files)) as [Hs Hl].
    { cbn zeta. split.
      - each_state; [right; right; done| |]; destruct (backup_restored a); cbn [snd];
          [left|right; right|left|right; right]; lookups.
      - intros (Hrm & _ & Hrs). cbn. unfold RemoveIfExists. rewrite Hrm, Hrs. cbn [snd]. f_equal. unfold f1.
        same_files (T, B, A). }
    destruct (fault == kRename) eqn:Ef; [|destruct (candidate_renamed a)]; cbn [negb].
    + rewrite H1B. split_and!; [exact Hs|apply Hu|by rewrite Hp|intros _; exact Hl].
    + set (f2 := <[A := blob_bytes blob]> (delete T f1)).
      assert (f2 !! A = Some (blob_bytes blob)) as H2A by (unfold f2; by simplify_map_eq).
      assert (f2 !! B = Some old) as H2B by (unfold f2; by simplify_map_eq).
      destruct (_ && directory_syncs a); cbn [negb].
      * split_and!; [each_state|apply Hu| |by rewrite Hp].
        -- right; right; done.
        -- right; left; done.
        -- right; left. split; [lookups|done].
        -- intros _. eexists. split; [done|]. lookups.
      * assert (RemoveIfExists (active_removed a) A f2 !! B = Some old) as H3B by lookups. rewrite H3B.
        split_and!; [each_state|apply Hu|by rewrite Hp|].
        -- right; right; done.
        -- right; left; done.
        -- destruct (active_removed a); cbn; [right; right|right; left]; lookups.
        -- destruct (backup_restored a); cbn [snd]; [left; lookups|].
           destruct (active_removed a); cbn; [right; right|right; left]; lookups.
        -- intros _ (_ & Hra & Hrs). cbn. unfold RemoveIfExists. rewrite Hra, Hrs. cbn [snd]. f_equal.
           unfold f2, f1. same_files (T, B, A).
    + rewrite H1B. split_and!; [exact Hs|apply Hu|by rewrite Hp|intros _; exact Hl].
  - cbn [negb]. set (f1 := <[T := blob_bytes blob]> files).
    assert (f1 !! T = Some (blob_bytes blob)) as H1T by (unfold f1; by simplify_map_eq).
    assert (f1 !! A = None) as H1A by (unfold f1; by simplify_map_eq).
    unfold rename. rewrite H1T.
    assert (Forall (fun s : Files => s !! A = None \/ (s !! A = Some (blob_bytes blob) /\
        VerifyPolicyBytes (blob_bytes blob) (blob_generation blob) = true) \/ s !! A = None /\ s !! B = None)
        [f1; f1; RemoveIfExists (candidate_removed a) T f1]
      /\ (candidate_removed a = true -> RemoveIfExists (candidate_removed a) T f1 = files)) as [Hs Hl].
    { split; [each_state; left; lookups|]. intros Hrm. unfold RemoveIfExists. rewrite Hrm. unfold f1.
      same_files (T, B, A). }
    destruct (fault == kRename) eqn:Ef; [|destruct (candidate_renamed a)]; cbn [negb].
    + split_and!; [exact Hs|apply Hu|by rewrite Hp|]. intros _ (Hrm & _). cbn. by rewrite Hl.
    + set (f2 := <[A := blob_bytes blob]> (delete T f1)).
      assert (f2 !! A = Some (blob_bytes blob)) as H2A by (unfold f2; by simplify_map_eq).
      destruct (_ && directory_syncs a); cbn [negb].
      * split_and!; [each_state|apply Hu| |by rewrite Hp].
        -- by left.
        -- right; left; done.
        -- right; left. split; [lookups|done].
        -- intros _. eexists. split; [done|]. lookups.
      * split_and!; [each_state|apply Hu|by rewrite Hp|].
        -- by left.
        -- right; left; done.
        -- destruct (active_removed a); cbn; [left|right; left]; lookups.
        -- destruct (active_removed a); cbn; [left|right; left]; lookups.
        -- intros _ (_ & Hra & _). cbn. unfold RemoveIfExists. rewrite Hra. f_equal.
           unfold f2, f1. same_files (T, B, A).
    + split_and!; [exact Hs|apply Hu|by rewrite Hp|]. intros _ (Hrm & _). cbn. by rewrite Hl.
Qed.
(** The directory with a candidate in it, which is not the active policy. *)
Lemma candidate_state content : crash_state (<[candidate_name suffix := content]> files).
Proof.
  left. rewrite lookup_insert_ne; [done|]. apply candidate_not_active.
Qed.

Lemma candidate_removed_state content ok :
  crash_state (RemoveIfExists ok (candidate_name suffix) (<[candidate_name suffix := content]> files)).
Proof.
  destruct ok; cbn; [|apply candidate_state]. left. rewrite lookup_delete_ne by apply candidate_not_active.
  rewrite lookup_insert_ne; [done|]. apply candidate_not_active.
Qed.

Lemma candidate_undone content :
  RemoveIfExists true (candidate_name suffix) (<[candidate_name suffix := content]> files) = files.
Proof. cbn. by apply delete_insert_id. Qed.

Lemma Publish_spec fault :
  let '(r, states) := Publish fault a suffix blob files in
  Forall crash_state states
  /\ (unchanged r = true ->
        states = [] /\ ReadGeneration (active_reads a) policy_bin files = Some (blob_generation blob))
  /\ (published r = true -> final files states !! policy_bin = Some (blob_bytes blob)
        /\ VerifyPolicyBytes (blob_bytes blob) (blob_generation blob) = true)
  /\ (publish_ok r = false -> undoes -> final files states = files).
Proof.
  unfold Publish. cbv zeta. case_bool_decide as Hgen; [by split_and!|].
  destruct (negb (creates_directories a) || _); [by split_and!|].
  destruct (candidate_opens a); cbn [negb orb].
  2:{ split_and!; try done. each_state; [by left|]. left. unfold RemoveIfExists. destruct (candidate_removed a); [|done].
      apply lookup_delete_ne, candidate_not_active.
      intros _ (Hrm & _). cbn. unfold RemoveIfExists. rewrite Hrm. by apply delete_id. }
  destruct (bool_decide (fault = kWrite)).
  { split_and!; try done; [each_state; [apply candidate_state|apply candidate_removed_state]|].
    intros _ (Hrm & _). cbn. rewrite Hrm. apply candidate_undone. }
  rewrite insert_insert_eq, lookup_insert_eq.
  assert (forall content m,
    let r := {| published := false; unchanged := false; published_generation := blob_generation blob;
                publish_message := m |} in
    let states := [<[candidate_name suffix := []]> files; <[candidate_name suffix := content]> files;
      RemoveIfExists (candidate_removed a) (candidate_name suffix) (<[candidate_name suffix := content]> files)] in
    Forall crash_state states
    /\ (unchanged r = true ->
          states = [] /\ ReadGeneration (active_reads a) policy_bin files = Some (blob_generation blob))
    /\ (published r = true -> final files states !! policy_bin = Some (blob_bytes blob)
          /\ VerifyPolicyBytes (blob_bytes blob) (blob_generation blob) = true)
    /\ (publish_ok r = false -> undoes -> final files states = files)) as Hfail.
  { intros content m r states. split_and!; try done.
    - each_state; [apply candidate_state..|apply candidate_removed_state].
    - intros _ (Hrm & _). cbn. rewrite Hrm. apply candidate_undone. }
  destruct (candidate_writes a); cbn [negb]; [|apply Hfail].
  destruct (bool_decide (fault = kSetMode)); [apply Hfail|].
  destruct (_ || bool_decide (fault = kSetContext)); [apply Hfail|]. cbn [default].
  destruct (_ || negb (VerifyPolicyBytes _ _)) eqn:Everify; [apply Hfail|].
  destruct (bool_decide (fault = kFileSync) || _); [apply Hfail|].
  rewrite !orb_false_iff, !negb_false_iff in Everify. destruct Everify as [[[_ Hreads] Hbytes] Hv].
  rewrite Hreads, bool_decide_eq_true in *. unfold id in *. rewrite Hbytes in *.
  match goal with |- context [replace_active _ _ _ ?f ?w] =>
    pose proof (replace_active_safe fault f w eq_refl Hv ltac:(done)) as Hr end.
  destruct (replace_active _ _ _ _ _) as [r states]. destruct Hr as (Hs & Hu & Hpub & Hundo).
  assert (forall l, last states = Some l -> final files (<[candidate_name suffix := []]> files
    :: <[candidate_name suffix := blob_bytes blob]> files :: states) = l) as Hfinal.
  { intros l Hl. unfold final. destruct states as [|s states]; [done|].
    change (last (_ :: _ :: s :: states)) with (last (s :: states)). by rewrite Hl. }
  split_and!.
  - each_state; [apply candidate_state..|done].
  - congruence.
  - intros Hp. destruct (Hpub Hp) as (l & Hl & El). by rewrite (Hfinal l Hl).
  - intros Hok Hun. unfold publish_ok in Hok. apply orb_false_iff in Hok as [Hp _]. by apply Hfinal, Hundo.
Qed.
End Publishing.

(** ** Lemmas: the status text *)

Lemma starts_with_marked n1 c n2 pre t :
  pre <> [] -> c ∉ pre -> c ∉ n1 -> starts_with (n1 ++ c :: n2) (pre ++ n1 ++ t) = false.
Proof.
  intros Hpre Hc Hn. apply not_true_iff_false. intros [u E]%starts_with_spec.
  apply (f_equal (fun l => l !! length n1)) in E. rewrite <- app_assoc in E.
  rewrite (lookup_app_r n1), Nat.sub_diag in E by lia. cbn in E.
  destruct (decide (length n1 < length pre)%nat).
  - rewrite lookup_app_l in E by lia. apply Hc. by eapply list_elem_of_lookup_2.
  - rewrite lookup_app_r, lookup_app_l in E by (destruct pre; [done|]; cbn in *; lia).
    apply Hn. by eapply list_elem_of_lookup_2.
Qed.

(** The first occurrence of a text with a byte [c] that is not before it. *)
Lemma after_first_marked n1 c n2 pre t :
  c ∉ pre -> c ∉ n1 -> after_first (n1 ++ c :: n2) (pre ++ (n1 ++ c :: n2) ++ t) = Some t.
Proof.
  intros Hpre Hn. induction pre as [|b pre IH].
  - cbn [Datatypes.app]. assert (starts_with (n1 ++ c :: n2) ((n1 ++ c :: n2) ++ t) = true) as Hs
      by apply starts_with_app.
    destruct ((n1 ++ c :: n2) ++ t) as [|x l] eqn:E; [by destruct n1|].
    cbn [after_first]. rewrite Hs, <- E. by rewrite drop_app_length.
  - cbn [Datatypes.app after_first].
    assert (starts_with (n1 ++ c :: n2) (b :: pre ++ (n1 ++ c :: n2) ++ t) = false) as ->.
    { rewrite <- app_assoc. apply (starts_with_marked n1 c n2 (b :: pre)); [done|done|done]. }
    apply IH. intros Hin. apply Hpre. by right.
Qed.

Definition hex_text : bytes := lit "sha256:0123456789abcdef".

Lemma hex_word_text w : Forall (fun b => b ∈ hex_text) (hex_word w).
Proof.
  unfold hex_word. apply Forall_fmap. apply Forall_forall. intros shift _. cbn.
  change 15 with (Z.ones 4). rewrite Z.land_ones by lia.
  pose proof (Z.mod_pos_bound (Z.shiftr w shift) (2 ^ 4) ltac:(lia)) as Hb.
  set (d := Z.shiftr w shift mod 2 ^ 4) in *. clearbody d. change (2 ^ 4) with 16 in Hb.
  assert (d ∈ seqZ 0 16) as Hd by (apply elem_of_seqZ; lia). clear Hb. revert d Hd.
  apply Forall_forall. change (seqZ 0 16) with [0;1;2;3;4;5;6;7;8;9;10;11;12;13;14;15].
  repeat constructor; apply (bool_decide_eq_true_1 _); vm_compute; reflexivity.
Qed.

Lemma Sha256_text input : Forall (fun b => b ∈ hex_text) (Sha256 input).
Proof.
  unfold Sha256. cbv zeta. rewrite !Forall_app. split_and!; try apply hex_word_text.
  repeat constructor; apply (bool_decide_eq_true_1 _); vm_compute; reflexivity.
Qed.

Lemma to_string_digits z : 0 <= z -> Forall (fun b => is_digit b = true) (to_string z).
Proof.
  intros Hz. destruct (to_string_spec z Hz) as [_ E%digits_value_is_digit].
  apply Forall_forall. intros b Hb. rewrite forallb_forall in E. apply E. by apply list_elem_of_In.
Qed.

(** A digest, or none yet. *)
Definition digest_text (digest : bytes) : Prop := digest = [] \/ exists input, digest = Sha256 input.

Lemma digest_text_no c digest : c ∉ hex_text -> digest_text digest -> c ∉ digest.
Proof.
  intros Hc [->|[input ->]]; [apply not_elem_of_nil|]. intros Hin.
  pose proof (Sha256_text input) as H. rewrite Forall_forall in H. by apply Hc, H.
Qed.

Lemma digits_no c z : is_digit c = false -> 0 <= z -> c ∉ to_string z.
Proof.
  intros Hc Hz Hin. pose proof (to_string_digits z Hz) as H. rewrite Forall_forall in H.
  apply H in Hin. congruence.
Qed.

(** The value of a line whose key has a byte that the lines before it have not. *)
Lemma status_number_line n1 c n2 pre z t name files :
  c ∉ pre -> c ∉ n1 -> 0 <= z < 2 ^ 64 ->
  files !! name = Some (pre ++ status_line (n1 ++ c :: n2) (to_string z) ++ t) ->
  ReadStatusNumber true name (n1 ++ c :: n2) files = z.
Proof.
  intros Hpre Hn Hz Hf. unfold ReadStatusNumber. rewrite Hf.
  assert ((n1 ++ c :: n2) ++ lit ": " = n1 ++ c :: n2 ++ lit ": ") as -> by (by rewrite <- app_assoc).
  assert (pre ++ status_line (n1 ++ c :: n2) (to_string z) ++ t
    = pre ++ (n1 ++ c :: n2 ++ lit ": ") ++ to_string z ++ x0a :: t) as ->.
  { unfold status_line. rewrite <- !app_assoc. cbn [Datatypes.app]. rewrite <- !app_assoc. done. }
  rewrite after_first_marked by done.
  rewrite cut_app by (apply digits_no; [done|lia]). cbn [fst]. by rewrite from_chars_to_string.
Qed.

Lemma not_in_status_line c key value : c ∉ key -> c ∉ lit ": " -> c ∉ value -> c <> x0a -> c ∉ status_line key value.
Proof. unfold status_line. rewrite !elem_of_app, list_elem_of_singleton. tauto. Qed.

(** What [RenderControlStatusText] writes, [ReadStatusNumber] reads back. *)
Lemma status_numbers_roundtrip s name files :
  digest_text (source_digest s) -> 0 <= candidate_sequence s ->
  0 <= active_content_generation s < 2 ^ 64 -> 0 <= deployment_epoch s < 2 ^ 64 ->
  files !! name = Some (RenderControlStatusText s) ->
  ReadStatusNumber true name (lit "active_content_generation") files = active_content_generation s
  /\ ReadStatusNumber true name (lit "deployment_epoch") files = deployment_epoch s.
Proof.
  intros Hd Hc Hg He Hf. unfold RenderControlStatusText in Hf.
  set (l1 := status_line (lit "source") (lit "rules.toml")) in Hf.
  set (l2 := status_line (lit "source_digest") (source_digest s)) in Hf.
  set (l3 := status_line (lit "candidate_sequence") (to_string (candidate_sequence s))) in Hf.
  assert (forall c, c ∉ hex_text -> is_digit c = false -> c ∉ lit "source_digest: rules.toml" -> c ∉ lit "candidate_sequence"
     -> c <> x0a -> c ∉ l1 ++ l2 ++ l3) as Hpre.
  { intros c H1 H2 H3 H4 H5. rewrite !elem_of_app. unfold l1, l2, l3.
    assert (c ∉ lit "source" /\ c ∉ lit "source_digest" /\ c ∉ lit ": " /\ c ∉ lit "rules.toml") as (Ha & Hb & Hcol & Hr).
    { change (lit "source_digest: rules.toml") with (lit "source" ++ lit "_digest" ++ lit ": " ++ lit "rules.toml") in H3.
      change (lit "source_digest") with (lit "source" ++ lit "_digest"). rewrite !elem_of_app in *. tauto. }
    pose proof (not_in_status_line c (lit "source") (lit "rules.toml") Ha Hcol Hr H5).
    pose proof (not_in_status_line c (lit "source_digest") (source_digest s) Hb Hcol (digest_text_no c _ H1 Hd) H5).
    pose proof (not_in_status_line c (lit "candidate_sequence") _ H4 Hcol (digits_no c _ H2 Hc) H5). tauto. }
  split.
  - change (lit "active_content_generation") with (lit "acti" ++ x76 :: lit "e_content_generation") in *.
    eapply (status_number_line _ _ _ (l1 ++ l2 ++ l3)); [apply Hpre| |exact Hg|rewrite Hf, <- !app_assoc; reflexivity];
      try (apply (bool_decide_eq_true_1 _); vm_compute; reflexivity); done.
  - change (lit "deployment_epoch") with (lit "deplo" ++ x79 :: lit "ment_epoch") in *.
    eapply (status_number_line _ _ _ (l1 ++ l2 ++ l3
      ++ status_line (lit "active_content_generation") (to_string (active_content_generation s))));
      [|..|exact He|rewrite Hf, <- !app_assoc; reflexivity].
    + rewrite (app_assoc l2), app_assoc, elem_of_app. intros [Hin|Hin].
      * revert Hin. apply Hpre; try (apply (bool_decide_eq_true_1 _); vm_compute; reflexivity); done.
      * revert Hin. apply not_in_status_line; [..|apply digits_no; [done|lia]|done];
          apply (bool_decide_eq_true_1 _); vm_compute; reflexivity.
    + apply (bool_decide_eq_true_1 _); vm_compute; reflexivity.
Qed.

(** ** Lemmas: the status files and the policy *)

Lemma AtomicWriteText_other a suffix name text files k :
  k <> name -> k <> lit "." ++ name ++ lit "." ++ suffix ->
  (AtomicWriteText a suffix name text files).2 !! k = files !! k.
Proof.
  intros Hn Ht. unfold AtomicWriteText. cbv zeta. set (t := lit "." ++ name ++ lit "." ++ suffix) in *. clearbody t.
  unfold rename, RemoveIfExists. rewrite lookup_insert_eq.
  repeat case_match; simplify_eq; cbn in *; simplify_map_eq; done.
Qed.

(** The file keeps its content, or it holds what landed of the new one; a write that reports
    success replaced it. *)
Lemma AtomicWriteText_result a suffix name text files :
  name <> lit "." ++ name ++ lit "." ++ suffix ->
  let '(written, files') := AtomicWriteText a suffix name text files in
  files' !! name = files !! name /\ written = false \/ files' !! name = Some (landed a text).
Proof.
  intros Hne. unfold AtomicWriteText. cbv zeta. set (t := lit "." ++ name ++ _) in *. clearbody t.
  unfold rename, RemoveIfExists. rewrite lookup_insert_eq.
  repeat case_match; intros; simplify_eq; simplify_map_eq; auto.
Qed.

Lemma WriteControlStatus_policy a s files : (WriteControlStatus a s files).2 !! policy_bin = files !! policy_bin.
Proof.
  unfold WriteControlStatus. destruct (run_directory_made a); [|done]. cbn [negb].
  pose proof (AtomicWriteText_other (text_answers a) (text_suffix a) rules_status_txt (RenderControlStatusText s)
    files policy_bin ltac:(discriminate) ltac:(discriminate)) as H1.
  destruct (AtomicWriteText (text_answers a) _ _ _ _) as [[] files1]; [|exact H1].
  rewrite AtomicWriteText_other by discriminate. exact H1.
Qed.

(** Every call that writes a text, up to its renaming, works and loses nothing of it. *)
Record text_lands (a : WriteAnswers) : Prop := {
  tl_opens : text_opens a = true;
  tl_writes : text_writes a = true;
  tl_lost : text_lost a = 0%nat;
  tl_permissions : text_permissions a = true;
  tl_syncs : text_syncs a = true;
  tl_renamed : text_renamed a = true;
}.

Lemma AtomicWriteText_lands a suffix name text files :
  text_lands a -> (AtomicWriteText a suffix name text files).2 !! name = Some text.
Proof.
  intros [H1 H2 H3 H4 H5 H6]. unfold AtomicWriteText, landed. rewrite H1, H2, H3, H4, H5, H6. cbn. unfold rename.
  rewrite lookup_insert_eq, Nat.sub_0_r, firstn_all. cbn. apply lookup_insert_eq.
Qed.

Lemma WriteControlStatus_text a s files :
  run_directory_made a = true -> text_lands (text_answers a) ->
  (WriteControlStatus a s files).2 !! rules_status_txt = Some (RenderControlStatusText s).
Proof.
  intros Hm Hl. unfold WriteControlStatus. rewrite Hm. cbn [negb].
  pose proof (AtomicWriteText_lands _ (text_suffix a) rules_status_txt (RenderControlStatusText s) files Hl) as H1.
  destruct (AtomicWriteText (text_answers a) _ _ _ _) as [[] files1]; [|exact H1].
  rewrite AtomicWriteText_other by discriminate. exact H1.
Qed.

(** The generation of the policy in a directory, zero without one. *)
Definition policy_generation (files : Files) : Z := default 0 (ReadGeneration true policy_bin files).

Lemma policy_generation_same files files' :
  files' !! policy_bin = files !! policy_bin -> policy_generation files' = policy_generation files.
Proof. unfold policy_generation, ReadGeneration. by intros ->. Qed.

Lemma policy_generation_range files : 0 <= policy_generation files < 2 ^ 64.
Proof.
  unfold policy_generation, ReadGeneration. destruct (files !! policy_bin) as [content|]; cbn; [|lia].
  pose proof (DecodePolicy_ensures content) as H. destruct (DecodePolicy content) as [[doc g]| |]; cbn; [|lia..].
  cbn in H. rewrite (dk_generation _ _ H). unfold ContentGeneration. apply Fnv1a64_range.
Qed.

Lemma policy_generation_verified files blob :
  files !! policy_bin = Some (blob_bytes blob) ->
  VerifyPolicyBytes (blob_bytes blob) (blob_generation blob) = true ->
  policy_generation files = blob_generation blob.
Proof.
  intros Hf Hv. unfold policy_generation, ReadGeneration. rewrite Hf. cbn. unfold VerifyPolicyBytes in Hv.
  destruct (DecodePolicy (blob_bytes blob)) as [[doc g]| |]; [|done..]. cbn. lia.
Qed.

Lemma ReadGeneration_true reads files g :
  ReadGeneration reads policy_bin files = Some g -> policy_generation files = g.
Proof.
  unfold policy_generation, ReadGeneration. destruct (files !! policy_bin); [|done]. cbn.
  destruct reads; [|done]. by intros ->.
Qed.

Section ReconcileProofs.
Context {value : Type} `{TomlValue value} (limits : RulesLimits).
Context (parse : bytes -> source_region + toml_node value).

(** The names the publication uses are unused, and what it undoes works. *)
Record publish_sane (a : ReconcileAnswers) (files : Files) : Prop := {
  ps_candidate : files !! candidate_name (publish_suffix a) = None;
  ps_backup : files !! backup_name (publish_suffix a) = None;
  ps_stat : active_stats (publish_answers a) = true;
  ps_undoes : undoes (publish_answers a);
}.

(** What a reconciliation does to the policy and to the state, on every path. *)
Record reconciled (a : ReconcileAnswers) (r : Reconciler) (result : ReconcileResult) (r' : Reconciler) : Prop := {
  rc_state : state_ r' = result_state result;
  rc_snapshot : snapshot_ r' = snapshot_ r;
  rc_kept : result_published result = false ->
    run_files r' !! policy_bin = run_files r !! policy_bin
    /\ deployment_epoch (state_ r') = deployment_epoch (state_ r)
    /\ (active_content_generation (state_ r') = active_content_generation (state_ r)
        \/ active_content_generation (state_ r') = policy_generation (run_files r));
  rc_published : result_published result = true ->
    exists loaded canonical blob,
      LoadRulesSource limits (source_answers a) = Ok loaded
      /\ ok (CompileRulesSource limits parse (snapshot_source loaded)) = true
      /\ build_canonical (CompileRulesSource limits parse (snapshot_source loaded)) = Some canonical
      /\ build_blob (CompileRulesSource limits parse (snapshot_source loaded)) = Some blob
      /\ admitted (AdmitPolicy canonical
           (build_requirements (CompileRulesSource limits parse (snapshot_source loaded))) (snapshot_ r)) = true
      /\ run_files r' !! policy_bin = Some (blob_bytes blob)
      /\ policy_generation (run_files r') = blob_generation blob
      /\ active_content_generation (state_ r') = blob_generation blob
      /\ deployment_epoch (state_ r') = u64 (deployment_epoch (state_ r) + 1)
      /\ status (state_ r') = kActive;
}.

Lemma Reconcile_reconciled a r :
  publish_sane a (run_files r) ->
  let '(result, r') := Reconcile limits parse a r in reconciled a r result r'.
Proof.
  intros [Hc Hb Hs Hu]. unfold Reconcile. cbv zeta.
  destruct (LoadRulesSource limits (source_answers a)) as [loaded|[c m]|] eqn:Eload.
  2,3: split; try done; intros _; cbn [run_files state_]; rewrite WriteControlStatus_policy; split_and!; try done; by left.
  destruct (_ && negb (device_dirty_ r)).
  { split; try done. intros _. cbn [run_files state_]. rewrite WriteControlStatus_policy. split_and!; try done. by left. }
  set (built := CompileRulesSource limits parse (snapshot_source loaded)).
  destruct (ok built) eqn:Eok; [destruct (build_canonical built) as [canonical|] eqn:Ecan;
    [destruct (build_blob built) as [blob|] eqn:Eblob|]|].
  2-4: destruct (first_error built _) as [c m]; split; try done; intros _; cbn [run_files state_];
    rewrite WriteControlStatus_policy; split_and!; try done; by left.
  destruct (admitted _) eqn:Eadm; cbn [negb].
  2:{ split; try done. intros _. cbn [run_files state_]. rewrite WriteControlStatus_policy. split_and!; try done. by left. }
  pose proof (Publish_spec (publish_answers a) (publish_suffix a) blob (run_files r) Hc Hb Hs (fail_at a)) as Hp.
  destruct (Publish _ _ _ _ _) as [p states]. destruct Hp as (_ & Hun & Hpub & Hfail).
  destruct (publish_ok p) eqn:Epok; cbn [negb].
  - split; try done; cbn [result_published run_files state_ result_state deployment_epoch activate
      active_content_generation status].
    + intros Enot. unfold publish_ok in Epok. rewrite Enot in Epok. cbn in Epok. destruct (Hun Epok) as [-> Hgen].
      rewrite Enot, WriteControlStatus_policy. split_and!; [done|done|]. right. symmetry. by eapply ReadGeneration_true.
    + intros Eyes. destruct (Hpub Eyes) as [Hfinal Hv]. exists loaded, canonical, blob. rewrite Eyes. fold built.
      rewrite WriteControlStatus_policy. split_and!; try done.
      eapply policy_generation_verified; [|exact Hv]. by rewrite WriteControlStatus_policy.
  - split; try done. intros _. cbn [run_files state_]. rewrite WriteControlStatus_policy, Hfail by done.
    split_and!; try done. by left.
Qed.

Lemma Reconcile_digest a r :
  let '(result, r') := Reconcile limits parse a r in
  digest_text (source_digest (state_ r)) -> digest_text (source_digest (state_ r')).
Proof.
  unfold Reconcile. cbv zeta.
  destruct (LoadRulesSource limits (source_answers a)) as [loaded|[c m]|] eqn:Eload; [|done..].
  assert (digest_text (snapshot_digest loaded)) as Hd.
  { right. unfold LoadRulesSource in Eload. cbv zeta in Eload.
    repeat (case_match; try discriminate Eload); simplify_eq; by eexists. }
  destruct (_ && negb (device_dirty_ r)); [done|].
  set (built := CompileRulesSource limits parse (snapshot_source loaded)).
  destruct (ok built), (build_canonical built), (build_blob built); try (destruct (first_error _ _); intros _; exact Hd).
  destruct (admitted _); cbn [negb]; [|intros _; exact Hd]. destruct (Publish _ _ _ _ _) as [pub states].
  destruct (publish_ok pub); intros _; exact Hd.
Qed.

Lemma Reconcile_sequence a r :
  let '(result, r') := Reconcile limits parse a r in
  0 <= candidate_sequence (state_ r) -> 0 <= candidate_sequence (state_ r').
Proof.
  assert (forall z, 0 <= u64 z) as Hu by (intros z; apply Z.mod_pos_bound; lia).
  unfold Reconcile. cbv zeta.
  destruct (LoadRulesSource limits (source_answers a)) as [loaded|[c m]|]; [|intros _; apply Hu|done].
  destruct (_ && negb (device_dirty_ r)); [done|].
  set (built := CompileRulesSource limits parse (snapshot_source loaded)).
  destruct (ok built), (build_canonical built), (build_blob built); try (destruct (first_error _ _); intros _; apply Hu).
  destruct (admitted _); cbn [negb]; [|intros _; apply Hu]. destruct (Publish _ _ _ _ _) as [pub states].
  destruct (publish_ok pub); intros _; apply Hu.
Qed.

(** What the reconciliation returns is what it wrote to the status file. *)
Lemma Reconcile_status_file a r :
  let '(result, r') := Reconcile limits parse a r in
  run_directory_made (status_answers a) = true ->
  text_lands (text_answers (status_answers a)) ->
  run_files r' !! rules_status_txt = Some (RenderControlStatusText (state_ r')).
Proof.
  unfold Reconcile. cbv zeta.
  destruct (LoadRulesSource limits (source_answers a)) as [loaded|[c m]|];
    [|by apply WriteControlStatus_text..].
  destruct (_ && negb (device_dirty_ r)); [by apply WriteControlStatus_text|].
  set (built := CompileRulesSource limits parse (snapshot_source loaded)).
  destruct (ok built), (build_canonical built), (build_blob built);
    try (destruct (first_error _ _); by apply WriteControlStatus_text).
  destruct (admitted _); cbn [negb]; [|by apply WriteControlStatus_text].
  destruct (Publish _ _ _ _ _) as [pub states]. destruct (publish_ok pub); cbn [negb];
    by apply WriteControlStatus_text.
Qed.
End ReconcileProofs.

Lemma Create_bytes name input limits buffer : Create name input limits = Ok buffer -> source_bytes buffer = input.
Proof. unfold Create. destruct (_ || _); [done|]. by intros [= <-]. Qed.

(** ** Properties *)

(** C4. Publishing a policy is safe against crashes and against failures. Whatever call fails,
    in every state the directory goes through the active policy is the one before, or the new
    one after it was read back and verified, or missing while the one before is kept as the
    backup; a publication that reports success leaves the verified new policy; one that reports
    no change found the same generation and touched nothing; and one that reports a failure
    leaves the directory exactly as it was, provided the renaming and the removals that undo
    its steps work. *)
Theorem publish_crash_safe fault a suffix blob files :
  files !! candidate_name suffix = None -> files !! backup_name suffix = None -> active_stats a = true ->
  let '(r, states) := Publish fault a suffix blob files in
  Forall (crash_state suffix blob files) states
  /\ (unchanged r = true ->
        states = [] /\ ReadGeneration (active_reads a) policy_bin files = Some (blob_generation blob))
  /\ (published r = true -> final files states !! policy_bin = Some (blob_bytes blob)
        /\ VerifyPolicyBytes (blob_bytes blob) (blob_generation blob) = true)
  /\ (publish_ok r = false -> undoes a -> final files states = files).
Proof. intros Hc Hb Hs. by apply Publish_spec. Qed.

Section Properties.
Context {value : Type} `{TomlValue value} (limits : RulesLimits).
Context (parse : bytes -> source_region + toml_node value).

(** C5. The reconciler knows what is deployed. It keeps the generation in its state equal to
    the generation of the policy on disk; the policy on disk changes only when the rules were
    read stably, compiled without an error and admitted for the device, and then it is what was
    compiled, the status is active and the deployment epoch has advanced by one; in every other
    case the policy and the epoch are left as they were. *)
Theorem reconcile_tracks_deployment a r :
  publish_sane a (run_files r) ->
  active_content_generation (state_ r) = policy_generation (run_files r) ->
  let '(result, r') := Reconcile limits parse a r in
  active_content_generation (state_ r') = policy_generation (run_files r')
  /\ (result_published result = false ->
        run_files r' !! policy_bin = run_files r !! policy_bin
        /\ deployment_epoch (state_ r') = deployment_epoch (state_ r))
  /\ (result_published result = true ->
        status (state_ r') = kActive /\ deployment_epoch (state_ r') = u64 (deployment_epoch (state_ r) + 1)
        /\ exists loaded canonical blob,
             let built := CompileRulesSource limits parse (snapshot_source loaded) in
             LoadRulesSource limits (source_answers a) = Ok loaded /\ ok built = true
             /\ build_canonical built = Some canonical /\ build_blob built = Some blob
             /\ admitted (AdmitPolicy canonical (build_requirements built) (snapshot_ r)) = true
             /\ run_files r' !! policy_bin = Some (blob_bytes blob)).
Proof.
  intros Hsane Hinv. pose proof (Reconcile_reconciled limits parse a r Hsane) as Hr.
  destruct (Reconcile limits parse a r) as [result r']. destruct Hr as [_ _ Hkept Hpub].
  destruct (result_published result) eqn:Ep.
  - destruct (Hpub eq_refl) as (loaded & canonical & blob & ? & ? & ? & ? & ? & ? & Hg & Ha & ? & ?).
    split_and!; [congruence|done|]. intros _. split_and!; [done|done|]. by exists loaded, canonical, blob.
  - destruct (Hkept eq_refl) as (Hf & He & Hg). split_and!; [|by intros _|done].
    rewrite (policy_generation_same _ _ Hf). destruct Hg; congruence.
Qed.

(** C28. A daemon that starts again picks up where the last one stopped: after a reconciliation
    that left a policy deployed, and during which the calls that write the status text worked and
    lost nothing, a new reconciler on the same directory has the same active generation and the
    same deployment epoch as the state that reconciliation ended in. *)
Theorem restart_recovers a r snapshot :
  publish_sane a (run_files r) ->
  active_content_generation (state_ r) = policy_generation (run_files r) ->
  digest_text (source_digest (state_ r)) -> 0 <= candidate_sequence (state_ r) ->
  0 <= deployment_epoch (state_ r) < 2 ^ 64 ->
  let '(result, r') := Reconcile limits parse a r in
  run_directory_made (status_answers a) = true ->
  text_lands (text_answers (status_answers a)) ->
  active_content_generation (state_ r') <> 0 -> deployment_epoch (state_ r') <> 0 ->
  let restarted := NewReconciler true true (run_files r') snapshot in
  active_content_generation (state_ restarted) = active_content_generation (state_ r')
  /\ deployment_epoch (state_ restarted) = deployment_epoch (state_ r').
Proof.
  intros Hsane Hinv Hd Hc He. pose proof (Reconcile_reconciled limits parse a r Hsane) as Hr.
  pose proof (Reconcile_digest limits parse a r) as Hd'. pose proof (Reconcile_sequence limits parse a r) as Hc'.
  pose proof (Reconcile_status_file limits parse a r) as Hfile.
  destruct (Reconcile limits parse a r) as [result r']. intros Hm Hl Hg0 He0.
  specialize (Hd' Hd). specialize (Hc' Hc). specialize (Hfile Hm Hl).
  assert (active_content_generation (state_ r') = policy_generation (run_files r')
          /\ 0 <= deployment_epoch (state_ r') < 2 ^ 64) as [Hg He'].
  { destruct Hr as [_ _ Hkept Hpub]. destruct (result_published result).
    - destruct (Hpub eq_refl) as (? & ? & ? & ? & ? & ? & ? & ? & ? & ? & ? & Eepoch & ?). split; [congruence|].
      rewrite Eepoch. apply Z.mod_pos_bound. lia.
    - destruct (Hkept eq_refl) as (Hf & -> & Hg). rewrite (policy_generation_same _ _ Hf). split; [|done].
      destruct Hg; congruence. }
  pose proof (policy_generation_range (run_files r')) as Hrange.
  destruct (status_numbers_roundtrip (state_ r') rules_status_txt (run_files r') Hd' Hc' ltac:(lia) He' Hfile)
    as [Eg Ee].
  unfold NewReconciler. cbv zeta. cbn [state_ active_content_generation deployment_epoch].
  fold (policy_generation (run_files r')). rewrite Eg, Ee, Hg, Z.eqb_refl. split; [done|].
  destruct (Z.eqb_spec (policy_generation (run_files r')) 0); [congruence|].
  destruct (Z.eqb_spec (deployment_epoch (state_ r')) 0); [congruence|]. done.
Qed.

(** C27. A save never overwrites an edit it has not seen: rules.toml is replaced only when what
    was read before the compilation and again just before the commit had the digest the caller
    expects, and only when the replacement compiles without an error and is admitted for the
    device; then the file holds the bytes of that replacement, but for those at its end that were
    lost while they were written, and all of them when none were. In every other case the file is
    left alone. *)
Theorem save_rules_guarded a expected replacement config r :
  let '(result, config', r') := SaveRules limits parse a expected replacement config r in
  config' !! kRulesFileName <> config !! kRulesFileName \/ saved result = true ->
  exists before after candidate canonical,
    LoadRulesSource limits (current_source a) = Ok before /\ snapshot_digest before = expected
    /\ LoadRulesSource limits (source_before_commit a) = Ok after /\ snapshot_digest after = expected
    /\ Create kRulesFileName replacement limits = Ok candidate
    /\ ok (CompileRulesSource limits parse candidate) = true
    /\ build_canonical (CompileRulesSource limits parse candidate) = Some canonical
    /\ admitted (AdmitPolicy canonical (build_requirements (CompileRulesSource limits parse candidate)) (snapshot_ r))
       = true
    /\ config' !! kRulesFileName = Some (landed (rules_write a) replacement)
    /\ (text_lost (rules_write a) = 0%nat -> config' !! kRulesFileName = Some replacement).
Proof.
  unfold SaveRules. cbv zeta.
  destruct (LoadRulesSource limits (current_source a)) as [before|[c m]|] eqn:Ebefore; [|by intros [?|?]..].
  case_bool_decide as Edigest; cbn [negb]; [|by intros [?|?]].
  destruct (Create kRulesFileName replacement limits) as [candidate|d|] eqn:Ecreate; [|by intros [?|?]..].
  set (built := CompileRulesSource limits parse candidate).
  destruct (ok built) eqn:Eok; [destruct (build_canonical built) as [canonical|] eqn:Ecan|].
  2,3: destruct (first_error built candidate); by intros [?|?].
  destruct (admitted _) eqn:Eadm; cbn [negb]; [|by intros [?|?]].
  destruct (LoadRulesSource limits (source_before_commit a)) as [after|[c m]|] eqn:Eafter; [|by intros [?|?]..].
  case_bool_decide as Edigest'; cbn [negb]; [|by intros [?|?]].
  assert (source_bytes candidate = replacement) as Hbytes by (by eapply Create_bytes).
  pose proof (AtomicWriteText_result (rules_write a) (rules_suffix a) kRulesFileName (source_bytes candidate) config
    ltac:(discriminate)) as Hwrite.
  assert (text_lost (rules_write a) = 0%nat -> landed (rules_write a) replacement = replacement) as Hall.
  { unfold landed. intros ->. rewrite Nat.sub_0_r. apply firstn_all. }
  destruct (AtomicWriteText _ _ _ _ _) as [written config']. rewrite Hbytes in Hwrite.
  destruct written; cbn [negb].
  - destruct (Reconcile limits parse _ r) as [result r']. intros _. exists before, after, candidate, canonical.
    destruct Hwrite as [[_ ?]|Hwrite]; [done|]. rewrite Hwrite. split_and!; try done. intros Hl. by rewrite Hall.
  - intros [Hdiff|]; [|done]. exists before, after, candidate, canonical.
    destruct Hwrite as [[? _]|Hwrite]; [done|]. rewrite Hwrite. split_and!; try done. intros Hl. by rewrite Hall.
Qed.
End Properties.

(** ** Examples *)

Definition reads_of (content : bytes) : list (option bytes) := [Some content; Some []].

Definition stat_of (content : bytes) : FileStat :=
  {| st_regular := true; st_own := true; st_mode := 33152; st_size := size content; st_dev := 1; st_ino := 2;
     st_mtime_sec := 3; st_mtime_nsec := 4 |}.

(** A source that is read without trouble. *)
Definition stable_source (content : bytes) : SourceAnswers :=
  {| directory_opens := true; file_opens := true; stat_before := Some (stat_of content);
     first_reads := reads_of content; seeks := true; second_reads := reads_of content;
     stat_after := Some (stat_of content) |}.

Definition working_publish (content : bytes) (syncs : bool) : PublishAnswers :=
  {| active_reads := true; creates_directories := true; candidate_opens := true; candidate_writes := true;
     torn := []; stored := content; permissions_set := true; candidate_reads := true; candidate_syncs := true;
     active_stats := true; active_preserved := true; candidate_renamed := true; backup_restored := true;
     directory_syncs := syncs; candidate_removed := true; active_removed := true; backup_removed := true |}.

Definition working_write : WriteAnswers :=
  {| text_opens := true; text_writes := true; text_lost := 0; text_permissions := true;
     text_syncs := true; text_renamed := true; text_directory_syncs := true; text_removed := true |}.

Definition working_status : StatusAnswers :=
  {| run_directory_made := true; text_answers := working_write; text_suffix := lit "1.1";
     json_answers := working_write; json_suffix := lit "1.2" |}.

Definition sample_blob : PolicyBlob :=
  match build_blob (CompileRulesSource default_limits sample_parse sample_rules_source) with
  | Some blob => blob
  | None => {| blob_bytes := []; blob_generation := 0 |}
  end.

Definition sample_snapshot : DeviceSnapshot :=
  {| snapshot_mount := {| primitives := Z.lor kCapabilityOpenTreeMoveMount
                            (Z.lor kCapabilityProcFdMount kCapabilityStringBindMount);
                          strict_actions := Z.lor kMountActionRedirect kMountActionDenyAnchor;
                          legacy_actions := kMountActionRedirect |};
     provider_supported := true; topology_supported := true; capability_generation := 1;
     topology_generation := 1 |}.

Definition sample_reconcile : ReconcileAnswers :=
  {| source_answers := stable_source sample_rules; fail_at := kNone;
     publish_answers := working_publish (blob_bytes sample_blob) true; publish_suffix := lit "1.0";
     status_answers := working_status |}.

Definition sample_reconciler : Reconciler := NewReconciler true true ∅ sample_snapshot.

Definition reconciled_sample : ReconcileResult * Reconciler :=
  Reconcile default_limits sample_parse sample_reconcile sample_reconciler.

(** A file that was the policy before. *)
Definition old_files : Files := {[policy_bin := lit "old"]}.

Lemma publish_crash_safe_witness :
  let '(r, states) := Publish kNone (working_publish (blob_bytes sample_blob) true) (lit "1.0") sample_blob old_files in
  Forall (crash_state (lit "1.0") sample_blob old_files) states.
Proof.
  pose proof (publish_crash_safe kNone (working_publish (blob_bytes sample_blob) true) (lit "1.0") sample_blob old_files
    ltac:(vm_compute; reflexivity) ltac:(vm_compute; reflexivity) eq_refl) as Hsafe.
  destruct (Publish _ _ _ _ _) as [r states]. exact (proj1 Hsafe).
Defined.

Lemma sample_sane : publish_sane sample_reconcile (run_files sample_reconciler).
Proof. split; [vm_compute; reflexivity|vm_compute; reflexivity|done|by split_and!]. Qed.

Lemma reconcile_tracks_deployment_witness :
  result_published reconciled_sample.1 = true
  /\ active_content_generation (state_ reconciled_sample.2)
     = policy_generation (run_files reconciled_sample.2).
Proof.
  split; [vm_compute; reflexivity|]. unfold reconciled_sample.
  pose proof (reconcile_tracks_deployment default_limits sample_parse sample_reconcile sample_reconciler
    sample_sane ltac:(vm_compute; reflexivity)) as Htrack.
  destruct (Reconcile _ _ _ _) as [result r']. exact (proj1 Htrack).
Defined.

Lemma working_write_lands : text_lands working_write.
Proof. by split. Qed.

Lemma restart_recovers_witness :
  let r' := reconciled_sample.2 in
  deployment_epoch (state_ r') = 1
  /\ deployment_epoch (state_ (NewReconciler true true (run_files r') sample_snapshot)) = deployment_epoch (state_ r').
Proof.
  pose proof (restart_recovers default_limits sample_parse sample_reconcile sample_reconciler
    sample_snapshot sample_sane ltac:(vm_compute; reflexivity) ltac:(by left)
    ltac:(vm_compute; discriminate) ltac:(vm_compute; split; [discriminate|reflexivity])) as Hrestart.
  assert (active_content_generation (state_ reconciled_sample.2) <> 0) as Hg by (vm_compute; discriminate).
  assert (deployment_epoch (state_ reconciled_sample.2) = 1) as He by (vm_compute; reflexivity).
  cbv zeta. change (Reconcile default_limits sample_parse sample_reconcile sample_reconciler)
    with reconciled_sample in Hrestart.
  destruct reconciled_sample as [result r']. cbn [snd] in *. split; [exact He|].
  refine (proj2 (Hrestart eq_refl working_write_lands Hg _)). rewrite He. discriminate.
Defined.

Definition sample_save : SaveAnswers :=
  {| current_source := stable_source sample_rules; source_before_commit := stable_source sample_rules;
     rules_write := working_write; rules_suffix := lit "2.0";
     reconcile_answers := sample_reconcile |}.

Lemma save_rules_guarded_witness :
  exists config r,
    SaveRules default_limits sample_parse sample_save (Sha256 sample_rules) sample_rules ∅ sample_reconciler
    = ({| save_reconcile := reconciled_sample.1; saved := true; save_error_code := []; save_message := [] |},
       config, r)
    /\ config !! kRulesFileName = Some sample_rules.
Proof.
  pose proof (save_rules_guarded default_limits sample_parse sample_save (Sha256 sample_rules) sample_rules ∅
    sample_reconciler) as Hguard.
  assert ((SaveRules default_limits sample_parse sample_save (Sha256 sample_rules) sample_rules ∅ sample_reconciler).1.1
    = {| save_reconcile := reconciled_sample.1; saved := true; save_error_code := []; save_message := [] |}) as Hs
    by (vm_compute; reflexivity).
  destruct (SaveRules _ _ _ _ _ _ _) as [[result config] r]. cbn [fst] in Hs. subst result.
  destruct (Hguard (or_intror eq_refl)) as (? & ? & ? & ? & _ & _ & _ & _ & _ & _ & _ & _ & _ & Hc).
  exact (ex_intro _ config (ex_intro _ r (conj eq_refl (Hc eq_refl)))).
Defined.

(** ** What the control lets through *)

(** Nobody asks the stream how closing it went: a file that lost its end is reported as saved. *)
Lemma truncated_rules_saved :
  let a := {| current_source := stable_source sample_rules; source_before_commit := stable_source sample_rules;
              rules_write := {| text_opens := true; text_writes := true; text_lost := 5; text_permissions := true;
                                text_syncs := true; text_renamed := true; text_directory_syncs := true;
                                text_removed := true |};
              rules_suffix := lit "2.0"; reconcile_answers := sample_reconcile |} in
  let '(result, config, _) :=
    SaveRules default_limits sample_parse a (Sha256 sample_rules) sample_rules ∅ sample_reconciler in
  save_ok result = true /\ config !! kRulesFileName = Some (take (length sample_rules - 5) sample_rules).
Proof. vm_compute. by split. Qed.

(** Between the two renames there is no active policy: a crash there leaves none. *)
Lemma crash_may_leave_no_policy :
  existsb (fun s : Files => bool_decide (s !! policy_bin = None))
    (Publish kNone (working_publish (blob_bytes sample_blob) true) (lit "1.0") sample_blob old_files).2 = true.
Proof. vm_compute. reflexivity. Qed.

(** The JSON of the status keeps control characters that JSON does not allow in a string. *)
Lemma JsonEscape_keeps_controls : JsonEscape [x09; x01] = [x09; x01].
Proof. reflexivity. Qed.

Section NotRetried.
Context {value : Type} `{TomlValue value} (limits : RulesLimits).
Context (parse : bytes -> source_region + toml_node value).

(** A publication that failed is not tried again: while the rules stay the same, every further
    reconciliation finds the digest it has already seen. *)
Lemma failed_publication_not_retried a r loaded :
  status (state_ r) = kPublishFailed -> device_dirty_ r = false ->
  LoadRulesSource limits (source_answers a) = Ok loaded -> snapshot_digest loaded = source_digest (state_ r) ->
  let '(result, r') := Reconcile limits parse a r in
  status (state_ r') = kPublishFailed /\ result_published result = false
  /\ source_digest (state_ r') = source_digest (state_ r) /\ device_dirty_ r' = false.
Proof.
  intros Hs Hd Hl Hdigest. unfold Reconcile. cbv zeta. rewrite Hl, Hd, Hdigest, bool_decide_eq_true_2 by done.
  by split_and!.
Qed.
End NotRetried.

(** The reconciler is in that state after a publication that failed. *)
Lemma failed_publication_example :
  let a := {| source_answers := stable_source sample_rules; fail_at := kRename;
              publish_answers := working_publish (blob_bytes sample_blob) true; publish_suffix := lit "1.0";
              status_answers := working_status |} in
  let r' := (Reconcile default_limits sample_parse a sample_reconciler).2 in
  status (state_ r') = kPublishFailed /\ device_dirty_ r' = false
  /\ source_digest (state_ r') = Sha256 sample_rules.
Proof. vm_compute. by split_and!. Qed.
