(* ===== verification/Daemon.v ===== *)
(** * The main loop of the daemon (daemon/src/main.cpp)

    What [main] does around the reconciler of [Control], in the Android build: its options, the
    probe of the storage topology, the snapshot of the device, the watching of the rules with
    inotify and, when that fails, by polling. The loops do not end, so a run is given by the
    answers of the turns that have passed. *)

From S2P Require Import Prelude MountBackend Topology PolicyFormat Binary Resolver Probe Source Semantic Compiler Control Console Stateful.

Local Open Scope pg_scope.

(** ** Constants of the system *)

Definition IN_ATTRIB : Z := 0x4.
Definition IN_CLOSE_WRITE : Z := 0x8.
Definition IN_MOVED_FROM : Z := 0x40.
Definition IN_MOVED_TO : Z := 0x80.
Definition IN_CREATE : Z := 0x100.
Definition IN_DELETE : Z := 0x200.
Definition IN_Q_OVERFLOW : Z := 0x4000.

Definition kRelevantMask : Z :=
  Z.lor (Z.lor (Z.lor (Z.lor (Z.lor IN_CLOSE_WRITE IN_MOVED_TO) IN_CREATE) IN_ATTRIB) IN_DELETE) IN_MOVED_FROM.

(** [sizeof(inotify_event)]; its fields are at 0 (wd), 4 (mask), 8 (cookie) and 12 (len), the name
    follows. *)
Definition event_size : Z := 16.

Definition buffer_size : Z := 16 * (event_size + NAME_MAX + 1).

(** ** The events of the rules *)

(** The C string at an offset. *)
Definition c_string (buffer : bytes) (offset : Z) : outcome Empty_set bytes :=
  match cut x00 (drop (Z.to_nat offset) buffer) with
  | (text, Some _) => Ok text
  | (_, None) => Oob
  end.

Definition IsRulesEvent (buffer : bytes) (offset : Z) (file_name : bytes) : outcome Empty_set bool :=
  len ← Read32 buffer (offset + 12);
  if len =? 0 then Ok false
  else
    name ← c_string buffer (offset + event_size);
    if file_name != name then Ok false
    else
      mask ← Read32 buffer (offset + 4);
      Ok (Z.land mask kRelevantMask != 0).

(** The loop over the events of one read. Fuel that runs out counts as an access out of bounds, so
    that the theorem about the loop says that it does not. *)
Fixpoint scan_events (fuel : nat) (buffer : bytes) (offset count : Z) (config_changed : bool)
    : outcome Empty_set bool :=
  if offset <? count then
    match fuel with
    | O => Oob
    | S fuel =>
        mask ← Read32 buffer (offset + 4);
        relevant ← (if Z.land mask IN_Q_OVERFLOW != 0 then Ok true else IsRulesEvent buffer offset kRulesFileName);
        len ← Read32 buffer (offset + 12);
        scan_events fuel buffer (offset + event_size + len) count (config_changed || relevant)
    end
  else Ok config_changed.

(** The loop over the reads that are answered with bytes. [drained] says that the next one finds
    nothing more (EAGAIN); otherwise it fails, and the loop gives up ([None]). A read writes to the
    front of the buffer and leaves what is behind. *)
Fixpoint drain (reads : list bytes) (drained : bool) (buffer : bytes) (config_changed : bool)
    : outcome Empty_set (option bool * bytes) :=
  match reads with
  | [] => Ok ((if drained then Some config_changed else None), buffer)
  | data :: rest =>
      if size data <=? 0 then Ok (None, buffer)
      else
        let buffer := data ++ drop (length data) buffer in
        config_changed ← scan_events (length data) buffer 0 (size data) config_changed;
        drain rest drained buffer config_changed
  end.

(** ** The state of the daemon *)

Record Daemon : Type := {
  reconciler : Reconciler;
  topology_found : bool;
  (** the descriptors of inotify that are open *)
  watching : list Z;
  console : Console;
}.

Definition MakeDeviceSnapshot (topology : bool) : DeviceSnapshot :=
  {| snapshot_mount :=
       {| primitives := Z.lor (Z.lor kCapabilityOpenTreeMoveMount kCapabilityProcFdMount) kCapabilityStringBindMount;
          strict_actions := Z.lor kMountActionRedirect kMountActionDenyAnchor;
          legacy_actions := kMountActionRedirect |};
     provider_supported := topology; topology_supported := topology; capability_generation := 1;
     topology_generation := if topology then 1 else 0 |}.

(** ** What is printed *)

Definition flag (b : bool) : bytes := if b then lit "1" else lit "0".

Definition LogReconcile (phase : bytes) (result : ReconcileResult) : Console :=
  let s := result_state result in
  prints (line (lit "rules reconcile phase=" ++ phase
                ++ lit " candidate_sequence=" ++ to_string (candidate_sequence s)
                ++ lit " active_content_generation=" ++ to_string (active_content_generation s)
                ++ lit " deployment_epoch=" ++ to_string (deployment_epoch s)
                ++ lit " compiled=" ++ flag (result_compiled result)
                ++ lit " unchanged=" ++ flag (result_unchanged result)
                ++ lit " published=" ++ flag (result_published result)))
  ⊕ (if reconcile_ok result then silent else complains (line (error_code s ++ lit ": " ++ message s))).

Definition mount_line (m : StorageTopologyMount) : bytes :=
  line (lit "storage topology user=" ++ to_string (user_id m) ++ lit " mount_id=" ++ to_string (mount_id m)
        ++ lit " visible=" ++ visible_root m ++ lit " backend=" ++ backend_root m
        ++ lit " fs=" ++ filesystem_type m ++ lit " aliases=" ++ to_string (size (aliases m))).

Section Topology.
(** The order in which [ParseMountInfo] visits its users. *)
Context (order : list (Z * MountRecord) -> list (Z * MountRecord)).

(** [mountinfo] is what [ReadAll] reads, when it can. *)
Definition ProbeStorageTopology (mountinfo : option bytes) : outcome Empty_set (Console * bool) :=
  match mountinfo with
  | None => Ok (complains (line (lit "storage topology unsupported: cannot read mountinfo")), false)
  | Some text =>
      match ParseMountInfo order text with
      | Err t => Ok (complains (line (lit "storage topology unsupported: " ++ unsupported_reason t)), false)
      | Oob => Oob
      | Ok t => Ok (prints (line (lit "storage topology ready: users=" ++ to_string (size (mounts t)))
                            ++ concat (mount_line <$> mounts t)), true)
      end
  end.
End Topology.

(** ** The loops *)

Abbreviation daemon := (stateful Daemon Empty_set).

Definition say (c : Console) : daemon unit :=
  modify (fun d => {| reconciler := reconciler d; topology_found := topology_found d; watching := watching d;
                      console := console d ⊕ c |}).

Definition inotify_opened (fd : Z) : daemon unit :=
  modify (fun d => {| reconciler := reconciler d; topology_found := topology_found d; watching := fd :: watching d;
                      console := console d |}).

Definition close_inotify (fd : Z) : daemon unit := fun d =>
  match remove_fd fd (watching d) with
  | None => Oob
  | Some fds => Ok (tt, {| reconciler := reconciler d; topology_found := topology_found d; watching := fds;
                           console := console d |})
  end.

(** What [poll] answers in one turn, with what is read after it: the events, what mountinfo holds
    when the topology is probed, and what the reconciliation is answered. *)
Inductive PollAnswer : Type :=
  | PollInterrupted
  | PollFailed (e : Z)
  | PollTimeout (mountinfo : option bytes) (a : ReconcileAnswers)
  | PollOther
  | PollReadable (reads : list bytes) (drained : bool) (mountinfo : option bytes) (a : ReconcileAnswers).

Section Loops.
Context (order : list (Z * MountRecord) -> list (Z * MountRecord)).
Context {value : Type} `{TomlValue value} (limits : RulesLimits).
Context (parse : bytes -> source_region + toml_node value).

(** [LogReconcile(phase, reconciler.Reconcile())] *)
Definition reconcile_and_log (phase : bytes) (a : ReconcileAnswers) : daemon ReconcileResult := fun d =>
  let '(result, r) := Reconcile limits parse a (reconciler d) in
  Ok (result, {| reconciler := r; topology_found := topology_found d; watching := watching d;
                 console := console d ⊕ LogReconcile phase result |}).

(** [*topology_supported = true] with the new snapshot *)
Definition accept_topology : daemon unit :=
  modify (fun d => {| reconciler := SetDeviceSnapshot (MakeDeviceSnapshot true) (reconciler d); topology_found := true;
                      watching := watching d; console := console d |}).

Definition RefreshPendingTopology (mountinfo : option bytes) : daemon bool :=
  found ← gets topology_found;
  if (found : bool) then mret false
  else
    '(c, ready) ← lift (ProbeStorageTopology order mountinfo);
    say c;;
    if negb ready then mret false
    else accept_topology;; mret true.

(** One turn of [RunPollingLoop]. *)
Definition poll_turn (answers : option bytes * ReconcileAnswers) : daemon unit :=
  topology_changed ← RefreshPendingTopology answers.1;
  reconcile_and_log (if (topology_changed : bool) then lit "topology" else lit "poll") answers.2;;
  mret tt.

(** The turns of [RunPollingLoop] that have passed. *)
Fixpoint RunPollingLoop (turns : list (option bytes * ReconcileAnswers)) : daemon unit :=
  match turns with
  | [] => mret tt
  | answers :: rest => poll_turn answers;; RunPollingLoop rest
  end.

(** One turn of the loop of [RunInotifyLoop]: the buffer for the next one, or [None] when it
    returns false. *)
Definition inotify_turn (fd : Z) (answer : PollAnswer) (buffer : bytes) : daemon (option bytes) :=
  match answer with
  | PollInterrupted => mret (Some buffer)
  | PollFailed e =>
      say (complains (line (lit "inotify poll failed; falling back to polling: errno=" ++ print_int e)));;
      close_inotify fd;;
      mret None
  | PollTimeout mountinfo a =>
      changed ← RefreshPendingTopology mountinfo;
      if (changed : bool) then reconcile_and_log (lit "topology") a;; mret (Some buffer)
      else mret (Some buffer)
  | PollOther => mret (Some buffer)
  | PollReadable reads drained mountinfo a =>
      '(config_changed, buffer) ← lift (drain reads drained buffer false);
      match (config_changed : option bool) with
      | None => close_inotify fd;; mret None
      | Some true =>
          RefreshPendingTopology mountinfo;;
          reconcile_and_log (lit "inotify") a;;
          mret (Some buffer)
      | Some false => mret (Some buffer)
      end
  end.

(** The turns that have passed: [true] when the loop has returned, which it does with false. *)
Fixpoint inotify_turns (fd : Z) (turns : list PollAnswer) (buffer : bytes) : daemon bool :=
  match turns with
  | [] => mret false
  | answer :: rest =>
      next ← inotify_turn fd answer buffer;
      match (next : option bytes) with
      | None => mret true
      | Some buffer => inotify_turns fd rest buffer
      end
  end.

(** [created] and [watched] are the descriptors or the errors of [inotify_init1] and
    [inotify_add_watch]. *)
Definition RunInotifyLoop (created watched : Z + Z) (config_directory : bytes) (turns : list PollAnswer)
    : daemon bool :=
  match created with
  | inr e =>
      say (complains (line (lit "inotify initialization failed; falling back to polling: errno=" ++ print_int e)));;
      mret true
  | inl fd =>
      inotify_opened fd;;
      match watched with
      | inr e =>
          say (complains (line (lit "inotify watch failed; falling back to polling: errno=" ++ print_int e)));;
          close_inotify fd;;
          mret true
      | inl _ =>
          say (prints (line (lit "inotify watching: " ++ config_directory)));;
          inotify_turns fd turns (repeat x00 (Z.to_nat buffer_size))
      end
  end.

(** ** [main] *)

Record Options : Type := {
  module_dir : bytes;
  opt_compile : bool;
  opt_self_check : bool;
  opt_probe_topology : bool;
  probe_directory : option (bytes * bytes);
  probe_mount : option (bytes * bytes * bytes * bytes);
  force_component_walk : bool;
}.

Record MainAnswers : Type := {
  first_mountinfo : option bytes;
  mount_probe : MountProbe;
  policy_reads : bool;
  status_reads : bool;
  run_directory : Files;
  first_answers : ReconcileAnswers;
  inotify_created : Z + Z;
  inotify_watched : Z + Z;
  watch_turns : list PollAnswer;
  poll_turns : list (option bytes * ReconcileAnswers);
}.

(** Up to the construction of the reconciler. *)
Definition start (a : MainAnswers) : outcome Empty_set Daemon :=
  '(c, topology) ← ProbeStorageTopology order (first_mountinfo a);
  Ok {| reconciler := NewReconciler (policy_reads a) (status_reads a) (run_directory a) (MakeDeviceSnapshot topology);
        topology_found := topology; watching := []; console := c |}.

(** From there on: the exit code, or [None] while the daemon serves. *)
Definition serve (o : Options) (a : MainAnswers) : daemon (option Z) :=
  if opt_compile o || opt_self_check o then
    result ← reconcile_and_log (if opt_self_check o then lit "self_check" else lit "compile") (first_answers a);
    if negb (reconcile_ok result) then mret (Some 1)
    else
      say (prints (line (if opt_self_check o then lit "ok" else lit "compiled")));;
      mret (Some 0)
  else
    reconcile_and_log (lit "initial") (first_answers a);;
    say (prints (line (lit "pathguardd ready; module-dir=" ++ module_dir o)));;
    returned ← RunInotifyLoop (inotify_created a) (inotify_watched a) (path_append (module_dir o) (lit "config"))
                 (watch_turns a);
    if (returned : bool) then RunPollingLoop (poll_turns a);; mret None
    else mret None.
End Loops.

(** The loop over [argv], after its first element. An option without its values is passed over. *)
Fixpoint parse_options (args : list bytes) (o : Options) : Options :=
  let set_dir v := {| module_dir := v; opt_compile := opt_compile o; opt_self_check := opt_self_check o;
                      opt_probe_topology := opt_probe_topology o; probe_directory := probe_directory o;
                      probe_mount := probe_mount o; force_component_walk := force_component_walk o |} in
  let set_flags c s t w :=
    {| module_dir := module_dir o; opt_compile := opt_compile o || c; opt_self_check := opt_self_check o || s;
       opt_probe_topology := opt_probe_topology o || t; probe_directory := probe_directory o;
       probe_mount := probe_mount o; force_component_walk := force_component_walk o || w |} in
  let set_probes d m :=
    {| module_dir := module_dir o; opt_compile := opt_compile o; opt_self_check := opt_self_check o;
       opt_probe_topology := opt_probe_topology o; probe_directory := d; probe_mount := m;
       force_component_walk := force_component_walk o |} in
  match args with
  | [] => o
  | arg :: rest =>
      if arg == lit "--module-dir" then
        match rest with v :: rest => parse_options rest (set_dir v) | [] => o end
      else if arg == lit "--compile" then parse_options rest (set_flags true false false false)
      else if arg == lit "--self-check" then parse_options rest (set_flags false true false false)
      else if arg == lit "--probe-topology" then parse_options rest (set_flags false false true false)
      else if arg == lit "--probe-directory" then
        match rest with
        | root :: path :: rest => parse_options rest (set_probes (Some (root, path)) (probe_mount o))
        | _ => parse_options rest o
        end
      else if arg == lit "--probe-proc-fd-mount" then
        match rest with
        | source_root :: source :: target_root :: target :: rest =>
            parse_options rest (set_probes (probe_directory o) (Some (source_root, source, target_root, target)))
        | _ => parse_options rest o
        end
      else if arg == lit "--force-component-walk" then parse_options rest (set_flags false false false true)
      else parse_options rest o
  end.

Definition default_options : Options :=
  {| module_dir := lit "."; opt_compile := false; opt_self_check := false; opt_probe_topology := false;
     probe_directory := None; probe_mount := None; force_component_walk := false |}.

Section Main.
Context (order : list (Z * MountRecord) -> list (Z * MountRecord)).
Context {value : Type} `{TomlValue value}.
Context (parse : bytes -> source_region + toml_node value).
Context {Node : Type} (k : Kernel Node).

Definition exit_code (ready : bool) : Z := if ready then 0 else 1.

(** The exit code, while there is none [None], with what was printed. *)
Definition main (args : list bytes) (a : MainAnswers) : os Node (option Z * Console) :=
  let o := parse_options args default_options in
  if opt_probe_topology o then fun s =>
    '(c, ready) ← ProbeStorageTopology order (first_mountinfo a);
    Ok ((Some (exit_code ready), c), s)
  else
    match probe_mount o, probe_directory o with
    | Some (source_root, source, target_root, target), _ =>
        '(c, ready) ← ProbeProcFdMount k source_root source target_root target (force_component_walk o) (mount_probe a);
        mret (Some (exit_code ready), c)
    | None, Some (root, path) =>
        '(c, ready) ← ProbeDirectory k root path (force_component_walk o);
        mret (Some (exit_code ready), c)
    | None, None => fun s =>
        d ← start order a;
        '(code, d) ← serve order default_limits parse o a d;
        Ok ((code, console d), s)
    end.
End Main.

(** ** Lemmas: the events of one read *)

(** An event as the kernel writes it: its name, when it has one, ends with a NUL and padding. *)
Record Event : Type := {
  ev_wd : Z;
  ev_mask : Z;
  ev_cookie : Z;
  ev_name : option (bytes * nat);
}.

Definition name_field (e : Event) : bytes :=
  match ev_name e with Some (name, padding) => name ++ x00 :: repeat x00 padding | None => [] end.

Definition encode_event (e : Event) : bytes :=
  le_bytes 4 (ev_wd e) ++ le_bytes 4 (ev_mask e) ++ le_bytes 4 (ev_cookie e)
  ++ le_bytes 4 (size (name_field e)) ++ name_field e.

Record event_wf (e : Event) : Prop := {
  wf_mask : 0 <= ev_mask e < 2 ^ 32;
  wf_name : forall name padding, ev_name e = Some (name, padding) -> x00 ∉ name;
  wf_len : size (name_field e) < 2 ^ 32;
}.

(** The events that mean that the rules may have changed. *)
Definition concerns_rules (e : Event) : bool :=
  (Z.land (ev_mask e) IN_Q_OVERFLOW != 0)
  || match ev_name e with
     | Some (name, _) => (kRulesFileName == name) && (Z.land (ev_mask e) kRelevantMask != 0)
     | None => false
     end.

Lemma read_event_field width z pre post offset :
  offset = size pre -> 0 <= z < 2 ^ (8 * Z.of_nat width) ->
  read_le (E:=Empty_set) width (pre ++ le_bytes width z ++ post) offset = Ok z.
Proof.
  intros -> Hz. rewrite read_le_in_range; [|apply size_nonneg|rewrite !size_app; unfold size; rewrite length_le_bytes; lia].
  f_equal. unfold size. rewrite Nat2Z.id, drop_app_length, take_app_le by (by rewrite length_le_bytes).
  rewrite take_ge by (by rewrite length_le_bytes). rewrite le_value_bytes. by apply Z.mod_small.
Qed.

(** The fields of an event where it is in the buffer. *)
Lemma event_fields pre e post :
  event_wf e ->
  let buffer := pre ++ encode_event e ++ post in
  Read32 (E:=Empty_set) buffer (size pre + 4) = Ok (ev_mask e)
  /\ Read32 (E:=Empty_set) buffer (size pre + 12) = Ok (size (name_field e))
  /\ (forall name padding, ev_name e = Some (name, padding) -> c_string buffer (size pre + event_size) = Ok name).
Proof.
  intros [Hm Hn Hl] buffer. pose proof (size_nonneg (name_field e)).
  assert (buffer = (pre ++ le_bytes 4 (ev_wd e)) ++ le_bytes 4 (ev_mask e)
                     ++ (le_bytes 4 (ev_cookie e) ++ le_bytes 4 (size (name_field e)) ++ name_field e ++ post)) as E1.
  { unfold buffer, encode_event. by rewrite <- !app_assoc. }
  assert (buffer = (pre ++ le_bytes 4 (ev_wd e) ++ le_bytes 4 (ev_mask e) ++ le_bytes 4 (ev_cookie e))
                     ++ le_bytes 4 (size (name_field e)) ++ (name_field e ++ post)) as E2.
  { unfold buffer, encode_event. by rewrite <- !app_assoc. }
  split_and!.
  - rewrite E1. apply read_event_field; [|done]. rewrite size_app. done.
  - rewrite E2. apply read_event_field; [|lia]. rewrite !size_app. done.
  - intros name padding En. unfold c_string.
    assert (buffer = (pre ++ le_bytes 4 (ev_wd e) ++ le_bytes 4 (ev_mask e) ++ le_bytes 4 (ev_cookie e)
                        ++ le_bytes 4 (size (name_field e))) ++ name ++ x00 :: (repeat x00 padding ++ post)) as ->.
    { rewrite E2. unfold name_field at 2. rewrite En. by rewrite <- !app_assoc. }
    rewrite drop_app_length'; [by rewrite cut_app by eauto|].
    unfold size, event_size. rewrite !length_app, !length_le_bytes. lia.
Qed.

Lemma size_encode e : size (encode_event e) = event_size + size (name_field e).
Proof. unfold encode_event. rewrite !size_app. unfold size. rewrite !length_le_bytes. unfold event_size. lia. Qed.

Lemma size_name_field e : size (name_field e) = 0 <-> ev_name e = None.
Proof.
  unfold name_field. destruct (ev_name e) as [[name padding]|]; [|done].
  rewrite size_app, size_cons. pose proof (size_nonneg name). pose proof (size_nonneg (repeat x00 padding)).
  split; [lia|done].
Qed.

(** One turn of the loop decides whether the event concerns the rules. *)
Lemma event_relevant pre e post :
  event_wf e ->
  let buffer := pre ++ encode_event e ++ post in
  (if Z.land (ev_mask e) IN_Q_OVERFLOW != 0 then Ok true else IsRulesEvent buffer (size pre) kRulesFileName)
  = Ok (concerns_rules e).
Proof.
  intros Hwf buffer. destruct (event_fields pre e post Hwf) as (Em & El & En). fold buffer in Em, El, En.
  unfold concerns_rules. destruct (_ != 0); [done|]. cbn [orb]. unfold IsRulesEvent. rewrite El. cbn.
  pose proof (size_name_field e) as Hs. destruct (ev_name e) as [[name padding]|].
  - destruct (Z.eqb_spec (size (name_field e)) 0) as [E|]; [by apply Hs in E|].
    rewrite (En _ _ eq_refl). cbn. destruct (decide (kRulesFileName = name)).
    + rewrite (bool_decide_eq_true_2 (kRulesFileName = name)) by done. cbn. by rewrite Em.
    + by rewrite (bool_decide_eq_false_2 (kRulesFileName = name)) by done.
  - by rewrite (proj2 Hs eq_refl).
Qed.

Definition encode_events (events : list Event) : bytes := events ≫= encode_event.

(** The loop over a read stays in the buffer, comes to its end, and notices exactly the events that
    concern the rules, whatever an earlier read has left behind them. *)
Lemma scan_events_exact pre events stale fuel config_changed :
  Forall event_wf events -> (length events <= fuel)%nat ->
  scan_events fuel (pre ++ encode_events events ++ stale) (size pre) (size pre + size (encode_events events)) config_changed
  = Ok (config_changed || existsb concerns_rules events).
Proof.
  intros Hwf. revert pre fuel config_changed. induction Hwf as [|e events He Hwf IH]; intros pre fuel changed Hf.
  { cbn. rewrite orb_false_r. change (size []) with 0. destruct fuel; cbn [scan_events]; rewrite (proj2 (Z.ltb_ge _ _)) by lia; done. }
  destruct fuel as [|fuel]; [cbn in Hf; lia|]. cbn [length] in Hf.
  change (encode_events (e :: events)) with (encode_event e ++ encode_events events).
  rewrite <- app_assoc. cbn [scan_events existsb].
  pose proof (size_encode e). pose proof (size_nonneg (name_field e)). pose proof (size_nonneg (encode_events events)).
  rewrite size_app, (proj2 (Z.ltb_lt _ _)) by (unfold event_size in *; lia).
  destruct (event_fields pre e (encode_events events ++ stale) He) as (Em & El & _).
  rewrite Em. cbn [mbind outcome_bind]. rewrite event_relevant by done. cbn [mbind outcome_bind]. rewrite El. cbn [mbind outcome_bind].
  specialize (IH (pre ++ encode_event e) fuel (changed || concerns_rules e) ltac:(lia)).
  rewrite size_app, size_encode, <- app_assoc in IH. rewrite size_encode.
  replace (size pre + event_size + size (name_field e)) with (size pre + (event_size + size (name_field e))) by lia.
  rewrite (Z.add_assoc (size pre) (event_size + size (name_field e))), IH. by rewrite orb_assoc.
Qed.

(** A read that the kernel answers with events, into the buffer. *)
Record kernel_read (data : bytes) (events : list Event) : Prop := {
  kr_data : data = encode_events events;
  kr_wf : Forall event_wf events;
  kr_some : events <> [];
  kr_fits : size data <= buffer_size;
}.

Lemma encode_events_length events : (length events <= length (encode_events events))%nat.
Proof.
  induction events as [|e events IH]; [done|].
  change (encode_events (e :: events)) with (encode_event e ++ encode_events events).
  rewrite length_app. pose proof (size_encode e) as He. pose proof (size_nonneg (name_field e)). unfold size, event_size in *.
  cbn [length]. lia.
Qed.

(** The loop over the reads: what it notices is what concerns the rules in any of them. *)
Lemma drain_exact reads events drained buffer config_changed :
  Forall2 kernel_read reads events -> size buffer = buffer_size ->
  exists buffer', drain reads drained buffer config_changed
    = Ok (if drained then Some (config_changed || existsb concerns_rules (concat events)) else None, buffer')
    /\ size buffer' = buffer_size.
Proof.
  intros H. revert buffer config_changed. induction H as [|data es reads events [-> Hwf Hne Hfit] H IH]; intros buffer changed Hb.
  { exists buffer. split; [|done]. cbn. by rewrite orb_false_r. }
  cbn [drain concat]. pose proof (encode_events_length es). destruct (Z.leb_spec (size (encode_events es)) 0).
  { destruct es; [done|]. unfold size in *. cbn [length] in *. lia. }
  pose proof (scan_events_exact [] es (drop (length (encode_events es)) buffer) (length (encode_events es)) changed Hwf ltac:(lia)) as Es.
  cbn [app] in Es. change (size []) with 0 in Es. rewrite Z.add_0_l in Es. rewrite Es. cbn [mbind outcome_bind].
  destruct (IH (encode_events es ++ drop (length (encode_events es)) buffer) (changed || existsb concerns_rules es))
    as (buffer' & -> & Hb').
  { unfold size in *. rewrite length_app, length_drop. lia. }
  exists buffer'. split; [|done]. by rewrite existsb_app, orb_assoc.
Qed.

(** ** Lemmas: what every step keeps *)

Section Kept.
Context (order : list (Z * MountRecord) -> list (Z * MountRecord)).
Context {value : Type} `{TomlValue value} (limits : RulesLimits).
Context (parse : bytes -> source_region + toml_node value).

(** The policy on disk is the one of [files0], or was compiled from rules without an error and
    admitted for the device as the daemon sees it. *)
Definition deployed (files0 files : Files) : Prop :=
  files !! policy_bin = files0 !! policy_bin
  \/ exists source canonical blob topology,
       let built := CompileRulesSource limits parse source in
       ok built = true /\ build_canonical built = Some canonical /\ build_blob built = Some blob
       /\ admitted (AdmitPolicy canonical (build_requirements built) (MakeDeviceSnapshot topology)) = true
       /\ files !! policy_bin = Some (blob_bytes blob).

(** The state knows the policy on disk, and the snapshot is that of the topology. *)
Record good (d : Daemon) : Prop := {
  gd_generation : active_content_generation (state_ (reconciler d)) = policy_generation (run_files (reconciler d));
  gd_snapshot : snapshot_ (reconciler d) = MakeDeviceSnapshot (topology_found d);
}.

Record kept (d0 d : Daemon) : Prop := {
  kp_good : good d;
  kp_deployed : deployed (run_files (reconciler d0)) (run_files (reconciler d));
  kp_topology : topology_found d0 = true -> topology_found d = true;
}.

Lemma kept_refl d : good d -> kept d d.
Proof. intros Hg. split; [done| |done]. by left. Qed.

Lemma kept_trans d1 d2 d3 : kept d1 d2 -> kept d2 d3 -> kept d1 d3.
Proof.
  intros [_ H1 Ht1] [Hg H2 Ht2]. split; [done| |auto].
  destruct H2 as [E|H2]; [|by right]. destruct H1 as [E1|H1]; [left; congruence|right].
  destruct H1 as (source & canonical & blob & topology & ? & ? & ? & ? & E2).
  exists source, canonical, blob, topology. split_and!; try done. by rewrite E.
Qed.

Lemma say_kept c d :
  good d -> ends (say c) d (fun _ d' => kept d d' /\ reconciler d' = reconciler d /\ watching d' = watching d).
Proof. intros [? ?]. apply ends_modify. split; [|done]. split; [by split|by left|done]. Qed.

Lemma reconcile_kept phase a d :
  good d -> publish_sane a (run_files (reconciler d)) ->
  ends (reconcile_and_log limits parse phase a) d (fun result d' =>
    kept d d' /\ watching d' = watching d /\ (result, reconciler d') = Reconcile limits parse a (reconciler d)
    /\ state_ (reconciler d') = result_state result).
Proof.
  intros [Hg Hs] Hsane. unfold reconcile_and_log.
  pose proof (Reconcile_reconciled limits parse a (reconciler d) Hsane) as Hr.
  destruct (Reconcile limits parse a (reconciler d)) as [result r'] eqn:E. destruct Hr as [Hst Hsnap Hkept Hpub].
  eapply ends_call; [rewrite E; reflexivity|]. split; [|done].
  destruct (result_published result) eqn:Ep.
  - destruct (Hpub eq_refl) as (loaded & canonical & blob & _ & Hok & Hcan & Hblob & Hadm & Hf & Hpg & Ha & _).
    split; cbn; [split; cbn; congruence| |done]. right.
    exists (snapshot_source loaded), canonical, blob, (topology_found d). rewrite Hs in Hadm. done.
  - destruct (Hkept eq_refl) as (Hf & _ & Hgen).
    split; cbn; [split; cbn; [|congruence]|by left|done].
    rewrite (policy_generation_same _ _ Hf). destruct Hgen; congruence.
Qed.

(** What the topology is after it was looked for, and the reconciler with it. *)
Definition probed (mountinfo : option bytes) : bool :=
  match mountinfo with
  | Some text => match ParseMountInfo order text with Ok _ => true | _ => false end
  | None => false
  end.

Definition refreshed (mountinfo : option bytes) (d : Daemon) : Reconciler :=
  if negb (topology_found d) && probed mountinfo
  then SetDeviceSnapshot (MakeDeviceSnapshot true) (reconciler d) else reconciler d.

Lemma ProbeStorageTopology_returns mountinfo :
  exists c, ProbeStorageTopology order mountinfo = Ok (c, probed mountinfo).
Proof.
  unfold ProbeStorageTopology, probed. destruct mountinfo as [text|]; [|by eexists].
  pose proof (ParseMountInfo_returns order text). destruct (ParseMountInfo order text); [by eexists..|done].
Qed.

Lemma refresh_kept mountinfo d :
  good d ->
  ends (RefreshPendingTopology order mountinfo) d (fun changed d' =>
    kept d d' /\ watching d' = watching d /\ reconciler d' = refreshed mountinfo d
    /\ changed = negb (topology_found d) && probed mountinfo
    /\ run_files (reconciler d') = run_files (reconciler d)).
Proof.
  intros Hg. unfold RefreshPendingTopology, refreshed. apply ends_bind, ends_gets.
  destruct (topology_found d) eqn:Et; cbn [negb andb].
  { apply ends_ret. split; [by apply kept_refl|done]. }
  destruct (ProbeStorageTopology_returns mountinfo) as [c Ec].
  apply ends_bind, ends_lift. eexists. split; [exact Ec|]. cbn.
  apply ends_bind. eapply ends_mono; [by apply say_kept|]. intros _ d1 (Hk1 & Hr1 & Hw1).
  destruct (probed mountinfo); cbn [negb].
  - apply ends_bind, ends_modify, ends_ret. rewrite <- Hr1. split; [|done].
    split; cbn; [split; cbn; [apply Hk1|done]|apply Hk1|done].
  - apply ends_ret. rewrite Hr1. split; [done|]. split; [done|]. by rewrite <- Hr1.
Qed.
(** *** Turns of the loops *)

Definition turn_sane (answer : PollAnswer) (d : Daemon) : Prop :=
  match answer with
  | PollTimeout _ a => publish_sane a (run_files (reconciler d))
  | PollReadable reads _ _ a =>
      (exists events, Forall2 kernel_read reads events) /\ publish_sane a (run_files (reconciler d))
  | _ => True
  end.

Lemma close_inotify_ends fd fds d (Q : unit -> Daemon -> Prop) :
  watching d = fd :: fds ->
  Q tt {| reconciler := reconciler d; topology_found := topology_found d; watching := fds; console := console d |} ->
  ends (close_inotify fd) d Q.
Proof. intros Hw HQ. unfold ends, close_inotify. rewrite Hw, remove_fd_head. by eexists _, _. Qed.

(** A descriptor that is opened or closed changes nothing else. *)
Lemma kept_watching d fds c :
  good d ->
  kept d {| reconciler := reconciler d; topology_found := topology_found d; watching := fds; console := c |}.
Proof. intros [? ?]. split; [by split|by left|done]. Qed.

(** The turn of the loop in which events are read: it gives up when the queue cannot be emptied;
    otherwise the rules are reconciled exactly when an event concerns them, with the topology looked
    for just before. *)
Lemma readable_turn fd reads events drained mountinfo a buffer fds d :
  Forall2 kernel_read reads events -> size buffer = buffer_size -> good d -> watching d = fd :: fds ->
  publish_sane a (run_files (reconciler d)) ->
  ends (inotify_turn order limits parse fd (PollReadable reads drained mountinfo a) buffer) d (fun next d' =>
    kept d d'
    /\ match next with
       | None => drained = false /\ watching d' = fds /\ reconciler d' = reconciler d
       | Some buffer' =>
           drained = true /\ size buffer' = buffer_size /\ watching d' = fd :: fds
           /\ reconciler d' = if existsb concerns_rules (concat events)
                              then (Reconcile limits parse a (refreshed mountinfo d)).2 else reconciler d
       end).
Proof.
  intros Hreads Hb Hg Hw Hsane. unfold inotify_turn.
  destruct (drain_exact reads events drained buffer false Hreads Hb) as (buffer' & Ed & Hb').
  apply ends_bind, ends_lift. eexists. split; [exact Ed|]. cbn [orb].
  destruct drained; [destruct (existsb concerns_rules (concat events))|].
  - apply ends_bind. eapply ends_mono; [by apply refresh_kept|].
    intros changed d1 (Hk1 & Hw1 & Hr1 & _ & Hf1). apply ends_bind.
    eapply ends_mono; [apply reconcile_kept; [apply Hk1|by rewrite Hf1]|].
    intros result d2 (Hk2 & Hw2 & Er & _). apply ends_ret. split; [by eapply kept_trans|].
    rewrite Hr1 in Er. rewrite <- Er. split_and!; [done|done|congruence|done].
  - apply ends_ret. split; [by apply kept_refl|done].
  - apply ends_bind, (close_inotify_ends _ fds); [done|]. apply ends_ret. split; [by apply kept_watching|done].
Qed.

Lemma turn_kept fd answer buffer fds d :
  size buffer = buffer_size -> good d -> watching d = fd :: fds -> turn_sane answer d ->
  ends (inotify_turn order limits parse fd answer buffer) d (fun next d' =>
    kept d d' /\ match next with
                 | Some buffer' => size buffer' = buffer_size /\ watching d' = fd :: fds
                 | None => watching d' = fds
                 end).
Proof.
  intros Hb Hg Hw Hsane. destruct answer as [|e|mountinfo a| |reads drained mountinfo a].
  - apply ends_ret. split; [by apply kept_refl|done].
  - unfold inotify_turn. apply ends_bind. eapply ends_mono; [by apply say_kept|]. intros _ d1 (Hk & _ & Hw1).
    apply ends_bind, (close_inotify_ends _ fds); [congruence|]. apply ends_ret.
    split; [eapply kept_trans; [done|apply kept_watching, Hk]|done].
  - unfold inotify_turn. apply ends_bind. eapply ends_mono; [by apply refresh_kept|].
    intros [|] d1 (Hk & Hw1 & _ & _ & Hf1).
    + apply ends_bind. eapply ends_mono; [apply reconcile_kept; [apply Hk|by rewrite Hf1]|].
      intros result d2 (Hk2 & Hw2 & _). apply ends_ret. split; [by eapply kept_trans|]. split; [done|congruence].
    + apply ends_ret. split; [done|]. split; [done|congruence].
  - apply ends_ret. split; [by apply kept_refl|done].
  - destruct Hsane as [[events Hreads] Hsane].
    eapply ends_mono; [by eapply readable_turn|]. intros [buffer'|] d' [Hk Hr]; (split; [done|]); tauto.
Qed.

Lemma poll_turn_kept answers d :
  good d -> publish_sane answers.2 (run_files (reconciler d)) ->
  ends (poll_turn order limits parse answers) d (fun _ d' => kept d d' /\ watching d' = watching d).
Proof.
  intros Hg Hsane. unfold poll_turn. apply ends_bind. eapply ends_mono; [by apply refresh_kept|].
  intros changed d1 (Hk & Hw & _ & _ & Hf). apply ends_bind.
  eapply ends_mono; [apply reconcile_kept; [apply Hk|by rewrite Hf]|].
  intros result d2 (Hk2 & Hw2 & _). apply ends_ret. split; [by eapply kept_trans|congruence].
Qed.

(** *** Runs

    What is assumed of the answers is said where they are used: the kernel writes whole events, and
    publications use names that are free and undo their steps. *)

(** [P] holds when the computation has returned. *)
Definition after {A} (m : daemon A) (d : Daemon) (P : A -> Daemon -> Prop) : Prop :=
  match m d with Ok (x, d') => P x d' | _ => True end.

Lemma ends_after {A} (m : daemon A) d P Q : ends m d Q -> after m d P -> ends m d (fun x d' => Q x d' /\ P x d').
Proof. intros (x & d' & E & HQ) HP. unfold after in HP. rewrite E in HP. by exists x, d'. Qed.

Fixpoint watch_sane (fd : Z) (turns : list PollAnswer) (buffer : bytes) (d : Daemon) : Prop :=
  match turns with
  | [] => True
  | answer :: rest =>
      turn_sane answer d
      /\ after (inotify_turn order limits parse fd answer buffer) d (fun next d' =>
           match next with Some buffer' => watch_sane fd rest buffer' d' | None => True end)
  end.

Fixpoint polling_sane (turns : list (option bytes * ReconcileAnswers)) (d : Daemon) : Prop :=
  match turns with
  | [] => True
  | answers :: rest =>
      publish_sane answers.2 (run_files (reconciler d))
      /\ after (poll_turn order limits parse answers) d (fun _ d' => polling_sane rest d')
  end.

Definition loop_sane (created watched : Z + Z) (config_directory : bytes) (turns : list PollAnswer) (d : Daemon) : Prop :=
  match created, watched with
  | inl fd, inl _ =>
      after (inotify_opened fd;; say (prints (line (lit "inotify watching: " ++ config_directory)))) d
        (fun _ d' => watch_sane fd turns (repeat x00 (Z.to_nat buffer_size)) d')
  | _, _ => True
  end.

Lemma watching_kept fd fds turns buffer d :
  size buffer = buffer_size -> good d -> watching d = fd :: fds -> watch_sane fd turns buffer d ->
  ends (inotify_turns order limits parse fd turns buffer) d (fun returned d' =>
    kept d d' /\ watching d' = if (returned : bool) then fds else fd :: fds).
Proof.
  revert buffer d. induction turns as [|answer turns IH]; intros buffer d Hb Hg Hw Hs; cbn [inotify_turns].
  { apply ends_ret. split; [by apply kept_refl|done]. }
  destruct Hs as [Hturn Hrest]. apply ends_bind.
  eapply ends_mono; [apply ends_after; [by eapply turn_kept|exact Hrest]|].
  intros [buffer'|] d' [[Hk Hw'] Hs].
  - destruct Hw' as [Hb' Hw']. eapply ends_mono; [apply IH; try done; apply Hk|].
    intros returned d2 [Hk2 Hw2]. split; [by eapply kept_trans|done].
  - by apply ends_ret.
Qed.

Lemma polling_kept turns d :
  good d -> polling_sane turns d ->
  ends (RunPollingLoop order limits parse turns) d (fun _ d' => kept d d' /\ watching d' = watching d).
Proof.
  revert d. induction turns as [|answers turns IH]; intros d Hg Hs; cbn [RunPollingLoop].
  { apply ends_ret. split; [by apply kept_refl|done]. }
  destruct Hs as [Hturn Hrest]. apply ends_bind.
  eapply ends_mono; [apply ends_after; [by apply poll_turn_kept|exact Hrest]|]. intros _ d' [[Hk Hw] Hs].
  eapply ends_mono; [apply IH; [apply Hk|done]|]. intros _ d2 [Hk2 Hw2]. split; [by eapply kept_trans|congruence].
Qed.

Lemma loop_kept created watched config_directory turns d :
  good d -> watching d = [] -> loop_sane created watched config_directory turns d ->
  ends (RunInotifyLoop order limits parse created watched config_directory turns) d (fun returned d' =>
    kept d d' /\ if (returned : bool) then watching d' = [] else exists fd, created = inl fd /\ watching d' = [fd]).
Proof.
  intros Hg Hw Hs. unfold RunInotifyLoop. destruct created as [fd|e].
  2:{ apply ends_bind. eapply ends_mono; [by apply say_kept|]. intros _ d' (? & _ & ?). apply ends_ret. split; [done|congruence]. }
  apply ends_bind, ends_modify. rewrite Hw.
  set (d1 := {| reconciler := reconciler d; topology_found := topology_found d; watching := [fd]; console := console d |}).
  assert (kept d d1) as Hk1 by (by apply kept_watching). pose proof (kp_good _ _ Hk1) as Hg1.
  destruct watched as [wd|e].
  - cbn [loop_sane] in Hs. unfold after, mbind, stateful_bind in Hs. cbn in Hs. rewrite Hw in Hs.
    apply ends_bind, ends_modify. subst d1. cbn [watching reconciler topology_found console].
    eapply ends_mono;
      [apply (watching_kept fd []); [reflexivity|exact (kp_good _ _ (kept_watching d _ _ Hg))|done|exact Hs]|].
    intros returned d2 [Hk2 Hw2]. split; [exact (kept_trans _ _ _ (kept_watching d _ _ Hg) Hk2)|].
    destruct returned; [done|by exists fd].
  - apply ends_bind. eapply ends_mono; [by apply say_kept|]. intros _ d2 (Hk2 & _ & Hw2).
    apply ends_bind, (close_inotify_ends _ []); [done|]. apply ends_ret.
    split; [|done]. eapply kept_trans; [done|]. eapply kept_trans; [done|]. apply kept_watching, Hk2.
Qed.
End Kept.

(** ** Properties *)

Section Properties.
Context (order : list (Z * MountRecord) -> list (Z * MountRecord)).
Context {value : Type} `{TomlValue value} (limits : RulesLimits).
Context (parse : bytes -> source_region + toml_node value).

(** What is assumed of the answers of a run from the start on. *)
Definition serve_sane (o : Options) (a : MainAnswers) (d : Daemon) : Prop :=
  publish_sane (first_answers a) (run_files (reconciler d))
  /\ (opt_compile o || opt_self_check o = false ->
      after (reconcile_and_log limits parse (lit "initial") (first_answers a)) d (fun _ d =>
      after (say (prints (line (lit "pathguardd ready; module-dir=" ++ module_dir o)))) d (fun _ d1 =>
        let config := path_append (module_dir o) (lit "config") in
        loop_sane order limits parse (inotify_created a) (inotify_watched a) config (watch_turns a) d1
        /\ after (RunInotifyLoop order limits parse (inotify_created a) (inotify_watched a) config (watch_turns a)) d1
             (fun returned d2 => if (returned : bool) then polling_sane order limits parse (poll_turns a) d2 else True)))).

Lemma start_good a :
  policy_reads a = true ->
  exists d, start order a = Ok d /\ good d /\ watching d = [] /\ run_files (reconciler d) = run_directory a.
Proof.
  intros Hp. unfold start. destruct (ProbeStorageTopology_returns order (first_mountinfo a)) as [c ->]. cbn.
  eexists. split; [done|]. split_and!; try done. split; [|done]. cbn. unfold policy_generation. by rewrite Hp.
Qed.

(** C6. The daemon deploys nothing that it has not compiled and admitted. From its start, through
    the first reconciliation and any number of turns of either loop, whatever events come and
    whatever fails: it returns to its loop, its state knows the generation of the policy on disk, the
    snapshot it admits with is that of the topology it has found, and the policy on disk is the one
    from before or was compiled from rules without an error and admitted for the device; it keeps at
    most the one descriptor of inotify. It exits only when it was asked to compile once, with 0 only
    when the policy is active. *)
Theorem daemon_deploys_only_admitted o a :
  policy_reads a = true -> (forall d, start order a = Ok d -> serve_sane o a d) ->
  exists d0 code d, start order a = Ok d0 /\ serve order limits parse o a d0 = Ok (code, d)
    /\ active_content_generation (state_ (reconciler d)) = policy_generation (run_files (reconciler d))
    /\ snapshot_ (reconciler d) = MakeDeviceSnapshot (topology_found d)
    /\ (topology_found d0 = true -> topology_found d = true)
    /\ deployed limits parse (run_directory a) (run_files (reconciler d))
    /\ match code with
       | None => opt_compile o || opt_self_check o = false
                 /\ (watching d = [] \/ exists fd, inotify_created a = inl fd /\ watching d = [fd])
       | Some c => opt_compile o || opt_self_check o = true /\ watching d = []
                   /\ (c = 0 <-> status (state_ (reconciler d)) = kActive)
       end.
Proof.
  intros Hp Hsane. destruct (start_good a Hp) as (d0 & E0 & Hg & Hw & Hf). specialize (Hsane d0 E0) as [Hfirst Hloops].
  exists d0. cut (ends (serve order limits parse o a) d0 (fun code d => kept limits parse d0 d /\
    match code with
    | None => opt_compile o || opt_self_check o = false
              /\ (watching d = [] \/ exists fd, inotify_created a = inl fd /\ watching d = [fd])
    | Some c => opt_compile o || opt_self_check o = true /\ watching d = []
                /\ (c = 0 <-> status (state_ (reconciler d)) = kActive)
    end)).
  { intros (code & d & E & [[[Hgen Hsnap] Hdep Htop] Hcode]). exists code, d. rewrite <- Hf. done. }
  unfold serve. destruct (opt_compile o || opt_self_check o) eqn:Eo.
  - apply ends_bind. eapply ends_mono; [by apply reconcile_kept|]. intros result d1 (Hk & Hw1 & _ & Hst).
    assert (reconcile_ok result = true <-> status (state_ (reconciler d1)) = kActive) as Hok.
    { rewrite Hst. unfold reconcile_ok. by rewrite bool_decide_eq_true. }
    destruct (reconcile_ok result); cbn [negb].
    + apply ends_bind. eapply ends_mono; [by apply say_kept, Hk|]. intros _ d2 (Hk2 & Hr2 & Hw2). apply ends_ret.
      split; [by eapply kept_trans|]. split_and!; [done|congruence|]. rewrite Hr2. split; [by intros _; apply Hok|done].
    + apply ends_ret. split; [done|]. split_and!; [done|congruence|]. split; [done|]. intros Ha. by apply Hok in Ha.
  - specialize (Hloops eq_refl). apply ends_bind.
    eapply ends_mono; [apply ends_after; [by apply reconcile_kept|exact Hloops]|].
    intros result d1 [(Hk1 & Hw1 & _) Hs1]. apply ends_bind.
    eapply ends_mono; [apply ends_after; [apply say_kept, Hk1|exact Hs1]|].
    intros _ d2 [(Hk2 & _ & Hw2) [Hloop Hpoll]]. apply ends_bind.
    eapply ends_mono; [apply ends_after; [|exact Hpoll]|].
    { apply loop_kept; [apply Hk2|congruence|done]. }
    intros returned d3 [[Hk3 Hw3] Hpolling].
    assert (kept limits parse d0 d3) as Hk by eauto using kept_trans.
    destruct returned.
    + apply ends_bind. eapply ends_mono; [by apply polling_kept; [apply Hk|]|]. intros _ d4 [Hk4 Hw4]. apply ends_ret.
      split; [by eapply kept_trans|]. split; [done|left; congruence].
    + apply ends_ret. split; [done|]. split; [done|by right].
Qed.

(** C7. No event of the rules is missed while they are watched, and nothing else makes the daemon
    work. When events can be read, the turn stays within its buffer whatever the kernel has written
    into it before; it reconciles the rules, with the device looked at once more, exactly when one of
    the events names the rules file with a relevant change or says that events were lost; otherwise
    the reconciler is left as it was. When the queue cannot be emptied the loop ends and its
    descriptor is closed. *)
Theorem rules_events_reconcile fd reads events drained mountinfo a buffer fds d :
  Forall2 kernel_read reads events -> size buffer = buffer_size -> good d -> watching d = fd :: fds ->
  publish_sane a (run_files (reconciler d)) ->
  exists next d', inotify_turn order limits parse fd (PollReadable reads drained mountinfo a) buffer d = Ok (next, d')
    /\ match next with
       | None => drained = false /\ watching d' = fds /\ reconciler d' = reconciler d
       | Some buffer' =>
           drained = true /\ size buffer' = buffer_size /\ watching d' = fd :: fds
           /\ (forall e, e ∈ concat events -> concerns_rules e = true ->
                 reconciler d' = (Reconcile limits parse a (refreshed order mountinfo d)).2)
           /\ ((forall e, e ∈ concat events -> concerns_rules e = false) -> reconciler d' = reconciler d)
       end.
Proof.
  intros Hreads Hb Hg Hw Hsane.
  destruct (readable_turn order limits parse fd reads events drained mountinfo a buffer fds d Hreads Hb Hg Hw Hsane)
    as (next & d' & E & _ & Hr).
  exists next, d'. split; [done|]. destruct next as [buffer'|]; [|done]. destruct Hr as (? & ? & ? & Hrec).
  split_and!; try done.
  - intros e He Hc. rewrite Hrec. replace (existsb _ _) with true; [done|]. symmetry. apply existsb_exists.
    exists e. by rewrite <- list_elem_of_In.
  - intros Hnone. rewrite Hrec. destruct (existsb concerns_rules (concat events)) eqn:Ex; [|done].
    apply existsb_exists in Ex as (e & He & Hc). rewrite <- list_elem_of_In in He. rewrite Hnone in Hc by done. done.
Qed.
End Properties.

(** ** Examples *)

(** A rules file that was moved into place, an edit of another file, and a watch that is gone. *)
Definition moved_event : Event :=
  {| ev_wd := 1; ev_mask := IN_MOVED_TO; ev_cookie := 7; ev_name := Some (lit "rules.toml", 5%nat) |}.
Definition other_event : Event :=
  {| ev_wd := 1; ev_mask := IN_CLOSE_WRITE; ev_cookie := 0; ev_name := Some (lit "notes.txt", 6%nat) |}.
Definition ignored_event : Event := {| ev_wd := 1; ev_mask := 0x8000; ev_cookie := 0; ev_name := None |}.

Lemma sample_events_wf : Forall event_wf [moved_event; other_event; ignored_event].
Proof.
  repeat apply Forall_cons_2; try apply Forall_nil_2; (split; [by vm_compute| |by vm_compute]); intros name padding [= <- <-];
    apply (bool_decide_eq_true_1 (_ ∉ _)); vm_compute; reflexivity.
Qed.

Definition sample_reads : list bytes := [encode_events [other_event; moved_event]; encode_events [ignored_event]].

Lemma sample_kernel_reads : Forall2 kernel_read sample_reads [[other_event; moved_event]; [ignored_event]].
Proof.
  pose proof sample_events_wf as Hwf. rewrite !Forall_cons in Hwf. destruct Hwf as (? & ? & ? & _).
  apply Forall2_cons_2; [|apply Forall2_cons_2; [|apply Forall2_nil_2]].
  - split; [done|by apply Forall_cons_2; [|apply Forall_cons_2; [|apply Forall_nil_2]]|done|by vm_compute].
  - split; [done|by apply Forall_cons_2; [|apply Forall_nil_2]|done|by vm_compute].
Qed.

Definition sample_buffer : bytes := repeat x00 (Z.to_nat buffer_size).

Definition watching_sample (topology : bool) : Daemon :=
  {| reconciler := NewReconciler true true ∅ (MakeDeviceSnapshot topology); topology_found := topology; watching := [5];
     console := silent |}.

Lemma watching_good topology : good (watching_sample topology).
Proof. split; [by vm_compute|done]. Qed.

Lemma rules_events_reconcile_witness :
  exists next d', inotify_turn id default_limits sample_parse 5
                    (PollReadable sample_reads true (Some sample_mountinfo) sample_reconcile) sample_buffer
                    (watching_sample false) = Ok (next, d')
    /\ reconciler d' = (Reconcile default_limits sample_parse sample_reconcile
                          (refreshed id (Some sample_mountinfo) (watching_sample false))).2.
Proof.
  destruct (rules_events_reconcile id default_limits sample_parse 5 sample_reads _ true (Some sample_mountinfo)
    sample_reconcile sample_buffer [] (watching_sample false) sample_kernel_reads
    ltac:(vm_compute; reflexivity) (watching_good false) eq_refl ltac:(split; [vm_compute; reflexivity..|done|by split_and!]))
    as (next & d' & E & Hr).
  exists next, d'. split; [exact E|]. destruct next as [buffer'|]; [|destruct Hr as [Hr _]; discriminate Hr].
  destruct Hr as (_ & _ & _ & Hr & _). apply (Hr moved_event); [right; left|vm_compute; reflexivity].
Defined.

Definition sample_answers : MainAnswers :=
  {| first_mountinfo := Some sample_mountinfo; mount_probe := all_work; policy_reads := true; status_reads := true;
     run_directory := ∅; first_answers := sample_reconcile; inotify_created := inl 5; inotify_watched := inl 1;
     watch_turns := [PollReadable sample_reads true None sample_reconcile; PollFailed 12];
     poll_turns := [(None, sample_reconcile)] |}.

Ltac publish_sane := split; [vm_compute; reflexivity..|by split_and!].

Lemma sample_serve_sane d :
  start id sample_answers = Ok d -> serve_sane id default_limits sample_parse default_options sample_answers d.
Proof.
  intros E. assert (d = match start id sample_answers with Ok d => d | _ => d end) as -> by (by rewrite E). clear E.
  vm_compute. split; [publish_sane|]. intros _. split_and!; try exact I; try publish_sane.
  eexists. exact sample_kernel_reads.
Qed.

(** A run: the first reconciliation publishes, a read brings an event of the rules, [poll] fails, and
    a turn of the polling loop follows. *)
Lemma daemon_deploys_only_admitted_witness :
  exists d0 code d, start id sample_answers = Ok d0
    /\ serve id default_limits sample_parse default_options sample_answers d0 = Ok (code, d)
    /\ active_content_generation (state_ (reconciler d)) = policy_generation (run_files (reconciler d))
    /\ deployed default_limits sample_parse ∅ (run_files (reconciler d)).
Proof.
  destruct (daemon_deploys_only_admitted id default_limits sample_parse default_options sample_answers eq_refl sample_serve_sane)
    as (d0 & code & d & E0 & E & Hg & _ & _ & Hd & _).
  exists d0, code, d. split_and!; [exact E0|exact E|exact Hg|exact Hd].
Defined.

(** It has published the policy and then found nothing new. *)
Example sample_run_publishes :
  match start id sample_answers with
  | Ok d0 =>
      match serve id default_limits sample_parse default_options sample_answers d0 with
      | Ok (code, d) =>
          code = None /\ watching d = []
          /\ run_files (reconciler d) !! policy_bin = Some (blob_bytes sample_blob)
          /\ deployment_epoch (state_ (reconciler d)) = 1
      | _ => False
      end
  | _ => False
  end.
Proof. vm_compute. done. Qed.

(** Rules that were edited between the first reconciliation and the start of the watch are not read:
    whatever they hold, no event comes, and no turn of the loop looks at them. *)
Example edit_before_the_watch_is_missed quiet :
  Forall (fun t => t = PollInterrupted \/ t = PollOther) quiet ->
  forall buffer (d : Daemon),
  inotify_turns id default_limits sample_parse 5 quiet buffer d = Ok (false, d).
Proof. induction 1 as [|t quiet [->| ->] _ IH]; intros buffer d; [done|cbn..]; apply IH. Qed.

(** When the directory of the rules is removed the kernel drops the watch and says so; the daemon
    stays in its loop, where no event will come any more. *)
Example dropped_watch_is_ignored :
  match inotify_turn id default_limits sample_parse 5
          (PollReadable [encode_events [ignored_event]] true None sample_reconcile) sample_buffer (watching_sample true) with
  | Ok (Some _, d) => d = watching_sample true
  | _ => False
  end.
Proof. vm_compute. done. Qed.

Example options_parse :
  let o := parse_options [lit "--self-check"; lit "--module-dir"; lit "/data"; lit "--module-dir"] default_options in
  module_dir o = lit "/data" /\ opt_self_check o = true /\ opt_compile o = false.
Proof. vm_compute. done. Qed.
