(* ===== verification/Protocol.v ===== *)
(** * The mount transaction shared by three processes

    The application ([WaitForSharedResult]), the worker that mounts in its namespace
    ([ApplyProcessPlan], [AcquireMutationLease]) and the companion that started the
    worker ([CompanionHandler], [PublishPendingFailure]) share one word of memory, the
    state of the transaction, and the result beside it (zygisk/src/module_entry.cpp).
    Each atomic access and each write of the result is a step; what the kernel and the
    mounts do is not determined, nor at which time a step of the application is made: the
    clock it reads is an argument of its step. The worker mounts, commits or rolls
    back as [MountTransaction.transact] does: [transaction_atomic] says that it ends
    with everything mounted, with nothing mounted, or with a failed rollback. *)

From S2P Require Import Prelude MountBackend.

Local Open Scope pg_scope.

(** The mounts of the transaction in the namespace of the application. *)
Inductive Namespace : Set := NsClean | NsMounted | NsTainted.

(** Times are in nanoseconds of the monotonic clock; [now] is the time at which a deadline was
    found expired. *)
Inductive AppPc : Set :=
  | AppStart
  | AppLoop (deadline : Z) (grace_used : bool)
  | AppDeadline (current : MountTransactionState) (now deadline : Z) (grace_used : bool)
  | AppOwner (owner_deadline : Z)
  | AppReturned (received : bool)
  | AppKilled.

Inductive WorkerPc : Set :=
  | WNotStarted | WPreflight | WLeaseLost | WMarkCancelled | WMounting
  | WCompleteWrite | WCompleteCas | WRollingBack
  | WFinishing (tainted : bool)
  | WPublishWrite (tainted : bool) (current : MountTransactionState)
  | WPublishCas (tainted : bool) (current : MountTransactionState)
  | WTerminating
  | WExited (success : bool)
  | WKilled.

Inductive CompanionPc : Set :=
  | CPreparing | CMarkCancelled | CWaiting | CNoAnswer | CKilling | CTerminating
  | CReaped (owner_death : bool) (received : option bool)
  | COwnerWrite (current : MountTransactionState)
  | COwnerCas (current : MountTransactionState)
  | COwnerTerminate
  | CFinal (received : option bool)
  | CFinalWrite (from to : MountTransactionState) (success : bool)
  | CFinalCas (from to : MountTransactionState)
  | CPendingWrite | CPendingCas | CPendingLoad | CPendingMark
  | CDone.

Record State : Type := {
  status : MountTransactionState;
  (** [state->result.mount.result == 0] *)
  result_ok : bool;
  app : AppPc;
  worker : WorkerPc;
  companion : CompanionPc;
  namespace : Namespace;
  (** the lease was acquired; the members of the namespace were signalled *)
  leased : bool;
  terminated : bool;
}.

Definition initial : State :=
  {| status := kPending; result_ok := true; app := AppStart; worker := WNotStarted;
     companion := CPreparing; namespace := NsClean; leased := false; terminated := false |}.

(** ** Updates *)

Definition set_status (s : State) (v : MountTransactionState) : State :=
  {| status := v; result_ok := result_ok s; app := app s; worker := worker s;
     companion := companion s; namespace := namespace s; leased := leased s;
     terminated := terminated s |}.
Definition set_result (s : State) (v : bool) : State :=
  {| status := status s; result_ok := v; app := app s; worker := worker s;
     companion := companion s; namespace := namespace s; leased := leased s;
     terminated := terminated s |}.
Definition set_app (s : State) (v : AppPc) : State :=
  {| status := status s; result_ok := result_ok s; app := v; worker := worker s;
     companion := companion s; namespace := namespace s; leased := leased s;
     terminated := terminated s |}.
Definition set_worker (s : State) (v : WorkerPc) : State :=
  {| status := status s; result_ok := result_ok s; app := app s; worker := v;
     companion := companion s; namespace := namespace s; leased := leased s;
     terminated := terminated s |}.
Definition set_companion (s : State) (v : CompanionPc) : State :=
  {| status := status s; result_ok := result_ok s; app := app s; worker := worker s;
     companion := v; namespace := namespace s; leased := leased s; terminated := terminated s |}.
Definition set_namespace (s : State) (v : Namespace) : State :=
  {| status := status s; result_ok := result_ok s; app := app s; worker := worker s;
     companion := companion s; namespace := v; leased := leased s; terminated := terminated s |}.
Definition set_leased (s : State) : State :=
  {| status := status s; result_ok := result_ok s; app := app s; worker := worker s;
     companion := companion s; namespace := namespace s; leased := true;
     terminated := terminated s |}.
Definition set_terminated (s : State) : State :=
  {| status := status s; result_ok := result_ok s; app := app s; worker := worker s;
     companion := companion s; namespace := namespace s; leased := leased s;
     terminated := true |}.

(** The compare-and-exchange; [None] when it is refused. *)
Definition TransitionSharedState (s : State) (from to : MountTransactionState) : option State :=
  if IsMountTransitionAllowed from to && (status s == from) then Some (set_status s to) else None.

(** The state after the exchange, or the state left by a refusal. *)
Definition transition (s : State) (from to : MountTransactionState)
    (success failure : State -> State) : State :=
  match TransitionSharedState s from to with
  | Some s' => success s'
  | None => failure s
  end.

Definition in_flight (v : MountTransactionState) : bool := (v == kApplying) || (v == kCancelRequested).

(** ** The application: [WaitForSharedResult]

    [now] is what the clock says at the step: in a loop, after the state was read. A step that
    leaves the application where it is ends in the wait on the futex. *)
Definition kAppResultTimeoutMs : Z := 300.
Definition kApplyingCompletionGraceMs : Z := 500.
Definition kApplyingOwnerDeathTimeoutMs : Z := 10000.

Definition after_ms (now ms : Z) : Z := now + ms * 1000000.

Definition app_step (now : Z) (s : State) : State :=
  match app s with
  | AppStart => set_app s (AppLoop (after_ms now kAppResultTimeoutMs) false)
  | AppLoop deadline grace_used =>
      if MountTransactionHasResult (status s) then set_app s (AppReturned true)
      else if status s == kCancelled then set_app s (AppReturned false)
      else if deadline <=? now then set_app s (AppDeadline (status s) now deadline grace_used) else s
  | AppDeadline current expired deadline grace_used =>
      if current == kPending then
        transition s kPending kCancelRequested
          (fun s => set_app s (AppReturned false)) (fun s => set_app s (AppLoop deadline grace_used))
      else if (current == kApplying) && negb grace_used
      then set_app s (AppLoop (after_ms expired kApplyingCompletionGraceMs) true)
      else
        let proceed s :=
          if IsMountTransactionTerminal current
          then set_app s (AppReturned (MountTransactionHasResult current))
          else set_app s (AppOwner (after_ms now kApplyingOwnerDeathTimeoutMs)) in
        if current == kApplying then
          transition s kApplying kCancelRequested proceed (fun s => set_app s (AppLoop deadline grace_used))
        else proceed s
  | AppOwner owner_deadline =>
      if MountTransactionHasResult (status s) then set_app s (AppReturned true)
      else if status s == kCancelled then set_app s (AppReturned false)
      else if owner_deadline <=? now then set_app s AppKilled else s
  | AppReturned _ | AppKilled => s
  end.

(** ** The worker: [ApplyProcessPlan] *)
Inductive worker_step : State -> State -> Prop :=
  (** the preflight: a cancellation seen by [IsCancelRequested], or any failure *)
  | worker_preflight_fails s :
      worker s = WPreflight -> worker_step s (set_worker s (WExited false))
  (** [AcquireMutationLease] *)
  | worker_lease s :
      worker s = WPreflight ->
      worker_step s (transition s kPending kApplying
        (fun s => set_leased (set_worker s WMounting)) (fun s => set_worker s WLeaseLost))
  | worker_lease_lost s :
      worker s = WLeaseLost ->
      worker_step s (set_worker s (if status s == kCancelRequested then WMarkCancelled
                                   else WExited false))
  | worker_mark_cancelled s :
      worker s = WMarkCancelled ->
      worker_step s (transition s kCancelRequested kCancelled
        (fun s => set_worker s (WExited false)) (fun s => set_worker s (WExited false)))
  (** the loop over the rules: a mount, an error, or the end *)
  | worker_mounts s :
      worker s = WMounting -> worker_step s (set_namespace s NsMounted)
  | worker_fails s :
      worker s = WMounting -> worker_step s (set_worker s WRollingBack)
  | worker_all_mounted s :
      worker s = WMounting -> namespace s = NsMounted ->
      worker_step s (set_worker s WCompleteWrite)
  (** [PublishSharedResult(kApplying, kComplete)] *)
  | worker_complete_write s :
      worker s = WCompleteWrite -> worker_step s (set_worker (set_result s true) WCompleteCas)
  | worker_complete_cas s :
      worker s = WCompleteCas ->
      worker_step s (transition s kApplying kComplete
        (fun s => set_worker s (WExited true)) (fun s => set_worker s WRollingBack))
  (** the rollback: everything is detached, or a step fails *)
  | worker_rolled_back s :
      worker s = WRollingBack ->
      worker_step s (set_worker (set_namespace s NsClean) (WFinishing false))
  | worker_rollback_fails s :
      worker s = WRollingBack ->
      worker_step s (set_worker (set_namespace s NsTainted) (WFinishing true))
  (** the publication of the failure *)
  | worker_finishing s tainted :
      worker s = WFinishing tainted ->
      worker_step s (set_worker s (if tainted || in_flight (status s)
                                   then WPublishWrite tainted (status s) else WExited false))
  | worker_publish_write s tainted current :
      worker s = WPublishWrite tainted current ->
      worker_step s (set_worker (set_result s false) (WPublishCas tainted current))
  | worker_publish_cas s tainted current :
      worker s = WPublishCas tainted current ->
      let next s := set_worker s (if tainted then WTerminating else WExited false) in
      worker_step s (transition s current (if tainted then kNamespaceTainted else kRollbackComplete)
        next next)
  | worker_terminates s :
      worker s = WTerminating -> worker_step s (set_worker (set_terminated s) (WExited false))
  (** the process dies *)
  | worker_dies s :
      worker s <> WNotStarted -> (forall success, worker s <> WExited success) ->
      worker_step s (set_worker s WKilled).

(** ** The companion: the end of [CompanionHandler]

    What it received from the worker, once the worker has exited. *)
Definition answer_of (w : WorkerPc) : option bool :=
  match w with
  | WExited success => Some success
  | _ => None
  end.

Definition stopped (w : WorkerPc) : bool :=
  match w with
  | WNotStarted | WExited _ | WKilled => true
  | _ => false
  end.

Inductive companion_step : State -> State -> Prop :=
  (** before the fork: a failure, or a cancellation seen while waiting for the process *)
  | companion_fails_early s :
      companion s = CPreparing -> companion_step s (set_companion s CPendingWrite)
  | companion_cancelled s :
      companion s = CPreparing -> status s = kCancelRequested ->
      companion_step s (set_companion s CMarkCancelled)
  | companion_mark_cancelled s :
      companion s = CMarkCancelled ->
      companion_step s (transition s kCancelRequested kCancelled
        (fun s => set_companion s CDone) (fun s => set_companion s CDone))
  | companion_forks s :
      companion s = CPreparing ->
      companion_step s (set_companion (set_worker s WPreflight) CWaiting)
  | companion_fork_fails s :
      companion s = CPreparing -> companion_step s (set_companion s (CFinal None))
  (** [ReadFully] of the answer of the worker *)
  | companion_receives s success :
      companion s = CWaiting -> worker s = WExited success ->
      companion_step s (set_companion s (CReaped false (Some success)))
  | companion_no_answer s :
      companion s = CWaiting -> companion_step s (set_companion s CNoAnswer)
  | companion_owner_death s :
      companion s = CNoAnswer -> in_flight (status s) = true ->
      companion_step s (set_companion s CKilling)
  | companion_kills_owner s :
      companion s = CKilling ->
      companion_step s (set_companion (set_worker s WKilled) (CReaped true None))
  | companion_asks_to_end s :
      companion s = CNoAnswer -> in_flight (status s) = false ->
      companion_step s (set_companion s CTerminating)
  | companion_receives_late s success :
      companion s = CTerminating -> worker s = WExited success ->
      companion_step s (set_companion s (CReaped false (Some success)))
  | companion_kills s :
      companion s = CTerminating ->
      companion_step s (set_companion (set_worker s WKilled) (CReaped false None))
  (** after [waitpid] *)
  | companion_after_wait s owner_death received :
      companion s = CReaped owner_death received ->
      companion_step s (set_companion s
        (if owner_death && in_flight (status s) then COwnerWrite (status s) else CFinal received))
  | companion_owner_write s current :
      companion s = COwnerWrite current ->
      companion_step s (set_companion (set_result s false) (COwnerCas current))
  | companion_owner_cas s current :
      companion s = COwnerCas current ->
      companion_step s (transition s current kNamespaceTainted
        (fun s => set_companion s COwnerTerminate) (fun s => set_companion s COwnerTerminate))
  | companion_owner_terminate s (namespace_known : bool) :
      companion s = COwnerTerminate ->
      companion_step s (set_companion (if namespace_known then set_terminated s else s) (CFinal None))
  (** the last look at the state *)
  | companion_final s received :
      companion s = CFinal received ->
      companion_step s (set_companion s
        (match status s, received with
         | kPending, _ => CPendingWrite
         | kCancelRequested, Some false => CFinalWrite kCancelRequested kRollbackComplete false
         | kApplying, Some true => CFinalWrite kApplying kComplete true
         | kApplying, Some false => CFinalWrite kApplying kRollbackComplete false
         | _, _ => CDone
         end))
  | companion_final_write s from to success :
      companion s = CFinalWrite from to success ->
      companion_step s (set_companion (set_result s success) (CFinalCas from to))
  | companion_final_cas s from to :
      companion s = CFinalCas from to ->
      companion_step s (transition s from to
        (fun s => set_companion s CDone) (fun s => set_companion s CDone))
  (** [PublishPendingFailure] *)
  | companion_pending_write s :
      companion s = CPendingWrite ->
      companion_step s (set_companion (set_result s false) CPendingCas)
  | companion_pending_cas s :
      companion s = CPendingCas ->
      companion_step s (transition s kPending kFailed
        (fun s => set_companion s CDone) (fun s => set_companion s CPendingLoad))
  | companion_pending_load s :
      companion s = CPendingLoad ->
      companion_step s (set_companion s (if status s == kCancelRequested then CPendingMark else CDone))
  | companion_pending_mark s :
      companion s = CPendingMark ->
      companion_step s (transition s kCancelRequested kCancelled
        (fun s => set_companion s CDone) (fun s => set_companion s CDone)).

Inductive step : State -> State -> Prop :=
  | step_app now s : step s (app_step now s)
  | step_worker s s' : worker_step s s' -> step s s'
  | step_companion s s' : companion_step s s' -> step s s'.

Inductive reachable : State -> Prop :=
  | reachable_initial : reachable initial
  | reachable_step s s' : reachable s -> step s s' -> reachable s'.

(** ** The invariant *)

(** The namespace holds no mount of the transaction, or its members were signalled, or
    the state says that it is tainted. *)
Definition settled (s : State) : Prop :=
  namespace s = NsClean \/ status s = kNamespaceTainted \/ terminated s = true.

Definition app_inv (s : State) : Prop :=
  match app s with
  | AppStart | AppLoop _ _ => status s <> kCancelRequested /\ status s <> kCancelled
  | AppDeadline current _ _ _ =>
      status s <> kCancelRequested /\ status s <> kCancelled
      /\ (current = kPending \/ current = kApplying /\ leased s = true)
  | AppOwner _ | AppKilled => leased s = true
  | AppReturned true => MountTransactionHasResult (status s) = true
  | AppReturned false => leased s = false /\ status s <> kPending
  end.

Definition worker_inv (s : State) : Prop :=
  match worker s with
  | WNotStarted | WPreflight => leased s = false
  | WLeaseLost | WMarkCancelled => leased s = false /\ status s <> kPending
  | WMounting | WRollingBack => leased s = true /\ in_flight (status s) = true
  | WCompleteWrite | WCompleteCas =>
      leased s = true /\ in_flight (status s) = true /\ namespace s = NsMounted
      /\ (worker s = WCompleteCas -> result_ok s = true)
  | WFinishing tainted =>
      leased s = true /\ in_flight (status s) = true /\ (tainted = false -> namespace s = NsClean)
  | WPublishWrite tainted _ | WPublishCas tainted _ =>
      leased s = true /\ in_flight (status s) = true /\ (tainted = false -> namespace s = NsClean)
  | WTerminating => leased s = true /\ (in_flight (status s) = true \/ status s = kNamespaceTainted)
  | WExited true => status s = kComplete
  | WExited false => settled s /\ status s <> kComplete
  | WKilled => True
  end.

Definition companion_inv (s : State) : Prop :=
  match companion s with
  | CPreparing => worker s = WNotStarted /\ (status s = kPending \/ status s = kCancelRequested)
  | CMarkCancelled | CPendingWrite | CPendingCas | CPendingLoad | CPendingMark =>
      stopped (worker s) = true /\ leased s = false
  | CWaiting | CNoAnswer | CKilling | CTerminating => worker s <> WNotStarted
  | CReaped true received => worker s = WKilled /\ received = None
  | CReaped false received | CFinal received =>
      stopped (worker s) = true
      /\ match received with
         | Some true => status s = kComplete
         | Some false => settled s /\ status s <> kComplete
         | None => True
         end
  | COwnerWrite _ | COwnerCas _ => worker s = WKilled /\ status s <> kComplete
  | COwnerTerminate => worker s = WKilled
  | CFinalWrite from to success =>
      stopped (worker s) = true /\ success = false /\ to = kRollbackComplete /\ settled s
      /\ status s <> kComplete
  | CFinalCas from to => stopped (worker s) = true /\ to = kRollbackComplete /\ settled s
      /\ status s <> kComplete
  | CDone => stopped (worker s) = true
  end.

Definition status_inv (s : State) : Prop :=
  match status s with
  | kPending => leased s = false
  | kApplying => leased s = true
  | kCancelRequested => leased s = false -> app s = AppReturned false
  | kCancelled => leased s = false /\ app s = AppReturned false
  | kFailed => leased s = false
  | kComplete => namespace s = NsMounted /\ result_ok s = true /\ leased s = true
      /\ (worker s = WExited true \/ worker s = WKilled)
  | kRollbackComplete => settled s /\ stopped (worker s) = true
  | kNamespaceTainted => worker s = WTerminating \/ stopped (worker s) = true
  end.

Record inv (s : State) : Prop := {
  inv_app : app_inv s;
  inv_worker : worker_inv s;
  inv_companion : companion_inv s;
  inv_status : status_inv s;
  inv_unleased : leased s = false -> namespace s = NsClean;
  inv_tainted : namespace s = NsTainted -> leased s = true;
}.

Lemma transition_cases (P : State -> Prop) s from to success failure :
  (IsMountTransitionAllowed from to = true -> status s = from -> P (success (set_status s to))) ->
  ((IsMountTransitionAllowed from to = false \/ status s <> from) -> P (failure s)) ->
  P (transition s from to success failure).
Proof.
  intros Hs Hf. unfold transition, TransitionSharedState.
  destruct (IsMountTransitionAllowed from to) eqn:Ea; cbn [andb]; [|by apply Hf; left].
  case_bool_decide; [by apply Hs|]. apply Hf. by right.
Qed.

(** Evaluates the tests on known states. *)
Ltac eval_term x :=
  let v := eval vm_compute in x in
  match v with true => idtac | false => idtac end; change x with v in *.

Ltac eval_states :=
  repeat match goal with
  | |- context [MountTransactionHasResult ?c] => is_constructor c; eval_term (MountTransactionHasResult c)
  | H : context [MountTransactionHasResult ?c] |- _ =>
      is_constructor c; eval_term (MountTransactionHasResult c)
  | |- context [in_flight ?c] => is_constructor c; eval_term (in_flight c)
  | H : context [in_flight ?c] |- _ => is_constructor c; eval_term (in_flight c)
  | |- context [IsMountTransactionTerminal ?c] =>
      is_constructor c; eval_term (IsMountTransactionTerminal c)
  | |- context [bool_decide (?c = ?d)] =>
      is_constructor c; is_constructor d; eval_term (bool_decide (c = d))
  end.

(** Case analysis on the one component each part of the invariant looks at. *)
Ltac solve_part :=
  repeat match goal with
  | H : _ /\ _ |- _ => destruct H
  | H : ?x <> ?x |- _ => by destruct H
  | H : _ = _ |- _ => discriminate H
  | H : true = true -> _ |- _ => specialize (H eq_refl)
  | H : false = false -> _ |- _ => specialize (H eq_refl)
  end;
  try discriminate; try congruence;
  try (split_and!; intros; first [done | congruence | intuition congruence]);
  try (intuition congruence).

Ltac simplify_inv :=
  unfold app_inv, worker_inv, companion_inv, status_inv, settled in *; cbn in *; eval_states;
  cbn in *.

Ltac solve_inv :=
  eval_states; cbn -[app_inv worker_inv companion_inv status_inv];
  split; simplify_inv;
  repeat match goal with
  | |- context [match ?x with _ => _ end] => is_var x; destruct x; cbn in *
  end; eval_states; solve_part.

(** What the program counters tell of the other components. *)
Ltac use_counters :=
  unfold companion_inv, worker_inv in *; cbn in *;
  repeat match goal with H : _ /\ _ |- _ => destruct H end; subst; cbn in *.

Lemma initial_inv : inv initial.
Proof. split; try done. by split; [|left]. Qed.

Lemma app_step_inv now s : inv s -> inv (app_step now s).
Proof.
  destruct s as [st res ap wk cp ns ls tm]. intros [Ha Hw Hc Hs Hu Ht].
  unfold app_step. cbn [app status]. unfold after_ms. destruct ap as [|d g|c e d g|d|r|]; try (by split).
  - destruct st; solve_inv.
  - generalize (d <=? now). intros expired. destruct st, expired; solve_inv.
  - destruct (decide (c = kPending)) as [->|Hp].
    + rewrite bool_decide_eq_true_2 by done. apply transition_cases; cbn.
      * intros _ ->. solve_inv.
      * intros _. solve_inv.
    + rewrite bool_decide_eq_false_2 by done.
      destruct (decide (c = kApplying)) as [->|Hap].
      * rewrite bool_decide_eq_true_2 by done. destruct g; cbn [negb andb]; [|solve_inv].
        apply transition_cases; cbn.
        -- intros _ ->. solve_inv.
        -- intros _. solve_inv.
      * rewrite bool_decide_eq_false_2 by done. cbn [andb].
        destruct c; cbn; solve_inv.
  - generalize (d <=? now). intros expired. destruct st, expired; solve_inv.
Qed.

Lemma worker_step_inv s s' : inv s -> worker_step s s' -> inv s'.
Proof.
  intros I Hstep. destruct I as [Ha Hw Hc Hs Hu Ht].
  destruct Hstep as [s E|s E|s E|s E|s E|s E|s E Hns|s E|s E|s E|s E|s tainted E
                    |s tainted current E|s tainted current E|s E|s Hns Hex];
    destruct s as [st res ap wk cp ns ls tm]; cbn in *; subst.
  - destruct st; solve_inv.
  - apply transition_cases; cbn.
    + intros _ ->. solve_inv.
    + intros [E|E]; [discriminate E|]. destruct st; try (by destruct E); solve_inv.
  - destruct st; solve_inv.
  - apply transition_cases; cbn.
    + intros _ ->. solve_inv.
    + intros _. destruct st; solve_inv.
  - destruct st; solve_inv.
  - destruct st; solve_inv.
  - destruct st; solve_inv.
  - destruct st; solve_inv.
  - apply transition_cases; cbn.
    + intros _ ->. solve_inv.
    + intros _. destruct st; solve_inv.
  - destruct st; solve_inv.
  - destruct st; solve_inv.
  - destruct tainted, st; solve_inv.
  - destruct tainted, st; solve_inv.
  - apply transition_cases; cbn; destruct tainted.
    + destruct current; intros Hal ->; try discriminate Hal; solve_inv.
    + destruct current; intros Hal ->; try discriminate Hal; solve_inv.
    + intros _. destruct st; solve_inv.
    + intros _. destruct st; solve_inv.
  - destruct st; solve_inv.
  - destruct wk; try (by destruct Hns); try (by destruct (Hex success)); solve_inv.
Qed.

Lemma companion_step_inv s s' : inv s -> companion_step s s' -> inv s'.
Proof.
  intros I Hstep. destruct I as [Ha Hw Hc Hs Hu Ht].
  destruct Hstep as [s E|s E Est|s E|s E|s E|s success E Ew|s E|s E Ef|s E|s E Ef|s success E Ew|s E
                    |s owner received E|s current E|s current E|s known E|s received E
                    |s from to success E|s from to E|s E|s E|s E|s E];
    destruct s as [st res ap wk cp ns ls tm]; cbn in *; subst; use_counters.
  - destruct st; solve_inv.
  - solve_inv.
  - apply transition_cases; cbn; [intros _ ->|intros _; destruct st]; solve_inv.
  - destruct st; solve_inv.
  - destruct st; solve_inv.
  - destruct success, st; solve_inv.
  - destruct st; solve_inv.
  - destruct st; try discriminate Ef; solve_inv.
  - destruct st; solve_inv.
  - destruct st; try discriminate Ef; solve_inv.
  - destruct success, st; solve_inv.
  - destruct st; solve_inv.
  - destruct owner, received as [[]|], st; use_counters; solve_inv.
  - destruct st; solve_inv.
  - apply transition_cases; cbn; [intros Hal ->; destruct current; try discriminate Hal
                                 |intros _; destruct st]; solve_inv.
  - destruct known, st; solve_inv.
  - destruct received as [[]|], st; solve_inv.
  - destruct st; solve_inv.
  - apply transition_cases; cbn; [intros Hal ->; destruct from; try discriminate Hal
                                 |intros _; destruct st]; solve_inv.
  - destruct st; solve_inv.
  - apply transition_cases; cbn; [intros _ ->|intros _; destruct st]; solve_inv.
  - destruct st; solve_inv.
  - apply transition_cases; cbn; [intros _ ->|intros _; destruct st]; solve_inv.
Qed.

Lemma reachable_inv s : reachable s -> inv s.
Proof.
  induction 1 as [|s s' _ IH Hstep]; [apply initial_inv|].
  destruct Hstep; [by apply app_step_inv|by eapply worker_step_inv|by eapply companion_step_inv].
Qed.
