(* ===== verification/ProtocolProofs.v ===== *)
(** * What the shared transaction guarantees

    Safety of the protocol of [Protocol]: aborted transactions never mount, commits
    are final, the application stops waiting in time; and a run in which the state claims a
    rollback that failed. *)

From S2P Require Import Prelude MountBackend Protocol.

Local Open Scope pg_scope.

(** ** Lemmas: what never changes again *)

Lemma reachable_steps s s' : reachable s -> rtc step s s' -> reachable s'.
Proof. intros Hs. induction 1 as [|s s1 s' H _ IH]; [done|]. apply IH. by eapply reachable_step. Qed.

(** Only the application moves its own counter. *)
Lemma other_app s s' : worker_step s s' \/ companion_step s s' -> app s' = app s.
Proof.
  intros [H|H]; destruct H; cbn; try done;
    try (apply transition_cases; intros; cbn; (done || by destruct tainted));
    by destruct namespace_known.
Qed.

Lemma app_returned_stable s s' received :
  step s s' -> app s = AppReturned received -> app s' = AppReturned received.
Proof.
  intros [now s0|s0 s1 H|s0 s1 H] Ha; [unfold app_step; by rewrite Ha| |];
    rewrite (other_app s0 s1) by auto; done.
Qed.

(** Nothing leaves [kComplete]. *)
Lemma transition_complete s from to success failure :
  status s = kComplete ->
  (forall s1, status (success s1) = status s1) -> (forall s1, status (failure s1) = status s1) ->
  status (transition s from to success failure) = kComplete.
Proof.
  intros Hs Hsucc Hfail. apply (transition_cases (fun s' => status s' = kComplete)).
  - intros Ha Hf. rewrite Hs in Hf. subst from. discriminate Ha.
  - intros _. by rewrite Hfail.
Qed.

Lemma complete_stable s s' : step s s' -> status s = kComplete -> status s' = kComplete.
Proof.
  intros Hstep Hs. destruct Hstep as [now s0|s0 s1 H|s0 s1 H].
  - unfold app_step. destruct (app s0) as [|d g|c e d g|d|r|]; try done.
    + by rewrite Hs.
    + case_bool_decide; [by apply transition_complete|].
      destruct (_ && negb g); [done|]. destruct (c == kApplying).
      * apply transition_complete; try done. intros. by destruct (IsMountTransactionTerminal c).
      * by destruct (IsMountTransactionTerminal c).
    + by rewrite Hs.
  - destruct H; cbn; try done; apply transition_complete; try done; intros; by destruct tainted.
  - destruct H; cbn; try done; try (by apply transition_complete). by destruct namespace_known.
Qed.

(** ** Properties *)

(** C8. An application that goes on without a result runs in a namespace the
    transaction never touches: once [WaitForSharedResult] has returned false no mount
    was made and none will be, whatever the worker and the companion still do. *)
Theorem abandoned_transaction_never_mounts s s' :
  reachable s -> app s = AppReturned false -> rtc step s s' ->
  namespace s' = NsClean /\ leased s' = false.
Proof.
  intros Hr Ha Hsteps. assert (app s' = AppReturned false) as Ha'.
  { clear Hr. induction Hsteps as [|s s1 s' H _ IH]; [done|]. apply IH. by eapply app_returned_stable. }
  destruct (reachable_inv s' (reachable_steps _ _ Hr Hsteps)) as [Hi _ _ _ Hu _].
  unfold app_inv in Hi. rewrite Ha' in Hi. destruct Hi as [Hl _]. auto.
Qed.

(** C9. A commit is final and honest: once the state says [kComplete] every rule is
    mounted, the shared result reports success, and both stay so for ever. *)
Theorem complete_is_committed s s' :
  reachable s -> status s = kComplete -> rtc step s s' ->
  status s' = kComplete /\ namespace s' = NsMounted /\ result_ok s' = true.
Proof.
  intros Hr Hs Hsteps. assert (status s' = kComplete) as Hs'.
  { clear Hr. induction Hsteps as [|s s1 s' H _ IH]; [done|]. apply IH. by eapply complete_stable. }
  destruct (reachable_inv s' (reachable_steps _ _ Hr Hsteps)) as [_ _ _ Hi _ _].
  unfold status_inv in Hi. rewrite Hs' in Hi. tauto.
Qed.

(** When the application goes on, its namespace is in a known condition: the
    transaction committed, or left no mount, or the state says that the namespace is
    tainted, or the members of the namespace were signalled to die. *)
Theorem returned_application_is_settled s received :
  reachable s -> app s = AppReturned received ->
  status s = kComplete /\ namespace s = NsMounted /\ received = true
  \/ namespace s = NsClean \/ status s = kNamespaceTainted \/ terminated s = true.
Proof.
  intros Hr Ha. destruct (reachable_inv s Hr) as [Hi _ _ Hst Hu _].
  unfold app_inv in Hi. rewrite Ha in Hi. unfold status_inv in Hst.
  destruct received; [|right; left; tauto].
  destruct (status s) eqn:E; try discriminate Hi; [left|right; left|right|right].
  - tauto.
  - auto.
  - destruct Hst as [[?|[?|?]] _]; [by left|congruence|by right; right].
  - by right; left.
Qed.

(** ** The application stops waiting *)

Definition waiting (s : State) : Prop := (forall received, app s <> AppReturned received) /\ app s <> AppKilled.

(** The application looks at the state again by this time: when its step has left it where it was it
    waits on the futex, with the rest of its deadline as the timeout, and is running again at most
    [delta] after that; any other step takes it at most [delta]. *)
Definition wakes_by (delta now : Z) (before after : AppPc) : Z :=
  match before, after with
  | AppLoop _ _, AppLoop deadline _ => deadline + delta
  | AppOwner _, AppOwner owner_deadline => owner_deadline + delta
  | _, _ => now + delta
  end.

Definition asleep (before after : AppPc) : bool :=
  match before, after with
  | AppLoop _ _, AppLoop _ _ | AppOwner _, AppOwner _ => true
  | _, _ => false
  end.

(** A run from the call of [WaitForSharedResult] at [t0]: the number of steps of the application that
    did not end in a wait, the time of its last step, and the time by which the next one is due. The
    others step whenever they like, or never. *)
Inductive timed_run (delta t0 : Z) : nat -> Z -> Z -> State -> Prop :=
  | timed_start : timed_run delta t0 0 t0 (t0 + delta) initial
  | timed_other n now due s s' :
      timed_run delta t0 n now due s -> worker_step s s' \/ companion_step s s' ->
      timed_run delta t0 n now due s'
  | timed_look n now due s t :
      timed_run delta t0 n now due s -> waiting s -> now <= t <= due ->
      timed_run delta t0 (if asleep (app s) (app (app_step t s)) then n else S n) t
        (wakes_by delta t (app s) (app (app_step t s))) (app_step t s).

Definition patience (s : State) : nat :=
  let bonus (grace_used : bool) := (if grace_used then 0 else 2)%nat in
  match app s with
  | AppStart => (4 * transaction_rank (status s) + 7)%nat
  | AppLoop _ grace_used => (4 * transaction_rank (status s) + 4 + bonus grace_used)%nat
  | AppDeadline current _ _ grace_used => (4 * transaction_rank current + 3 + bonus grace_used)%nat
  | AppOwner _ => 2%nat
  | AppReturned _ | AppKilled => 0%nat
  end.

(** What an expired deadline was decided on is not newer than the state. *)
Definition not_newer (s : State) : Prop :=
  match app s with
  | AppDeadline current _ _ _ =>
      status s = current \/ (transaction_rank (status s) < transaction_rank current)%nat
  | _ => True
  end.

Definition status_moves (s s' : State) : Prop :=
  app s' = app s
  /\ (status s' = status s \/ (transaction_rank (status s') < transaction_rank (status s))%nat).

Lemma transition_moves s from to success failure :
  (forall s1, app (success s1) = app s1 /\ status (success s1) = status s1) ->
  (forall s1, app (failure s1) = app s1 /\ status (failure s1) = status s1) ->
  status_moves s (transition s from to success failure).
Proof.
  intros Hs Hf. apply (transition_cases (status_moves s)); unfold status_moves.
  - intros Ha <-. destruct (Hs (set_status s to)) as [-> ->]. split; [done|]. right.
    by apply transition_rank.
  - intros _. destruct (Hf s) as [-> ->]. auto.
Qed.

Lemma other_moves s s' : worker_step s s' \/ companion_step s s' -> status_moves s s'.
Proof.
  intros [H|H]; destruct H;
    first [ apply transition_moves; intros; by try destruct tainted
          | split; [done|by left]
          | destruct namespace_known; (split; [done|by left]) ].
Qed.

Lemma patience_moves s s' :
  status_moves s s' -> not_newer s -> not_newer s' /\ (patience s' <= patience s)%nat.
Proof.
  unfold status_moves, not_newer, patience. intros [-> Hs] Hn.
  destruct (app s); split; try done; destruct Hs as [->|Hs]; try lia; try done.
  destruct Hn as [<-|Hn]; [by right|right; lia].
Qed.

(** A step of the application that does not end in a wait leaves it less patience. *)
Definition less_patient (before : nat) (s' : State) : Prop := not_newer s' /\ (patience s' < before)%nat.

Lemma app_step_patience t s :
  not_newer s -> waiting s ->
  app_step t s = s /\ asleep (app s) (app s) = true
  \/ asleep (app s) (app (app_step t s)) = false /\ less_patient (patience s) (app_step t s).
Proof.
  intros Hn [Hr Hk]. unfold app_step, not_newer, less_patient, patience in *.
  destruct (app s) as [|d g|c e d g|d|r|] eqn:E; [..|by destruct (Hr r)|done].
  - right. split; [done|]. split; [done|]. cbn. lia.
  - destruct (MountTransactionHasResult _); [right; split; [done|]; split; [done|cbn; lia]|].
    case_bool_decide; [right; split; [done|]; split; [done|cbn; lia]|].
    destruct (d <=? t); [right; split; [done|]; split; [by left|cbn; lia]|]. by left.
  - right.
    assert (forall s1, asleep (AppDeadline c e d g) (app s1) = false) as Hawake by done.
    split; [apply Hawake|].
    assert (status s <> c -> less_patient (4 * transaction_rank c + 3 + (if g then 0 else 2)) (set_app s (AppLoop d g)))
      as Hloop.
    { intros Hne. split; [done|]. unfold patience. cbn. destruct Hn; [done|]. destruct g; lia. }
    unfold less_patient, patience in Hloop.
    destruct (decide (c = kPending)) as [->|Hp].
    + rewrite bool_decide_eq_true_2 by done. apply transition_cases.
      * intros _ _. split; [done|]. cbn. lia.
      * intros [Hal|Hst]; [discriminate Hal|by apply Hloop].
    + rewrite bool_decide_eq_false_2 by done. destruct (decide (c = kApplying)) as [->|Hap].
      * rewrite bool_decide_eq_true_2 by done. destruct g; cbn [negb andb].
        -- apply transition_cases.
           ++ intros _ _. change (IsMountTransactionTerminal kApplying) with false. split; [done|]. cbn. lia.
           ++ intros [Hal|Hst]; [discriminate Hal|by apply Hloop].
        -- split; [done|]. cbn. destruct Hn as [->|Hn]; cbn in *; lia.
      * rewrite bool_decide_eq_false_2 by done. cbn [andb].
        destruct (IsMountTransactionTerminal c); (split; [done|cbn; lia]).
  - destruct (MountTransactionHasResult _); [right; split; [done|]; split; [done|cbn; lia]|].
    case_bool_decide; [right; split; [done|]; split; [done|cbn; lia]|].
    destruct (d <=? t); [right; split; [done|]; split; [done|cbn; lia]|]. by left.
Qed.

(** The time by which the application has come to an end, but for the steps it has still to make. *)
Definition last_call (delta due : Z) (s : State) : Z :=
  let rest (grace_used : bool) :=
    if grace_used then kApplyingOwnerDeathTimeoutMs
    else kApplyingCompletionGraceMs + kApplyingOwnerDeathTimeoutMs in
  match app s with
  | AppStart => after_ms due (kAppResultTimeoutMs + kApplyingCompletionGraceMs + kApplyingOwnerDeathTimeoutMs)
  | AppLoop deadline grace_used => after_ms (Z.max due (deadline + delta)) (rest grace_used)
  | AppDeadline _ _ _ grace_used => after_ms due (rest grace_used)
  | AppOwner owner_deadline => Z.max due (owner_deadline + delta)
  | AppReturned _ | AppKilled => due
  end.

(** The deadlines are the configured times after the call, and expired when they were found so. *)
Definition on_time (t0 now : Z) (s : State) : Prop :=
  let first (grace_used : bool) :=
    if grace_used then kAppResultTimeoutMs + kApplyingCompletionGraceMs else kAppResultTimeoutMs in
  t0 <= now
  /\ match app s with
     | AppStart => True
     | AppLoop deadline grace_used => after_ms t0 (first grace_used) <= deadline
     | AppDeadline _ expired deadline grace_used =>
         after_ms t0 (first grace_used) <= deadline <= expired /\ expired <= now
     | AppOwner owner_deadline =>
         after_ms t0 (kAppResultTimeoutMs + kApplyingCompletionGraceMs) <= now
         /\ after_ms t0 (kAppResultTimeoutMs + kApplyingCompletionGraceMs + kApplyingOwnerDeathTimeoutMs)
            <= owner_deadline
     | AppReturned false => after_ms t0 kAppResultTimeoutMs <= now
     | AppReturned true => True
     | AppKilled =>
         after_ms t0 (kAppResultTimeoutMs + kApplyingCompletionGraceMs + kApplyingOwnerDeathTimeoutMs) <= now
     end.

Ltac clock :=
  unfold after_ms, kAppResultTimeoutMs, kApplyingCompletionGraceMs, kApplyingOwnerDeathTimeoutMs in *; lia.

Lemma app_step_on_time t0 now t s :
  reachable s -> on_time t0 now s -> now <= t -> on_time t0 t (app_step t s).
Proof.
  intros Hr [H0 Hs] Hle. pose proof (inv_app s (reachable_inv s Hr)) as Hi.
  unfold on_time, app_step, app_inv in *.
  destruct (app s) as [|d g|c e d g|d|[] |] eqn:E; (split; [lia|]); rewrite ?E; cbn; try done; try clock.
  - destruct (MountTransactionHasResult _); [done|].
    rewrite bool_decide_eq_false_2 by tauto.
    destruct (Z.leb_spec d t); [cbn; clock|by rewrite E].
  - destruct Hi as (_ & _ & [->|[-> _]]); cbn [bool_decide].
    + rewrite bool_decide_eq_true_2 by done. apply transition_cases; intros; cbn; destruct g; clock.
    + rewrite bool_decide_eq_false_2, bool_decide_eq_true_2 by done.
      destruct g; cbn [negb andb]; [|cbn; clock].
      apply transition_cases; intros; change (IsMountTransactionTerminal kApplying) with false; cbn; clock.
  - destruct (MountTransactionHasResult _); [done|]. case_bool_decide; [cbn; clock|].
    destruct (Z.leb_spec d t); [cbn; clock|rewrite E; clock].
Qed.

(** A step costs at most [delta] of the time, and a wait costs nothing. *)
Lemma app_step_last_call delta t0 now due t s :
  0 <= delta -> reachable s -> on_time t0 now s -> waiting s -> now <= t <= due ->
  waiting (app_step t s) ->
  last_call delta (wakes_by delta t (app s) (app (app_step t s))) (app_step t s)
  <= last_call delta due s + (if asleep (app s) (app (app_step t s)) then 0 else delta).
Proof.
  intros Hd Hr [H0 Hs] _ Ht. pose proof (inv_app s (reachable_inv s Hr)) as Hi.
  unfold on_time, app_step, app_inv, waiting, last_call in *.
  destruct (app s) as [|d g|c e d g|d|r|] eqn:E; cbn; intros [Hret Hkill]; try clock.
  - revert Hret. destruct (MountTransactionHasResult _); [intros Hret; by destruct (Hret true)|].
    case_bool_decide; [intros Hret; by destruct (Hret false)|]. intros _.
    destruct (Z.leb_spec d t); [|rewrite E]; cbn; destruct g; clock.
  - revert Hret Hkill. destruct Hi as (_ & _ & [->|[-> _]]).
    + rewrite bool_decide_eq_true_2 by done.
      apply transition_cases; intros; [by destruct (Hret false)|]. cbn. destruct g; clock.
    + rewrite bool_decide_eq_false_2, bool_decide_eq_true_2 by done.
      destruct g; cbn [negb andb]; [|intros; cbn; clock].
      apply transition_cases; intros; change (IsMountTransactionTerminal kApplying) with false in *; cbn; clock.
  - revert Hret Hkill. destruct (MountTransactionHasResult _); [intros Hret; by destruct (Hret true)|].
    case_bool_decide; [intros Hret; by destruct (Hret false)|].
    destruct (Z.leb_spec d t); [by intros ? []|]. intros _ _. rewrite E. cbn. clock.
  - by destruct (Hret r).
  - done.
Qed.

Lemma wakes_by_later delta t s : 0 <= delta -> t <= wakes_by delta t (app s) (app (app_step t s)).
Proof.
  intros Hd. unfold app_step, wakes_by. destruct (app s) as [|d g|c e d g|d|r|] eqn:E; try lia.
  - destruct (MountTransactionHasResult _); [cbn; lia|]. case_bool_decide; [cbn; lia|].
    destruct (Z.leb_spec d t); [cbn; lia|]. rewrite E. lia.
  - destruct (MountTransactionHasResult _); [cbn; lia|]. case_bool_decide; [cbn; lia|].
    destruct (Z.leb_spec d t); [cbn; lia|]. rewrite E. lia.
Qed.

Lemma timed_run_inv delta t0 n now due s :
  0 <= delta -> timed_run delta t0 n now due s ->
  reachable s /\ not_newer s /\ on_time t0 now s /\ (n + patience s <= 19)%nat
  /\ now <= after_ms t0 (kAppResultTimeoutMs + kApplyingCompletionGraceMs + kApplyingOwnerDeathTimeoutMs)
            + 20 * delta
  /\ (waiting s ->
      now <= due
      /\ last_call delta due s + delta * Z.of_nat (patience s)
         <= after_ms t0 (kAppResultTimeoutMs + kApplyingCompletionGraceMs + kApplyingOwnerDeathTimeoutMs)
            + 20 * delta).
Proof.
  intros Hd. induction 1 as [|n now due s s' _ (Hr & Hn & Ho & Hp & Hb & Hw) Hs
                            |n now due s t _ (Hr & Hn & Ho & Hp & Hb & Hw) Hwait Ht].
  - split_and!; [constructor|done|split; [lia|done]|cbn; lia|clock|].
    intros _. unfold last_call. cbn. clock.
  - pose proof (other_app _ _ Hs) as Ea. destruct (patience_moves _ _ (other_moves _ _ Hs) Hn) as [Hn' Hle].
    split_and!; [| | |lia|done|]; [..|done|unfold on_time; by rewrite Ea|].
    + eapply reachable_step; [exact Hr|]. destruct Hs; [by apply step_worker|by apply step_companion].
    + unfold waiting, last_call in *. rewrite Ea. intros Hw'. specialize (Hw Hw'). nia.
  - specialize (Hw Hwait) as [_ Hlast].
    pose proof (app_step_on_time t0 now t s Hr Ho ltac:(lia)) as Ho'.
    assert (due <= last_call delta due s) as Hdue by (unfold last_call; destruct (app s) as [|? []|? ? ? []| | |]; clock).
    assert (t <= due) by lia. split_and!; [eapply reachable_step; [exact Hr|apply step_app]| |done| |nia|].
    + destruct (app_step_patience t s Hn Hwait) as [[-> _]|[_ [? _]]]; done.
    + destruct (app_step_patience t s Hn Hwait) as [[-> ->]|[-> [_ ?]]]; lia.
    + intros Hwait'. pose proof (app_step_last_call delta t0 now due t s Hd Hr Ho Hwait Ht Hwait') as Hl.
      destruct (app_step_patience t s Hn Hwait) as [[E Ea]|[Ea [_ Hlt]]].
      * rewrite E, Ea in *. split; [|lia]. pose proof (wakes_by_later delta t s Hd) as Hl'. by rewrite E in Hl'.
      * rewrite Ea in Hl. split; [|nia]. by apply wakes_by_later.
Qed.

(** C37. The application stops waiting in time, whatever the others do, also when they do nothing:
    from the call of [WaitForSharedResult] on, with a scheduler that lets it run [delta] after the
    end of a wait, it has its result, has cancelled or has killed itself 10.8 seconds and 20 [delta]
    later, after at most 19 steps other than waiting. It does not give up early: it returns without
    a result no sooner than 300 milliseconds after the call, and kills itself no sooner than 10.8
    seconds after it. *)
Theorem application_stops_waiting delta t0 n now due s :
  0 <= delta -> timed_run delta t0 n now due s ->
  (n <= 19)%nat
  /\ now <= after_ms t0 (300 + 500 + 10000) + 20 * delta
  /\ (waiting s -> now <= due <= after_ms t0 (300 + 500 + 10000) + 20 * delta)
  /\ (app s = AppReturned false -> after_ms t0 300 <= now)
  /\ (app s = AppKilled -> after_ms t0 (300 + 500 + 10000) <= now).
Proof.
  intros Hd Hrun. destruct (timed_run_inv _ _ _ _ _ _ Hd Hrun) as (_ & _ & [_ Ho] & Hp & Hb & Hw).
  split_and!; [lia|exact Hb| |intros E; by rewrite E in Ho|intros E; by rewrite E in Ho].
  intros Hwait. specialize (Hw Hwait) as [Hle Hl]. split; [done|].
  assert (due <= last_call delta due s) by (unfold last_call; destruct (app s) as [|? []|? ? ? []| | |]; clock).
  clock.
Qed.

(** ** Witnesses *)

(** Extend a run by one step and evaluate the state it leads to. *)
Ltac advance H tac :=
  let H' := fresh "H" in
  eassert (reachable _) as H' by (eapply (reachable_step _ _ H); tac);
  vm_compute in H'; clear H; rename H' into H.
Ltac worker_does H c := advance H ltac:(apply step_worker; eapply c; reflexivity).
Ltac companion_does H c := advance H ltac:(apply step_companion; eapply c; reflexivity).
Ltac app_does H now := advance H ltac:(apply (step_app now)).

(** The state claims a rollback that failed: the worker finds the namespace tainted
    and looks at the state just before the application cancels, its publication is
    refused, and the companion, which only knows that the worker failed, publishes
    [kRollbackComplete]. The application goes on. *)
Theorem tainted_namespace_reported_rolled_back :
  exists s, reachable s /\ status s = kRollbackComplete /\ namespace s = NsTainted
    /\ app s = AppReturned true.
Proof.
  pose proof reachable_initial as H.
  companion_does H companion_forks. worker_does H worker_lease. worker_does H worker_mounts.
  worker_does H worker_fails. worker_does H worker_rollback_fails.
  app_does H 0. app_does H (after_ms 0 300). app_does H (after_ms 0 300). app_does H (after_ms 0 800).
  worker_does H worker_finishing. worker_does H worker_publish_write.
  app_does H (after_ms 0 800).
  worker_does H worker_publish_cas. worker_does H worker_terminates.
  companion_does H companion_receives. companion_does H companion_after_wait.
  companion_does H companion_final. companion_does H companion_final_write.
  companion_does H companion_final_cas.
  app_does H (after_ms 0 900). eexists. split; [exact H|done].
Qed.

(** An application that gives up before the worker has its lease. *)
Lemma abandoned_transaction_never_mounts_witness :
  exists s, app s = AppReturned false /\ worker s = WPreflight /\ namespace s = NsClean.
Proof.
  pose proof reachable_initial as H.
  companion_does H companion_forks.
  app_does H 0. app_does H (after_ms 0 300). app_does H (after_ms 0 300).
  eexists. split; [|split]; [| |eapply (abandoned_transaction_never_mounts _ _ H); [|apply rtc_refl]];
    reflexivity.
Defined.

Lemma reachable_commit :
  exists s, reachable s /\ status s = kComplete /\ app s = AppReturned true.
Proof.
  pose proof reachable_initial as H.
  companion_does H companion_forks. worker_does H worker_lease. worker_does H worker_mounts.
  worker_does H worker_all_mounted. worker_does H worker_complete_write.
  worker_does H worker_complete_cas. app_does H 0. app_does H 0. eexists. split; [exact H|done].
Qed.

Lemma complete_is_committed_witness :
  exists s, status s = kComplete /\ namespace s = NsMounted /\ result_ok s = true.
Proof.
  destruct reachable_commit as (s & H & Hs & _). exists s.
  apply (complete_is_committed s s H Hs). apply rtc_refl.
Defined.

Lemma returned_application_is_settled_witness :
  exists s, app s = AppReturned true
    /\ (status s = kComplete /\ namespace s = NsMounted /\ true = true
        \/ namespace s = NsClean \/ status s = kNamespaceTainted \/ terminated s = true).
Proof.
  destruct reachable_commit as (s & H & _ & Ha). exists s. split; [exact Ha|].
  exact (returned_application_is_settled s true H Ha).
Defined.

(** The owner of the namespace hangs while it applies the rules: the application waits for its
    result, gives it the grace time, cancels and waits for the death of the owner. Each wait lasts as
    long as it can, with a delay of one millisecond. *)
Ltac looks H t :=
  let H' := fresh "H" in
  pose proof (timed_look _ _ _ _ _ _ t H) as H';
  vm_compute in H'; specialize (H' ltac:(split; [by intros []|done]) ltac:(split; done)); clear H; rename H' into H.
Ltac others_do H tac :=
  let H' := fresh "H" in
  eassert (timed_run _ _ _ _ _ _) as H' by (eapply (timed_other _ _ _ _ _ _ _ H); tac);
  vm_compute in H'; clear H; rename H' into H.

Lemma application_stops_waiting_witness :
  exists n now due s, timed_run (after_ms 0 1) 0 n now due s /\ app s = AppKilled
    /\ (n <= 19)%nat /\ now = after_ms 0 10804 /\ after_ms 0 10800 <= now <= after_ms 0 10820.
Proof.
  pose proof (timed_start (after_ms 0 1) 0) as H.
  others_do H ltac:(right; eapply companion_forks; reflexivity).
  others_do H ltac:(left; eapply worker_lease; reflexivity).
  looks H 0. looks H 0. looks H (after_ms 0 301). looks H (after_ms 0 302).
  looks H (after_ms 0 303). looks H (after_ms 0 802). looks H (after_ms 0 803).
  looks H (after_ms 0 804). looks H (after_ms 0 10804).
  do 4 eexists. split; [exact H|].
  destruct (application_stops_waiting (after_ms 0 1) 0 _ _ _ _ ltac:(done) H) as (Hn & Hnow & _ & _ & Hk).
  split; [done|]. split; [exact Hn|]. split; [done|]. split; [by apply Hk|exact Hnow].
Defined.
