(* ===== verification/Companion.v ===== *)
(** * The companion (zygisk/src/module_entry.cpp, CompanionHandler)

    One call of [CompanionHandler]: the request is received and compared with the policy, the
    process is waited for, a worker is forked that mounts, and what became of it is published in
    the shared memory and written to the status file. The handler is a sequence of accesses to the
    shared word; before each of them the application and the worker may have done anything that
    [Protocol] lets them do. Descriptors and the mapping are tracked: closing one that is not open
    is [Oob]. Logs and timings are left out. *)

From S2P Require Import Prelude Stateful Policy PolicyFormat Binary BinaryProofs Snapshot MountBackend ProcessPlan Bootstrap RuntimeStatus ProcessIdentity Protocol ProtocolProofs.

Local Open Scope pg_scope.

Record World : Type := {
  (** the shared memory, the application and the worker; the counter of the companion in it is
      not used *)
  shared : State;
  moment : nat;
  open_fds : list Z;
  mapped : bool;
  (** the records given to [WriteRuntimeStatus]'s file *)
  reports : list RuntimeStatusRecord;
}.

(** What the kernel answers. *)
Record CompanionCalls : Type := {
  (** [recvmsg]: the header when all of it came, and the descriptors it brought *)
  cc_received : option BootstrapHeader;
  cc_descriptors : option (Z * Z);
  cc_file : option SharedFile;
  cc_mapped : bool;
  cc_incoming : Incoming;
  (** policy.bin, /proc of the process at each look, the generation of the topology that is
      captured, when one is *)
  cc_policy : option bytes;
  cc_status : nat -> option bytes;
  cc_context : nat -> option bytes;
  cc_stat : option bytes;
  cc_topology : option Z;
  (** [socketpair], or its error; the error of [fork], when it fails *)
  cc_sockets : (Z * Z) + Z;
  cc_fork_error : option Z;
  (** what the worker sends when it ends, and whether that comes in time, or in the grace period *)
  cc_answer : bool -> MountPerfResult;
  cc_in_time : bool;
  cc_late : bool;
  cc_namespace_known : bool;
}.

Abbreviation handler := (stateful World Empty_set).

(** A result without backend, stage or rollback. *)
Definition error_result (e reason : Z) : MountPerfResult :=
  {| mp_result := e; mp_backend := 0; mp_backend_reason := 0; mp_failure_stage := 0; mp_rollback_failed := 0;
     mp_runtime_reason := reason |}.

Definition policy_changed : MountPerfResult := error_result ESTALE 5.
Definition topology_unsupported : MountPerfResult := error_result ENOTSUP 4.
Definition owner_death : MountPerfResult := error_result EOWNERDEAD 9.

(** ** Descriptors *)

Definition ledger (fds : list Z) (m : bool) (w : World) : World :=
  {| shared := shared w; moment := moment w; open_fds := fds; mapped := m; reports := reports w |}.

Definition take_fds (fds : list Z) : handler unit := modify (fun w => ledger (fds ++ open_fds w) (mapped w) w).

Definition close_fd (fd : Z) : handler unit := fun w =>
  match remove_fd fd (open_fds w) with
  | None => Oob
  | Some fds => Ok (tt, ledger fds (mapped w) w)
  end.

Definition map_shared : handler unit := modify (fun w => ledger (open_fds w) true w).

Definition munmap : handler unit := fun w =>
  if mapped w then Ok (tt, ledger (open_fds w) false w) else Oob.

Section Handler.
(** What the application and the worker do before the access at a moment. *)
Context (interference : nat -> State -> State) (c : CompanionCalls).

(** ** Accesses to the shared state *)

Definition at_next (s : State) (w : World) : World :=
  {| shared := s; moment := S (moment w); open_fds := open_fds w; mapped := mapped w; reports := reports w |}.

Definition access {A} (f : State -> A * State) : handler A := fun w =>
  let '(x, s) := f (interference (moment w) (shared w)) in Ok (x, at_next s w).

Definition LoadSharedStatus : handler MountTransactionState := access (fun s => (status s, s)).

Definition TransitionSharedState (from to : MountTransactionState) : handler bool :=
  access (fun s => match Protocol.TransitionSharedState s from to with
                   | Some s' => (true, s')
                   | None => (false, s)
                   end).

Definition write_result (result : MountPerfResult) : handler unit :=
  access (fun s => (tt, set_result s (mp_result result =? 0))).

Definition PublishSharedResult (result : MountPerfResult) (from terminal : MountTransactionState) : handler bool :=
  write_result result;; TransitionSharedState from terminal.

Definition MarkSharedCancelled : handler bool := TransitionSharedState kCancelRequested MountBackend.kCancelled.

Definition PublishPendingFailure (result : MountPerfResult) : handler bool :=
  published ← PublishSharedResult result kPending kFailed;
  if (published : bool) then mret true
  else
    current ← LoadSharedStatus;
    (if current == kCancelRequested then MarkSharedCancelled;; mret tt else mret tt);;
    mret false.

Definition fork_worker : handler unit := access (fun s => (tt, set_worker s WPreflight)).

(** [kill(child, SIGKILL)] and [waitpid] *)
Definition kill_worker : handler unit := access (fun s => (tt, set_worker s WKilled)).

(** [ReadFully] of the result; a worker that died sends none. *)
Definition read_answer (comes : bool) : handler (option bool) :=
  access (fun s => (if comes then answer_of (worker s) else None, s)).

Definition terminate_namespace : handler unit :=
  access (fun s => (tt, if cc_namespace_known c then set_terminated s else s)).

(** [WaitForProcessReady]: the looks, each after what others did, until one decides. *)
Fixpoint visited (w : World) (n : nat) : State :=
  match n with
  | O => interference (moment w) (shared w)
  | S n => interference (moment w + S n)%nat (visited w n)
  end.

Definition wait_ready (expected_uid : Z) : handler ProcessReadyResult := fun w =>
  match WaitForProcessReady expected_uid
          (fun n => {| poll_cancelled := status (visited w n) == kCancelRequested;
                       poll_status := cc_status c n; poll_context := cc_context c n |}) with
  | None => Oob
  | Some (result, n) =>
      Ok (result, {| shared := visited w n; moment := moment w + S n; open_fds := open_fds w;
                     mapped := mapped w; reports := reports w |})
  end.

(** ** The handler *)

(** [WriteRuntimeStatus] with the state of that moment. *)
Definition report (h : BootstrapHeader) (plan : ProcessPlan) (topology : Z) (mount : MountPerfResult) : handler unit :=
  state ← LoadSharedStatus;
  modify (fun w =>
    {| shared := shared w; moment := moment w; open_fds := open_fds w; mapped := mapped w;
       reports := reports w ++ [runtime_status (b_pid h) (b_uid h) (default 0 (ReadProcessStartTime (cc_stat c)))
                                  (snapshot_generation plan) (plan_generation plan) topology mount state] |}).

(** The result of the worker, whether it was received, and whether the worker had to be killed while
    it held the lease. *)
Definition worker_outcome : handler (MountPerfResult * bool * bool) :=
  answer ← read_answer (cc_in_time c);
  match answer with
  | Some success => mret (cc_answer c success, true, false)
  | None =>
      current ← LoadSharedStatus;
      if (current == kApplying) || (current == kCancelRequested) then
        kill_worker;; mret (owner_death, false, true)
      else
        answer ← read_answer (cc_late c);
        match answer with
        | Some success => mret (cc_answer c success, true, false)
        | None => kill_worker;; mret (error_result EIO 0, false, false)
        end
  end.

(** What follows [waitpid]. *)
Definition check_owner (mount_result : MountPerfResult) (owner_death_tainted : bool) : handler unit :=
  after_wait ← LoadSharedStatus;
  if owner_death_tainted && ((after_wait == kApplying) || (after_wait == kCancelRequested)) then
    PublishSharedResult mount_result after_wait kNamespaceTainted;; terminate_namespace
  else mret tt.

(** The worker: its result, and whether it was received. *)
Definition mount_in_worker : handler (MountPerfResult * bool) :=
  match cc_sockets c with
  | inr e => mret (error_result e 0, false)
  | inl (ours, theirs) =>
      take_fds [ours; theirs];;
      match cc_fork_error c with
      | Some e => close_fd theirs;; close_fd ours;; mret (error_result e 0, false)
      | None =>
          fork_worker;;
          close_fd theirs;;
          '(mount_result, mount_result_received, owner_death_tainted) ← worker_outcome;
          check_owner mount_result owner_death_tainted;;
          close_fd ours;;
          mret (mount_result, mount_result_received)
      end
  end.

(** The last look at the state. *)
Definition settle (mount_result : MountPerfResult) (mount_result_received : bool) : handler unit :=
  final_state ← LoadSharedStatus;
  if final_state == kPending then
    PublishPendingFailure (if mp_result mount_result =? 0
                           then {| mp_result := EPROTO; mp_backend := mp_backend mount_result;
                                   mp_backend_reason := mp_backend_reason mount_result;
                                   mp_failure_stage := mp_failure_stage mount_result;
                                   mp_rollback_failed := mp_rollback_failed mount_result;
                                   mp_runtime_reason := mp_runtime_reason mount_result |}
                           else mount_result);; mret tt
  else if mount_result_received && (final_state == kCancelRequested) && negb (mp_result mount_result =? 0) then
    PublishSharedResult mount_result kCancelRequested kRollbackComplete;; mret tt
  else if mount_result_received && (final_state == kApplying) then
    PublishSharedResult mount_result kApplying
      (if mp_result mount_result =? 0 then kComplete else kRollbackComplete);; mret tt
  else mret tt.

(** From the rebuilt plan on, but for the end that all paths share. *)
Definition serve (h : BootstrapHeader) (plan : ProcessPlan) : handler unit :=
  if negb (plan_is_current (cc_policy c) (b_uid h) plan) then
    PublishPendingFailure policy_changed;; report h plan 0 policy_changed
  else
    ready ← wait_ready (b_uid h);
    match ready with
    | kCancelled => MarkSharedCancelled;; report h plan 0 (error_result ECANCELED 0)
    | kTimedOut => PublishPendingFailure (error_result ETIMEDOUT 0);; report h plan 0 (error_result ETIMEDOUT 0)
    | kReady =>
        match cc_topology c with
        | None => PublishPendingFailure topology_unsupported;; report h plan 0 topology_unsupported
        | Some topology =>
            '(mount_result, mount_result_received) ← mount_in_worker;
            settle mount_result mount_result_received;;
            report h plan topology mount_result
        end
    end.

Definition CompanionHandler : handler unit :=
  let '(shared_fd, module_dir_fd) :=
    match cc_received c with Some _ => default (-1, -1) (cc_descriptors c) | None => (-1, -1) end in
  let drop_request :=
    (if 0 <=? shared_fd then close_fd shared_fd else mret tt);;
    (if 0 <=? module_dir_fd then close_fd module_dir_fd else mret tt) in
  take_fds (match cc_descriptors c with Some (x, y) => [x; y] | None => [] end);;
  match ReceiveBootstrap (cc_received c) (cc_descriptors c) with
  | None => drop_request
  | Some (h, _, _) =>
      if negb (valid_bootstrap h) then drop_request
      else
        match MapSharedState shared_fd (cc_file c) (cc_mapped c) with
        | None => close_fd shared_fd;; close_fd module_dir_fd
        | Some _ =>
            map_shared;;
            close_fd shared_fd;;
            match receive_plan h (cc_incoming c) with
            | None => close_fd module_dir_fd;; munmap
            | Some (plan, _) => serve h plan;; close_fd module_dir_fd;; munmap
            end
        end
  end.
End Handler.

(** ** Lemmas: what others do *)

(** A step of the application or of the worker. *)
Definition other_step (s s' : State) : Prop := (exists now, s' = app_step now s) \/ worker_step s s'.

Lemma transition_set_companion s pc from to success failure :
  (forall s, success (set_companion s pc) = set_companion (success s) pc) ->
  (forall s, failure (set_companion s pc) = set_companion (failure s) pc) ->
  transition (set_companion s pc) from to success failure = set_companion (transition s from to success failure) pc.
Proof.
  intros Hs Hf. unfold transition, Protocol.TransitionSharedState. cbn [status set_companion].
  destruct (_ && _); [apply (Hs (set_status s to))|apply Hf].
Qed.

Lemma app_step_set_companion now s pc :
  app_step now (set_companion s pc) = set_companion (app_step now s) pc.
Proof.
  unfold app_step. cbn [app status set_companion].
  destruct (app s); repeat case_match; try done;
    apply transition_set_companion; intros; repeat case_match; done.
Qed.

Lemma worker_step_set_companion s s' pc :
  worker_step s s' -> worker_step (set_companion s pc) (set_companion s' pc).
Proof.
  destruct 1;
    try (match goal with |- context [set_companion (transition _ _ _ _ _) _] =>
           rewrite <- transition_set_companion by done end);
    first [ solve [by apply worker_preflight_fails] | solve [by apply worker_lease]
          | solve [by apply (worker_lease_lost (set_companion s pc))] | solve [by apply worker_mark_cancelled]
          | solve [by apply worker_mounts] | solve [by apply worker_fails] | solve [by apply worker_all_mounted]
          | solve [by apply worker_complete_write] | solve [by apply worker_complete_cas]
          | solve [by apply worker_rolled_back] | solve [by apply worker_rollback_fails]
          | solve [by apply (worker_finishing (set_companion s pc))]
          | solve [by eapply (worker_publish_write (set_companion s pc))]
          | solve [by apply (worker_publish_cas (set_companion s pc))] | solve [by apply worker_terminates]
          | solve [by apply worker_dies] ].
Qed.

(** ** Lemmas: the accesses are steps of the protocol *)

Section Refinement.
Context (interference : nat -> State -> State) (c : CompanionCalls).
Context (Hothers : forall n s, rtc other_step s (interference n s)).
Context (Hanswer : forall success, (mp_result (cc_answer c success) =? 0) = success).

(** The shared memory is in a state that the protocol reaches with its companion at [pc]. *)
Definition at_pc (pc : CompanionPc) (s : State) : Prop := reachable (set_companion s pc).

Lemma at_pc_others pc s s' : rtc other_step s s' -> at_pc pc s -> at_pc pc s'.
Proof.
  induction 1 as [|s s1 s' Hstep _ IH]; [done|]. intros Hs. apply IH.
  eapply reachable_step; [exact Hs|]. destruct Hstep as [[now ->]|Hw].
  - rewrite <- app_step_set_companion. by constructor.
  - by apply step_worker, worker_step_set_companion.
Qed.

Lemma at_pc_interference pc n s : at_pc pc s -> at_pc pc (interference n s).
Proof. apply at_pc_others, Hothers. Qed.

Lemma at_pc_step pc pc' s s' :
  at_pc pc s -> companion_step (set_companion s pc) (set_companion s' pc') -> at_pc pc' s'.
Proof. intros Hs Hstep. eapply reachable_step; [exact Hs|by constructor]. Qed.

(** The protocol is at [pc] after the computation, which leaves the descriptors, the mapping and
    the reports as they were. *)
Record arrives (pc : CompanionPc) (w w' : World) : Prop := {
  arrives_at : at_pc pc (shared w');
  arrives_fds : open_fds w' = open_fds w;
  arrives_mapped : mapped w' = mapped w;
  arrives_reports : reports w' = reports w;
}.

Lemma arrives_trans pc pc' w w' w'' : arrives pc w w' -> arrives pc' w' w'' -> arrives pc' w w''.
Proof. intros [] []. split; congruence. Qed.

Lemma ends_access {A} (f : State -> A * State) pc pc' w (Q : A -> World -> Prop) :
  at_pc pc (shared w) ->
  (forall s, at_pc pc s ->
     at_pc (pc' (f s).1 s) (f s).2 /\ (forall w', arrives (pc' (f s).1 s) w w' -> shared w' = (f s).2 -> Q (f s).1 w')) ->
  ends (access interference f) w Q.
Proof.
  intros Hw Hf. unfold ends, access. pose proof (at_pc_interference pc (moment w) _ Hw) as Hs.
  destruct (Hf _ Hs) as [Hpc HQ]. destruct (f (interference (moment w) (shared w))) as [x s].
  eexists _, _. split; [done|]. by apply HQ.
Qed.

Lemma load_ends pc w (Q : MountTransactionState -> World -> Prop) :
  at_pc pc (shared w) ->
  (forall w', arrives pc w w' -> Q (status (shared w')) w') -> ends (LoadSharedStatus interference) w Q.
Proof.
  intros Hw HQ. apply (ends_access _ pc (fun _ _ => pc)); [done|]. intros s Hs. split; [done|].
  cbn [fst snd].
  intros w' Hw' E. rewrite <- E. by apply HQ.
Qed.

Lemma transition_ends from to pc pc1 pc2 w (Q : bool -> World -> Prop) :
  at_pc pc (shared w) ->
  (forall s, companion_step (set_companion s pc)
     (transition (set_companion s pc) from to (fun s => set_companion s pc1) (fun s => set_companion s pc2))) ->
  (forall b w', arrives (if b : bool then pc1 else pc2) w w' -> Q b w') ->
  ends (TransitionSharedState interference from to) w Q.
Proof.
  intros Hw Hstep HQ. apply (ends_access _ pc (fun b _ => if b : bool then pc1 else pc2)); [done|]. intros s Hs.
  pose proof (Hstep s) as Hc. unfold transition in Hc. unfold Protocol.TransitionSharedState in *.
  cbn [status set_companion] in Hc.
  destruct (_ && _); (split; [by eapply at_pc_step|intros w' Hw' _; by apply HQ]).
Qed.

Lemma publish_ends result from to pc pc0 pc1 pc2 w (Q : bool -> World -> Prop) :
  at_pc pc (shared w) ->
  (forall s, companion_step (set_companion s pc) (set_companion (set_result s (mp_result result =? 0)) pc0)) ->
  (forall s, companion_step (set_companion s pc0)
     (transition (set_companion s pc0) from to (fun s => set_companion s pc1) (fun s => set_companion s pc2))) ->
  (forall b w', arrives (if b : bool then pc1 else pc2) w w' -> Q b w') ->
  ends (PublishSharedResult interference result from to) w Q.
Proof.
  intros Hw Hwrite Hcas HQ. unfold PublishSharedResult, write_result.
  apply ends_bind, (ends_access _ pc (fun _ _ => pc0)); [done|]. intros s Hs. cbn [fst snd].
  split; [by eapply at_pc_step|]. intros w1 Hw1 _.
  apply (transition_ends _ _ pc0 pc1 pc2); [by apply Hw1|done|].
  intros b w2 Hw2. apply HQ. by eapply arrives_trans.
Qed.

Lemma mark_cancelled_ends pc w (Q : bool -> World -> Prop) :
  pc = CMarkCancelled \/ pc = CPendingMark -> at_pc pc (shared w) ->
  (forall b w', arrives CDone w w' -> Q b w') -> ends (MarkSharedCancelled interference) w Q.
Proof.
  intros Hpc Hw HQ. apply (transition_ends _ _ pc CDone CDone); [done| |intros []; apply HQ].
  intros s. destruct Hpc as [-> | ->]; [exact (companion_mark_cancelled (set_companion s _) eq_refl)|exact (companion_pending_mark (set_companion s _) eq_refl)].
Qed.

Lemma pending_failure_ends result w (Q : bool -> World -> Prop) :
  (mp_result result =? 0) = false -> at_pc CPendingWrite (shared w) ->
  (forall b w', arrives CDone w w' -> Q b w') -> ends (PublishPendingFailure interference result) w Q.
Proof.
  intros Hr Hw HQ. unfold PublishPendingFailure.
  apply ends_bind, (publish_ends _ _ _ CPendingWrite CPendingCas CDone CPendingLoad); [done| | |].
  - intros s. rewrite Hr. exact (companion_pending_write (set_companion s _) eq_refl).
  - intros s. exact (companion_pending_cas (set_companion s _) eq_refl).
  - intros [] w1 Hw1; [by apply ends_ret, HQ|]. apply ends_bind, (load_ends CPendingLoad); [by apply Hw1|].
    intros w2 Hw2. pose proof (arrives_trans _ _ _ _ _ Hw1 Hw2) as Hw12.
    assert (at_pc (if status (shared w2) == kCancelRequested then CPendingMark else CDone) (shared w2)) as Hpc.
    { eapply at_pc_step; [by apply Hw2|].
      exact (companion_pending_load (set_companion (shared w2) _) eq_refl). }
    case_bool_decide.
    + apply ends_bind, ends_bind, (mark_cancelled_ends CPendingMark); [by right|done|]. intros b w3 Hw3.
      apply ends_ret, ends_ret, HQ. by eapply arrives_trans.
    + apply ends_bind, ends_ret, ends_ret, HQ. destruct Hw12. by split.
Qed.

(** ** Lemmas: the parts of the handler *)

Lemma visited_at pc w n : at_pc pc (shared w) -> at_pc pc (visited interference w n).
Proof. intros Hw. induction n as [|n IH]; by apply at_pc_interference. Qed.

Lemma wait_ready_ends uid pc w (Q : ProcessReadyResult -> World -> Prop) :
  at_pc pc (shared w) ->
  (forall r w', arrives pc w w' -> (r = kCancelled -> status (shared w') = kCancelRequested) -> Q r w') ->
  ends (wait_ready interference c uid) w Q.
Proof.
  intros Hw HQ. unfold ends, wait_ready.
  set (polls := fun n : nat => _).
  destruct (wait_loop_spec 503 uid polls 0 0 1) as (r & n & E & _ & _ & Hr); [by left|lia|lia|intros m Hm; lia|].
  unfold WaitForProcessReady. rewrite E. eexists _, _. split; [done|]. apply HQ.
  - split; try done. by apply visited_at.
  - intros ->. cbn. subst polls. cbn in Hr. by apply bool_decide_eq_true in Hr.
Qed.

Lemma fork_ends w (Q : unit -> World -> Prop) :
  at_pc CPreparing (shared w) -> (forall w', arrives CWaiting w w' -> Q tt w') -> ends (fork_worker interference) w Q.
Proof.
  intros Hw HQ. apply (ends_access _ CPreparing (fun _ _ => CWaiting)); [done|]. intros s Hs. cbn [fst snd]. split.
  - eapply at_pc_step; [done|]. exact (companion_forks (set_companion s _) eq_refl).
  - intros w' Hw' _. by apply HQ.
Qed.

Lemma kill_ends pc owner_death w (Q : unit -> World -> Prop) :
  pc = CKilling /\ owner_death = true \/ pc = CTerminating /\ owner_death = false ->
  at_pc pc (shared w) -> (forall w', arrives (CReaped owner_death None) w w' -> Q tt w') ->
  ends (kill_worker interference) w Q.
Proof.
  intros Hpc Hw HQ. apply (ends_access _ pc (fun _ _ => CReaped owner_death None)); [done|].
  intros s Hs. cbn [fst snd]. split; [|intros w' Hw' _; by apply HQ].
  eapply at_pc_step; [done|].
  destruct Hpc as [[-> ->]|[-> ->]]; [exact (companion_kills_owner (set_companion s _) eq_refl)
                                     |exact (companion_kills (set_companion s _) eq_refl)].
Qed.

(** The answer of the worker, or the counter when there is none. *)
Lemma read_answer_ends comes pc none w (Q : option bool -> World -> Prop) :
  pc = CWaiting /\ none = CNoAnswer \/ pc = CTerminating /\ none = CTerminating ->
  at_pc pc (shared w) ->
  (forall answer w',
     arrives match answer with Some ok => CReaped false (Some ok) | None => none end w w' -> Q answer w') ->
  ends (read_answer interference comes) w Q.
Proof.
  intros Hpc Hw HQ.
  apply (ends_access _ pc (fun answer _ => match answer with Some ok => CReaped false (Some ok) | None => none end));
    [done|].
  intros s Hs. cbn [fst snd]. split; [|intros w' Hw' _; by apply HQ].
  destruct (if comes then answer_of (worker s) else None) as [success|] eqn:Ea.
  - destruct comes; [|done]. assert (worker s = WExited success) as Ew by (destruct (worker s); try discriminate Ea; by injection Ea as ->).
    eapply at_pc_step; [done|].
    destruct Hpc as [[-> _]|[-> _]]; [exact (companion_receives (set_companion s _) success eq_refl Ew)
                                     |exact (companion_receives_late (set_companion s _) success eq_refl Ew)].
  - destruct Hpc as [[-> ->]|[-> ->]]; [|done]. eapply at_pc_step; [done|].
    exact (companion_no_answer (set_companion s _) eq_refl).
Qed.

(** What the worker did, once it has ended. *)
Lemma outcome_ends w (Q : MountPerfResult * bool * bool -> World -> Prop) :
  at_pc CWaiting (shared w) ->
  (forall r got tainted w',
     arrives (CReaped tainted (if got : bool then Some (mp_result r =? 0) else None)) w w' ->
     (tainted = true -> got = false /\ (mp_result r =? 0) = false) -> Q (r, got, tainted) w') ->
  ends (worker_outcome interference c) w Q.
Proof.
  intros Hw HQ. unfold worker_outcome. apply ends_bind, (read_answer_ends _ CWaiting CNoAnswer); [by left|done|].
  intros [success|] w1 Hw1.
  { apply ends_ret, HQ; [by rewrite Hanswer|done]. }
  apply ends_bind, (load_ends CNoAnswer); [by apply Hw1|]. intros w2 Hw2.
  pose proof (arrives_trans _ _ _ _ _ Hw1 Hw2) as H2.
  destruct (_ || _) eqn:Ef.
  - assert (at_pc CKilling (shared w2)) as Hpc.
    { eapply at_pc_step; [by apply Hw2|]. exact (companion_owner_death (set_companion (shared w2) _) eq_refl Ef). }
    apply ends_bind, (kill_ends CKilling true); [by left|done|]. intros w3 Hw3.
    apply ends_ret, HQ; [|done]. by eapply arrives_trans.
  - assert (at_pc CTerminating (shared w2)) as Hpc.
    { eapply at_pc_step; [by apply Hw2|]. exact (companion_asks_to_end (set_companion (shared w2) _) eq_refl Ef). }
    apply ends_bind, (read_answer_ends _ CTerminating CTerminating); [by right|done|]. intros [success|] w3 Hw3.
    + apply ends_ret, HQ; [|done]. rewrite Hanswer. by eapply arrives_trans.
    + apply ends_bind, (kill_ends CTerminating false); [by right|by apply Hw3|]. intros w4 Hw4.
      apply ends_ret, HQ; [|done]. eapply arrives_trans; [exact H2|]. by eapply arrives_trans.
Qed.

(** The worker died with the lease: the namespace is marked. *)
Lemma check_owner_ends r got tainted w (Q : unit -> World -> Prop) :
  at_pc (CReaped tainted (if got : bool then Some (mp_result r =? 0) else None)) (shared w) ->
  (tainted = true -> got = false /\ (mp_result r =? 0) = false) ->
  (forall w', arrives (CFinal (if got then Some (mp_result r =? 0) else None)) w w' -> Q tt w') ->
  ends (check_owner interference c r tainted) w Q.
Proof.
  intros Hw Ht HQ. unfold check_owner. eapply ends_bind, load_ends; [exact Hw|]. intros w1 Hw1.
  set (answer := if got then Some (mp_result r =? 0) else None) in *.
  assert (at_pc (if tainted && in_flight (status (shared w1)) then COwnerWrite (status (shared w1)) else CFinal answer)
            (shared w1)) as Hstep.
  { eapply at_pc_step; [by apply Hw1|].
    exact (companion_after_wait (set_companion (shared w1) (CReaped tainted answer)) tainted answer eq_refl). }
  unfold in_flight in Hstep.
  destruct (_ && _) eqn:Ef.
  - apply andb_true_iff in Ef as [-> _]. destruct (Ht eq_refl) as [-> Hr].
    apply ends_bind, (publish_ends _ _ _ (COwnerWrite (status (shared w1))) (COwnerCas (status (shared w1)))
      COwnerTerminate COwnerTerminate); [done| | |].
    + intros s. rewrite Hr. exact (companion_owner_write (set_companion s _) _ eq_refl).
    + intros s. exact (companion_owner_cas (set_companion s _) _ eq_refl).
    + intros b w2 Hw2. assert (arrives COwnerTerminate w1 w2) as Hw2' by by destruct b.
      apply (ends_access _ COwnerTerminate (fun _ _ => CFinal None)); [by apply Hw2'|].
      intros s Hs. cbn [fst snd]. split.
      * eapply at_pc_step; [done|].
        pose proof (companion_owner_terminate (set_companion s _) (cc_namespace_known c) eq_refl) as H.
        by destruct (cc_namespace_known c).
      * intros w3 Hw3 _. apply HQ. eapply arrives_trans; [exact Hw1|]. by eapply arrives_trans.
  - apply ends_ret, HQ. destruct Hw1. by split.
Qed.

Lemma close_ends fd fds w (Q : unit -> World -> Prop) :
  remove_fd fd (open_fds w) = Some fds -> Q tt (ledger fds (mapped w) w) -> ends (close_fd fd) w Q.
Proof. intros E H. eapply ends_call; [unfold close_fd; by rewrite E|done]. Qed.

Lemma munmap_ends w (Q : unit -> World -> Prop) :
  mapped w = true -> Q tt (ledger (open_fds w) false w) -> ends munmap w Q.
Proof. intros E H. eapply ends_call; [unfold munmap; by rewrite E|done]. Qed.

Lemma mount_in_worker_ends w (Q : MountPerfResult * bool -> World -> Prop) :
  at_pc CPreparing (shared w) ->
  (forall r got w', arrives (CFinal (if got : bool then Some (mp_result r =? 0) else None)) w w' -> Q (r, got) w') ->
  ends (mount_in_worker interference c) w Q.
Proof.
  intros Hw HQ. unfold mount_in_worker.
  assert (at_pc (CFinal None) (shared w)) as Hfail.
  { eapply at_pc_step; [done|]. exact (companion_fork_fails (set_companion (shared w) _) eq_refl). }
  destruct (cc_sockets c) as [[ours theirs]|e]; [|apply ends_ret, HQ; by split].
  apply ends_bind, ends_modify. cbn [app]. destruct (cc_fork_error c) as [e|].
  { apply ends_bind. eapply close_ends; [apply remove_fd_second|].
    apply ends_bind. eapply close_ends; [apply remove_fd_head|]. apply ends_ret, HQ. by split. }
  apply ends_bind, fork_ends; [done|]. intros w1 [Hpc1 Hf1 Hm1 Hr1].
  apply ends_bind. eapply close_ends; [rewrite Hf1; apply remove_fd_second|].
  apply ends_bind, outcome_ends; [done|]. intros r got tainted w2 [Hpc2 Hf2 Hm2 Hr2] Ht.
  apply ends_bind. eapply check_owner_ends; [done|done|]. intros w3 [Hpc3 Hf3 Hm3 Hr3].
  apply ends_bind. eapply close_ends; [rewrite Hf3, Hf2; apply remove_fd_head|].
  apply ends_ret, HQ. cbn in *. split; cbn; congruence.
Qed.

Lemma settle_ends r got w (Q : unit -> World -> Prop) :
  at_pc (CFinal (if got : bool then Some (mp_result r =? 0) else None)) (shared w) ->
  (forall w', arrives CDone w w' -> Q tt w') -> ends (settle interference r got) w Q.
Proof.
  set (received := if got then _ else _). intros Hw HQ. unfold settle.
  apply ends_bind, (load_ends (CFinal received)); [done|]. intros w1 Hw1.
  pose proof (companion_final (set_companion (shared w1) (CFinal received)) received eq_refl) as Hstep.
  cbn [status set_companion] in Hstep.
  pose proof (arrives_at _ _ _ Hw1) as Hpc. pose proof (fun pc' => at_pc_step _ pc' _ (shared w1) Hpc) as Hnext.
  assert (forall w', arrives CDone w1 w' -> Q tt w') as HQ'.
  { intros w' Hw'. apply HQ. by eapply arrives_trans. }
  assert (at_pc CDone (shared w1) -> Q tt w1) as Hdone by (intros H; apply HQ'; by split).
  assert (forall from to success, (mp_result r =? 0) = success -> at_pc (CFinalWrite from to success) (shared w1) ->
    ends (PublishSharedResult interference r from to;; mret tt) w1 Q) as Hpublish.
  { intros from to success Er H. apply ends_bind, (publish_ends _ _ _ (CFinalWrite from to success) (CFinalCas from to)
      CDone CDone); [done| | |].
    - intros s. rewrite Er. exact (companion_final_write (set_companion s _) _ _ _ eq_refl).
    - intros s. exact (companion_final_cas (set_companion s _) _ _ eq_refl).
    - intros b w2 Hw2. apply ends_ret, HQ'. by destruct b. }
  assert (at_pc CPendingWrite (shared w1) -> forall r', (mp_result r' =? 0) = false ->
    ends (PublishPendingFailure interference r';; mret tt) w1 Q) as Hpending.
  { intros H r' Er. apply ends_bind, pending_failure_ends; [done|done|]. intros b w2 Hw2. by apply ends_ret, HQ'. }
  destruct (mp_result r =? 0) eqn:Er, (status (shared w1)), got; cbn in *; subst received;
    first [ apply ends_ret, Hdone, Hnext; exact Hstep
          | eapply Hpublish; [reflexivity|apply Hnext; exact Hstep]
          | apply Hpending; [apply Hnext; exact Hstep|done] ].
Qed.

(** The record that the handler leaves for the request, with the state it saw last. *)
Definition reported (h : BootstrapHeader) (plan : ProcessPlan) (topology : Z) (mount : MountPerfResult)
    (state : MountTransactionState) : RuntimeStatusRecord :=
  runtime_status (b_pid h) (b_uid h) (default 0 (ReadProcessStartTime (cc_stat c)))
    (snapshot_generation plan) (plan_generation plan) topology mount state.

(** The transaction is over for the companion, and reported. *)
Record served (h : BootstrapHeader) (plan : ProcessPlan) (w w' : World) : Prop := {
  served_at : at_pc CDone (shared w');
  served_fds : open_fds w' = open_fds w;
  served_mapped : mapped w' = mapped w;
  served_reports : exists topology mount,
    reports w' = reports w ++ [reported h plan topology mount (status (shared w'))];
}.

Lemma report_ends h plan topology mount w w0 (Q : unit -> World -> Prop) :
  arrives CDone w0 w -> (forall w', served h plan w0 w' -> Q tt w') ->
  ends (report interference c h plan topology mount) w Q.
Proof.
  intros Hw HQ. apply ends_bind, (load_ends CDone); [by apply Hw|]. intros w1 Hw1.
  apply ends_modify, HQ. destruct (arrives_trans _ _ _ _ _ Hw Hw1) as [Hpc Hf Hm Hr].
  split; try done. cbn. exists topology, mount. by rewrite Hr.
Qed.

Lemma serve_ends h plan w (Q : unit -> World -> Prop) :
  at_pc CPreparing (shared w) -> (forall w', served h plan w w' -> Q tt w') ->
  ends (serve interference c h plan) w Q.
Proof.
  intros Hw HQ. unfold serve.
  assert (forall w1 result topology, arrives CPreparing w w1 -> (mp_result result =? 0) = false ->
    ends (PublishPendingFailure interference result;; report interference c h plan topology result) w1 Q) as Hfail.
  { intros w1 result topology H1 Er.
    assert (at_pc CPendingWrite (shared w1)) as Hpc.
    { eapply at_pc_step; [by apply H1|]. exact (companion_fails_early (set_companion (shared w1) _) eq_refl). }
    apply ends_bind, pending_failure_ends; [done|done|]. intros b w2 H2.
    eapply report_ends; [|done]. by eapply arrives_trans. }
  destruct (negb _); [by apply Hfail|].
  apply ends_bind, (wait_ready_ends _ CPreparing); [done|]. intros ready w1 H1 Hc. destruct ready.
  - destruct (cc_topology c) as [topology|]; [|by apply Hfail].
    apply ends_bind, mount_in_worker_ends; [by apply H1|]. intros r got w2 H2.
    apply ends_bind, settle_ends; [by apply H2|]. intros w3 H3.
    eapply report_ends; [|done]. eapply arrives_trans; [exact H1|]. by eapply arrives_trans.
  - by apply Hfail.
  - assert (at_pc CMarkCancelled (shared w1)) as Hpc.
    { eapply at_pc_step; [by apply H1|].
      exact (companion_cancelled (set_companion (shared w1) _) eq_refl (Hc eq_refl)). }
    apply ends_bind, (mark_cancelled_ends CMarkCancelled); [by left|done|]. intros b w2 H2.
    eapply report_ends; [|done]. by eapply arrives_trans.
Qed.

(** The descriptors that came with a header that did not. *)
Definition lost_fds : list Z :=
  match cc_received c, cc_descriptors c with
  | None, Some (x, y) => [x; y]
  | _, _ => []
  end.

(** The request that is accepted. *)
Definition accepted : option (BootstrapHeader * ProcessPlan) :=
  match receive_request (cc_received c) (cc_descriptors c) (cc_file c) (cc_mapped c) (cc_incoming c) with
  | Some ((h, _, plan), _) => Some (h, plan)
  | None => None
  end.

Lemma CompanionHandler_ends w (Q : unit -> World -> Prop) :
  (forall x y, cc_descriptors c = Some (x, y) -> 0 <= x /\ 0 <= y) ->
  open_fds w = [] -> mapped w = false -> reports w = [] -> at_pc CPreparing (shared w) ->
  (forall w',
     open_fds w' = lost_fds -> mapped w' = false ->
     match accepted with
     | None => shared w' = shared w /\ reports w' = []
     | Some (h, plan) =>
         at_pc CDone (shared w')
         /\ exists topology mount, reports w' = [reported h plan topology mount (status (shared w'))]
     end -> Q tt w') ->
  ends (CompanionHandler interference c) w Q.
Proof.
  intros Hd Hf Hm Hr Hpc HQ. unfold CompanionHandler. unfold lost_fds, accepted, receive_request in HQ.
  destruct (cc_received c) as [h|]; cbn [ReceiveBootstrap mbind option_bind] in *.
  2:{ apply ends_bind, ends_modify. cbn. apply ends_bind, ends_ret, ends_ret, HQ; try done.
      cbn. rewrite Hf. by destruct (cc_descriptors c) as [[]|]. }
  destruct (cc_descriptors c) as [[x y]|]; cbn [default] in *.
  2:{ apply ends_bind, ends_modify. cbn. by apply ends_bind, ends_ret, ends_ret, HQ. }
  destruct (Hd x y eq_refl) as [Hx Hy]. cbn [id] in *. rewrite (proj2 (Z.leb_le 0 x) Hx), (proj2 (Z.leb_le 0 y) Hy) in *.
  cbn [andb] in *. apply ends_bind, ends_modify. rewrite Hf. cbn [app].
  destruct (negb (valid_bootstrap h)).
  { apply ends_bind. eapply close_ends; [apply remove_fd_head|]. eapply close_ends; [apply remove_fd_head|].
    by apply HQ. }
  destruct (MapSharedState x (cc_file c) (cc_mapped c)) as [state|].
  2:{ apply ends_bind. eapply close_ends; [apply remove_fd_head|]. eapply close_ends; [apply remove_fd_head|].
      by apply HQ. }
  apply ends_bind, ends_modify, ends_bind. eapply close_ends; [apply remove_fd_head|].
  cbn [mbind receiver_bind mret receiver_ret] in HQ. unfold mbind, receiver_bind in HQ.
  destruct (receive_plan h (cc_incoming c)) as [[plan rest]|].
  2:{ apply ends_bind. eapply close_ends; [apply remove_fd_head|]. apply munmap_ends; [done|]. by apply HQ. }
  apply ends_bind, serve_ends; [done|]. intros w1 [Hpc1 Hf1 Hm1 (topology & mount & Hr1)].
  apply ends_bind. eapply close_ends; [rewrite Hf1; apply remove_fd_head|]. apply munmap_ends; [done|].
  apply HQ; [done|done|]. split; [done|]. exists topology, mount. cbn in Hr1 |- *. by rewrite Hr1, Hr.
Qed.
End Refinement.

(** ** Properties *)

(** C10. The handler as it is written is the companion of the protocol. Whatever the kernel answers
    and whatever the application and the worker do between its accesses to the shared memory, it
    returns; when it accepts the request the shared memory is then in a state that the protocol
    reaches with its companion done, so that all the theorems about [reachable] states hold of it,
    and exactly one record was written, with the state that was left; otherwise the memory was not
    touched and nothing written. Every descriptor is closed, once, and the memory unmapped; only
    the descriptors that come with a header that is cut short stay open. *)
Theorem companion_refines_protocol (interference : nat -> State -> State) (c : CompanionCalls) (w : World) :
  (forall n s, rtc other_step s (interference n s)) ->
  (forall success, (mp_result (cc_answer c success) =? 0) = success) ->
  (forall x y, cc_descriptors c = Some (x, y) -> 0 <= x /\ 0 <= y) ->
  open_fds w = [] -> mapped w = false -> reports w = [] -> reachable (set_companion (shared w) CPreparing) ->
  exists w',
    CompanionHandler interference c w = Ok (tt, w') /\ open_fds w' = lost_fds c /\ mapped w' = false
    /\ match accepted c with
       | None => shared w' = shared w /\ reports w' = []
       | Some (h, plan) =>
           reachable (set_companion (shared w') CDone)
           /\ exists topology mount, reports w' = [reported c h plan topology mount (status (shared w'))]
       end.
Proof.
  intros Hothers Hanswer Hd Hf Hm Hr Hpc.
  destruct (CompanionHandler_ends interference c Hothers Hanswer w
    (fun _ w' => open_fds w' = lost_fds c /\ mapped w' = false
       /\ match accepted c with
          | None => shared w' = shared w /\ reports w' = []
          | Some (h, plan) =>
              reachable (set_companion (shared w') CDone)
              /\ exists topology mount, reports w' = [reported c h plan topology mount (status (shared w'))]
          end) Hd Hf Hm Hr Hpc) as ([] & w' & E & H); [by intros|].
  by exists w'.
Qed.

(** The handler has returned and the worker does not run any more. *)
Definition over (s : State) : Prop := companion s = CDone /\ stopped (worker s) = true.

(** All that can still happen to the state of the transaction is that the application cancels it. *)
Lemma over_step s s' : step s s' -> over s -> over s' /\ (status s' = status s
  \/ (status s = kPending \/ status s = kApplying) /\ status s' = kCancelRequested).
Proof.
  unfold over. intros Hstep [Hc Hw]. destruct Hstep as [now s0|s0 s1 H|s0 s1 H].
  - split.
    + unfold app_step. destruct (app s0) as [|d g|c e d g|d|r|]; cbn; repeat first [apply transition_cases; intros|case_match]; done.
    + unfold app_step. destruct (app s0) as [|d g|c e d g|d|r|]; cbn;
        repeat first [apply transition_cases; intros|case_match]; cbn; auto.
  - destruct H; cbn; rewrite ?Hc; (auto || by (match goal with E : worker _ = _ |- _ => by rewrite E in Hw end)).
  - destruct H; congruence.
Qed.

Lemma over_steps s s' : rtc step s s' -> over s -> over s' /\ (status s' = status s
  \/ (status s = kPending \/ status s = kApplying) /\ status s' = kCancelRequested).
Proof.
  induction 1 as [|s s1 s' H _ IH]; intros Ho; [auto|]. destruct (over_step _ _ H Ho) as [Ho1 Hs].
  destruct (IH Ho1) as [Ho' Hs']. split; [done|]. clear IH.
  destruct Hs as [E|[Hs E]], Hs' as [E'|[Hs' E']]; rewrite E in *; rewrite ?E'; auto.
Qed.

(** What each outcome of the status file says of the namespace. That the preflight failed is also said
    when the worker was killed while it applied the rules: the application does not go on then. *)
Definition tells_truth (outcome : TransactionOutcome) (s : State) : Prop :=
  match outcome with
  | kOutcomeNone => False
  | kOutcomeComplete => status s = kComplete /\ namespace s = NsMounted /\ result_ok s = true
  | kOutcomeRollbackComplete => status s = kRollbackComplete /\ (namespace s = NsClean \/ terminated s = true)
  | kOutcomeNamespaceTainted => status s = kNamespaceTainted
  | kFailedPreflight =>
      namespace s = NsClean \/ terminated s = true
      \/ worker s = WKilled /\ in_flight (status s) = true /\ forall received, app s <> AppReturned received
  end.

Lemma outcome_of_state pid uid start snapshot plan topology mount state :
  rs_transaction (runtime_status pid uid start snapshot plan topology mount state)
  = match state with
    | kComplete => kOutcomeComplete
    | kNamespaceTainted => kOutcomeNamespaceTainted
    | kRollbackComplete => kOutcomeRollbackComplete
    | _ => kFailedPreflight
    end.
Proof. by destruct state. Qed.

Lemma reported_truth state s :
  reachable s -> over s -> status s = state \/ (state = kPending \/ state = kApplying) /\ status s = kCancelRequested ->
  forall pid uid start snapshot plan topology mount,
    let record := runtime_status pid uid start snapshot plan topology mount state in
    (rs_enforcement record = kActive <-> status s = kComplete) /\ tells_truth (rs_transaction record) s.
Proof.
  intros Hr [Hc Hw] Hs pid uid start snapshot plan topology mount record.
  destruct (reachable_inv s Hr) as [Ha Hwi _ Hst Hclean _]. unfold status_inv in Hst. unfold app_inv in Ha.
  assert (leased s = true -> in_flight (status s) = true ->
    namespace s = NsClean \/ terminated s = true
    \/ worker s = WKilled /\ in_flight (status s) = true /\ forall received, app s <> AppReturned received) as Hflight.
  { intros Hl Hf. unfold worker_inv in Hwi. destruct (worker s) as [| | | | | | | | | | | |[]|]; try done; try congruence.
    - rewrite Hwi in Hf. done.
    - destruct Hwi as [[?|[E|?]] _]; auto. by rewrite E in Hf.
    - right; right. split_and!; try done. intros [] E; rewrite E in Ha; [|by destruct Ha; congruence].
      by destruct (status s). }
  subst record. cbn [rs_enforcement rs_transaction]. split.
  - cbn. case_bool_decide as E; [|split; [done|]].
    + subst state. destruct Hs as [->|[[?|?] _]]; done.
    + intros E'. destruct Hs as [E2|[_ E2]]; congruence.
  - destruct Hs as [<-|[Hp E]].
    + rewrite outcome_of_state. unfold settled in Hst.
      destruct (leased s) eqn:El, (status s) eqn:E; unfold tells_truth; rewrite ?E; auto; try tauto.
      destruct Hst as [[?|[?|?]] _]; auto; done.
    + rewrite outcome_of_state.
      assert (tells_truth kFailedPreflight s) as H.
      { cbn. destruct (leased s) eqn:El; [|left; by apply Hclean]. apply Hflight; [done|by rewrite E]. }
      by destruct Hp as [->| ->].
Qed.

(** C12. The status file does not promise what does not hold. Its two verdicts, the enforcement and
    the outcome of the transaction, are true when the handler returns and stay true whatever follows:
    it says that the policy is enforced exactly when the transaction is committed for good, and the
    mounts are all in place then and the application is told so; when it says that they were rolled
    back, the namespace has none of them or its processes were signalled to die; when it says that the
    namespace is tainted, the state says so for ever; when it says that the preflight failed, the
    namespace has none of them, or its processes were signalled, or the worker was killed before it
    could answer and the application never goes on. No other outcome is written, and the worker does
    not run any more. *)
Theorem companion_reports_honestly (interference : nat -> State -> State) (c : CompanionCalls) (w w' : World)
    (record : RuntimeStatusRecord) (s : State) :
  (forall n s, rtc other_step s (interference n s)) ->
  (forall success, (mp_result (cc_answer c success) =? 0) = success) ->
  (forall x y, cc_descriptors c = Some (x, y) -> 0 <= x /\ 0 <= y) ->
  open_fds w = [] -> mapped w = false -> reports w = [] -> reachable (set_companion (shared w) CPreparing) ->
  CompanionHandler interference c w = Ok (tt, w') -> record ∈ reports w' ->
  rtc step (set_companion (shared w') CDone) s ->
  stopped (worker s) = true
  /\ (rs_enforcement record = kActive <-> status s = kComplete)
  /\ tells_truth (rs_transaction record) s.
Proof.
  intros Hothers Hanswer Hd Hf Hm Hr Hpc E Hrecord Hsteps.
  destruct (CompanionHandler_ends interference c Hothers Hanswer w
    (fun _ w' => forall record, record ∈ reports w' ->
       reachable (set_companion (shared w') CDone)
       /\ exists h plan topology mount, record = reported c h plan topology mount (status (shared w')))
    Hd Hf Hm Hr Hpc) as ([] & w1 & E1 & H1).
  { intros w1 _ _. destruct (accepted c) as [[h plan]|].
    - intros [Hdone (topology & mount & ->)] r ->%list_elem_of_singleton. split; [done|]. by exists h, plan, topology, mount.
    - intros [_ ->] r Hin. by apply elem_of_nil in Hin. }
  rewrite E in E1. injection E1 as <-. destruct (H1 record Hrecord) as [Hdone (h & plan & topology & mount & ->)].
  destruct (over_steps _ _ Hsteps) as [Hover Hs].
  { split; [done|]. by destruct (reachable_inv _ Hdone) as [_ _ ? _ _ _]. }
  split; [by destruct Hover|]. apply reported_truth; [by eapply reachable_steps|done|exact Hs].
Qed.

(** ** Witnesses *)

(** The next thing a worker does that succeeds in everything. *)
Definition worker_moves (s : State) : State :=
  match worker s with
  | WPreflight =>
      transition s kPending kApplying (fun s => set_leased (set_worker s WMounting)) (fun s => set_worker s WLeaseLost)
  | WMounting => match namespace s with NsMounted => set_worker s WCompleteWrite | _ => set_namespace s NsMounted end
  | WCompleteWrite => set_worker (set_result s true) WCompleteCas
  | WCompleteCas =>
      transition s kApplying kComplete (fun s => set_worker s (WExited true)) (fun s => set_worker s WRollingBack)
  | _ => s
  end.

(** It does as many of them before each access. *)
Definition scheduled (schedule : list nat) (n : nat) (s : State) : State :=
  Nat.iter (nth n schedule 0%nat) worker_moves s.

Lemma worker_moves_steps s : rtc other_step s (worker_moves s).
Proof.
  unfold worker_moves. destruct (worker s) eqn:E; try done; try (apply rtc_once; right).
  - by apply worker_lease.
  - destruct (namespace s) eqn:En; [by apply worker_mounts|by apply worker_all_mounted|by apply worker_mounts].
  - by apply worker_complete_write.
  - by apply worker_complete_cas.
Qed.

Lemma scheduled_steps schedule n s : rtc other_step s (scheduled schedule n s).
Proof.
  unfold scheduled. induction (nth n schedule 0%nat) as [|k IH]; [done|]. cbn.
  etransitivity; [exact IH|apply worker_moves_steps].
Qed.

Definition sample_calls (in_time : bool) : CompanionCalls :=
  {| cc_received := Some (bootstrap_header 7 1010123 small_plan); cc_descriptors := Some (5, 6);
     cc_file := Some small_shared; cc_mapped := true;
     cc_incoming := {| reads := slow_kernel; stream := (SendPlanWithSharedFd 7 1010123 small_plan 4 true slow_kernel).2 |};
     cc_policy := Some small_file;
     cc_status := fun _ => Some (lit "Uid:" ++ [x09] ++ lit "1010123" ++ [x09] ++ lit "1010123" ++ [x0a]);
     cc_context := fun _ => Some (lit "u:r:untrusted_app:s0"); cc_stat := None; cc_topology := Some 9;
     cc_sockets := inl (8, 9); cc_fork_error := None;
     cc_answer := fun success => error_result (if success then 0 else EIO) 0;
     cc_in_time := in_time; cc_late := false; cc_namespace_known := true |}.

Definition fresh : World :=
  {| shared := initial; moment := 0; open_fds := []; mapped := false; reports := [] |}.

Definition outcome_of (schedule : list nat) (in_time : bool)
    : option (MountTransactionState * Namespace * list (EnforcementState * TransactionOutcome * Z)) :=
  match CompanionHandler (scheduled schedule) (sample_calls in_time) fresh with
  | Ok (_, w) => Some (status (shared w), namespace (shared w),
                       (fun r => (rs_enforcement r, rs_transaction r, rs_error r)) <$> reports w)
  | _ => None
  end.

Example committed : outcome_of [0; 0; 5]%nat true = Some (kComplete, NsMounted, [(kActive, kOutcomeComplete, 0)]).
Proof. vm_compute. reflexivity. Qed.

(** The worker commits after the companion has seen it at work and before it is killed: the record
    says that the policy is enforced and gives the error of a dead worker. *)
Example committed_and_owner_dead :
  outcome_of [0; 0; 0; 4; 1]%nat false = Some (kComplete, NsMounted, [(kActive, kOutcomeComplete, EOWNERDEAD)]).
Proof. vm_compute. reflexivity. Qed.

(** The worker takes the lease and mounts after the companion has seen the transaction pending, and
    is killed then: the namespace keeps the mounts, the record says that nothing was begun, and the
    state remains [kApplying]. *)
Example killed_with_mounts_in_place :
  outcome_of [0; 0; 0; 0; 0; 2]%nat false = Some (kApplying, NsMounted, [(kEnforcementFailed, kFailedPreflight, EIO)]).
Proof. vm_compute. reflexivity. Qed.

Lemma companion_refines_protocol_witness :
  exists w', CompanionHandler (scheduled [0; 0; 5]%nat) (sample_calls true) fresh = Ok (tt, w')
    /\ open_fds w' = [] /\ mapped w' = false.
Proof.
  destruct (companion_refines_protocol (scheduled [0; 0; 5]%nat) (sample_calls true) fresh) as (w' & E & Hf & Hm & _);
    [apply scheduled_steps|intros []; reflexivity| |reflexivity..|apply reachable_initial|].
  - intros x y [= <- <-]. split; lia.
  - exists w'. exact (conj E (conj Hf Hm)).
Defined.

Definition after_commit : World :=
  match CompanionHandler (scheduled [0; 0; 5]%nat) (sample_calls true) fresh with Ok (_, w) => w | _ => fresh end.

Lemma companion_reports_honestly_witness :
  exists record, reports after_commit = [record] /\ rs_transaction record = kOutcomeComplete
    /\ namespace (set_companion (shared after_commit) CDone) = NsMounted.
Proof.
  assert (exists record, reports after_commit = [record] /\ rs_transaction record = kOutcomeComplete) as (record & E & Ho).
  { eexists. split; [vm_compute; reflexivity|reflexivity]. }
  exists record. split; [exact E|]. split; [exact Ho|].
  edestruct (companion_reports_honestly (scheduled [0; 0; 5]%nat) (sample_calls true) fresh after_commit record)
    as (_ & _ & Htruth);
    [apply scheduled_steps|intros []; reflexivity| |reflexivity..|apply reachable_initial
    |vm_compute; reflexivity| |apply rtc_refl|].
  - intros x y [= <- <-]. split; lia.
  - rewrite E. left.
  - rewrite Ho in Htruth. apply Htruth.
Defined.
